(* ===== verification/_CoqProject ===== *)
-Q . S2P
Prelude.v
Fifo.v
Ring.v
F64.v
ProcList.v
Types.v
Hotness.v
Mm.v
MmAsync.v
Ucm.v
Process.v
Telem.v
Migrate.v
Qos.v
Inv.v
UcmWp.v
AsyncOk.v
CoolOk.v
CoolPass.v
TableOk.v
AllocOk.v
RequestOk.v
InitOk.v
ProcessOk.v
TelemOk.v
MigrateOk.v
MigrateRun.v
MigrateExit.v
EpochOk.v
EvolveOk.v
Ipc.v
IpcOk.v
FaultOk.v
ServerOk.v
App.v
AppOk.v
Machine.v
System.v
Service.v
Mapping.v
Tiering.v
Findings.v
Bits.v
Bitmap.v
BitmapOk.v
BitmapSets.v
BitmapArea.v
BitmapRefine.v
Pml.v
Links.v
Uthash.v
UthashOk.v
UthashOps.v
UthashDel.v
UthashRefine.v
HashTables.v
Jenkins.v
Kvs.v
KvsInv.v
KvsLog.v
KvsTable.v
KvsAlloc.v
KvsItems.v
KvsClean.v
KvsRequests.v
KvsStart.v
KvsMaint.v
KvsScan.v
KvsStore.v
