(* ===== verification/Prelude.v ===== *)
(** * Nemo: verification of the user-space central manager

    Nemo manages memory in two tiers for unmodified applications.  A manager
    process owns the frames of a fast tier (DRAM) and of a slow tier (CXL
    memory), hands them out to the applications in huge pages of 2 MB, watches
    how often each page is accessed, and moves hot pages to the fast tier and
    cold ones to the slow tier, within budgets that it derives from a target
    miss ratio per application.  A library in each application intercepts its
    [mmap] and [munmap] and asks the manager for memory.

    ** The parts of the program and where they are modelled

    The manager is in src/src/ucm.  Three threads share its state: one serves
    the requests of the applications, one handles the notifications of the
    kernel on their userfaultfds, one runs a round of telemetry and policy at a
    time.

    - Page lists and process list, ds/fifo.c: Fifo.v ([enqueue_page],
      [dequeue_page], [page_list_remove], [next_page], [prev_page]) and
      ProcList.v ([enqueue_process], [process_list_remove], [peek_process],
      with their hand-over-hand locking).
    - Request rings, ds/spsc-ring.c: Ring.v.
    - Doubles: F64.v, over the Standard Library's [SpecFloat].
    - Structs and constants: Types.v.  The record [ucm] gathers the globals:
      the page structs, the process structs, the list headers and links, the
      tables, the bytes of the two tiers, and what each application maps.
    - Hotness levels, core-util.c: Hotness.v.
    - Page tables, offset table, free lists, initialisation: mm.c,
      ds/pa-proc-map.c, type/page.c: Mm.v.
    - Deferred list management and cooling, mm-async.c: MmAsync.v.
    - Allocation and deallocation, policy/alloc.c, ucm.c, stats: Ucm.v.
    - Processes, type/process.c, proc-mgr.c, policy/policy-state.c: Process.v.
    - Telemetry, telem/: Telem.v.
    - Migration, policy/migrate.c, migration.c: Migrate.v.
    - Policy and core loop, policy/qos.c, core.c: Qos.v.
    - Request server and fault handler, ipc/ipc.c, uffd.c: Ipc.v.
    - Hash tables, ds/uthash.h: Uthash.v.
    - Dirty-page logs of virtual machines, ipc/qemu.c, telem/source/qemu-pml.c:
      Pml.v.

    The library of the application, src/src/app: App.v.  The bit and bitmap
    library, src/libs/util: Bits.v and Bitmap.v.

    FlexKVS, src/apps/flexkvs, is a key-value store that runs on Nemo.  Its
    items are in a log of segments, each worker thread appends to a log of its
    own, a hash table finds the items, and a maintenance thread reclaims
    segments.  Jenkins.v is the hash function of server/jenkins_hash.c.  Kvs.v
    has the items of server/iokvs.h, the log of server/ialloc.c, the table of
    server/hashtable.c and the requests of bench/main.c, over the record [kvs]:
    items by address, buckets, headers of segments, and allocators.

    A definition has the name of the function it translates; parts of a
    function (the body of a loop, a critical section) have names of their own.
    A C function becomes a term of the monad [M S], a state and an error: a
    failed assertion is [AssertFail], an invalid pointer [BadPointer], a lock
    taken twice by one thread [SelfDeadlock], a wait that nothing ends
    [Blocked], undefined behaviour [Undefined].  Pointers are addresses of the
    maps that hold the structs, null is [None].  Unsigned integers are wrapped
    at their width where the code computes with them ([u64], [u32]).  A loop
    is [loop fuel body]; a run that exceeds its fuel is an error ([OutOfFuel])
    like the others.

    What the program asks of its environment is a parameter or an input: the
    ioctls of userfaultfd, the pid translation that reads /proc, whether a pid
    is alive, the samples of the perf buffers, the counter differences of the
    CXL device, the descriptors that come with a message, the replies of the
    applications to remap requests, whether [malloc] succeeds, the shared
    memory of a virtual machine.  The configuration is that of the repository:
    PEBS and CXL telemetry, skewness counters, a copy engine for migrations,
    the quality-of-service policy, interception of mappings from 4 KB on.

    ** How the proofs are organised

    [wp m Q s] says that [m] run in [s] returns, with a result and a state that
    satisfy [Q]: it excludes every error, also [OutOfFuel], so a theorem by
    [wp] includes that loops end; [wpx] also says which errors a computation
    may end in.  Their rules and the tactic [wp_step] are in this file, with
    record update ([r <| f := v |>]) and lemmas on lists and machine integers;
    UcmWp.v adds the rules of the manager's state.

    Inv.v states the invariant [ucm_inv] of the manager: every page struct is
    in exactly one list and its fields agree with that list; the tables, the
    rings and the byte counts agree with the lists.  TableOk.v, AsyncOk.v,
    CoolOk.v, CoolPass.v, AllocOk.v, RequestOk.v, InitOk.v, ProcessOk.v,
    TelemOk.v, MigrateOk.v, MigrateRun.v, EpochOk.v, IpcOk.v and FaultOk.v show
    for one component each that its operations keep the invariant and what they
    do.  MigrateExit.v follows a migration whose application has exited.
    EvolveOk.v describes a step by what the applications see of it.  ServerOk.v
    puts the threads together: an [event] is a message, a notification, a
    round, or what an application does to its mappings; [reachable] are the
    states that permitted events lead to from [boot].  An event is one step:
    the interleaving of the threads is that of whole events, and deadlocks
    within one event are errors.  AppOk.v composes the library with the
    manager.

    ** What is shown

    - System.v: in every reachable state, every permitted event ends without
      an error (two failures of floating-point arithmetic in the policy are
      named and left); the frames of different pages are disjoint; the bytes
      that applications read do not change under any event, migrations
      included; a byte written is read back and changes no other; page lists,
      page structs and byte counts are well formed.
    - Service.v: what each request returns and changes, also when it is
      refused; what is left of a process that leaves; the response fits its
      buffer; a round carries out the pending frees.  Mapping.v: [mmap] gives
      zeroed memory, [munmap] gives it back, and the application's side of a
      migration does what the manager relies on.  Tiering.v: which page
      migrates and how much, what a pass of cooling does to the levels, what an
      unmap notification frees, what the manager starts with.
    - Fifo.v, Ring.v, UthashRefine.v and BitmapRefine.v: the data structures
      refine sequences, bounded queues, sequences of items and sets, for any
      sequence of operations of a client; a hash table can stop for want of
      memory, or at 2^31 buckets.  HashTables.v: on the states of
      [ucm_inv] the page tables of Mm.v, finite maps, are the uthash tables of
      Uthash.v.  UthashOk.v, UthashOps.v and UthashDel.v hold the lemmas per
      macro, over the doubly linked sequences of Links.v; BitmapOk.v,
      BitmapSets.v and BitmapArea.v those per function of the bitmap library.
    - ProcList.v: the process list stays in ascending order of the targets, and
      every lock is returned, but for a process that is not in the list.
      Hotness.v: levels are powers of two.  Pml.v: a scan of a dirty-page
      log.
    - KvsStore.v: FlexKVS refines a map from keys to values, for any sequence
      of sets, gets, cleanings, rounds of maintenance and starts of workers;
      it fails only for want of a segment.  KvsInv.v states its invariant
      [kv_inv], with the segments in one role each and the references counted.
      KvsLog.v has the lemmas on items and reference counts, KvsTable.v the
      hash table, KvsAlloc.v and KvsItems.v the allocation of segments and
      items, KvsClean.v the copying of items, KvsRequests.v sets and gets,
      KvsStart.v the start, KvsMaint.v and KvsScan.v the maintenance.
      Jenkins.v: the hash depends on the bytes of the key alone.
    - Findings.v: situations that the theorems exclude by hypothesis, in which
      the code does not do what it is meant to: a process that leaves with a
      free pending and one that exits during a migration, for every reachable
      state; the others as runs of the machine.

    Machine.v is a small instance, two frames of fast and four of slow memory,
    whose runs are evaluated; the theorems on reachable states are instantiated
    on it.

    ** Bounds and fuel

    A page list is walked with fuel one more than its length, a ring is drained
    with fuel given by its capacity, a chain or the sequence of a hash table
    with two more than the number of handles in memory, a bitmap with one more
    than its number of words, a range of memory with two more than its number
    of pages, a round of migration with one more than the pages of the
    process.  The [wp] lemmas prove that they are enough in every state of the
    invariants.  The manager has at most [MAX_PAGES] page structs, so that
    counts do not wrap; addresses are below 2^64.

    In FlexKVS a chain is followed with fuel two more than the number of items
    in memory, the segments of a log with one more than the number of headers,
    the items of a segment with one more than its bytes, the queue of items to
    copy with one more than its cells.  A key and a value have less than 64 KiB
    together, and a segment has room for them (the default is 16 MiB).

    ** Not modelled

    - Input and output: sockets, epoll, device files, /proc, the perf and CXL
      registers, the copy engine, the command line, logging, statistics
      printing, thread and signal set-up.  What they deliver is an input.
    - Interleavings within an event.  The code takes its locks for one list, one
      table or one process at a time; the lists and tables are used under them.
      The marks that tell migrations and unmap notifications apart are modelled
      with their races between events, not between instructions.
    - Forks of an application, and responses read in several parts.
    - The policies fair-share.c and random-evict.c with ds/page-iterator.c: the
      configuration does not build them.
    - The macros of uthash.h that the program does not use (sorting, selecting,
      replacing, insertion in order, the Bloom filter).
    - Of FlexKVS, the servers (sockets and the memcached protocol), the random
      choice of keys, and the interleaving of threads within an operation.
      Maintenance is covered for the states in which it does not scan a segment
      that it has freed before ([maintainable] of KvsScan.v).
    - Failure of [calloc]: a new process struct, and the queue of an allocator of
      FlexKVS, find their memory.
    - Microbenchmarks, tests and the FPGA tools. *)

From stdpp Require Export base gmap list strings functions sorting.
From Stdlib Require Export ZArith Lia.
#[export] Set Default Goal Selector "!".
#[export] Set Default Proof Using "Type".
Open Scope Z_scope.

(** ** Record update *)

(** [Eta R] holds the eta-expansion of a record type, from which
    [mk_setter] derives the update function of each field. *)
Class Eta (R : Type) := eta : R → R.
Class Setter {R E : Type} (g : R → E) := upd : (E → E) → R → R.
Arguments upd {R E} g {Setter} f r : simpl never.

Ltac mk_setter :=
  lazymatch goal with
  | |- @Setter ?R ?E ?g =>
      let c := constr:(_ : Eta R) in
      let b := eval cbv [eta] in c in
      let b := lazymatch b with ?h => eval unfold h in h end in
      let p := eval pattern g in b in
      lazymatch p with
      | ?F _ =>
          let t := eval cbv beta in (λ f : E → E, F (λ r, f (g r))) in
          exact t
      end
  end.

Declare Scope nemo_scope.
Delimit Scope nemo_scope with nemo.
Open Scope nemo_scope.

Notation "r <| f := v |>" := (upd f (λ _, v) r)
  (at level 1, left associativity, f at level 9) : nemo_scope.
Notation "r <| f ::= u |>" := (upd f u r)
  (at level 1, left associativity, f at level 9) : nemo_scope.

(** [rec_simpl] reduces every field of an updated record.  It rewrites with an
    equation about an arbitrary record, which is cheap to check, instead of
    converting one chain of updates into another. *)
Ltac rec_simpl :=
  repeat match goal with
  | |- context [ ?p (@upd ?R ?E ?g ?i ?f ?s) ] =>
      is_const p;
      let H := fresh in
      first [ constr_eq p g; assert (∀ r : R, p (@upd R E g i f r) = f (p r)) as H by reflexivity;
              rewrite (H s); clear H; cbv beta
            | assert (∀ r : R, p (@upd R E g i f r) = p r) as H by reflexivity;
              rewrite (H s); clear H ]
  end.
Ltac rec_simpl_in K :=
  repeat match type of K with
  | context [ ?p (@upd ?R ?E ?g ?i ?f ?s) ] =>
      is_const p;
      let H := fresh in
      first [ constr_eq p g; assert (∀ r : R, p (@upd R E g i f r) = f (p r)) as H by reflexivity;
              rewrite (H s) in K; clear H; cbv beta in K
            | assert (∀ r : R, p (@upd R E g i f r) = p r) as H by reflexivity;
              rewrite (H s) in K; clear H ]
  end.

(** ** Machine integers

    Every C integer is a [Z]; [u64], [u32] and [i64] are the values a store to
    a variable of that width keeps. *)
Definition u64 (x : Z) : Z := x mod 2 ^ 64.
Definition u32 (x : Z) : Z := x mod 2 ^ 32.
Definition i64 (x : Z) : Z := (x + 2 ^ 63) mod 2 ^ 64 - 2 ^ 63.
Definition i32 (x : Z) : Z := (x + 2 ^ 31) mod 2 ^ 32 - 2 ^ 31.

Lemma u64_small x : 0 ≤ x < 2 ^ 64 → u64 x = x.
Proof. apply Z.mod_small. Qed.

Lemma u64_range x : 0 ≤ u64 x < 2 ^ 64.
Proof. by apply Z.mod_pos_bound. Qed.

Lemma u32_small x : 0 ≤ x < 2 ^ 32 → u32 x = x.
Proof. apply Z.mod_small. Qed.

Lemma u32_range x : 0 ≤ u32 x < 2 ^ 32.
Proof. by apply Z.mod_pos_bound. Qed.

Lemma i64_small x : - 2 ^ 63 ≤ x < 2 ^ 63 → i64 x = x.
Proof. intros. unfold i64. rewrite Z.mod_small; lia. Qed.

Lemma i64_range x : - 2 ^ 63 ≤ i64 x < 2 ^ 63.
Proof.
  unfold i64. pose proof (Z.mod_pos_bound (x + 2 ^ 63) (2 ^ 64)). lia.
Qed.

Lemma u64_idemp x : u64 (u64 x) = u64 x.
Proof. apply u64_small, u64_range. Qed.

Lemma u64_add_l x y : u64 (u64 x + y) = u64 (x + y).
Proof. unfold u64. by rewrite Zplus_mod_idemp_l. Qed.

Lemma u64_sub_l x y : u64 (u64 x - y) = u64 (x - y).
Proof. unfold u64. by rewrite Zminus_mod_idemp_l. Qed.

(** ** The state and error monad

    C code that reads and writes a state of type [S] is a value of [M S A].
    [Err] is the end of the program: a failed [assert], a dereference of a
    null or freed pointer, a lock taken twice by its holder, a wait for another
    thread, an operation of undefined behaviour, or a loop cut off by its
    fuel. *)
Inductive err :=
  | AssertFail (loc : string)
  | BadPointer
  | SelfDeadlock
  | Blocked (on : string)
  | Undefined (what : string)
  | OutOfFuel.

Inductive outcome (S A : Type) :=
  | Ok (a : A) (s : S)
  | Err (e : err).
Arguments Ok {S A} a s.
Arguments Err {S A} e.

Definition M (S A : Type) : Type := S → outcome S A.

#[global] Instance M_ret S : MRet (M S) := λ A a s, Ok a s.
#[global] Instance M_bind S : MBind (M S) := λ A B k m s,
  match m s with Ok a s' => k a s' | Err e => Err e end.

Section ops.
Context {S : Type}.

Definition fail {A} (e : err) : M S A := λ _, Err e.
Definition gets {A} (f : S → A) : M S A := λ s, Ok (f s) s.
Definition modify (f : S → S) : M S unit := λ s, Ok tt (f s).
Definition assert_ (loc : string) (b : bool) : M S unit :=
  if b then mret tt else fail (AssertFail loc).
Definition when (b : bool) (m : M S unit) : M S unit :=
  if b then m else mret tt.

(** [*p] for a possibly null pointer. *)
Definition nonnull {A} (o : option A) : M S A :=
  match o with Some a => mret a | None => fail BadPointer end.

(** Read and update the object at address [k] of the store [f]. *)
Definition deref {K V} `{Countable K} (f : S → gmap K V) (k : K) : M S V := λ s,
  match f s !! k with Some v => Ok v s | None => Err BadPointer end.
Definition store {K V} `{Countable K} (f : S → gmap K V) `{!Setter f} (k : K)
    (g : V → V) : M S unit := λ s,
  match f s !! k with
  | Some v => Ok tt (s <| f := <[k := g v]> (f s) |>)
  | None => Err BadPointer
  end.

(** Run [m] on the part [f] of the state. *)
Definition zoom {T A} (f : S → T) `{!Setter f} (m : M T A) : M S A := λ s,
  match m (f s) with
  | Ok a t => Ok a (s <| f := t |>)
  | Err e => Err e
  end.

(** [loop n body x]: iterate [body] from [x] until it returns [inr]. *)
Fixpoint loop {X R} (n : nat) (body : X → M S (X + R)) (x : X) : M S R :=
  match n with
  | O => fail OutOfFuel
  | Datatypes.S n' =>
      r ← body x;
      match r with inl x' => loop n' body x' | inr r => mret r end
  end.

(** [for_list xs body]: the loop that runs [body] on each element in turn. *)
Fixpoint for_list {X} (xs : list X) (body : X → M S unit) : M S unit :=
  match xs with
  | [] => mret tt
  | x :: xs' => body x ;; for_list xs' body
  end.
End ops.

(** ** Total-correctness weakest preconditions *)
Definition wp {S A} (m : M S A) (Q : A → S → Prop) (s : S) : Prop :=
  match m s with Ok a s' => Q a s' | Err _ => False end.

Section wp.
Context {S : Type}.
Implicit Types s : S.

Lemma wp_ok {A} (m : M S A) Q s : wp m Q s ↔ ∃ a s', m s = Ok a s' ∧ Q a s'.
Proof.
  unfold wp. destruct (m s) as [a s'|e]; split; [eauto| |done|].
  - by intros (?&?&[= <- <-]&?).
  - by intros (?&?&?&?).
Qed.

Lemma wp_intro {A} (m : M S A) Q s a s' : m s = Ok a s' → Q a s' → wp m Q s.
Proof. unfold wp. by intros ->. Qed.

Lemma wp_mono {A} (m : M S A) (P Q : A → S → Prop) s :
  wp m P s → (∀ a s', P a s' → Q a s') → wp m Q s.
Proof. unfold wp. destruct (m s); naive_solver. Qed.

Lemma wp_bind {A B} (m : M S A) (k : A → M S B) Q s :
  wp m (λ a s', wp (k a) Q s') s → wp (mbind k m) Q s.
Proof. unfold wp, mbind, M_bind. by destruct (m s). Qed.

Lemma wp_seq_assoc {A B} (m1 : M S unit) (m2 : M S A) (k : M S B) P Q s :
  wp (mbind (λ _, m2) m1) P s → (∀ a s', P a s' → wp k Q s') →
  wp (mbind (λ _, mbind (λ _, k) m2) m1) Q s.
Proof.
  unfold wp, mbind, M_bind. intros H Hk. destruct (m1 s) as [[] s1|]; [|done].
  destruct (m2 s1) as [a s2|]; [|done]. by apply (Hk a).
Qed.

Lemma wp_ret {A} (a : A) (Q : A → S → Prop) s : Q a s → wp (mret a) Q s.
Proof. done. Qed.

Lemma wp_gets {A} (f : S → A) (Q : A → S → Prop) s : Q (f s) s → wp (gets f) Q s.
Proof. done. Qed.

Lemma wp_modify (f : S → S) (Q : unit → S → Prop) s : Q tt (f s) → wp (modify f) Q s.
Proof. done. Qed.

Lemma wp_assert loc b (Q : unit → S → Prop) s :
  b = true → Q tt s → wp (assert_ loc b) Q s.
Proof. by intros ->. Qed.

Lemma wp_when b (m : M S unit) (Q : unit → S → Prop) s :
  (b = true → wp m Q s) → (b = false → Q tt s) → wp (when b m) Q s.
Proof. unfold when. destruct b; intros H1 H2; [by apply H1|by apply wp_ret, H2]. Qed.

Lemma wp_when_true b (m : M S unit) (Q : unit → S → Prop) s :
  b = true → wp m Q s → wp (when b m) Q s.
Proof. by intros ->. Qed.

Lemma wp_when_false b (m : M S unit) (Q : unit → S → Prop) s :
  b = false → Q tt s → wp (when b m) Q s.
Proof. by intros ->. Qed.

Lemma wp_nonnull {A} (o : option A) a (Q : A → S → Prop) s :
  o = Some a → Q a s → wp (nonnull o) Q s.
Proof. by intros ->. Qed.

Lemma wp_deref {K V} `{Countable K} (f : S → gmap K V) k v (Q : V → S → Prop) s :
  f s !! k = Some v → Q v s → wp (deref f k) Q s.
Proof. intros Hk. unfold wp, deref. by rewrite Hk. Qed.

Lemma wp_store {K V} `{Countable K} (f : S → gmap K V) `{!Setter f} k g v
    (Q : unit → S → Prop) s :
  f s !! k = Some v → Q tt (s <| f := <[k := g v]> (f s) |>) →
  wp (store f k g) Q s.
Proof. intros Hk. unfold wp, store. by rewrite Hk. Qed.

Lemma wp_zoom {T A} (f : S → T) `{!Setter f} (m : M T A) Q s :
  wp m (λ a t, Q a (s <| f := t |>)) (f s) → wp (zoom f m) Q s.
Proof. unfold wp, zoom. by destruct (m (f s)). Qed.

(** The loop rule: an invariant and a measure that each round decreases. *)
Lemma wp_loop {X R} (I : X → S → Prop) (mu : X → S → nat) (body : X → M S (X + R))
    (Q : R → S → Prop) n x s :
  I x s → (mu x s < n)%nat →
  (∀ x s, I x s →
     wp (body x) (λ r s', match r with
       | inl x' => I x' s' ∧ (mu x' s' < mu x s)%nat
       | inr r => Q r s'
       end) s) →
  wp (loop n body x) Q s.
Proof.
  intros HI Hmu Hbody. revert x s HI Hmu.
  induction n as [|n IH]; intros x s HI Hmu; [lia|].
  simpl. apply wp_bind. eapply wp_mono; [by apply Hbody|].
  intros [x'|r] s'; simpl; [|by intros].
  intros [HI' Hlt]. apply IH; [done|lia].
Qed.

(** The same with an index that the invariant relates to the state. *)
Lemma wp_loop_index {X R} (I : nat → X → S → Prop) (body : X → M S (X + R)) (Q : R → S → Prop) n k x s :
  I k x s → (k < n)%nat →
  (∀ k x s, I k x s →
     wp (body x) (λ r s', match r with
       | inl x' => ∃ k', (k' < k)%nat ∧ I k' x' s'
       | inr r => Q r s'
       end) s) →
  wp (loop n body x) Q s.
Proof.
  intros HI Hk Hbody. revert k x s HI Hk. induction n as [|n IH]; intros k x s HI Hk; [lia|].
  simpl. apply wp_bind. eapply wp_mono; [by eapply Hbody|].
  intros [x'|r] s'; simpl; [|by intros]. intros (k'&Hlt&HI'). eapply IH; [done|lia].
Qed.

Lemma wp_for_list {X} (xs : list X) (I : list X → S → Prop) (body : X → M S unit)
    (Q : unit → S → Prop) s :
  I xs s →
  (∀ x xs s, I (x :: xs) s → wp (body x) (λ _ s', I xs s') s) →
  (∀ s, I [] s → Q tt s) →
  wp (for_list xs body) Q s.
Proof.
  intros HI Hbody HQ. revert s HI. induction xs as [|x xs IH]; intros s HI.
  - by apply wp_ret, HQ.
  - simpl. apply wp_bind. eapply wp_mono; [by apply Hbody|]. auto.
Qed.
End wp.

(** One step of symbolic execution, at the head of a [wp] goal. *)
Ltac wp_step :=
  lazymatch goal with
  | |- wp (mbind _ _) _ _ => apply wp_bind
  | |- wp (mret _) _ _ => apply wp_ret
  | |- wp (gets _) _ _ => apply wp_gets
  | |- wp (modify _) _ _ => apply wp_modify
  | |- wp (assert_ _ _) _ _ => apply wp_assert
  | |- wp (when _ _) _ _ => apply wp_when; intros
  | |- wp (nonnull _) _ _ => eapply wp_nonnull
  | |- wp (deref _ _) _ _ => eapply wp_deref
  | |- wp (store _ _ _) _ _ => eapply wp_store
  | |- wp (zoom _ _) _ _ => apply wp_zoom
  end.

(** Case analysis on the condition at the head of a [wp] goal. *)
Ltac wp_if H :=
  lazymatch goal with |- wp (if ?b then _ else _) _ _ => destruct b eqn:H end.

(** ** Runs that may fail *)

(** [m] ends in [Q], or fails with an error of [E]. *)
Definition wpx {S A} (E : err → Prop) (m : M S A) (Q : A → S → Prop) (s : S) : Prop :=
  match m s with Ok a s' => Q a s' | Err e => E e end.

Section wpx.
Context {S : Type} (E : err → Prop).
Implicit Types s : S.

Lemma wpx_wp {A} (m : M S A) Q s : wp m Q s → wpx E m Q s.
Proof. unfold wp, wpx. by destruct (m s). Qed.

Lemma wpx_bind {A B} (m : M S A) (k : A → M S B) Q s :
  wpx E m (λ a s', wpx E (k a) Q s') s → wpx E (mbind k m) Q s.
Proof. unfold wpx, mbind, M_bind. by destruct (m s). Qed.

Lemma wpx_mono {A} (m : M S A) (P Q : A → S → Prop) s :
  wpx E m P s → (∀ a s', P a s' → Q a s') → wpx E m Q s.
Proof. unfold wpx. destruct (m s); auto. Qed.

Lemma wpx_ret {A} (a : A) (Q : A → S → Prop) s : Q a s → wpx E (mret a) Q s.
Proof. done. Qed.

Lemma wpx_fail {A} e (Q : A → S → Prop) s : E e → wpx E (fail e) Q s.
Proof. done. Qed.

Lemma wpx_when b (m : M S unit) (Q : unit → S → Prop) s :
  (b = true → wpx E m Q s) → (b = false → Q tt s) → wpx E (when b m) Q s.
Proof. unfold when. destruct b; intros H1 H2; [by apply H1|by apply wpx_ret, H2]. Qed.

Lemma wpx_loop {X R} (I : X → S → Prop) (mu : X → S → nat) (body : X → M S (X + R))
    (Q : R → S → Prop) n x s :
  I x s → (mu x s < n)%nat →
  (∀ x s, I x s →
     wpx E (body x) (λ r s', match r with
       | inl x' => I x' s' ∧ (mu x' s' < mu x s)%nat
       | inr r => Q r s'
       end) s) →
  wpx E (loop n body x) Q s.
Proof.
  intros HI Hmu Hbody. revert x s HI Hmu.
  induction n as [|n IH]; intros x s HI Hmu; [lia|].
  simpl. apply wpx_bind. eapply wpx_mono; [by apply Hbody|].
  intros [x'|r] s'; simpl; [|by intros].
  intros [HI' Hlt]. apply IH; [done|lia].
Qed.

Lemma wpx_zoom {T A} (f : S → T) `{!Setter f} (m : M T A) Q s :
  wpx E m (λ a t, Q a (s <| f := t |>)) (f s) → wpx E (zoom f m) Q s.
Proof. unfold wpx, zoom. by destruct (m (f s)). Qed.

Lemma wpx_loop_end {X R} (body : X → M S (X + R)) (Q : R → S → Prop) n x s :
  wpx E (body x) (λ r s', match r with inl _ => False | inr r => Q r s' end) s →
  wpx E (loop (Datatypes.S n) body x) Q s.
Proof. intros H. simpl. apply wpx_bind. eapply wpx_mono; [exact H|]. by intros [x'|r] s'; simpl. Qed.
End wpx.

(** Only what the computation does in this state matters. *)
Lemma wpx_ext {S A} E (m m' : M S A) Q s : m s = m' s → wpx E m' Q s → wpx E m Q s.
Proof. unfold wpx. by intros ->. Qed.

Lemma wpx_weaken {S A} (E E' : err → Prop) (m : M S A) Q s :
  wpx E m Q s → (∀ e, E e → E' e) → wpx E' m Q s.
Proof. unfold wpx. destruct (m s); auto. Qed.

(** No error is allowed: the run succeeds. *)
Lemma wpx_none {S A} (E : err → Prop) (m : M S A) Q s : wpx E m Q s → (∀ e, ¬ E e) → wp m Q s.
Proof. unfold wpx, wp. destruct (m s); naive_solver. Qed.

(** [m] must fail with the error [e]. *)
Lemma wpx_must {S A} e (m : M S A) s : wpx (eq e) m (λ _ _, False) s → m s = Err e.
Proof. unfold wpx. by destruct (m s) as [|e']; [|intros ->]. Qed.

(** ** Loops over lists *)
Lemma for_list_app {S X} (xs ys : list X) (body : X → M S unit) s :
  for_list (xs ++ ys) body s = (for_list xs body;; for_list ys body) s.
Proof.
  revert s. induction xs as [|x xs IH]; intros s; [done|]. cbn [for_list app].
  unfold mbind, M_bind in *. destruct (body x s) as [[] s'|]; [|done]. apply IH.
Qed.

Lemma for_list_fmap {S X Y} (f : X → Y) (xs : list X) (body : Y → M S unit) s :
  for_list (f <$> xs) body s = for_list xs (λ x, body (f x)) s.
Proof.
  revert s. induction xs as [|x xs IH]; intros s; [done|]. cbn [for_list fmap list_fmap].
  unfold mbind, M_bind in *. destruct (body (f x) s) as [[] s'|]; [|done]. apply IH.
Qed.

(** A step that cannot fail. *)
Ltac wpx_step L := apply wpx_bind, wpx_wp; eapply wp_mono; [L|].

(** [wp_step] for a sequence whose first step cannot fail. *)
Ltac wpx_next :=
  lazymatch goal with
  | |- wpx _ (mbind _ _) _ _ => apply wpx_bind, wpx_wp
  | |- wpx _ (mret _) _ _ => apply wpx_ret
  | |- _ => wp_step
  end.

(** ** Lists *)
Section lists.
Context {A : Type}.
Implicit Types xs ys : list A.

(** The first element of a list that has the property. *)
Lemma first_such (P : A → Prop) `{∀ x, Decision (P x)} xs x ys :
  P x → ∃ b y a, xs ++ x :: ys = b ++ y :: a ∧ P y ∧ (∀ z, z ∈ b → ¬ P z) ∧ ∀ z, z ∈ ys → z ∈ a.
Proof.
  intros Hx. induction xs as [|z xs (b&y&a&Heq&Hy&Hb&Ha)].
  - exists [], x, ys. split_and!; [done..|by intros z ?%not_elem_of_nil|done].
  - destruct (decide (P z)) as [Hz|Hz].
    + exists [], z, (xs ++ x :: ys). split_and!; [done..|by intros ? ?%not_elem_of_nil|set_solver].
    + exists (z :: b), y, a. simpl. rewrite Heq. split_and!; [done..| |done]. set_solver.
Qed.

(** Where an element of a concatenation comes from. *)
Lemma bind_split {B} (f : B → list A) js b x a :
  js ≫= f = b ++ x :: a → ∃ js1 j js2 b' a', js = js1 ++ j :: js2 ∧ f j = b' ++ x :: a' ∧
    b = (js1 ≫= f) ++ b' ∧ a = a' ++ (js2 ≫= f).
Proof.
  revert b. induction js as [|j js IH]; intros b Heq; [by destruct b|]. cbn in Heq.
  apply app_eq_inv in Heq as [(k&Hf&Heq)|(k&Hb&Heq)].
  - destruct k as [|y k]; simpl in Heq.
    + rewrite app_nil_r in Hf. destruct (IH [] (eq_sym Heq)) as (js1&j'&js2&b'&a'&->&Hf'&Hb&->).
      exists (j :: js1), j', js2, b', a'. split_and!; [done..| |done]. by rewrite bind_cons, <- app_assoc, <- Hb, app_nil_r.
    + injection Heq as <- ->. exists [], j, js, b, k. by split_and!.
  - destruct (IH k Heq) as (js1&j'&js2&b'&a'&->&Hf&->&->). exists (j :: js1), j', js2, b', a'.
    split_and!; [done..| |done]. by rewrite Hb, bind_cons, app_assoc.
Qed.

Lemma head_app_cons xs x ys : head (xs ++ x :: ys) = Some (default x (head xs)).
Proof. by destruct xs. Qed.

Lemma last_cons_default x xs : last (x :: xs) = Some (default x (last xs)).
Proof. by rewrite last_cons; destruct (last xs). Qed.

(** A list that is split in two ways around [x] and around [y]. *)
Lemma split_cases (b b' a a' : list A) (x y : A) :
  b ++ x :: a = b' ++ y :: a' →
  (b = b' ∧ x = y ∧ a = a') ∨
  (∃ m, b' = b ++ x :: m ∧ a = m ++ y :: a') ∨
  (∃ m, b = b' ++ y :: m ∧ a' = m ++ x :: a).
Proof.
  revert b'. induction b as [|z b IH]; intros [|z' b'] Heq; simplify_eq/=.
  - by left.
  - right; left. eauto.
  - right; right. eauto.
  - destruct (IH b') as [?|[(m&?&?)|(m&?&?)]]; [done|..]; naive_solver.
Qed.

Lemma app_split_cases (b b' a a' : list A) (y : A) :
  b ++ a = b' ++ y :: a' →
  (∃ m, b = b' ++ y :: m ∧ a' = m ++ a) ∨
  (∃ m, b' = b ++ m ∧ a = m ++ y :: a').
Proof.
  revert b'. induction b as [|z b IH]; intros [|z' b'] Heq; simplify_eq/=.
  - right. by exists [].
  - right. by exists (z' :: b').
  - left. eauto.
  - destruct (IH b') as [(m&?&?)|(m&?&?)]; [done|..]; naive_solver.
Qed.

Lemma nodup_split_unique (b b' a a' : list A) x :
  NoDup (b ++ x :: a) → b ++ x :: a = b' ++ x :: a' → b = b' ∧ a = a'.
Proof.
  intros Hnd Heq.
  destruct (split_cases b b' a a' x x Heq) as [?|[(m&->&->)|(m&->&->)]].
  - naive_solver.
  - exfalso. rewrite NoDup_app, NoDup_cons in Hnd. set_solver.
  - exfalso. rewrite <- app_assoc in Hnd. simpl in Hnd.
    rewrite NoDup_app, NoDup_cons in Hnd. set_solver.
Qed.
End lists.

Definition is_null {A} (o : option A) : bool :=
  match o with Some _ => false | None => true end.

Create HintDb nemo.
#[export] Hint Resolve u64_range u32_range i64_range : nemo.
