(* ===== verification/Fifo.v ===== *)
(** * The intrusive page lists (src/src/ucm/ds/fifo.c, page half)

    A [struct page_list] is a header ([first], [last], [numentries]) and the
    [next]/[prev]/[list] fields of the pages it holds.  The state of this
    file is the link part of the page structs and the headers; the other
    fields of the pages are in [State].  Each operation runs with the list's
    [list_lock] held from its first to its last statement, so it is one step
    here.

    [dll_ok h A] says that the pointers of [h] spell out the sequences [A];
    the theorems say that each pointer operation is the obvious operation on
    the sequences ([enqueue_page] pushes at the front, [dequeue_page] pops at
    the back), and that none of the assertions of the code can fail. *)

From S2P Require Import Prelude.

(** Addresses of pages and of processes. *)
Abbreviation ptr := positive.

Section fifo.
Context {L : Type} `{Countable L}.

(** The fields [next], [prev] and [list] of [struct hemem_page]. *)
Record page_links := PageLinks {
  next : option ptr;
  prev : option ptr;
  list_of : option L;
}.

Record page_list := PageList {
  first : option ptr;
  last_ : option ptr;
  numentries : Z;
}.

Record page_lists := PageLists {
  links : gmap ptr page_links;
  headers : gmap L page_list;
}.

#[global] Instance eta_page_links : Eta page_links :=
  λ r, PageLinks (next r) (prev r) (list_of r).
#[global] Instance set_next : Setter next := ltac:(mk_setter).
#[global] Instance set_prev : Setter prev := ltac:(mk_setter).
#[global] Instance set_list_of : Setter list_of := ltac:(mk_setter).
#[global] Instance eta_page_list : Eta page_list :=
  λ r, PageList (first r) (last_ r) (numentries r).
#[global] Instance set_first : Setter first := ltac:(mk_setter).
#[global] Instance set_last_ : Setter last_ := ltac:(mk_setter).
#[global] Instance set_numentries : Setter numentries := ltac:(mk_setter).
#[global] Instance eta_page_lists : Eta page_lists :=
  λ r, PageLists (links r) (headers r).
#[global] Instance set_links : Setter links := ltac:(mk_setter).
#[global] Instance set_headers : Setter headers := ltac:(mk_setter).

Definition enqueue_page (queue : L) (entry : ptr) : M page_lists unit :=
  e ← deref links entry;
  assert_ "fifo.c:12" (is_null (prev e));;
  q ← deref headers queue;
  store links entry (λ e, e <| next := first q |>);;
  match first q with
  | Some f =>
      fn ← deref links f;
      assert_ "fifo.c:15" (is_null (prev fn));;
      store links f (λ n, n <| prev := Some entry |>)
  | None =>
      assert_ "fifo.c:18" (is_null (last_ q));;
      assert_ "fifo.c:19" (numentries q =? 0);;
      store headers queue (λ q, q <| last_ := Some entry |>)
  end;;
  store headers queue (λ q, q <| first := Some entry |>);;
  store links entry (λ e, e <| list_of := Some queue |>);;
  store headers queue (λ q, q <| numentries ::= λ n, u64 (n + 1) |>).

Definition dequeue_page (queue : L) : M page_lists (option ptr) :=
  q ← deref headers queue;
  match last_ q with
  | None => mret None
  | Some ret =>
      r ← deref links ret;
      store headers queue (λ q, q <| last_ := prev r |>);;
      match prev r with
      | Some l => store links l (λ n, n <| next := None |>)
      | None => store headers queue (λ q, q <| first := None |>)
      end;;
      store links ret (λ n, n <| next := None |> <| prev := None |>);;
      store links ret (λ n, n <| list_of := None |>);;
      q ← deref headers queue;
      assert_ "fifo.c:48" (0 <? numentries q);;
      store headers queue (λ q, q <| numentries ::= λ n, u64 (n - 1) |>);;
      mret (Some ret)
  end.

Definition page_list_remove (list : L) (page : ptr) : M page_lists unit :=
  q ← deref headers list;
  match first q with
  | None =>
      assert_ "fifo.c:58" (is_null (last_ q));;
      assert_ "fifo.c:59" (numentries q =? 0)
  | Some _ =>
      p ← deref links page;
      when (bool_decide (first q = Some page))
        (store headers list (λ q, q <| first := next p |>));;
      when (bool_decide (last_ q = Some page))
        (store headers list (λ q, q <| last_ := prev p |>));;
      match next p with
      | Some n => store links n (λ e, e <| prev := prev p |>)
      | None => mret tt
      end;;
      p ← deref links page;
      match prev p with
      | Some n => store links n (λ e, e <| next := next p |>)
      | None => mret tt
      end;;
      q ← deref headers list;
      assert_ "fifo.c:81" (0 <? numentries q);;
      store headers list (λ q, q <| numentries ::= λ n, u64 (n - 1) |>);;
      store links page (λ e, e <| next := None |>);;
      store links page (λ e, e <| prev := None |>);;
      store links page (λ e, e <| list_of := None |>)
  end.

Definition next_page (list : L) (page : option ptr) : M page_lists (option ptr) :=
  match page with
  | None => q ← deref headers list; mret (first q)
  | Some x =>
      p ← deref links x;
      if bool_decide (list_of p = Some list) then
        if bool_decide (list_of p = Some list) then mret (next p) else mret None
      else mret None
  end.

Definition prev_page (list : L) (page : option ptr) : M page_lists (option ptr) :=
  match page with
  | None => q ← deref headers list; mret (last_ q)
  | Some x =>
      p ← deref links x;
      if bool_decide (list_of p = Some list) then
        if bool_decide (list_of p = Some list) then mret (prev p) else mret None
      else mret None
  end.

(** ** What the pointers mean *)

Definition detached : page_links := PageLinks None None None.

Record dll_ok (h : page_lists) (A : L → list ptr) : Prop := DllOk {
  dll_header l q : headers h !! l = Some q →
    q = PageList (head (A l)) (last (A l)) (Z.of_nat (length (A l)));
  dll_no_header l : headers h !! l = None → A l = [];
  dll_node l b x a : A l = b ++ x :: a →
    links h !! x = Some (PageLinks (head a) (last b) (Some l));
  dll_nodup l : NoDup (A l);
  dll_other x n : links h !! x = Some n → (∀ l, x ∉ A l) → n = detached;
  dll_size : Z.of_nat (size (links h)) < 2 ^ 64;
}.

#[global] Arguments dll_header {h A} _ {l q} _.
#[global] Arguments dll_no_header {h A} _ {l} _.
#[global] Arguments dll_node {h A} _ {l b x a} _.
#[global] Arguments dll_nodup {h A} _ l.
#[global] Arguments dll_other {h A} _ {x n} _ _.
#[global] Arguments dll_size {h A} _.

Lemma dll_in h A l x :
  dll_ok h A → x ∈ A l → ∃ n, links h !! x = Some n ∧ list_of n = Some l.
Proof.
  intros Hok (b&a&Hx)%list_elem_of_split. eexists. split; [by eapply dll_node|done].
Qed.

Lemma dll_list_of h A l x n :
  dll_ok h A → links h !! x = Some n → list_of n = Some l ↔ x ∈ A l.
Proof.
  intros Hok Hn. split.
  - intros Hl. destruct (decide (x ∈ A l)) as [|Hnin]; [done|].
    assert (∀ l', x ∉ A l') as Hno.
    { intros l' Hin. destruct (dll_in h A l' x) as (n'&?&?); [done..|].
      simplify_eq. congruence. }
    apply (dll_other Hok) in Hn; [|done..]. by subst.
  - intros Hin. destruct (dll_in h A l x) as (n'&?&?); [done..|]. congruence.
Qed.

Lemma dll_disjoint h A l l' x : dll_ok h A → x ∈ A l → x ∈ A l' → l = l'.
Proof.
  intros Hok Hl Hl'. destruct (dll_in h A l x) as (n&Hn&?); [done..|].
  apply (dll_list_of h A l' x n) in Hl'; [|done..]. congruence.
Qed.

Lemma nodes_count h xs :
  NoDup xs → (∀ x, x ∈ xs → is_Some (links h !! x)) → (length xs ≤ size (links h))%nat.
Proof.
  intros Hnd Hin.
  rewrite <- size_dom, <- (size_list_to_set (C:=gset ptr) xs) by done.
  apply subseteq_size. intros x. rewrite elem_of_list_to_set, elem_of_dom. apply Hin.
Qed.

Lemma dll_count h A xs :
  dll_ok h A → NoDup xs → (∀ x, x ∈ xs → is_Some (links h !! x)) →
  Z.of_nat (length xs) < 2 ^ 64.
Proof. intros Hok Hnd Hin. pose proof (dll_size Hok). pose proof (nodes_count h xs Hnd Hin). lia. Qed.

Lemma dll_length_size h A l : dll_ok h A → (length (A l) ≤ size (links h))%nat.
Proof.
  intros Hok. apply nodes_count; [apply Hok|].
  intros x Hx. destruct (dll_in h A l x) as (n&->&_); eauto.
Qed.

Lemma dll_length h A l : dll_ok h A → Z.of_nat (length (A l)) < 2 ^ 64.
Proof.
  intros Hok. apply (dll_count h A); [done|apply Hok|].
  intros x Hx. destruct (dll_in h A l x) as (n&->&_); eauto.
Qed.

Lemma dll_fresh h A x : dll_ok h A → links h !! x = Some detached → ∀ l, x ∉ A l.
Proof.
  intros Hok Hx l Hin. destruct (dll_in h A l x) as (n&?&?); [done..|]. by simplify_eq.
Qed.

Lemma dll_length_cons h A l x :
  dll_ok h A → links h !! x = Some detached → Z.of_nat (S (length (A l))) < 2 ^ 64.
Proof.
  intros Hok Hx. apply (dll_count h A (x :: A l)); [done|..].
  - apply NoDup_cons. split; [by eapply dll_fresh|apply Hok].
  - intros y [->|Hy]%elem_of_cons; [eauto|].
    destruct (dll_in h A l y) as (n&->&_); eauto.
Qed.

(** Both heaps hold the same pages and the same lists. *)
Definition same_shape (h h' : page_lists) : Prop :=
  dom (links h') = dom (links h) ∧ dom (headers h') = dom (headers h).

Lemma same_shape_trans h1 h2 h3 :
  same_shape h1 h2 → same_shape h2 h3 → same_shape h1 h3.
Proof. unfold same_shape. naive_solver congruence. Qed.

Lemma same_shape_size h h' : same_shape h h' → size (links h') = size (links h).
Proof. intros [Hd _]. by rewrite <- !size_dom, Hd. Qed.

Lemma dll_ext h A A' : dll_ok h A → (∀ l, A' l = A l) → dll_ok h A'.
Proof.
  intros Hok HA. split.
  - intros l q. rewrite HA. apply Hok.
  - intros l. rewrite HA. apply Hok.
  - intros l b x a. rewrite HA. apply Hok.
  - intros l. rewrite HA. apply Hok.
  - intros x n Hx Hl. apply (dll_other Hok Hx). intros l. by rewrite <- HA.
  - apply Hok.
Qed.

(** Adding a node that is in no list. *)
Lemma dll_alloc h A x :
  dll_ok h A → links h !! x = None → Z.of_nat (S (size (links h))) < 2 ^ 64 →
  dll_ok (PageLists (<[x := detached]> (links h)) (headers h)) A.
Proof.
  intros Hok Hx Hsz. split; simpl.
  - apply Hok.
  - apply Hok.
  - intros l b y a HA. pose proof (dll_node Hok HA) as Hy.
    rewrite lookup_insert_ne; [done|]. intros ->. congruence.
  - apply Hok.
  - intros y n. rewrite lookup_insert. case_decide; [by intros [= <-]|]. apply Hok.
  - rewrite map_size_insert_None by done. lia.
Qed.

(** Removing a node that is in no list. *)
Lemma dll_dealloc h A x :
  dll_ok h A → (∀ l, x ∉ A l) → dll_ok (PageLists (delete x (links h)) (headers h)) A.
Proof.
  intros Hok Hx. split; simpl.
  - apply Hok.
  - apply Hok.
  - intros l b y a HA. rewrite lookup_delete_ne; [by eapply dll_node|].
    intros ->. apply (Hx l). rewrite HA. set_solver.
  - apply Hok.
  - intros y n [_ Hn]%lookup_delete_Some. by apply Hok.
  - pose proof (dll_size Hok). rewrite map_size_delete. destruct (links h !! x); simpl; lia.
Qed.

(** The heap with other lists, empty where the two differ. *)
Lemma dll_headers h A m :
  dll_ok h A →
  (∀ l q, m !! l = Some q → headers h !! l = Some q ∨ A l = [] ∧ q = PageList None None 0) →
  (∀ l, m !! l = None → A l = []) →
  dll_ok (PageLists (links h) m) A.
Proof.
  intros Hok Hm Hno. split; simpl; [|done|apply Hok..].
  intros l q [Hq|[HA ->]]%Hm; [by apply Hok|]. by rewrite HA.
Qed.

(** Replacing the sequence of the list [q] by [xs]. *)
Lemma dll_change h h' A q xs :
  dll_ok h A →
  headers h' = <[q := PageList (head xs) (last xs) (Z.of_nat (length xs))]> (headers h) →
  NoDup xs →
  (∀ y, y ∈ xs → y ∈ A q ∨ links h !! y = Some detached) →
  (∀ b y a, xs = b ++ y :: a →
     links h' !! y = Some (PageLinks (head a) (last b) (Some q))) →
  (∀ y, y ∉ xs →
     links h' !! y = if decide (y ∈ A q) then Some detached else links h !! y) →
  same_shape h h' →
  dll_ok h' (<[q := xs]> A).
Proof.
  intros Hok Hhd Hnd Hfrom Hnode Hrest Hsh.
  assert (∀ y l, l ≠ q → y ∈ A l → y ∉ A q ∧ y ∉ xs) as Hsep.
  { intros y l Hl Hy.
    assert (y ∉ A q) by (intros Hq; apply Hl; by eapply dll_disjoint).
    split; [done|]. intros [?|Hdet]%Hfrom; [done|]. by eapply (dll_fresh h A y). }
  split; [..|rewrite (same_shape_size _ _ Hsh); apply Hok].
  - intros l q'. rewrite Hhd, lookup_insert. case_decide as Hl.
    + subst. rewrite fn_lookup_insert. by intros [= <-].
    + rewrite fn_lookup_insert_ne by done. by apply dll_header.
  - intros l. rewrite Hhd, lookup_insert. case_decide as Hl; [done|].
    rewrite fn_lookup_insert_ne by done. by apply dll_no_header.
  - intros l b y a. destruct (decide (q = l)) as [<-|Hl].
    + rewrite fn_lookup_insert. apply Hnode.
    + rewrite fn_lookup_insert_ne by done. intros Heq.
      destruct (Hsep y l) as [Hq Hxs]; [done|rewrite Heq; set_solver|].
      rewrite Hrest, decide_False by done. by eapply dll_node.
  - intros l. destruct (decide (q = l)) as [<-|Hl].
    + by rewrite fn_lookup_insert.
    + rewrite fn_lookup_insert_ne by done. by eapply dll_nodup.
  - intros y n Hn Hno. pose proof (Hno q) as Hq. rewrite fn_lookup_insert in Hq.
    rewrite Hrest in Hn by done. case_decide as Hy; [by simplify_eq|].
    eapply (dll_other Hok); [done|]. intros l. destruct (decide (q = l)) as [<-|]; [done|].
    specialize (Hno l). by rewrite fn_lookup_insert_ne in Hno.
Qed.

(** The effect of linking [x] between [b] and [a], as equations on lookups. *)
Lemma dll_splice h h' A q b x a :
  dll_ok h A →
  A q = b ++ a →
  links h !! x = Some detached →
  headers h' = <[q := PageList (head (b ++ x :: a)) (last (b ++ x :: a))
                        (Z.of_nat (length (b ++ x :: a)))]> (headers h) →
  links h' !! x = Some (PageLinks (head a) (last b) (Some q)) →
  (∀ y, y ≠ x → links h' !! y =
     (if decide (last b = Some y) then (λ n, n <| next := Some x |>) <$> links h !! y
      else if decide (head a = Some y) then (λ n, n <| prev := Some x |>) <$> links h !! y
      else links h !! y)) →
  same_shape h h' →
  dll_ok h' (<[q := b ++ x :: a]> A).
Proof.
  intros Hok HA Hx Hhd Hlx Hly Hsz.
  pose proof (dll_fresh h A x Hok Hx q) as Hxba. rewrite HA in Hxba.
  pose proof (dll_nodup Hok q) as Hnd. rewrite HA in Hnd.
  apply NoDup_app in Hnd as (Hndb&Hdisj&Hnda).
  eapply dll_change; [done..| | | | |done].
  - apply NoDup_app. rewrite NoDup_cons. set_solver.
  - intros y. rewrite HA. intros [?|[->|?]%elem_of_cons]%elem_of_app; set_solver.
  - intros b' y a' [(->&->&->)|[(m&->&->)|(m&->&->)]]%split_cases; [done|..].
    + rewrite Hly by set_solver. rewrite app_assoc in HA. rewrite (dll_node Hok HA).
      rewrite decide_False by (intros ?%last_Some_elem_of; set_solver).
      destruct m as [|z m].
      { rewrite decide_True by done. by rewrite last_snoc. }
      rewrite decide_False; [by rewrite !last_app_cons|].
      intros [= ->]. rewrite <- app_comm_cons, NoDup_cons in Hnda. set_solver.
    + rewrite Hly by set_solver. rewrite <- app_assoc in HA; simpl in HA.
      rewrite (dll_node Hok HA), last_app_cons. destruct m as [|z m]; [by rewrite decide_True|].
      rewrite decide_False.
      { rewrite decide_False; [done|]. intros ?%head_Some_elem_of. set_solver. }
      intros Hm%(last_Some_elem_of (z :: m)). rewrite NoDup_app, NoDup_cons in Hndb. set_solver.
  - intros y Hy. rewrite Hly, HA by set_solver.
    rewrite decide_False by (intros ?%last_Some_elem_of; set_solver).
    rewrite decide_False by (intros ?%head_Some_elem_of; set_solver).
    rewrite decide_False by set_solver. done.
Qed.

(** Taking [x] out of its list. *)
Lemma dll_cut h h' A q b x a :
  dll_ok h A →
  A q = b ++ x :: a →
  headers h' = <[q := PageList (head (b ++ a)) (last (b ++ a))
                        (Z.of_nat (length (b ++ a)))]> (headers h) →
  links h' !! x = Some detached →
  (∀ y, y ≠ x → links h' !! y =
     (if decide (last b = Some y) then (λ n, n <| next := head a |>) <$> links h !! y
      else if decide (head a = Some y) then (λ n, n <| prev := last b |>) <$> links h !! y
      else links h !! y)) →
  same_shape h h' →
  dll_ok h' (<[q := b ++ a]> A).
Proof.
  intros Hok HA Hhd Hlx Hly Hsz.
  pose proof (dll_nodup Hok q) as Hnd. rewrite HA in Hnd.
  apply NoDup_app in Hnd as (Hndb&Hdisj&[Hxa Hnda]%NoDup_cons).
  assert (x ∉ b) as Hxb by set_solver.
  eapply dll_change; [done..| | | | |done].
  - apply NoDup_app. set_solver.
  - intros y Hy. left. rewrite HA. set_solver.
  - intros b' y a' Heq.
    rewrite Hly by (intros ->; assert (x ∈ b ++ a) by (rewrite Heq; set_solver); set_solver).
    destruct (app_split_cases _ _ _ _ _ Heq) as [(m&->&->)|(m&->&->)].
    + rewrite <- app_assoc in HA; simpl in HA. rewrite (dll_node Hok HA), last_app_cons.
      destruct m as [|z m]; [by rewrite decide_True|].
      rewrite decide_False.
      { rewrite decide_False; [done|]. intros ?%head_Some_elem_of. set_solver. }
      intros Hm%(last_Some_elem_of (z :: m)). rewrite NoDup_app, NoDup_cons in Hndb. set_solver.
    + rewrite app_comm_cons, app_assoc in HA. rewrite (dll_node Hok HA), last_app_cons.
      rewrite decide_False by (intros ?%last_Some_elem_of; set_solver).
      destruct m as [|z m].
      { rewrite decide_True by done. by rewrite app_nil_r. }
      rewrite decide_False; [by rewrite last_app_cons|].
      intros [= ->]. apply NoDup_cons in Hnda. set_solver.
  - intros y Hy. destruct (decide (y = x)) as [->|Hyx].
    + rewrite HA, decide_True by set_solver. done.
    + rewrite Hly, HA by done.
      rewrite decide_False by (intros ?%last_Some_elem_of; set_solver).
      rewrite decide_False by (intros ?%head_Some_elem_of; set_solver).
      rewrite decide_False by set_solver. done.
Qed.

End fifo.

Arguments page_links L : clear implicits.
Arguments page_lists L {_ _} : assert.

(** ** The operations meet their specification *)

(** Simplify the heap after a sequence of stores. *)
Ltac heap_simpl :=
  unfold upd, set_links, set_headers, set_next, set_prev, set_list_of,
    set_first, set_last_, set_numentries in *; simpl in *; simplify_map_eq/=.

(** Every store was to an object that exists. *)
Ltac solve_shape :=
  split; simpl;
  repeat (rewrite dom_insert_lookup_L;
    [|solve [rewrite ?lookup_insert_is_Some'; eauto 10]]); done.

Section fifo_ops.
Context {L : Type} `{Countable L}.
Implicit Types (h : page_lists L) (A : L → list ptr).

Lemma wp_enqueue_page h A q x :
  dll_ok h A →
  is_Some (headers h !! q) →
  links h !! x = Some detached →
  wp (enqueue_page q x)
    (λ _ h', dll_ok h' (<[q := x :: A q]> A) ∧ same_shape h h') h.
Proof.
  intros Hok [hd Hhd] Hx. pose proof (dll_header Hok Hhd) as ->.
  pose proof (dll_length_cons h A q x Hok Hx) as Hlen.
  unfold enqueue_page. repeat (wp_step; try done). simpl.
  destruct (A q) as [|f rest] eqn:HA; simpl in *.
  - repeat (wp_step; heap_simpl; try done).
    apply and_wlog_l; [intros Hsh|solve_shape].
    apply (dll_splice h _ A q [] x []); [done..| | | |done]; simpl.
    + by rewrite !insert_insert_eq.
    + by simplify_map_eq.
    + intros y Hy. by simplify_map_eq.
  - assert (f ≠ x) as Hfx.
    { intros ->. pose proof (dll_node Hok (b:=[]) HA). by simplify_eq. }
    pose proof (dll_node Hok (b:=[]) HA) as Hf. simpl in Hf.
    repeat (wp_step; heap_simpl; try done).
    apply and_wlog_l; [intros Hsh|solve_shape].
    apply (dll_splice h _ A q [] x (f :: rest)); [done..| | | |done]; simpl.
    + rewrite !insert_insert_eq, u64_small by lia. do 2 f_equal. lia.
    + by simplify_map_eq.
    + intros y Hy. destruct (decide (f = y)) as [->|].
      * rewrite decide_True by done. by simplify_map_eq.
      * rewrite decide_False by congruence. by simplify_map_eq.
Qed.

Lemma wp_dequeue_page h A q :
  dll_ok h A →
  is_Some (headers h !! q) →
  wp (dequeue_page q) (λ r h',
    match r with
    | None => A q = [] ∧ h' = h
    | Some x => ∃ b, A q = b ++ [x] ∧ dll_ok h' (<[q := b]> A) ∧ same_shape h h'
    end) h.
Proof.
  intros Hok [hd Hhd]. pose proof (dll_header Hok Hhd) as ->.
  pose proof (dll_length h A q Hok) as Hlen.
  unfold dequeue_page. wp_step. wp_step; [done|]. simpl.
  destruct (last (A q)) as [x|] eqn:Hlast; [|wp_step; split; [by apply last_None|done]].
  apply last_Some in Hlast as [b HA].
  pose proof (dll_node Hok HA) as Hx. simpl in Hx.
  rewrite HA, length_app in Hlen, Hhd; simpl in Hlen, Hhd.
  pose proof (dll_nodup Hok q) as Hnd. rewrite HA in Hnd.
  destruct (last b) as [y|] eqn:Hb.
  - pose proof Hb as [b' ->]%last_Some.
    assert (y ≠ x) as Hyx by (intros ->; rewrite NoDup_app in Hnd; set_solver).
    assert (A q = b' ++ y :: [x]) as HA' by by rewrite HA, <- app_assoc.
    pose proof (dll_node Hok HA') as Hy. simpl in Hy.
    repeat (wp_step; heap_simpl; try done); [apply Z.ltb_lt; lia|].
    exists (b' ++ [y]). split; [done|].
    apply and_wlog_l; [intros Hsh|solve_shape].
    replace (<[q := b' ++ [y]]> A) with (<[q := (b' ++ [y]) ++ []]> A) by by rewrite app_nil_r.
    apply (dll_cut h _ A q _ x []); [done..| | | |done]; simpl.
    + rewrite !insert_insert_eq, app_nil_r, Hb, u64_small by lia.
      do 2 f_equal; [by destruct b'|lia].
    + by simplify_map_eq.
    + intros z Hz. rewrite Hb. destruct (decide (y = z)) as [->|].
      * rewrite decide_True by done. by simplify_map_eq.
      * rewrite decide_False by congruence. by simplify_map_eq.
  - apply last_None in Hb as ->.
    repeat (wp_step; heap_simpl; try done).
    exists []. split; [done|].
    apply and_wlog_l; [intros Hsh|solve_shape].
    apply (dll_cut h _ A q [] x []); [done..| | | |done]; simpl.
    + by rewrite !insert_insert_eq.
    + by simplify_map_eq.
    + intros z Hz. by simplify_map_eq.
Qed.

Lemma wp_page_list_remove h A q b x a :
  dll_ok h A →
  is_Some (headers h !! q) →
  A q = b ++ x :: a →
  wp (page_list_remove q x) (λ _ h',
    dll_ok h' (<[q := b ++ a]> A) ∧ same_shape h h') h.
Proof.
  intros Hok [hd Hhd] HA. pose proof (dll_header Hok Hhd) as ->.
  pose proof (dll_length h A q Hok) as Hlen.
  pose proof (dll_node Hok HA) as Hx.
  pose proof (dll_nodup Hok q) as Hnd.
  rewrite HA, length_app in Hlen; simpl in Hlen.
  rewrite HA in Hnd, Hhd. rewrite head_app_cons, last_app_cons, length_app in Hhd.
  apply NoDup_app in Hnd as (Hndb&Hdisj&[Hxa Hnda]%NoDup_cons).
  unfold page_list_remove. wp_step. wp_step; [done|]. simpl.
  wp_step. wp_step; [done|]. simpl.
  destruct b as [|y b _] using rev_ind; destruct a as [|z a].
  - wp_step. apply wp_when_true; [by apply bool_decide_eq_true|].
    wp_step; [done|]. wp_step. apply wp_when_true; [by apply bool_decide_eq_true|].
    repeat (wp_step; heap_simpl; try done).
    apply and_wlog_l; [intros Hsh|solve_shape].
    apply (dll_cut h _ A q [] x []); [done..| | | |done]; simpl.
    + by rewrite !insert_insert_eq.
    + by simplify_map_eq.
    + intros w Hw. by simplify_map_eq.
  - assert (z ≠ x) as Hzx by set_solver.
    assert (last (x :: z :: a) ≠ Some x) as Hlx.
    { intros Hl%(last_Some_elem_of (z :: a)). set_solver. }
    pose proof (dll_node Hok (b:=[x]) (x:=z) (a:=a) HA) as Hz. simpl in Hz.
    wp_step. apply wp_when_true; [by apply bool_decide_eq_true|].
    wp_step; [done|]. wp_step. apply wp_when_false; [by apply bool_decide_eq_false|].
    repeat (wp_step; heap_simpl; try done).
    apply and_wlog_l; [intros Hsh|solve_shape].
    apply (dll_cut h _ A q [] x (z :: a)); [done..| | | |done]; simpl.
    + rewrite !insert_insert_eq, u64_small by lia. do 2 f_equal. lia.
    + by simplify_map_eq.
    + intros w Hw. destruct (decide (z = w)) as [->|].
      * rewrite decide_True by done. by simplify_map_eq.
      * rewrite decide_False by congruence. by simplify_map_eq.
  - assert (y ≠ x) as Hyx by set_solver.
    assert (default x (head (b ++ [y])) ≠ x) as Hfx.
    { destruct b; set_solver. }
    assert (A q = b ++ y :: [x]) as HA' by by rewrite HA, <- app_assoc.
    pose proof (dll_node Hok HA') as Hy. simpl in Hy. rewrite last_snoc in Hx.
    wp_step. apply wp_when_false; [apply bool_decide_eq_false; congruence|].
    wp_step. apply wp_when_true; [by apply bool_decide_eq_true|].
    repeat (wp_step; heap_simpl; try done); [apply Z.ltb_lt; lia|].
    apply and_wlog_l; [intros Hsh|solve_shape].
    apply (dll_cut h _ A q (b ++ [y]) x []); [done..| | | |done]; simpl.
    + rewrite !insert_insert_eq, app_nil_r, last_snoc, u64_small by lia.
      do 2 f_equal; [by destruct b|lia].
    + by simplify_map_eq.
    + intros w Hw. rewrite last_snoc. destruct (decide (y = w)) as [->|].
      * rewrite decide_True by done. by simplify_map_eq.
      * rewrite decide_False by congruence. by simplify_map_eq.
  - assert (y ≠ x ∧ z ≠ x ∧ y ≠ z) as (Hyx&Hzx&Hyz) by set_solver.
    assert (default x (head (b ++ [y])) ≠ x) as Hfx.
    { destruct b; set_solver. }
    assert (last (x :: z :: a) ≠ Some x) as Hlx.
    { intros Hl%(last_Some_elem_of (z :: a)). set_solver. }
    assert (A q = b ++ y :: x :: z :: a) as HA' by by rewrite HA, <- app_assoc.
    assert (A q = (b ++ [y; x]) ++ z :: a) as HA'' by by rewrite HA', <- app_assoc.
    pose proof (dll_node Hok HA') as Hy. pose proof (dll_node Hok HA'') as Hz.
    rewrite last_snoc in Hx. rewrite last_app_cons in Hz. simpl in Hx, Hy, Hz.
    wp_step. apply wp_when_false; [apply bool_decide_eq_false; congruence|].
    wp_step. apply wp_when_false; [by apply bool_decide_eq_false|].
    repeat (wp_step; heap_simpl; try done); [apply Z.ltb_lt; lia|].
    apply and_wlog_l; [intros Hsh|solve_shape].
    apply (dll_cut h _ A q (b ++ [y]) x (z :: a)); [done..| | | |done]; simpl.
    + rewrite last_app_cons, u64_small by lia. do 2 f_equal; [by destruct b|..].
      rewrite !length_app; simpl; lia.
    + by simplify_map_eq.
    + intros w Hw. rewrite last_snoc. destruct (decide (y = w)) as [->|].
      * rewrite decide_True by done. by simplify_map_eq.
      * rewrite decide_False by congruence. destruct (decide (z = w)) as [->|].
        { rewrite decide_True by done. by simplify_map_eq. }
        rewrite decide_False by congruence. by simplify_map_eq.
Qed.

Lemma dll_cut_detached h h' A q b x a :
  dll_ok h A → A q = b ++ x :: a →
  dll_ok h' (<[q := b ++ a]> A) → same_shape h h' →
  links h' !! x = Some detached.
Proof.
  intros Hok HA Hok' [Hdom _]. pose proof (dll_nodup Hok q) as Hnd. rewrite HA in Hnd.
  apply NoDup_app in Hnd as (?&?&[? ?]%NoDup_cons).
  assert (x ∈ dom (links h')) as [n Hn]%elem_of_dom.
  { rewrite Hdom. apply elem_of_dom. rewrite (dll_node Hok HA). eauto. }
  rewrite Hn. f_equal. apply (dll_other Hok' Hn). intros l.
  destruct (decide (q = l)) as [<-|Hl].
  - rewrite fn_lookup_insert. set_solver.
  - rewrite fn_lookup_insert_ne by done. intros Hin. apply Hl.
    eapply (dll_disjoint h A q l x); [done|rewrite HA; set_solver|done].
Qed.

Lemma wp_next_page h A q o :
  dll_ok h A → is_Some (headers h !! q) →
  (∀ x, o = Some x → is_Some (links h !! x)) →
  wp (next_page q o) (λ r h', h' = h ∧
    match o with
    | None => r = head (A q)
    | Some x => (∀ b a, A q = b ++ x :: a → r = head a) ∧ (x ∉ A q → r = None)
    end) h.
Proof.
  intros Hok [hd Hhd] Ho. unfold next_page. destruct o as [x|].
  - destruct (Ho x eq_refl) as [n Hn]. wp_step. wp_step; [done|].
    pose proof (dll_list_of h A q x n Hok Hn) as Hin.
    case_bool_decide as Hl; wp_step; (split; [done|]); split.
    + intros b a HA. rewrite (dll_node Hok HA) in Hn. by simplify_eq.
    + naive_solver.
    + intros b a HA. exfalso. apply Hl, Hin. rewrite HA. set_solver.
    + done.
  - wp_step. wp_step; [done|]. wp_step. by rewrite (dll_header Hok Hhd).
Qed.

Lemma wp_prev_page h A q o :
  dll_ok h A → is_Some (headers h !! q) →
  (∀ x, o = Some x → is_Some (links h !! x)) →
  wp (prev_page q o) (λ r h', h' = h ∧
    match o with
    | None => r = last (A q)
    | Some x => (∀ b a, A q = b ++ x :: a → r = last b) ∧ (x ∉ A q → r = None)
    end) h.
Proof.
  intros Hok [hd Hhd] Ho. unfold prev_page. destruct o as [x|].
  - destruct (Ho x eq_refl) as [n Hn]. wp_step. wp_step; [done|].
    pose proof (dll_list_of h A q x n Hok Hn) as Hin.
    case_bool_decide as Hl; wp_step; (split; [done|]); split.
    + intros b a HA. rewrite (dll_node Hok HA) in Hn. by simplify_eq.
    + naive_solver.
    + intros b a HA. exfalso. apply Hl, Hin. rewrite HA. set_solver.
    + done.
  - wp_step. wp_step; [done|]. wp_step. by rewrite (dll_header Hok Hhd).
Qed.

(** Membership after an operation, for the other pages. *)
Lemma elem_of_change A l xs y k :
  (y ∈ xs ↔ y ∈ A l) → y ∈ (<[l := xs]> A) k ↔ y ∈ A k.
Proof.
  intros Hy. destruct (decide (l = k)) as [<-|].
  - by rewrite fn_lookup_insert.
  - by rewrite fn_lookup_insert_ne.
Qed.

Lemma elem_of_push A l x y k : y ≠ x → y ∈ (<[l := x :: A l]> A) k ↔ y ∈ A k.
Proof. intros. apply elem_of_change. set_solver. Qed.

Lemma elem_of_cut A l b x a y k :
  A l = b ++ x :: a → y ≠ x → y ∈ (<[l := b ++ a]> A) k ↔ y ∈ A k.
Proof. intros HA ?. apply elem_of_change. rewrite HA. set_solver. Qed.

Lemma elem_of_pop A l b x y k :
  A l = b ++ [x] → y ≠ x → y ∈ (<[l := b]> A) k ↔ y ∈ A k.
Proof. intros HA ?. apply elem_of_change. rewrite HA. set_solver. Qed.

(** ** Walking a list *)

(** The pages that the [next] pointers spell out from [o] on; a list has at
    most as many pages as exist. *)
Fixpoint spell (dir : page_links L → option ptr) (ns : gmap ptr (page_links L)) (fuel : nat)
    (o : option ptr) : list ptr :=
  match fuel, o with
  | S fuel', Some x =>
      x :: match ns !! x with Some n => spell dir ns fuel' (dir n) | None => [] end
  | _, _ => []
  end.

Definition pages_of (h : page_lists L) (l : L) : list ptr :=
  match headers h !! l with Some q => spell next (links h) (size (links h)) (first q) | None => [] end.
Definition pages_of_back (h : page_lists L) (l : L) : list ptr :=
  match headers h !! l with Some q => spell prev (links h) (size (links h)) (last_ q) | None => [] end.

Lemma spell_forward h A l a : ∀ b n,
  dll_ok h A → A l = b ++ a → (length a ≤ n)%nat → spell next (links h) n (head a) = a.
Proof.
  induction a as [|x a IH]; intros b n Hok Hl Hn; [by destruct n|].
  destruct n as [|n]; simpl in Hn; [lia|]. cbn [head spell]. f_equal. rewrite (dll_node Hok Hl).
  cbn [next]. apply (IH (b ++ [x])); [done| |lia]. by rewrite <- app_assoc.
Qed.

Lemma spell_backward h A l b : ∀ a n,
  dll_ok h A → A l = reverse b ++ a → (length b ≤ n)%nat → spell prev (links h) n (head b) = b.
Proof.
  induction b as [|x b IH]; intros a n Hok Hl Hn; [by destruct n|].
  destruct n as [|n]; simpl in Hn; [lia|]. cbn [head spell]. f_equal.
  rewrite reverse_cons, <- app_assoc in Hl. cbn in Hl. rewrite (dll_node Hok Hl).
  cbn [prev]. rewrite last_reverse. apply (IH (x :: a)); [done|done|lia].
Qed.

Lemma pages_of_spec h A l : dll_ok h A → pages_of h l = A l.
Proof.
  intros Hok. unfold pages_of. destruct (headers h !! l) as [q|] eqn:Hq.
  - rewrite (dll_header Hok Hq). cbn [first]. apply (spell_forward h A l (A l) []); [done..|].
    by apply dll_length_size.
  - symmetry. by apply (dll_no_header Hok).
Qed.

Lemma pages_of_back_spec h A l : dll_ok h A → pages_of_back h l = reverse (A l).
Proof.
  intros Hok. unfold pages_of_back. destruct (headers h !! l) as [q|] eqn:Hq.
  - rewrite (dll_header Hok Hq). cbn [last_]. rewrite <- head_reverse.
    apply (spell_backward h A l (reverse (A l)) []); [done|by rewrite reverse_involutive, app_nil_r|].
    rewrite length_reverse. by eapply dll_length_size.
  - by rewrite (dll_no_header Hok Hq).
Qed.

(** ** The abstract queue and the refinement *)

Inductive page_op :=
  | Enqueue (q : L) (x : ptr)
  | Dequeue (q : L)
  | Remove (q : L) (x : ptr)
  | Next (q : L) (o : option ptr)
  | Prev (q : L) (o : option ptr).

Definition run_op (o : page_op) : M (page_lists L) (option ptr) :=
  match o with
  | Enqueue q x => enqueue_page q x;; mret None
  | Dequeue q => dequeue_page q
  | Remove q x => page_list_remove q x;; mret None
  | Next q o => next_page q o
  | Prev q o => prev_page q o
  end.

(** What a client sees: sequences of pages, the newest at the front.  [P] and
    [Q] are the pages and the lists that exist. *)
Inductive queue_step (P : gset ptr) (Q : gset L) :
    (L → list ptr) → page_op → option ptr → (L → list ptr) → Prop :=
  | q_enqueue A q x : q ∈ Q → x ∈ P → (∀ l, x ∉ A l) →
      queue_step P Q A (Enqueue q x) None (<[q := x :: A q]> A)
  | q_dequeue_empty A q : q ∈ Q → A q = [] →
      queue_step P Q A (Dequeue q) None A
  | q_dequeue A q b x : q ∈ Q → A q = b ++ [x] →
      queue_step P Q A (Dequeue q) (Some x) (<[q := b]> A)
  | q_remove A q b x a : q ∈ Q → A q = b ++ x :: a →
      queue_step P Q A (Remove q x) None (<[q := b ++ a]> A)
  | q_remove_empty A q x : q ∈ Q → A q = [] →
      queue_step P Q A (Remove q x) None A
  | q_next_first A q : q ∈ Q →
      queue_step P Q A (Next q None) (head (A q)) A
  | q_next A q b x a : q ∈ Q → A q = b ++ x :: a →
      queue_step P Q A (Next q (Some x)) (head a) A
  | q_next_moved A q x : q ∈ Q → x ∈ P → x ∉ A q →
      queue_step P Q A (Next q (Some x)) None A
  | q_prev_last A q : q ∈ Q →
      queue_step P Q A (Prev q None) (last (A q)) A
  | q_prev A q b x a : q ∈ Q → A q = b ++ x :: a →
      queue_step P Q A (Prev q (Some x)) (last b) A
  | q_prev_moved A q x : q ∈ Q → x ∈ P → x ∉ A q →
      queue_step P Q A (Prev q (Some x)) None A.

Inductive queue_trace (P : gset ptr) (Q : gset L) :
    (L → list ptr) → list (page_op * option ptr) → (L → list ptr) → Prop :=
  | qt_nil A : queue_trace P Q A [] A
  | qt_cons A A' A'' o r tr : queue_step P Q A o r A' → queue_trace P Q A' tr A'' →
      queue_trace P Q A ((o, r) :: tr) A''.

(** Run a sequence of operations, collecting their results. *)
Fixpoint run_ops (os : list page_op) : M (page_lists L) (list (option ptr)) :=
  match os with
  | [] => mret []
  | o :: os' => r ← run_op o; rs ← run_ops os'; mret (r :: rs)
  end.

Lemma wp_page_list_remove_empty h A q x :
  dll_ok h A → is_Some (headers h !! q) → A q = [] →
  wp (page_list_remove q x) (λ _ h', h' = h) h.
Proof.
  intros Hok [hd Hhd] HA. pose proof (dll_header Hok Hhd) as ->. rewrite HA in Hhd.
  unfold page_list_remove. by repeat (wp_step; simpl; try done).
Qed.

Lemma run_op_refines h A o r A' :
  dll_ok h A → queue_step (dom (links h)) (dom (headers h)) A o r A' →
  wp (run_op o) (λ r' h', r' = r ∧ dll_ok h' A' ∧ same_shape h h') h.
Proof.
  intros Hok Hstep.
  assert (same_shape h h) as Hrefl by done.
  destruct Hstep as [A q x Hq Hx Hnew|A q Hq HA|A q b x Hq HA|A q b x a Hq HA|A q x Hq HA
    |A q Hq|A q b x a Hq HA|A q x Hq Hx Hnot|A q Hq|A q b x a Hq HA|A q x Hq Hx Hnot];
    simpl; rewrite ?elem_of_dom in *.
  - assert (links h !! x = Some detached) as Hdet.
    { destruct Hx as [n Hn]. rewrite Hn. f_equal. by apply (dll_other Hok Hn). }
    wp_step. eapply wp_mono; [by apply wp_enqueue_page|]. intros _ h' [??]. by wp_step.
  - eapply wp_mono; [by apply wp_dequeue_page|]. intros [x|] h'; simpl.
    + intros (b&Hb&_). rewrite HA in Hb. by destruct b.
    + by intros [_ ->].
  - eapply wp_mono; [by apply wp_dequeue_page|]. intros [y|] h'; simpl.
    + intros (b'&Hb'&?&?). rewrite HA in Hb'. by apply app_inj_tail in Hb' as [-> ->].
    + intros [Hb' _]. rewrite HA in Hb'. by destruct b.
  - wp_step. eapply wp_mono; [by apply wp_page_list_remove|]. intros _ h' [??]. by wp_step.
  - wp_step. eapply wp_mono; [by eapply wp_page_list_remove_empty|].
    intros _ h' ->. by wp_step.
  - eapply wp_mono; [by apply (wp_next_page h A q None)|]. by intros r h' [-> ->].
  - eapply wp_mono; [apply (wp_next_page h A q (Some x)); [done..|]|].
    + intros ? [= ->]. rewrite (dll_node Hok HA). eauto.
    + intros r h' (->&Hr&_). split; [by eapply Hr|done].
  - eapply wp_mono; [apply (wp_next_page h A q (Some x)); [done..|]|].
    + by intros ? [= ->].
    + intros r h' (->&_&Hr). by rewrite Hr.
  - eapply wp_mono; [by apply (wp_prev_page h A q None)|]. by intros r h' [-> ->].
  - eapply wp_mono; [apply (wp_prev_page h A q (Some x)); [done..|]|].
    + intros ? [= ->]. rewrite (dll_node Hok HA). eauto.
    + intros r h' (->&Hr&_). split; [by eapply Hr|done].
  - eapply wp_mono; [apply (wp_prev_page h A q (Some x)); [done..|]|].
    + by intros ? [= ->].
    + intros r h' (->&_&Hr). by rewrite Hr.
Qed.

Lemma run_ops_refines h A tr A' :
  dll_ok h A → queue_trace (dom (links h)) (dom (headers h)) A tr A' →
  wp (run_ops tr.*1) (λ rs h', rs = tr.*2 ∧ dll_ok h' A' ∧ same_shape h h') h.
Proof.
  intros Hok Htr. remember (dom (links h)) as P eqn:HP. remember (dom (headers h)) as Q eqn:HQ.
  revert h Hok HP HQ. induction Htr as [|A A1 A2 o r tr Hst Htr IH]; intros h Hok -> ->.
  - simpl. by wp_step.
  - simpl. wp_step. eapply wp_mono; [by eapply run_op_refines|].
    intros ? h1 (->&Hok1&Hsh1). wp_step.
    eapply wp_mono; [apply IH; [done|..]; symmetry; apply Hsh1|].
    intros rs h2 (->&?&?). wp_step. eauto using same_shape_trans.
Qed.

(** C5: every sequence of operations on the page lists that respects the
    calling conventions (a page is enqueued only when it is in no list, removed
    only from the list it is in or from an empty one) runs without a failed
    assertion, returns page by page what the abstract queues return, and leaves
    the pointers spelling out the abstract queues in both directions. *)
Theorem page_lists_refine h A tr A' :
  dll_ok h A → queue_trace (dom (links h)) (dom (headers h)) A tr A' →
  ∃ h', run_ops tr.*1 h = Ok tr.*2 h' ∧
    ∀ l, pages_of h' l = A' l ∧ pages_of_back h' l = reverse (A' l).
Proof.
  intros Hok Htr. pose proof (run_ops_refines h A tr A' Hok Htr) as Hrun. unfold wp in Hrun.
  destruct (run_ops tr.*1 h) as [rs h'|]; [|done]. destruct Hrun as (->&Hok'&_).
  exists h'. split; [done|]. intros l. split; [by apply pages_of_spec|by apply pages_of_back_spec].
Qed.
End fifo_ops.

(** Two pages enter a list and leave it in the same order. *)
Definition two_pages : page_lists nat :=
  PageLists (<[1%positive := detached]> {[2%positive := detached]}) {[O := PageList None None 0]}.

Lemma two_pages_ok : dll_ok two_pages (λ _, []).
Proof.
  split; [| |by intros ? []|constructor| |done].
  - intros l q Hq. cbn [two_pages headers] in Hq. by apply lookup_singleton_Some in Hq as [<- <-].
  - done.
  - intros x n Hn _. cbn [two_pages links] in Hn. apply lookup_insert_Some in Hn as [[_ <-]|[_ Hn]]; [done|].
    by apply lookup_singleton_Some in Hn as [_ <-].
Qed.

Lemma page_lists_refine_witness :
  ∃ h', run_ops [Enqueue O 1%positive; Enqueue O 2%positive; Dequeue O; Next O None] two_pages =
    Ok [None; None; Some 1%positive; Some 2%positive] h' ∧ pages_of h' O = [2%positive].
Proof.
  destruct (page_lists_refine two_pages (λ _, [])
    [(Enqueue O 1%positive, None); (Enqueue O 2%positive, None); (Dequeue O, Some 1%positive);
     (Next O None, Some 2%positive)] (<[O := [2%positive]]> (<[O := [2%positive; 1%positive]]>
       (<[O := [1%positive]]> (λ _, []))))) as (h'&Hrun&Hl).
  - apply two_pages_ok.
  - eapply qt_cons; [apply q_enqueue; [by vm_compute..|set_solver]|].
    eapply qt_cons; [apply q_enqueue; [by vm_compute..|]|].
    { intros l. destruct (decide (l = O)) as [->|]; [by rewrite fn_lookup_insert; set_solver|].
      rewrite fn_lookup_insert_ne by done. set_solver. }
    rewrite fn_lookup_insert.
    eapply qt_cons; [apply (q_dequeue _ _ _ _ [2%positive]); [by vm_compute|by rewrite fn_lookup_insert]|].
    eapply qt_cons; [|apply qt_nil]. set (A' := <[O := _]> _).
    assert (Some 2%positive = head (A' O)) as -> by (by unfold A'; rewrite fn_lookup_insert).
    apply q_next_first. by vm_compute.
  - exists h'. split; [exact Hrun|]. rewrite (proj1 (Hl O)). by rewrite fn_lookup_insert.
Defined.
