(* ===== verification/Ring.v ===== *)
(** * The request rings (src/src/ucm/ds/spsc-ring.c)

    A ring of [capacity] cells holds at most [capacity - 1] entries.
    [ring_ok r xs] says that the cells from [tail] to [head] hold the sequence
    [xs], oldest first. *)

From S2P Require Import Prelude Fifo.

(** [struct ring_buf_t].  The cells that have been written are in [buffer];
    the array itself is not initialised. *)
Record ring_buf_t := RingBuf {
  buffer : gmap Z ptr;
  rhead : Z;
  rtail : Z;
  capacity : Z;
}.

#[global] Instance eta_ring_buf_t : Eta ring_buf_t :=
  λ r, RingBuf (buffer r) (rhead r) (rtail r) (capacity r).
#[global] Instance set_buffer : Setter buffer := ltac:(mk_setter).
#[global] Instance set_rhead : Setter rhead := ltac:(mk_setter).
#[global] Instance set_rtail : Setter rtail := ltac:(mk_setter).
#[global] Instance set_capacity : Setter capacity := ltac:(mk_setter).

Definition ring_buf_full (r : ring_buf_t) : bool :=
  let h := u64 (rhead r + 1) in
  let h := if h =? capacity r then 0 else h in
  h =? rtail r.

Definition ring_buf_empty (r : ring_buf_t) : bool :=
  negb (ring_buf_full r) && (rhead r =? rtail r).

Definition ring_buf_size (r : ring_buf_t) : Z :=
  if ring_buf_full r then capacity r
  else if rtail r <=? rhead r then u64 (rhead r - rtail r)
  else u64 (capacity r + rhead r - rtail r).

Definition ring_buf_capacity (r : ring_buf_t) : Z := capacity r.

Definition ring_buf_reset (r : ring_buf_t) : ring_buf_t :=
  r <| rhead := 0 |> <| rtail := 0 |>.

(** [buffer] has just been allocated: nothing in it has been written. *)
Definition ring_buf_init (size : Z) : option ring_buf_t :=
  if size =? 0 then None
  else
    let r := ring_buf_reset (RingBuf ∅ 0 0 size) in
    if ring_buf_empty r then Some r else None.

Definition retreat_pointer (r : ring_buf_t) : ring_buf_t :=
  let r := r <| rtail := u64 (rtail r + 1) |> in
  if rtail r =? capacity r then r <| rtail := 0 |> else r.

Definition advance_pointer (r : ring_buf_t) : ring_buf_t :=
  let r :=
    if ring_buf_full r then
      let r := r <| rtail := u64 (rtail r + 1) |> in
      if rtail r =? capacity r then r <| rtail := 0 |> else r
    else r in
  let r := r <| rhead := u64 (rhead r + 1) |> in
  if rhead r =? capacity r then r <| rhead := 0 |> else r.

Definition ring_buf_put (data : ptr) (r : ring_buf_t) : ring_buf_t :=
  advance_pointer (r <| buffer := <[rhead r := data]> (buffer r) |>).

Definition ring_buf_put2 (data : ptr) (r : ring_buf_t) : Z * ring_buf_t :=
  if ring_buf_full r then (-1, r)
  else (0, advance_pointer (r <| buffer := <[rhead r := data]> (buffer r) |>)).

(** [None] is a read of a cell that was never written. *)
Definition ring_buf_get (r : ring_buf_t) : option (option ptr * ring_buf_t) :=
  if ring_buf_empty r then Some (None, r)
  else
    match buffer r !! rtail r with
    | Some cur_read => Some (Some cur_read, retreat_pointer r)
    | None => None
    end.

(** ** The queue a ring holds *)

Record ring_ok (r : ring_buf_t) (xs : list ptr) : Prop := RingOk {
  ring_cap : 1 < capacity r < 2 ^ 63;
  ring_tail : 0 ≤ rtail r < capacity r;
  ring_len : Z.of_nat (length xs) < capacity r;
  ring_head : rhead r = (rtail r + Z.of_nat (length xs)) mod capacity r;
  ring_cells i x : xs !! i = Some x →
    buffer r !! ((rtail r + Z.of_nat i) mod capacity r) = Some x;
}.

(** The index after [i]. *)
Definition wrap_succ (cap i : Z) : Z := if i + 1 =? cap then 0 else i + 1.

Lemma wrap_succ_mod cap i : 0 ≤ i < cap → wrap_succ cap i = (i + 1) mod cap.
Proof.
  intros Hi. unfold wrap_succ. case_match eqn:He.
  - apply Z.eqb_eq in He as ->. by rewrite Z_mod_same_full.
  - apply Z.eqb_neq in He. rewrite Z.mod_small; lia.
Qed.

Lemma wrap_succ_u64 cap i :
  0 ≤ i < cap → cap < 2 ^ 63 →
  (if u64 (i + 1) =? cap then 0 else u64 (i + 1)) = wrap_succ cap i.
Proof. intros. unfold wrap_succ. by rewrite u64_small by lia. Qed.

Section ring.
Context (r : ring_buf_t) (xs : list ptr) (Hr : ring_ok r xs).

Lemma ring_head_range : 0 ≤ rhead r < capacity r.
Proof using Hr. destruct Hr as [? ? ? Hh ?]. rewrite Hh. apply Z.mod_pos_bound. lia. Qed.

(** The head in terms of the tail, with the wrap-around written out. *)
Lemma ring_head_cases :
  rhead r = rtail r + Z.of_nat (length xs) ∧ rtail r + Z.of_nat (length xs) < capacity r ∨
  rhead r = rtail r + Z.of_nat (length xs) - capacity r ∧
    capacity r ≤ rtail r + Z.of_nat (length xs).
Proof using Hr.
  destruct Hr as [? ? ? Hh ?]. rewrite Hh.
  destruct (decide (rtail r + Z.of_nat (length xs) < capacity r)).
  - left. rewrite Z.mod_small; lia.
  - right. split; [|lia]. symmetry. apply (Z.mod_unique_pos _ _ 1); lia.
Qed.

Lemma ring_buf_full_spec :
  ring_buf_full r = bool_decide (Z.of_nat (length xs) = capacity r - 1).
Proof using Hr.
  pose proof ring_head_range as Hh. pose proof ring_head_cases as Hc.
  destruct Hr as [? ? ? ? ?]. unfold ring_buf_full. cbv zeta.
  rewrite wrap_succ_u64 by lia. unfold wrap_succ.
  case_bool_decide; repeat case_match; lia.
Qed.

Lemma ring_buf_empty_spec : ring_buf_empty r = bool_decide (xs = []).
Proof using Hr.
  pose proof ring_head_cases as Hc. unfold ring_buf_empty. rewrite ring_buf_full_spec.
  destruct Hr as [? ? ? ? ?]. destruct xs as [|x xs']; simpl in *.
  - rewrite bool_decide_eq_false_2 by lia. simpl. lia.
  - case_bool_decide; simpl; [done|]. lia.
Qed.

Lemma ring_buf_size_spec :
  ring_buf_size r =
    if bool_decide (Z.of_nat (length xs) = capacity r - 1)
    then Z.of_nat (length xs) + 1 else Z.of_nat (length xs).
Proof using Hr.
  pose proof ring_head_cases as Hc. unfold ring_buf_size. rewrite ring_buf_full_spec.
  destruct Hr as [? ? ? ? ?]. case_bool_decide; [lia|].
  case_match; rewrite u64_small; lia.
Qed.

Lemma retreat_pointer_spec x xs' : xs = x :: xs' → ring_ok (retreat_pointer r) xs'.
Proof using Hr.
  intros Hxs. pose proof Hr as [Hc Ht Hl Hh Hcell]. rewrite Hxs in *. simpl in *.
  assert (retreat_pointer r = r <| rtail := (rtail r + 1) mod capacity r |>) as ->.
  { rewrite <- wrap_succ_mod, <- wrap_succ_u64 by lia. unfold retreat_pointer, upd; simpl.
    by case_match. }
  unfold upd; split; simpl.
  - done.
  - apply Z.mod_pos_bound. lia.
  - lia.
  - rewrite Zplus_mod_idemp_l, Hh. f_equal. lia.
  - intros i y Hi. rewrite Zplus_mod_idemp_l, <- (Hcell (S i) y Hi). do 2 f_equal. lia.
Qed.

(** Writing the cell at [head] does not touch the entries. *)
Lemma ring_write_ok x : ring_ok (r <| buffer := <[rhead r := x]> (buffer r) |>) xs.
Proof using Hr.
  pose proof ring_head_range as Hhr. pose proof Hr as [Hc Ht Hl Hh Hcell].
  unfold upd; split; simpl; [done..|].
  intros i y Hi. pose proof (lookup_lt_Some _ _ _ Hi).
  rewrite lookup_insert_ne; [by apply Hcell|]. rewrite Hh. intros Heq.
  apply Z.cong_iff_ex in Heq as [k Hk]. assert (k = 0 ∨ k ≤ -1 ∨ 1 ≤ k) as [->|[]] by lia; nia.
Qed.

Lemma advance_pointer_nonfull x :
  Z.of_nat (length xs) ≠ capacity r - 1 →
  buffer r !! rhead r = Some x →
  ring_ok (advance_pointer r) (xs ++ [x]).
Proof using Hr.
  intros Hfull Hx. pose proof ring_head_range as Hhr. pose proof ring_buf_full_spec as Hf.
  rewrite bool_decide_eq_false_2 in Hf by done.
  pose proof Hr as [Hc Ht Hl Hh Hcell].
  assert (advance_pointer r = r <| rhead := (rhead r + 1) mod capacity r |>) as ->.
  { rewrite <- wrap_succ_mod, <- wrap_succ_u64 by lia. unfold advance_pointer, upd.
    rewrite Hf. simpl. by case_match. }
  unfold upd; split; simpl.
  - done.
  - done.
  - rewrite length_app; simpl. lia.
  - rewrite Hh, Zplus_mod_idemp_l, length_app. f_equal. simpl. lia.
  - intros i y [[_ Hi]|[Hi Hy]]%lookup_snoc_Some; simplify_eq.
    + by apply Hcell.
    + by rewrite <- Hh.
Qed.
End ring.

Lemma ring_full_retreat r xs :
  ring_ok r xs → Z.of_nat (length xs) = capacity r - 1 →
  advance_pointer r = advance_pointer (retreat_pointer r).
Proof.
  intros Hr Hfull. destruct xs as [|x xs']; [destruct Hr; simpl in *; lia|].
  pose proof (ring_buf_full_spec r _ Hr) as Hf.
  pose proof (ring_buf_full_spec _ _ (retreat_pointer_spec r _ Hr x xs' eq_refl)) as Hf'.
  rewrite bool_decide_eq_true_2 in Hf by done.
  rewrite bool_decide_eq_false_2 in Hf'.
  - unfold advance_pointer. rewrite Hf, Hf'. done.
  - unfold retreat_pointer, upd; simpl in *. case_match; simpl; lia.
Qed.

(** [ring_buf_put] appends, dropping the oldest entry of a full ring. *)
Lemma ring_buf_put_spec r xs x :
  ring_ok r xs →
  ring_ok (ring_buf_put x r)
    (if bool_decide (Z.of_nat (length xs) = capacity r - 1)
     then drop 1 xs ++ [x] else xs ++ [x]).
Proof.
  intros Hr. unfold ring_buf_put. pose proof (ring_write_ok r xs Hr x) as Hw.
  case_bool_decide as Hfull.
  - destruct xs as [|y xs']; [destruct Hr; simpl in *; lia|]. simpl.
    rewrite (ring_full_retreat _ _ Hw) by done.
    pose proof (retreat_pointer_spec _ _ Hw y xs' eq_refl) as Hr'.
    assert (rhead (retreat_pointer (r <| buffer := <[rhead r := x]> (buffer r) |>)) = rhead r ∧
      buffer (retreat_pointer (r <| buffer := <[rhead r := x]> (buffer r) |>)) = <[rhead r := x]> (buffer r) ∧
      capacity (retreat_pointer (r <| buffer := <[rhead r := x]> (buffer r) |>)) = capacity r)
      as (E1&E2&E3) by (unfold retreat_pointer, upd; simpl; by case_match).
    apply advance_pointer_nonfull; [done|..].
    + rewrite E3, drop_0. simpl in Hfull. lia.
    + rewrite E1, E2. by simplify_map_eq.
  - apply (advance_pointer_nonfull _ _ Hw); [done|]. unfold upd; simpl. by simplify_map_eq.
Qed.

Lemma ring_buf_put2_spec r xs x :
  ring_ok r xs →
  if bool_decide (Z.of_nat (length xs) = capacity r - 1)
  then ring_buf_put2 x r = (-1, r)
  else ∃ r', ring_buf_put2 x r = (0, r') ∧ ring_ok r' (xs ++ [x]).
Proof.
  intros Hr. pose proof (ring_buf_put_spec r xs x Hr) as Hp. unfold ring_buf_put2, ring_buf_put in *.
  rewrite (ring_buf_full_spec r xs Hr). case_bool_decide; [done|]. eauto.
Qed.

Lemma ring_buf_get_spec r xs :
  ring_ok r xs →
  match xs with
  | [] => ring_buf_get r = Some (None, r)
  | x :: xs' => ∃ r', ring_buf_get r = Some (Some x, r') ∧ ring_ok r' xs'
  end.
Proof.
  intros Hr. unfold ring_buf_get. rewrite (ring_buf_empty_spec r xs Hr).
  destruct xs as [|x xs']; [done|].
  rewrite bool_decide_eq_false_2 by done.
  pose proof (ring_cells _ _ Hr 0 x eq_refl) as Hc.
  rewrite Z.add_0_r, Z.mod_small in Hc by apply Hr. rewrite Hc.
  eexists. split; [done|]. by eapply retreat_pointer_spec.
Qed.

Lemma ring_buf_get_capacity r o r' : ring_buf_get r = Some (o, r') → capacity r' = capacity r.
Proof.
  unfold ring_buf_get, retreat_pointer, upd. repeat case_match; intros [=]; by subst.
Qed.

Lemma ring_buf_put_capacity r x : capacity (ring_buf_put x r) = capacity r.
Proof. unfold ring_buf_put, advance_pointer, upd. by repeat case_match. Qed.

Lemma ring_buf_init_spec size :
  0 ≤ size < 2 ^ 63 →
  match ring_buf_init size with
  | Some r => 2 ≤ size ∧ ring_ok r [] ∧ capacity r = size
  | None => size ≤ 1
  end.
Proof.
  intros Hs. unfold ring_buf_init, ring_buf_empty, ring_buf_full, ring_buf_reset, upd,
    set_rtail, set_rhead; cbn [rhead rtail capacity buffer].
  destruct (Z.eqb_spec size 0); [lia|]. rewrite u64_small by lia.
  destruct (Z.eqb_spec (0 + 1) size); simpl; [lia|].
  split; [lia|]. split; [|done]. split; simpl; [lia..| |done].
  by rewrite Z.mod_0_l by lia.
Qed.

(** ** The ring as a bounded queue *)
Inductive ring_op := Put (x : ptr) | Put2 (x : ptr) | Get.
Inductive ring_res := Done | Refused | Got (o : option ptr).

(** [None] is a read of a cell that was never written. *)
Fixpoint run_ring (os : list ring_op) (r : ring_buf_t) : option (list ring_res * ring_buf_t) :=
  match os with
  | [] => Some ([], r)
  | o :: os' =>
      '(res, r1) ← match o with
        | Put x => Some (Done, ring_buf_put x r)
        | Put2 x => let '(rc, r1) := ring_buf_put2 x r in Some (if rc =? 0 then Done else Refused, r1)
        | Get => '(o, r1) ← ring_buf_get r; Some (Got o, r1)
        end;
      '(ress, r2) ← run_ring os' r1;
      Some (res :: ress, r2)
  end.

(** A queue of at most [n] entries, oldest first. *)
Definition queue_op (n : nat) (o : ring_op) (xs : list ptr) : ring_res * list ptr :=
  match o with
  | Put x => (Done, if bool_decide (length xs = n) then drop 1 xs ++ [x] else xs ++ [x])
  | Put2 x => if bool_decide (length xs = n) then (Refused, xs) else (Done, xs ++ [x])
  | Get => (Got (head xs), tail xs)
  end.

Fixpoint run_queue (n : nat) (os : list ring_op) (xs : list ptr) : list ring_res * list ptr :=
  match os with
  | [] => ([], xs)
  | o :: os' =>
      let '(res, xs1) := queue_op n o xs in
      let '(ress, xs2) := run_queue n os' xs1 in (res :: ress, xs2)
  end.

Lemma full_length (xs : list ptr) cap :
  1 < cap → bool_decide (Z.of_nat (length xs) = cap - 1) = bool_decide (length xs = Z.to_nat (cap - 1)).
Proof. intros. apply bool_decide_ext. lia. Qed.

Lemma ring_buf_put2_capacity r x : capacity (ring_buf_put2 x r).2 = capacity r.
Proof. unfold ring_buf_put2. case_match; [done|]. apply (ring_buf_put_capacity r x). Qed.

Lemma run_ring_refines os : ∀ r xs,
  ring_ok r xs → ∃ r', run_ring os r = Some ((run_queue (Z.to_nat (capacity r - 1)) os xs).1, r') ∧
    ring_ok r' (run_queue (Z.to_nat (capacity r - 1)) os xs).2.
Proof.
  induction os as [|o os IH]; intros r xs Hr; [by exists r|].
  pose proof (ring_cap _ _ Hr) as Hcap. cbn [run_ring run_queue].
  assert (∃ r1, (match o with
        | Put x => Some (Done, ring_buf_put x r)
        | Put2 x => let '(rc, r1) := ring_buf_put2 x r in Some (if rc =? 0 then Done else Refused, r1)
        | Get => '(o, r1) ← ring_buf_get r; Some (Got o, r1)
        end) = Some ((queue_op (Z.to_nat (capacity r - 1)) o xs).1, r1) ∧
      ring_ok r1 (queue_op (Z.to_nat (capacity r - 1)) o xs).2 ∧ capacity r1 = capacity r)
    as (r1&Hop&Hr1&Hc1).
  { destruct o as [x|x|]; cbn [queue_op].
    - eexists. split; [done|]. cbn [snd]. rewrite <- full_length by lia.
      split; [by apply ring_buf_put_spec|apply ring_buf_put_capacity].
    - pose proof (ring_buf_put2_spec r xs x Hr) as Hp. pose proof (ring_buf_put2_capacity r x) as Hpc.
      rewrite full_length in Hp by lia. case_bool_decide.
      + rewrite Hp. by exists r.
      + destruct Hp as (r1&Hp&?). rewrite Hp in *. by exists r1.
    - pose proof (ring_buf_get_spec r xs Hr) as Hg. destruct xs as [|x xs]; [rewrite Hg; by exists r|].
      destruct Hg as (r1&Hg&?). rewrite Hg. exists r1. by eauto using ring_buf_get_capacity. }
  rewrite Hop. cbn [mbind option_bind]. destruct (queue_op _ o xs) as [res xs1]. cbn [fst snd] in Hr1.
  destruct (IH r1 xs1 Hr1) as (r2&Hrun&Hr2). rewrite Hc1 in Hrun, Hr2. rewrite Hrun. cbn [mbind option_bind].
  exists r2. by destruct (run_queue _ os xs1) as [ress xs2].
Qed.

Lemma run_ring_capacity os : ∀ r ress r', run_ring os r = Some (ress, r') → capacity r' = capacity r.
Proof.
  induction os as [|o os IH]; intros r ress r'; cbn; [by intros [= _ <-]|].
  destruct (match o with Put _ => _ | _ => _ end) as [[res r1]|] eqn:Ho; [|done]. cbn.
  destruct (run_ring os r1) as [[ress' r2]|] eqn:Hr; [|done]. cbn. intros [= _ <-].
  rewrite (IH _ _ _ Hr). destruct o as [x|x|].
  - injection Ho as _ <-. apply ring_buf_put_capacity.
  - pose proof (ring_buf_put2_capacity r x) as Hc. destruct (ring_buf_put2 x r). by injection Ho as _ <-.
  - destruct (ring_buf_get r) as [[o r3]|] eqn:Hg; [|done]. injection Ho as _ <-. by eapply ring_buf_get_capacity.
Qed.

(** C24: a ring made with [size] cells behaves, for every sequence of
    [ring_buf_put], [ring_buf_put2] and [ring_buf_get], like a first-in
    first-out queue of at most [size - 1] entries: [ring_buf_put2] refuses an
    entry of a full ring, [ring_buf_put] drops the oldest one, and no cell is
    read before it was written. *)
Theorem ring_refines_queue size os :
  2 ≤ size < 2 ^ 63 →
  ∃ r r', ring_buf_init size = Some r ∧
    run_ring os r = Some ((run_queue (Z.to_nat (size - 1)) os []).1, r') ∧
    ring_buf_empty r' = bool_decide ((run_queue (Z.to_nat (size - 1)) os []).2 = []).
Proof.
  intros Hs. pose proof (ring_buf_init_spec size ltac:(lia)) as Hi.
  destruct (ring_buf_init size) as [r|]; [|lia]. destruct Hi as (_&Hr&<-).
  destruct (run_ring_refines os r [] Hr) as (r'&Hrun&Hr'). exists r, r'.
  split_and!; [done..|]. by apply ring_buf_empty_spec.
Qed.

Lemma ring_refines_queue_witness :
  2 ≤ 3 < 2 ^ 63 ∧ ∃ r r', ring_buf_init 3 = Some r ∧
    run_ring [Put2 1%positive; Put2 2%positive; Put2 3%positive; Get; Put 4%positive; Put 5%positive; Get] r =
      Some ([Done; Done; Refused; Got (Some 1%positive); Done; Done; Got (Some 4%positive)], r').
Proof.
  split; [lia|].
  destruct (ring_refines_queue 3 [Put2 1%positive; Put2 2%positive; Put2 3%positive; Get; Put 4%positive;
    Put 5%positive; Get]) as (r&r'&Hi&Hrun&_); [lia|]. exists r, r'. by split.
Defined.

Lemma run_queue_puts n xs : ∀ ys, (length ys + length xs ≤ n)%nat →
  run_queue n (Put2 <$> xs) ys = (replicate (length xs) Done, ys ++ xs).
Proof.
  induction xs as [|x xs IH]; intros ys Hn; cbn; [by rewrite app_nil_r|]. cbn in Hn.
  rewrite bool_decide_false by lia. rewrite IH by (rewrite length_app; cbn; lia).
  by rewrite <- app_assoc.
Qed.

(** [ring_buf_size] counts one entry too many when the ring is full: with
    [size - 1] entries, the most that fit, it reports [size]. *)
Theorem ring_size_overcounts size xs :
  2 ≤ size < 2 ^ 63 → Z.of_nat (length xs) = size - 1 →
  ∃ r r', ring_buf_init size = Some r ∧
    run_ring (Put2 <$> xs) r = Some (replicate (length xs) Done, r') ∧
    ring_buf_size r' = Z.of_nat (length xs) + 1 ∧ ∀ x, ring_buf_put2 x r' = (-1, r').
Proof.
  intros Hs Hlen. pose proof (ring_buf_init_spec size ltac:(lia)) as Hi.
  destruct (ring_buf_init size) as [r|]; [|lia]. destruct Hi as (_&Hr&<-).
  destruct (run_ring_refines (Put2 <$> xs) r [] Hr) as (r'&Hrun&Hr').
  assert (capacity r' = capacity r) as Hc by (eapply run_ring_capacity; exact Hrun).
  rewrite run_queue_puts in Hrun, Hr' by (cbn; lia). cbn [fst snd app] in Hrun, Hr'.
  exists r, r'. split; [done|]. split; [done|]. split.
  - rewrite (ring_buf_size_spec _ _ Hr'), bool_decide_true by lia. done.
  - intros x. pose proof (ring_buf_put2_spec _ _ x Hr') as Hp. by rewrite bool_decide_true in Hp by lia.
Qed.

Lemma ring_size_overcounts_witness :
  2 ≤ 3 < 2 ^ 63 ∧ ∃ r r', ring_buf_init 3 = Some r ∧
    run_ring [Put2 7%positive; Put2 8%positive] r = Some ([Done; Done], r') ∧ ring_buf_size r' = 3.
Proof.
  split; [lia|]. destruct (ring_size_overcounts 3 [7%positive; 8%positive]) as (r&r'&Hi&Hrun&Hs&_); [lia|done|].
  exists r, r'. by split_and!.
Defined.
