(* ===== verification/F64.v ===== *)
(** * Doubles

    The C [double]s of the policy code are IEEE 754 binary64 numbers, as
    specified by the Standard Library's [SpecFloat] (no axiom is involved: the
    operations are functions on signs, mantissas and exponents). *)

From S2P Require Import Prelude.
From Stdlib Require Export SpecFloat.

Abbreviation f64 := spec_float.

Definition f64_of_Z (x : Z) : f64 := binary_normalize 53 1024 x 0 false.
(** The double nearest to [m / 10 ^ k], as a decimal literal denotes. *)
Definition f64_decimal (m k : Z) : f64 :=
  SFdiv 53 1024 (f64_of_Z m) (f64_of_Z (10 ^ k)).
Definition f64_add : f64 → f64 → f64 := SFadd 53 1024.
Definition f64_sub : f64 → f64 → f64 := SFsub 53 1024.
Definition f64_mul : f64 → f64 → f64 := SFmul 53 1024.
Definition f64_div : f64 → f64 → f64 := SFdiv 53 1024.
Definition f64_lt (a b : f64) : bool := SFltb a b.
Definition f64_le (a b : f64) : bool := SFleb a b.
Definition f64_gt (a b : f64) : bool := SFltb b a.
Definition f64_eq (a b : f64) : bool := SFeqb a b.

(** Truncation toward zero, for the conversions from [double] to an integer.
    The conversion is undefined for a NaN, an infinity, and a value the
    integer type cannot hold. *)
Definition f64_trunc (a : f64) : option Z :=
  match a with
  | S754_zero _ => Some 0
  | S754_finite s m e =>
      let n := if 0 <=? e then Zpos m * 2 ^ e else Zpos m / 2 ^ (- e) in
      Some (if s then - n else n)
  | _ => None
  end.

Definition is_nan (a : f64) : bool :=
  match a with S754_nan => true | _ => false end.

(** The order on the numbers that are not NaN is that of a key, compared
    lexicographically. *)
Definition f64_key (a : f64) : Z * Z * Z :=
  match a with
  | S754_infinity true => (-2, 0, 0)
  | S754_finite true m e => (-1, - e, - Zpos m)
  | S754_zero _ | S754_nan => (0, 0, 0)
  | S754_finite false m e => (1, e, Zpos m)
  | S754_infinity false => (2, 0, 0)
  end.

Definition key_lt (k l : Z * Z * Z) : Prop :=
  k.1.1 < l.1.1 ∨ k.1.1 = l.1.1 ∧ (k.1.2 < l.1.2 ∨ k.1.2 = l.1.2 ∧ k.2 < l.2).

Lemma f64_lt_key a b :
  is_nan a = false → is_nan b = false →
  f64_lt a b = true ↔ key_lt (f64_key a) (f64_key b).
Proof.
  intros Ha Hb. unfold f64_lt, SFltb, key_lt.
  destruct a as [sa|sa| |sa ma ea], b as [sb|sb| |sb mb eb]; try done;
    destruct sa, sb; simpl; try (split; [done|lia]); try (split; [lia|done]);
    try (split; intros; (lia || done)).
  - destruct (Z.compare_spec ea eb); [|split; [done|lia]|split; [lia|done]].
    fold (Pos.compare ma mb). destruct (Pos.compare_spec ma mb); simpl;
      split; intros; (done || lia).
  - destruct (Z.compare_spec ea eb); [|split; [lia|done]|split; [done|lia]].
    fold (Pos.compare ma mb). destruct (Pos.compare_spec ma mb); simpl;
      split; intros; (done || lia).
Qed.

(** [¬ a > b] is a total preorder on the numbers that are not NaN. *)
Lemma f64_gt_total a b :
  is_nan a = false → is_nan b = false → f64_gt a b = true → f64_gt b a = false.
Proof.
  intros Ha Hb Hab. apply (f64_lt_key b a) in Hab; [|done..].
  apply not_true_iff_false. intros Hba%(f64_lt_key a b); [|done..]. unfold key_lt in *. lia.
Qed.

Lemma f64_le_trans a b c :
  is_nan a = false → is_nan b = false → is_nan c = false →
  f64_gt a b = false → f64_gt b c = false → f64_gt a c = false.
Proof.
  unfold f64_gt. fold (f64_lt b a) (f64_lt c b) (f64_lt c a).
  intros Ha Hb Hc H1 H2. apply not_true_iff_false in H1, H2. apply not_true_iff_false.
  rewrite f64_lt_key in * by done. unfold key_lt in *. lia.
Qed.
