(* ===== verification/ProcList.v ===== *)
(** * The process list (src/src/ucm/ds/fifo.c, process half)

    [struct process_list] is linked like a page list, and kept sorted by the
    processes' target miss ratio.  The operations lock the list, and walk it
    taking the [process_lock] of a process before releasing the one of its
    predecessor.  The state is the links and the set of the locks the calling
    thread holds, so that a lock taken twice, released twice or left behind is
    visible.

    These are the definitions of a build with a policy, the default; the
    [#else] branches are not compiled then. *)

From S2P Require Import Prelude Fifo F64.

Section proc_list.
Context {L : Type} `{Countable L}.

(** [inl q] is the [list_lock] of the list [q], [inr p] the [process_lock] of
    the process [p]. *)
Abbreviation lock_id := (L + ptr)%type.

Record proc_queue := ProcQueue {
  plists : page_lists L;
  held : gset lock_id;
}.

#[global] Instance eta_proc_queue : Eta proc_queue :=
  λ r, ProcQueue (plists r) (held r).
#[global] Instance set_plists : Setter plists := ltac:(mk_setter).
#[global] Instance set_held : Setter held := ltac:(mk_setter).

(** [pthread_mutex_lock] and [pthread_mutex_unlock] on a default mutex. *)
Definition lock (l : lock_id) : M proc_queue unit := λ s,
  if decide (l ∈ held s) then Err SelfDeadlock
  else Ok tt (s <| held := {[ l ]} ∪ held s |>).
Definition unlock (l : lock_id) : M proc_queue unit := λ s,
  if decide (l ∈ held s) then Ok tt (s <| held := held s ∖ {[ l ]} |>)
  else Err (Undefined "unlock of a mutex that is not held").

Definition lock_opt (o : option ptr) : M proc_queue unit :=
  match o with Some p => lock (inr p) | None => mret tt end.

Definition node (p : ptr) : M proc_queue (page_links L) := zoom plists (deref links p).
Definition header (q : L) : M proc_queue page_list := zoom plists (deref headers q).
Definition set_node (p : ptr) (f : page_links L → page_links L) : M proc_queue unit :=
  zoom plists (store links p f).
Definition set_header (q : L) (f : page_list → page_list) : M proc_queue unit :=
  zoom plists (store headers q f).

(** The loop that [enqueue_process] and [process_list_remove] share: advance
    [prev] and [current] until [stop current], the locks hand over hand. *)
Definition walk_body (stop : ptr → bool) (pc : ptr * option ptr) :
    M proc_queue ((ptr * option ptr) + (ptr * option ptr)) :=
  match pc.2 with
  | None => mret (inr pc)
  | Some current =>
      if stop current then mret (inr pc)
      else
        let old_prev := pc.1 in
        c ← node current;
        unlock (inr old_prev);;
        lock_opt (next c);;
        mret (inl (current, next c))
  end.

Definition walk (stop : ptr → bool) (prev : ptr) (current : option ptr) :
    M proc_queue (ptr * option ptr) :=
  n ← gets (λ s, size (links (plists s)));
  loop (S n) (walk_body stop) (prev, current).

Section qos.
Context (target_miss_ratio : ptr → f64).

Definition miss_ratio_gt (x y : ptr) : bool :=
  f64_gt (target_miss_ratio x) (target_miss_ratio y).

(** The end of [enqueue_process]: link [entry] between [prev_] and [current],
    whose locks are held. *)
Definition enqueue_at (queue : L) (entry prev_ : ptr) (current : option ptr) :
    M proc_queue unit :=
  match current with
  | Some current =>
      c ← node current;
      set_node entry (λ e, e <| next := Some current |> <| prev := prev c |>
                             <| list_of := Some queue |>);;
      set_node current (λ e, e <| prev := Some entry |>);;
      e ← node entry;
      p ← nonnull (prev e);
      set_node p (λ e, e <| next := Some entry |>);;
      unlock (inr prev_);;
      unlock (inr entry);;
      unlock (inr current)
  | None =>
      set_node entry (λ e, e <| next := None |> <| prev := Some prev_ |>
                             <| list_of := Some queue |>);;
      set_node prev_ (λ e, e <| next := Some entry |>);;
      set_header queue (λ q, q <| last_ := Some entry |>);;
      unlock (inr prev_);;
      unlock (inr entry)
  end;;
  set_header queue (λ q, q <| numentries ::= λ n, u64 (n + 1) |>);;
  unlock (inl queue).

Definition enqueue_process (queue : L) (entry : ptr) : M proc_queue unit :=
  lock (inl queue);;
  lock (inr entry);;
  q ← header queue;
  match first q with
  | None =>
      assert_ "fifo.c:139" (is_null (last_ q));;
      assert_ "fifo.c:140" (numentries q =? 0);;
      set_header queue (λ q, q <| first := Some entry |> <| last_ := Some entry |>);;
      set_node entry (λ e, e <| next := None |> <| prev := None |>);;
      set_node entry (λ e, e <| list_of := Some queue |>);;
      set_header queue (λ q, q <| numentries ::= λ n, u64 (n + 1) |>);;
      unlock (inr entry);;
      unlock (inl queue)
  | Some f =>
      lock (inr f);;
      if miss_ratio_gt f entry then
        set_node entry (λ e, e <| next := Some f |> <| prev := None |>
                               <| list_of := Some queue |>);;
        set_node f (λ e, e <| prev := Some entry |>);;
        set_header queue (λ q, q <| first := Some entry |>);;
        set_header queue (λ q, q <| numentries ::= λ n, u64 (n + 1) |>);;
        unlock (inr entry);;
        e ← node entry;
        n ← nonnull (next e);
        unlock (inr n);;
        unlock (inl queue)
      else
        fn ← node f;
        lock_opt (next fn);;
        pc ← walk (λ c, miss_ratio_gt c entry) f (next fn);
        enqueue_at queue entry pc.1 pc.2
  end.
End qos.

(** The end of [process_list_remove]: take [current] out, whose lock and the
    one of its predecessor [prev_] are held; on a process that is not in the
    list, the lock of the last process stays held. *)
Definition remove_at (list : L) (prev_ : ptr) (current : option ptr) :
    M proc_queue unit :=
  match current with
  | None => unlock (inl list)
  | Some current =>
      c ← node current;
      match next c with
      | Some n =>
          lock (inr n);;
          set_node prev_ (λ e, e <| next := Some n |>);;
          set_node n (λ e, e <| prev := Some prev_ |>);;
          set_node current (λ e, e <| next := None |> <| prev := None |>);;
          set_node current (λ e, e <| list_of := None |>);;
          unlock (inr prev_);;
          unlock (inr current);;
          unlock (inr n)
      | None =>
          set_node prev_ (λ e, e <| next := None |>);;
          set_node current (λ e, e <| prev := None |> <| next := None |>);;
          set_node current (λ e, e <| list_of := None |>);;
          set_header list (λ q, q <| last_ := Some prev_ |>);;
          unlock (inr prev_);;
          unlock (inr current)
      end;;
      set_header list (λ q, q <| numentries ::= λ n, u64 (n - 1) |>);;
      unlock (inl list)
  end.

Definition process_list_remove (list : L) (process : ptr) : M proc_queue unit :=
  lock (inl list);;
  q ← header list;
  match first q with
  | None =>
      assert_ "fifo.c:239" (is_null (last_ q));;
      assert_ "fifo.c:240" (numentries q =? 0);;
      unlock (inl list)
  | Some f =>
      lock (inr f);;
      if decide (f = process) then
        t ← node f;
        set_header list (λ q, q <| first := next t |>);;
        match next t with
        | None =>
            set_header list (λ q, q <| last_ := None |>);;
            set_node process (λ e, e <| next := None |> <| prev := None |>);;
            set_node process (λ e, e <| list_of := None |>);;
            unlock (inr process)
        | Some n =>
            lock (inr n);;
            set_node n (λ e, e <| prev := None |>);;
            set_node process (λ e, e <| next := None |> <| prev := None |>);;
            set_node process (λ e, e <| list_of := None |>);;
            unlock (inr f);;
            unlock (inr n)
        end;;
        set_header list (λ q, q <| numentries ::= λ n, u64 (n - 1) |>);;
        unlock (inl list)
      else
        fn ← node f;
        lock_opt (next fn);;
        pc ← walk (λ c, bool_decide (c = process)) f (next fn);
        remove_at list pc.1 pc.2
  end.

Definition peek_process (list : L) : M proc_queue (option ptr) :=
  lock (inl list);;
  q ← header list;
  unlock (inl list);;
  mret (first q).

(** ** Rules for the primitives *)
Implicit Types (h : page_lists L) (K : gset lock_id).

Lemma wp_lock h K l (Q : unit → proc_queue → Prop) :
  l ∉ K → Q tt (ProcQueue h ({[ l ]} ∪ K)) → wp (lock l) Q (ProcQueue h K).
Proof. intros Hl HQ. unfold wp, lock. simpl. by rewrite decide_False. Qed.

Lemma wp_unlock h K K' l (Q : unit → proc_queue → Prop) :
  K = {[ l ]} ∪ K' → l ∉ K' → Q tt (ProcQueue h K') →
  wp (unlock l) Q (ProcQueue h K).
Proof.
  intros -> Hl HQ. unfold wp, unlock. simpl. rewrite decide_True by set_solver.
  unfold upd, set_held; simpl. by replace (({[l]} ∪ K') ∖ {[l]}) with K' by set_solver.
Qed.

Definition lock_set (o : option ptr) : gset lock_id :=
  match o with Some p => {[ inr p ]} | None => ∅ end.

Lemma wp_lock_opt h K o (Q : unit → proc_queue → Prop) :
  (∀ p, o = Some p → inr p ∉ K) →
  Q tt (ProcQueue h (lock_set o ∪ K)) → wp (lock_opt o) Q (ProcQueue h K).
Proof.
  intros Ho HQ. destruct o as [p|]; simpl in *.
  - apply wp_lock; auto.
  - wp_step. by rewrite union_empty_l_L in HQ.
Qed.

Lemma wp_node h K p n (Q : page_links L → proc_queue → Prop) :
  links h !! p = Some n → Q n (ProcQueue h K) → wp (node p) Q (ProcQueue h K).
Proof. intros Hn HQ. unfold node. wp_step. by eapply wp_deref. Qed.

Lemma wp_header h K q n (Q : page_list → proc_queue → Prop) :
  headers h !! q = Some n → Q n (ProcQueue h K) → wp (header q) Q (ProcQueue h K).
Proof. intros Hn HQ. unfold header. wp_step. by eapply wp_deref. Qed.

Lemma wp_set_node h K p f n (Q : unit → proc_queue → Prop) :
  links h !! p = Some n →
  Q tt (ProcQueue (PageLists (<[p := f n]> (links h)) (headers h)) K) →
  wp (set_node p f) Q (ProcQueue h K).
Proof. intros Hn HQ. unfold set_node. wp_step. by eapply wp_store. Qed.

Lemma wp_set_header h K q f n (Q : unit → proc_queue → Prop) :
  headers h !! q = Some n →
  Q tt (ProcQueue (PageLists (links h) (<[q := f n]> (headers h))) K) →
  wp (set_header q f) Q (ProcQueue h K).
Proof. intros Hn HQ. unfold set_header. wp_step. by eapply wp_store. Qed.

(** The walk stops at the first element that satisfies [stop], holding the
    locks of that element and of its predecessor. *)
Definition walked (h : page_lists L) (stop : ptr → bool) (p : ptr) (a : list ptr)
    (K : gset lock_id) (pc : ptr * option ptr) (s' : proc_queue) : Prop :=
  ∃ m a', p :: a = m ++ pc.1 :: a' ∧ pc.2 = head a' ∧
    (∀ y, y ∈ a → y ∉ a' → stop y = false) ∧
    (∀ y, head a' = Some y → stop y = true) ∧
    s' = ProcQueue h (lock_set (head a') ∪ ({[ inr pc.1 ]} ∪ K)).

Lemma wp_walk_loop h A q stop b p a K n :
  dll_ok h A → A q = b ++ p :: a → (length a < n)%nat →
  (∀ y, y ∈ p :: a → inr y ∉ K) →
  wp (loop n (walk_body stop) (p, head a)) (walked h stop p a K)
    (ProcQueue h (lock_set (head a) ∪ ({[ inr p ]} ∪ K))).
Proof.
  intros Hok. revert b p n. induction a as [|c a IH]; intros b p n HA Hn HK;
    (destruct n as [|n]; [simpl in Hn; lia|]); simpl; wp_step; unfold walk_body; simpl.
  - repeat wp_step. exists [], []. naive_solver set_solver.
  - destruct (stop c) eqn:Hc.
    { repeat wp_step. exists [], (c :: a). naive_solver set_solver. }
    assert (A q = (b ++ [p]) ++ c :: a) as HA' by by rewrite <- app_assoc.
    pose proof (dll_nodup Hok q) as Hnd. rewrite HA in Hnd.
    apply NoDup_app in Hnd as (_&_&[? [? Hnd]%NoDup_cons]%NoDup_cons).
    wp_step. eapply wp_node; [by eapply dll_node|]. simpl.
    wp_step. eapply (wp_unlock _ _ ({[inr c]} ∪ K)); [set_solver|set_solver|].
    wp_step. apply wp_lock_opt.
    { intros d ?%head_Some_elem_of. set_solver. }
    wp_step. eapply wp_mono; [eapply IH; [done|simpl in Hn; lia|set_solver]|].
    intros pc s' (m&a'&Heq&?&Hstop&?&?). exists (p :: m), a'.
    split_and!; [by rewrite Heq|done| |done|done].
    intros y [->|?]%elem_of_cons; auto.
Qed.

Lemma wp_walk h A q stop b p a K :
  dll_ok h A → A q = b ++ p :: a → (∀ y, y ∈ p :: a → inr y ∉ K) →
  wp (walk stop p (head a)) (walked h stop p a K)
    (ProcQueue h (lock_set (head a) ∪ ({[ inr p ]} ∪ K))).
Proof.
  intros Hok HA HK. unfold walk. do 2 wp_step. eapply wp_walk_loop; [done..| |done].
  apply Nat.lt_succ_r. simpl. rewrite <- size_dom.
  pose proof (dll_nodup Hok q) as Hnd. rewrite HA, NoDup_app, NoDup_cons in Hnd.
  rewrite <- (size_list_to_set (C:=gset ptr) a) by naive_solver.
  apply subseteq_size. intros y. rewrite elem_of_list_to_set, elem_of_dom. intros Hy.
  destruct (dll_in h A q y) as (n&->&_); [done| |eauto]. rewrite HA. set_solver.
Qed.

(** Symbolic execution of the list operations; what is left are the side
    conditions on lock sets that the step does not solve. *)
Ltac pl_heap :=
  unfold upd, set_next, set_prev, set_list_of, set_first, set_last_, set_numentries;
  simpl; simplify_map_eq/=; try done.
Ltac pl_step :=
  lazymatch goal with
  | |- wp (lock _) _ _ => apply wp_lock; [set_solver|]
  | |- wp (unlock ?l) _ (ProcQueue _ ?K) =>
      apply (wp_unlock _ _ (K ∖ {[ l ]})); [set_solver|set_solver|]
  | |- wp (node _) _ _ => eapply wp_node; [solve [pl_heap]|]
  | |- wp (header _) _ _ => eapply wp_header; [solve [pl_heap]|]
  | |- wp (set_node _ _) _ _ => eapply wp_set_node; [solve [pl_heap]|]
  | |- wp (set_header _ _) _ _ => eapply wp_set_header; [solve [pl_heap]|]
  | |- wp (nonnull _) _ _ => eapply wp_nonnull; [solve [pl_heap]|]
  | |- _ => wp_step
  end; simpl.

(** Where [enqueue_process] puts [x]: before the first element whose target
    miss ratio is greater. *)
Definition inserted (gt : ptr → ptr → bool) (x : ptr) (b a : list ptr) : Prop :=
  (∀ y, y ∈ b → gt y x = false) ∧ (∀ y, head a = Some y → gt y x = true).

Section enqueue.
Context (tmr : ptr → f64).

Definition enqueued (h : page_lists L) (A : L → list ptr) (q : L) (x : ptr)
    (K : gset lock_id) (s' : proc_queue) : Prop :=
  ∃ b a, A q = b ++ a ∧ inserted (miss_ratio_gt tmr) x b a ∧
    dll_ok (plists s') (<[q := b ++ x :: a]> A) ∧
    same_shape h (plists s') ∧ held s' = K.

Lemma enqueued_intro h A q x K s' b a :
  dll_ok h A → A q = b ++ a → links h !! x = Some detached →
  inserted (miss_ratio_gt tmr) x b a →
  headers (plists s') = <[q := PageList (head (b ++ x :: a)) (last (b ++ x :: a))
                                (Z.of_nat (length (b ++ x :: a)))]> (headers h) →
  links (plists s') !! x = Some (PageLinks (head a) (last b) (Some q)) →
  (∀ y, y ≠ x → links (plists s') !! y =
     (if decide (last b = Some y) then (λ n, n <| next := Some x |>) <$> links h !! y
      else if decide (head a = Some y) then (λ n, n <| prev := Some x |>) <$> links h !! y
      else links h !! y)) →
  same_shape h (plists s') → held s' = K →
  enqueued h A q x K s'.
Proof.
  intros. exists b, a. split_and!; [done..| |done|done]. by apply (dll_splice h _ A).
Qed.

(** The state in which the loop of [enqueue_process] ends. *)
Lemma walked_inserted h A q x f rest m p a' :
  dll_ok h A → A q = f :: rest → miss_ratio_gt tmr f x = false →
  f :: rest = m ++ p :: a' →
  (∀ y, y ∈ rest → y ∉ a' → miss_ratio_gt tmr y x = false) →
  (∀ y, head a' = Some y → miss_ratio_gt tmr y x = true) →
  inserted (miss_ratio_gt tmr) x (m ++ [p]) a'.
Proof.
  intros Hok HA Hf Heq Hbefore Hafter. split; [|done]. intros y Hy.
  pose proof (dll_nodup Hok q) as Hnd. rewrite HA, Heq, NoDup_app, NoDup_cons in Hnd.
  assert (y ∈ f :: rest) as [->|?]%elem_of_cons by (rewrite Heq; set_solver); [done|].
  apply Hbefore; set_solver.
Qed.

Lemma wp_enqueue_at h A q x K p m a n :
  dll_ok h A → A q = m ++ p :: a → links h !! x = Some detached →
  headers h !! q = Some n →
  inl q ∉ K → (∀ y, y ∈ x :: A q → inr y ∉ K) →
  inserted (miss_ratio_gt tmr) x (m ++ [p]) a →
  wp (enqueue_at q x p (head a)) (λ _ s', enqueued h A q x K s')
    (ProcQueue h (lock_set (head a) ∪ ({[inr p]} ∪ ({[inr x]} ∪ ({[inl q]} ∪ K))))).
Proof.
  intros Hok HA Hx Hhd Hq HK Hins. pose proof (dll_header Hok Hhd) as ->.
  pose proof (dll_length_cons h A q x Hok Hx) as Hlen.
  pose proof (dll_fresh h A x Hok Hx q) as Hfresh.
  pose proof (dll_nodup Hok q) as Hnd. pose proof (dll_node Hok HA) as Hp.
  rewrite HA in Hnd, Hfresh, HK, Hlen, Hhd. rewrite length_app in Hlen; simpl in Hlen.
  apply NoDup_app in Hnd as (_&_&[Hpa _]%NoDup_cons). assert (p ≠ x) as Hpx by set_solver.
  unfold enqueue_at. destruct a as [|c a]; simpl in *.
  - repeat pl_step. apply (enqueued_intro h A q x K _ (m ++ [p]) []); pl_heap.
    + by rewrite app_nil_r.
    + rewrite !insert_insert_eq, last_snoc, !length_app, u64_small by (simpl; lia).
      do 2 f_equal; [by destruct m|simpl; lia].
    + by rewrite last_snoc.
    + intros y Hy. rewrite last_snoc. destruct (decide (p = y)) as [->|].
      { rewrite decide_True by done. by simplify_map_eq. }
      rewrite decide_False by congruence. by simplify_map_eq.
    + solve_shape.
    + set_solver.
  - assert (A q = (m ++ [p]) ++ c :: a) as HA' by by rewrite <- app_assoc.
    pose proof (dll_node Hok HA') as Hc. rewrite last_snoc in Hc.
    assert (p ≠ c ∧ x ≠ c) as [Hpc Hxc] by set_solver.
    repeat pl_step. apply (enqueued_intro h A q x K _ (m ++ [p]) (c :: a)); pl_heap.
    + rewrite !length_app, u64_small by (simpl; lia).
      do 2 f_equal; [by destruct m|by rewrite !last_app_cons|simpl; lia].
    + by rewrite last_snoc.
    + intros y Hy. rewrite last_snoc. destruct (decide (p = y)) as [->|].
      { rewrite decide_True by done. by simplify_map_eq. }
      rewrite decide_False by congruence. destruct (decide (c = y)) as [->|].
      { rewrite decide_True by done. by simplify_map_eq. }
      rewrite decide_False by congruence. by simplify_map_eq.
    + solve_shape.
    + set_solver.
Qed.

Lemma wp_enqueue_process h A q x K :
  dll_ok h A → is_Some (headers h !! q) → links h !! x = Some detached →
  inl q ∉ K → (∀ y, y ∈ x :: A q → inr y ∉ K) →
  wp (enqueue_process tmr q x) (λ _ s', enqueued h A q x K s') (ProcQueue h K).
Proof.
  intros Hok [hd Hhd] Hx Hq HK. pose proof (dll_header Hok Hhd) as ->.
  pose proof (dll_length_cons h A q x Hok Hx) as Hlen.
  pose proof (dll_fresh h A x Hok Hx q) as Hfresh.
  unfold enqueue_process. do 6 pl_step.
  destruct (A q) as [|f rest] eqn:HA; simpl in *.
  - repeat (pl_step; try done). apply (enqueued_intro h A q x K _ [] []); pl_heap.
    + by split; [set_solver|].
    + by rewrite !insert_insert_eq.
    + intros y Hy. by simplify_map_eq.
    + solve_shape.
    + set_solver.
  - pose proof (dll_node Hok (b:=[]) HA) as Hf. simpl in Hf.
    pose proof (dll_nodup Hok q) as Hnd. rewrite HA in Hnd. apply NoDup_cons in Hnd as [Hfrest _].
    assert (f ≠ x) as Hfx by set_solver.
    do 2 pl_step. destruct (miss_ratio_gt tmr f x) eqn:Hgt.
    + repeat pl_step. apply (enqueued_intro h A q x K _ [] (f :: rest)); pl_heap.
      * by split; [set_solver|intros ? [= <-]].
      * rewrite !insert_insert_eq, u64_small by lia. do 2 f_equal. lia.
      * intros y Hy. destruct (decide (f = y)) as [->|].
        { rewrite decide_True by done. by simplify_map_eq. }
        rewrite decide_False by congruence. by simplify_map_eq.
      * solve_shape.
      * set_solver.
    + repeat pl_step. apply wp_lock_opt; [intros y ?%head_Some_elem_of; set_solver|].
      pl_step. eapply wp_mono.
      { apply (wp_walk h A q _ [] f rest ({[inr x]} ∪ ({[inl q]} ∪ K))); [done..|set_solver]. }
      intros [p c] s' (m&a'&Heq&Hc&Hbefore&Hafter&->); simpl in *. subst c.
      eapply wp_enqueue_at; [done|by rewrite HA|done|done|done|by rewrite HA|].
      by eapply (walked_inserted h A q x f rest).
Qed.
End enqueue.

Section remove.

Definition removed (h : page_lists L) (A : L → list ptr) (q : L) (xs : list ptr)
    (K : gset lock_id) (s' : proc_queue) : Prop :=
  dll_ok (plists s') (<[q := xs]> A) ∧ same_shape h (plists s') ∧ held s' = K.

Lemma removed_intro h A q x K s' b a :
  dll_ok h A → A q = b ++ x :: a →
  headers (plists s') = <[q := PageList (head (b ++ a)) (last (b ++ a))
                                (Z.of_nat (length (b ++ a)))]> (headers h) →
  links (plists s') !! x = Some detached →
  (∀ y, y ≠ x → links (plists s') !! y =
     (if decide (last b = Some y) then (λ n, n <| next := head a |>) <$> links h !! y
      else if decide (head a = Some y) then (λ n, n <| prev := last b |>) <$> links h !! y
      else links h !! y)) →
  same_shape h (plists s') → held s' = K →
  removed h A q (b ++ a) K s'.
Proof. intros. split_and!; [|done|done]. by apply (dll_cut h _ A q b x a). Qed.

Lemma wp_remove_at h A q x K p m a n :
  dll_ok h A → A q = m ++ p :: x :: a → headers h !! q = Some n →
  inl q ∉ K → (∀ y, y ∈ A q → inr y ∉ K) →
  wp (remove_at q p (Some x)) (λ _ s', removed h A q (m ++ p :: a) K s')
    (ProcQueue h ({[inr x]} ∪ ({[inr p]} ∪ ({[inl q]} ∪ K)))).
Proof.
  intros Hok HA Hhd Hq HK. pose proof (dll_header Hok Hhd) as ->.
  pose proof (dll_length h A q Hok) as Hlen.
  pose proof (dll_nodup Hok q) as Hnd. pose proof (dll_node Hok HA) as Hp.
  assert (A q = (m ++ [p]) ++ x :: a) as HA' by by rewrite <- app_assoc.
  pose proof (dll_node Hok HA') as Hx. rewrite last_snoc in Hx.
  rewrite HA in Hnd, HK, Hlen, Hhd. rewrite length_app in Hlen; simpl in Hlen.
  apply NoDup_app in Hnd as (_&_&[Hpa [Hxa _]%NoDup_cons]%NoDup_cons).
  assert (p ≠ x) as Hpx by set_solver.
  unfold remove_at. pl_step. pl_step. destruct a as [|c a]; simpl in *.
  - repeat pl_step. rewrite <- (app_nil_r (m ++ [p])).
    apply (removed_intro h A q x K _ (m ++ [p]) []); pl_heap.
    + rewrite !insert_insert_eq, app_nil_r, last_snoc, !length_app, u64_small by (simpl; lia).
      do 2 f_equal; [by destruct m|simpl; lia].
    + intros y Hy. rewrite last_snoc. destruct (decide (p = y)) as [->|].
      { rewrite decide_True by done. by simplify_map_eq. }
      rewrite decide_False by congruence. by simplify_map_eq.
    + solve_shape.
    + set_solver.
  - assert (A q = (m ++ [p; x]) ++ c :: a) as HA'' by by rewrite <- app_assoc.
    pose proof (dll_node Hok HA'') as Hc. rewrite last_app_cons in Hc.
    assert (p ≠ c ∧ x ≠ c) as [Hpc Hxc] by set_solver.
    repeat pl_step. replace (m ++ p :: c :: a) with ((m ++ [p]) ++ c :: a) by by rewrite <- app_assoc.
    apply (removed_intro h A q x K _ (m ++ [p]) (c :: a)); pl_heap.
    + rewrite !length_app, u64_small by (simpl; lia).
      do 2 f_equal; [by destruct m|by rewrite !last_app_cons|simpl; lia].
    + intros y Hy. rewrite last_snoc. destruct (decide (p = y)) as [->|].
      { rewrite decide_True by done. by simplify_map_eq. }
      rewrite decide_False by congruence. destruct (decide (c = y)) as [->|].
      { rewrite decide_True by done. by simplify_map_eq. }
      rewrite decide_False by congruence. by simplify_map_eq.
    + solve_shape.
    + set_solver.
Qed.

(** The walk of [process_list_remove] stops at [x] itself. *)
Lemma walked_found h A q f rest b x a m p a' :
  dll_ok h A → A q = f :: rest → A q = b ++ x :: a → f ≠ x →
  f :: rest = m ++ p :: a' →
  (∀ y, y ∈ rest → y ∉ a' → bool_decide (y = x) = false) →
  (∀ y, head a' = Some y → bool_decide (y = x) = true) →
  a' = x :: a ∧ b = m ++ [p].
Proof.
  intros Hok Hf HA Hfx Heq Hbefore Hafter.
  assert (x ∈ a') as Hx.
  { destruct (decide (x ∈ a')) as [|Hx]; [done|]. exfalso.
    apply (Hbefore x) in Hx; [by apply bool_decide_eq_false in Hx|].
    assert (x ∈ f :: rest) as [->|?]%elem_of_cons; [|done..].
    rewrite <- Hf, HA. set_solver. }
  destruct a' as [|y a']; [by apply not_elem_of_nil in Hx|].
  specialize (Hafter y eq_refl). apply bool_decide_eq_true in Hafter as ->.
  pose proof (dll_nodup Hok q) as Hnd. rewrite HA in Hnd.
  assert (b ++ x :: a = (m ++ [p]) ++ x :: a') as Hsplit.
  { by rewrite <- HA, Hf, Heq, <- app_assoc. }
  by destruct (nodup_split_unique _ _ _ _ _ Hnd Hsplit) as [-> ->].
Qed.

Lemma wp_process_list_remove h A q b x a K :
  dll_ok h A → is_Some (headers h !! q) → A q = b ++ x :: a →
  inl q ∉ K → (∀ y, y ∈ A q → inr y ∉ K) →
  wp (process_list_remove q x) (λ _ s', removed h A q (b ++ a) K s') (ProcQueue h K).
Proof.
  intros Hok [hd Hhd] HA Hq HK. pose proof (dll_header Hok Hhd) as ->.
  pose proof (dll_length h A q Hok) as Hlen.
  destruct (A q) as [|f rest] eqn:Hf; [by destruct b|].
  pose proof (dll_node Hok (b:=[]) Hf) as Hfn. simpl in *.
  pose proof (dll_nodup Hok q) as Hnd. rewrite Hf in Hnd. apply NoDup_cons in Hnd as [Hfrest _].
  unfold process_list_remove. do 6 pl_step. case_decide as Hfx.
  - subst f. destruct (nodup_split_unique [] b rest a x) as [<- ->]; [|done|].
    { pose proof (dll_nodup Hok q) as Hnd. by rewrite Hf in Hnd. }
    do 4 pl_step. destruct a as [|c a]; simpl in *.
    + repeat pl_step. apply (removed_intro h A q x K _ [] []); pl_heap.
      * by rewrite !insert_insert_eq.
      * intros y Hy. by simplify_map_eq.
      * solve_shape.
      * set_solver.
    + assert (c ≠ x) by set_solver.
      pose proof (dll_node Hok (b:=[x]) Hf) as Hc. simpl in Hc.
      repeat pl_step. apply (removed_intro h A q x K _ [] (c :: a)); pl_heap.
      * rewrite !insert_insert_eq, u64_small by lia. do 2 f_equal. lia.
      * intros y Hy. destruct (decide (c = y)) as [->|].
        { rewrite decide_True by done. by simplify_map_eq. }
        rewrite decide_False by congruence. by simplify_map_eq.
      * solve_shape.
      * set_solver.
  - do 3 pl_step. apply wp_lock_opt; [intros y ?%head_Some_elem_of; set_solver|].
    pl_step. eapply wp_mono.
    { apply (wp_walk h A q _ [] f rest ({[inl q]} ∪ K)); [done..|set_solver]. }
    intros [p c] s' (m&a'&Heq&Hc&Hbefore&Hafter&->); simpl in *. subst c.
    destruct (walked_found h A q f rest b x a m p a') as [-> ->]; [done|done|by rewrite Hf|done|done|done|done|].
    rewrite <- app_assoc in *; simpl in *.
    eapply wp_remove_at; [done|by rewrite Hf|done|done|by rewrite Hf].
Qed.

(** On a process that is not in the list the last process's lock is leaked. *)
Lemma wp_process_list_remove_absent h A q x f rest K :
  dll_ok h A → is_Some (headers h !! q) → A q = f :: rest → x ∉ A q →
  inl q ∉ K → (∀ y, y ∈ A q → inr y ∉ K) →
  wp (process_list_remove q x)
    (λ _ s', s' = ProcQueue h ({[ inr (default f (last rest)) ]} ∪ K)) (ProcQueue h K).
Proof.
  intros Hok [hd Hhd] Hf Hx Hq HK. pose proof (dll_header Hok Hhd) as ->.
  rewrite Hf in Hhd, Hx, HK.
  pose proof (dll_node Hok (b:=[]) Hf) as Hfn. simpl in *.
  pose proof (dll_nodup Hok q) as Hnd. rewrite Hf in Hnd. apply NoDup_cons in Hnd as [Hfrest _].
  unfold process_list_remove. do 6 pl_step. rewrite decide_False by set_solver.
  do 3 pl_step. apply wp_lock_opt; [intros y ?%head_Some_elem_of; set_solver|].
  pl_step. eapply wp_mono.
  { apply (wp_walk h A q _ [] f rest ({[inl q]} ∪ K)); [done..|set_solver]. }
  intros [p c] s' (m&a'&Heq&Hc&Hbefore&Hafter&->); simpl in *. subst c.
  destruct a' as [|y a'].
  - simpl. assert (default f (last rest) = p) as ->.
    { pose proof (last_cons_default f rest) as Hl. rewrite Heq, last_snoc in Hl. by simplify_eq. }
    pl_step. f_equal. assert (p ∈ f :: rest) by (rewrite Heq; set_solver). set_solver.
  - exfalso. specialize (Hafter y eq_refl). apply bool_decide_eq_true in Hafter as ->.
    apply Hx. rewrite Heq. set_solver.
Qed.

(** ** A process that is locked already *)
Lemma wpx_lock_held {T} h K l (k : unit → M proc_queue T) (Q : T → proc_queue → Prop) :
  l ∈ K → wpx (eq SelfDeadlock) (lock l ≫= k) Q (ProcQueue h K).
Proof. intros Hl. unfold wpx, lock, mbind, M_bind. simpl. by rewrite decide_True. Qed.

Lemma wpx_walk_held h A q x a K m : ∀ b p c n,
  dll_ok h A → A q = b ++ p :: c :: m ++ x :: a → inr x ∈ K →
  (∀ y, y ∈ p :: c :: m → inr y ∉ K) → (length m < n)%nat →
  wpx (eq SelfDeadlock) (loop n (walk_body (λ c, bool_decide (c = x))) (p, Some c)) (λ _ _, False)
    (ProcQueue h ({[ inr c ]} ∪ ({[ inr p ]} ∪ K))).
Proof.
  induction m as [|d m IH]; intros b p c n Hok HA Hx HK Hn; (destruct n as [|n]; [simpl in Hn; lia|]);
    cbn [loop]; apply wpx_bind; unfold walk_body at 1; cbn [fst snd];
    (rewrite bool_decide_false by (intros ->; apply (HK x); [set_solver|done]));
    assert (A q = (b ++ [p]) ++ c :: _) as HA' by (rewrite HA, <- app_assoc; reflexivity);
    pose proof (dll_nodup Hok q) as Hnd; rewrite HA in Hnd;
    apply NoDup_app in Hnd as (_&_&[? [? Hnd]%NoDup_cons]%NoDup_cons);
    (wpx_next; eapply wp_node; [by eapply dll_node|]); simpl;
    (wpx_next; eapply (wp_unlock _ _ ({[inr c]} ∪ K)); [set_solver|set_solver|]).
  - apply wpx_lock_held. set_solver.
  - wpx_next. apply wp_lock; [set_solver|]. apply wpx_ret.
    apply (IH (b ++ [p])); [done|by rewrite HA'|done|set_solver|simpl in Hn; lia].
Qed.

(** A caller that holds the lock of a process of the list waits for itself. *)
Lemma process_list_remove_held h A q b x a K :
  dll_ok h A → is_Some (headers h !! q) → A q = b ++ x :: a →
  inl q ∉ K → inr x ∈ K → (∀ y, y ∈ b → inr y ∉ K) →
  process_list_remove q x (ProcQueue h K) = Err SelfDeadlock.
Proof.
  intros Hok [hd Hhd] HA Hq Hx HK. pose proof (dll_header Hok Hhd) as ->. rewrite HA in Hhd.
  apply wpx_must. unfold process_list_remove.
  wpx_next. apply wp_lock; [done|]. wpx_next. eapply wp_header; [done|].
  destruct b as [|f b]; cbn [first head app].
  { apply wpx_lock_held. set_solver. }
  assert (f ≠ x) as Hfx by (intros ->; apply (HK x); [set_solver|done]).
  wpx_next. apply wp_lock; [set_solver|]. rewrite decide_False by done.
  pose proof (dll_node Hok (b:=[]) HA) as Hf. wpx_next. eapply wp_node; [done|]. cbn [next].
  destruct b as [|c b]; cbn [lock_opt head app].
  { apply wpx_lock_held. set_solver. }
  wpx_next. apply wp_lock; [pose proof (dll_nodup Hok q) as Hnd; rewrite HA in Hnd; apply NoDup_cons in Hnd; set_solver|].
  apply wpx_bind. unfold walk. wpx_next. wp_step.
  eapply wpx_mono; [eapply (wpx_walk_held h A q x a ({[inl q]} ∪ K) b [] f c); [done|done|set_solver|set_solver|]|done].
  pose proof (dll_length_size h A q Hok) as Hsz. rewrite HA in Hsz. simpl in Hsz |- *. rewrite length_app in Hsz.
  simpl in Hsz. lia.
Qed.

Lemma wp_peek_process h A q K :
  dll_ok h A → is_Some (headers h !! q) → inl q ∉ K →
  wp (peek_process q) (λ r s', r = head (A q) ∧ s' = ProcQueue h K) (ProcQueue h K).
Proof.
  intros Hok [hd Hhd] Hq. pose proof (dll_header Hok Hhd) as ->.
  unfold peek_process. repeat pl_step. split; [done|]. f_equal. set_solver.
Qed.
End remove.

(** ** The list stays sorted *)
Section sorted.
Context (tmr : ptr → f64).

Definition miss_sorted : list ptr → Prop :=
  StronglySorted (λ y z, miss_ratio_gt tmr y z = false).

Lemma inserted_sorted x b a :
  (∀ y, is_nan (tmr y) = false) →
  miss_sorted (b ++ a) → inserted (miss_ratio_gt tmr) x b a →
  miss_sorted (b ++ x :: a).
Proof.
  intros Hnan Hs [Hb Ha]. unfold miss_sorted in *.
  induction b as [|y b IH]; simpl in *.
  - constructor; [done|]. destruct a as [|z a]; [done|].
    assert (miss_ratio_gt tmr x z = false) as Hxz by by apply f64_gt_total, (Ha z).
    inversion_clear Hs as [|? ? Hs' Hall]. constructor; [done|].
    eapply Forall_impl; [done|]. intros w Hw. by apply (f64_le_trans _ (tmr z)).
  - inversion_clear Hs as [|? ? Hs' Hall]. constructor; [apply IH; set_solver|].
    rewrite Forall_app, Forall_cons in *. split_and!; [naive_solver| |naive_solver].
    apply Hb. set_solver.
Qed.

Lemma removed_sorted x b a : miss_sorted (b ++ x :: a) → miss_sorted (b ++ a).
Proof.
  unfold miss_sorted. induction b as [|y b IH]; simpl; intros Hs;
    inversion_clear Hs as [|? ? Hs' Hall]; [done|].
  constructor; [auto|]. rewrite Forall_app, Forall_cons in *. naive_solver.
Qed.

(** C33: [enqueue_process] inserts the process into the list, keeps the list in
    ascending order of target miss ratio (as long as no ratio is a NaN), fails
    no assertion, never takes a lock twice, and releases every lock it takes.
    The comment at fifo.c:151 announces descending order; the comparisons of
    the code give ascending order, the smallest target first. *)
Theorem enqueue_process_sorted h A q x K :
  (∀ y, is_nan (tmr y) = false) →
  dll_ok h A → is_Some (headers h !! q) → links h !! x = Some detached →
  inl q ∉ K → (∀ y, y ∈ x :: A q → inr y ∉ K) →
  miss_sorted (A q) →
  ∃ xs s', enqueue_process tmr q x (ProcQueue h K) = Ok tt s' ∧
    dll_ok (plists s') (<[q := xs]> A) ∧ xs ≡ₚ x :: A q ∧ miss_sorted xs ∧ held s' = K.
Proof.
  intros Hnan Hok Hhd Hx Hq HK Hs.
  pose proof (wp_enqueue_process tmr h A q x K Hok Hhd Hx Hq HK) as Hwp.
  apply wp_ok in Hwp as ([]&s'&Hrun&b&a&HA&Hins&Hok'&_&Hheld).
  exists (b ++ x :: a), s'. rewrite HA in *. split_and!; [done..| | |done].
  - by rewrite Permutation_middle.
  - by apply inserted_sorted.
Qed.

(** C34: [process_list_remove] of a process in the list takes exactly that
    process out, detaches it, keeps the order of the others, and releases
    every lock it takes. *)
Theorem process_list_remove_correct h A q b x a K :
  dll_ok h A → is_Some (headers h !! q) → A q = b ++ x :: a →
  inl q ∉ K → (∀ y, y ∈ A q → inr y ∉ K) →
  miss_sorted (A q) →
  ∃ s', process_list_remove q x (ProcQueue h K) = Ok tt s' ∧
    dll_ok (plists s') (<[q := b ++ a]> A) ∧
    links (plists s') !! x = Some detached ∧ miss_sorted (b ++ a) ∧ held s' = K.
Proof.
  intros Hok Hhd HA Hq HK Hs.
  pose proof (wp_process_list_remove h A q b x a K Hok Hhd HA Hq HK) as Hwp.
  apply wp_ok in Hwp as ([]&s'&Hrun&Hok'&Hsh&Hheld).
  exists s'. split_and!; [done..| | |done].
  - by apply (dll_cut_detached h _ A q b x a).
  - apply (removed_sorted x). by rewrite <- HA.
Qed.

(** C25: [process_list_remove] of a process that is not in a non-empty list
    changes no link but returns with the [process_lock] of the last process
    of the list still held. *)
Theorem process_list_remove_absent_leaks h A q x f rest K :
  dll_ok h A → is_Some (headers h !! q) → A q = f :: rest → x ∉ A q →
  inl q ∉ K → (∀ y, y ∈ A q → inr y ∉ K) →
  process_list_remove q x (ProcQueue h K) =
    Ok tt (ProcQueue h ({[ inr (default f (last rest)) ]} ∪ K)).
Proof.
  intros Hok Hhd HA Hx Hq HK.
  pose proof (wp_process_list_remove_absent h A q x f rest K Hok Hhd HA Hx Hq HK) as Hwp.
  by apply wp_ok in Hwp as ([]&s'&->&->).
Qed.
End sorted.
End proc_list.

(** ** Concrete lists *)
Section examples.
(** A list of the processes 1, 2 and 3, with target miss ratios 0.1, 0.2 and
    0.2, and a detached process 4 of ratio 0.15. *)
Definition ex_tmr (p : ptr) : f64 :=
  match p with
  | 1 => f64_decimal 1 1 | 2 | 3 => f64_decimal 2 1 | _ => f64_decimal 15 2
  end%positive.

Definition ex_links : gmap ptr (page_links unit) :=
  {[ 1 := PageLinks (Some 2) None (Some tt);
     2 := PageLinks (Some 3) (Some 1) (Some tt);
     3 := PageLinks None (Some 2) (Some tt);
     4 := detached ]}%positive.
Definition ex_list : page_lists unit :=
  PageLists ex_links {[ tt := PageList (Some 1%positive) (Some 3%positive) 3 ]}.
Definition ex_seq (_ : unit) : list ptr := [1; 2; 3]%positive.

Lemma ex_list_ok : dll_ok ex_list ex_seq.
Proof.
  split; unfold ex_seq.
  - intros [] q Hq. vm_compute in Hq. by simplify_eq.
  - by intros [].
  - intros [] b x a Heq. destruct b as [|? [|? [|? b]]]; simplify_eq/=; [done..|].
    by destruct b.
  - intros _. by apply (bool_decide_unpack _).
  - intros x n Hn Hx. specialize (Hx tt). simpl in Hn. unfold ex_links in Hn.
    rewrite !lookup_insert_Some, lookup_singleton_Some in Hn. set_solver.
  - by vm_compute.
Qed.

Lemma ex_sorted : miss_sorted ex_tmr (ex_seq tt).
Proof. repeat constructor. Qed.

Lemma enqueue_process_sorted_witness : ∃ xs s',
  enqueue_process ex_tmr tt 4%positive (ProcQueue ex_list ∅) = Ok tt s' ∧
  dll_ok (plists s') (<[tt := xs]> ex_seq) ∧ xs ≡ₚ [4; 1; 2; 3]%positive ∧
  miss_sorted ex_tmr xs ∧ held s' = ∅.
Proof.
  apply (enqueue_process_sorted ex_tmr ex_list ex_seq tt 4 ∅).
  - intros y. unfold ex_tmr. by repeat case_match.
  - apply ex_list_ok.
  - by eexists.
  - done.
  - set_solver.
  - set_solver.
  - apply ex_sorted.
Defined.

Lemma process_list_remove_correct_witness : ∃ s',
  process_list_remove tt 2%positive (ProcQueue ex_list ∅) = Ok tt s' ∧
  dll_ok (plists s') (<[tt := [1; 3]%positive]> ex_seq) ∧
  links (plists s') !! 2%positive = Some detached ∧
  miss_sorted ex_tmr [1; 3]%positive ∧ held s' = ∅.
Proof.
  apply (process_list_remove_correct ex_tmr ex_list ex_seq tt [1%positive] 2 [3%positive] ∅).
  - apply ex_list_ok.
  - by eexists.
  - done.
  - set_solver.
  - set_solver.
  - apply ex_sorted.
Defined.

Lemma process_list_remove_absent_leaks_witness :
  process_list_remove tt 4%positive (ProcQueue ex_list ∅) =
    Ok tt (ProcQueue ex_list ({[ inr 3%positive ]} ∪ ∅)).
Proof.
  apply (process_list_remove_absent_leaks ex_list ex_seq tt 4 1 [2; 3]%positive ∅).
  - apply ex_list_ok.
  - by eexists.
  - done.
  - unfold ex_seq. set_solver.
  - set_solver.
  - set_solver.
Defined.
End examples.
