(* ===== verification/Types.v ===== *)
(** * Constants and types

    The constants of shared/hemem-shared.h, ucm-config.h, policy/policy.h and
    the telemetry headers, and the structs of type/page.h, type/process.h,
    mm.h, policy/policy-state.h, ds/pa-proc-map.h and stats/stats.h, with the
    fields the code reads and writes.

    A struct's list links ([next], [prev], [list]) are in the heaps of [Fifo]
    and [ProcList].  A uthash handle is the key its object was inserted with,
    [None] while the object is in no table.  [struct ucm] gathers the globals
    of the program; it has no counterpart in the source. *)

From S2P Require Import Prelude Fifo Ring F64 ProcList.

(** ** Constants *)
Definition BASEPAGE_SIZE : Z := 4 * 1024.
Definition HUGEPAGE_SIZE : Z := 2 * 1024 * 1024.
Definition CACHELINE_SIZE : Z := 64.
Definition CACHELINES_IN_HUGEPAGE : Z := HUGEPAGE_SIZE / CACHELINE_SIZE.
Definition CACHELINES_IN_BASEPAGE : Z := BASEPAGE_SIZE / CACHELINE_SIZE.
Definition HUGEPAGE_MASK : Z := HUGEPAGE_SIZE - 1.
Definition HUGE_PFN_MASK : Z := Z.lxor HUGEPAGE_MASK (2 ^ 64 - 1).
Definition N_BASEPAGES_IN_HUGEPAGE : Z := 512.
Definition NUM_HOTNESS_LEVELS : Z := 12.
Definition COLD : Z := 0.
Definition MAX_PROCESSES : Z := 24.
Definition HEMEM_NCORES : Z := 56.
Definition LAST_HEMEM_THREAD : Z := 2.
Definition CAPACITY : Z := 128 * 1024 * 1024.
Definition PEBS_SAMPLE_PERIOD : Z := Z.shiftl 1 14.
Definition PEBS_COOLING_THRESHOLD : Z := Z.shiftl 1 NUM_HOTNESS_LEVELS.
Definition CXL_COOLING_THRESHOLD : Z := PEBS_COOLING_THRESHOLD * 1024.
Definition PEBS_MIGRATE_RATE : Z := 256 * 1024 * 1024.

(** The two memory tiers, and an array indexed by tier. *)
Inductive pbuftype := FASTMEM | SLOWMEM.

Inductive pagetypes := HUGEP | BASEP.

#[global] Instance pbuftype_eq_dec : EqDecision pbuftype.
Proof. solve_decision. Defined.
#[global] Instance pagetypes_eq_dec : EqDecision pagetypes.
Proof. solve_decision. Defined.

Definition pt_to_pagesize (pt : pagetypes) : Z :=
  match pt with HUGEP => HUGEPAGE_SIZE | BASEP => BASEPAGE_SIZE end.

Definition pagesize_to_pt {S} (pagesize : Z) : M S pagetypes :=
  if pagesize =? BASEPAGE_SIZE then mret BASEP
  else if pagesize =? HUGEPAGE_SIZE then mret HUGEP
  else fail (AssertFail "hemem-shared.h:52").

Definition pt_to_cacheline_count (pt : pagetypes) : Z :=
  match pt with HUGEP => CACHELINES_IN_HUGEPAGE | BASEP => CACHELINES_IN_BASEPAGE end.

Definition PAGE_ROUND_UP (x : Z) : Z :=
  Z.land (u64 (x + HUGEPAGE_SIZE - 1)) (u64 (Z.lnot (HUGEPAGE_SIZE - 1))).
Definition PAGE_ROUND_DOWN (x : Z) : Z :=
  Z.land x (u64 (Z.lnot (HUGEPAGE_SIZE - 1))).

(** An array of [NPBUFTYPES] counters. *)
Record tiered := Tiered {
  fast : Z;
  slow : Z;
}.
#[global] Instance eta_tiered : Eta tiered :=
  λ r, Tiered (fast r) (slow r).
#[global] Instance set_fast : Setter fast := ltac:(mk_setter).
#[global] Instance set_slow : Setter slow := ltac:(mk_setter).

Record pa_proc_map_entry := PaEntry {
  pe_pa : Z;
  pe_proc : option ptr;
  pe_used : bool;
  pe_hh : option Z;
}.
#[global] Instance eta_pa_proc_map_entry : Eta pa_proc_map_entry :=
  λ r, PaEntry (pe_pa r) (pe_proc r) (pe_used r) (pe_hh r).
#[global] Instance set_pe_pa : Setter pe_pa := ltac:(mk_setter).
#[global] Instance set_pe_proc : Setter pe_proc := ltac:(mk_setter).
#[global] Instance set_pe_used : Setter pe_used := ltac:(mk_setter).
#[global] Instance set_pe_hh : Setter pe_hh := ltac:(mk_setter).

(** [struct hemem_page], without its list links. *)
Record hemem_page := HememPage {
  pg_va : Z;
  pg_pid : Z;
  pg_devdax_offset : Z;
  pg_in_dram : bool;
  pg_uffd : Z;
  pg_pt : pagetypes;
  pg_migrating : bool;
  pg_migration_uffd_unmap_pending : bool;
  pg_map_fixed_uffd_unmap_pending : bool;
  pg_present : bool;
  pg_hot : Z;
  pg_migrations_up : Z;
  pg_migrations_down : Z;
  pg_last_migrated_epoch : Z;
  pg_migration_access_comp : Z;
  pg_local_clock : tiered;
  pg_ring_present : bool;
  pg_in_free_ring : bool;
  pg_accesses : tiered;
  pg_tot_accesses : tiered;
  pg_subpage_skewness : list Z;
  pg_pa_proc_entry : pa_proc_map_entry;
  pg_hh : option Z;
  pg_hh_pa : option Z;
}.
#[global] Instance eta_hemem_page : Eta hemem_page :=
  λ r, HememPage (pg_va r) (pg_pid r) (pg_devdax_offset r) (pg_in_dram r) (pg_uffd r)
    (pg_pt r) (pg_migrating r) (pg_migration_uffd_unmap_pending r)
    (pg_map_fixed_uffd_unmap_pending r) (pg_present r) (pg_hot r) (pg_migrations_up r)
    (pg_migrations_down r) (pg_last_migrated_epoch r) (pg_migration_access_comp r)
    (pg_local_clock r) (pg_ring_present r) (pg_in_free_ring r) (pg_accesses r)
    (pg_tot_accesses r) (pg_subpage_skewness r) (pg_pa_proc_entry r) (pg_hh r)
    (pg_hh_pa r).
#[global] Instance set_pg_va : Setter pg_va := ltac:(mk_setter).
#[global] Instance set_pg_pid : Setter pg_pid := ltac:(mk_setter).
#[global] Instance set_pg_devdax_offset : Setter pg_devdax_offset := ltac:(mk_setter).
#[global] Instance set_pg_in_dram : Setter pg_in_dram := ltac:(mk_setter).
#[global] Instance set_pg_uffd : Setter pg_uffd := ltac:(mk_setter).
#[global] Instance set_pg_pt : Setter pg_pt := ltac:(mk_setter).
#[global] Instance set_pg_migrating : Setter pg_migrating := ltac:(mk_setter).
#[global] Instance set_pg_migration_uffd_unmap_pending : Setter pg_migration_uffd_unmap_pending := ltac:(mk_setter).
#[global] Instance set_pg_map_fixed_uffd_unmap_pending : Setter pg_map_fixed_uffd_unmap_pending := ltac:(mk_setter).
#[global] Instance set_pg_present : Setter pg_present := ltac:(mk_setter).
#[global] Instance set_pg_hot : Setter pg_hot := ltac:(mk_setter).
#[global] Instance set_pg_migrations_up : Setter pg_migrations_up := ltac:(mk_setter).
#[global] Instance set_pg_migrations_down : Setter pg_migrations_down := ltac:(mk_setter).
#[global] Instance set_pg_last_migrated_epoch : Setter pg_last_migrated_epoch := ltac:(mk_setter).
#[global] Instance set_pg_migration_access_comp : Setter pg_migration_access_comp := ltac:(mk_setter).
#[global] Instance set_pg_local_clock : Setter pg_local_clock := ltac:(mk_setter).
#[global] Instance set_pg_ring_present : Setter pg_ring_present := ltac:(mk_setter).
#[global] Instance set_pg_in_free_ring : Setter pg_in_free_ring := ltac:(mk_setter).
#[global] Instance set_pg_accesses : Setter pg_accesses := ltac:(mk_setter).
#[global] Instance set_pg_tot_accesses : Setter pg_tot_accesses := ltac:(mk_setter).
#[global] Instance set_pg_subpage_skewness : Setter pg_subpage_skewness := ltac:(mk_setter).
#[global] Instance set_pg_pa_proc_entry : Setter pg_pa_proc_entry := ltac:(mk_setter).
#[global] Instance set_pg_hh : Setter pg_hh := ltac:(mk_setter).
#[global] Instance set_pg_hh_pa : Setter pg_hh_pa := ltac:(mk_setter).

(** [struct process_mem]; its page lists are [FastBin] and [SlowBin] of the process. *)
Record process_mem := ProcessMem {
  mm_mem_allocated : Z;
  mm_current_fastmem : Z;
  mm_current_slowmem : Z;
  mm_max_fastmem : Z;
  mm_cur_cool_in_fastmem_list : Z;
  mm_cur_cool_in_slowmem_list : Z;
  mm_cur_cool_in_fastmem : option ptr;
  mm_cur_cool_in_slowmem : option ptr;
  mm_epoch_did_cool : bool;
  mm_need_cool_fastmem : bool;
  mm_need_cool_slowmem : bool;
  mm_cools : Z;
  mm_hot_ring : ring_buf_t;
  mm_cold_ring : ring_buf_t;
  mm_free_page_ring : ring_buf_t;
  mm_pages : gmap Z ptr;
  mm_cxl_offset_to_page : gmap Z ptr;
}.
#[global] Instance eta_process_mem : Eta process_mem :=
  λ r, ProcessMem (mm_mem_allocated r) (mm_current_fastmem r) (mm_current_slowmem r)
    (mm_max_fastmem r) (mm_cur_cool_in_fastmem_list r) (mm_cur_cool_in_slowmem_list r)
    (mm_cur_cool_in_fastmem r) (mm_cur_cool_in_slowmem r) (mm_epoch_did_cool r)
    (mm_need_cool_fastmem r) (mm_need_cool_slowmem r) (mm_cools r) (mm_hot_ring r)
    (mm_cold_ring r) (mm_free_page_ring r) (mm_pages r) (mm_cxl_offset_to_page r).
#[global] Instance set_mm_mem_allocated : Setter mm_mem_allocated := ltac:(mk_setter).
#[global] Instance set_mm_current_fastmem : Setter mm_current_fastmem := ltac:(mk_setter).
#[global] Instance set_mm_current_slowmem : Setter mm_current_slowmem := ltac:(mk_setter).
#[global] Instance set_mm_max_fastmem : Setter mm_max_fastmem := ltac:(mk_setter).
#[global] Instance set_mm_cur_cool_in_fastmem_list : Setter mm_cur_cool_in_fastmem_list := ltac:(mk_setter).
#[global] Instance set_mm_cur_cool_in_slowmem_list : Setter mm_cur_cool_in_slowmem_list := ltac:(mk_setter).
#[global] Instance set_mm_cur_cool_in_fastmem : Setter mm_cur_cool_in_fastmem := ltac:(mk_setter).
#[global] Instance set_mm_cur_cool_in_slowmem : Setter mm_cur_cool_in_slowmem := ltac:(mk_setter).
#[global] Instance set_mm_epoch_did_cool : Setter mm_epoch_did_cool := ltac:(mk_setter).
#[global] Instance set_mm_need_cool_fastmem : Setter mm_need_cool_fastmem := ltac:(mk_setter).
#[global] Instance set_mm_need_cool_slowmem : Setter mm_need_cool_slowmem := ltac:(mk_setter).
#[global] Instance set_mm_cools : Setter mm_cools := ltac:(mk_setter).
#[global] Instance set_mm_hot_ring : Setter mm_hot_ring := ltac:(mk_setter).
#[global] Instance set_mm_cold_ring : Setter mm_cold_ring := ltac:(mk_setter).
#[global] Instance set_mm_free_page_ring : Setter mm_free_page_ring := ltac:(mk_setter).
#[global] Instance set_mm_pages : Setter mm_pages := ltac:(mk_setter).
#[global] Instance set_mm_cxl_offset_to_page : Setter mm_cxl_offset_to_page := ltac:(mk_setter).

Record process_policy := ProcessPolicy {
  po_access_count : tiered;
  po_sample_count : list Z;
  po_target_miss_ratio : f64;
  po_current_miss_ratio : f64;
  po_fastmem_delta : Z;
  po_deviation_ratio : f64;
  po_migration_up_bytes : Z;
  po_migration_down_bytes : Z;
}.
#[global] Instance eta_process_policy : Eta process_policy :=
  λ r, ProcessPolicy (po_access_count r) (po_sample_count r) (po_target_miss_ratio r)
    (po_current_miss_ratio r) (po_fastmem_delta r) (po_deviation_ratio r)
    (po_migration_up_bytes r) (po_migration_down_bytes r).
#[global] Instance set_po_access_count : Setter po_access_count := ltac:(mk_setter).
#[global] Instance set_po_sample_count : Setter po_sample_count := ltac:(mk_setter).
#[global] Instance set_po_target_miss_ratio : Setter po_target_miss_ratio := ltac:(mk_setter).
#[global] Instance set_po_current_miss_ratio : Setter po_current_miss_ratio := ltac:(mk_setter).
#[global] Instance set_po_fastmem_delta : Setter po_fastmem_delta := ltac:(mk_setter).
#[global] Instance set_po_deviation_ratio : Setter po_deviation_ratio := ltac:(mk_setter).
#[global] Instance set_po_migration_up_bytes : Setter po_migration_up_bytes := ltac:(mk_setter).
#[global] Instance set_po_migration_down_bytes : Setter po_migration_down_bytes := ltac:(mk_setter).

Record process_stats := ProcessStats {
  ps_miss_faults : Z;
  ps_miss_but_allocated_faults : Z;
  ps_up_count : Z;
  ps_down_count : Z;
  ps_wp_wait_count : Z;
  ps_wp_wait_us : Z;
  ps_unknown_page_count : Z;
}.
#[global] Instance eta_process_stats : Eta process_stats :=
  λ r, ProcessStats (ps_miss_faults r) (ps_miss_but_allocated_faults r) (ps_up_count r)
    (ps_down_count r) (ps_wp_wait_count r) (ps_wp_wait_us r) (ps_unknown_page_count r).
#[global] Instance set_ps_miss_faults : Setter ps_miss_faults := ltac:(mk_setter).
#[global] Instance set_ps_miss_but_allocated_faults : Setter ps_miss_but_allocated_faults := ltac:(mk_setter).
#[global] Instance set_ps_up_count : Setter ps_up_count := ltac:(mk_setter).
#[global] Instance set_ps_down_count : Setter ps_down_count := ltac:(mk_setter).
#[global] Instance set_ps_wp_wait_count : Setter ps_wp_wait_count := ltac:(mk_setter).
#[global] Instance set_ps_wp_wait_us : Setter ps_wp_wait_us := ltac:(mk_setter).
#[global] Instance set_ps_unknown_page_count : Setter ps_unknown_page_count := ltac:(mk_setter).

(** [struct hemem_process], without its list links. *)
Record hemem_process := HememProcess {
  pr_pid : Z;
  pr_uffd : Z;
  pr_exited : bool;
  pr_valid_uffd : bool;
  pr_remap_fd : Z;
  pr_zero : bool;
  pr_still_migrating : bool;
  pr_process_clock : tiered;
  pr_phh : option Z;
  pr_mm : process_mem;
  pr_policy : process_policy;
  pr_stats : process_stats;
}.
#[global] Instance eta_hemem_process : Eta hemem_process :=
  λ r, HememProcess (pr_pid r) (pr_uffd r) (pr_exited r) (pr_valid_uffd r)
    (pr_remap_fd r) (pr_zero r) (pr_still_migrating r) (pr_process_clock r) (pr_phh r)
    (pr_mm r) (pr_policy r) (pr_stats r).
#[global] Instance set_pr_pid : Setter pr_pid := ltac:(mk_setter).
#[global] Instance set_pr_uffd : Setter pr_uffd := ltac:(mk_setter).
#[global] Instance set_pr_exited : Setter pr_exited := ltac:(mk_setter).
#[global] Instance set_pr_valid_uffd : Setter pr_valid_uffd := ltac:(mk_setter).
#[global] Instance set_pr_remap_fd : Setter pr_remap_fd := ltac:(mk_setter).
#[global] Instance set_pr_zero : Setter pr_zero := ltac:(mk_setter).
#[global] Instance set_pr_still_migrating : Setter pr_still_migrating := ltac:(mk_setter).
#[global] Instance set_pr_process_clock : Setter pr_process_clock := ltac:(mk_setter).
#[global] Instance set_pr_phh : Setter pr_phh := ltac:(mk_setter).
#[global] Instance set_pr_mm : Setter pr_mm := ltac:(mk_setter).
#[global] Instance set_pr_policy : Setter pr_policy := ltac:(mk_setter).
#[global] Instance set_pr_stats : Setter pr_stats := ltac:(mk_setter).

(** The request counters of mm-async.c. *)
Record ring_requests := RingRequests {
  free_ring_requests : Z;
  hot_ring_requests : Z;
  cold_ring_requests : Z;
  free_ring_requests_handled : Z;
  hot_ring_requests_handled : Z;
  cold_ring_requests_handled : Z;
}.
#[global] Instance eta_ring_requests : Eta ring_requests :=
  λ r, RingRequests (free_ring_requests r) (hot_ring_requests r) (cold_ring_requests r)
    (free_ring_requests_handled r) (hot_ring_requests_handled r)
    (cold_ring_requests_handled r).
#[global] Instance set_free_ring_requests : Setter free_ring_requests := ltac:(mk_setter).
#[global] Instance set_hot_ring_requests : Setter hot_ring_requests := ltac:(mk_setter).
#[global] Instance set_cold_ring_requests : Setter cold_ring_requests := ltac:(mk_setter).
#[global] Instance set_free_ring_requests_handled : Setter free_ring_requests_handled := ltac:(mk_setter).
#[global] Instance set_hot_ring_requests_handled : Setter hot_ring_requests_handled := ltac:(mk_setter).
#[global] Instance set_cold_ring_requests_handled : Setter cold_ring_requests_handled := ltac:(mk_setter).

Record cool_stats_t := CoolStats {
  cools_started : tiered;
  cools_completed : tiered;
}.
#[global] Instance eta_cool_stats_t : Eta cool_stats_t :=
  λ r, CoolStats (cools_started r) (cools_completed r).
#[global] Instance set_cools_started : Setter cools_started := ltac:(mk_setter).
#[global] Instance set_cools_completed : Setter cools_completed := ltac:(mk_setter).

(** [struct ucm_stats], its three parts flattened. *)
Record ucm_stats_t := UcmStats {
  st_mem_allocated : Z;
  st_pages_allocated : Z;
  st_pages_freed : Z;
  st_memsets : Z;
  st_wp_faults_handled : Z;
  st_missing_faults_handled : Z;
  st_migration_waits : Z;
  st_migrations_up : Z;
  st_migrations_down : Z;
  st_bytes_migrated : Z;
}.
#[global] Instance eta_ucm_stats_t : Eta ucm_stats_t :=
  λ r, UcmStats (st_mem_allocated r) (st_pages_allocated r) (st_pages_freed r)
    (st_memsets r) (st_wp_faults_handled r) (st_missing_faults_handled r)
    (st_migration_waits r) (st_migrations_up r) (st_migrations_down r)
    (st_bytes_migrated r).
#[global] Instance set_st_mem_allocated : Setter st_mem_allocated := ltac:(mk_setter).
#[global] Instance set_st_pages_allocated : Setter st_pages_allocated := ltac:(mk_setter).
#[global] Instance set_st_pages_freed : Setter st_pages_freed := ltac:(mk_setter).
#[global] Instance set_st_memsets : Setter st_memsets := ltac:(mk_setter).
#[global] Instance set_st_wp_faults_handled : Setter st_wp_faults_handled := ltac:(mk_setter).
#[global] Instance set_st_missing_faults_handled : Setter st_missing_faults_handled := ltac:(mk_setter).
#[global] Instance set_st_migration_waits : Setter st_migration_waits := ltac:(mk_setter).
#[global] Instance set_st_migrations_up : Setter st_migrations_up := ltac:(mk_setter).
#[global] Instance set_st_migrations_down : Setter st_migrations_down := ltac:(mk_setter).
#[global] Instance set_st_bytes_migrated : Setter st_bytes_migrated := ltac:(mk_setter).

Record pebs_stats_t := PebsStats {
  total_samples_cnt : Z;
  non_hemem_proc_samples_cnt : Z;
  non_hemem_page_samples_cnt : Z;
  valid_samples_cnt : Z;
  cxl_samples_cnt : Z;
  zero_pages_cnt : Z;
  throttle_cnt : Z;
  unthrottle_cnt : Z;
  lost_samples : Z;
}.
#[global] Instance eta_pebs_stats_t : Eta pebs_stats_t :=
  λ r, PebsStats (total_samples_cnt r) (non_hemem_proc_samples_cnt r)
    (non_hemem_page_samples_cnt r) (valid_samples_cnt r) (cxl_samples_cnt r)
    (zero_pages_cnt r) (throttle_cnt r) (unthrottle_cnt r) (lost_samples r).
#[global] Instance set_total_samples_cnt : Setter total_samples_cnt := ltac:(mk_setter).
#[global] Instance set_non_hemem_proc_samples_cnt : Setter non_hemem_proc_samples_cnt := ltac:(mk_setter).
#[global] Instance set_non_hemem_page_samples_cnt : Setter non_hemem_page_samples_cnt := ltac:(mk_setter).
#[global] Instance set_valid_samples_cnt : Setter valid_samples_cnt := ltac:(mk_setter).
#[global] Instance set_cxl_samples_cnt : Setter cxl_samples_cnt := ltac:(mk_setter).
#[global] Instance set_zero_pages_cnt : Setter zero_pages_cnt := ltac:(mk_setter).
#[global] Instance set_throttle_cnt : Setter throttle_cnt := ltac:(mk_setter).
#[global] Instance set_unthrottle_cnt : Setter unthrottle_cnt := ltac:(mk_setter).
#[global] Instance set_lost_samples : Setter lost_samples := ltac:(mk_setter).

(** The page lists of the program: the two free lists of mm.c and the hotness
    lists [fastmem_lists[i]] and [slowmem_lists[i]] of each process. *)
Inductive list_id :=
  | FastFree
  | SlowFree
  | FastBin (process : ptr) (level : Z)
  | SlowBin (process : ptr) (level : Z).

#[global] Instance list_id_eq_dec : EqDecision list_id.
Proof. solve_decision. Defined.
#[global] Instance list_id_countable : Countable list_id.
Proof.
  refine (inj_countable'
    (λ l, match l with
     | FastFree => inl true
     | SlowFree => inl false
     | FastBin p i => inr (true, p, i)
     | SlowBin p i => inr (false, p, i)
     end)
    (λ x, match x with
     | inl true => FastFree
     | inl false => SlowFree
     | inr (true, p, i) => FastBin p i
     | inr (false, p, i) => SlowBin p i
     end) _).
  by intros [].
Defined.

(** The outcome of an IPC exchange with an application (ipc/ipc.h). *)
Inductive ucm_ipc_result := IPC_SUCCESS | IPC_APP_EXITED | IPC_INVALID_MSG | IPC_ERRED.

(** What an application does with a remap request: the outcome of the exchange
    on the socket, and the address ([None] for the one requested) and status
    of its response. *)
Record app_reply := AppReply {
  ar_result : ucm_ipc_result;
  ar_va : option Z;
  ar_success : bool;
}.

(** [struct hemem_page_app], what an application is told about a page. *)
Record hemem_page_app := PageApp {
  pa_va : Z;
  pa_devdax_offset : Z;
  pa_in_dram : bool;
  pa_pt : pagetypes;
}.
#[global] Instance eta_hemem_page_app : Eta hemem_page_app :=
  λ r, PageApp (pa_va r) (pa_devdax_offset r) (pa_in_dram r) (pa_pt r).
#[global] Instance set_pa_va : Setter pa_va := ltac:(mk_setter).
#[global] Instance set_pa_devdax_offset : Setter pa_devdax_offset := ltac:(mk_setter).
#[global] Instance set_pa_in_dram : Setter pa_in_dram := ltac:(mk_setter).
#[global] Instance set_pa_pt : Setter pa_pt := ltac:(mk_setter).

(** The globals of the program: the pages and processes by address, the page
    lists, the process list and the locks held, [proc_map], [pa_to_proc_map],
    the page [remap_lock]s held, the counters, [scan_epoch], the sizes and
    addresses of the two tiers, the bytes of the two tiers by offset, the
    mappings the applications were told to install (by pid and virtual
    address), and the replies of the applications to the remap requests to come
    (success when the list is empty). *)
Record ucm := Ucm {
  u_pages : gmap ptr hemem_page;
  u_plist : page_lists list_id;
  u_procs : gmap ptr hemem_process;
  u_pq : @proc_queue unit _ _;
  u_proc_map : gmap Z ptr;
  u_pa_map : gmap Z ptr;
  u_remap_locked : gset ptr;
  u_cool_stats : cool_stats_t;
  u_rings : ring_requests;
  u_stats : ucm_stats_t;
  u_pebs_stats : pebs_stats_t;
  u_cxl_unknown_proc_sample_cnt : Z;
  u_scan_epoch : Z;
  u_fastmem_size : Z;
  u_slowmem_size : Z;
  u_fastmem_ptr : Z;
  u_slowmem_ptr : Z;
  u_mem : pbuftype → Z → Z;
  u_app : gmap (Z * Z) (pbuftype * Z);
  u_ipc : list app_reply;
}.
#[global] Instance eta_ucm : Eta ucm :=
  λ r, Ucm (u_pages r) (u_plist r) (u_procs r) (u_pq r) (u_proc_map r) (u_pa_map r)
    (u_remap_locked r) (u_cool_stats r) (u_rings r) (u_stats r) (u_pebs_stats r)
    (u_cxl_unknown_proc_sample_cnt r) (u_scan_epoch r) (u_fastmem_size r)
    (u_slowmem_size r) (u_fastmem_ptr r) (u_slowmem_ptr r) (u_mem r) (u_app r) (u_ipc r).
#[global] Instance set_u_pages : Setter u_pages := ltac:(mk_setter).
#[global] Instance set_u_plist : Setter u_plist := ltac:(mk_setter).
#[global] Instance set_u_procs : Setter u_procs := ltac:(mk_setter).
#[global] Instance set_u_pq : Setter u_pq := ltac:(mk_setter).
#[global] Instance set_u_proc_map : Setter u_proc_map := ltac:(mk_setter).
#[global] Instance set_u_pa_map : Setter u_pa_map := ltac:(mk_setter).
#[global] Instance set_u_remap_locked : Setter u_remap_locked := ltac:(mk_setter).
#[global] Instance set_u_cool_stats : Setter u_cool_stats := ltac:(mk_setter).
#[global] Instance set_u_rings : Setter u_rings := ltac:(mk_setter).
#[global] Instance set_u_stats : Setter u_stats := ltac:(mk_setter).
#[global] Instance set_u_pebs_stats : Setter u_pebs_stats := ltac:(mk_setter).
#[global] Instance set_u_cxl_unknown_proc_sample_cnt : Setter u_cxl_unknown_proc_sample_cnt := ltac:(mk_setter).
#[global] Instance set_u_scan_epoch : Setter u_scan_epoch := ltac:(mk_setter).
#[global] Instance set_u_fastmem_size : Setter u_fastmem_size := ltac:(mk_setter).
#[global] Instance set_u_slowmem_size : Setter u_slowmem_size := ltac:(mk_setter).
#[global] Instance set_u_fastmem_ptr : Setter u_fastmem_ptr := ltac:(mk_setter).
#[global] Instance set_u_slowmem_ptr : Setter u_slowmem_ptr := ltac:(mk_setter).
#[global] Instance set_u_mem : Setter u_mem := ltac:(mk_setter).
#[global] Instance set_u_app : Setter u_app := ltac:(mk_setter).
#[global] Instance set_u_ipc : Setter u_ipc := ltac:(mk_setter).

(** ** Access to the objects *)
Definition tier_get (t : pbuftype) (a : tiered) : Z :=
  match t with FASTMEM => fast a | SLOWMEM => slow a end.
Definition tier_upd (t : pbuftype) (f : Z → Z) (a : tiered) : tiered :=
  match t with FASTMEM => a <| fast ::= f |> | SLOWMEM => a <| slow ::= f |> end.
Definition tier_of (in_dram : bool) : pbuftype := if in_dram then FASTMEM else SLOWMEM.

Definition page (p : ptr) : M ucm hemem_page := deref u_pages p.
Definition set_page (p : ptr) (f : hemem_page → hemem_page) : M ucm unit :=
  store u_pages p f.
Definition proc (p : ptr) : M ucm hemem_process := deref u_procs p.
Definition set_proc (p : ptr) (f : hemem_process → hemem_process) : M ucm unit :=
  store u_procs p f.
Definition set_mm (p : ptr) (f : process_mem → process_mem) : M ucm unit :=
  set_proc p (λ r, r <| pr_mm ::= f |>).
Definition list_of_page (p : ptr) : M ucm (option list_id) :=
  n ← zoom u_plist (deref links p); mret (list_of n).
Definition list_header (l : list_id) : M ucm page_list := zoom u_plist (deref headers l).

(** The lists of a process by tier. *)
Definition bin (in_dram : bool) (process : ptr) (level : Z) : list_id :=
  if in_dram then FastBin process level else SlowBin process level.

Definition free_list (in_dram : bool) : list_id := if in_dram then FastFree else SlowFree.

Definition ucm_get_curr_epoch : M ucm Z := gets u_scan_epoch.
