(* ===== verification/Hotness.v ===== *)
(** * Hotness (src/src/ucm/core-util.c)

    The index of the hotness list a page belongs to, from its access counters,
    and the decay of a counter that lags behind the cooling clock. *)

From S2P Require Import Prelude Fifo Ring F64 ProcList Types.

(** [__builtin_clzll], defined for a non-zero 64-bit integer. *)
Definition clzll (x : Z) : Z := 63 - Z.log2 x.

Definition _access_to_index (num : Z) : Z :=
  if num <=? 0 then 0
  else
    let ret := u64 (64 - clzll num) in
    if ret >? NUM_HOTNESS_LEVELS - 1 then NUM_HOTNESS_LEVELS - 1 else ret.

Definition access_to_index (dram_access cxl_access : Z) : Z :=
  let cxl_access := cxl_access / PEBS_SAMPLE_PERIOD in
  _access_to_index (u64 (dram_access + cxl_access)).

(** [x >> n] on 64-bit operands, as the target's [shr] computes it: the count
    is taken modulo 64 (C leaves a count of 64 or more undefined). *)
Definition shr64 (x n : Z) : Z := Z.shiftr x (n mod 64).

(** [accesses[j] >> (process_clock[j] - local_clock[j])]: the samples a page
    would have if it were up to date with cooling. *)
Definition decayed (clock : tiered) (pg : hemem_page) (j : pbuftype) : Z :=
  shr64 (tier_get j (pg_accesses pg))
        (u64 (tier_get j clock - tier_get j (pg_local_clock pg))).

Definition decayed_index (clock : tiered) (pg : hemem_page) : Z :=
  access_to_index (decayed clock pg FASTMEM) (decayed clock pg SLOWMEM).

(** ** The lists are indexed by powers of two *)
Lemma index_of_pos n :
  0 < n < 2 ^ 64 → _access_to_index n = Z.min 11 (Z.log2 n + 1).
Proof.
  intros Hn. unfold _access_to_index, clzll, NUM_HOTNESS_LEVELS.
  rewrite (proj2 (Z.leb_gt n 0)) by lia.
  assert (0 ≤ Z.log2 n < 64) as Hl.
  { split; [apply Z.log2_nonneg|]. apply Z.log2_lt_pow2; lia. }
  rewrite u64_small by lia. destruct (Z.gtb_spec (64 - (63 - Z.log2 n)) (12 - 1)); lia.
Qed.

Lemma _access_to_index_range n : 0 ≤ n < 2 ^ 64 → 0 ≤ _access_to_index n < NUM_HOTNESS_LEVELS.
Proof.
  intros Hn. unfold NUM_HOTNESS_LEVELS. destruct (decide (n = 0)) as [->|]; [done|].
  rewrite index_of_pos by lia. pose proof (Z.log2_nonneg n). lia.
Qed.

Lemma access_to_index_range d c : 0 ≤ access_to_index d c < NUM_HOTNESS_LEVELS.
Proof. apply _access_to_index_range, u64_range. Qed.

Lemma decayed_index_range clock pg : 0 ≤ decayed_index clock pg < NUM_HOTNESS_LEVELS.
Proof. apply access_to_index_range. Qed.
#[export] Hint Resolve access_to_index_range decayed_index_range : nemo.

(** C35: the hotness list a count selects: none of the accesses means list 0,
    list [i] below the last holds exactly the counts from [2^(i-1)] to
    [2^i - 1], and the last one every count from [2^10] on. *)
Theorem access_to_index_bins n i :
  0 ≤ n < 2 ^ 64 →
  _access_to_index n = i ↔
    (i = 0 ∧ n = 0) ∨ (0 < i < 11 ∧ 2 ^ (i - 1) ≤ n < 2 ^ i) ∨ (i = 11 ∧ 2 ^ 10 ≤ n).
Proof.
  intros Hn. destruct (decide (n = 0)) as [->|Hn0].
  { split.
    - intros <-. by left.
    - intros [[-> _]|[[? [? _]]|[_ ?]]]; [done| |lia].
      pose proof (Z.pow_pos_nonneg 2 (i - 1)). lia. }
  rewrite index_of_pos by lia. pose proof (Z.log2_nonneg n) as Hl0.
  pose proof (Z.log2_spec n) as Hl. split.
  - intros <-. right. destruct (decide (Z.log2 n + 1 < 11)).
    + left. rewrite Z.min_r by lia. split; [lia|].
      replace (Z.log2 n + 1 - 1) with (Z.log2 n) by lia. rewrite Z.add_1_r. lia.
    + right. rewrite Z.min_l by lia. split; [done|].
      apply Z.le_trans with (2 ^ Z.log2 n); [|lia]. apply Z.pow_le_mono_r; lia.
  - intros [[_ ?]|[[? [? ?]]|[-> Hbig]]]; [lia| |].
    + rewrite (Z.log2_unique n (i - 1)); [lia|lia|].
      replace (Z.succ (i - 1)) with i by lia. lia.
    + apply (Z.log2_le_mono (2 ^ 10) n) in Hbig. change (Z.log2 (2 ^ 10)) with 10 in Hbig. lia.
Qed.

Lemma access_to_index_bins_witness : _access_to_index 5 = 3 ↔
  (3 = 0 ∧ 5 = 0) ∨ (0 < 3 < 11 ∧ 2 ^ (3 - 1) ≤ 5 < 2 ^ 3) ∨ (3 = 11 ∧ 2 ^ 10 ≤ 5).
Proof. apply (access_to_index_bins 5 3). lia. Defined.

(** ** Decay *)
Lemma decayed_up_to_date clock pg j :
  tier_get j (pg_local_clock pg) = tier_get j clock →
  decayed clock pg j = tier_get j (pg_accesses pg).
Proof. intros Heq. unfold decayed. by rewrite Heq, Z.sub_diag. Qed.

(** What the decay is for: a counter is halved once for every step of cooling
    that its page has missed, and the level is the position of the highest bit
    of the sum. *)
Definition halved (clock : tiered) (pg : hemem_page) (j : pbuftype) : Z :=
  tier_get j (pg_accesses pg) / 2 ^ (tier_get j clock - tier_get j (pg_local_clock pg)).
Definition cooled_level (clock : tiered) (pg : hemem_page) : Z :=
  let n := halved clock pg FASTMEM + halved clock pg SLOWMEM / PEBS_SAMPLE_PERIOD in
  if n =? 0 then 0 else Z.min (NUM_HOTNESS_LEVELS - 1) (Z.log2 n + 1).

(** The page has missed fewer than 64 steps, and its counters do not overflow
    when they are added. *)
Definition in_step (clock : tiered) (pg : hemem_page) : Prop :=
  0 ≤ fast clock - fast (pg_local_clock pg) < 64 ∧ 0 ≤ slow clock - slow (pg_local_clock pg) < 64 ∧
  0 ≤ fast (pg_accesses pg) ∧ 0 ≤ slow (pg_accesses pg) ∧
  fast (pg_accesses pg) + slow (pg_accesses pg) < 2 ^ 64.
#[global] Instance in_step_dec clock pg : Decision (in_step clock pg) := _.

Lemma decayed_halved clock pg j :
  0 ≤ tier_get j clock - tier_get j (pg_local_clock pg) < 64 → decayed clock pg j = halved clock pg j.
Proof.
  intros Hlag. unfold decayed, halved, shr64. rewrite u64_small by lia.
  rewrite Z.mod_small, Z.shiftr_div_pow2 by lia. done.
Qed.

Lemma halved_le clock pg j :
  0 ≤ tier_get j (pg_accesses pg) → 0 ≤ halved clock pg j ≤ tier_get j (pg_accesses pg).
Proof.
  intros Ha. unfold halved. set (k := _ - _). destruct (Z.ltb_spec k 0) as [Hk|Hk].
  { rewrite Z.pow_neg_r, Zdiv_0_r by done. lia. }
  pose proof (Z.pow_pos_nonneg 2 k ltac:(lia) Hk). split; [by apply Z.div_pos|].
  apply Z.div_le_upper_bound; nia.
Qed.

Lemma decayed_index_level clock pg : in_step clock pg → decayed_index clock pg = cooled_level clock pg.
Proof.
  intros (Hf&Hs&Hf0&Hs0&Hsum). unfold decayed_index, cooled_level, access_to_index.
  rewrite !decayed_halved by done. pose proof (halved_le clock pg FASTMEM Hf0) as H1.
  pose proof (halved_le clock pg SLOWMEM Hs0) as H2. cbn [tier_get] in H1, H2.
  assert (0 ≤ halved clock pg SLOWMEM / PEBS_SAMPLE_PERIOD ≤ halved clock pg SLOWMEM) as H3.
  { split; [apply Z.div_pos; [lia|done]|]. apply Z.div_le_upper_bound; [done|]. change PEBS_SAMPLE_PERIOD with 16384. lia. }
  revert H1 H2 H3. generalize (halved clock pg FASTMEM) (halved clock pg SLOWMEM / PEBS_SAMPLE_PERIOD). intros a b H1 H2 H3.
  rewrite u64_small by lia. destruct (Z.eqb_spec (a + b) 0) as [->|Hn]; [done|].
  rewrite index_of_pos by lia. done.
Qed.

(** A page, with the fields the code reads here. *)
Definition page_with (accesses local_clock : tiered) : hemem_page :=
  HememPage 0 (-1) 0 false 0 HUGEP false false false false 0 0 0 0 0 local_clock
    false false accesses (Tiered 0 0) [] (PaEntry 0 None false None) None None.

(** A page that misses exactly 64 rounds of cooling is not cooled at all:
    the shift count wraps around and its old counters are read undecayed. *)
Theorem stale_page_not_cooled clock pg j :
  u64 (tier_get j clock - tier_get j (pg_local_clock pg)) = 64 →
  decayed clock pg j = tier_get j (pg_accesses pg).
Proof. intros Hlag. unfold decayed. by rewrite Hlag. Qed.

Lemma stale_page_not_cooled_witness :
  decayed (Tiered 64 0) (page_with (Tiered 4096 0) (Tiered 0 0)) FASTMEM = 4096.
Proof.
  apply (stale_page_not_cooled (Tiered 64 0) (page_with (Tiered 4096 0) (Tiered 0 0)) FASTMEM).
  reflexivity.
Defined.
