(* ===== verification/Mm.v ===== *)
(** * Memory management (src/src/ucm/mm.c, ds/pa-proc-map.c, type/page.c)

    The page tables of a process ([pages] by virtual address and
    [cxl_offset_to_page] by slow-tier offset), the map from slow-tier offsets
    to processes, and the free lists.  Each critical section under
    [pages_lock], [list_lock] or the map's [mutex] is one step.

    The tables are uthash tables.  A lookup compares the key field an object
    has now with the key asked for, in the bucket of the key it was inserted
    with; a deletion goes by the object's handle.  Adding an object or a key
    that is already there, and deleting an object that is not there, corrupt a
    uthash table: they are [Undefined].  HashTables.v relates the maps used here
    to the macros of Uthash.v. *)

From S2P Require Import Prelude Fifo Ring F64 ProcList Types Hotness.

(** ** uthash *)
Definition HASH_FIND (table : gmap Z ptr) (key_of : hemem_page → Z) (key : Z) :
    M ucm (option ptr) :=
  match table !! key with
  | None => mret None
  | Some x => pg ← page x; mret (if key_of pg =? key then Some x else None)
  end.

(** [hash_add table handle key]: the table with [x] under [key], for an [x]
    that is in no table and a [key] that is not used. *)
Definition HASH_ADD (table : gmap Z ptr) (handle : option Z) (key : Z) (x : ptr) :
    M ucm (gmap Z ptr) :=
  match handle, table !! key with
  | None, None => mret (<[key := x]> table)
  | _, _ => fail (Undefined "HASH_ADD of an object or a key that is in the table")
  end.

Definition HASH_DELETE (table : gmap Z ptr) (handle : option Z) (x : ptr) :
    M ucm (gmap Z ptr) :=
  match handle with
  | Some key =>
      if decide (table !! key = Some x) then mret (delete key table)
      else fail (Undefined "HASH_DELETE of an object that is not in the table")
  | None => fail (Undefined "HASH_DELETE of an object that is not in the table")
  end.

(** ** type/page.c *)
Definition hemem_page_zero : hemem_page :=
  HememPage 0 0 0 false 0 HUGEP false false false false COLD 0 0 0 0 (Tiered 0 0)
    false false (Tiered 0 0) (Tiered 0 0) (replicate 512 0) (PaEntry 0 None false None)
    None None.

(** [calloc] finds memory: the new page is at an address not in use. *)
Definition hemem_page_alloc : M ucm ptr :=
  p ← gets (λ s, fresh (dom (u_pages s)));
  modify (λ s, s
    <| u_pages ::= insert p (hemem_page_zero
         <| pg_devdax_offset := u64 (-1) |> <| pg_pid := -1 |>) |>
    <| u_plist ::= λ l, l <| links ::= insert p detached |> |>);;
  mret p.

(** ** ds/pa-proc-map.c *)
Definition pa_proc_map_add (x process : ptr) : M ucm unit :=
  pg ← page x;
  assert_ "pa-proc-map.c:15" (negb (pg_in_dram pg));;
  let entry := pg_pa_proc_entry pg in
  assert_ "pa-proc-map.c:21" (negb (pe_used entry));;
  root ← gets u_pa_map;
  root' ← HASH_ADD root (pe_hh entry) (pg_devdax_offset pg) x;
  set_page x (λ pg, pg <| pg_pa_proc_entry :=
    PaEntry (pg_devdax_offset pg) (Some process) true (Some (pg_devdax_offset pg)) |>);;
  modify (λ s, s <| u_pa_map := root' |>).

Definition pa_proc_map_remove (x : ptr) : M ucm unit :=
  pg ← page x;
  let entry := pg_pa_proc_entry pg in
  if negb (pe_used entry) then mret tt
  else
    root ← gets u_pa_map;
    root' ← HASH_DELETE root (pe_hh entry) x;
    modify (λ s, s <| u_pa_map := root' |>);;
    set_page x (λ pg, pg <| pg_pa_proc_entry := PaEntry 0 None false None |>).

Definition pa_proc_map_find (pa : Z) : M ucm (option ptr) :=
  root ← gets u_pa_map;
  o ← HASH_FIND root (λ pg, pe_pa (pg_pa_proc_entry pg)) pa;
  match o with
  | None => mret None
  | Some x =>
      pg ← page x;
      assert_ "pa-proc-map.c:49" (negb (is_null (pe_proc (pg_pa_proc_entry pg))));;
      mret (pe_proc (pg_pa_proc_entry pg))
  end.

(** ** Page tables *)
Definition mm_find_page (process : ptr) (va : Z) : M ucm (option ptr) :=
  r ← proc process;
  HASH_FIND (mm_pages (pr_mm r)) pg_va va.

Definition mm_find_page_by_cxl_offset (process : ptr) (devdax_offset : Z) :
    M ucm (option ptr) :=
  r ← proc process;
  HASH_FIND (mm_cxl_offset_to_page (pr_mm r)) pg_devdax_offset devdax_offset.

Definition add_to_pages (process x : ptr) : M ucm unit :=
  pg ← page x;
  r ← proc process;
  pages ← HASH_ADD (mm_pages (pr_mm r)) (pg_hh pg) (pg_va pg) x;
  set_mm process (λ mm, mm <| mm_pages := pages |>);;
  set_page x (λ pg, pg <| pg_hh := Some (pg_va pg) |>).

Definition add_to_cxl (process x : ptr) : M ucm unit :=
  pg ← page x;
  r ← proc process;
  pages ← HASH_ADD (mm_cxl_offset_to_page (pr_mm r)) (pg_hh_pa pg) (pg_devdax_offset pg) x;
  set_mm process (λ mm, mm <| mm_cxl_offset_to_page := pages |>);;
  set_page x (λ pg, pg <| pg_hh_pa := Some (pg_devdax_offset pg) |>).

Definition delete_from_pages (process x : ptr) : M ucm unit :=
  pg ← page x;
  r ← proc process;
  pages ← HASH_DELETE (mm_pages (pr_mm r)) (pg_hh pg) x;
  set_mm process (λ mm, mm <| mm_pages := pages |>);;
  set_page x (λ pg, pg <| pg_hh := None |>).

Definition delete_from_cxl (process x : ptr) : M ucm unit :=
  pg ← page x;
  r ← proc process;
  pages ← HASH_DELETE (mm_cxl_offset_to_page (pr_mm r)) (pg_hh_pa pg) x;
  set_mm process (λ mm, mm <| mm_cxl_offset_to_page := pages |>);;
  set_page x (λ pg, pg <| pg_hh_pa := None |>).

Definition mm_add_page (process x : ptr) : M ucm unit :=
  pg ← page x;
  p ← mm_find_page process (pg_va pg);
  when (is_null p) (add_to_pages process x);;
  when (negb (pg_in_dram pg)) (
    p ← mm_find_page_by_cxl_offset process (pg_devdax_offset pg);
    when (is_null p) (add_to_cxl process x));;
  when (negb (pg_in_dram pg)) (pa_proc_map_add x process).

(** mm-async.c: the free ring of a process. *)
Definition mm_internal_enqueue_page_removal (process x : ptr) : M ucm unit :=
  pg ← page x;
  if pg_in_free_ring pg then mret tt
  else
    set_page x (λ pg, pg <| pg_in_free_ring := true |>);;
    r ← proc process;
    if ring_buf_full (mm_free_page_ring (pr_mm r)) then fail (Blocked "free_page_ring is full")
    else
      set_mm process (λ mm, mm <| mm_free_page_ring ::= ring_buf_put x |>);;
      modify (λ s, s <| u_rings ::= λ c, c <| free_ring_requests ::= λ n, u64 (n + 1) |> |>).

Definition mm_remove_page (process x : ptr) : M ucm unit :=
  r ← proc process;
  when (bool_decide (mm_pages (pr_mm r) ≠ ∅)) (delete_from_pages process x);;
  pg ← page x;
  when (negb (pg_in_dram pg)) (
    when (bool_decide (mm_cxl_offset_to_page (pr_mm r) ≠ ∅)) (delete_from_cxl process x));;
  when (negb (pg_in_dram pg)) (pa_proc_map_remove x);;
  mm_internal_enqueue_page_removal process x.

Definition mm_add_page_to_cxl (process x : ptr) : M ucm unit :=
  pg ← page x;
  assert_ "mm.c:90" (negb (pg_in_dram pg));;
  p ← mm_find_page_by_cxl_offset process (pg_devdax_offset pg);
  match p with
  | Some _ => mret tt
  | None => add_to_cxl process x;; pa_proc_map_add x process
  end.

Definition mm_remove_page_from_cxl (process x : ptr) : M ucm unit :=
  delete_from_cxl process x;;
  pa_proc_map_remove x.

Definition mm_find_proc_by_cxl_offset (cxl_devdax_offset : Z) : M ucm (option ptr) :=
  pa_proc_map_find cxl_devdax_offset.

(** ** Free lists *)
Definition get_free_fastmem_page : M ucm (option ptr) := zoom u_plist (dequeue_page FastFree).
Definition get_free_slowmem_page : M ucm (option ptr) := zoom u_plist (dequeue_page SlowFree).

Definition return_free_fastmem_page (x : ptr) : M ucm unit :=
  pg ← page x;
  assert_ "mm.c:131" (negb (pg_present pg));;
  zoom u_plist (enqueue_page FastFree x).
Definition return_free_slowmem_page (x : ptr) : M ucm unit :=
  pg ← page x;
  assert_ "mm.c:136" (negb (pg_present pg));;
  zoom u_plist (enqueue_page SlowFree x).

Definition assert_page_freed (x : ptr) : M ucm unit :=
  pg ← page x;
  assert_ "mm.c:141" (negb (pg_present pg));;
  l ← list_of_page x;
  if pg_in_dram pg then assert_ "mm.c:143" (bool_decide (l = Some FastFree))
  else assert_ "mm.c:145" (bool_decide (l = Some SlowFree)).

Definition get_fastmem_size : M ucm Z := gets u_fastmem_size.
Definition get_slowmem_size : M ucm Z := gets u_slowmem_size.
Definition get_fastmem_free_page_cnt : M ucm Z := q ← list_header FastFree; mret (numentries q).
Definition get_slowmem_free_page_cnt : M ucm Z := q ← list_header SlowFree; mret (numentries q).
Definition get_fastmem_free_size : M ucm Z :=
  n ← get_fastmem_free_page_cnt; mret (u64 (n * HUGEPAGE_SIZE)).
Definition get_slowmem_free_size : M ucm Z :=
  n ← get_slowmem_free_page_cnt; mret (u64 (n * HUGEPAGE_SIZE)).

Definition devdax_offset_to_addr (offset : Z) (is_fastmem : bool) : M ucm Z :=
  base ← gets (λ s, if is_fastmem then u_fastmem_ptr s else u_slowmem_ptr s);
  mret (u64 (base + offset)).

Definition get_default_page_size : Z := HUGEPAGE_SIZE.

(** ** Initialisation *)
Definition init_free_page (in_dram : bool) (i : Z) : M ucm unit :=
  p ← hemem_page_alloc;
  pt ← pagesize_to_pt get_default_page_size;
  set_page p (λ pg, pg <| pg_pt := pt |>
    <| pg_devdax_offset := u64 (i * get_default_page_size) |> <| pg_in_dram := in_dram |>);;
  zoom u_plist (enqueue_page (free_list in_dram) p).

Definition init_free_lists : M ucm unit :=
  fsz ← get_fastmem_size;
  let n_fast_hugepages := fsz / get_default_page_size in
  assert_ "mm.c:195" (negb (n_fast_hugepages =? 0));;
  for_list (seqZ 0 n_fast_hugepages) (init_free_page true);;
  ssz ← get_slowmem_size;
  let n_slow_hugepages := ssz / get_default_page_size in
  assert_ "mm.c:210" (negb (n_slow_hugepages =? 0));;
  for_list (seqZ 0 n_slow_hugepages) (init_free_page false).

(** [physmem_init] maps the two tiers at [fastmem_ptr] and [slowmem_ptr]. *)
Definition mm_init (fastmem_size slowmem_size fastmem_ptr slowmem_ptr : Z) : M ucm unit :=
  modify (λ s, s <| u_fastmem_size := fastmem_size |> <| u_slowmem_size := slowmem_size |>
                 <| u_fastmem_ptr := fastmem_ptr |> <| u_slowmem_ptr := slowmem_ptr |>);;
  modify (λ s, s <| u_cool_stats := CoolStats (Tiered 0 0) (Tiered 0 0) |>);;
  init_free_lists;;
  modify (λ s, s <| u_pa_map := ∅ |>).

(** The globals before [main]: zero, and two empty free lists. *)
Definition ucm_start : ucm :=
  Ucm ∅ (PageLists ∅ {[ FastFree := PageList None None 0; SlowFree := PageList None None 0 ]})
    ∅ (ProcQueue (PageLists ∅ {[ tt := PageList None None 0 ]}) ∅) ∅ ∅ ∅
    (CoolStats (Tiered 0 0) (Tiered 0 0)) (RingRequests 0 0 0 0 0 0)
    (UcmStats 0 0 0 0 0 0 0 0 0 0) (PebsStats 0 0 0 0 0 0 0 0 0) 0 0 0 0 0 0
    (λ _ _, 0) ∅ [].
