(* ===== verification/MmAsync.v ===== *)
(** * Deferred list management (src/src/ucm/mm-async.c)

    The telemetry and request threads never move a page between lists: they
    put it in a ring of its process ([hot_ring], [cold_ring],
    [free_page_ring]) and the policy thread drains the rings.  Cooling walks
    the hotness lists backwards, at most [COOLING_PAGES] pages at a time, and
    keeps a bookmark in the process. *)

From S2P Require Import Prelude Fifo Ring F64 ProcList Types Hotness Mm.

Definition HOT_RING_REQS_THRESHOLD : Z := 1024 * 1024.
Definition COLD_RING_REQS_THRESHOLD : Z := 1024 * 1024.
Definition COOLING_PAGES : nat := Z.to_nat 16384.

(** ** The state of cooling, by tier *)
Definition need_cool (fastmem : bool) (mm : process_mem) : bool :=
  if fastmem then mm_need_cool_fastmem mm else mm_need_cool_slowmem mm.
Definition set_need_cool (fastmem b : bool) (mm : process_mem) : process_mem :=
  if fastmem then mm <| mm_need_cool_fastmem := b |> else mm <| mm_need_cool_slowmem := b |>.
Definition cur_cool (fastmem : bool) (mm : process_mem) : option ptr :=
  if fastmem then mm_cur_cool_in_fastmem mm else mm_cur_cool_in_slowmem mm.
Definition set_cur_cool (fastmem : bool) (o : option ptr) (mm : process_mem) : process_mem :=
  if fastmem then mm <| mm_cur_cool_in_fastmem := o |> else mm <| mm_cur_cool_in_slowmem := o |>.
Definition cur_cool_list (fastmem : bool) (mm : process_mem) : Z :=
  if fastmem then mm_cur_cool_in_fastmem_list mm else mm_cur_cool_in_slowmem_list mm.
Definition set_cur_cool_list (fastmem : bool) (i : Z) (mm : process_mem) : process_mem :=
  if fastmem then mm <| mm_cur_cool_in_fastmem_list := i |>
  else mm <| mm_cur_cool_in_slowmem_list := i |>.

(** [__proc_cool_fastmem_async] and [__proc_cool_slowmem_async]. *)
Definition proc_cool_async (fastmem force : bool) (process : ptr) : M ucm unit :=
  r ← proc process;
  when (force || negb (need_cool fastmem (pr_mm r))) (
    set_mm process (set_need_cool fastmem true);;
    set_proc process (λ r, r <| pr_process_clock ::=
      tier_upd (tier_of fastmem) (λ n, u64 (n + 1)) |>);;
    set_mm process (λ mm, mm <| mm_cools ::= λ n, u64 (n + 1) |>);;
    modify (λ s, s <| u_cool_stats ::= λ c, c <| cools_started ::=
      tier_upd (tier_of fastmem) (λ n, u64 (n + 1)) |> |>)).

Definition mm_request_soft_cool_slowmem : ptr → M ucm unit := proc_cool_async false false.
Definition mm_request_cool_slowmem : ptr → M ucm unit := proc_cool_async false true.
Definition mm_request_soft_cool_fastmem : ptr → M ucm unit := proc_cool_async true false.
Definition mm_request_cool_fastmem : ptr → M ucm unit := proc_cool_async true true.

(** ** Producers of the hot and cold rings *)
Definition mm_mark_page_hot_async (process x : ptr) : M ucm bool :=
  pg ← page x;
  if pg_ring_present pg then mret false
  else
    set_page x (λ pg, pg <| pg_ring_present := true |>);;
    set_mm process (λ mm, mm <| mm_hot_ring ::= ring_buf_put x |>);;
    modify (λ s, s <| u_rings ::= λ c, c <| hot_ring_requests ::= λ n, u64 (n + 1) |> |>);;
    mret true.

Definition mm_mark_page_cold_async (process x : ptr) : M ucm bool :=
  pg ← page x;
  if pg_ring_present pg then mret false
  else
    set_page x (λ pg, pg <| pg_ring_present := true |>);;
    set_mm process (λ mm, mm <| mm_cold_ring ::= ring_buf_put x |>);;
    modify (λ s, s <| u_rings ::= λ c, c <| cold_ring_requests ::= λ n, u64 (n + 1) |> |>);;
    mret true.

(** ** Moving a page between hotness lists *)
Definition make_hot (process x : ptr) (new_hot : Z) : M ucm unit :=
  pg ← page x;
  assert_ "mm-async.c:86" (negb (pg_va pg =? 0));;
  r ← proc process;
  assert_ "mm-async.c:88" (pg_pid pg =? pr_pid r);;
  l ← list_of_page x;
  if pg_hot pg =? new_hot then
    assert_ (if pg_in_dram pg then "mm-async.c:92" else "mm-async.c:94")
      (bool_decide (l = Some (bin (pg_in_dram pg) process new_hot)))
  else
    assert_ (if pg_in_dram pg then "mm-async.c:101" else "mm-async.c:106")
      (bool_decide (l = Some (bin (pg_in_dram pg) process (pg_hot pg))));;
    zoom u_plist (page_list_remove (bin (pg_in_dram pg) process (pg_hot pg)) x);;
    set_page x (λ pg, pg <| pg_hot := new_hot |>);;
    zoom u_plist (enqueue_page (bin (pg_in_dram pg) process new_hot) x).

Definition make_cold (process x : ptr) (new_hot : Z) : M ucm unit :=
  pg ← page x;
  assert_ "mm-async.c:117" (negb (pg_va pg =? 0));;
  r ← proc process;
  assert_ "mm-async.c:119" (pg_pid pg =? pr_pid r);;
  l ← list_of_page x;
  if pg_hot pg =? new_hot then
    assert_ (if pg_in_dram pg then "mm-async.c:123" else "mm-async.c:125")
      (bool_decide (l = Some (bin (pg_in_dram pg) process new_hot)))
  else
    assert_ (if pg_in_dram pg then "mm-async.c:132" else "mm-async.c:137")
      (bool_decide (l = Some (bin (pg_in_dram pg) process (pg_hot pg))));;
    zoom u_plist (page_list_remove (bin (pg_in_dram pg) process (pg_hot pg)) x);;
    set_page x (λ pg, pg <| pg_hot := new_hot |>);;
    zoom u_plist (enqueue_page (bin (pg_in_dram pg) process new_hot) x).

(** ** Cooling *)

(** [for (i = n; i > 0 && p == NULL; i--) { p = lists[i].last; index = i; }] *)
Fixpoint scan_down (fastmem : bool) (process : ptr) (n : nat) (index : Z) :
    M ucm (option ptr * Z) :=
  match n with
  | O => mret (None, index)
  | S n' =>
      q ← list_header (bin fastmem process (Z.of_nat n));
      match last_ q with
      | Some p => mret (Some p, Z.of_nat n)
      | None => scan_down fastmem process n' (Z.of_nat n)
      end
  end.

Definition cool_completed (fastmem : bool) (process : ptr) : M ucm unit :=
  set_mm process (set_need_cool fastmem false);;
  modify (λ s, s <| u_cool_stats ::= λ c, c <| cools_completed ::=
    tier_upd (tier_of fastmem) (λ n, u64 (n + 1)) |> |>).

(** The body of the cooling loop for the page [x] of list [index]; returns the
    page to go on with. *)
Definition cool_one (fastmem : bool) (process x : ptr) (index : Z) : M ucm (option ptr) :=
  pg ← page x;
  r ← proc process;
  assert_ (if fastmem then "mm-async.c:249" else "mm-async.c:253") (pg_pid pg =? pr_pid r);;
  assert_ (if fastmem then "mm-async.c:250" else "mm-async.c:254")
    (Bool.eqb (pg_in_dram pg) fastmem);;
  l ← list_of_page x;
  assert_ (if fastmem then "mm-async.c:251" else "mm-async.c:255")
    (bool_decide (l = Some (bin fastmem process (pg_hot pg))));;
  p ← zoom u_plist (prev_page (bin fastmem process index) (Some x));
  let new_hotness := decayed_index (pr_process_clock r) pg in
  when (negb (new_hotness =? pg_hot pg)) (
    set_page x (λ pg, pg <| pg_hot := new_hotness |>);;
    l ← list_of_page x;
    l ← nonnull l;
    zoom u_plist (page_list_remove l x);;
    zoom u_plist (enqueue_page (bin fastmem process new_hotness) x));;
  mret p.

(** [n] rounds of the cooling loop; returns [current] and [cool_list_index]. *)
Fixpoint cool_loop (fastmem : bool) (process : ptr) (n : nat)
    (current p : option ptr) (index : Z) : M ucm (option ptr * Z) :=
  match n with
  | O => mret (current, index)
  | S n' =>
      pi ← (match p with
            | Some _ => mret (p, index)
            | None => scan_down fastmem process (Z.to_nat (index - 1)) index
            end);
      match pi.1 with
      | None => cool_completed fastmem process;; mret (None, 0)
      | Some x =>
          p' ← cool_one fastmem process x pi.2;
          cool_loop fastmem process n' current p' pi.2
      end
  end.

Definition partial_cool_impl (fastmem : bool) (process : ptr) : M ucm (option ptr) :=
  r ← proc process;
  if negb (need_cool fastmem (pr_mm r)) then mret (cur_cool fastmem (pr_mm r))
  else
    started ← (
      if is_null (cur_cool fastmem (pr_mm r)) && (cur_cool_list fastmem (pr_mm r) =? 0) then
        pi ← scan_down fastmem process (Z.to_nat (NUM_HOTNESS_LEVELS - 1)) 0;
        set_mm process (set_cur_cool fastmem pi.1);;
        set_mm process (set_cur_cool_list fastmem pi.2);;
        match pi.1 with
        | None =>
            set_mm process (set_cur_cool_list fastmem 0);;
            cool_completed fastmem process;;
            mret false
        | Some _ => mret true
        end
      else mret true);
    if negb started then mret None
    else
      r ← proc process;
      let current := cur_cool fastmem (pr_mm r) in
      match current with
      | None => mret tt
      | Some x =>
          pg ← page x;
          assert_ (if fastmem then "mm-async.c:207" else "mm-async.c:215")
            (pg_pid pg =? pr_pid r);;
          l ← list_of_page x;
          assert_ (if fastmem then "mm-async.c:208" else "mm-async.c:216")
            (bool_decide (l = Some (bin fastmem process (pg_hot pg))))
      end;;
      ci ← cool_loop fastmem process COOLING_PAGES current current
             (cur_cool_list fastmem (pr_mm r));
      set_mm process (set_cur_cool_list fastmem ci.2);;
      mret ci.1.

Definition incremental_fastmem_cooling : ptr → M ucm (option ptr) := partial_cool_impl true.
Definition incremental_slowmem_cooling : ptr → M ucm (option ptr) := partial_cool_impl false.

Definition update_current_cool_page (process x : ptr) : M ucm unit :=
  r ← proc process;
  pg ← page x;
  l ← list_of_page x;
  if decide (cur_cool true (pr_mm r) = Some x) then
    assert_ "mm-async.c:307" (pg_pid pg =? pr_pid r);;
    assert_ "mm-async.c:308" (pg_in_dram pg);;
    assert_ "mm-async.c:309" (bool_decide (l = Some (FastBin process (pg_hot pg))));;
    set_mm process (set_cur_cool true None);;
    set_mm process (set_cur_cool_list true 0)
  else if decide (cur_cool false (pr_mm r) = Some x) then
    assert_ "mm-async.c:316" (pg_pid pg =? pr_pid r);;
    assert_ "mm-async.c:317" (negb (pg_in_dram pg));;
    assert_ "mm-async.c:318" (bool_decide (l = Some (SlowBin process (pg_hot pg))));;
    set_mm process (set_cur_cool false None);;
    set_mm process (set_cur_cool_list false 0)
  else mret tt.

(** ** Draining the rings *)
Inductive ring_sel := HotRing | ColdRing | FreeRing.

#[global] Instance ring_sel_eq_dec : EqDecision ring_sel.
Proof. solve_decision. Defined.

Definition ring_of (sel : ring_sel) (mm : process_mem) : ring_buf_t :=
  match sel with
  | HotRing => mm_hot_ring mm | ColdRing => mm_cold_ring mm | FreeRing => mm_free_page_ring mm
  end.
Definition set_ring (sel : ring_sel) (q : ring_buf_t) (mm : process_mem) : process_mem :=
  match sel with
  | HotRing => mm <| mm_hot_ring := q |>
  | ColdRing => mm <| mm_cold_ring := q |>
  | FreeRing => mm <| mm_free_page_ring := q |>
  end.
Definition count_handled (sel : ring_sel) : M ucm unit :=
  modify (λ s, s <| u_rings ::= λ c,
    match sel with
    | HotRing => c <| hot_ring_requests_handled ::= λ n, u64 (n + 1) |>
    | ColdRing => c <| cold_ring_requests_handled ::= λ n, u64 (n + 1) |>
    | FreeRing => c <| free_ring_requests_handled ::= λ n, u64 (n + 1) |>
    end |>).

Definition ring_get (sel : ring_sel) (process : ptr) : M ucm (option ptr) :=
  r ← proc process;
  match ring_buf_get (ring_of sel (pr_mm r)) with
  | Some (o, q) => set_mm process (set_ring sel q);; mret o
  | None => fail (Undefined "read of a ring cell that was never written")
  end.

(** The body of [handle_free_page_ring]'s loop for the page [x]. *)
Definition free_one (process x : ptr) : M ucm unit :=
  l ← list_of_page x;
  assert_ "mm-async.c:343" (negb (is_null l));;
  pg ← page x;
  r ← proc process;
  assert_ "mm-async.c:345" (pg_pid pg =? pr_pid r);;
  assert_ (if pg_in_dram pg then "mm-async.c:349" else "mm-async.c:352")
    (bool_decide (l = Some (bin (pg_in_dram pg) process (pg_hot pg))) || pg_ring_present pg);;
  update_current_cool_page process x;;
  l' ← nonnull l;
  zoom u_plist (page_list_remove l' x);;
  set_page x (λ pg, pg <| pg_present := false |> <| pg_pid := -1 |> <| pg_hot := COLD |>);;
  set_page x (λ pg, pg <| pg_accesses := Tiered 0 0 |> <| pg_tot_accesses := Tiered 0 0 |>);;
  (if pg_in_dram pg then
     return_free_fastmem_page x;;
     set_mm process (λ mm, mm <| mm_current_fastmem ::=
       λ n, u64 (n - pt_to_pagesize (pg_pt pg)) |>)
   else
     return_free_slowmem_page x;;
     set_mm process (λ mm, mm <| mm_current_slowmem ::=
       λ n, u64 (n - pt_to_pagesize (pg_pt pg)) |>));;
  set_page x (λ pg, pg <| pg_in_free_ring := false |>);;
  count_handled FreeRing.

Definition ring_fuel (sel : ring_sel) (process : ptr) : M ucm nat :=
  r ← proc process; mret (S (Z.to_nat (ring_buf_size (ring_of sel (pr_mm r))))).

Definition handle_free_page_ring (process : ptr) : M ucm unit :=
  fuel ← ring_fuel FreeRing process;
  loop fuel (λ _ : unit,
    r ← proc process;
    if ring_buf_empty (ring_of FreeRing (pr_mm r)) then mret (inr tt)
    else
      o ← ring_get FreeRing process;
      match o with
      | None => mret (inr tt)
      | Some x => free_one process x;; mret (inl tt)
      end) tt.

(** The body of the hot and cold loops for the page [x] of the ring [sel];
    the result says whether the request counts against the threshold.  The
    two loops differ in the branch taken first, not in what they do. *)
Definition hot_one (process x : ptr) : M ucm bool :=
  pg ← page x;
  if negb (pg_present pg) then
    assert_page_freed x;;
    count_handled HotRing;;
    mret false
  else
    r ← proc process;
    assert_ "mm-async.c:409" (pg_pid pg =? pr_pid r);;
    let new_hotness := decayed_index (pr_process_clock r) pg in
    if new_hotness <? pg_hot pg then
      update_current_cool_page process x;;
      set_page x (λ pg, pg <| pg_ring_present := false |>);;
      make_cold process x new_hotness;;
      count_handled HotRing;;
      mret true
    else
      update_current_cool_page process x;;
      set_page x (λ pg, pg <| pg_ring_present := false |>);;
      make_hot process x new_hotness;;
      count_handled HotRing;;
      mret true.

Definition cold_one (process x : ptr) : M ucm bool :=
  pg ← page x;
  if negb (pg_present pg) then
    assert_page_freed x;;
    count_handled ColdRing;;
    mret false
  else
    r ← proc process;
    assert_ "mm-async.c:476" (pg_pid pg =? pr_pid r);;
    let new_hotness := decayed_index (pr_process_clock r) pg in
    if pg_hot pg <=? new_hotness then
      update_current_cool_page process x;;
      set_page x (λ pg, pg <| pg_ring_present := false |>);;
      make_hot process x new_hotness;;
      count_handled ColdRing;;
      mret true
    else
      update_current_cool_page process x;;
      set_page x (λ pg, pg <| pg_ring_present := false |>);;
      make_cold process x new_hotness;;
      count_handled ColdRing;;
      mret true.

Definition drain_ring (sel : ring_sel) (threshold : Z) (one : ptr → ptr → M ucm bool)
    (process : ptr) : M ucm unit :=
  fuel ← ring_fuel sel process;
  loop fuel (λ num_ring_reqs : Z,
    r ← proc process;
    if ring_buf_empty (ring_of sel (pr_mm r)) || (threshold <=? num_ring_reqs)
    then mret (inr tt)
    else
      o ← ring_get sel process;
      match o with
      | None => mret (inr tt)
      | Some x =>
          b ← one process x;
          mret (inl (if b : bool then num_ring_reqs + 1 else num_ring_reqs))
      end) 0.

Definition handle_hot_requests : ptr → M ucm unit :=
  drain_ring HotRing HOT_RING_REQS_THRESHOLD hot_one.
Definition handle_cold_requests : ptr → M ucm unit :=
  drain_ring ColdRing COLD_RING_REQS_THRESHOLD cold_one.

Definition mm_drain_async_requests (process : ptr) : M ucm unit :=
  handle_free_page_ring process;;
  handle_hot_requests process;;
  handle_cold_requests process.
