(* ===== verification/Ucm.v ===== *)
(** * Allocation, deallocation and statistics
    (src/src/ucm/policy/alloc.c, ucm.c, stats/stats.c)

    [alloc_mode] is the allocation mode the policy was initialised with; the
    page allocator of the quality-of-service policy is the function of that
    mode.  The bytes of the two tiers are part of the state: allocation clears
    the frame it hands out. *)

From S2P Require Import Prelude Fifo Ring F64 ProcList Types Hotness Mm MmAsync.

(** ** stats/stats.c *)
Definition ucm_stats_record_page_freed (process : ptr) (pagesize : Z) : M ucm unit :=
  modify (λ s, s <| u_stats ::= λ t, t <| st_pages_freed ::= λ n, u64 (n + 1) |>
                                       <| st_mem_allocated ::= λ n, u64 (n - pagesize) |> |>);;
  set_mm process (λ mm, mm <| mm_mem_allocated ::= λ n, u64 (n - pagesize) |>).

Definition ucm_stats_record_page_allocated (process : ptr) (pagesize : Z) : M ucm unit :=
  modify (λ s, s <| u_stats ::= λ t, t <| st_mem_allocated ::= λ n, u64 (n + pagesize) |>
                                       <| st_pages_allocated ::= λ n, u64 (n + 1) |> |>);;
  set_mm process (λ mm, mm <| mm_mem_allocated ::= λ n, u64 (n + pagesize) |>).

Definition ucm_stats_record_migration_down (process x : ptr) (pagesize : Z) : M ucm unit :=
  set_proc process (λ r, r <| pr_stats ::= λ t, t <| ps_down_count ::= λ n, u64 (n + 1) |> |>);;
  set_page x (λ pg, pg <| pg_migrations_down ::= λ n, u64 (n + 1) |>);;
  modify (λ s, s <| u_stats ::= λ t, t <| st_migrations_down ::= λ n, u64 (n + 1) |>
                                       <| st_bytes_migrated ::= λ n, u64 (n + pagesize) |> |>).

Definition ucm_stats_record_migration_up (process x : ptr) (pagesize : Z) : M ucm unit :=
  set_proc process (λ r, r <| pr_stats ::= λ t, t <| ps_up_count ::= λ n, u64 (n + 1) |> |>);;
  set_page x (λ pg, pg <| pg_migrations_up ::= λ n, u64 (n + 1) |>);;
  modify (λ s, s <| u_stats ::= λ t, t <| st_migrations_up ::= λ n, u64 (n + 1) |>
                                       <| st_bytes_migrated ::= λ n, u64 (n + pagesize) |> |>).

Definition ucm_stats_record_migration_wait (process : ptr) (migration_wait_time_us : Z) :
    M ucm unit :=
  modify (λ s, s <| u_stats ::= λ t, t <| st_migration_waits ::= λ n, u64 (n + 1) |> |>);;
  set_proc process (λ r, r <| pr_stats ::= λ t,
    t <| ps_wp_wait_count ::= λ n, u64 (n + 1) |>
      <| ps_wp_wait_us ::= λ n, u64 (n + migration_wait_time_us) |> |>).

Definition ucm_stats_epoch_clear : M ucm unit :=
  modify (λ s, s <| u_stats ::= λ t, t <| st_pages_allocated := 0 |> <| st_pages_freed := 0 |>
    <| st_missing_faults_handled := 0 |> <| st_migrations_up := 0 |>
    <| st_migrations_down := 0 |> |>).

(** ** Memory contents *)
Definition mem_set (t : pbuftype) (off len v : Z) (m : pbuftype → Z → Z) : pbuftype → Z → Z :=
  λ t' o, if decide (t' = t ∧ off ≤ o < off + len) then v else m t' o.
Definition mem_copy (dt : pbuftype) (dst : Z) (st : pbuftype) (src len : Z)
    (m : pbuftype → Z → Z) : pbuftype → Z → Z :=
  λ t o, if decide (t = dt ∧ dst ≤ o < dst + len) then m st (src + (o - dst)) else m t o.

(** [hemem_memset] and [hemem_memcpy] on the address of an offset of a tier. *)
Definition hemem_memset (t : pbuftype) (off v len : Z) : M ucm unit :=
  modify (λ s, s <| u_mem ::= mem_set t off len v |>).
Definition hemem_memcpy (dt : pbuftype) (dst : Z) (st : pbuftype) (src len : Z) : M ucm unit :=
  modify (λ s, s <| u_mem ::= mem_copy dt dst st src len |>).

(** ** policy/alloc.c *)
Inductive ALLOC_MODE := FASTMEM_PREFERRED | SLOWMEM_PREFERRED.

Definition lock_process (p : ptr) : M ucm unit := zoom u_pq (lock (inr p)).
Definition unlock_process (p : ptr) : M ucm unit := zoom u_pq (unlock (inr p)).

(** What the four branches do with the page they found. *)
Definition take_page (loc loc' : string) (in_dram : bool) (process x : ptr) : M ucm unit :=
  pg ← page x;
  assert_ loc (Bool.eqb (pg_in_dram pg) in_dram);;
  assert_ loc' (negb (pg_present pg));;
  set_page x (λ pg, pg <| pg_present := true |>);;
  r ← proc process;
  set_page x (λ pg, pg <| pg_pid := pr_pid r |>);;
  set_mm process (λ mm,
    if in_dram then mm <| mm_current_fastmem ::= λ n, u64 (n + pt_to_pagesize (pg_pt pg)) |>
    else mm <| mm_current_slowmem ::= λ n, u64 (n + pt_to_pagesize (pg_pt pg)) |>);;
  unlock_process process.

Definition allocate_fastmem_preferred (process : ptr) : M ucm (option ptr) :=
  lock_process process;;
  r ← proc process;
  o ← (if mm_current_fastmem (pr_mm r) <? mm_max_fastmem (pr_mm r)
       then get_free_fastmem_page else mret None);
  match o with
  | Some x => take_page "alloc.c:20" "alloc.c:21" true process x;; mret (Some x)
  | None =>
      o ← get_free_slowmem_page;
      match o with
      | Some x => take_page "alloc.c:41" "alloc.c:42" false process x;; mret (Some x)
      | None => mret None
      end
  end.

Definition allocate_slowmem_preferred (process : ptr) : M ucm (option ptr) :=
  lock_process process;;
  o ← get_free_slowmem_page;
  match o with
  | Some x => take_page "alloc.c:74" "alloc.c:75" false process x;; mret (Some x)
  | None =>
      o ← get_free_fastmem_page;
      match o with
      | Some x => take_page "alloc.c:92" "alloc.c:93" true process x;; mret (Some x)
      | None => mret None
      end
  end.

Definition get_alloc_fn_by_mode (mode : ALLOC_MODE) : ptr → M ucm (option ptr) :=
  match mode with
  | FASTMEM_PREFERRED => allocate_fastmem_preferred
  | SLOWMEM_PREFERRED => allocate_slowmem_preferred
  end.

(** ** ucm.c *)
Section ucm.
Context (alloc_mode : ALLOC_MODE).

(** [ucm_allocate_page] of policy.c through [qos_allocate_page]. *)
Definition ucm_allocate_page : ptr → M ucm (option ptr) := get_alloc_fn_by_mode alloc_mode.

(** The rest of an iteration of [ucm_allocate_memory], with the page found. *)
Definition install_page (process x : ptr) (page_boundary : Z) : M ucm hemem_page_app :=
  pg ← page x;
  let offset := pg_devdax_offset pg in
  let in_dram := pg_in_dram pg in
  let pagesize := pt_to_pagesize (pg_pt pg) in
  hemem_memset (tier_of in_dram) offset 0 pagesize;;
  modify (λ s, s <| u_stats ::= λ t, t <| st_memsets ::= λ n, u64 (n + 1) |> |>);;
  r ← proc process;
  set_page x (λ pg, pg <| pg_va := page_boundary |> <| pg_pid := pr_pid r |>
                       <| pg_uffd := pr_uffd r |>);;
  assert_ "ucm.c:74" (negb (page_boundary =? 0));;
  assert_ "ucm.c:75" (page_boundary mod HUGEPAGE_SIZE =? 0);;
  set_page x (λ pg, pg <| pg_migrating := false |> <| pg_migrations_up := 0 |>
                       <| pg_migrations_down := 0 |>);;
  mm_add_page process x;;
  zoom u_plist (enqueue_page (bin in_dram process COLD) x);;
  ucm_stats_record_page_allocated process pagesize;;
  mret (PageApp page_boundary offset in_dram (pg_pt pg)).

Definition roll_back (process : ptr) (pages : list hemem_page_app) : M ucm unit :=
  for_list pages (λ a,
    o ← mm_find_page process (pa_va a);
    assert_ "ucm.c:104" (negb (is_null o));;
    x ← nonnull o;
    mm_remove_page process x).

(** The loop, with [pages] the responses so far; [inr] ends it. *)
Definition alloc_body (process : ptr) (end_ : Z) (st : Z * list hemem_page_app) :
    M ucm ((Z * list hemem_page_app) + (Z * list hemem_page_app)) :=
  let '(page_boundary, pages) := st in
  if page_boundary <? end_ then
    o ← mm_find_page process page_boundary;
    assert_ "ucm.c:47" (is_null o);;
    o ← ucm_allocate_page process;
    match o with
    | None => roll_back process pages;; mret (inr (-1, pages))
    | Some x =>
        a ← install_page process x page_boundary;
        mret (inl (u64 (page_boundary + pt_to_pagesize (pa_pt a)), pages ++ [a]))
    end
  else mret (inr (Z.of_nat (length pages), pages)).

(** The result and the array [pages] of responses. *)
Definition ucm_allocate_memory (process : ptr) (start_addr length : Z) :
    M ucm (Z * list hemem_page_app) :=
  loop (S (Z.to_nat (length / BASEPAGE_SIZE + 1)))
    (alloc_body process (u64 (start_addr + length))) (start_addr, []).

Definition map_fixed_body (process : ptr) (end_ : Z) (st : Z * list hemem_page_app) :
    M ucm ((Z * list hemem_page_app) + (Z * list hemem_page_app)) :=
  let '(page_boundary, pages) := st in
  if page_boundary <? end_ then
    o ← mm_find_page process page_boundary;
    assert_ "ucm.c:123" (negb (is_null o));;
    x ← nonnull o;
    pg ← page x;
    set_page x (λ pg, pg <| pg_map_fixed_uffd_unmap_pending := true |>);;
    ucm_stats_record_page_allocated process (pt_to_pagesize (pg_pt pg));;
    mret (inl (u64 (page_boundary + pt_to_pagesize (pg_pt pg)),
               pages ++ [PageApp page_boundary (pg_devdax_offset pg) (pg_in_dram pg) (pg_pt pg)]))
  else mret (inr (Z.of_nat (length pages), pages)).

Definition ucm_map_fixed (process : ptr) (start_addr length : Z) :
    M ucm (Z * list hemem_page_app) :=
  loop (S (Z.to_nat (length / BASEPAGE_SIZE + 1)))
    (map_fixed_body process (u64 (start_addr + length))) (start_addr, []).
End ucm.

Definition dealloc_body (process : ptr) (end_ : Z) (st : Z * Z) : M ucm ((Z * Z) + Z) :=
  let '(page_boundary, n_freed) := st in
  if page_boundary <? end_ then
    o ← mm_find_page process page_boundary;
    match o with
    | Some x =>
        pg ← page x;
        let pagesize := pt_to_pagesize (pg_pt pg) in
        mm_remove_page process x;;
        ucm_stats_record_page_freed process pagesize;;
        mret (inl (u64 (page_boundary + pagesize), u64 (n_freed + 1)))
    | None => mret (inl (u64 (page_boundary + get_default_page_size), n_freed))
    end
  else mret (inr n_freed).

(** Returns the number of pages freed. *)
Definition ucm_deallocate_memory (process : ptr) (start_addr length : Z) : M ucm Z :=
  loop (S (S (Z.to_nat (length / BASEPAGE_SIZE + 1 + HUGEPAGE_SIZE / BASEPAGE_SIZE))))
    (dealloc_body process (u64 (start_addr + length)))
    (Z.land start_addr (u64 (Z.lnot (HUGEPAGE_SIZE - 1))), 0).
