(* ===== verification/Process.v ===== *)
(** * Processes (src/src/ucm/type/process.c, proc-mgr.c, policy/policy-state.c)

    Creation and destruction of a process, its policy state, and the two
    structures that hold the processes: [proc_map], a uthash table by pid, and
    [processes_list], the list [tt] of [u_pq] sorted by target miss ratio.

    Whether a pid is alive is asked of the file system: [is_process_alive] is
    a parameter of [proc_mgr_prune]. *)

From S2P Require Import Prelude Fifo Ring F64 ProcList Types Hotness Mm MmAsync Ucm.

(** ** policy/policy-state.c *)
Definition process_policy_init (policy : process_policy) : process_policy :=
  policy <| po_current_miss_ratio := f64_of_Z (-1) |> <| po_fastmem_delta := 0 |>
         <| po_migration_up_bytes := 0 |> <| po_migration_down_bytes := 0 |>.

Definition process_policy_epoch_clear (policy : process_policy) : process_policy :=
  policy <| po_sample_count ::=
    imap (λ i n, if LAST_HEMEM_THREAD + 1 <=? Z.of_nat i then 0 else n) |>.

Definition process_policy_set_miss_ratio (miss_ratio : f64) (policy : process_policy) :
    process_policy :=
  policy <| po_target_miss_ratio := miss_ratio |>.

Definition miss_ratio_of (slow_tier_access fast_tier_access : Z) : f64 :=
  f64_div (f64_mul (f64_of_Z 1) (f64_of_Z slow_tier_access))
    (f64_mul (f64_of_Z 1)
       (f64_of_Z (u64 (slow_tier_access + fast_tier_access * PEBS_SAMPLE_PERIOD)))).

Definition process_policy_calc_miss_ratio (policy : process_policy) : M ucm f64 :=
  let miss_ratio := miss_ratio_of (slow (po_access_count policy)) (fast (po_access_count policy)) in
  if f64_le (f64_of_Z 0) miss_ratio && f64_le miss_ratio (f64_of_Z 1) then mret miss_ratio
  else fail (AssertFail "policy-state.c:56").

(** ** type/process.c *)
Definition process_mem_zero : process_mem :=
  ProcessMem 0 0 0 0 0 0 None None false false false 0
    (RingBuf ∅ 0 0 0) (RingBuf ∅ 0 0 0) (RingBuf ∅ 0 0 0) ∅ ∅.

(** What [calloc] returns. *)
Definition hemem_process_zero : hemem_process :=
  HememProcess 0 0 false false 0 false false (Tiered 0 0) None process_mem_zero
    (ProcessPolicy (Tiered 0 0) (replicate (Z.to_nat HEMEM_NCORES) 0) (f64_of_Z 0) (f64_of_Z 0)
       0 (f64_of_Z 0) 0 0)
    (ProcessStats 0 0 0 0 0 0 0).

Definition new_ring : M ucm ring_buf_t :=
  match ring_buf_init CAPACITY with
  | Some q => mret q
  | None => fail (AssertFail "spsc-ring.c:37")
  end.

Definition process_mem_init (mm : process_mem) : M ucm process_mem :=
  hot ← new_ring;
  cold ← new_ring;
  free ← new_ring;
  mret (mm <| mm_hot_ring := hot |> <| mm_cold_ring := cold |> <| mm_free_page_ring := free |>
    <| mm_pages := ∅ |> <| mm_cur_cool_in_fastmem := None |> <| mm_cur_cool_in_slowmem := None |>
    <| mm_cur_cool_in_fastmem_list := 0 |> <| mm_cur_cool_in_slowmem_list := 0 |>
    <| mm_need_cool_fastmem := false |> <| mm_need_cool_slowmem := false |>
    <| mm_current_slowmem := 0 |> <| mm_current_fastmem := 0 |>).

(** The lists of a process: [fastmem_lists] and [slowmem_lists]. *)
Definition process_lists (p : ptr) : list list_id :=
  flat_map (λ i, [FastBin p i; SlowBin p i]) (seqZ 0 (NUM_HOTNESS_LEVELS + 1)).

Definition empty_list : page_list := PageList None None 0.

(** The storage of a process: its struct, with its lists and its own links. *)
Definition alloc_process (p : ptr) (r : hemem_process) (s : ucm) : ucm :=
  s <| u_procs ::= insert p r |>
    <| u_plist ::= λ h, h <| headers ::=
         λ m, foldr (λ l, insert l empty_list) m (process_lists p) |> |>
    <| u_pq ::= λ q, q <| plists ::= λ h, h <| links ::= insert p detached |> |> |>.
Definition dealloc_process (p : ptr) (s : ucm) : ucm :=
  s <| u_procs ::= delete p |>
    <| u_plist ::= λ h, h <| headers ::= λ m, foldr delete m (process_lists p) |> |>
    <| u_pq ::= λ q, q <| plists ::= λ h, h <| links ::= delete p |> |> |>.

(** [calloc] finds memory: the new process is at an address not in use. *)
Definition hemem_process_init (pid : Z) : M ucm ptr :=
  mm ← process_mem_init process_mem_zero;
  p ← gets (λ s, fresh (dom (u_procs s)));
  modify (alloc_process p (hemem_process_zero <| pr_pid := pid |> <| pr_exited := false |>
    <| pr_valid_uffd := false |> <| pr_still_migrating := false |> <| pr_mm := mm |>
    <| pr_policy ::= process_policy_init |> <| pr_stats := ProcessStats 0 0 0 0 0 0 0 |>));;
  mret p.

(** One round of the loop: [page] is the page of the round before. *)
Definition free_mem_body (process : ptr) (list : list_id) (st : option ptr * Z) :
    M ucm ((option ptr * Z) + Z) :=
  page ← zoom u_plist (next_page list st.1);
  match page with
  | None => mret (inr st.2)
  | Some x => mm_remove_page process x;; mret (inl (page, u64 (st.2 + 1)))
  end.

Definition free_mem_list (process : ptr) (list : list_id) : M ucm Z :=
  n ← gets (λ s, size (u_pages s));
  loop (S n) (free_mem_body process list) (None, 0).

Definition process_mem_destroy (process : ptr) : M ucm unit :=
  for_list (seqZ 0 NUM_HOTNESS_LEVELS) (λ i, _ ← free_mem_list process (FastBin process i); mret tt);;
  for_list (seqZ 0 NUM_HOTNESS_LEVELS) (λ i, _ ← free_mem_list process (SlowBin process i); mret tt);;
  mm_drain_async_requests process.

Definition hemem_process_destroy (process : ptr) : M ucm unit :=
  process_mem_destroy process;;
  modify (dealloc_process process).

(** ** proc-mgr.c *)

(** The order of [processes_list]: [process->policy.target_miss_ratio]. *)
Definition target_miss_ratio (s : ucm) (p : ptr) : f64 :=
  match u_procs s !! p with
  | Some r => po_target_miss_ratio (pr_policy r)
  | None => f64_of_Z 0
  end.

Definition find_process (pid : Z) : M ucm (option ptr) :=
  m ← gets u_proc_map;
  match m !! pid with
  | None => mret None
  | Some p => r ← proc p; mret (if pr_pid r =? pid then Some p else None)
  end.

Definition add_process (process : ptr) : M ucm unit :=
  r ← proc process;
  p ← find_process (pr_pid r);
  assert_ "proc-mgr.c:25" (is_null p);;
  m ← gets u_proc_map;
  m' ← HASH_ADD m (pr_phh r) (pr_pid r) process;
  modify (λ s, s <| u_proc_map := m' |>);;
  set_proc process (λ r, r <| pr_phh := Some (pr_pid r) |>);;
  tmr ← gets target_miss_ratio;
  zoom u_pq (enqueue_process tmr tt process).

Definition remove_process (process : ptr) : M ucm unit :=
  r ← proc process;
  m ← gets u_proc_map;
  m' ← HASH_DELETE m (pr_phh r) process;
  modify (λ s, s <| u_proc_map := m' |>);;
  set_proc process (λ r, r <| pr_phh := None |>);;
  zoom u_pq (process_list_remove tt process);;
  lock_process process;;
  set_mm process (λ mm, mm <| mm_current_fastmem := 0 |>);;
  set_mm process (λ mm, mm <| mm_current_slowmem := 0 |>);;
  unlock_process process.

(** ucm.c *)
Definition ucm_remove_process (process : ptr) : M ucm unit :=
  remove_process process;;
  hemem_process_destroy process.

(** [PROCESS_FOR_EACH], with a body that carries a value along: the successor
    is read before the body runs. *)
Definition fold_processes_body {X} (body : X → ptr → M ucm X) (st : option ptr * X) :
    M ucm ((option ptr * X) + X) :=
  match st.1 with
  | None => mret (inr st.2)
  | Some p =>
      n ← zoom u_pq (node p);
      x ← body st.2 p;
      mret (inl (next n, x))
  end.
Definition fold_processes {X} (body : X → ptr → M ucm X) (x : X) : M ucm X :=
  n ← gets (λ s, size (links (plists (u_pq s))));
  q ← zoom u_pq (header tt);
  loop (S n) (fold_processes_body body) (first q, x).
Definition PROCESS_FOR_EACH (body : ptr → M ucm unit) : M ucm unit :=
  fold_processes (λ _ p, body p) tt.

Section prune.
Context (is_process_alive : Z → bool).

(** The loop of [proc_mgr_prune], with the number of processes removed. *)
Definition prune_body (st : option ptr * Z) : M ucm ((option ptr * Z) + Z) :=
  match st.1 with
  | None => mret (inr st.2)
  | Some p =>
      n ← zoom u_pq (node p);
      r ← proc p;
      if is_process_alive (pr_pid r) then mret (inl (next n, st.2))
      else ucm_remove_process p;; mret (inl (next n, u64 (st.2 + 1)))
  end.
Definition proc_mgr_prune : M ucm Z :=
  n ← gets (λ s, size (links (plists (u_pq s))));
  q ← zoom u_pq (header tt);
  loop (S n) prune_body (first q, 0).
End prune.

Definition proc_mgr_init : M ucm unit :=
  zoom u_pq (set_header tt (λ _, empty_list)).
