(* ===== verification/Telem.v ===== *)
(** * Telemetry (src/src/ucm/telem/handler, telem/source, telem/engine.c,
    stats/pebs-stats.c)

    The two sources of access information and what the manager does with it:
    PEBS samples, read from a perf ring buffer per core, count accesses to the
    fast tier; the counters of the CXL device, one per huge page of the slow
    tier, count accesses to the slow tier.

    The contents of a perf buffer ([record_at]) and the counter differences
    read from the device ([diffs]) are inputs. *)

From S2P Require Import Prelude Fifo Ring F64 ProcList Types Hotness Mm MmAsync Ucm Process.

(** ** PEBS samples (telem/handler/pebs.c) *)

(** [struct perf_sample], with the fields the code reads. *)
Inductive perf_event_type :=
  | PERF_RECORD_SAMPLE | PERF_RECORD_THROTTLE | PERF_RECORD_UNTHROTTLE
  | PERF_RECORD_LOST | PERF_RECORD_LOST_SAMPLES | PERF_RECORD_OTHER.

Record perf_sample := PerfSample {
  ps_type : perf_event_type;
  ps_size : Z;
  ps_pid : Z;
  ps_addr : Z;
}.

Definition count_pebs (f : pebs_stats_t → pebs_stats_t) : M ucm unit :=
  modify (λ s, s <| u_pebs_stats ::= f |>).

Definition PAGE_4KB_MASK : Z := 0x1FF000.

Definition get_basepage_index_in_hugepage (addr : Z) : M ucm nat :=
  let base_page_num := Z.shiftr (Z.land addr PAGE_4KB_MASK) 12 in
  assert_ "pebs.c:24" (base_page_num <? N_BASEPAGES_IN_HUGEPAGE);;
  mret (Z.to_nat base_page_num).

Definition UINT32_MAX : Z := 2 ^ 32 - 1.

(** The sum, if it fits. *)
Definition safe_add_uint32 (a b : Z) : option Z :=
  if UINT32_MAX - b <? a then None else Some (u32 (a + b)).

Definition halve_skewness_counters (pg : hemem_page) : hemem_page :=
  pg <| pg_subpage_skewness ::= fmap (λ n, Z.shiftr n 1) |>.

Definition update_skewness_counter (x : ptr) (pebs_sample_va : Z) : M ucm unit :=
  basepage ← get_basepage_index_in_hugepage pebs_sample_va;
  pg ← page x;
  match safe_add_uint32 (nth basepage (pg_subpage_skewness pg) 0) 1 with
  | Some n' => set_page x (λ pg, pg <| pg_subpage_skewness ::= <[basepage := n']> |>)
  | None =>
      set_page x halve_skewness_counters;;
      set_page x (λ pg, pg <| pg_subpage_skewness ::= alter (λ n, u32 (n + 1)) basepage |>)
  end.

(** Bring the decay of a page up to the clocks of its process. *)
Definition catch_up (clock : tiered) (pg : hemem_page) : hemem_page :=
  pg <| pg_accesses := Tiered (decayed clock pg FASTMEM) (decayed clock pg SLOWMEM) |>
     <| pg_local_clock := clock |>.

(** [new_hotness] against [page->hot]: a request for the policy thread. *)
Definition request_move (process x : ptr) (new_hotness : Z) : M ucm unit :=
  pg ← page x;
  if pg_hot pg <? new_hotness then _ ← mm_mark_page_hot_async process x; mret tt
  else if new_hotness <? pg_hot pg then _ ← mm_mark_page_cold_async process x; mret tt
  else mret tt.

Definition process_valid_pebs_sample (process x : ptr) (pebs_sample_va : Z) : M ucm unit :=
  pg ← page x;
  request_move process x (access_to_index (fast (pg_accesses pg)) (slow (pg_accesses pg)));;
  r ← proc process;
  set_page x (catch_up (pr_process_clock r));;
  update_skewness_counter x pebs_sample_va;;
  pg ← page x;
  when (PEBS_COOLING_THRESHOLD <? fast (pg_accesses pg)) (
    set_mm process (λ mm, mm <| mm_epoch_did_cool := true |>);;
    mm_request_cool_fastmem process;;
    mm_request_cool_slowmem process).

Definition process_perf_sample (ps : perf_sample) (core_idx : nat) : M ucm unit :=
  count_pebs (λ t, t <| total_samples_cnt ::= λ n, u64 (n + 1) |>);;
  if ps_addr ps =? 0 then
    count_pebs (λ t, t <| zero_pages_cnt ::= λ n, u64 (n + 1) |>)
  else
    o ← find_process (ps_pid ps);
    match o with
    | None => count_pebs (λ t, t <| non_hemem_proc_samples_cnt ::= λ n, u64 (n + 1) |>)
    | Some process =>
        let pfn := Z.land (ps_addr ps) HUGE_PFN_MASK in
        o ← mm_find_page process pfn;
        match o with
        | None => count_pebs (λ t, t <| non_hemem_page_samples_cnt ::= λ n, u64 (n + 1) |>)
        | Some x =>
            count_pebs (λ t, t <| valid_samples_cnt ::= λ n, u64 (n + 1) |>);;
            pg ← page x;
            when (negb (pg_in_dram pg))
              (count_pebs (λ t, t <| cxl_samples_cnt ::= λ n, u64 (n + 1) |>));;
            assert_ "pebs.c:118" (negb (pg_va pg =? 0));;
            when (HEMEM_NCORES <=? Z.of_nat core_idx) (fail (Undefined "index of sample_count"));;
            set_proc process (λ r, r <| pr_policy ::= λ po,
              po <| po_sample_count ::= alter (λ n, u64 (n + 1)) core_idx |> |>);;
            when (pg_in_dram pg) (
              set_proc process (λ r, r <| pr_policy ::= λ po,
                po <| po_access_count ::= tier_upd FASTMEM (λ n, u64 (n + 1)) |> |>);;
              set_page x (λ pg, pg <| pg_accesses ::= tier_upd FASTMEM (λ n, u64 (n + 1)) |>);;
              set_page x (λ pg, pg <| pg_tot_accesses ::= tier_upd FASTMEM (λ n, u64 (n + 1)) |>);;
              process_valid_pebs_sample process x (ps_addr ps))
        end
    end.

Definition on_pebs_sample_received (ph : perf_sample) (core_idx : nat) : M ucm unit :=
  match ps_type ph with
  | PERF_RECORD_SAMPLE => process_perf_sample ph core_idx
  | PERF_RECORD_THROTTLE => count_pebs (λ t, t <| throttle_cnt ::= λ n, u64 (n + 1) |>)
  | PERF_RECORD_UNTHROTTLE => count_pebs (λ t, t <| unthrottle_cnt ::= λ n, u64 (n + 1) |>)
  | PERF_RECORD_LOST | PERF_RECORD_LOST_SAMPLES =>
      count_pebs (λ t, t <| lost_samples ::= λ n, u64 (n + 1) |>)
  | PERF_RECORD_OTHER => mret tt
  end.

(** stats/pebs-stats.c *)
Definition pebs_stats_epoch_reset (t : pebs_stats_t) : pebs_stats_t :=
  t <| total_samples_cnt := 0 |> <| non_hemem_proc_samples_cnt := 0 |>
    <| non_hemem_page_samples_cnt := 0 |> <| valid_samples_cnt := 0 |> <| cxl_samples_cnt := 0 |>.
Definition pebs_stats_other_samples_cnt (t : pebs_stats_t) : Z :=
  u64 (non_hemem_page_samples_cnt t + non_hemem_proc_samples_cnt t).
Definition pebs_stats_init : M ucm unit := count_pebs (λ _, PebsStats 0 0 0 0 0 0 0 0 0).

(** ** The perf ring buffers (telem/source/pebs.c) *)

(** [struct perf_event_mmap_page]; [record_at off] is the record whose header
    is at the offset [off] of the data area. *)
Record perf_event_mmap_page := PerfPage {
  data_head : Z;
  data_tail : Z;
  data_size : Z;
  record_at : Z → perf_sample;
}.
#[global] Instance eta_perf_event_mmap_page : Eta perf_event_mmap_page :=
  λ r, PerfPage (data_head r) (data_tail r) (data_size r) (record_at r).
#[global] Instance set_data_tail : Setter data_tail := ltac:(mk_setter).

Definition pebs_scan_body (p : perf_event_mmap_page) (handler : perf_sample → M ucm unit)
    (tail : Z) : M ucm (Z + Z) :=
  if tail <? data_head p then
    let off := tail mod data_size p in
    let ph := record_at p off in
    when (negb (data_size p <=? off + ps_size ph)) (handler ph);;
    mret (inl (u64 (tail + ps_size ph)))
  else mret (inr tail).

(** The buffer after the scan; a record has at least one byte, so the distance
    from tail to head bounds the rounds. *)
Definition pebs_scan (p : perf_event_mmap_page) (handler : perf_sample → M ucm unit) :
    M ucm perf_event_mmap_page :=
  if data_head p =? data_tail p then mret p
  else
    assert_ "pebs.c:102" (data_tail p <? data_head p);;
    tail ← loop (S (Z.to_nat (data_head p - data_tail p))) (pebs_scan_body p handler) (data_tail p);
    mret (p <| data_tail := tail |>).

(** The buffers of the cores [core_i], [core_i + 1], ... *)
Fixpoint pebs_epoch_scan (core_i : nat) (ps : list perf_event_mmap_page) :
    M ucm (list perf_event_mmap_page) :=
  match ps with
  | [] => mret []
  | p :: ps' =>
      p' ← pebs_scan p (λ ph, on_pebs_sample_received ph core_i);
      ps'' ← pebs_epoch_scan (S core_i) ps';
      mret (p' :: ps'')
  end.

(** ** CXL counters (telem/handler/cxl.c) *)

(** The arguments are [uint]. *)
Definition _detect_hot_cxl_page (prev_cnt new_count : Z) : bool :=
  let prev_cnt := u32 prev_cnt in
  let new_count := u32 new_count in
  (prev_cnt + 0 <? new_count) || (new_count <? prev_cnt).

Definition cxl_find_proc_page (cxl_devdax_offset : Z) : M ucm (option ptr * option ptr) :=
  o ← mm_find_proc_by_cxl_offset cxl_devdax_offset;
  match o with
  | None => mret (None, None)
  | Some p =>
      o ← mm_find_page_by_cxl_offset p cxl_devdax_offset;
      match o with
      | Some x => pg ← page x; assert_ "cxl.c:40" (negb (pg_in_dram pg))
      | None => mret tt
      end;;
      mret (Some p, o)
  end.

Definition counter_safe_add (a b : Z) : Z :=
  if 0 <=? b then u64 (a + b)
  else
    let abs_b := u64 (- b) in
    if a <? abs_b then 0 else a - abs_b.

Definition cxl_page_update_stats (process x : ptr) (delta : Z) : M ucm unit :=
  set_page x (λ pg, pg <| pg_accesses ::= tier_upd SLOWMEM (λ n, counter_safe_add n delta) |>);;
  set_page x (λ pg, pg <| pg_tot_accesses ::= tier_upd SLOWMEM (λ n, counter_safe_add n delta) |>);;
  pg ← page x;
  when (CXL_COOLING_THRESHOLD <? slow (pg_accesses pg)) (mm_request_soft_cool_slowmem process);;
  r ← proc process;
  set_page x (catch_up (pr_process_clock r));;
  pg ← page x;
  request_move process x (access_to_index (fast (pg_accesses pg)) (slow (pg_accesses pg))).

Definition cxl_calc_access_count_delta (prev_cnt curr_cnt : Z) (x : ptr) : M ucm Z :=
  let access_cnt_delta := i64 (if prev_cnt <? curr_cnt then curr_cnt - prev_cnt else curr_cnt) in
  pg ← page x;
  set_page x (λ pg, pg <| pg_migration_access_comp := 0 |>);;
  mret (i64 (access_cnt_delta - pg_migration_access_comp pg)).

Definition cxl_apply_access_count_delta (delta : Z) (process x : ptr) : M ucm unit :=
  let add (f : Z → Z) := set_proc process (λ r, r <| pr_policy ::= λ po,
    po <| po_access_count ::= tier_upd SLOWMEM f |> |>) in
  if 0 <? delta then add (λ n, u64 (n + delta))
  else
    let delta_abs := u64 (- delta) in
    r ← proc process;
    let curr := slow (po_access_count (pr_policy r)) in
    if curr <? delta_abs then
      add (λ n, u64 (n - curr));;
      epoch ← ucm_get_curr_epoch;
      pg ← page x;
      when (epoch <=? u64 (pg_last_migrated_epoch pg + 1)) (
        set_page x (λ pg, pg <| pg_migration_access_comp ::=
          λ n, u64 (n + u64 (Z.abs delta - curr)) |>))
    else add (λ n, u64 (n + delta)).

Definition cxl_update_stats (prev_cnt curr_cnt : Z) (process x : ptr) : M ucm Z :=
  delta ← cxl_calc_access_count_delta prev_cnt curr_cnt x;
  cxl_apply_access_count_delta delta process x;;
  cxl_page_update_stats process x delta;;
  mret (u64 delta).

Definition on_cxl_counter_update (cxl_devdax_offset prev_cnt curr_cnt : Z) : M ucm unit :=
  epoch ← ucm_get_curr_epoch;
  if (curr_cnt =? prev_cnt) || (epoch =? 0) then mret tt
  else if _detect_hot_cxl_page prev_cnt curr_cnt then
    pp ← cxl_find_proc_page cxl_devdax_offset;
    match pp with
    | (None, _) => modify (λ s, s <| u_cxl_unknown_proc_sample_cnt ::= λ n, u64 (n + 1) |>)
    | (Some p, None) =>
        set_proc p (λ r, r <| pr_stats ::= λ t, t <| ps_unknown_page_count ::= λ n, u64 (n + 1) |> |>)
    | (Some p, Some x) => _ ← cxl_update_stats prev_cnt curr_cnt p x; mret tt
    end
  else mret tt.

(** ** The counters of the device (telem/source/cxl.c) *)

(** [page_access_cnts[i]] for [i] from [start]: the previous count is kept in
    an [unsigned int]. *)
Fixpoint scan_counters (i : nat) (cnts diffs : list Z) : M ucm (list Z) :=
  match cnts, diffs with
  | cnt :: cnts', diff :: diffs' =>
      let prev_cnt := u32 cnt in
      let curr_cnt := u64 (cnt + diff) in
      on_cxl_counter_update (u64 (Z.of_nat i * HUGEPAGE_SIZE)) prev_cnt curr_cnt;;
      rest ← scan_counters (S i) cnts' diffs';
      mret (curr_cnt :: rest)
  | _, _ => mret []
  end.

Definition cxl_epoch_scan : list Z → list Z → M ucm (list Z) := scan_counters 0.

(** ** telem/engine.c *)
Definition telem_engine_poll (ps : list perf_event_mmap_page) (cnts diffs : list Z) :
    M ucm (list perf_event_mmap_page * list Z) :=
  ps' ← pebs_epoch_scan (Z.to_nat (LAST_HEMEM_THREAD + 1)) ps;
  cnts' ← cxl_epoch_scan cnts diffs;
  mret (ps', cnts').
