(* ===== verification/Migrate.v ===== *)
(** * Migration (src/src/ucm/policy/migrate.c, migration.c)

    The choice of the page to migrate, and the migration itself: protect the
    page, copy its bytes to a free frame of the other tier, have the
    application map the new frame, and give the old frame to the free list.

    The application is the environment: its replies to remap requests are the
    list [u_ipc] of the state, and the outcome of the [UFFDIO_WRITEPROTECT]
    ioctl is a parameter. *)

From S2P Require Import Prelude Fifo Ring F64 ProcList Types Hotness Mm MmAsync Ucm Process.

Definition PEBS_MIN_PROMOTION_TIER : Z := 0.
Definition PEBS_MAX_DEMOTION_TIER : Z := NUM_HOTNESS_LEVELS - 2.
Definition MIN_MIGRATION_EPOCH_INTERVAL : Z := 5.

(** ** policy/migrate.c *)
Definition min_migration_epoch (pg : hemem_page) : Z :=
  if pg_last_migrated_epoch pg =? 0 then 0
  else u64 (pg_last_migrated_epoch pg + MIN_MIGRATION_EPOCH_INTERVAL).

(** One round of the inner loop on a list; [inr None] leaves the list. *)
Definition scan_body (process : ptr) (l : list_id) (curr_epoch : Z) (p : option ptr) :
    M ucm (option ptr + option ptr) :=
  p ← zoom u_plist (next_page l p);
  match p with
  | None => mret (inr None)
  | Some x =>
      pg ← page x;
      assert_ "migrate.c:28" (negb (pg_va pg =? 0));;
      if min_migration_epoch pg <=? curr_epoch then
        zoom u_plist (page_list_remove l x);;
        r ← proc process;
        assert_ "migrate.c:37" (pg_pid pg =? pr_pid r);;
        mret (inr (Some x))
      else mret (inl p)
  end.

Fixpoint scan_lists (process : ptr) (ls : list list_id) (curr_epoch : Z) : M ucm (option ptr) :=
  match ls with
  | [] => mret None
  | l :: ls' =>
      n ← gets (λ s, size (u_pages s));
      o ← loop (S n) (scan_body process l curr_epoch) None;
      match o with
      | Some x => mret (Some x)
      | None => scan_lists process ls' curr_epoch
      end
  end.

Definition find_hottest_slowmem_page (process : ptr) : M ucm (option ptr) :=
  curr_epoch ← ucm_get_curr_epoch;
  scan_lists process
    (SlowBin process <$> reverse (seqZ PEBS_MIN_PROMOTION_TIER
       (NUM_HOTNESS_LEVELS - PEBS_MIN_PROMOTION_TIER))) curr_epoch.

Definition find_coldest_fastmem_page (process : ptr) : M ucm (option ptr) :=
  curr_epoch ← ucm_get_curr_epoch;
  scan_lists process (FastBin process <$> seqZ 0 PEBS_MAX_DEMOTION_TIER) curr_epoch.

Definition find_oldest_fastmem_page (process : ptr) : M ucm (option ptr) :=
  zoom u_plist (dequeue_page (FastBin process COLD)).

(** ** The application's side of a migration *)

(** ipc/ipc.c: one exchange on the remap socket of the process. *)
Definition ipc_remap_pages (process : ptr) (a : hemem_page_app) : M ucm ucm_ipc_result :=
  r ← proc process;
  replies ← gets u_ipc;
  let reply := default (AppReply IPC_SUCCESS None true) (head replies) in
  modify (λ s, s <| u_ipc := tail replies |>);;
  match ar_result reply with
  | IPC_SUCCESS =>
      assert_ "ipc.c:312" (default (pa_va a) (ar_va reply) =? pa_va a);;
      if ar_success reply then
        modify (λ s, s <| u_app ::=
          insert (pr_pid r, pa_va a) (tier_of (pa_in_dram a), pa_devdax_offset a) |>);;
        mret IPC_SUCCESS
      else mret IPC_ERRED
  | rc => mret rc
  end.

Inductive ioctl_result := IOCTL_OK | IOCTL_FREED | IOCTL_FAILED.

Section migration.
(** The outcome of [ioctl(uffd, UFFDIO_WRITEPROTECT, ...)] on the range of
    [len] bytes at [start]: success, [EBADF] or [ENOENT], another error. *)
Context (writeprotect : Z → Z → Z → bool → ioctl_result).

(** ** migration.c *)
Definition ucm_wp_page (x : ptr) (protect : bool) : M ucm unit :=
  pg ← page x;
  let addr := pg_va pg in
  assert_ "migration.c:40" (negb (addr =? 0));;
  assert_ "migration.c:41" (addr mod HUGEPAGE_SIZE =? 0);;
  match writeprotect (pg_uffd pg) addr (pt_to_pagesize (pg_pt pg)) protect with
  | IOCTL_OK | IOCTL_FREED => mret tt
  | IOCTL_FAILED => fail (AssertFail "migration.c:56")
  end.

Definition ucm_migrate_one_page (process x : ptr) (dst_is_fastmem : bool) (dst_offset : Z) :
    M ucm unit :=
  pg ← page x;
  assert_ (if dst_is_fastmem then "migration.c:80" else "migration.c:82")
    (Bool.eqb (pg_in_dram pg) (negb dst_is_fastmem));;
  let pagesize := pt_to_pagesize (pg_pt pg) in
  let old_addr_offset := pg_devdax_offset pg in
  let new_addr_offset := dst_offset in
  slowmem_sz ← get_slowmem_size;
  fastmem_sz ← get_fastmem_size;
  let new_tier_sz := if dst_is_fastmem then fastmem_sz else slowmem_sz in
  let old_tier_sz := if dst_is_fastmem then slowmem_sz else fastmem_sz in
  assert_ "migration.c:105" (old_addr_offset <? old_tier_sz);;
  assert_ "migration.c:106" (u64 (old_addr_offset + pagesize) <=? old_tier_sz);;
  assert_ "migration.c:107" (new_addr_offset <? new_tier_sz);;
  assert_ "migration.c:108" (u64 (new_addr_offset + pagesize) <=? new_tier_sz);;
  old_addr ← devdax_offset_to_addr old_addr_offset (negb dst_is_fastmem);
  new_addr ← devdax_offset_to_addr new_addr_offset dst_is_fastmem;
  assert_ "migration.c:115" (old_addr mod pagesize =? 0);;
  assert_ "migration.c:116" (new_addr mod pagesize =? 0);;
  hemem_memcpy (tier_of dst_is_fastmem) new_addr_offset
    (tier_of (negb dst_is_fastmem)) old_addr_offset pagesize;;
  (if dst_is_fastmem then ucm_stats_record_migration_up process x pagesize
   else ucm_stats_record_migration_down process x pagesize);;
  set_page x (λ pg, pg <| pg_devdax_offset := dst_offset |>);;
  rc ← ipc_remap_pages process (PageApp (pg_va pg) dst_offset dst_is_fastmem (pg_pt pg));
  match rc with
  | IPC_SUCCESS =>
      set_page x (λ pg, pg <| pg_in_dram := dst_is_fastmem |>);;
      if dst_is_fastmem then mm_remove_page_from_cxl process x
      else mm_add_page_to_cxl process x
  | IPC_APP_EXITED => ucm_remove_process process
  | _ => fail (AssertFail "migration.c:163")
  end.

Definition ucm_migrate_up (process x : ptr) (fastmem_offset : Z) : M ucm unit :=
  ucm_migrate_one_page process x true fastmem_offset.
Definition ucm_migrate_down (process x : ptr) (slowmem_offset : Z) : M ucm unit :=
  ucm_migrate_one_page process x false slowmem_offset.

(** [remap_lock] of a page. *)
Definition lock_page (x : ptr) : M ucm unit := λ s,
  if decide (x ∈ u_remap_locked s) then Err SelfDeadlock
  else Ok tt (s <| u_remap_locked := {[ x ]} ∪ u_remap_locked s |>).
Definition unlock_page (x : ptr) : M ucm unit := λ s,
  if decide (x ∈ u_remap_locked s) then Ok tt (s <| u_remap_locked := u_remap_locked s ∖ {[ x ]} |>)
  else Err (Undefined "unlock of a mutex that is not held").

(** What both directions do before the page is copied. *)
Definition start_migration (process x : ptr) (loc : string) : M ucm unit :=
  pg ← page x;
  r ← proc process;
  assert_ loc (pg_pid pg =? pr_pid r);;
  lock_page x;;
  epoch ← ucm_get_curr_epoch;
  set_page x (λ pg, pg <| pg_migrating := true |> <| pg_migration_uffd_unmap_pending := true |>
                       <| pg_last_migrated_epoch := epoch |>);;
  let migration_access_comp := pt_to_cacheline_count (pg_pt pg) in
  set_page x (λ pg, pg <| pg_migration_access_comp ::= Z.max migration_access_comp |>);;
  ucm_wp_page x true.

Definition demote_one_page (process x : ptr) (slowmem_offset : Z) : M ucm unit :=
  start_migration process x "migration.c:185";;
  ucm_migrate_down process x slowmem_offset;;
  pg ← page x;
  set_mm process (λ mm, mm <| mm_current_fastmem ::= λ n, u64 (n - pt_to_pagesize (pg_pt pg)) |>);;
  set_mm process (λ mm, mm <| mm_current_slowmem ::= λ n, u64 (n + pt_to_pagesize (pg_pt pg)) |>);;
  assert_ "migration.c:207" (negb (pg_in_dram pg));;
  set_page x (λ pg, pg <| pg_migrating := false |>);;
  unlock_page x.

Definition promote_one_page (process x : ptr) (fastmem_offset : Z) : M ucm unit :=
  start_migration process x "migration.c:224";;
  ucm_migrate_up process x fastmem_offset;;
  pg ← page x;
  set_mm process (λ mm, mm <| mm_current_fastmem ::= λ n, u64 (n + pt_to_pagesize (pg_pt pg)) |>);;
  set_mm process (λ mm, mm <| mm_current_slowmem ::= λ n, u64 (n - pt_to_pagesize (pg_pt pg)) |>);;
  assert_ "migration.c:246" (pg_in_dram pg);;
  set_page x (λ pg, pg <| pg_migrating := false |>);;
  unlock_page x.

(** The bookmark of cooling is dropped when it is on the page taken. *)
Definition reset_bookmark (fastmem : bool) (process x : ptr) : M ucm unit :=
  r ← proc process;
  pg ← page x;
  when (bool_decide (cur_cool fastmem (pr_mm r) = Some x)) (
    assert_ (if fastmem then "migration.c:277" else "migration.c:345")
      (Bool.eqb (pg_in_dram pg) fastmem);;
    set_mm process (set_cur_cool fastmem None);;
    set_mm process (set_cur_cool_list fastmem 0)).

(** The free page [np] takes over the frame [old_offset] of the tier left. *)
Definition recycle_frame (in_dram : bool) (np : ptr) (old_offset : Z) : M ucm unit :=
  set_page np (λ pg, pg <| pg_devdax_offset := old_offset |> <| pg_in_dram := in_dram |>
                        <| pg_present := false |>);;
  pg ← page np;
  assert_ (if in_dram then "migration.c:299" else "migration.c:395") (pg_hot pg =? COLD);;
  assert_ (if in_dram then "migration.c:301" else "migration.c:397")
    ((fast (pg_accesses pg) =? 0) && (slow (pg_accesses pg) =? 0));;
  assert_ (if in_dram then "migration.c:302" else "migration.c:398")
    ((fast (pg_tot_accesses pg) =? 0) && (slow (pg_tot_accesses pg) =? 0)).

Definition check_free (loc loc' : string) (np : ptr) : M ucm unit :=
  pg ← page np;
  assert_ loc (negb (pg_present pg));;
  assert_ loc' (pg_pid pg =? -1).

(** [policy.c]: the quality-of-service policy. *)
Definition find_demotion_candidate : ptr → M ucm (option ptr) := find_coldest_fastmem_page.
Definition find_promotion_candidate : ptr → M ucm (option ptr) := find_hottest_slowmem_page.

Definition migrate_down_body (process : ptr) (migrate_down_bytes migrated_bytes : Z) :
    M ucm (Z + Z) :=
  if negb (migrated_bytes <? migrate_down_bytes) then mret (inr migrated_bytes)
  else if PEBS_MIGRATE_RATE <=? migrated_bytes then mret (inr migrated_bytes)
  else
    o ← find_demotion_candidate process;
    match o with
    | None => mret (inr migrated_bytes)
    | Some cp =>
        pg ← page cp;
        r ← proc process;
        assert_ "migration.c:273" (pg_pid pg =? pr_pid r);;
        assert_ "migration.c:274" (negb (pg_va pg =? 0));;
        reset_bookmark true process cp;;
        o ← get_free_slowmem_page;
        match o with
        | Some np =>
            check_free "migration.c:286" "migration.c:287" np;;
            let old_offset := pg_devdax_offset pg in
            o ← mm_find_page process (pg_va pg);
            match o with
            | None => mret (inl migrated_bytes)
            | Some _ =>
                npg ← page np;
                demote_one_page process cp (pg_devdax_offset npg);;
                recycle_frame true np old_offset;;
                pg ← page cp;
                zoom u_plist (enqueue_page (SlowBin process (pg_hot pg)) cp);;
                return_free_fastmem_page np;;
                mret (inl (u64 (migrated_bytes + pt_to_pagesize (pg_pt pg))))
            end
        | None =>
            zoom u_plist (enqueue_page (FastBin process (pg_hot pg)) cp);;
            mret (inr migrated_bytes)
        end
    end.

(** Every round takes a page out of a list for good, or is the last. *)
Definition process_migrate_down_bytes (process : ptr) (migrate_down_bytes : Z) : M ucm Z :=
  n ← gets (λ s, size (u_pages s));
  loop (S n) (migrate_down_body process migrate_down_bytes) 0.

Definition migrate_up_body (process : ptr) (migrate_up_bytes migrated_bytes : Z) :
    M ucm (Z + Z) :=
  if negb (migrated_bytes <? migrate_up_bytes) then mret (inr migrated_bytes)
  else if PEBS_MIGRATE_RATE <=? migrated_bytes then mret (inr migrated_bytes)
  else
    o ← find_promotion_candidate process;
    match o with
    | None => mret (inr migrated_bytes)
    | Some x =>
        reset_bookmark false process x;;
        pg ← page x;
        r ← proc process;
        assert_ "migration.c:352" (pg_pid pg =? pr_pid r);;
        assert_ "migration.c:353" (negb (pg_va pg =? 0));;
        let new_hotness := decayed_index (pr_process_clock r) pg in
        o ← get_free_fastmem_page;
        match o with
        | None =>
            set_page x (λ pg, pg <| pg_hot := new_hotness |>);;
            zoom u_plist (enqueue_page (SlowBin process new_hotness) x);;
            mret (inr migrated_bytes)
        | Some np =>
            check_free "migration.c:382" "migration.c:383" np;;
            _ ← mm_find_page process (pg_va pg);
            npg ← page np;
            promote_one_page process x (pg_devdax_offset npg);;
            recycle_frame false np (pg_devdax_offset pg);;
            set_page x (λ pg, pg <| pg_hot := new_hotness |>);;
            zoom u_plist (enqueue_page (FastBin process new_hotness) x);;
            return_free_slowmem_page np;;
            mret (inl (u64 (migrated_bytes + pt_to_pagesize (pg_pt pg))))
        end
    end.

Definition process_migrate_up_bytes (process : ptr) (migrate_up_bytes : Z) : M ucm Z :=
  n ← gets (λ s, size (u_pages s));
  loop (S n) (migrate_up_body process migrate_up_bytes) 0.
End migration.
