(* ===== verification/Qos.v ===== *)
(** * The quality-of-service policy (src/src/ucm/policy/qos.c, policy.c,
    ds/proc-array.c) and the core loop (core.c)

    Once per epoch the policy drains the rings of every process, compares its
    miss ratio with its target, shares out the bytes to migrate between the
    processes that need fast memory and those that can give some up, migrates,
    and goes on cooling. *)

From S2P Require Import Prelude Fifo Ring F64 ProcList Types Hotness Mm MmAsync Ucm Process Telem Migrate.

(** ** ds/proc-array.c *)
Record process_array_t := ProcessArray {
  container : list ptr;
  arr_capacity : nat;
}.

Definition process_array_init (capacity : nat) : process_array_t := ProcessArray [] capacity.
Definition process_array_clear (arr : process_array_t) : process_array_t :=
  ProcessArray [] (arr_capacity arr).
Definition process_array_append (arr : process_array_t) (p : ptr) : bool * process_array_t :=
  if (arr_capacity arr <=? length (container arr))%nat then (false, arr)
  else (true, ProcessArray (container arr ++ [p]) (arr_capacity arr)).
(** The process at the iterator, and the iterator moved on. *)
Definition process_array_next (arr : process_array_t) (curr : nat) : option (ptr * nat) :=
  if (length (container arr) <=? curr)%nat then None
  else p ← container arr !! curr; Some (p, S curr).

(** ** Constants *)
Definition QOS_NEED_MEMORY_THRESHOLD : f64 := f64_decimal 105 2.
Definition QOS_TAKE_MEMORY_THRESHOLD : f64 := f64_decimal 95 2.
Definition QOS_DEVIATION_RATIO_MAX : f64 := f64_of_Z 100.
Definition EWMA_FRAC : f64 := f64_decimal 5 1.
Definition f64_min (x y : f64) : f64 := if f64_lt x y then x else y.

Record qos_policy_state_t := QosState {
  per_process_migrate_share : Z;
  need_fastmem : process_array_t;
  take_fastmem : process_array_t;
  fastmem_demand_total : f64;
  fastmem_supply_total : f64;
}.
#[global] Instance eta_qos_policy_state_t : Eta qos_policy_state_t :=
  λ r, QosState (per_process_migrate_share r) (need_fastmem r) (take_fastmem r)
    (fastmem_demand_total r) (fastmem_supply_total r).
#[global] Instance set_per_process_migrate_share : Setter per_process_migrate_share := ltac:(mk_setter).
#[global] Instance set_need_fastmem : Setter need_fastmem := ltac:(mk_setter).
#[global] Instance set_take_fastmem : Setter take_fastmem := ltac:(mk_setter).
#[global] Instance set_fastmem_demand_total : Setter fastmem_demand_total := ltac:(mk_setter).
#[global] Instance set_fastmem_supply_total : Setter fastmem_supply_total := ltac:(mk_setter).

(** ** Swaps within a process *)

(** The inner loop over the levels [j] below [max_fastmem_level], on the
    counts from [j] on: the counts, the slow pages left, the bytes. *)
Fixpoint swap_level (fastmem_bin_counts : list Z) (levels : nat)
    (n_slowmem_pages_left migrate_down_bytes : Z) : list Z * Z * Z :=
  match levels, fastmem_bin_counts with
  | S levels', c :: cs =>
      if n_slowmem_pages_left <=? 0 then
        (fastmem_bin_counts, n_slowmem_pages_left, migrate_down_bytes)
      else
        let pages_to_swap := if c =? 0 then 0 else Z.min c n_slowmem_pages_left in
        let '(cs', n_left, bytes) :=
          swap_level cs levels' (i64 (n_slowmem_pages_left - pages_to_swap))
            (u64 (migrate_down_bytes + pages_to_swap * HUGEPAGE_SIZE)) in
        (i64 (c - pages_to_swap) :: cs', n_left, bytes)
  | _, _ => (fastmem_bin_counts, n_slowmem_pages_left, migrate_down_bytes)
  end.

(** The outer loop over the levels [i], hottest first, with [slow i] pages. *)
Fixpoint swap_levels (order : list nat) (slow : nat → Z) (fastmem_bin_counts : list Z)
    (migrate_down_bytes : Z) : Z :=
  match order with
  | [] => migrate_down_bytes
  | i :: order' =>
      let '(cs, _, bytes) :=
        swap_level fastmem_bin_counts (i - 2) (i64 (slow i)) migrate_down_bytes in
      swap_levels order' slow cs bytes
  end.

Definition kMinSlowmemLevel : nat := 3.

(** The levels from [NUM_HOTNESS_LEVELS - 1] down to [kMinSlowmemLevel]. *)
Definition swap_order : list nat :=
  reverse (seq kMinSlowmemLevel (Z.to_nat NUM_HOTNESS_LEVELS - kMinSlowmemLevel)).

(** [numentries] of the lists of the given levels. *)
Fixpoint bin_numentries (in_dram : bool) (process : ptr) (levels : list Z) : M ucm (list Z) :=
  match levels with
  | [] => mret []
  | i :: levels' =>
      q ← list_header (bin in_dram process i);
      rest ← bin_numentries in_dram process levels';
      mret (numentries q :: rest)
  end.

Definition calculate_intra_process_migration_bytes (process : ptr) : M ucm Z :=
  fastmem_bin_counts ← bin_numentries true process (seqZ 0 NUM_HOTNESS_LEVELS);
  slowmem_bin_counts ← bin_numentries false process (seqZ 0 NUM_HOTNESS_LEVELS);
  mret (swap_levels swap_order (λ i, default 0 (slowmem_bin_counts !! i))
          (i64 <$> fastmem_bin_counts) 0).

(** ** Budgets *)
Definition set_policy (p : ptr) (f : process_policy → process_policy) : M ucm unit :=
  set_proc p (λ r, r <| pr_policy ::= f |>).

Definition set_process_migration_targets (process : ptr) (s : qos_policy_state_t) : M ucm unit :=
  r ← proc process;
  let delta := po_fastmem_delta (pr_policy r) in
  if 0 <? delta then
    free ← get_fastmem_free_size;
    let migrate_down := i64 (delta - i64 free) in
    set_policy process (λ po, po <| po_migration_up_bytes := u64 delta |>
      <| po_migration_down_bytes := if migrate_down <? 0 then 0 else migrate_down |>)
  else if delta <? 0 then
    set_policy process (λ po, po <| po_migration_up_bytes := 0 |>
      <| po_migration_down_bytes := u64 (- delta) |>)
  else
    migrate_down_bytes ← calculate_intra_process_migration_bytes process;
    let one_way_migration_share := per_process_migrate_share s / 2 in
    let down := Z.min migrate_down_bytes one_way_migration_share in
    set_policy process (λ po, po <| po_migration_down_bytes := down |>
      <| po_migration_up_bytes := down |>).

Definition update_process_miss_ratio (policy : process_policy) : M ucm f64 :=
  let curr_epoch_accesses := u64 (fast (po_access_count policy) + slow (po_access_count policy)) in
  if curr_epoch_accesses =? 0 then mret (f64_of_Z 0)
  else
    miss_ratio ← process_policy_calc_miss_ratio policy;
    mret (if f64_eq (po_current_miss_ratio policy) (f64_of_Z (-1)) then miss_ratio
          else f64_add (f64_mul EWMA_FRAC miss_ratio)
                 (f64_mul (f64_sub (f64_of_Z 1) EWMA_FRAC) (po_current_miss_ratio policy))).

(** The body of the loop of [check_mem_demand_supply]. *)
Definition check_process (st : qos_policy_state_t) (process : ptr) : M ucm qos_policy_state_t :=
  lock_process process;;
  mm_drain_async_requests process;;
  set_policy process (λ po, po <| po_fastmem_delta := 0 |>);;
  r ← proc process;
  miss ← update_process_miss_ratio (pr_policy r);
  set_policy process (λ po, po <| po_current_miss_ratio := miss |>
                               <| po_access_count := Tiered 0 0 |>);;
  let target := po_target_miss_ratio (pr_policy r) in
  let ratio := f64_div miss target in
  set_policy process (λ po, po <| po_deviation_ratio := ratio |>);;
  st' ← (if f64_gt ratio QOS_NEED_MEMORY_THRESHOLD then
    let capped := f64_min QOS_DEVIATION_RATIO_MAX ratio in
    set_policy process (λ po, po <| po_deviation_ratio := capped |>);;
    mret (st <| need_fastmem := (process_array_append (need_fastmem st) process).2 |>
             <| fastmem_demand_total ::= λ t, f64_add t capped |>)
  else if f64_lt ratio QOS_TAKE_MEMORY_THRESHOLD then
    let capped := f64_min QOS_DEVIATION_RATIO_MAX (f64_div target miss) in
    set_policy process (λ po, po <| po_deviation_ratio := capped |>);;
    mret (st <| take_fastmem := (process_array_append (take_fastmem st) process).2 |>
             <| fastmem_supply_total ::= λ t, f64_add t capped |>)
  else mret st);
  unlock_process process;;
  mret st'.

Definition check_mem_demand_supply (st : qos_policy_state_t) : M ucm qos_policy_state_t :=
  fold_processes check_process
    (st <| take_fastmem ::= process_array_clear |> <| need_fastmem ::= process_array_clear |>
        <| fastmem_demand_total := f64_of_Z 0 |> <| fastmem_supply_total := f64_of_Z 0 |>).

(** [double] to [int64_t]. *)
Definition to_i64 (x : f64) : M ucm Z :=
  match f64_trunc x with
  | Some n => if (- 2 ^ 63 <=? n) && (n <? 2 ^ 63) then mret n
              else fail (Undefined "conversion of a double out of range")
  | None => fail (Undefined "conversion of a double out of range")
  end.

(** [my_portion * max_bytes], down to a whole number of pages. *)
Definition portion_of (deviation_ratio total : f64) (max_bytes : Z) : M ucm Z :=
  let my_portion := f64_div deviation_ratio total in
  delta ← to_i64 (f64_mul my_portion (f64_of_Z max_bytes));
  mret (i64 (delta - u64 delta mod HUGEPAGE_SIZE)).

Fixpoint allocate_demotion_budgets (st : qos_policy_state_t) (ps : list ptr)
    (max_demotion_bytes total_take_bytes : Z) : M ucm Z :=
  match ps with
  | [] => mret total_take_bytes
  | process :: ps' =>
      r ← proc process;
      if f64_le (fastmem_supply_total st) (f64_of_Z 0) then
        set_policy process (λ po, po <| po_fastmem_delta := 0 |>);;
        allocate_demotion_budgets st ps' max_demotion_bytes total_take_bytes
      else
        delta ← portion_of (po_deviation_ratio (pr_policy r)) (fastmem_supply_total st)
                  max_demotion_bytes;
        let delta := Z.min delta (i64 (mm_current_fastmem (pr_mm r))) in
        set_policy process (λ po, po <| po_fastmem_delta := i64 (- delta) |>);;
        allocate_demotion_budgets st ps' max_demotion_bytes (u64 (total_take_bytes + delta))
  end.

Fixpoint allocate_promotion_budgets (st : qos_policy_state_t) (ps : list ptr)
    (max_promotion_bytes : Z) : M ucm unit :=
  match ps with
  | [] => mret tt
  | process :: ps' =>
      r ← proc process;
      (if f64_le (fastmem_demand_total st) (f64_of_Z 0) then
        set_policy process (λ po, po <| po_fastmem_delta := 0 |>)
      else
        delta ← portion_of (po_deviation_ratio (pr_policy r)) (fastmem_demand_total st)
                  max_promotion_bytes;
        let mm := pr_mm r in
        let delta :=
          if mm_mem_allocated mm <? u64 (mm_current_fastmem mm + delta) then
            let delta := i64 (mm_mem_allocated mm - mm_current_fastmem mm) in
            if delta <? 0 then 0 else delta
          else delta in
        set_policy process (λ po, po <| po_fastmem_delta := delta |>));;
      allocate_promotion_budgets st ps' max_promotion_bytes
  end.

Definition allocate_migration_budget (st : qos_policy_state_t) : M ucm qos_policy_state_t :=
  let interprocess_migrate := PEBS_MIGRATE_RATE / 2 in
  let intraprocess_migrate := PEBS_MIGRATE_RATE / 2 in
  let interprocess_migrate_one_way := interprocess_migrate / 2 in
  total_demotion_bytes ← allocate_demotion_budgets st (container (take_fastmem st))
                           interprocess_migrate_one_way 0;
  free ← get_fastmem_free_size;
  let promotion_budget := u64 (total_demotion_bytes + free) in
  allocate_promotion_budgets st (container (need_fastmem st)) promotion_budget;;
  q ← zoom u_pq (header tt);
  let num_procs := if 0 <? numentries q then numentries q else 1 in
  mret (st <| per_process_migrate_share := intraprocess_migrate / num_procs |>).

(** ** The epoch *)
Section epoch.
Context (writeprotect : Z → Z → Z → bool → ioctl_result).

Definition migrate_down_process (st : qos_policy_state_t) (process : ptr) : M ucm unit :=
  lock_process process;;
  set_process_migration_targets process st;;
  r ← proc process;
  _ ← process_migrate_down_bytes writeprotect process (po_migration_down_bytes (pr_policy r));
  unlock_process process.

Definition migrate_up_process (process : ptr) : M ucm unit :=
  lock_process process;;
  r ← proc process;
  _ ← process_migrate_up_bytes writeprotect process (po_migration_up_bytes (pr_policy r));
  unlock_process process.

Definition do_migration (st : qos_policy_state_t) : M ucm unit :=
  PROCESS_FOR_EACH (migrate_down_process st);;
  PROCESS_FOR_EACH migrate_up_process.

Definition cool_process (process : ptr) : M ucm unit :=
  lock_process process;;
  o ← incremental_fastmem_cooling process;
  set_mm process (set_cur_cool true o);;
  o ← incremental_slowmem_cooling process;
  set_mm process (set_cur_cool false o);;
  unlock_process process.

Definition do_partial_cool : M ucm unit := PROCESS_FOR_EACH cool_process.

Definition request_cooling : M ucm unit :=
  PROCESS_FOR_EACH (λ p, mm_request_soft_cool_fastmem p;; mm_request_soft_cool_slowmem p).

Definition qos_policy_epoch (enable_migration : bool) (st : qos_policy_state_t) :
    M ucm qos_policy_state_t :=
  st ← check_mem_demand_supply st;
  st ← (if enable_migration then
          st ← allocate_migration_budget st;
          do_migration st;;
          mret st
        else mret st);
  do_partial_cool;;
  mret st.

Definition qos_policy_state_init : qos_policy_state_t :=
  QosState 0 (process_array_init (Z.to_nat MAX_PROCESSES))
    (process_array_init (Z.to_nat MAX_PROCESSES)) (f64_of_Z 0) (f64_of_Z 0).

(** ** core.c: one round of [core_loop]. *)
Definition core_round (is_process_alive : Z → bool) (enable_migration : bool)
    (ps : list perf_event_mmap_page) (cnts diffs : list Z) (st : qos_policy_state_t) :
    M ucm (list perf_event_mmap_page * list Z * qos_policy_state_t) :=
  pc ← telem_engine_poll ps cnts diffs;
  _ ← proc_mgr_prune is_process_alive;
  st ← qos_policy_epoch enable_migration st;
  modify (λ s, s <| u_scan_epoch ::= λ n, u64 (n + 1) |>);;
  mret (pc.1, pc.2, st).
End epoch.
