(* ===== verification/Inv.v ===== *)
(** * The invariant of the memory manager

    [ucm_inv s A R] relates a state to the sequences [A] its page lists spell
    out and the sequences [R] its rings hold.  Every page is in exactly one
    list, and its fields, the tables, the rings and the byte counts of its
    process agree with that list.

    The full form [ucm_inv s A R W] names the process [W] whose rings are being
    drained, if any: only its hot and cold rings may still hold pages that the
    drain of its free ring has just returned to a free list. *)

From S2P Require Import Prelude Fifo Ring F64 ProcList Types Hotness Mm MmAsync.

(** ** Pages *)
Definition no_entry : pa_proc_map_entry := PaEntry 0 None false None.
Definition entry_for (p : ptr) (k : option Z) : pa_proc_map_entry :=
  match k with Some k => PaEntry k (Some p) true (Some k) | None => no_entry end.

(** A page of a free list. *)
Record free_page (d : bool) (pg : hemem_page) : Prop := FreePage {
  fp_dram : pg_in_dram pg = d;
  fp_present : pg_present pg = false;
  fp_pid : pg_pid pg = -1;
  fp_hot : pg_hot pg = COLD;
  fp_accesses : pg_accesses pg = Tiered 0 0;
  fp_tot_accesses : pg_tot_accesses pg = Tiered 0 0;
  fp_in_free_ring : pg_in_free_ring pg = false;
  fp_hh : pg_hh pg = None;
  fp_hh_pa : pg_hh_pa pg = None;
  fp_entry : pg_pa_proc_entry pg = no_entry;
}.

(** A page in the list of level [i] of the process [p], whose struct is [r];
    [pa] is [pa_to_proc_map].  While the page waits in the free ring it is in
    no table. *)
Record used_page (pa : gmap Z ptr) (d : bool) (p : ptr) (i : Z) (r : hemem_process)
    (x : ptr) (pg : hemem_page) : Prop := UsedPage {
  up_dram : pg_in_dram pg = d;
  up_present : pg_present pg = true;
  up_pid : pg_pid pg = pr_pid r;
  up_hot : pg_hot pg = i;
  up_level : 0 ≤ i < NUM_HOTNESS_LEVELS;
  up_va : pg_va pg ≠ 0;
  up_va_aligned : pg_va pg mod HUGEPAGE_SIZE = 0;
  up_hh : pg_hh pg = if pg_in_free_ring pg then None else Some (pg_va pg);
  up_hh_pa : pg_hh_pa pg =
    if pg_in_free_ring pg || d then None else Some (pg_devdax_offset pg);
  up_entry : pg_pa_proc_entry pg = entry_for p (pg_hh_pa pg);
  up_pages k : pg_hh pg = Some k → mm_pages (pr_mm r) !! k = Some x;
  up_cxl k : pg_hh_pa pg = Some k →
    mm_cxl_offset_to_page (pr_mm r) !! k = Some x ∧ pa !! k = Some x;
}.

Definition tier_size (s : ucm) (d : bool) : Z :=
  if d then u_fastmem_size s else u_slowmem_size s.

(** The frame a page occupies lies in its tier. *)
Record phys_page (sz : Z) (pg : hemem_page) : Prop := PhysPage {
  pp_pt : pg_pt pg = HUGEP;
  pp_offset : 0 ≤ pg_devdax_offset pg;
  pp_aligned : pg_devdax_offset pg mod HUGEPAGE_SIZE = 0;
  pp_bound : pg_devdax_offset pg + HUGEPAGE_SIZE ≤ sz;
}.

Definition frame (pg : hemem_page) : bool * Z := (pg_in_dram pg, pg_devdax_offset pg).

(** ** Processes *)

(** The number of pages a process has in a tier. *)
Definition bin_count (A : list_id → list ptr) (d : bool) (p : ptr) : Z :=
  Z.of_nat (sum_list_with (λ i, length (A (bin d p i))) (seqZ 0 NUM_HOTNESS_LEVELS)).

Definition in_tier (A : list_id → list ptr) (d : bool) (p x : ptr) : Prop :=
  ∃ i, 0 ≤ i < NUM_HOTNESS_LEVELS ∧ x ∈ A (bin d p i).
Definition in_bins (A : list_id → list ptr) (p x : ptr) : Prop := ∃ d, in_tier A d p x.

(** The byte counts are those of a process in [proc_map]: removing a process
    resets them before its pages are freed. *)
Record proc_inv (pages : gmap ptr hemem_page) (A : list_id → list ptr)
    (R : ptr → ring_sel → list ptr) (W : option ptr) (p : ptr) (r : hemem_process) : Prop :=
  ProcInv {
  pi_pid : pr_pid r ≠ -1;
  pi_fastmem : is_Some (pr_phh r) →
    mm_current_fastmem (pr_mm r) = HUGEPAGE_SIZE * bin_count A true p;
  pi_slowmem : is_Some (pr_phh r) →
    mm_current_slowmem (pr_mm r) = HUGEPAGE_SIZE * bin_count A false p;
  pi_pages k x : mm_pages (pr_mm r) !! k = Some x →
    in_bins A p x ∧ ∃ pg, pages !! x = Some pg ∧ pg_hh pg = Some k;
  pi_cxl k x : mm_cxl_offset_to_page (pr_mm r) !! k = Some x →
    in_bins A p x ∧ ∃ pg, pages !! x = Some pg ∧ pg_hh_pa pg = Some k;
  pi_ring sel : ring_ok (ring_of sel (pr_mm r)) (R p sel) ∧
    capacity (ring_of sel (pr_mm r)) = CAPACITY;
  pi_free_ring x : x ∈ R p FreeRing ↔
    in_bins A p x ∧ ∃ pg, pages !! x = Some pg ∧ pg_in_free_ring pg = true;
  pi_free_nodup : NoDup (R p FreeRing);
  pi_requests x : x ∈ R p HotRing ++ R p ColdRing →
    (in_bins A p x ∨ W = Some p ∧ ∃ d, x ∈ A (free_list d)) ∧
    ∃ pg, pages !! x = Some pg ∧ pg_ring_present pg = true;
  pi_requests_nodup : NoDup (R p HotRing ++ R p ColdRing);
  pi_cur_cool d x : cur_cool d (pr_mm r) = Some x → in_tier A d p x;
  pi_cur_cool_list d : 0 ≤ cur_cool_list d (pr_mm r) < NUM_HOTNESS_LEVELS;
}.

(** ** The whole state *)
Definition valid_list (procs : gmap ptr hemem_process) (l : list_id) : Prop :=
  match l with
  | FastFree | SlowFree => True
  | FastBin p i | SlowBin p i => p ∈ dom procs ∧ 0 ≤ i ≤ NUM_HOTNESS_LEVELS
  end.

(** The manager handles less than a million huge pages (2 TB). *)
Definition MAX_PAGES : Z := 2 ^ 20.

Record ucm_inv (s : ucm) (A : list_id → list ptr) (R : ptr → ring_sel → list ptr)
    (W : option ptr) : Prop := UcmInv {
  I_dll : dll_ok (u_plist s) A;
  I_dom : dom (links (u_plist s)) = dom (u_pages s);
  I_header l : is_Some (headers (u_plist s) !! l) ↔ valid_list (u_procs s) l;
  I_total x : is_Some (u_pages s !! x) → ∃ l, x ∈ A l;
  I_free d x : x ∈ A (free_list d) → ∃ pg, u_pages s !! x = Some pg ∧ free_page d pg;
  I_used d p i x : x ∈ A (bin d p i) → ∃ pg r,
    u_pages s !! x = Some pg ∧ u_procs s !! p = Some r ∧
    used_page (u_pa_map s) d p i r x pg;
  I_phys x pg : u_pages s !! x = Some pg → phys_page (tier_size s (pg_in_dram pg)) pg;
  I_frames x y pg pg' : u_pages s !! x = Some pg → u_pages s !! y = Some pg' →
    frame pg = frame pg' → x = y;
  I_proc p r : u_procs s !! p = Some r → proc_inv (u_pages s) A R W p r;
  I_pids p q r r' : u_procs s !! p = Some r → u_procs s !! q = Some r' →
    pr_pid r = pr_pid r' → p = q;
  I_pa k x : u_pa_map s !! k = Some x →
    (∃ p, in_bins A p x) ∧ ∃ pg, u_pages s !! x = Some pg ∧ pg_hh_pa pg = Some k;
  I_size : Z.of_nat (size (u_pages s)) < MAX_PAGES;
  I_sizes : 0 ≤ u_fastmem_size s < 2 ^ 63 ∧ 0 ≤ u_slowmem_size s < 2 ^ 63;
}.

#[global] Arguments I_dll {s A R W} _.
#[global] Arguments I_dom {s A R W} _.
#[global] Arguments I_header {s A R W} _ l.
#[global] Arguments I_total {s A R W} _ {x} _.
#[global] Arguments I_free {s A R W} _ {d x} _.
#[global] Arguments I_used {s A R W} _ {d p i x} _.
#[global] Arguments I_phys {s A R W} _ {x pg} _.
#[global] Arguments I_frames {s A R W} _ {x y pg pg'} _ _ _.
#[global] Arguments I_proc {s A R W} _ {p r} _.
#[global] Arguments I_pids {s A R W} _ {p q r r'} _ _ _.
#[global] Arguments I_pa {s A R W} _ {k x} _.
#[global] Arguments I_size {s A R W} _.
#[global] Arguments I_sizes {s A R W} _.

(** ** Consequences of the lists being disjoint *)
Lemma bin_inj d d' p p' i i' : bin d p i = bin d' p' i' → d = d' ∧ p = p' ∧ i = i'.
Proof. destruct d, d'; intros [=]; naive_solver. Qed.

Lemma bin_not_free d d' p i : bin d p i ≠ free_list d'.
Proof. by destruct d, d'. Qed.

Lemma free_list_inj d d' : free_list d = free_list d' → d = d'.
Proof. by destruct d, d'. Qed.

Lemma list_cases l : (∃ d, l = free_list d) ∨ (∃ d p i, l = bin d p i).
Proof.
  destruct l as [| |p i|p i].
  - left. by exists true.
  - left. by exists false.
  - right. by exists true, p, i.
  - right. by exists false, p, i.
Qed.

Section disjoint.
Context (h : page_lists list_id) (A : list_id → list ptr) (Hdll : dll_ok h A).

Lemma bins_unique d d' p p' i i' x :
  x ∈ A (bin d p i) → x ∈ A (bin d' p' i') → d = d' ∧ p = p' ∧ i = i'.
Proof using Hdll. intros H1 H2. by apply bin_inj, (dll_disjoint h A _ _ x). Qed.

Lemma bin_free_disjoint d d' p i x : x ∈ A (bin d p i) → x ∈ A (free_list d') → False.
Proof using Hdll. intros H1 H2. by apply (bin_not_free d d' p i), (dll_disjoint h A _ _ x). Qed.

Lemma in_bins_unique p p' x : in_bins A p x → in_bins A p' x → p = p'.
Proof using Hdll. intros (d&i&_&H1) (d'&i'&_&H2). by eapply bins_unique. Qed.

Lemma in_bins_free p d x : in_bins A p x → x ∈ A (free_list d) → False.
Proof using Hdll. intros (d'&i&_&H1) H2. by eapply bin_free_disjoint. Qed.
End disjoint.

(** Lists with the same elements have the same length. *)
Lemma same_elements_length (xs ys : list ptr) :
  NoDup xs → NoDup ys → (∀ x, x ∈ xs ↔ x ∈ ys) → length xs = length ys.
Proof. intros. by apply Permutation_length, NoDup_Permutation. Qed.

Lemma bin_count_ext A A' d p :
  (∀ i, length (A (bin d p i)) = length (A' (bin d p i))) →
  bin_count A d p = bin_count A' d p.
Proof.
  intros Hlen. unfold bin_count. f_equal.
  induction (seqZ 0 NUM_HOTNESS_LEVELS) as [|i js IH]; simpl; [done|]. by rewrite Hlen, IH.
Qed.

(** The pages of a process in a tier, list by list. *)
Definition bin_members (A : list_id → list ptr) (d : bool) (p : ptr) : list ptr :=
  seqZ 0 NUM_HOTNESS_LEVELS ≫= λ i, A (bin d p i).

Lemma bin_count_members A d p : bin_count A d p = Z.of_nat (length (bin_members A d p)).
Proof.
  unfold bin_count, bin_members. f_equal.
  induction (seqZ 0 NUM_HOTNESS_LEVELS) as [|i js IH]; simpl; [done|].
  rewrite length_app. by rewrite IH.
Qed.

Lemma elem_of_bin_members A d p x : x ∈ bin_members A d p ↔ in_tier A d p x.
Proof.
  unfold bin_members, in_tier. rewrite list_elem_of_bind. setoid_rewrite elem_of_seqZ.
  split; intros (i&?&?); exists i; auto with lia.
Qed.

Lemma bin_members_nodup h A d p : dll_ok h A → NoDup (bin_members A d p).
Proof.
  intros Hdll. unfold bin_members. assert (NoDup (seqZ 0 NUM_HOTNESS_LEVELS)) as Hnd by apply NoDup_seqZ.
  induction Hnd as [|i js Hi Hnd IH]; simpl; [constructor|].
  apply NoDup_app. split_and!; [apply Hdll| |done].
  intros x Hx (j&Hj&?)%list_elem_of_bind. apply Hi.
  by destruct (bins_unique _ _ Hdll _ _ _ _ _ _ _ Hx Hj) as (_&_&->).
Qed.

Lemma bin_count_same h h' A A' d p :
  dll_ok h A → dll_ok h' A' → (∀ y, in_tier A' d p y ↔ in_tier A d p y) →
  bin_count A' d p = bin_count A d p.
Proof.
  intros H1 H2 Hsame. rewrite !bin_count_members. f_equal.
  apply same_elements_length; [by eapply bin_members_nodup..|].
  intros x. by rewrite !elem_of_bin_members.
Qed.

Lemma bin_count_add h h' A A' d p x :
  dll_ok h A → dll_ok h' A' → ¬ in_tier A d p x →
  (∀ y, in_tier A' d p y ↔ y = x ∨ in_tier A d p y) →
  bin_count A' d p = bin_count A d p + 1.
Proof.
  intros H1 H2 Hx Hsame. rewrite !bin_count_members.
  rewrite (same_elements_length (bin_members A' d p) (x :: bin_members A d p)).
  - simpl. lia.
  - by eapply bin_members_nodup.
  - apply NoDup_cons. rewrite elem_of_bin_members. split; [done|by eapply bin_members_nodup].
  - intros y. by rewrite elem_of_cons, !elem_of_bin_members.
Qed.

Lemma bin_count_bound h A d p :
  dll_ok h A → bin_count A d p ≤ Z.of_nat (size (links h)).
Proof.
  intros Hdll. rewrite bin_count_members. apply inj_le.
  rewrite <- size_dom, <- (size_list_to_set (C:=gset ptr) (bin_members A d p))
    by by eapply bin_members_nodup.
  apply subseteq_size. intros x. rewrite elem_of_list_to_set, elem_of_dom, elem_of_bin_members.
  intros (i&_&Hx). destruct (dll_in h A _ x Hdll Hx) as (n&->&_). eauto.
Qed.

(** ** The invariant after a change to the pages [X] and the process [p] *)
Lemma proc_inv_other pages pages' h h' A A' R R' W q r (X : gset ptr) :
  proc_inv pages A R W q r → W ≠ Some q →
  (∀ y, y ∉ X → pages' !! y = pages !! y) →
  (∀ y l, y ∉ X → y ∈ A' l ↔ y ∈ A l) →
  (∀ x, x ∈ X → ¬ in_bins A q x) → (∀ x, x ∈ X → ¬ in_bins A' q x) →
  dll_ok h A → dll_ok h' A' → R' q = R q →
  proc_inv pages' A' R' W q r.
Proof.
  intros [] HW Hpages HA HX HX' Hnd Hnd' HR.
  assert (∀ x, in_bins A q x → x ∉ X ∧ in_bins A' q x) as Hold.
  { intros x Hx. assert (x ∉ X) as HxX by (intros HxX; by apply (HX x HxX)).
    split; [done|]. destruct Hx as (d&i&?&Hx). exists d, i. by rewrite HA. }
  assert (∀ x, in_bins A' q x → x ∉ X ∧ in_bins A q x) as Hnew.
  { intros x Hx. assert (x ∉ X) as HxX by (intros HxX; by apply (HX' x HxX)).
    split; [done|]. destruct Hx as (d&i&?&Hx). exists d, i. by rewrite <- HA. }
  assert (∀ d, bin_count A' d q = bin_count A d q) as Hcount.
  { intros d. eapply bin_count_same; [done..|]. intros x. split; intros (i&?&Hx); exists i.
    - destruct (Hnew x) as [HxX _]; [by exists d, i|]. by rewrite <- HA.
    - destruct (Hold x) as [HxX _]; [by exists d, i|]. by rewrite HA. }
  assert (∀ x (P : hemem_page → Prop), in_bins A q x ∧ (∃ pg, pages !! x = Some pg ∧ P pg) →
    in_bins A' q x ∧ ∃ pg, pages' !! x = Some pg ∧ P pg) as Hkeep.
  { intros x P [Hb Hpg]. destruct (Hold x Hb) as [HxX ?]. split; [done|]. by rewrite Hpages. }
  split; rewrite ?HR, ?Hcount; auto.
  - intros x. split; [naive_solver|]. intros [Hb (pg&Hpg&?)].
    destruct (Hnew x Hb) as [HxX ?]. rewrite Hpages in Hpg by done. naive_solver.
  - intros x Hx. destruct (pi_requests0 x Hx) as [[?|[? _]] Hpg]; [|done].
    destruct (Hkeep x (λ pg, pg_ring_present pg = true)); auto.
  - intros d x (i&?&Hx)%pi_cur_cool0. exists i. split; [done|]. apply HA; [|done].
    intros HxX. apply (HX x HxX). by exists d, i.
Qed.

Lemma inv_change s s' A A' R R' W p r r' (X : gset ptr) :
  ucm_inv s A R W → W = None ∨ W = Some p →
  u_procs s !! p = Some r → u_procs s' = <[p := r']> (u_procs s) → pr_pid r' = pr_pid r →
  dll_ok (u_plist s') A' → same_shape (u_plist s) (u_plist s') →
  dom (u_pages s') = dom (u_pages s) →
  (∀ y, y ∉ X → u_pages s' !! y = u_pages s !! y) →
  (∀ y l, y ∉ X → y ∈ A' l ↔ y ∈ A l) →
  (∀ x q, x ∈ X → in_bins A q x → q = p) →
  (∀ x, x ∈ X → ∃ pg, u_pages s' !! x = Some pg ∧
     ((∃ d, x ∈ A' (free_list d) ∧ free_page d pg) ∨
      (∃ d i, x ∈ A' (bin d p i) ∧ used_page (u_pa_map s') d p i r' x pg))) →
  (∀ x pg, x ∈ X → u_pages s' !! x = Some pg →
     phys_page (tier_size s' (pg_in_dram pg)) pg) →
  (∀ x y pg pg', u_pages s' !! x = Some pg → u_pages s' !! y = Some pg' →
     frame pg = frame pg' → x = y) →
  (∀ k y, y ∉ X → mm_pages (pr_mm r') !! k = Some y ↔ mm_pages (pr_mm r) !! k = Some y) →
  (∀ k y, y ∉ X → mm_cxl_offset_to_page (pr_mm r') !! k = Some y ↔
                  mm_cxl_offset_to_page (pr_mm r) !! k = Some y) →
  (∀ k y, y ∉ X → u_pa_map s' !! k = Some y ↔ u_pa_map s !! k = Some y) →
  (∀ k x, x ∈ X → u_pa_map s' !! k = Some x →
     in_bins A' p x ∧ ∃ pg, u_pages s' !! x = Some pg ∧ pg_hh_pa pg = Some k) →
  proc_inv (u_pages s') A' R' W p r' →
  (∀ q, q ≠ p → R' q = R q) →
  u_fastmem_size s' = u_fastmem_size s → u_slowmem_size s' = u_slowmem_size s →
  ucm_inv s' A' R' W.
Proof.
  intros HI HW Hp Hprocs Hpid Hdll Hsh Hdom Hpages HA HXold HXnew HXphys Hframes Htab Hcxl Hpa
    HpaX Hproc HR Hfs Hss.
  assert (∀ q, q ≠ p → u_procs s' !! q = u_procs s !! q) as Hq.
  { intros q Hq. by rewrite Hprocs, lookup_insert_ne. }
  assert (∀ x q, x ∈ X → in_bins A' q x → q = p) as HXbins.
  { intros x q HxX Hb. destruct (HXnew x HxX) as (pg&_&[(d&Hf&_)|(d&i&Hb'&?)]).
    - by destruct (in_bins_free _ _ Hdll q d x).
    - eapply (in_bins_unique _ _ Hdll); [done|]. exists d, i. split; [by eapply up_level|done]. }
  assert (∀ d, tier_size s' d = tier_size s d) as Htier by (intros []; done).
  split.
  - done.
  - destruct Hsh as [-> _]. by rewrite Hdom, (I_dom HI).
  - intros l. rewrite <- elem_of_dom. destruct Hsh as [_ ->]. rewrite elem_of_dom, (I_header HI).
    unfold valid_list. rewrite Hprocs, dom_insert_lookup_L by eauto. done.
  - intros x Hx. destruct (decide (x ∈ X)) as [HxX|HxX].
    + destruct (HXnew x HxX) as (pg&_&[(d&?&_)|(d&i&?&_)]); eauto.
    + rewrite Hpages in Hx by done. destruct (I_total HI Hx) as [l Hl]. exists l. by apply HA.
  - intros d x Hx. destruct (decide (x ∈ X)) as [HxX|HxX].
    + destruct (HXnew x HxX) as (pg&Hpg&[(d'&Hd'&?)|(d'&i&Hb&_)]).
      * assert (d = d') as -> by (eapply free_list_inj, (dll_disjoint _ A'); done). eauto.
      * by destruct (bin_free_disjoint _ _ Hdll d' d p i x).
    + rewrite Hpages by done. apply (I_free HI). by apply HA.
  - intros d q i x Hx. destruct (decide (x ∈ X)) as [HxX|HxX].
    + destruct (HXnew x HxX) as (pg&Hpg&[(d'&Hd'&_)|(d'&i'&Hb&Hu)]).
      { by destruct (bin_free_disjoint _ _ Hdll d d' q i x). }
      destruct (bins_unique _ _ Hdll _ _ _ _ _ _ _ Hx Hb) as (->&->&->).
      exists pg, r'. by rewrite Hprocs, lookup_insert_eq.
    + apply HA in Hx; [|done]. destruct (I_used HI Hx) as (pg&rq&Hpg&Hrq&Hu).
      exists pg. rewrite Hpages by done. destruct (decide (q = p)) as [->|Hqp].
      * exists r'. rewrite Hprocs, lookup_insert_eq. split_and!; [done..|]. simplify_eq.
        destruct Hu. split; rewrite ?Hpid; auto; [intros k Hk; by apply Htab; auto|].
        intros k Hk. rewrite Hcxl, Hpa by done. auto.
      * exists rq. rewrite Hq by done. split_and!; [done..|].
        destruct Hu. split; auto. intros k Hk. rewrite Hpa by done. auto.
  - intros x pg Hpg. destruct (decide (x ∈ X)) as [HxX|HxX]; [by apply (HXphys x)|].
    rewrite Htier. apply (I_phys HI (x:=x)). by rewrite <- Hpages.
  - done.
  - intros q rq Hrq. destruct (decide (q = p)) as [->|Hqp].
    + rewrite Hprocs, lookup_insert_eq in Hrq. by simplify_eq.
    + rewrite Hq in Hrq by done. eapply (proc_inv_other (u_pages s) _ _ _ A _ R _ W q rq X); auto.
      * by apply (I_proc HI).
      * destruct HW; congruence.
      * intros x HxX Hb. apply Hqp. eauto.
      * intros x HxX Hb. apply Hqp. eauto.
      * apply (I_dll HI).
      * done.
  - assert (∀ q rq, u_procs s' !! q = Some rq → ∃ rq', u_procs s !! q = Some rq' ∧ pr_pid rq' = pr_pid rq) as Hpids.
    { intros q rq. destruct (decide (q = p)) as [->|Hqp].
      - rewrite Hprocs, lookup_insert_eq. intros [= <-]. eauto.
      - rewrite Hq by done. eauto. }
    intros q q' rq rq' (?&?&<-)%Hpids (?&?&<-)%Hpids ?. by eapply (I_pids HI).
  - intros k x Hx. destruct (decide (x ∈ X)) as [HxX|HxX].
    + destruct (HpaX k x HxX Hx) as [? ?]. eauto.
    + apply Hpa in Hx; [|done]. destruct (I_pa HI Hx) as [(q&d&i&?&Hb) Hpg].
      rewrite Hpages by done. split; [|done]. exists q, d, i. by rewrite HA.
  - rewrite <- size_dom, Hdom, size_dom. apply HI.
  - rewrite Hfs, Hss. apply HI.
Qed.

(** The same, for one page that keeps its frame. *)
Lemma inv_page s s' A A' R R' W p r r' x pg pg' :
  ucm_inv s A R W → W = None ∨ W = Some p →
  u_procs s !! p = Some r → u_procs s' = <[p := r']> (u_procs s) → pr_pid r' = pr_pid r →
  u_pages s !! x = Some pg → u_pages s' = <[x := pg']> (u_pages s) →
  pg_pt pg' = pg_pt pg → frame pg' = frame pg →
  dll_ok (u_plist s') A' → same_shape (u_plist s) (u_plist s') →
  (∀ y l, y ≠ x → y ∈ A' l ↔ y ∈ A l) →
  (∀ q, in_bins A q x → q = p) →
  ((∃ d, x ∈ A' (free_list d) ∧ free_page d pg') ∨
   (∃ d i, x ∈ A' (bin d p i) ∧ used_page (u_pa_map s') d p i r' x pg')) →
  (∀ k y, y ≠ x → mm_pages (pr_mm r') !! k = Some y ↔ mm_pages (pr_mm r) !! k = Some y) →
  (∀ k y, y ≠ x → mm_cxl_offset_to_page (pr_mm r') !! k = Some y ↔
                  mm_cxl_offset_to_page (pr_mm r) !! k = Some y) →
  (∀ k y, y ≠ x → u_pa_map s' !! k = Some y ↔ u_pa_map s !! k = Some y) →
  (∀ k, u_pa_map s' !! k = Some x → in_bins A' p x ∧ pg_hh_pa pg' = Some k) →
  proc_inv (u_pages s') A' R' W p r' →
  (∀ q, q ≠ p → R' q = R q) →
  u_fastmem_size s' = u_fastmem_size s → u_slowmem_size s' = u_slowmem_size s →
  ucm_inv s' A' R' W.
Proof.
  intros HI HW Hp Hprocs Hpid Hx Hpages Hpt Hframe Hdll Hsh HA Hold Hnew Ht Hc Hpa HpaX Hproc HR Hfs Hss.
  assert (∀ y pgy, u_pages s' !! y = Some pgy →
    ∃ pgy', u_pages s !! y = Some pgy' ∧ frame pgy' = frame pgy) as Hback.
  { intros y pgy. rewrite Hpages, lookup_insert. case_decide; [|eauto].
    intros [= <-]. subst. eauto. }
  eapply (inv_change s s' A A' R R' W p r r' {[x]}); try done.
  - by rewrite Hpages, dom_insert_lookup_L by eauto.
  - intros y Hy. by rewrite Hpages, lookup_insert_ne by set_solver.
  - intros y l Hy. apply HA. set_solver.
  - intros y q ->%elem_of_singleton. auto.
  - intros y ->%elem_of_singleton. exists pg'. by rewrite Hpages, lookup_insert_eq.
  - intros y pgy ->%elem_of_singleton. rewrite Hpages, lookup_insert_eq. intros [= <-].
    injection Hframe as Hd Ho. destruct (I_phys HI Hx) as [? ? ? ?].
    split; rewrite ?Hd, ?Ho, ?Hpt; [done..|]. unfold tier_size in *. by rewrite Hfs, Hss.
  - intros y z pgy pgz (?&?&<-)%Hback (?&?&<-)%Hback Heq. by eapply (I_frames HI).
  - intros k y Hy. apply Ht. set_solver.
  - intros k y Hy. apply Hc. set_solver.
  - intros k y Hy. apply Hpa. set_solver.
  - intros k y ->%elem_of_singleton Hk. destruct (HpaX k Hk) as [? ?]. split; [done|].
    exists pg'. by rewrite Hpages, lookup_insert_eq.
Qed.

(** ** Changes that the invariant does not see *)

(** The fields of a page and of a process that the invariant mentions. *)
Definition page_core (pg : hemem_page) :=
  (pg_in_dram pg, pg_present pg, pg_pid pg, pg_va pg, pg_devdax_offset pg,
   pg_pt pg, pg_hh pg, pg_hh_pa pg, pg_pa_proc_entry pg, pg_in_free_ring pg).

Definition proc_core (r : hemem_process) :=
  (pr_pid r, pr_phh r, mm_current_fastmem (pr_mm r), mm_current_slowmem (pr_mm r),
   mm_pages (pr_mm r), mm_cxl_offset_to_page (pr_mm r)).

Lemma proc_inv_same pages pages' h h' A A' R W p r r' :
  proc_inv pages A R W p r →
  proc_core r' = proc_core r →
  (∀ sel, ring_of sel (pr_mm r') = ring_of sel (pr_mm r)) →
  (∀ d y, cur_cool d (pr_mm r') = Some y → in_tier A d p y) →
  (∀ d, 0 ≤ cur_cool_list d (pr_mm r') < NUM_HOTNESS_LEVELS) →
  dll_ok h A → dll_ok h' A' → (∀ d y, in_tier A' d p y ↔ in_tier A d p y) →
  (∀ d y, y ∈ A (free_list d) → y ∈ A' (free_list d)) →
  (∀ y pg, pages !! y = Some pg → ∃ pg', pages' !! y = Some pg' ∧
     page_core pg' = page_core pg ∧
     (y ∈ R p HotRing ++ R p ColdRing → pg_ring_present pg = true → pg_ring_present pg' = true)) →
  (∀ y pg', pages' !! y = Some pg' → ∃ pg, pages !! y = Some pg ∧ page_core pg' = page_core pg) →
  proc_inv pages' A' R W p r'.
Proof.
  intros [] Hcore Hring Hcur Hlist Hdll Hdll' HA Hfree Hto Hfrom. injection Hcore as E1 E0 E2 E3 E4 E5.
  assert (∀ y, in_bins A' p y ↔ in_bins A p y) as Hbins.
  { intros y. split; intros [d Hy]; exists d; by apply HA. }
  assert (∀ d, bin_count A' d p = bin_count A d p) as Hcount.
  { intros d. by eapply bin_count_same. }
  split; rewrite ?E1, ?E0, ?E2, ?E3, ?E4, ?E5, ?Hcount; auto.
  - intros k x Hx. destruct (pi_pages0 k x Hx) as [? (pg&Hpg&?)]. rewrite Hbins. split; [done|].
    destruct (Hto x pg Hpg) as (pg'&?&[=]&_). exists pg'. split; [done|]. congruence.
  - intros k x Hx. destruct (pi_cxl0 k x Hx) as [? (pg&Hpg&?)]. rewrite Hbins. split; [done|].
    destruct (Hto x pg Hpg) as (pg'&?&[=]&_). exists pg'. split; [done|]. congruence.
  - intros sel. rewrite Hring. auto.
  - intros x. rewrite pi_free_ring0, Hbins. split; intros [? (pg&Hpg&?)]; (split; [done|]).
    + destruct (Hto x pg Hpg) as (pg'&?&[=]&_). exists pg'. split; [done|]. congruence.
    + destruct (Hfrom x pg Hpg) as (pg'&?&[=]). exists pg'. split; [done|]. congruence.
  - intros x Hx. destruct (pi_requests0 x Hx) as [? (pg&Hpg&?)]. rewrite Hbins.
    split; [naive_solver|]. destruct (Hto x pg Hpg) as (pg'&?&_&?). exists pg'. auto.
  - intros d x Hx. apply HA. by apply Hcur.
Qed.

(** A used page moves within the lists of its tier, or stays, and only fields
    outside the core change. *)
Lemma inv_used s s' A A' R W p r r' x pg pg' d i i' :
  ucm_inv s A R W → W = None ∨ W = Some p → x ∈ A (bin d p i) →
  u_procs s !! p = Some r → u_procs s' = <[p := r']> (u_procs s) →
  proc_core r' = proc_core r →
  (∀ sel, ring_of sel (pr_mm r') = ring_of sel (pr_mm r)) →
  (∀ d y, cur_cool d (pr_mm r') = Some y → in_tier A d p y) →
  (∀ d, 0 ≤ cur_cool_list d (pr_mm r') < NUM_HOTNESS_LEVELS) →
  u_pages s !! x = Some pg → u_pages s' = <[x := pg']> (u_pages s) →
  page_core pg' = page_core pg → (x ∈ R p HotRing ++ R p ColdRing → pg_ring_present pg' = true) →
  pg_hot pg' = i' → 0 ≤ i' < NUM_HOTNESS_LEVELS → x ∈ A' (bin d p i') →
  dll_ok (u_plist s') A' → same_shape (u_plist s) (u_plist s') →
  (∀ y l, y ≠ x → y ∈ A' l ↔ y ∈ A l) →
  u_pa_map s' = u_pa_map s →
  u_fastmem_size s' = u_fastmem_size s → u_slowmem_size s' = u_slowmem_size s →
  ucm_inv s' A' R W.
Proof.
  intros HI HW Hx Hp Hprocs Hpc Hring Hcur Hlist Hpg Hpages Hcore Hrp Hhot Hi' Hx' Hdll Hsh HA Hpa Hfs Hss.
  destruct (I_used HI Hx) as (pg0&r0&Hpg0&Hr0&Hu).
  rewrite Hpg in Hpg0. rewrite Hp in Hr0. injection Hpg0 as <-. injection Hr0 as <-. subst i'.
  pose proof (up_level _ _ _ _ _ _ _ Hu) as Hi.
  assert (in_bins A p x) as Hb by by exists d, i.
  assert (∀ d y, in_tier A' d p y ↔ in_tier A d p y) as Htier.
  { intros d' y. unfold in_tier. destruct (decide (y = x)) as [->|Hy]; [|by setoid_rewrite HA].
    split; intros (j&?&Hj).
    - destruct (bins_unique _ _ Hdll _ _ _ _ _ _ _ Hj Hx') as (->&_&->). eauto.
    - destruct (bins_unique _ _ (I_dll HI) _ _ _ _ _ _ _ Hj Hx) as (->&_&->). eauto. }
  pose proof Hpc as Hpc'. injection Hpc' as Q1 Q0 Q2 Q3 Q4 Q5. pose proof Hcore as Hcore'.
  injection Hcore' as E1 E2 E3 E4 E5 E6 E7 E8 E9 E10.
  eapply (inv_page s s' A A' R R W p r r' x pg pg'); try done.
  - unfold frame. congruence.
  - intros q Hq. by eapply (in_bins_unique _ _ (I_dll HI)).
  - right. exists d, (pg_hot pg'). split; [done|]. destruct Hu.
    split; rewrite ?E1, ?E2, ?E3, ?E4, ?E5, ?E6, ?E7, ?E8, ?E9, ?E10, ?Q1, ?Q2, ?Q3, ?Q4, ?Q5, ?Hpa;
      auto.
  - intros k y _. by rewrite Q4.
  - intros k y _. by rewrite Q5.
  - intros k y _. by rewrite Hpa.
  - intros k. rewrite Hpa. intros (_&pg0&Hpg0&?)%(I_pa HI). rewrite Hpg in Hpg0.
    injection Hpg0 as <-. rewrite E8. split; [|done]. exists d. apply Htier. by exists i.
  - eapply (proc_inv_same (u_pages s)); [by apply (I_proc HI)|done..|apply (I_dll HI)|done|done| | |].
    + intros d' y Hy. apply HA; [|done]. intros ->. by eapply (in_bins_free _ _ (I_dll HI)).
    + intros y pgy Hy. rewrite Hpages, lookup_insert. case_decide as Heq; [|eauto]. subst y.
      rewrite Hpg in Hy. injection Hy as <-. eauto.
    + intros y pgy. rewrite Hpages, lookup_insert. case_decide as Heq; [|eauto]. subst y.
      intros [= <-]. eauto.
Qed.

(** Only a process changes, outside its core. *)
Lemma inv_proc s s' A R W p r r' :
  ucm_inv s A R W → W = None ∨ W = Some p →
  u_procs s !! p = Some r → u_procs s' = <[p := r']> (u_procs s) →
  proc_core r' = proc_core r →
  (∀ sel, ring_of sel (pr_mm r') = ring_of sel (pr_mm r)) →
  (∀ d y, cur_cool d (pr_mm r') = Some y → in_tier A d p y) →
  (∀ d, 0 ≤ cur_cool_list d (pr_mm r') < NUM_HOTNESS_LEVELS) →
  u_pages s' = u_pages s → u_plist s' = u_plist s → u_pa_map s' = u_pa_map s →
  u_fastmem_size s' = u_fastmem_size s → u_slowmem_size s' = u_slowmem_size s →
  ucm_inv s' A R W.
Proof.
  intros HI HW Hp Hprocs Hpc Hring Hcur Hlist Hpages Hpl Hpa Hfs Hss.
  pose proof Hpc as Hpc'. injection Hpc' as Q1 Q0 Q2 Q3 Q4 Q5.
  eapply (inv_change s s' A A R R W p r r' ∅); rewrite ?Hpages, ?Hpl, ?Hpa, ?Q4, ?Q5; try done.
  - apply (I_dll HI).
  - intros x y pg pg'. apply (I_frames HI).
  - eapply (proc_inv_same (u_pages s)); [by apply (I_proc HI)|done..|apply (I_dll HI)|apply (I_dll HI)|done|done| |];
      eauto.
Qed.

(** The fields of a process that the invariant mentions, rings and cooling
    included. *)
Definition proc_view (r : hemem_process) :=
  (proc_core r, mm_hot_ring (pr_mm r), mm_cold_ring (pr_mm r), mm_free_page_ring (pr_mm r),
   mm_cur_cool_in_fastmem (pr_mm r), mm_cur_cool_in_slowmem (pr_mm r),
   mm_cur_cool_in_fastmem_list (pr_mm r), mm_cur_cool_in_slowmem_list (pr_mm r)).

Lemma inv_proc_view s s' A R W p r r' :
  ucm_inv s A R W → W = None ∨ W = Some p →
  u_procs s !! p = Some r → u_procs s' = <[p := r']> (u_procs s) → proc_view r' = proc_view r →
  u_pages s' = u_pages s → u_plist s' = u_plist s → u_pa_map s' = u_pa_map s →
  u_fastmem_size s' = u_fastmem_size s → u_slowmem_size s' = u_slowmem_size s →
  ucm_inv s' A R W.
Proof.
  intros HI HW Hp Hprocs Hv ?????. unfold proc_view in Hv. apply pair_eq in Hv as [Hv V7].
  apply pair_eq in Hv as [Hv V6]. apply pair_eq in Hv as [Hv V5]. apply pair_eq in Hv as [Hv V4].
  apply pair_eq in Hv as [Hv V3]. apply pair_eq in Hv as [Hv V2]. apply pair_eq in Hv as [Hv V1].
  pose proof (I_proc HI Hp) as Hproc. eapply (inv_proc s s' A R W p r r'); try done.
  - by intros [].
  - intros d y Hy. apply (pi_cur_cool _ _ _ _ _ _ Hproc). destruct d; simpl in *; congruence.
  - intros d. pose proof (pi_cur_cool_list _ _ _ _ _ _ Hproc d). destruct d; simpl in *; congruence.
Qed.

(** Nothing the invariant mentions changes. *)
Lemma inv_frame s s' A R W :
  ucm_inv s A R W → u_procs s' = u_procs s →
  u_pages s' = u_pages s → u_plist s' = u_plist s → u_pa_map s' = u_pa_map s →
  u_fastmem_size s' = u_fastmem_size s → u_slowmem_size s' = u_slowmem_size s →
  ucm_inv s' A R W.
Proof.
  intros [] E1 E2 E3 E4 E5 E6.
  split; unfold tier_size in *; rewrite ?E1, ?E2, ?E3, ?E4, ?E5, ?E6; auto.
Qed.

(** The byte counts do not overflow. *)
Lemma bin_count_range s A R W d p :
  ucm_inv s A R W → 0 ≤ bin_count A d p < MAX_PAGES.
Proof.
  intros HI. split; [unfold bin_count; lia|].
  eapply Z.le_lt_trans; [by eapply bin_count_bound, HI|].
  rewrite <- size_dom, (I_dom HI), size_dom. apply HI.
Qed.

Lemma bin_count_pos A d p x : in_tier A d p x → 1 ≤ bin_count A d p.
Proof.
  intros Hx%elem_of_bin_members. rewrite bin_count_members.
  destruct (bin_members A d p); [by apply not_elem_of_nil in Hx|]. simpl. lia.
Qed.

(** ** What draining and cooling leave alone *)
Definition rest (s : ucm) :=
  (u_pq s, u_proc_map s, u_remap_locked s, u_stats s, u_pebs_stats s, u_scan_epoch s,
   u_fastmem_size s, u_slowmem_size s, u_fastmem_ptr s, u_slowmem_ptr s, u_mem s, u_app s, u_ipc s).

Definition proc_keep (r : hemem_process) :=
  (pr_pid r, pr_uffd r, pr_exited r, pr_valid_uffd r, pr_remap_fd r, pr_zero r,
   pr_process_clock r, pr_phh r, pr_policy r, pr_stats r,
   mm_mem_allocated (pr_mm r), mm_max_fastmem (pr_mm r)).

(** Where a page is, and the address it backs. *)
Definition page_keep (pg : hemem_page) := (pg_in_dram pg, pg_devdax_offset pg, pg_pt pg, pg_va pg).

Definition pages_kept (m m' : gmap ptr hemem_page) : Prop :=
  ∀ x, page_keep <$> m' !! x = page_keep <$> m !! x.

Lemma pages_kept_insert (m : gmap ptr hemem_page) x pg pg' :
  m !! x = Some pg → page_keep pg' = page_keep pg → pages_kept m (<[x := pg']> m).
Proof.
  intros Hx Hk y. rewrite lookup_insert. case_decide as Hy; [|done]. subst y.
  rewrite Hx. simpl. by rewrite Hk.
Qed.

Definition kept (s s' : ucm) : Prop :=
  rest s' = rest s ∧ (∀ q, proc_keep <$> u_procs s' !! q = proc_keep <$> u_procs s !! q) ∧
  pages_kept (u_pages s) (u_pages s').

#[global] Instance kept_preorder : PreOrder kept.
Proof.
  split.
  - by intros s.
  - intros s1 s2 s3 (H1&K1&P1) (H2&K2&P2). split_and!; [congruence|..].
    + intros q. rewrite K2. apply K1.
    + intros x. rewrite P2. apply P1.
Qed.

Lemma kept_proc s s' p r :
  kept s s' → u_procs s !! p = Some r →
  ∃ r', u_procs s' !! p = Some r' ∧ proc_keep r' = proc_keep r.
Proof.
  intros (_&K&_) Hp. specialize (K p). rewrite Hp in K. destruct (u_procs s' !! p) as [r'|]; [|done].
  exists r'. split; [done|]. by apply (inj Some) in K.
Qed.

Lemma kept_upd s s' p r r' :
  rest s' = rest s → u_procs s !! p = Some r → u_procs s' = <[p := r']> (u_procs s) →
  proc_keep r' = proc_keep r → pages_kept (u_pages s) (u_pages s') → kept s s'.
Proof.
  intros Hrest Hp Hprocs Hk Hpg. split_and!; [done| |done]. intros q. rewrite Hprocs, lookup_insert.
  case_decide as Hq; [|done]. subst q. by rewrite Hp; simpl; rewrite Hk.
Qed.

Lemma kept_same s s' :
  rest s' = rest s → u_procs s' = u_procs s → pages_kept (u_pages s) (u_pages s') → kept s s'.
Proof. intros Hrest Hprocs Hpg. split_and!; [done| |done]. by rewrite Hprocs. Qed.

(** Every page is in the tier and with the process it was with. *)
Definition settled (A A' : list_id → list ptr) : Prop :=
  (∀ d q y, in_tier A' d q y ↔ in_tier A d q y) ∧
  (∀ d y, y ∈ A' (free_list d) ↔ y ∈ A (free_list d)).

#[global] Instance settled_preorder : PreOrder settled.
Proof.
  split.
  - by intros A.
  - intros A1 A2 A3 [H1 K1] [H2 K2]. split; intros; [by rewrite H2|by rewrite K2].
Qed.

Lemma settled_moved h h' A A' d p x new :
  dll_ok h A → dll_ok h' A' → in_tier A d p x → 0 ≤ new < NUM_HOTNESS_LEVELS →
  x ∈ A' (bin d p new) → (∀ y l, y ≠ x → y ∈ A' l ↔ y ∈ A l) → settled A A'.
Proof.
  intros Hdll Hdll' (i&Hi&Hx) Hnew Hx' HA. split.
  - intros d' q y. unfold in_tier. destruct (decide (y = x)) as [->|Hy]; [|by setoid_rewrite HA].
    split; intros (j&?&Hj).
    + destruct (bins_unique _ _ Hdll' _ _ _ _ _ _ _ Hj Hx') as (->&->&->). eauto.
    + destruct (bins_unique _ _ Hdll _ _ _ _ _ _ _ Hj Hx) as (->&->&->). eauto.
  - intros d' y. destruct (decide (y = x)) as [->|Hy]; [|by apply HA].
    split; intros Hf; exfalso.
    + exact (bin_free_disjoint _ _ Hdll' d d' p new x Hx' Hf).
    + exact (bin_free_disjoint _ _ Hdll d d' p i x Hx Hf).
Qed.

(** The pages [xs] of the process [p] went to the free list of their tier,
    every other page is where it was. *)
Definition released (xs : list ptr) (p : ptr) (A A' : list_id → list ptr) : Prop :=
  (∀ d q y, in_tier A' d q y ↔ in_tier A d q y ∧ y ∉ xs) ∧
  (∀ d y, y ∈ A' (free_list d) ↔ y ∈ A (free_list d) ∨ y ∈ xs ∧ in_tier A d p y).

Lemma released_nil p A A' : settled A A' → released [] p A A'.
Proof. intros [H1 H2]. split; intros; rewrite ?H1, ?H2; set_solver. Qed.

Lemma released_one h h' A A' d p x :
  dll_ok h A → dll_ok h' A' → in_tier A d p x → x ∈ A' (free_list d) →
  (∀ y l, y ≠ x → y ∈ A' l ↔ y ∈ A l) → released [x] p A A'.
Proof.
  intros Hdll Hdll' (i&Hi&Hx) Hx' HA. split; intros d' *; setoid_rewrite list_elem_of_singleton.
  - destruct (decide (y = x)) as [->|Hy].
    + split; [|naive_solver]. intros (j&_&Hj). by destruct (bin_free_disjoint _ _ Hdll' d' d q j x).
    + unfold in_tier. setoid_rewrite HA; naive_solver.
  - destruct (decide (y = x)) as [->|Hy]; [|rewrite HA by done; naive_solver].
    split; intros Hf.
    + right. split; [done|]. pose proof (dll_disjoint _ A' _ _ x Hdll' Hx' Hf) as ->%free_list_inj.
      by exists i.
    + destruct Hf as [Hf|[_ (j&_&Hj)]]; [by destruct (bin_free_disjoint _ _ Hdll d d' p i x)|].
      by destruct (bins_unique _ _ Hdll _ _ _ _ _ _ _ Hj Hx) as (->&_&_).
Qed.

Lemma released_cons x xs p A A1 A2 :
  x ∉ xs → released [x] p A A1 → released xs p A1 A2 → released (x :: xs) p A A2.
Proof.
  intros Hx [H1 K1] [H2 K2]. split; intros d *.
  - rewrite H2, H1. set_solver.
  - rewrite K2, K1, H1. set_solver.
Qed.

Lemma released_settled xs p A A1 A2 :
  released xs p A A1 → settled A1 A2 → released xs p A A2.
Proof. intros [H1 K1] [H2 K2]. split; intros; rewrite ?H2, ?K2; auto. Qed.
