(* ===== verification/UcmWp.v ===== *)
(** * Symbolic execution of the manager's code

    Rules for the accesses to pages, processes and page lists, and the tactic
    that applies them. *)

From S2P Require Import Prelude Fifo Ring F64 ProcList Types Hotness Mm MmAsync Inv.

Section rules.
Implicit Types s : ucm.

Lemma set_plist_same s : s <| u_plist := u_plist s |> = s.
Proof. by destruct s. Qed.

Lemma wp_page s x pg (Q : hemem_page → ucm → Prop) :
  u_pages s !! x = Some pg → Q pg s → wp (page x) Q s.
Proof. apply wp_deref. Qed.

Lemma wp_set_page s x f pg (Q : unit → ucm → Prop) :
  u_pages s !! x = Some pg → Q tt (s <| u_pages := <[x := f pg]> (u_pages s) |>) →
  wp (set_page x f) Q s.
Proof. apply wp_store. Qed.

Lemma wp_proc s p r (Q : hemem_process → ucm → Prop) :
  u_procs s !! p = Some r → Q r s → wp (proc p) Q s.
Proof. apply wp_deref. Qed.

Lemma wp_set_proc s p f r (Q : unit → ucm → Prop) :
  u_procs s !! p = Some r → Q tt (s <| u_procs := <[p := f r]> (u_procs s) |>) →
  wp (set_proc p f) Q s.
Proof. apply wp_store. Qed.

Lemma wp_set_mm s p f r (Q : unit → ucm → Prop) :
  u_procs s !! p = Some r →
  Q tt (s <| u_procs := <[p := r <| pr_mm ::= f |>]> (u_procs s) |>) →
  wp (set_mm p f) Q s.
Proof. apply wp_set_proc. Qed.

Lemma wp_list_of_page s x n (Q : option list_id → ucm → Prop) :
  links (u_plist s) !! x = Some n → Q (list_of n) s → wp (list_of_page x) Q s.
Proof.
  intros Hn HQ. unfold list_of_page. wp_step. wp_step. eapply wp_deref; [done|]. wp_step. by rewrite set_plist_same.
Qed.

Lemma wp_list_header s l q (Q : page_list → ucm → Prop) :
  headers (u_plist s) !! l = Some q → Q q s → wp (list_header l) Q s.
Proof. intros Hq HQ. unfold list_header. wp_step. eapply wp_deref; [done|]. by rewrite set_plist_same. Qed.

(** The list operations, on a heap that spells out [A]. *)
Section lists.
Context (A : list_id → list ptr).

Lemma wp_zoom_remove s l b x a (Q : unit → ucm → Prop) :
  dll_ok (u_plist s) A → is_Some (headers (u_plist s) !! l) → A l = b ++ x :: a →
  (∀ h, dll_ok h (<[l := b ++ a]> A) → same_shape (u_plist s) h →
     links h !! x = Some detached → Q tt (s <| u_plist := h |>)) →
  wp (zoom u_plist (page_list_remove l x)) Q s.
Proof.
  intros Hdll Hl HA HQ. wp_step. eapply wp_mono; [by eapply wp_page_list_remove|].
  intros [] h [Hok Hsh]. apply HQ; [done..|]. by eapply (dll_cut_detached (u_plist s)).
Qed.

Lemma wp_zoom_enqueue s l x (Q : unit → ucm → Prop) :
  dll_ok (u_plist s) A → is_Some (headers (u_plist s) !! l) →
  links (u_plist s) !! x = Some detached →
  (∀ h, dll_ok h (<[l := x :: A l]> A) → same_shape (u_plist s) h →
     Q tt (s <| u_plist := h |>)) →
  wp (zoom u_plist (enqueue_page l x)) Q s.
Proof.
  intros Hdll Hl HA HQ. wp_step. eapply wp_mono; [by eapply wp_enqueue_page|].
  intros [] h [Hok Hsh]. by apply HQ.
Qed.

Lemma wp_zoom_dequeue s l (Q : option ptr → ucm → Prop) :
  dll_ok (u_plist s) A → is_Some (headers (u_plist s) !! l) →
  (A l = [] → Q None s) →
  (∀ h b x, A l = b ++ [x] → dll_ok h (<[l := b]> A) → same_shape (u_plist s) h →
     links h !! x = Some detached → Q (Some x) (s <| u_plist := h |>)) →
  wp (zoom u_plist (dequeue_page l)) Q s.
Proof.
  intros Hdll Hl Hnone Hsome. wp_step. eapply wp_mono; [by eapply wp_dequeue_page|].
  intros [x|] h.
  - intros (b&HA&Hok&Hsh). eapply Hsome; [done..|].
    eapply (dll_cut_detached (u_plist s) h A l b x []); [done..| |done]. by rewrite app_nil_r.
  - intros [? ->]. rewrite set_plist_same. auto.
Qed.

Lemma wp_zoom_prev s l x (Q : option ptr → ucm → Prop) :
  dll_ok (u_plist s) A → is_Some (headers (u_plist s) !! l) →
  is_Some (links (u_plist s) !! x) →
  (∀ o, (∀ b a, A l = b ++ x :: a → o = last b) → (x ∉ A l → o = None) → Q o s) →
  wp (zoom u_plist (prev_page l (Some x))) Q s.
Proof.
  intros Hdll Hl Hx HQ. wp_step. eapply wp_mono.
  { apply (wp_prev_page _ A); [done..|]. by intros ? [= <-]. }
  intros o h [-> [Hin Hout]]. rewrite set_plist_same. auto.
Qed.

Lemma wp_zoom_next s l o (Q : option ptr → ucm → Prop) :
  dll_ok (u_plist s) A → is_Some (headers (u_plist s) !! l) →
  (∀ x, o = Some x → x ∈ A l) →
  (∀ o', match o with
         | None => o' = head (A l)
         | Some x => ∀ b a, A l = b ++ x :: a → o' = head a
         end → Q o' s) →
  wp (zoom u_plist (next_page l o)) Q s.
Proof.
  intros Hdll Hl Ho HQ. wp_step. eapply wp_mono.
  { apply (wp_next_page _ A); [done..|]. intros x Hx.
    destruct (dll_in _ A l x Hdll (Ho x Hx)) as (n&?&_). eauto. }
  intros o' h [-> Hr]. rewrite set_plist_same.
  apply HQ. destruct o; [by apply Hr|done].
Qed.
End lists.

(** What the invariant says about lists and places. *)
Lemma inv_bin_header s A R W d p i :
  ucm_inv s A R W → is_Some (u_procs s !! p) → 0 ≤ i ≤ NUM_HOTNESS_LEVELS →
  is_Some (headers (u_plist s) !! bin d p i).
Proof. intros HI Hp Hi. apply (I_header HI). destruct d; simpl; by rewrite elem_of_dom. Qed.

Lemma inv_free_header s A R W d : ucm_inv s A R W → is_Some (headers (u_plist s) !! free_list d).
Proof. intros HI. apply (I_header HI). by destruct d. Qed.

Lemma inv_links s A R W x pg :
  ucm_inv s A R W → u_pages s !! x = Some pg →
  ∃ l n, x ∈ A l ∧ links (u_plist s) !! x = Some n ∧ list_of n = Some l.
Proof.
  intros HI Hx. destruct (I_total HI (x:=x)) as [l Hl]; [eauto|].
  destruct (dll_in _ A l x (I_dll HI) Hl) as (n&?&?). eauto.
Qed.

Lemma inv_list_of s A R W x l :
  ucm_inv s A R W → x ∈ A l → ∃ n, links (u_plist s) !! x = Some n ∧ list_of n = Some l.
Proof. intros HI Hl. by apply (dll_in _ A l x (I_dll HI)). Qed.
End rules.

(** Look up what has just been stored. *)
Ltac lookup_done := solve [rec_simpl; simplify_map_eq; eauto].

(** One step; the lookups the step cannot do are left. *)
Ltac ucm_step :=
  lazymatch goal with
  | |- wp (page _) _ _ => eapply wp_page; [try lookup_done|]
  | |- wp (set_page _ _) _ _ => eapply wp_set_page; [try lookup_done|]
  | |- wp (proc _) _ _ => eapply wp_proc; [try lookup_done|]
  | |- wp (set_proc _ _) _ _ => eapply wp_set_proc; [try lookup_done|]
  | |- wp (set_mm _ _) _ _ => eapply wp_set_mm; [try lookup_done|]
  | |- wp (list_of_page _) _ _ => eapply wp_list_of_page; [try lookup_done|]
  | |- wp (list_header _) _ _ => eapply wp_list_header; [try lookup_done|]
  | |- _ => wp_step
  end.

(** Bring a chain of updates of the state into a normal form: one update per
    field, the pages innermost, then the processes, then the lists. *)
Ltac upd_merge :=
  match goal with
  | |- context [@upd ?R ?E ?f ?i ?g (@upd ?R ?E ?f ?i ?h ?s)] =>
      let H := fresh in
      assert (∀ r : R, @upd R E f i g (@upd R E f i h r) = @upd R E f i (λ v, g (h v)) r) as H
        by reflexivity;
      rewrite (H s); clear H; cbv beta
  end.
Ltac upd_swap R E f i g E' f' i' h s :=
  let H := fresh in
  assert (∀ r : R, @upd R E f i g (@upd R E' f' i' h r) = @upd R E' f' i' h (@upd R E f i g r)) as H
    by reflexivity;
  rewrite (H s); clear H.
Ltac upd_inward f :=
  match goal with
  | |- context [@upd ?R ?E f ?i ?g (@upd ?R ?E' ?f' ?i' ?h ?s)] =>
      assert_fails (constr_eq f f'); upd_swap R E f i g E' f' i' h s
  end.
Ltac upd_inward2 f f0 :=
  match goal with
  | |- context [@upd ?R ?E f ?i ?g (@upd ?R ?E' ?f' ?i' ?h ?s)] =>
      assert_fails (constr_eq f f'); assert_fails (constr_eq f0 f');
      upd_swap R E f i g E' f' i' h s
  end.
Ltac ucm_norm :=
  rec_simpl;
  repeat first [upd_merge | upd_inward u_pages | upd_inward2 u_procs u_pages];
  rewrite ?insert_insert_eq.
