(* ===== verification/AsyncOk.v ===== *)
(** * Draining and cooling keep the invariant

    Every operation of [MmAsync] fails none of its assertions on a state that
    satisfies [ucm_inv], and leads to such a state again. *)

From S2P Require Import Prelude Fifo Ring F64 ProcList Types Hotness Mm MmAsync Inv UcmWp.

(** The page [x] is in the list of level [new], nothing else has moved. *)
Definition rebinned (s : ucm) (A : list_id → list ptr) (R : ptr → ring_sel → list ptr)
    (W : option ptr) (x : ptr) (d : bool) (p : ptr) (new : Z) (s' : ucm) : Prop :=
  ∃ A' h pg, u_pages s !! x = Some pg ∧
    s' = s <| u_pages := <[x := pg <| pg_hot := new |>]> (u_pages s) |> <| u_plist := h |> ∧
    ucm_inv s' A' R W ∧ x ∈ A' (bin d p new) ∧ (∀ y l, y ≠ x → y ∈ A' l ↔ y ∈ A l) ∧ settled A A'.

Section make.
Context (s : ucm) (A : list_id → list ptr) (R : ptr → ring_sel → list ptr).
Context (W : option ptr) (HI : ucm_inv s A R W).
Context (p x : ptr) (HW : W = None ∨ W = Some p) (d : bool) (i new : Z) (pg : hemem_page) (r : hemem_process).
Context (Hx : x ∈ A (bin d p i)) (Hpg : u_pages s !! x = Some pg) (Hr : u_procs s !! p = Some r).
Context (Hnew : 0 ≤ new < NUM_HOTNESS_LEVELS).

Lemma used_here : used_page (u_pa_map s) d p i r x pg.
Proof using HI Hx Hpg Hr. destruct (I_used HI Hx) as (?&?&?&?&?). by simplify_eq. Qed.

(** [x] unlinked from [b ++ x :: a], the list [l], and put at the front of [l']. *)
Definition relisted (A : list_id → list ptr) (x : ptr) (l : list_id) (b a : list ptr) (l' : list_id) :
    list_id → list ptr :=
  <[l' := x :: (<[l := b ++ a]> A) l']> (<[l := b ++ a]> A).

(** The state after [x] has been unlinked and linked again at level [new]. *)
Lemma relisted_elem b a y l :
  A (bin d p i) = b ++ x :: a → y ≠ x → y ∈ relisted A x (bin d p i) b a (bin d p new) l ↔ y ∈ A l.
Proof using Type. intros HA Hy. unfold relisted. by rewrite elem_of_push, (elem_of_cut _ _ _ _ _ _ _ HA). Qed.

Lemma relisted_inv b a h :
  A (bin d p i) = b ++ x :: a → dll_ok h (relisted A x (bin d p i) b a (bin d p new)) → same_shape (u_plist s) h →
  ucm_inv (s <| u_pages := <[x := pg <| pg_hot := new |>]> (u_pages s) |> <| u_plist := h |>)
    (relisted A x (bin d p i) b a (bin d p new)) R W.
Proof using HI HW Hx Hpg Hr Hnew.
  intros HA Hdll Hsh. pose proof (λ y l, relisted_elem b a y l HA) as HA'.
  eapply (inv_used s _ A _ R W p r r x pg _ d i new); try done; eauto.
  - rec_simpl. by rewrite insert_id.
  - apply (I_proc HI Hr).
  - apply (I_proc HI Hr).
  - intros Hin. destruct (pi_requests _ _ _ _ _ _ (I_proc HI Hr) x Hin) as (_&?&?&?).
    by simplify_eq.
  - unfold relisted. by rewrite fn_lookup_insert, elem_of_cons; left.
Qed.

Lemma relisted_settled b a h :
  A (bin d p i) = b ++ x :: a → dll_ok h (relisted A x (bin d p i) b a (bin d p new)) →
  settled A (relisted A x (bin d p i) b a (bin d p new)).
Proof using HI Hx Hpg Hr Hnew.
  intros HA Hdll. eapply (settled_moved (u_plist s)); [apply HI|done| |done| |intros y l; by apply relisted_elem].
  - exists i. split; [apply used_here|done].
  - unfold relisted. by rewrite fn_lookup_insert, elem_of_cons; left.
Qed.

Lemma rebinned_intro b a h :
  A (bin d p i) = b ++ x :: a → dll_ok h (relisted A x (bin d p i) b a (bin d p new)) → same_shape (u_plist s) h →
  rebinned s A R W x d p new
    (s <| u_pages := <[x := pg <| pg_hot := new |>]> (u_pages s) |> <| u_plist := h |>).
Proof using HI HW Hx Hpg Hr Hnew.
  intros HA Hdll Hsh. eexists (relisted A x (bin d p i) b a (bin d p new)), h, pg.
  split_and!; [done|done|by apply relisted_inv| |intros y l; by apply relisted_elem|by eapply relisted_settled].
  unfold relisted. by rewrite fn_lookup_insert, elem_of_cons; left.
Qed.

(** Remove, set [hot], and enqueue, as [make_hot] and [make_cold] do. *)
Lemma wp_move :
  wp (zoom u_plist (page_list_remove (bin d p i) x);;
      set_page x (λ pg, pg <| pg_hot := new |>);;
      zoom u_plist (enqueue_page (bin d p new) x))
    (λ _ s', rebinned s A R W x d p new s') s.
Proof using HI HW Hx Hpg Hr Hnew.
  pose proof used_here as Hu. pose proof (up_level _ _ _ _ _ _ _ Hu) as Hi.
  pose proof Hx as (b&a&HA)%list_elem_of_split.
  wp_step. eapply wp_zoom_remove; [apply HI|eapply inv_bin_header; eauto; lia|done|].
  intros h1 Hdll1 Hsh1 Hdet. wp_step. ucm_step.
  eapply (wp_zoom_enqueue (<[bin d p i := b ++ a]> A)); [done| |done|].
  { rec_simpl. rewrite <- elem_of_dom, (proj2 Hsh1), elem_of_dom. eapply inv_bin_header; eauto; lia. }
  rec_simpl. intros h2 Hdll2 Hsh2. apply (rebinned_intro b a h2); [done..|]. by eapply same_shape_trans.
Qed.

(** Set [hot], remove, and enqueue, as cooling does. *)
Definition move_cool : M ucm unit :=
  set_page x (λ pg, pg <| pg_hot := new |>);;
  l ← list_of_page x;
  l ← nonnull l;
  zoom u_plist (page_list_remove l x);;
  zoom u_plist (enqueue_page (bin d p new) x).

Lemma wp_move_cool_at b a (Q : unit → ucm → Prop) :
  A (bin d p i) = b ++ x :: a →
  (∀ h, dll_ok h (relisted A x (bin d p i) b a (bin d p new)) → same_shape (u_plist s) h →
     Q tt (s <| u_pages := <[x := pg <| pg_hot := new |>]> (u_pages s) |> <| u_plist := h |>)) →
  wp move_cool Q s.
Proof using HI Hx Hpg Hr Hnew.
  intros HA HQ. pose proof used_here as Hu. pose proof (up_level _ _ _ _ _ _ _ Hu) as Hi.
  destruct (inv_list_of s A R W x _ HI Hx) as (n&Hn&Hl).
  unfold move_cool. do 4 ucm_step. do 2 ucm_step; [done|].
  wp_step. eapply (wp_zoom_remove A); [apply HI|eapply (inv_bin_header s); eauto; lia|done|].
  intros h1 Hdll1 Hsh1 Hdet.
  eapply (wp_zoom_enqueue (<[bin d p i := b ++ a]> A)); [done| |done|].
  { rec_simpl. rewrite <- elem_of_dom, (proj2 Hsh1), elem_of_dom. eapply (inv_bin_header s); eauto; lia. }
  rec_simpl. intros h2 Hdll2 Hsh2. apply HQ; [done|]. by eapply same_shape_trans.
Qed.

Lemma wp_move_cool : wp move_cool (λ _ s', rebinned s A R W x d p new s') s.
Proof using HI HW Hx Hpg Hr Hnew.
  pose proof Hx as (b&a&HA)%list_elem_of_split. eapply (wp_move_cool_at b a); [done|].
  intros h Hdll Hsh. by eapply rebinned_intro.
Qed.

Lemma rebinned_refl : pg_hot pg = new → rebinned s A R W x d p new s.
Proof using HI Hx Hpg Hr.
  intros Hhot. pose proof used_here as Hu. pose proof (up_hot _ _ _ _ _ _ _ Hu) as Hi.
  exists A, (u_plist s), pg. split_and!; [done| |done| |done|reflexivity].
  - rewrite <- Hhot. assert (pg <| pg_hot := pg_hot pg |> = pg) as -> by by destruct pg.
    rewrite insert_id by done. by destruct s.
  - rewrite <- Hhot, Hi. done.
Qed.

Lemma wp_make_hot : wp (make_hot p x new) (λ _ s', rebinned s A R W x d p new s') s.
Proof using HI HW Hx Hpg Hr Hnew.
  pose proof used_here as Hu. pose proof wp_move as Hmove.
  pose proof rebinned_refl as Hrefl.
  destruct (inv_list_of s A R W x _ HI Hx) as (n&Hn&Hl). destruct Hu. subst.
  unfold make_hot. wp_step. ucm_step. wp_step. ucm_step; [lia|].
  wp_step. ucm_step. wp_step. ucm_step; [lia|]. wp_step. ucm_step. rewrite Hl.
  destruct (Z.eqb_spec (pg_hot pg) new) as [Hhot|_].
  - ucm_step; [|by apply Hrefl]. apply bool_decide_eq_true. by rewrite <- Hhot.
  - wp_step. ucm_step; [by apply bool_decide_eq_true|]. done.
Qed.

Lemma wp_make_cold : wp (make_cold p x new) (λ _ s', rebinned s A R W x d p new s') s.
Proof using HI HW Hx Hpg Hr Hnew.
  pose proof used_here as Hu. pose proof wp_move as Hmove.
  pose proof rebinned_refl as Hrefl.
  destruct (inv_list_of s A R W x _ HI Hx) as (n&Hn&Hl). destruct Hu. subst.
  unfold make_cold. wp_step. ucm_step. wp_step. ucm_step; [lia|].
  wp_step. ucm_step. wp_step. ucm_step; [lia|]. wp_step. ucm_step. rewrite Hl.
  destruct (Z.eqb_spec (pg_hot pg) new) as [Hhot|_].
  - ucm_step; [|by apply Hrefl]. apply bool_decide_eq_true. by rewrite <- Hhot.
  - wp_step. ucm_step; [by apply bool_decide_eq_true|]. done.
Qed.
End make.

(** ** The cooling bookmark *)
Definition drop_bookmark (x : ptr) (mm : process_mem) : process_mem :=
  if decide (cur_cool true mm = Some x) then
    set_cur_cool_list true 0 (set_cur_cool true None mm)
  else if decide (cur_cool false mm = Some x) then
    set_cur_cool_list false 0 (set_cur_cool false None mm)
  else mm.

Section bookmark.
Context (x : ptr) (r : hemem_process).
Let r' : hemem_process := r <| pr_mm := drop_bookmark x (pr_mm r) |>.

Lemma drop_bookmark_core : proc_core r' = proc_core r.
Proof. unfold r', proc_core, drop_bookmark. rec_simpl. by repeat case_decide. Qed.
Lemma drop_bookmark_keep : proc_keep r' = proc_keep r.
Proof. unfold r', proc_keep, drop_bookmark. rec_simpl. by repeat case_decide. Qed.
Lemma drop_bookmark_ring sel : ring_of sel (pr_mm r') = ring_of sel (pr_mm r).
Proof. unfold r', drop_bookmark. rec_simpl. repeat case_decide; by destruct sel. Qed.
Lemma drop_bookmark_cur d :
  cur_cool d (pr_mm r') = cur_cool d (pr_mm r) ∨ cur_cool d (pr_mm r') = None.
Proof. unfold r', drop_bookmark. rec_simpl. repeat case_decide; destruct d; auto. Qed.
End bookmark.

Lemma drop_bookmark_list x mm d :
  (∀ d, 0 ≤ cur_cool_list d mm < NUM_HOTNESS_LEVELS) →
  0 ≤ cur_cool_list d (drop_bookmark x mm) < NUM_HOTNESS_LEVELS.
Proof.
  intros Hl. unfold drop_bookmark.
  repeat case_decide; destruct d; try done; first [apply (Hl true)|apply (Hl false)].
Qed.

(** After dropping [x], the bookmarks are the old ones other than [x]. *)
Lemma drop_bookmark_not x d mm y :
  (∀ d', cur_cool d' mm = Some x → d' = d) →
  ∀ d', cur_cool d' (drop_bookmark x mm) = Some y → y ≠ x ∧ cur_cool d' mm = Some y.
Proof.
  intros Hx d' Hy. assert (cur_cool d' mm = Some y) as Hy'.
  { revert Hy. unfold drop_bookmark. repeat case_decide; by destruct d'. }
  split; [|done]. intros ->. pose proof (Hx d' Hy') as ->. revert Hy. unfold drop_bookmark.
  repeat case_decide; destruct d; try done. by destruct (Hx true).
Qed.

Lemma wp_update_current_raw s p r x d n pg :
  u_pages s !! x = Some pg → u_procs s !! p = Some r → links (u_plist s) !! x = Some n →
  pg_pid pg = pr_pid r → pg_in_dram pg = d → list_of n = Some (bin d p (pg_hot pg)) →
  (∀ d', cur_cool d' (pr_mm r) = Some x → d' = d) →
  wp (update_current_cool_page p x) (λ _ s',
    s' = s <| u_procs := <[p := r <| pr_mm := drop_bookmark x (pr_mm r) |>]> (u_procs s) |>) s.
Proof.
  intros Hpg Hr Hn Hpid <- Hl Hcur.
  unfold update_current_cool_page, drop_bookmark.
  do 6 ucm_step. rewrite Hl. case_decide as Hc; [|case_decide as Hc'].
  - apply Hcur in Hc. rewrite <- Hc in *.
    do 2 ucm_step; [lia|]. do 2 ucm_step; [done|]. do 2 ucm_step; [by apply bool_decide_eq_true|].
    do 3 ucm_step. ucm_norm. done.
  - apply Hcur in Hc'. rewrite <- Hc' in *.
    do 2 ucm_step; [lia|]. do 2 ucm_step; [done|]. do 2 ucm_step; [by apply bool_decide_eq_true|].
    do 3 ucm_step. ucm_norm. done.
  - ucm_step. assert (r <| pr_mm := pr_mm r |> = r) as -> by by destruct r.
    rewrite insert_id by done. by destruct s.
Qed.

(** A bookmark is in the tier it belongs to. *)
Lemma bookmark_tier s A R W p r x d i :
  ucm_inv s A R W → u_procs s !! p = Some r → x ∈ A (bin d p i) →
  ∀ d', cur_cool d' (pr_mm r) = Some x → d' = d.
Proof.
  intros HI Hr Hx d' (j&_&Hj)%(pi_cur_cool _ _ _ _ _ _ (I_proc HI Hr)).
  by destruct (bins_unique _ _ (I_dll HI) _ _ _ _ _ _ _ Hj Hx) as (->&_&_).
Qed.

Lemma wp_update_current_cool_page s A R W p r x d i pg :
  ucm_inv s A R W → W = None ∨ W = Some p → x ∈ A (bin d p i) →
  u_pages s !! x = Some pg → u_procs s !! p = Some r →
  wp (update_current_cool_page p x) (λ _ s',
    s' = s <| u_procs := <[p := r <| pr_mm := drop_bookmark x (pr_mm r) |>]> (u_procs s) |> ∧
    ucm_inv s' A R W) s.
Proof.
  intros HI HW Hx Hpg Hr. pose proof (used_here s A R W HI p x d i pg r Hx Hpg Hr) as Hu.
  destruct (inv_list_of s A R W x _ HI Hx) as (n&Hn&Hl). destruct Hu. subst i.
  eapply wp_mono; [eapply wp_update_current_raw; [done..|]|].
  { by eapply bookmark_tier. }
  intros [] s' ->. split; [done|]. eapply (inv_proc s _ A R W p r); try done.
  - apply drop_bookmark_core.
  - apply drop_bookmark_ring.
  - intros d' y Hy. destruct (drop_bookmark_cur x r d') as [Heq|Heq]; rewrite Heq in Hy; [|done].
    by apply (pi_cur_cool _ _ _ _ _ _ (I_proc HI Hr)).
  - intros d'. apply drop_bookmark_list, (I_proc HI Hr).
Qed.

(** ** Hot and cold requests *)
Lemma rebinned_kept s A R W x d p new s' : rebinned s A R W x d p new s' → kept s s'.
Proof. intros (A'&h&pg&Hpg&->&_). apply kept_same; [done..|]. by eapply pages_kept_insert. Qed.

(** Clearing [ring_present] of a page that is in no request ring. *)
Lemma inv_clear_ring_present s A R W p r x d i pg :
  ucm_inv s A R W → W = None ∨ W = Some p → x ∈ A (bin d p i) →
  u_pages s !! x = Some pg → u_procs s !! p = Some r →
  x ∉ R p HotRing ++ R p ColdRing →
  ucm_inv (s <| u_pages := <[x := pg <| pg_ring_present := false |>]> (u_pages s) |>) A R W.
Proof.
  intros HI HW Hx Hpg Hr Hnin. pose proof (used_here s A R W HI p x d i pg r Hx Hpg Hr) as Hu.
  pose proof (up_level _ _ _ _ _ _ _ Hu). pose proof (up_hot _ _ _ _ _ _ _ Hu).
  eapply (inv_used s _ A A R W p r r x pg _ d i i); try done; eauto.
  - rec_simpl. by rewrite insert_id.
  - apply (I_proc HI Hr).
  - apply (I_proc HI Hr).
  - apply HI.
Qed.

Section request.
Context (s : ucm) (A : list_id → list ptr) (R : ptr → ring_sel → list ptr) (W : option ptr).
Context (HI : ucm_inv s A R W) (p x : ptr) (HW : W = None ∨ W = Some p).
Context (r : hemem_process) (Hr : u_procs s !! p = Some r).
Context (Hx : in_bins A p x ∨ W = Some p ∧ ∃ d, x ∈ A (free_list d)).
Context (Hnin : x ∉ R p HotRing ++ R p ColdRing).

Definition served (s' : ucm) : Prop := ∃ A', ucm_inv s' A' R W ∧ kept s s' ∧ settled A A'.

(** The request of a page that has been freed meanwhile. *)
Lemma wp_freed d pg (Q : unit → ucm → Prop) :
  x ∈ A (free_list d) → u_pages s !! x = Some pg → Q tt s → wp (assert_page_freed x) Q s.
Proof using HI.
  intros Hd Hpg HQ. destruct (I_free HI Hd) as (?&?&[]). simplify_eq.
  destruct (inv_list_of s A R W x _ HI Hd) as (n&Hn&Hl).
  unfold assert_page_freed. do 4 ucm_step; [by rewrite fp_present|].
  do 2 ucm_step. rewrite Hl. destruct (pg_in_dram pg) eqn:?; simpl in *; ucm_step; try done;
    by apply bool_decide_eq_true.
Qed.

(** The request of a page that is still there: from the moment the cooling
    bookmark is updated. *)
Lemma wp_serve (make : M ucm unit) new d i pg sel :
  x ∈ A (bin d p i) → u_pages s !! x = Some pg →
  (∀ s' pg', ucm_inv s' A R W → u_pages s' !! x = Some pg' → (∃ r', u_procs s' !! p = Some r') →
     wp make (λ _ s'', rebinned s' A R W x d p new s'') s') →
  wp (update_current_cool_page p x;;
      set_page x (λ pg, pg <| pg_ring_present := false |>);;
      make;;
      count_handled sel;;
      mret true) (λ _ s', served s') s.
Proof using HI HW Hr Hnin.
  intros Hb Hpg Hmake. wp_step. eapply wp_mono; [by eapply wp_update_current_cool_page|].
  intros [] s1 [-> HI1]. do 2 ucm_step. rec_simpl.
  eapply (inv_clear_ring_present _ A R W p) in HI1; [|done..| |done]; [|rec_simpl; by simplify_map_eq].
  wp_step. eapply wp_mono; [eapply Hmake; [done|rec_simpl; by simplify_map_eq|]|].
  { eexists. rec_simpl. by simplify_map_eq. }
  intros [] s2 Hre. pose proof (rebinned_kept _ _ _ _ _ _ _ _ _ Hre) as Hk.
  destruct Hre as (A'&h&pg'&_&->&HI2&_&_&Hset). unfold count_handled. do 3 ucm_step.
  exists A'. split_and!; [| |done].
  - by eapply inv_frame.
  - etransitivity; [|etransitivity; [exact Hk|]].
    + eapply kept_upd; [done|done|done|apply drop_bookmark_keep|]. by eapply pages_kept_insert.
    + by apply kept_same.
Qed.

Lemma wp_hot_one : wp (hot_one p x) (λ _ s', served s') s.
Proof using HI HW Hr Hx Hnin.
  unfold hot_one. destruct Hx as [(d&i&_&Hb)|[HW' (d&Hd)]].
  - destruct (I_used HI Hb) as (pg&?&Hpg&?&[]). simplify_eq. do 2 ucm_step. rewrite up_present. simpl.
    do 4 ucm_step; [lia|]. wp_if Hif; (eapply wp_serve; [done..|]); intros s' pg' HI' Hpg' [r' Hr'];
      [eapply wp_make_cold|eapply wp_make_hot]; eauto with nemo.
  - destruct (I_free HI Hd) as (pg&Hpg&[]). do 2 ucm_step. rewrite fp_present. simpl.
    wp_step. eapply wp_freed; [done..|]. unfold count_handled. do 3 ucm_step.
    exists A. split_and!; [by eapply inv_frame|by apply kept_same|reflexivity].
Qed.

Lemma wp_cold_one : wp (cold_one p x) (λ _ s', served s') s.
Proof using HI HW Hr Hx Hnin.
  unfold cold_one. destruct Hx as [(d&i&_&Hb)|[HW' (d&Hd)]].
  - destruct (I_used HI Hb) as (pg&?&Hpg&?&[]). simplify_eq. do 2 ucm_step. rewrite up_present. simpl.
    do 4 ucm_step; [lia|]. wp_if Hif; (eapply wp_serve; [done..|]); intros s' pg' HI' Hpg' [r' Hr'];
      [eapply wp_make_hot|eapply wp_make_cold]; eauto with nemo.
  - destruct (I_free HI Hd) as (pg&Hpg&[]). do 2 ucm_step. rewrite fp_present. simpl.
    wp_step. eapply wp_freed; [done..|]. unfold count_handled. do 3 ucm_step.
    exists A. split_and!; [by eapply inv_frame|by apply kept_same|reflexivity].
Qed.
End request.

(** ** Draining a request ring *)
Definition pop_ring (R : ptr → ring_sel → list ptr) (p : ptr) (sel : ring_sel)
    (xs : list ptr) : ptr → ring_sel → list ptr :=
  <[p := <[sel := xs]> (R p)]> R.

Lemma pop_ring_eq R p sel xs : pop_ring R p sel xs p sel = xs.
Proof. unfold pop_ring. by rewrite !fn_lookup_insert. Qed.
Lemma pop_ring_sel R p sel sel' xs : sel ≠ sel' → pop_ring R p sel xs p sel' = R p sel'.
Proof. intros. unfold pop_ring. by rewrite fn_lookup_insert, fn_lookup_insert_ne. Qed.
Lemma pop_ring_ne R p q sel xs : q ≠ p → pop_ring R p sel xs q = R q.
Proof. intros. unfold pop_ring. by rewrite fn_lookup_insert_ne. Qed.

Lemma set_ring_same sel q mm : ring_of sel (set_ring sel q mm) = q.
Proof. by destruct sel. Qed.
Lemma set_ring_other sel sel' q mm : sel ≠ sel' → ring_of sel' (set_ring sel q mm) = ring_of sel' mm.
Proof. by destruct sel, sel'. Qed.

(** A request ring gives up its oldest entry. *)
Lemma proc_inv_pop pages A R W p r sel x xs q :
  sel ≠ FreeRing → proc_inv pages A R W p r → R p sel = x :: xs →
  ring_ok q xs → capacity q = CAPACITY →
  proc_inv pages A (pop_ring R p sel xs) W p (r <| pr_mm ::= set_ring sel q |>) ∧
  x ∉ pop_ring R p sel xs p HotRing ++ pop_ring R p sel xs p ColdRing.
Proof.
  intros Hsel [] HR Hq Hcap.
  assert (R p HotRing ++ R p ColdRing ≡ₚ
    x :: (pop_ring R p sel xs p HotRing ++ pop_ring R p sel xs p ColdRing)) as Hperm.
  { destruct sel; [|..|done]; rewrite pop_ring_eq, pop_ring_sel, HR by done; [done|].
    by rewrite <- Permutation_middle. }
  assert (NoDup (x :: (pop_ring R p sel xs p HotRing ++ pop_ring R p sel xs p ColdRing))) as Hnd
    by by rewrite <- Hperm.
  apply NoDup_cons in Hnd as [Hx Hnd]. split; [|done].
  split; try (destruct sel; done).
  - intros sel'. rec_simpl. destruct (decide (sel = sel')) as [<-|].
    + by rewrite set_ring_same, pop_ring_eq.
    + rewrite set_ring_other, pop_ring_sel by done. auto.
  - intros y. rewrite pop_ring_sel by done. auto.
  - by rewrite pop_ring_sel.
  - intros y Hy. apply pi_requests. rewrite Hperm. set_solver.
Qed.

Lemma wp_ring_get s A R W p r sel x xs :
  sel ≠ FreeRing → ucm_inv s A R W → W = None ∨ W = Some p →
  u_procs s !! p = Some r → R p sel = x :: xs →
  wp (ring_get sel p) (λ o s', o = Some x ∧ kept s s' ∧
    ucm_inv s' A (pop_ring R p sel xs) W ∧
    x ∉ pop_ring R p sel xs p HotRing ++ pop_ring R p sel xs p ColdRing) s.
Proof.
  intros Hsel HI HW Hr HR. pose proof (I_proc HI Hr) as Hproc.
  destruct (pi_ring _ _ _ _ _ _ Hproc sel) as [Hring Hcap].
  pose proof (ring_buf_get_spec _ _ Hring) as Hget. rewrite HR in Hget.
  destruct Hget as (q&Hget&Hq).
  assert (capacity q = CAPACITY) as Hcapq.
  { rewrite <- Hcap. by eapply ring_buf_get_capacity. }
  destruct (proc_inv_pop _ _ _ _ _ _ _ _ _ _ Hsel Hproc HR Hq Hcapq) as [Hproc' Hx].
  unfold ring_get. do 2 ucm_step. rewrite Hget. do 3 ucm_step. split_and!; [done|..|done].
  - eapply kept_upd; [done|done|done| |done]. by destruct sel.
  - eapply (inv_change s _ A A R _ W p r _ ∅); try done; try (rec_simpl; by destruct sel).
    + apply HI.
    + intros y z pg pg'. apply (I_frames HI).
    + intros q' Hq'. by apply pop_ring_ne.
Qed.

(** The other rings are as before, the ring [sel] of [p] is empty. *)
Definition drained (sel : ring_sel) (p : ptr) (R R' : ptr → ring_sel → list ptr) : Prop :=
  R' p sel = [] ∧ (∀ sel', sel ≠ sel' → R' p sel' = R p sel') ∧ (∀ q, q ≠ p → R' q = R q).

(** The rings are shorter than a drain's limit: they hold distinct pages. *)
Lemma ring_short s A R W p r sel :
  ucm_inv s A R W → u_procs s !! p = Some r → Z.of_nat (length (R p sel)) < MAX_PAGES.
Proof.
  intros HI Hr. pose proof (I_proc HI Hr) as Hproc. pose proof (I_size HI) as Hsz.
  assert (NoDup (R p sel) ∧ ∀ x, x ∈ R p sel → is_Some (u_pages s !! x)) as [Hnd Hin].
  { destruct Hproc. rewrite NoDup_app in pi_requests_nodup. destruct sel.
    - split; [naive_solver|]. intros x Hx. destruct (pi_requests x) as (_&?&?&_); [set_solver|eauto].
    - split; [naive_solver|]. intros x Hx. destruct (pi_requests x) as (_&?&?&_); [set_solver|eauto].
    - split; [done|]. intros x (_&?&?&_)%pi_free_ring. eauto. }
  eapply Z.le_lt_trans; [apply inj_le|exact Hsz].
  rewrite <- size_dom, <- (size_list_to_set (C:=gset ptr) (R p sel)) by done.
  apply subseteq_size. intros x. rewrite elem_of_list_to_set, elem_of_dom. apply Hin.
Qed.

Section drain.
Context (one : ptr → ptr → M ucm bool) (sel : ring_sel) (threshold : Z) (W : option ptr) (p : ptr).
Context (Hsel : sel ≠ FreeRing) (HW : W = None ∨ W = Some p).
Context (Hone : ∀ s A R r x, ucm_inv s A R W → u_procs s !! p = Some r →
  in_bins A p x ∨ W = Some p ∧ (∃ d, x ∈ A (free_list d)) →
  x ∉ R p HotRing ++ R p ColdRing →
  wp (one p x) (λ _ s', served s A R W s') s).

Lemma wp_drain_loop xs : ∀ s A R n fuel,
  ucm_inv s A R W → is_Some (u_procs s !! p) → R p sel = xs →
  (length xs < fuel)%nat → n + Z.of_nat (length xs) ≤ threshold →
  wp (loop fuel (λ num_ring_reqs : Z,
        r ← proc p;
        if ring_buf_empty (ring_of sel (pr_mm r)) || (threshold <=? num_ring_reqs)
        then mret (inr tt)
        else
          o ← ring_get sel p;
          match o with
          | None => mret (inr tt)
          | Some x =>
              b ← one p x;
              mret (inl (if b : bool then num_ring_reqs + 1 else num_ring_reqs))
          end) n)
    (λ _ s', ∃ A' R', ucm_inv s' A' R' W ∧ kept s s' ∧ drained sel p R R' ∧ settled A A') s.
Proof using Hsel HW Hone.
  induction xs as [|x xs IH]; intros s A R n fuel HI [r Hr] HR Hfuel Hn;
    (destruct fuel as [|fuel]; [simpl in Hfuel; lia|]); simpl;
    destruct (pi_ring _ _ _ _ _ _ (I_proc HI Hr) sel) as [Hring _].
  - do 3 ucm_step. rewrite (ring_buf_empty_spec _ _ Hring), HR. simpl. do 2 wp_step.
    exists A, R. split_and!; [done|reflexivity|done|reflexivity].
  - do 3 ucm_step. rewrite (ring_buf_empty_spec _ _ Hring), HR. simpl in Hn, Hfuel.
    rewrite bool_decide_eq_false_2 by done. rewrite (proj2 (Z.leb_gt _ _)) by lia. simpl.
    wp_step. eapply wp_mono; [by eapply wp_ring_get|]. intros o s1 (->&Hk1&HI1&Hx1).
    destruct (kept_proc _ _ _ _ Hk1 Hr) as (r1&Hr1&_).
    wp_step. eapply wp_mono; [eapply Hone; [done|done| |done]|].
    { destruct (pi_requests _ _ _ _ _ _ (I_proc HI Hr) x) as [? _]; [|done].
      destruct sel; [|..|done]; rewrite HR; set_solver. }
    intros b s2 (A2&HI2&Hk2&Hset2). wp_step. cbv beta iota.
    destruct (kept_proc _ _ _ _ Hk2 Hr1) as (r2&Hr2&_).
    eapply wp_mono; [eapply (IH s2 A2 _ _ fuel HI2)|].
    + eauto.
    + apply pop_ring_eq.
    + lia.
    + destruct b; lia.
    + intros [] s3 (A3&R3&HI3&Hk3&(He&Hs&Hq)&Hset3). exists A3, R3. split_and!; [done| | |].
      { by rewrite Hk1, Hk2. }
      2: { by rewrite Hset2. }
      split_and!; [done|..].
      * intros sel' Hs'. by rewrite Hs, pop_ring_sel.
      * intros q Hq'. by rewrite Hq, pop_ring_ne.
Qed.

Lemma wp_drain_ring s A R :
  ucm_inv s A R W → is_Some (u_procs s !! p) → MAX_PAGES ≤ threshold →
  wp (drain_ring sel threshold one p)
    (λ _ s', ∃ A' R', ucm_inv s' A' R' W ∧ kept s s' ∧ drained sel p R R' ∧ settled A A') s.
Proof using Hsel HW Hone.
  intros HI [r Hr] Hth. pose proof (ring_short s A R W p r sel HI Hr) as Hlen.
  destruct (pi_ring _ _ _ _ _ _ (I_proc HI Hr) sel) as [Hring _].
  unfold drain_ring, ring_fuel. do 4 ucm_step.
  eapply wp_drain_loop; [done|eauto|done| |lia].
  rewrite (ring_buf_size_spec _ _ Hring). case_match; lia.
Qed.
End drain.

Lemma wp_handle_hot_requests s A R W p :
  ucm_inv s A R W → W = None ∨ W = Some p → is_Some (u_procs s !! p) →
  wp (handle_hot_requests p)
    (λ _ s', ∃ A' R', ucm_inv s' A' R' W ∧ kept s s' ∧ drained HotRing p R R' ∧ settled A A') s.
Proof.
  intros HI HW Hp. eapply wp_drain_ring; [done|done| |done|done|done].
  intros. by eapply wp_hot_one.
Qed.

Lemma wp_handle_cold_requests s A R W p :
  ucm_inv s A R W → W = None ∨ W = Some p → is_Some (u_procs s !! p) →
  wp (handle_cold_requests p)
    (λ _ s', ∃ A' R', ucm_inv s' A' R' W ∧ kept s s' ∧ drained ColdRing p R R' ∧ settled A A') s.
Proof.
  intros HI HW Hp. eapply wp_drain_ring; [done|done| |done|done|done].
  intros. by eapply wp_cold_one.
Qed.

(** ** Freeing *)

(** The process after its page [x] has gone from the tier [d] to a free list. *)
Lemma proc_inv_freed pages h h' A A' R p r r' x xs d pg pg' :
  proc_inv pages A R (Some p) p r → dll_ok h A → dll_ok h' A' →
  in_tier A d p x → x ∈ A' (free_list d) → (∀ y l, y ≠ x → y ∈ A' l ↔ y ∈ A l) →
  pages !! x = Some pg → pg_hh pg = None → pg_hh_pa pg = None →
  pg_ring_present pg' = pg_ring_present pg →
  R p FreeRing = x :: xs →
  pr_pid r' = pr_pid r → mm_pages (pr_mm r') = mm_pages (pr_mm r) →
  mm_cxl_offset_to_page (pr_mm r') = mm_cxl_offset_to_page (pr_mm r) →
  (is_Some (pr_phh r') →
    mm_current_fastmem (pr_mm r') = HUGEPAGE_SIZE * (bin_count A true p - (if d then 1 else 0))) →
  (is_Some (pr_phh r') →
    mm_current_slowmem (pr_mm r') = HUGEPAGE_SIZE * (bin_count A false p - (if d then 0 else 1))) →
  ring_ok (ring_of FreeRing (pr_mm r')) xs → capacity (ring_of FreeRing (pr_mm r')) = CAPACITY →
  (∀ sel, FreeRing ≠ sel → ring_of sel (pr_mm r') = ring_of sel (pr_mm r)) →
  (∀ d' y, cur_cool d' (pr_mm r') = Some y → y ≠ x ∧ cur_cool d' (pr_mm r) = Some y) →
  (∀ d, 0 ≤ cur_cool_list d (pr_mm r') < NUM_HOTNESS_LEVELS) →
  proc_inv (<[x := pg']> pages) A' (pop_ring R p FreeRing xs) (Some p) p r'.
Proof.
  intros [] Hdll Hdll' Hx Hxf HA Hpg Hhh Hhhpa Hrp HR E1 E2 E3 E4 E5 Hq Hcap Hring Hcur Hlist.
  assert (∀ d' y, in_tier A' d' p y ↔ y ≠ x ∧ in_tier A d' p y) as Htier.
  { intros d' y. unfold in_tier. destruct (decide (y = x)) as [->|Hy].
    - split; [|naive_solver]. intros (i&?&Hi). by destruct (bin_free_disjoint _ _ Hdll' d' d p i x).
    - setoid_rewrite HA; [naive_solver|done]. }
  assert (∀ y, in_bins A' p y ↔ y ≠ x ∧ in_bins A p y) as Hbins.
  { intros y. unfold in_bins. setoid_rewrite Htier. naive_solver. }
  assert (∀ d', bin_count A' d' p = bin_count A d' p - (if Bool.eqb d' d then 1 else 0)) as Hcount.
  { intros d'. destruct (Bool.eqb_spec d' d) as [->|Hd].
    - rewrite (bin_count_add h' h A' A d p x); [lia|done..| |].
      + rewrite Htier. naive_solver.
      + intros y. rewrite Htier. destruct (decide (y = x)); naive_solver.
    - rewrite (bin_count_same h h' A A'); [lia|done..|]. intros y. rewrite Htier.
      split; [naive_solver|]. intros Hy. split; [|done]. intros ->. apply Hd.
      destruct Hx as (i&_&Hi), Hy as (j&_&Hj). by destruct (bins_unique _ _ Hdll _ _ _ _ _ _ _ Hj Hi) as (->&_). }
  rewrite HR in *. apply NoDup_cons in pi_free_nodup as [Hxs Hnd].
  split; rewrite ?E1, ?E2, ?E3, ?Hcount; auto.
  - intros Hh. rewrite E4 by done. by destruct d.
  - intros Hh. rewrite E5 by done. by destruct d.
  - intros k y Hy. destruct (pi_pages k y Hy) as [? (pgy&?&?)].
    assert (y ≠ x) by (intros ->; congruence). rewrite Hbins, lookup_insert_ne by done. eauto.
  - intros k y Hy. destruct (pi_cxl k y Hy) as [? (pgy&?&?)].
    assert (y ≠ x) by (intros ->; congruence). rewrite Hbins, lookup_insert_ne by done. eauto.
  - intros sel. destruct (decide (FreeRing = sel)) as [<-|Hsel].
    + by rewrite pop_ring_eq.
    + rewrite pop_ring_sel, Hring by done. auto.
  - intros y. rewrite pop_ring_eq, Hbins. specialize (pi_free_ring y). rewrite elem_of_cons in pi_free_ring.
    destruct (decide (y = x)) as [->|Hy]; [naive_solver|]. rewrite lookup_insert_ne by done. naive_solver.
  - by rewrite pop_ring_eq.
  - intros y. rewrite !pop_ring_sel by done. intros Hy. rewrite Hbins.
    destruct (pi_requests y Hy) as [Hpl (pgy&Hpgy&?)].
    destruct (decide (y = x)) as [->|Hyx].
    + split; [eauto|]. rewrite lookup_insert_eq. eexists. split; [done|]. congruence.
    + rewrite lookup_insert_ne by done. split; [|eauto].
      destruct Hpl as [?|[? (d'&Hd')]]; [by left|]. right. split; [done|]. exists d'. by apply HA.
  - by rewrite !pop_ring_sel.
  - intros d' y Hy. destruct (Hcur d' y Hy) as [? Hy']. apply Htier. auto.
Qed.

Definition freed_page (pg : hemem_page) : hemem_page :=
  pg <| pg_present := false |> <| pg_pid := -1 |> <| pg_hot := COLD |>
     <| pg_accesses := Tiered 0 0 |> <| pg_tot_accesses := Tiered 0 0 |>
     <| pg_in_free_ring := false |>.

(** Take [n] bytes off the tier [d] of a process. *)
Definition uncharge (d : bool) (n : Z) (mm : process_mem) : process_mem :=
  if d then mm <| mm_current_fastmem ::= λ m, u64 (m - n) |>
  else mm <| mm_current_slowmem ::= λ m, u64 (m - n) |>.

Lemma uncharge_count mm (d : bool) c0 c1 x :
  mm_current_fastmem mm = HUGEPAGE_SIZE * c0 → mm_current_slowmem mm = HUGEPAGE_SIZE * c1 →
  0 ≤ c0 < MAX_PAGES → 0 ≤ c1 < MAX_PAGES → 1 ≤ (if d then c0 else c1) →
  mm_current_fastmem (uncharge d HUGEPAGE_SIZE (drop_bookmark x mm)) =
    HUGEPAGE_SIZE * (c0 - (if d then 1 else 0)) ∧
  mm_current_slowmem (uncharge d HUGEPAGE_SIZE (drop_bookmark x mm)) =
    HUGEPAGE_SIZE * (c1 - (if d then 0 else 1)).
Proof.
  intros H0 H1 B0 B1 Hd.
  assert (mm_current_fastmem (drop_bookmark x mm) = HUGEPAGE_SIZE * c0 ∧
    mm_current_slowmem (drop_bookmark x mm) = HUGEPAGE_SIZE * c1) as [E0 E1].
  { unfold drop_bookmark. by repeat case_decide. }
  unfold uncharge. unfold MAX_PAGES, HUGEPAGE_SIZE in *.
  destruct d; rec_simpl; rewrite ?E0, ?E1, ?u64_small by lia; lia.
Qed.

Lemma wp_return_free s A d x pg p r n (Q : unit → ucm → Prop) :
  u_pages s !! x = Some pg → pg_present pg = false → u_procs s !! p = Some r →
  dll_ok (u_plist s) A → is_Some (headers (u_plist s) !! free_list d) →
  links (u_plist s) !! x = Some detached →
  (∀ h, dll_ok h (<[free_list d := x :: A (free_list d)]> A) → same_shape (u_plist s) h →
     Q tt (s <| u_plist := h |> <| u_procs := <[p := r <| pr_mm ::= uncharge d n |>]> (u_procs s) |>)) →
  wp (if d then
        return_free_fastmem_page x;;
        set_mm p (λ mm, mm <| mm_current_fastmem ::= λ m, u64 (m - n) |>)
      else
        return_free_slowmem_page x;;
        set_mm p (λ mm, mm <| mm_current_slowmem ::= λ m, u64 (m - n) |>)) Q s.
Proof.
  intros Hpg Hpres Hr Hdll Hhd Hdet HQ. destruct d; wp_step;
    [unfold return_free_fastmem_page|unfold return_free_slowmem_page];
    do 4 ucm_step; try (by rewrite Hpres);
    (eapply wp_zoom_enqueue; [done..|]); intros h Hh Hsh; ucm_step; by apply HQ.
Qed.

Section free.
Context (s : ucm) (A : list_id → list ptr) (R : ptr → ring_sel → list ptr) (p x : ptr).
Context (HI : ucm_inv s A R (Some p)) (r : hemem_process) (Hr : u_procs s !! p = Some r).
Context (xs : list ptr) (HR : R p FreeRing = x :: xs).

(** The state after the page [x] has been returned to a free list. *)
Lemma inv_freed s' A' d i pg q :
  x ∈ A (bin d p i) → u_pages s !! x = Some pg → pg_in_free_ring pg = true →
  ring_ok q xs → capacity q = CAPACITY →
  u_pages s' = <[x := freed_page pg]> (u_pages s) →
  u_procs s' = <[p := r <| pr_mm := uncharge d HUGEPAGE_SIZE
    (drop_bookmark x (set_ring FreeRing q (pr_mm r))) |>]> (u_procs s) →
  dll_ok (u_plist s') A' → same_shape (u_plist s) (u_plist s') →
  x ∈ A' (free_list d) → (∀ y l, y ≠ x → y ∈ A' l ↔ y ∈ A l) →
  u_pa_map s' = u_pa_map s →
  u_fastmem_size s' = u_fastmem_size s → u_slowmem_size s' = u_slowmem_size s →
  ucm_inv s' A' (pop_ring R p FreeRing xs) (Some p).
Proof using HI Hr HR.
  intros Hx Hpg Hfree Hq Hcap Hpages Hprocs Hdll Hsh Hxf HA Hpa Hfs Hss.
  pose proof (used_here s A R _ HI p x d i pg r Hx Hpg Hr) as Hu.
  pose proof (up_hh _ _ _ _ _ _ _ Hu) as Hhh. rewrite Hfree in Hhh.
  pose proof (up_hh_pa _ _ _ _ _ _ _ Hu) as Hhhpa. rewrite Hfree in Hhhpa. simpl in Hhhpa.
  pose proof (up_entry _ _ _ _ _ _ _ Hu) as Hentry. rewrite Hhhpa in Hentry.
  pose proof (up_level _ _ _ _ _ _ _ Hu) as Hi.
  assert (in_tier A d p x) as Htier by by exists i.
  pose proof (I_proc HI Hr) as Hproc. pose proof (bookmark_tier s A R _ p r x d i HI Hr Hx) as Hbm.
  set (mm := set_ring FreeRing q (pr_mm r)) in *.
  set (r' := r <| pr_mm := uncharge d HUGEPAGE_SIZE (drop_bookmark x mm) |>) in *.
  assert (mm_pages (pr_mm r') = mm_pages (pr_mm r) ∧
    mm_cxl_offset_to_page (pr_mm r') = mm_cxl_offset_to_page (pr_mm r)) as [Q1 Q2].
  { unfold r', mm, uncharge, drop_bookmark. by destruct d; repeat case_decide. }
  assert (is_Some (pr_phh r') →
    mm_current_fastmem (pr_mm r') = HUGEPAGE_SIZE * (bin_count A true p - (if d then 1 else 0)) ∧
    mm_current_slowmem (pr_mm r') = HUGEPAGE_SIZE * (bin_count A false p - (if d then 0 else 1))) as Hcount.
  { intros Hh. apply (uncharge_count mm d _ _ x); [by apply Hproc|by apply Hproc|by eapply bin_count_range..|].
    pose proof (bin_count_pos A d p x Htier). by destruct d. }
  eapply (inv_page s s' A A' R _ (Some p) p r r' x pg (freed_page pg)); try done.
  - by right.
  - intros q' Hq'. eapply (in_bins_unique _ _ (I_dll HI)); [done|by exists d].
  - left. exists d. split; [done|]. split; try done. apply Hu.
  - intros k y _. by rewrite Q1.
  - intros k y _. by rewrite Q2.
  - intros k y _. by rewrite Hpa.
  - intros k. rewrite Hpa. intros (_&?&?&?)%(I_pa HI). by simplify_eq.
  - rewrite Hpages. eapply (proc_inv_freed (u_pages s) (u_plist s) (u_plist s') A A' R p r r' x xs d pg);
      try done; try apply HI.
    + apply Hcount.
    + apply Hcount.
    + unfold r', mm, uncharge, drop_bookmark. by destruct d; repeat case_decide.
    + unfold r', mm, uncharge, drop_bookmark. by destruct d; repeat case_decide.
    + intros sel Hsel. unfold r', mm, uncharge, drop_bookmark.
      by destruct sel; [..|done]; destruct d; repeat case_decide.
    + intros d' y Hy. apply (drop_bookmark_not x d mm y Hbm d'). revert Hy. unfold r', uncharge. by destruct d.
    + intros d'. assert (∀ d, 0 ≤ cur_cool_list d mm < NUM_HOTNESS_LEVELS) as Hlist by apply Hproc.
      apply (drop_bookmark_list x mm d') in Hlist. revert Hlist. unfold r', uncharge. by destruct d, d'.
  - intros q' Hq'. by apply pop_ring_ne.
Qed.

(** The pages a free request ends with, field by field. *)
Lemma wp_free_step :
  wp (o ← ring_get FreeRing p;
      match o with
      | None => mret (inr tt)
      | Some x => free_one p x;; mret (inl tt)
      end)
    (λ b s', b = inl tt ∧ kept s s' ∧
       ∃ A', ucm_inv s' A' (pop_ring R p FreeRing xs) (Some p) ∧ released [x] p A A') s.
Proof using HI Hr HR.
  pose proof (I_proc HI Hr) as Hproc.
  destruct (pi_ring _ _ _ _ _ _ Hproc FreeRing) as [Hring Hcap].
  pose proof (ring_buf_get_spec _ _ Hring) as Hget. rewrite HR in Hget.
  destruct Hget as (q&Hget&Hq).
  assert (x ∈ R p FreeRing) as [(d&i&Hi&Hx) (pg&Hpg&Hfree)]%(pi_free_ring _ _ _ _ _ _ Hproc)
    by (rewrite HR; set_solver).
  pose proof (used_here s A R _ HI p x d i pg r Hx Hpg Hr) as Hu.
  destruct (inv_list_of s A R _ x _ HI Hx) as (n&Hn&Hl).
  unfold ring_get. do 3 ucm_step. rewrite Hget. do 3 ucm_step. cbv beta iota. wp_step.
  unfold free_one. do 2 ucm_step. ucm_step. ucm_step; [by rewrite Hl|].
  do 4 ucm_step. ucm_step. ucm_step; [rec_simpl; rewrite (up_pid _ _ _ _ _ _ _ Hu); lia|].
  pose proof (up_dram _ _ _ _ _ _ _ Hu) as Hd. pose proof (up_hot _ _ _ _ _ _ _ Hu) as Hhot.
  do 2 ucm_step; [rewrite Hd, Hhot, bool_decide_eq_true_2 by done; done|].
  wp_step. eapply wp_mono.
  { eapply (wp_update_current_raw _ p _ x d n pg); [done|lookup_done|done|apply Hu|done|by rewrite Hhot|].
    exact (bookmark_tier s A R (Some p) p r x d i HI Hr Hx). }
  intros [] s1 ->. do 2 wp_step; [done|]. pose proof Hx as (b&a&HA)%list_elem_of_split.
  wp_step. eapply (wp_zoom_remove A); [apply HI|eapply (inv_bin_header s A R (Some p)); [done|eauto|lia]|done|].
  intros h1 Hdll1 Hsh1 Hdet1. do 4 ucm_step. rewrite Hd.
  wp_step. eapply wp_return_free; [lookup_done|done|lookup_done|done| |done|].
  { rec_simpl. rewrite <- elem_of_dom, (proj2 Hsh1), elem_of_dom.
    exact (inv_free_header s A R (Some p) d HI). }
  rec_simpl. intros h2 Hdll2 Hsh2. do 2 ucm_step. unfold count_handled. do 2 ucm_step.
  split; [done|]. ucm_norm. split.
  - eapply (kept_upd s _ p r); [done..| |by eapply pages_kept_insert].
    unfold proc_keep, uncharge, drop_bookmark. by destruct d; repeat case_decide.
  - assert (∀ y l, y ≠ x → y ∈ (<[free_list d := x :: (<[bin d p i := b ++ a]> A) (free_list d)]>
      (<[bin d p i := b ++ a]> A)) l ↔ y ∈ A l) as HA'.
    { intros y l Hy. by rewrite elem_of_push, (elem_of_cut _ _ _ _ _ _ _ HA). }
    eexists. split; [eapply (inv_freed _ _ d i pg q); try done|eapply (released_one (u_plist s) h2); try done].
    + rewrite <- Hcap. by eapply ring_buf_get_capacity.
    + by rewrite (pp_pt _ _ (I_phys HI Hpg)).
    + by eapply same_shape_trans.
    + by rewrite fn_lookup_insert, elem_of_cons; left.
    + apply HI.
    + by exists i.
    + by rewrite fn_lookup_insert, elem_of_cons; left.
Qed.
End free.

Lemma wp_free_loop p xs : ∀ s A R fuel,
  ucm_inv s A R (Some p) → is_Some (u_procs s !! p) → R p FreeRing = xs →
  (length xs < fuel)%nat →
  wp (loop fuel (λ _ : unit,
        r ← proc p;
        if ring_buf_empty (ring_of FreeRing (pr_mm r)) then mret (inr tt)
        else
          o ← ring_get FreeRing p;
          match o with
          | None => mret (inr tt)
          | Some x => free_one p x;; mret (inl tt)
          end) tt)
    (λ _ s', ∃ A' R', ucm_inv s' A' R' (Some p) ∧ kept s s' ∧ drained FreeRing p R R' ∧
       released (R p FreeRing) p A A') s.
Proof.
  induction xs as [|x xs IH]; intros s A R fuel HI [r Hr] HR Hfuel;
    (destruct fuel as [|fuel]; [simpl in Hfuel; lia|]); cbn [loop];
    destruct (pi_ring _ _ _ _ _ _ (I_proc HI Hr) FreeRing) as [Hring _].
  - do 3 ucm_step. rewrite (ring_buf_empty_spec _ _ Hring), HR. simpl. do 2 wp_step.
    exists A, R. split_and!; [done|reflexivity|done|by apply released_nil].
  - do 3 ucm_step. rewrite (ring_buf_empty_spec _ _ Hring), HR, bool_decide_eq_false_2 by done.
    eapply wp_mono; [by eapply wp_free_step|]. intros b s1 (->&Hk1&A1&HI1&Hrel1). cbv beta iota.
    destruct (kept_proc _ _ _ _ Hk1 Hr) as (r1&Hr1&_). simpl in Hfuel.
    eapply wp_mono; [eapply (IH s1 A1 _ fuel HI1); [eauto|apply pop_ring_eq|lia]|].
    intros [] s2 (A2&R2&HI2&Hk2&(He&Hs&Hq)&Hrel2). rewrite pop_ring_eq in Hrel2.
    exists A2, R2. split_and!; [done|by rewrite Hk1| |].
    2: { eapply released_cons; [|done..].
      pose proof (pi_free_nodup _ _ _ _ _ _ (I_proc HI Hr)) as Hnd. rewrite HR in Hnd.
      by apply NoDup_cons in Hnd as [? _]. }
    split_and!; [done|..].
    + intros sel' Hs'. by rewrite Hs, pop_ring_sel.
    + intros q Hq'. by rewrite Hq, pop_ring_ne.
Qed.

Lemma wp_handle_free_page_ring s A R p :
  ucm_inv s A R (Some p) → is_Some (u_procs s !! p) →
  wp (handle_free_page_ring p)
    (λ _ s', ∃ A' R', ucm_inv s' A' R' (Some p) ∧ kept s s' ∧ drained FreeRing p R R' ∧
       released (R p FreeRing) p A A') s.
Proof.
  intros HI [r Hr]. destruct (pi_ring _ _ _ _ _ _ (I_proc HI Hr) FreeRing) as [Hring _].
  unfold handle_free_page_ring, ring_fuel. do 4 ucm_step.
  eapply wp_free_loop; [done|eauto|done|].
  rewrite (ring_buf_size_spec _ _ Hring). case_match; lia.
Qed.

(** Beginning and end of a drain. *)
Lemma inv_drain_start s A R p : ucm_inv s A R None → ucm_inv s A R (Some p).
Proof.
  intros []. split; auto. intros q r Hq. destruct (I_proc q r Hq). split; auto.
  intros x Hx. destruct (pi_requests x Hx) as [[?|[? _]] ?]; [|done]. auto.
Qed.

Lemma inv_drain_end s A R p :
  ucm_inv s A R (Some p) → R p HotRing = [] → R p ColdRing = [] → ucm_inv s A R None.
Proof.
  intros [] Hh Hc. split; auto. intros q r Hq. destruct (I_proc q r Hq). split; auto.
  intros x Hx. destruct (pi_requests x Hx) as [[?|[[= <-] _]] ?]; [auto|].
  rewrite Hh, Hc in Hx. by apply not_elem_of_nil in Hx.
Qed.

Lemma wp_mm_drain s A R p :
  ucm_inv s A R None → is_Some (u_procs s !! p) →
  wp (mm_drain_async_requests p) (λ _ s', ∃ A' R', ucm_inv s' A' R' None ∧ kept s s' ∧
    (∀ sel, R' p sel = []) ∧ (∀ q, q ≠ p → R' q = R q) ∧
    released (R p FreeRing) p A A') s.
Proof.
  intros HI [r Hr]. apply (inv_drain_start s A R p) in HI.
  unfold mm_drain_async_requests. wp_step. eapply wp_mono; [by eapply wp_handle_free_page_ring|].
  intros [] s1 (A1&R1&HI1&Hk1&(HeF&HsF&HqF)&Hrel). destruct (kept_proc _ _ _ _ Hk1 Hr) as (r1&Hr1&_).
  wp_step. eapply wp_mono; [by eapply wp_handle_hot_requests; eauto|].
  intros [] s2 (A2&R2&HI2&Hk2&(HeH&HsH&HqH)&Hset2). destruct (kept_proc _ _ _ _ Hk2 Hr1) as (r2&Hr2&_).
  eapply wp_mono; [by eapply wp_handle_cold_requests; eauto|].
  intros [] s3 (A3&R3&HI3&Hk3&(HeC&HsC&HqC)&Hset3).
  assert (∀ sel, R3 p sel = []) as Hempty.
  { intros []; [rewrite HsC|done|rewrite HsC, HsH]; done. }
  exists A3, R3. split_and!; [by eapply inv_drain_end|by rewrite Hk1, Hk2|done|..].
  - intros q Hq. by rewrite HqC, HqH, HqF.
  - eapply released_settled; [done|]. by rewrite Hset2.
Qed.
