(* ===== verification/CoolOk.v ===== *)
(** * Cooling keeps the invariant

    [partial_cool_impl] walks the lists of one tier from the hottest level
    down and puts every page it visits into the list its decayed counters
    select. *)

From S2P Require Import Prelude Fifo Ring F64 ProcList Types Hotness Mm MmAsync Inv UcmWp AsyncOk.

Section cool.
Context (fastmem : bool) (p : ptr) (R : ptr → ring_sel → list ptr) (W : option ptr).
Context (HW : W = None ∨ W = Some p).

(** The next page to cool, from level [n] down: the oldest page of the hottest
    non-empty list, if any. *)
Lemma wp_scan_down s A n index :
  ucm_inv s A R W → is_Some (u_procs s !! p) → Z.of_nat n < NUM_HOTNESS_LEVELS →
  wp (scan_down fastmem p n index) (λ pi s', s' = s ∧
    match pi.1 with
    | Some x => 1 ≤ pi.2 ≤ Z.of_nat n ∧ last (A (bin fastmem p pi.2)) = Some x ∧
        (∀ i, pi.2 < i ≤ Z.of_nat n → A (bin fastmem p i) = [])
    | None => (pi.2 = index ∧ n = O ∨ pi.2 = 1) ∧ ∀ i, 1 ≤ i ≤ Z.of_nat n → A (bin fastmem p i) = []
    end) s.
Proof.
  intros HI Hp. revert index. induction n as [|n IH]; intros index Hn; cbn [scan_down].
  - wp_step. split; [done|]. simpl. split; [by left|lia].
  - destruct (inv_bin_header s A R W fastmem p (Z.of_nat (S n)) HI Hp) as [q Hq]; [lia|].
    pose proof (dll_header (I_dll HI) Hq) as ->. do 2 ucm_step. cbn [last_].
    destruct (last (A (bin fastmem p (Z.of_nat (S n))))) as [x|] eqn:Hlast.
    + wp_step. split; [done|]. simpl. split_and!; [lia..|done|lia].
    + apply last_None in Hlast. eapply wp_mono; [apply IH; lia|]. intros [o j] s' [-> Hj]. split; [done|].
      assert (∀ i, i ≤ Z.of_nat (S n) → i ≤ Z.of_nat n ∨ i = Z.of_nat (S n)) as Hcase by lia.
      destruct o as [x|]; simpl in *.
      * destruct Hj as (?&?&Hj). split_and!; [lia..|done|]. intros i [? [?| ->]%Hcase]; auto.
      * destruct Hj as [Hidx Hj]. split.
        { right. by destruct Hidx as [[-> ->]| ->]. }
        intros i [? [?| ->]%Hcase]; auto.
Qed.

(** One page: it goes to the list its decayed counters select; the page
    returned is its predecessor in the list being walked. *)
Lemma wp_cool_one s A r x pg i index :
  ucm_inv s A R W → u_procs s !! p = Some r → u_pages s !! x = Some pg →
  x ∈ A (bin fastmem p i) → 0 ≤ index < NUM_HOTNESS_LEVELS →
  wp (cool_one fastmem p x index) (λ o s',
    rebinned s A R W x fastmem p (decayed_index (pr_process_clock r) pg) s' ∧
    ∀ y, o = Some y → y ≠ x ∧ y ∈ A (bin fastmem p index)) s.
Proof using HW.
  intros HI Hr Hpg Hx Hidx. pose proof (used_here s A R W HI p x fastmem i pg r Hx Hpg Hr) as Hu.
  destruct (inv_list_of s A R W x _ HI Hx) as (n&Hn&Hl).
  pose proof (wp_move_cool s A R W HI p x HW fastmem i _ pg r Hx Hpg Hr
    (decayed_index_range (pr_process_clock r) pg)) as Hmove.
  pose proof (rebinned_refl s A R W HI p x fastmem i (decayed_index (pr_process_clock r) pg) pg r Hx Hpg Hr) as Hrefl.
  unfold cool_one. do 4 ucm_step. do 2 ucm_step; [rewrite (up_pid _ _ _ _ _ _ _ Hu); lia|].
  do 2 ucm_step; [rewrite (up_dram _ _ _ _ _ _ _ Hu); by apply Bool.eqb_true_iff|].
  do 2 ucm_step. do 2 ucm_step; [rewrite Hl, (up_hot _ _ _ _ _ _ _ Hu); by apply bool_decide_eq_true|].
  wp_step. eapply (wp_zoom_prev A); [apply HI|eapply inv_bin_header; eauto; lia|eauto|].
  intros o Hin Hout. wp_step.
  assert (∀ y, o = Some y → y ≠ x ∧ y ∈ A (bin fastmem p index)) as Ho.
  { intros y ->. destruct (decide (x ∈ A (bin fastmem p index))) as [Hxi|Hxi]; [|by apply Hout in Hxi].
    pose proof (dll_nodup (I_dll HI) (bin fastmem p index)) as Hnd.
    apply list_elem_of_split in Hxi as (b&a&HA). specialize (Hin b a HA).
    symmetry in Hin. apply last_Some_elem_of in Hin. rewrite HA in *.
    apply NoDup_app in Hnd. set_solver. }
  apply wp_when; intros Hnew.
  - eapply wp_mono; [exact Hmove|]. intros [] s' Hre. wp_step. done.
  - wp_step. split; [|done]. apply Hrefl. apply negb_false_iff, Z.eqb_eq in Hnew. done.
Qed.

(** A change of the fields of cooling. *)
Lemma inv_cool_fields s s' A r f :
  ucm_inv s A R W → u_procs s !! p = Some r →
  u_procs s' = <[p := r <| pr_mm ::= f |>]> (u_procs s) →
  u_pages s' = u_pages s → u_plist s' = u_plist s → u_pa_map s' = u_pa_map s → rest s' = rest s →
  proc_core (r <| pr_mm ::= f |>) = proc_core r →
  proc_keep (r <| pr_mm ::= f |>) = proc_keep r →
  (∀ sel, ring_of sel (f (pr_mm r)) = ring_of sel (pr_mm r)) →
  (∀ d y, cur_cool d (f (pr_mm r)) = Some y → in_tier A d p y) →
  (∀ d, 0 ≤ cur_cool_list d (f (pr_mm r)) < NUM_HOTNESS_LEVELS) →
  ucm_inv s' A R W ∧ kept s s'.
Proof using HW.
  intros HI Hr Hprocs Hpages Hplist Hpa Hrest Hcore Hkeep Hring Hcur Hlist.
  pose proof Hrest as Hr'. injection Hr' as _ _ _ _ _ _ Hfs Hss _ _ _ _ _. split.
  - eapply (inv_proc s s' A R W p r); try done.
  - eapply kept_upd; [done..|]. by rewrite Hpages.
Qed.

Lemma wp_cool_completed s A r :
  ucm_inv s A R W → u_procs s !! p = Some r →
  wp (cool_completed fastmem p) (λ _ s', ucm_inv s' A R W ∧ kept s s') s.
Proof using HW.
  intros HI Hr. unfold cool_completed. do 3 ucm_step.
  eapply (inv_cool_fields s _ A r (set_need_cool fastmem false)); try done;
    unfold set_need_cool; try (by destruct fastmem).
  - destruct fastmem; exact (pi_cur_cool _ _ _ _ _ _ (I_proc HI Hr)).
  - destruct fastmem; exact (pi_cur_cool_list _ _ _ _ _ _ (I_proc HI Hr)).
Qed.

(** The loop: the lists stay sound, and the bookmark it returns, if any, is
    still a page of the tier. *)
Lemma wp_cool_loop n : ∀ s A current o index,
  ucm_inv s A R W → is_Some (u_procs s !! p) → 0 ≤ index < NUM_HOTNESS_LEVELS →
  (∀ y, o = Some y → in_tier A fastmem p y) →
  (∀ y, current = Some y → in_tier A fastmem p y) →
  wp (cool_loop fastmem p n current o index) (λ ci s', ∃ A', ucm_inv s' A' R W ∧ kept s s' ∧
    settled A A' ∧ (ci.1 = current ∨ ci.1 = None) ∧
    (∀ y, ci.1 = Some y → in_tier A' fastmem p y) ∧ 0 ≤ ci.2 < NUM_HOTNESS_LEVELS) s.
Proof using HW.
  induction n as [|n IH]; intros s A current o index HI [r Hr] Hidx Ho Hcur; cbn [cool_loop].
  { wp_step. exists A. split_and!; [done|reflexivity|reflexivity|by left|done|simpl; lia|simpl; lia]. }
  wp_step. eapply (wp_mono _ (λ pi s', s' = s ∧ 0 ≤ pi.2 < NUM_HOTNESS_LEVELS ∧
    ∀ y, pi.1 = Some y → in_tier A fastmem p y)).
  { destruct o as [x|]; [by wp_step|].
    eapply wp_mono; [apply (wp_scan_down s A); [done|eauto|lia]|].
    intros [[x|] j] s' [-> Hj]; simpl in *; (split; [done|]).
    - destruct Hj as (?&Hlast&_). split; [lia|]. intros y [= <-]. exists j. split; [lia|].
      by apply last_Some_elem_of.
    - split; [|done]. destruct Hj as [[[-> _]| ->] _]; [done|]. unfold NUM_HOTNESS_LEVELS. lia. }
  intros [[x|] j] s' (->&Hj&Hx); simpl in *.
  - destruct (Hx x eq_refl) as (i&Hi&Hxi). destruct (I_used HI Hxi) as (pg&?&Hpg&_&_).
    wp_step. eapply wp_mono; [by eapply wp_cool_one|]. intros o1 s1 [Hre Ho1].
    pose proof (rebinned_kept _ _ _ _ _ _ _ _ _ Hre) as Hk1.
    destruct Hre as (A1&h&pg'&_&->&HI1&Hx1&HA1&Hset1).
    destruct (kept_proc _ _ _ _ Hk1 Hr) as (r1&Hr1&_).
    eapply wp_mono; [eapply (IH _ A1); [done|eauto|done|..]|].
    + intros y Hy. destruct (Ho1 y Hy) as [Hyx Hy1]. exists j. split; [done|]. by apply HA1.
    + intros y Hy. apply Hset1. auto.
    + intros ci s2 (A2&HI2&Hk2&Hset2&?). exists A2. split_and!; [done|by rewrite Hk1|by rewrite Hset1|naive_solver..].
  - wp_step. eapply wp_mono; [by eapply wp_cool_completed|]. intros [] s1 [HI1 Hk1]. wp_step.
    exists A. split_and!; [done|done|reflexivity|by right|done|done|done].
Qed.

(** Where the walk starts: at the bookmark, or at the oldest page of the
    hottest list. *)
Lemma inv_set_cur_cool s A r o j :
  ucm_inv s A R W → u_procs s !! p = Some r → 0 ≤ j < NUM_HOTNESS_LEVELS →
  (∀ y, o = Some y → in_tier A fastmem p y) →
  ∀ s', u_procs s' = <[p := r <| pr_mm ::= λ mm, set_cur_cool_list fastmem j (set_cur_cool fastmem o mm) |>]> (u_procs s) →
  u_pages s' = u_pages s → u_plist s' = u_plist s → u_pa_map s' = u_pa_map s → rest s' = rest s →
  ucm_inv s' A R W ∧ kept s s'.
Proof using HW.
  intros HI Hr Hj Ho s' Hprocs Hpages Hplist Hpa Hrest.
  pose proof (I_proc HI Hr) as Hproc.
  eapply (inv_cool_fields s s' A r (λ mm, set_cur_cool_list fastmem j (set_cur_cool fastmem o mm)));
    try done; try (by destruct fastmem).
  - intros d y. destruct (decide (d = fastmem)) as [->|Hd].
    + intros Hy. apply Ho. by destruct fastmem.
    + intros Hy. apply (pi_cur_cool _ _ _ _ _ _ Hproc). by destruct fastmem, d.
  - intros d. destruct (decide (d = fastmem)) as [->|Hd].
    + by destruct fastmem.
    + pose proof (pi_cur_cool_list _ _ _ _ _ _ Hproc d). by destruct fastmem, d.
Qed.

Lemma wp_partial_cool s A :
  ucm_inv s A R W → is_Some (u_procs s !! p) →
  wp (partial_cool_impl fastmem p) (λ o s', ∃ A', ucm_inv s' A' R W ∧ kept s s' ∧
    settled A A' ∧ ∀ y, o = Some y → in_tier A' fastmem p y) s.
Proof using HW.
  intros HI [r Hr]. unfold partial_cool_impl. do 2 ucm_step. wp_if Hneed.
  { wp_step. exists A. split_and!; [done|reflexivity|reflexivity|]. apply (I_proc HI Hr). }
  wp_step. eapply (wp_mono _ (λ (b : bool) s1, ucm_inv s1 A R W ∧ kept s s1)).
  { wp_if Hstart; [|wp_step; split; [done|reflexivity]].
    wp_step. eapply wp_mono; [apply (wp_scan_down s A); [done|eauto|done]|].
    intros [o j] s1 [-> Hj]; simpl in Hj. do 4 ucm_step. simpl.
    destruct o as [x|].
    - wp_step. destruct Hj as (Hj&Hlast&_). ucm_norm.
      eapply (inv_set_cur_cool s A r (Some x) j); try done; [unfold NUM_HOTNESS_LEVELS in *; lia|].
      intros y [= <-]. exists j. split; [unfold NUM_HOTNESS_LEVELS in *; lia|]. by apply last_Some_elem_of.
    - do 2 ucm_step. wp_step. ucm_norm.
      edestruct (inv_set_cur_cool s A r None 0 HI Hr) with (s' := s <| u_procs := <[p := r <| pr_mm ::=
        λ v, set_cur_cool_list fastmem 0 (set_cur_cool_list fastmem j (set_cur_cool fastmem None v)) |>]> (u_procs s) |>)
        as [HI1 Hk1]; [done|done| |done..|].
      { rec_simpl. by destruct fastmem. }
      eapply wp_mono; [eapply wp_cool_completed; [done|lookup_done]|]. intros [] s2 [HI2 Hk2].
      wp_step. split; [done|]. by rewrite Hk1. }
  intros b s1 [HI1 Hk1]. destruct (kept_proc _ _ _ _ Hk1 Hr) as (r1&Hr1&_). wp_if Hb.
  { wp_step. by exists A. }
  do 2 ucm_step. wp_step.
  eapply (wp_mono _ (λ _ s2, s2 = s1)).
  { destruct (cur_cool fastmem (pr_mm r1)) as [x|] eqn:Hc; [|by wp_step].
    destruct (pi_cur_cool _ _ _ _ _ _ (I_proc HI1 Hr1) _ _ Hc) as (i&Hi&Hx).
    destruct (I_used HI1 Hx) as (pg&?&Hpg&?&[]). simplify_eq.
    destruct (inv_list_of s1 A R W x _ HI1 Hx) as (n&Hn&Hl).
    do 2 ucm_step. do 2 ucm_step; [lia|]. do 2 ucm_step. rewrite Hl. by ucm_step; [apply bool_decide_eq_true|]. }
  intros [] s2 ->. wp_step. eapply wp_mono.
  { apply (wp_cool_loop COOLING_PAGES s1 A); [done|eauto|apply (I_proc HI1 Hr1)|apply (I_proc HI1 Hr1)..]. }
  intros [o j] s2 (A2&HI2&Hk2&Hset2&_&Ho&Hj). simpl in Ho, Hj.
  destruct (kept_proc _ _ _ _ Hk2 Hr1) as (r2&Hr2&_). do 3 ucm_step. simpl.
  destruct (inv_cool_fields s2 (s2 <| u_procs := <[p := r2 <| pr_mm ::= set_cur_cool_list fastmem j |>]>
    (u_procs s2) |>) A2 r2 (set_cur_cool_list fastmem j)) as [HI3 Hk3]; try done; try (by destruct fastmem).
  - destruct fastmem; exact (pi_cur_cool _ _ _ _ _ _ (I_proc HI2 Hr2)).
  - intros d. pose proof (pi_cur_cool_list _ _ _ _ _ _ (I_proc HI2 Hr2) d). by destruct fastmem, d.
  - exists A2. split_and!; [done|by rewrite Hk1, Hk2|done|done].
Qed.
End cool.
