(* ===== verification/CoolPass.v ===== *)
(** * A pass of cooling

    What one complete pass of [partial_cool_impl] over the lists of a tier
    does: it visits every page above level 0, from the hottest level down, and
    leaves each at the level that its decayed counters select.  A page that is
    moved down is visited once more, so a pass over [n] pages takes at most
    [2 * n] rounds and one to find that there is nothing left. *)

From S2P Require Import Prelude Fifo Ring F64 ProcList Types Hotness Mm MmAsync Inv UcmWp AsyncOk CoolOk.

(** ** Sums over lists *)
Lemma sum_list_with_le {X} (f g : X → nat) xs :
  (∀ y, y ∈ xs → f y ≤ g y)%nat → (sum_list_with f xs ≤ sum_list_with g xs)%nat.
Proof.
  induction xs as [|x xs IH]; intros Hle; simpl; [done|].
  pose proof (Hle x ltac:(set_solver)). pose proof (IH ltac:(set_solver)). lia.
Qed.

Lemma sum_list_with_lt {X} (f g : X → nat) xs x :
  x ∈ xs → (∀ y, y ∈ xs → f y ≤ g y)%nat → (f x < g x)%nat → (sum_list_with f xs < sum_list_with g xs)%nat.
Proof.
  intros Hx. induction Hx as [x xs|x y xs Hx IH]; intros Hle Hlt; simpl.
  - pose proof (sum_list_with_le f g xs ltac:(set_solver)). lia.
  - pose proof (Hle y ltac:(set_solver)). pose proof (IH ltac:(set_solver) Hlt). lia.
Qed.

Lemma sum_list_with_twice {X} (f : X → nat) xs :
  (∀ y, y ∈ xs → f y ≤ 2)%nat → (sum_list_with f xs ≤ 2 * length xs)%nat.
Proof.
  induction xs as [|x xs IH]; intros Hle; simpl; [done|].
  pose proof (Hle x ltac:(set_solver)). pose proof (IH ltac:(set_solver)). lia.
Qed.

(** All of a page but its level. *)
Definition unlevelled (pg : hemem_page) : hemem_page := pg <| pg_hot := 0 |>.

Lemma unlevelled_decayed clock pg pg' :
  unlevelled pg' = unlevelled pg → decayed_index clock pg' = decayed_index clock pg.
Proof. destruct pg, pg'. unfold unlevelled, upd; simpl. by intros [=]; subst. Qed.

Lemma unlevelled_level pg pg' :
  unlevelled pg' = unlevelled pg → pg' = pg <| pg_hot := pg_hot pg' |>.
Proof. destruct pg, pg'. unfold unlevelled, upd; simpl. by intros [=]; subst. Qed.

Section pass.
Context (fastmem : bool) (p : ptr).
(** The clock of the process, the level that the counters of each page select
    at that clock, and the pages that may be visited. *)
Context (clock : tiered) (c : ptr → Z) (M : list ptr).
Local Notation level A j := (A (bin fastmem p j)).
Implicit Types A : list_id → list ptr.

(** What a part of the walk may change. *)
Record cooled (s : ucm) A (s' : ucm) A' : Prop := Cooled {
  cd_zero y : y ∈ level A 0 → y ∈ level A' 0;
  cd_cold y : y ∈ level A' 0 → y ∈ level A 0 ∨ c y = 0;
  cd_others l : (∀ j, l ≠ bin fastmem p j) → A' l = A l;
  cd_pages x : unlevelled <$> u_pages s' !! x = unlevelled <$> u_pages s !! x;
  cd_kept : kept s s';
  cd_settled : settled A A';
}.

Lemma cooled_refl s A : cooled s A s A.
Proof. split; try done. by left. Qed.

Lemma cooled_trans s1 A1 s2 A2 s3 A3 : cooled s1 A1 s2 A2 → cooled s2 A2 s3 A3 → cooled s1 A1 s3 A3.
Proof.
  intros [Z1 C1 O1 P1 K1 S1] [Z2 C2 O2 P2 K2 S2]. split; eauto.
  - intros y [Hy|Hy]%C2; auto.
  - intros l Hl. by rewrite O2, O1.
  - intros x. by rewrite P2.
  - by rewrite K1.
  - by rewrite S1.
Qed.

(** ** The rounds that a page still takes *)
Definition rounds A (index : Z) (b : list ptr) (x : ptr) : nat :=
  if decide (x ∈ b) then (if decide (c x = index) then 1 else 2)
  else if decide (1 ≤ c x < index ∧ x ∈ level A (c x)) then 1
  else if existsb (λ j, bool_decide (x ∈ level A j)) (seqZ 1 (index - 1)) then 2 else 0.
Definition weight A (index : Z) (b : list ptr) : nat := sum_list_with (rounds A index b) M.

Lemma below A index x :
  existsb (λ j, bool_decide (x ∈ level A j)) (seqZ 1 (index - 1)) = true ↔ ∃ j, 1 ≤ j < index ∧ x ∈ level A j.
Proof.
  rewrite existsb_exists. split.
  - intros (j&Hj%list_elem_of_In%elem_of_seqZ&Hx%bool_decide_eq_true). exists j. split; [lia|done].
  - intros (j&Hj&Hx). exists j. split; [apply list_elem_of_In, elem_of_seqZ; lia|by apply bool_decide_eq_true].
Qed.

Lemma rounds_same A A' index b b' y :
  (∀ l, y ∈ A' l ↔ y ∈ A l) → (y ∈ b' ↔ y ∈ b) → rounds A' index b' y = rounds A index b y.
Proof.
  intros HA Hb. unfold rounds. rewrite (decide_ext (y ∈ b') (y ∈ b)) by done.
  rewrite (decide_ext (1 ≤ c y < index ∧ y ∈ level A' (c y)) (1 ≤ c y < index ∧ y ∈ level A (c y)))
    by (by rewrite HA).
  do 2 (case_decide; [done|]). replace (existsb (λ j, bool_decide (y ∈ level A' j)) (seqZ 1 (index - 1)))
    with (existsb (λ j, bool_decide (y ∈ level A j)) (seqZ 1 (index - 1))); [done|].
  apply eq_bool_prop_intro. rewrite !Is_true_true, !below. by setoid_rewrite HA.
Qed.

(** A page that has been visited. *)
Lemma rounds_visited (h : page_lists list_id) A index b x :
  dll_ok h A → x ∉ b → x ∈ level A (c x) → (rounds A index b x ≤ if decide (c x < index)%Z then 1 else 0)%nat.
Proof.
  intros Hdll Hb Hx. unfold rounds. rewrite decide_False by done. case_decide as Hc.
  { rewrite decide_True by lia. lia. }
  destruct (existsb _ _) eqn:He; [|lia]. apply below in He as (j&Hj&Hxj).
  destruct (bins_unique _ _ Hdll _ _ _ _ _ _ _ Hx Hxj) as (_&_&E). destruct Hc. by rewrite E.
Qed.

Lemma rounds_le_2 A index b x : (rounds A index b x ≤ 2)%nat.
Proof. unfold rounds. repeat case_decide; [lia..|]. case_match; lia. Qed.

(** Going on with the next list that is not empty. *)
Lemma rounds_down (h : page_lists list_id) A index j y :
  dll_ok h A → 1 ≤ j < index → (rounds A j (level A j) y ≤ rounds A index [] y)%nat.
Proof.
  intros Hdll Hj. unfold rounds at 2. rewrite decide_False by apply not_elem_of_nil.
  destruct (existsb (λ j, bool_decide (y ∈ level A j)) (seqZ 1 (index - 1))) eqn:He.
  - case_decide as Hc; [|apply rounds_le_2]. destruct Hc as [Hc Hy]. unfold rounds. case_decide as Hyj.
    + destruct (bins_unique _ _ Hdll _ _ _ _ _ _ _ Hy Hyj) as (_&_&E). by rewrite decide_True.
    + case_decide as Hd; [done|]. destruct (existsb _ (seqZ 1 (j - 1))) eqn:He'; [|lia].
      apply below in He' as (k&Hk&Hyk). destruct (bins_unique _ _ Hdll _ _ _ _ _ _ _ Hy Hyk) as (_&_&E).
      destruct Hd. by rewrite E.
  - assert (∀ k, 1 ≤ k < index → y ∉ level A k) as Hno.
    { intros k Hk Hy. assert (false = true); [|done]. rewrite <- He. apply below. eauto. }
    rewrite decide_False by (intros [Hc Hy]; by apply (Hno (c y))). unfold rounds. rewrite decide_False by auto.
    rewrite decide_False by (intros [Hc Hy]; apply (Hno (c y)); [lia|done]).
    destruct (existsb _ (seqZ 1 (j - 1))) eqn:He'; [|lia]. apply below in He' as (k&Hk&Hy). by destruct (Hno k); [lia|].
Qed.

Lemma weight_visited (h : page_lists list_id) A A' index b x :
  dll_ok h A' → x ∈ M → x ∉ b → x ∈ level A' (c x) → (∀ y l, y ≠ x → y ∈ A' l ↔ y ∈ A l) →
  (weight A' index b < weight A index (b ++ [x]))%nat.
Proof.
  intros Hdll HM Hb Hx HA.
  assert (rounds A' index b x < rounds A index (b ++ [x]) x)%nat as Hlt.
  { pose proof (rounds_visited h A' index b x Hdll Hb Hx) as Hv. unfold rounds at 2.
    rewrite (decide_True (P := x ∈ b ++ [x])) by set_solver. repeat case_decide; lia. }
  apply (sum_list_with_lt _ _ _ x HM); [|done]. intros y _.
  destruct (decide (y = x)) as [->|Hy]; [lia|]. rewrite (rounds_same A A' index (b ++ [x]) b y); [lia|auto|set_solver].
Qed.

(** ** One page *)
Context (R : ptr → ring_sel → list ptr) (W : option ptr) (HW : W = None ∨ W = Some p).

(** The walk is at level [index]: of that list, [b] is to be visited, and [a]
    and all lists above are done. *)
Record walking (s : ucm) A (index : Z) (b a : list ptr) : Prop := Walking {
  wk_inv : ucm_inv s A R W;
  wk_clock : ∃ r, u_procs s !! p = Some r ∧ pr_process_clock r = clock;
  wk_target x pg : u_pages s !! x = Some pg → decayed_index clock pg = c x;
  wk_index : 1 ≤ index < NUM_HOTNESS_LEVELS;
  wk_list : level A index = b ++ a;
  wk_done y : y ∈ a → c y = index;
  wk_above j y : index < j < NUM_HOTNESS_LEVELS → y ∈ level A j → c y = j;
  wk_hot j y : 1 ≤ j < NUM_HOTNESS_LEVELS → y ∈ level A j → y ∈ M;
}.

Lemma walking_moved s A index b x a pg h :
  walking s A index (b ++ [x]) a → u_pages s !! x = Some pg → c x ≠ index →
  let A' := relisted A x (bin fastmem p index) b a (bin fastmem p (c x)) in
  let s' := s <| u_pages := <[x := pg <| pg_hot := c x |>]> (u_pages s) |> <| u_plist := h |> in
  dll_ok h A' → same_shape (u_plist s) h → walking s' A' index b a ∧ cooled s A s' A'.
Proof using HW.
  intros [HI (r&Hr&Hclock) Ht Hi Hl Hd Hab Hhot] Hpg Hne A' s' Hdll Hsh. rewrite <- app_assoc in Hl. simpl in Hl.
  assert (x ∈ level A index) as Hx by (rewrite Hl; set_solver).
  pose proof (decayed_index_range clock pg) as Hrange. rewrite (Ht x pg Hpg) in Hrange.
  assert (∀ y l, y ≠ x → y ∈ A' l ↔ y ∈ A l) as Hsame by (intros y l; by apply relisted_elem).
  assert (x ∈ level A' (c x)) as Hxc by (unfold A', relisted; rewrite fn_lookup_insert; set_solver).
  assert (∀ j, x ∈ level A' j → j = c x) as Huniq.
  { intros j Hj. by destruct (bins_unique _ _ Hdll _ _ _ _ _ _ _ Hj Hxc) as (_&_&?). }
  assert (ucm_inv s' A' R W) as HI' by (by apply (relisted_inv s A R W HI p x HW fastmem index (c x) pg r)).
  assert (∀ y, unlevelled <$> u_pages s' !! y = unlevelled <$> u_pages s !! y) as Hpages.
  { intros y. unfold s'. rec_simpl. destruct (decide (x = y)) as [<-|Hy]; [|by rewrite lookup_insert_ne].
    by rewrite lookup_insert_eq, Hpg. }
  split; split; try done.
  - by exists r.
  - intros y pgy Hy. specialize (Hpages y). rewrite Hy in Hpages. destruct (u_pages s !! y) as [pgy'|] eqn:Hy'; [|done].
    apply (inj Some) in Hpages. rewrite (unlevelled_decayed _ _ _ Hpages). by apply Ht.
  - unfold A', relisted. rewrite fn_lookup_insert_ne, fn_lookup_insert by (by intros (_&_&?)%bin_inj). done.
  - intros j y Hj Hy. destruct (decide (y = x)) as [->|Hyx]; [by rewrite (Huniq j)|]. apply (Hab j); [done|]. by apply Hsame.
  - intros j y Hj Hy. destruct (decide (y = x)) as [->|Hyx]; [by apply (Hhot index)|]. apply (Hhot j); [done|]. by apply Hsame.
  - intros y Hy. destruct (decide (y = x)) as [->|Hyx]; [|by apply Hsame].
    destruct (bins_unique _ _ (I_dll HI) _ _ _ _ _ _ _ Hx Hy) as (_&_&?). lia.
  - intros y Hy. destruct (decide (y = x)) as [->|Hyx]; [right; by rewrite <- (Huniq 0)|left; by apply Hsame].
  - intros l Hlj. unfold A', relisted. by rewrite !fn_lookup_insert_ne by (intros <-; by eapply Hlj).
  - apply kept_same; [done..|]. by eapply pages_kept_insert.
  - by apply (relisted_settled s A R W HI p x fastmem index (c x) pg r Hx Hpg Hr Hrange b a h).
Qed.

Lemma wp_visit s A index b x a :
  walking s A index (b ++ [x]) a →
  wp (cool_one fastmem p x index) (λ o s', o = last b ∧ ∃ A' a', walking s' A' index b a' ∧
    cooled s A s' A' ∧ (weight A' index b < weight A index (b ++ [x]))%nat) s.
Proof using HW.
  intros Hwk. pose proof Hwk as [HI (r&Hr&Hclock) Ht Hi Hl Hd Hab Hhot].
  rewrite <- app_assoc in Hl. simpl in Hl.
  assert (x ∈ level A index) as Hx by (rewrite Hl; set_solver).
  pose proof (dll_nodup (I_dll HI) (bin fastmem p index)) as Hnd. rewrite Hl in Hnd.
  assert (x ∉ b) as Hxb by (apply NoDup_app in Hnd as (?&?&[? ?]%NoDup_cons); set_solver).
  destruct (I_used HI Hx) as (pg&r0&Hpg&Hr0&Hu). rewrite Hr in Hr0. injection Hr0 as <-.
  destruct (inv_list_of s A R W x _ HI Hx) as (n&Hn&Hln). pose proof (Ht x pg Hpg) as Hcx.
  pose proof (decayed_index_range clock pg) as Hrange. rewrite Hcx in Hrange.
  assert (x ∈ M) as HxM by (by apply (Hhot index)).
  unfold cool_one. do 4 ucm_step. do 2 ucm_step; [rewrite (up_pid _ _ _ _ _ _ _ Hu); lia|].
  do 2 ucm_step; [rewrite (up_dram _ _ _ _ _ _ _ Hu); by apply Bool.eqb_true_iff|].
  do 2 ucm_step. do 2 ucm_step; [rewrite Hln, (up_hot _ _ _ _ _ _ _ Hu); by apply bool_decide_eq_true|].
  wp_step. eapply (wp_zoom_prev A); [apply HI|eapply inv_bin_header; eauto; lia|eauto|].
  intros o Hin _. specialize (Hin b a Hl). subst o. rewrite Hclock, Hcx, (up_hot _ _ _ _ _ _ _ Hu). wp_step.
  apply wp_when; intros Hnew.
  - apply negb_true_iff, Z.eqb_neq in Hnew.
    eapply (wp_move_cool_at s A R W HI p x fastmem index (c x) pg r Hx Hpg Hr Hrange b a); [done|].
    intros h Hdll Hsh. wp_step. split; [done|].
    destruct (walking_moved s A index b x a pg h Hwk Hpg Hnew Hdll Hsh) as [Hwk' Hcd].
    eexists _, a. split_and!; [exact Hwk'|exact Hcd|].
    eapply weight_visited; [exact Hdll|done|done| |intros y l; by apply relisted_elem].
    unfold relisted. rewrite fn_lookup_insert. set_solver.
  - apply negb_false_iff, Z.eqb_eq in Hnew. wp_step. split; [done|].
    exists A, (x :: a). split_and!; [split|apply cooled_refl|]; try done; eauto.
    + intros y [->|Hy]%elem_of_cons; auto.
    + eapply weight_visited; [apply (I_dll HI)|done|done|by rewrite Hnew|done].
Qed.

(** ** The walk to its end *)

(** [cool_completed] changes no page and no list. *)
Lemma wp_cool_completed_at s A r :
  ucm_inv s A R W → u_procs s !! p = Some r →
  wp (cool_completed fastmem p) (λ _ s', ucm_inv s' A R W ∧ cooled s A s' A ∧
    ∃ r', u_procs s' !! p = Some r' ∧ need_cool fastmem (pr_mm r') = false) s.
Proof using HW.
  intros HI Hr. pose proof (wp_cool_completed fastmem p R W HW s A r HI Hr) as Hw.
  assert (wp (cool_completed fastmem p) (λ _ s', u_pages s' = u_pages s ∧
    ∃ r', u_procs s' !! p = Some r' ∧ need_cool fastmem (pr_mm r') = false) s) as Hw'.
  { unfold cool_completed. do 3 ucm_step. split; [done|]. eexists. split; [lookup_done|]. by destruct fastmem. }
  unfold wp in *. destruct (cool_completed fastmem p s) as [[] s'|]; [|done].
  destruct Hw as [HI' Hk], Hw' as [Hp Hn]. split_and!; [done| |done].
  split; try done; [by left|]. intros x. by rewrite Hp.
Qed.

Definition pass_ended (s : ucm) A (s' : ucm) : Prop := ∃ A', ucm_inv s' A' R W ∧ cooled s A s' A' ∧
  (∀ j y, 1 ≤ j < NUM_HOTNESS_LEVELS → y ∈ level A' j → c y = j) ∧
  ∃ r, u_procs s' !! p = Some r ∧ need_cool fastmem (pr_mm r) = false.

Lemma pass_ended_after s A s1 A1 s' : cooled s A s1 A1 → pass_ended s1 A1 s' → pass_ended s A s'.
Proof using Type.
  intros Hcd (A'&HI'&Hcd'&Hlev&Hn). exists A'. split_and!; [done|by eapply cooled_trans|done..].
Qed.

Lemma walking_down s A index a j :
  walking s A index [] a → 1 ≤ j < index → (∀ i, j < i ≤ index - 1 → level A i = []) →
  walking s A j (level A j) [] ∧ (weight A j (level A j) ≤ weight A index [])%nat.
Proof using Type.
  intros [HI Hc Ht Hi Hl Hd Hab Hhot] Hj Hempty. simpl in Hl. split.
  - split; try done; [lia|by rewrite app_nil_r|by intros y ?%not_elem_of_nil|].
    intros i y Hij Hy. destruct (Z.lt_trichotomy i index) as [Hlt|[->|Hgt]].
    + rewrite Hempty in Hy by lia. by apply not_elem_of_nil in Hy.
    + apply Hd. by rewrite <- Hl.
    + apply (Hab i); [lia|done].
  - apply sum_list_with_le. intros y _. by eapply rounds_down; [apply (I_dll HI)|].
Qed.

Lemma wp_cool_walk n : ∀ s A current index b a,
  walking s A index b a → (weight A index b < n)%nat →
  wp (cool_loop fastmem p n current (last b) index) (λ ci s', ci = (None, 0) ∧ pass_ended s A s') s.
Proof using HW.
  induction n as [|n IH]; intros s A current index b a Hwk Hn; [lia|]. cbn [cool_loop].
  pose proof Hwk as [HI (r&Hr&Hclock) _ Hi Hl Hd Hab _].
  wp_step. eapply (wp_mono _ (λ pi s', s' = s ∧ match pi.1 with
    | Some x => ∃ b' a', walking s A pi.2 (b' ++ [x]) a' ∧ (weight A pi.2 (b' ++ [x]) ≤ n)%nat
    | None => b = [] ∧ ∀ i, 1 ≤ i ≤ index - 1 → level A i = []
    end)).
  { destruct (last b) as [x|] eqn:Hb.
    - wp_step. split; [done|]. apply last_Some in Hb as [b' ->]. exists b', a. split; [done|simpl; lia].
    - apply last_None in Hb as ->.
      eapply wp_mono; [apply (wp_scan_down fastmem p R W s A); [done|eauto|lia]|].
      rewrite Z2Nat.id by lia. intros [[x|] j] s' [-> Hj]; simpl in Hj; (split; [done|]); simpl.
      + destruct Hj as (Hj&Hlast&Hempty). apply last_Some in Hlast as [b' Hb'].
        destruct (walking_down s A index a j Hwk) as [Hwk' Hw]; [lia|done|].
        exists b', []. rewrite Hb' in Hwk', Hw. split; [done|lia].
      + split; [done|]. apply Hj. }
  intros [[x|] j] s' [-> Hpi]; simpl in Hpi |- *.
  - destruct Hpi as (b'&a'&Hwk'&Hw'). wp_step. eapply wp_mono; [by eapply wp_visit|].
    intros o s1 (->&A1&a1&Hwk1&Hcd1&Hlt). eapply wp_mono; [eapply (IH s1 A1 current j b' a1 Hwk1); lia|].
    intros ci s2 [-> Hend]. split; [done|]. by eapply pass_ended_after.
  - destruct Hpi as [-> Hempty]. wp_step. eapply wp_mono; [by eapply wp_cool_completed_at|].
    intros [] s1 (HI1&Hcd1&Hn1). wp_step. split; [done|]. exists A. split_and!; [done..| |done].
    intros i y Hir Hy. destruct (Z.lt_trichotomy i index) as [Hlt|[->|Hgt]].
    + rewrite Hempty in Hy by lia. by apply not_elem_of_nil in Hy.
    + apply Hd. by rewrite Hl in Hy.
    + apply (Hab i); [lia|done].
Qed.

(** ** A pass from the beginning *)

(** The bookmark is set to the oldest page of the hottest list that is not
    empty. *)
Definition at_start (s : ucm) A : Prop := ∃ r x j b, u_procs s !! p = Some r ∧
  cur_cool fastmem (pr_mm r) = Some x ∧ cur_cool_list fastmem (pr_mm r) = j ∧
  1 ≤ j < NUM_HOTNESS_LEVELS ∧ level A j = b ++ [x] ∧
  ∀ i, j < i < NUM_HOTNESS_LEVELS → level A i = [].

Lemma wp_cool_start s A r :
  ucm_inv s A R W → u_procs s !! p = Some r →
  wp (pi ← scan_down fastmem p (Z.to_nat (NUM_HOTNESS_LEVELS - 1)) 0;
      set_mm p (set_cur_cool fastmem pi.1);;
      set_mm p (set_cur_cool_list fastmem pi.2);;
      match pi.1 with
      | None => set_mm p (set_cur_cool_list fastmem 0);; cool_completed fastmem p;; mret false
      | Some _ => mret true
      end) (λ b s', if b : bool then ucm_inv s' A R W ∧ cooled s A s' A ∧ at_start s' A else pass_ended s A s') s.
Proof using HW.
  intros HI Hr. wp_step. eapply wp_mono; [apply (wp_scan_down fastmem p R W s A); [done|eauto|done]|].
  intros [o j] s1 [-> Hj]; simpl in Hj.
  assert (∀ s' f, u_procs s' = <[p := r <| pr_mm ::= f |>]> (u_procs s) → u_pages s' = u_pages s → kept s s' →
    cooled s A s' A) as Hcd.
  { intros s' f _ Hp Hk. split; try done; [by left|]. intros x. by rewrite Hp. }
  do 4 ucm_step. simpl. destruct o as [x|].
  - destruct Hj as (Hj&Hlast&Hempty). wp_step. ucm_norm.
    match goal with |- ucm_inv ?t _ _ _ ∧ _ => assert (ucm_inv t A R W ∧ kept s t) as [HI1 Hk1] end.
    { eapply (inv_set_cur_cool fastmem p R W HW s A r (Some x) j); try done; [unfold NUM_HOTNESS_LEVELS in *; lia|].
      intros y [= <-]. exists j. split; [unfold NUM_HOTNESS_LEVELS in *; lia|]. by apply last_Some_elem_of. }
    apply last_Some in Hlast as [b Hb]. split_and!; [exact HI1|by eapply Hcd|].
    eexists _, x, j, b. split; [lookup_done|]. unfold NUM_HOTNESS_LEVELS in *. split_and!; [by destruct fastmem..|lia|lia|done|].
    intros i Hi. apply Hempty. lia.
  - do 2 ucm_step. wp_step. ucm_norm.
    edestruct (inv_set_cur_cool fastmem p R W HW s A r None 0 HI Hr) with (s' := s <| u_procs := <[p := r <| pr_mm ::=
      λ v, set_cur_cool_list fastmem 0 (set_cur_cool_list fastmem j (set_cur_cool fastmem None v)) |>]> (u_procs s) |>)
      as [HI1 Hk1]; [done|done| |done..|].
    { rec_simpl. by destruct fastmem. }
    eapply wp_mono; [eapply wp_cool_completed_at; [done|lookup_done]|]. intros [] s2 (HI2&Hcd2&Hn2).
    wp_step. exists A. split_and!; [done| | |done].
    + eapply cooled_trans; [|done]. by eapply Hcd.
    + intros i y Hi Hy. rewrite (proj2 Hj) in Hy by (unfold NUM_HOTNESS_LEVELS in *; lia). by apply not_elem_of_nil in Hy.
Qed.

Lemma wp_cool_pass s A r :
  ucm_inv s A R W → u_procs s !! p = Some r → pr_process_clock r = clock →
  (∀ x pg, u_pages s !! x = Some pg → decayed_index clock pg = c x) →
  (∀ j y, 1 ≤ j < NUM_HOTNESS_LEVELS → y ∈ level A j → y ∈ M) → (2 * length M < COOLING_PAGES)%nat →
  need_cool fastmem (pr_mm r) = true → cur_cool fastmem (pr_mm r) = None → cur_cool_list fastmem (pr_mm r) = 0 →
  wp (partial_cool_impl fastmem p) (λ o s', o = None ∧ pass_ended s A s') s.
Proof using HW.
  intros HI Hr Hclock Ht Hhot HM Hneed Hcur Hlist. unfold partial_cool_impl.
  do 2 ucm_step. rewrite Hneed, Hcur, Hlist. cbn [negb is_null andb Z.eqb]. wp_step.
  eapply wp_mono; [by eapply wp_cool_start|]. intros [] s1 Hs1; cbn [negb]; [|by wp_step].
  destruct Hs1 as (HI1&Hcd1&r1&x&j&b&Hr1&Hc1&Hl1&Hj&Hb&Hempty).
  do 2 ucm_step. rewrite Hc1, Hl1. wp_step. eapply (wp_mono _ (λ _ s2, s2 = s1)).
  { assert (x ∈ level A j) as Hx by (rewrite Hb; set_solver).
    destruct (I_used HI1 Hx) as (pg&r0&Hpg&Hr0&Hu). rewrite Hr1 in Hr0. injection Hr0 as <-.
    destruct (inv_list_of s1 A R W x _ HI1 Hx) as (n&Hn&Hl).
    do 2 ucm_step. do 2 ucm_step; [apply Z.eqb_eq, Hu|]. do 2 ucm_step. rewrite Hl, (up_hot _ _ _ _ _ _ _ Hu).
    by ucm_step; [apply bool_decide_eq_true|]. }
  intros [] s2 ->. wp_step. replace (Some x) with (last (b ++ [x])) by apply last_snoc.
  assert (walking s1 A j (b ++ [x]) []) as Hwk.
  { destruct (kept_proc _ _ _ _ (cd_kept _ _ _ _ Hcd1) Hr) as (r1'&Hr1'&Hk). rewrite Hr1 in Hr1'. injection Hr1' as <-.
    split; try done.
    - exists r1. split; [done|]. unfold proc_keep in Hk. congruence.
    - intros y pg Hy. pose proof (cd_pages _ _ _ _ Hcd1 y) as Hp. rewrite Hy in Hp.
      destruct (u_pages s !! y) as [pg'|] eqn:Hy'; [|done]. apply (inj Some) in Hp.
      rewrite (unlevelled_decayed _ _ _ Hp). by apply Ht.
    - by rewrite app_nil_r.
    - by intros y ?%not_elem_of_nil.
    - intros i y Hi Hy. rewrite Hempty in Hy by done. by apply not_elem_of_nil in Hy. }
  eapply wp_mono.
  { apply (wp_cool_walk COOLING_PAGES s1 A (last (b ++ [x])) j (b ++ [x]) [] Hwk).
    eapply Nat.le_lt_trans; [apply sum_list_with_twice; intros y _; apply rounds_le_2|done]. }
  intros [o i] s2 [[= -> ->] (A2&HI2&Hcd2&Hlev&r2&Hr2&Hn2)]. cbn [fst snd]. do 3 ucm_step. split; [done|].
  destruct (inv_cool_fields p R W HW s2 (s2 <| u_procs := <[p := r2 <| pr_mm ::= set_cur_cool_list fastmem 0 |>]>
    (u_procs s2) |>) A2 r2 (set_cur_cool_list fastmem 0)) as [HI3 Hk3]; try done; try (by destruct fastmem).
  - destruct fastmem; exact (pi_cur_cool _ _ _ _ _ _ (I_proc HI2 Hr2)).
  - intros d. pose proof (pi_cur_cool_list _ _ _ _ _ _ (I_proc HI2 Hr2) d). by destruct fastmem, d.
  - exists A2. split_and!; [done| |done|].
    + eapply cooled_trans; [done|]. eapply cooled_trans; [done|]. split; try done. by left.
    + eexists. split; [lookup_done|]. by destruct fastmem.
Qed.
End pass.
