(* ===== verification/TableOk.v ===== *)
(** * The page tables under the invariant

    Lookups find exactly what the tables hold, [mm_add_page] enters a page
    that was in no table, and [mm_remove_page] takes a page out of the tables
    and leaves it in the free ring of its process. *)

From S2P Require Import Prelude Fifo Ring F64 ProcList Types Hotness Mm MmAsync Inv UcmWp AsyncOk.

Lemma lookup_insert_other (m : gmap Z ptr) k0 k x y :
  m !! k0 = None → y ≠ x → <[k0 := x]> m !! k = Some y ↔ m !! k = Some y.
Proof. intros Hk Hy. rewrite lookup_insert_Some. split; [|naive_solver]. intros [[_ ?]|[_ ?]]; congruence. Qed.

Section tables.
Implicit Types s : ucm.

(** ** uthash *)
Lemma wp_HASH_FIND s table key_of key (Q : option ptr → ucm → Prop) :
  (∀ x, table !! key = Some x → ∃ pg, u_pages s !! x = Some pg ∧ key_of pg = key) →
  Q (table !! key) s → wp (HASH_FIND table key_of key) Q s.
Proof.
  intros Hkey HQ. unfold HASH_FIND. destruct (table !! key) as [x|] eqn:Hx; [|by wp_step].
  destruct (Hkey x) as (pg&Hpg&Hk); [done|]. do 3 ucm_step. by rewrite Hk, Z.eqb_refl.
Qed.

Lemma wp_HASH_ADD s (table : gmap Z ptr) handle key x (Q : gmap Z ptr → ucm → Prop) :
  handle = None → table !! key = None → Q (<[key := x]> table) s →
  wp (HASH_ADD table handle key x) Q s.
Proof. intros -> Hk HQ. unfold HASH_ADD. rewrite Hk. by wp_step. Qed.

Lemma wp_HASH_DELETE s (table : gmap Z ptr) handle key x (Q : gmap Z ptr → ucm → Prop) :
  handle = Some key → table !! key = Some x → Q (delete key table) s →
  wp (HASH_DELETE table handle x) Q s.
Proof. intros -> Hk HQ. unfold HASH_DELETE. rewrite decide_True by done. by wp_step. Qed.

(** ** What the invariant says about the tables *)
Section inv.
Context (s : ucm) (A : list_id → list ptr) (R : ptr → ring_sel → list ptr) (W : option ptr).
Context (HI : ucm_inv s A R W) (p : ptr) (r : hemem_process) (Hr : u_procs s !! p = Some r).

Lemma table_page va x :
  mm_pages (pr_mm r) !! va = Some x →
  ∃ d i pg, x ∈ A (bin d p i) ∧ u_pages s !! x = Some pg ∧
    used_page (u_pa_map s) d p i r x pg ∧ pg_va pg = va ∧ pg_in_free_ring pg = false.
Proof using HI Hr.
  intros Hx. destruct (pi_pages _ _ _ _ _ _ (I_proc HI Hr) _ _ Hx) as [(d&i&_&Hb) (pg&Hpg&Hhh)].
  pose proof (used_here s A R W HI p x d i pg r Hb Hpg Hr) as Hu.
  exists d, i, pg. split_and!; [done..| |].
  - rewrite (up_hh _ _ _ _ _ _ _ Hu) in Hhh. destruct (pg_in_free_ring pg); congruence.
  - rewrite (up_hh _ _ _ _ _ _ _ Hu) in Hhh. by destruct (pg_in_free_ring pg).
Qed.

Lemma cxl_page k x :
  mm_cxl_offset_to_page (pr_mm r) !! k = Some x →
  ∃ i pg, x ∈ A (bin false p i) ∧ u_pages s !! x = Some pg ∧
    used_page (u_pa_map s) false p i r x pg ∧ pg_devdax_offset pg = k ∧ pg_in_free_ring pg = false.
Proof using HI Hr.
  intros Hx. destruct (pi_cxl _ _ _ _ _ _ (I_proc HI Hr) _ _ Hx) as [(d&i&_&Hb) (pg&Hpg&Hhh)].
  pose proof (used_here s A R W HI p x d i pg r Hb Hpg Hr) as Hu.
  rewrite (up_hh_pa _ _ _ _ _ _ _ Hu) in Hhh.
  destruct (pg_in_free_ring pg) eqn:?, d; try done. simpl in Hhh. injection Hhh as Hhh.
  by exists i, pg.
Qed.

Lemma pa_page k x :
  u_pa_map s !! k = Some x →
  ∃ q rq i pg, x ∈ A (bin false q i) ∧ u_pages s !! x = Some pg ∧ u_procs s !! q = Some rq ∧
    used_page (u_pa_map s) false q i rq x pg ∧ pg_devdax_offset pg = k ∧
    pg_in_free_ring pg = false.
Proof using HI.
  intros Hx. destruct (I_pa HI Hx) as [(q&d&i&_&Hb) (pg&Hpg&Hhh)].
  destruct (I_used HI Hb) as (?&rq&?&Hrq&Hu). simplify_eq.
  rewrite (up_hh_pa _ _ _ _ _ _ _ Hu) in Hhh.
  destruct (pg_in_free_ring pg) eqn:?, d; try done. simpl in Hhh. injection Hhh as Hhh.
  by exists q, rq, i, pg.
Qed.

Lemma wp_mm_find_page va (Q : option ptr → ucm → Prop) :
  Q (mm_pages (pr_mm r) !! va) s → wp (mm_find_page p va) Q s.
Proof using HI Hr.
  intros HQ. unfold mm_find_page. do 2 ucm_step. apply wp_HASH_FIND; [|done].
  intros x (d&i&pg&_&?&_&?&_)%table_page. eauto.
Qed.

Lemma wp_mm_find_page_by_cxl_offset k (Q : option ptr → ucm → Prop) :
  Q (mm_cxl_offset_to_page (pr_mm r) !! k) s → wp (mm_find_page_by_cxl_offset p k) Q s.
Proof using HI Hr.
  intros HQ. unfold mm_find_page_by_cxl_offset. do 2 ucm_step. apply wp_HASH_FIND; [|done].
  intros x (i&pg&_&?&_&?&_)%cxl_page. eauto.
Qed.

(** The frame of a free page is in no table. *)
Lemma free_frame d x pg :
  x ∈ A (free_list d) → u_pages s !! x = Some pg → d = false →
  mm_cxl_offset_to_page (pr_mm r) !! pg_devdax_offset pg = None ∧
  u_pa_map s !! pg_devdax_offset pg = None.
Proof using HI Hr.
  intros Hx Hpg ->. destruct (I_free HI Hx) as (?&?&Hf). simplify_eq.
  assert (∀ y q i pgy, y ∈ A (bin false q i) → u_pages s !! y = Some pgy →
    pg_in_dram pgy = false → pg_devdax_offset pgy = pg_devdax_offset pg → False) as Hno.
  { intros y q i pgy Hy Hpgy Hd Ho. apply (bin_free_disjoint _ _ (I_dll HI) false false q i x); [|done].
    replace x with y; [done|]. eapply (I_frames HI); [done..|]. unfold frame.
    rewrite Hd, Ho, (fp_dram _ _ Hf). done. }
  split; apply eq_None_not_Some; intros [y Hy].
  - destruct (cxl_page _ _ Hy) as (i&pgy&?&?&[]&?&_). eauto.
  - destruct (pa_page _ _ Hy) as (q&rq&i&pgy&?&?&?&[]&?&_). eauto.
Qed.
End inv.

(** What a lookup of a slow-tier offset finds. *)
Lemma wp_mm_find_proc_by_cxl_offset s A R W k (Q : option ptr → ucm → Prop) :
  ucm_inv s A R W →
  (u_pa_map s !! k = None → Q None s) →
  (∀ x q i, u_pa_map s !! k = Some x → x ∈ A (bin false q i) → Q (Some q) s) →
  wp (mm_find_proc_by_cxl_offset k) Q s.
Proof.
  intros HI Hnone Hsome. unfold mm_find_proc_by_cxl_offset, pa_proc_map_find. do 3 wp_step.
  assert (∀ x, u_pa_map s !! k = Some x → ∃ q i pg, x ∈ A (bin false q i) ∧
    u_pages s !! x = Some pg ∧ pg_pa_proc_entry pg = entry_for q (Some k)) as Hpa.
  { intros x (q&rq&i&pg&?&?&?&[]&?&Hf)%(pa_page s A R W HI). exists q, i, pg. split_and!; [done..|].
    rewrite up_entry, up_hh_pa, Hf. simpl. by subst. }
  apply wp_HASH_FIND.
  { intros x (q&i&pg&_&Hpg&He)%Hpa. exists pg. by rewrite He. }
  destruct (u_pa_map s !! k) as [x|] eqn:Hx.
  - destruct (Hpa x) as (q&i&pg&Hb&Hpg&He); [done|]. do 2 ucm_step. rewrite He. do 2 wp_step; [done|].
    wp_step. by eapply Hsome.
  - wp_step. auto.
Qed.
End tables.

(** ** Entering a page *)
Definition linked_page (p : ptr) (pg : hemem_page) : hemem_page :=
  if pg_in_dram pg then pg <| pg_hh := Some (pg_va pg) |>
  else pg <| pg_hh := Some (pg_va pg) |> <| pg_hh_pa := Some (pg_devdax_offset pg) |>
          <| pg_pa_proc_entry := entry_for p (Some (pg_devdax_offset pg)) |>.

Definition link_mm (x : ptr) (pg : hemem_page) (mm : process_mem) : process_mem :=
  if pg_in_dram pg then mm <| mm_pages ::= insert (pg_va pg) x |>
  else mm <| mm_pages ::= insert (pg_va pg) x |>
          <| mm_cxl_offset_to_page ::= insert (pg_devdax_offset pg) x |>.

Lemma wp_mm_add_page s p x pg r :
  u_pages s !! x = Some pg → u_procs s !! p = Some r →
  pg_hh pg = None → pg_hh_pa pg = None → pg_pa_proc_entry pg = no_entry →
  mm_pages (pr_mm r) !! pg_va pg = None →
  (pg_in_dram pg = false → mm_cxl_offset_to_page (pr_mm r) !! pg_devdax_offset pg = None ∧
     u_pa_map s !! pg_devdax_offset pg = None) →
  wp (mm_add_page p x) (λ _ s', s' = s
    <| u_pages := <[x := linked_page p pg]> (u_pages s) |>
    <| u_procs := <[p := r <| pr_mm ::= link_mm x pg |>]> (u_procs s) |>
    <| u_pa_map ::= if pg_in_dram pg then id else insert (pg_devdax_offset pg) x |>) s.
Proof.
  intros Hpg Hr Hhh Hhhpa Hentry Hva Hslow. unfold mm_add_page, linked_page, link_mm.
  do 3 ucm_step. unfold mm_find_page. do 2 ucm_step.
  apply wp_HASH_FIND; [congruence|]. rewrite Hva. wp_step. apply wp_when_true; [done|].
  unfold add_to_pages. do 5 ucm_step. apply wp_HASH_ADD; [done..|]. do 3 ucm_step.
  destruct (pg_in_dram pg) eqn:Hd.
  - wp_step. apply wp_when_false; [done|]. apply wp_when_false; [done|]. ucm_norm. by destruct s.
  - destruct Hslow as [Hcxl Hpa]; [done|].
    wp_step. apply wp_when_true; [done|]. unfold mm_find_page_by_cxl_offset. do 3 ucm_step. rec_simpl.
    apply wp_HASH_FIND; [congruence|]. rewrite Hcxl. apply wp_when_true; [done|].
    unfold add_to_cxl. do 5 ucm_step. apply wp_HASH_ADD; [by rec_simpl..|]. do 3 ucm_step.
    apply wp_when_true; [done|]. unfold pa_proc_map_add. do 2 ucm_step. rec_simpl.
    do 2 wp_step; [by rewrite Hd|]. do 2 wp_step; [by rewrite Hentry|]. do 3 wp_step.
    apply wp_HASH_ADD; [by rewrite Hentry|done|]. do 3 ucm_step. ucm_norm. by destruct s.
Qed.

(** ** Taking a page out *)
Definition unlinked_page (pg : hemem_page) : hemem_page :=
  (if pg_in_dram pg then pg <| pg_hh := None |>
   else pg <| pg_hh := None |> <| pg_hh_pa := None |> <| pg_pa_proc_entry := no_entry |>)
  <| pg_in_free_ring := true |>.

Definition unlink_mm (x : ptr) (pg : hemem_page) (mm : process_mem) : process_mem :=
  (if pg_in_dram pg then mm <| mm_pages ::= delete (pg_va pg) |>
   else mm <| mm_pages ::= delete (pg_va pg) |>
           <| mm_cxl_offset_to_page ::= delete (pg_devdax_offset pg) |>)
  <| mm_free_page_ring ::= ring_buf_put x |>.

(** [x] at the end of the free ring of [p]. *)
Definition push_free (R : ptr → ring_sel → list ptr) (p x : ptr) : ptr → ring_sel → list ptr :=
  pop_ring R p FreeRing (R p FreeRing ++ [x]).

(** [mm_remove_page] of the page [x] of the process [p]. *)
Definition retired (s : ucm) (p : ptr) (r : hemem_process) (x : ptr) (pg : hemem_page) : ucm :=
  s <| u_pages := <[x := unlinked_page pg]> (u_pages s) |>
    <| u_procs := <[p := r <| pr_mm ::= unlink_mm x pg |>]> (u_procs s) |>
    <| u_pa_map ::= if pg_in_dram pg then id else delete (pg_devdax_offset pg) |>
    <| u_rings ::= λ c, c <| free_ring_requests ::= λ n, u64 (n + 1) |> |>.

Section remove.
Context (s : ucm) (A : list_id → list ptr) (R : ptr → ring_sel → list ptr) (W : option ptr).
Context (HI : ucm_inv s A R W) (p : ptr) (r : hemem_process) (Hr : u_procs s !! p = Some r).
Context (x : ptr) (pg : hemem_page) (d : bool) (i : Z).
Context (Hx : x ∈ A (bin d p i)) (Hpg : u_pages s !! x = Some pg).
Context (Hnf : pg_in_free_ring pg = false).

Lemma free_ring_room : ring_buf_full (mm_free_page_ring (pr_mm r)) = false.
Proof using HI Hr.
  destruct (pi_ring _ _ _ _ _ _ (I_proc HI Hr) FreeRing) as [Hring Hcap].
  pose proof (ring_short s A R W p r FreeRing HI Hr) as Hlen. unfold MAX_PAGES in Hlen.
  change (mm_free_page_ring (pr_mm r)) with (ring_of FreeRing (pr_mm r)).
  rewrite (ring_buf_full_spec _ _ Hring), Hcap. apply bool_decide_eq_false. unfold CAPACITY. lia.
Qed.

Lemma wp_mm_remove_page_raw (Q : unit → ucm → Prop) :
  Q tt (retired s p r x pg) → wp (mm_remove_page p x) Q s.
Proof using HI Hr Hx Hpg Hnf.
  intros HQ. pose proof (used_here s A R W HI p x d i pg r Hx Hpg Hr) as Hu.
  pose proof (up_hh _ _ _ _ _ _ _ Hu) as Hhh. rewrite Hnf in Hhh.
  pose proof (up_hh_pa _ _ _ _ _ _ _ Hu) as Hhhpa. rewrite Hnf in Hhhpa. simpl in Hhhpa.
  pose proof (up_entry _ _ _ _ _ _ _ Hu) as Hentry.
  pose proof (up_pages _ _ _ _ _ _ _ Hu _ Hhh) as Hpages.
  pose proof free_ring_room as Hfull.
  unfold retired, unlinked_page, unlink_mm in HQ. unfold mm_remove_page. do 2 ucm_step. wp_step.
  apply wp_when_true.
  { apply bool_decide_eq_true. intros He. by rewrite He, lookup_empty in Hpages. }
  unfold delete_from_pages. do 5 ucm_step. eapply wp_HASH_DELETE; [done..|]. do 3 ucm_step. do 2 ucm_step.
  rec_simpl. rewrite (up_dram _ _ _ _ _ _ _ Hu) in *. destruct d.
  - do 2 (wp_step; apply wp_when_false; [done|]).
    unfold mm_internal_enqueue_page_removal. do 2 ucm_step. rec_simpl. rewrite Hnf. do 4 ucm_step. rec_simpl.
    rewrite Hfull. do 3 ucm_step. revert HQ. ucm_norm. by destruct s.
  - destruct (up_cxl _ _ _ _ _ _ _ Hu _ Hhhpa) as [Hcxl Hpa]. rewrite Hhhpa in Hentry.
    wp_step. apply wp_when_true; [done|]. apply wp_when_true.
    { apply bool_decide_eq_true. intros He. by rewrite He, lookup_empty in Hcxl. }
    unfold delete_from_cxl. do 5 ucm_step. eapply wp_HASH_DELETE; [by rec_simpl..|]. do 3 ucm_step.
    wp_step. apply wp_when_true; [done|]. unfold pa_proc_map_remove. do 2 ucm_step. rec_simpl.
    rewrite Hentry. cbn [entry_for pe_used negb]. do 3 wp_step.
    eapply wp_HASH_DELETE; [done|by rec_simpl|]. do 3 ucm_step.
    unfold mm_internal_enqueue_page_removal. do 2 ucm_step. rec_simpl. rewrite Hnf. do 4 ucm_step. rec_simpl.
    rewrite Hfull. do 3 ucm_step. revert HQ. ucm_norm. by destruct s.
Qed.

Lemma unlinked_fields :
  pg_hh (unlinked_page pg) = None ∧ pg_hh_pa (unlinked_page pg) = None ∧
  pg_pa_proc_entry (unlinked_page pg) = no_entry ∧ pg_in_free_ring (unlinked_page pg) = true ∧
  pg_ring_present (unlinked_page pg) = pg_ring_present pg ∧ pg_hot (unlinked_page pg) = pg_hot pg ∧
  frame (unlinked_page pg) = frame pg ∧ pg_pt (unlinked_page pg) = pg_pt pg ∧
  pg_present (unlinked_page pg) = pg_present pg ∧ pg_pid (unlinked_page pg) = pg_pid pg ∧
  pg_va (unlinked_page pg) = pg_va pg.
Proof using HI Hr Hx Hpg.
  pose proof (used_here s A R W HI p x d i pg r Hx Hpg Hr) as Hu.
  pose proof (up_hh_pa _ _ _ _ _ _ _ Hu) as Hhhpa. pose proof (up_entry _ _ _ _ _ _ _ Hu) as Hentry.
  unfold unlinked_page. rewrite (up_dram _ _ _ _ _ _ _ Hu). destruct d; [|done].
  rewrite orb_true_r in Hhhpa. rewrite Hhhpa in Hentry. done.
Qed.

Lemma unlink_tables k y :
  (mm_pages (unlink_mm x pg (pr_mm r)) !! k = Some y ↔ y ≠ x ∧ mm_pages (pr_mm r) !! k = Some y) ∧
  (mm_cxl_offset_to_page (unlink_mm x pg (pr_mm r)) !! k = Some y ↔
     y ≠ x ∧ mm_cxl_offset_to_page (pr_mm r) !! k = Some y) ∧
  ((if pg_in_dram pg then id else delete (pg_devdax_offset pg)) (u_pa_map s) !! k = Some y ↔
     y ≠ x ∧ u_pa_map s !! k = Some y).
Proof using HI Hr Hx Hpg Hnf.
  pose proof (used_here s A R W HI p x d i pg r Hx Hpg Hr) as Hu.
  pose proof (up_hh _ _ _ _ _ _ _ Hu) as Hhh. rewrite Hnf in Hhh.
  pose proof (up_hh_pa _ _ _ _ _ _ _ Hu) as Hhhpa. rewrite Hnf in Hhhpa. simpl in Hhhpa.
  assert (∀ k, mm_pages (pr_mm r) !! k = Some x → k = pg_va pg) as H1.
  { intros j (_&?&?&?)%(pi_pages _ _ _ _ _ _ (I_proc HI Hr)). congruence. }
  assert (∀ k, mm_cxl_offset_to_page (pr_mm r) !! k = Some x → d = false ∧ k = pg_devdax_offset pg) as H2.
  { intros j (_&?&?&?)%(pi_cxl _ _ _ _ _ _ (I_proc HI Hr)). destruct d; split; congruence. }
  assert (∀ k, u_pa_map s !! k = Some x → d = false ∧ k = pg_devdax_offset pg) as H3.
  { intros j (_&?&?&?)%(I_pa HI). destruct d; split; congruence. }
  pose proof (up_pages _ _ _ _ _ _ _ Hu _ Hhh) as K1.
  pose proof (up_cxl _ _ _ _ _ _ _ Hu) as K2. rewrite Hhhpa in K2.
  unfold unlink_mm. rewrite (up_dram _ _ _ _ _ _ _ Hu). destruct d; rec_simpl; unfold id;
    rewrite ?lookup_delete_Some; split_and!; naive_solver.
Qed.

Lemma proc_inv_retired :
  proc_inv (<[x := unlinked_page pg]> (u_pages s)) A (push_free R p x) W p
    (r <| pr_mm ::= unlink_mm x pg |>).
Proof using HI Hr Hx Hpg Hnf.
  pose proof (I_proc HI Hr) as Hproc. pose proof unlink_tables as Htab.
  pose proof (used_here s A R W HI p x d i pg r Hx Hpg Hr) as Hu.
  destruct unlinked_fields as (E1&E2&_&E3&E4&_).
  assert (in_bins A p x) as Hb by (exists d, i; split; [apply Hu|done]).
  assert (x ∉ R p FreeRing) as Hxf.
  { intros (_&?&?&?)%(pi_free_ring _ _ _ _ _ _ Hproc). congruence. }
  pose proof free_ring_room as Hroom. destruct Hproc.
  assert (∀ sel, FreeRing ≠ sel → ring_of sel (unlink_mm x pg (pr_mm r)) = ring_of sel (pr_mm r)) as Hsel.
  { intros [] ?; [..|done]; unfold unlink_mm; by destruct (pg_in_dram pg). }
  assert (ring_of FreeRing (unlink_mm x pg (pr_mm r)) = ring_buf_put x (ring_of FreeRing (pr_mm r))) as Hfree.
  { unfold unlink_mm. by destruct (pg_in_dram pg). }
  unfold push_free. split; rec_simpl; try (unfold unlink_mm; by destruct (pg_in_dram pg)).
  - intros k y [Hy Hk]%(proj1 (Htab k y)). rewrite lookup_insert_ne by done. auto.
  - intros k y [Hy Hk]%(proj1 (proj2 (Htab k y))). rewrite lookup_insert_ne by done. auto.
  - intros sel. destruct (decide (FreeRing = sel)) as [<-|Hs].
    + rewrite pop_ring_eq, Hfree, ring_buf_put_capacity. destruct (pi_ring FreeRing) as [Hq Hcap].
      split; [|done]. pose proof (ring_buf_put_spec _ _ x Hq) as Hput.
      simpl in Hroom, Hq, Hput |- *. by rewrite <- (ring_buf_full_spec _ _ Hq), Hroom in Hput.
    + rewrite pop_ring_sel, Hsel by done. auto.
  - intros y. rewrite pop_ring_eq, elem_of_app, list_elem_of_singleton, pi_free_ring, lookup_insert.
    case_decide as Hy; [subst y; naive_solver|]. naive_solver.
  - rewrite pop_ring_eq. apply NoDup_app. split_and!; [done| |apply NoDup_singleton]. set_solver.
  - intros y. rewrite !pop_ring_sel by done. intros Hy. destruct (pi_requests y Hy) as [? (pgy&Hpgy&?)].
    split; [done|]. rewrite lookup_insert. case_decide as Heq; [|eauto]. subst y.
    eexists. split; [done|]. congruence.
  - by rewrite !pop_ring_sel.
Qed.

Lemma inv_retired : W = None ∨ W = Some p → ucm_inv (retired s p r x pg) A (push_free R p x) W.
Proof using HI Hr Hx Hpg Hnf.
  intros HW. pose proof (used_here s A R W HI p x d i pg r Hx Hpg Hr) as Hu.
  pose proof unlink_tables as Htab. pose proof proc_inv_retired as Hproc.
  destruct unlinked_fields as (E1&E2&E3&E4&E5&E6&E7&E8&E9&E10&E11).
  assert (in_bins A p x) as Hb by (exists d, i; split; [apply Hu|done]).
  eapply (inv_page s _ A A R _ W p r _ x pg (unlinked_page pg)); try done.
  - apply HI.
  - intros q Hq. by eapply (in_bins_unique _ _ (I_dll HI)).
  - right. exists d, i. split; [done|]. assert (pg_in_dram (unlinked_page pg) = pg_in_dram pg) as E7' by (unfold frame in E7; congruence).
    destruct Hu.
    split; rewrite ?E1, ?E2, ?E3, ?E4, ?E5, ?E6, ?E7', ?E9, ?E10, ?E11; done.
  - intros k y Hy. destruct (Htab k y) as (Ht&_). rec_simpl. rewrite Ht. naive_solver.
  - intros k y Hy. destruct (Htab k y) as (_&Ht&_). rec_simpl. rewrite Ht. naive_solver.
  - intros k y Hy. destruct (Htab k y) as (_&_&Ht). unfold retired. rec_simpl. rewrite Ht. naive_solver.
  - intros k Hk. destruct (Htab k x) as (_&_&Ht). unfold retired in Hk. rec_simpl_in Hk. naive_solver.
  - intros q Hq. by apply pop_ring_ne.
Qed.
End remove.
