(* ===== verification/AllocOk.v ===== *)
(** * Allocation keeps the invariant

    One page: the allocator of either mode takes a page off a free list and
    charges the process, [install_page] clears its frame, enters it in the
    tables and links it at the coldest level.  Then the loop of
    [ucm_allocate_memory]. *)

From S2P Require Import Prelude Fifo Ring F64 ProcList Types Hotness Mm MmAsync Ucm Inv UcmWp AsyncOk TableOk.

(** ** Locks *)
Lemma wp_lock_process s p (Q : unit → ucm → Prop) :
  inr p ∉ held (u_pq s) →
  Q tt (s <| u_pq ::= λ q, q <| held := {[ inr p ]} ∪ held q |> |>) → wp (lock_process p) Q s.
Proof. intros Hp HQ. unfold lock_process. wp_step. unfold wp, lock. by rewrite decide_False. Qed.

Lemma wp_unlock_process s p (Q : unit → ucm → Prop) :
  inr p ∈ held (u_pq s) →
  Q tt (s <| u_pq ::= λ q, q <| held := held q ∖ {[ inr p ]} |> |>) → wp (unlock_process p) Q s.
Proof. intros Hp HQ. unfold unlock_process. wp_step. unfold wp, unlock. by rewrite decide_True. Qed.

Lemma lock_unlock (t : ucm) h p :
  inr p ∉ held (u_pq t) →
  t <| u_pq ::= λ q, q <| held := {[ inr p ]} ∪ held q |> |> <| u_plist := h |>
    <| u_pq ::= λ q, q <| held := held q ∖ {[ inr p ]} |> |> = t <| u_plist := h |>.
Proof.
  intros Hp. destruct t as [? ? ? [hq K]]. unfold upd, set_u_pq, set_u_plist, set_held; simpl in *.
  do 2 f_equal. set_solver.
Qed.

(** Charge a huge page to the tier [d] of a process. *)
Definition charge (d : bool) (mm : process_mem) : process_mem :=
  if d then mm <| mm_current_fastmem ::= λ n, u64 (n + HUGEPAGE_SIZE) |>
  else mm <| mm_current_slowmem ::= λ n, u64 (n + HUGEPAGE_SIZE) |>.

Section one.
Context (s : ucm) (A : list_id → list ptr) (R : ptr → ring_sel → list ptr).
Context (HI : ucm_inv s A R None) (p : ptr) (r : hemem_process) (Hr : u_procs s !! p = Some r).
Context (Hlock : inr p ∉ held (u_pq s)).

(** The page [x], the last of the free list of the tier [d], has been taken
    for the process [p]. *)
Definition taken (d : bool) (x : ptr) (s1 : ucm) : Prop :=
  ∃ pg h b, u_pages s !! x = Some pg ∧ A (free_list d) = b ++ [x] ∧
    dll_ok h (<[free_list d := b]> A) ∧ same_shape (u_plist s) h ∧
    links h !! x = Some detached ∧
    s1 = s <| u_pages := <[x := pg <| pg_present := true |> <| pg_pid := pr_pid r |>]> (u_pages s) |>
           <| u_procs := <[p := r <| pr_mm ::= charge d |>]> (u_procs s) |>
           <| u_plist := h |>.

Definition locked : ucm := s <| u_pq ::= λ q, q <| held := {[ inr p ]} ∪ held q |> |>.

Lemma wp_take_page loc loc' d x h b :
  A (free_list d) = b ++ [x] → dll_ok h (<[free_list d := b]> A) →
  same_shape (u_plist s) h → links h !! x = Some detached →
  wp (take_page loc loc' d p x) (λ _ s1, taken d x s1) (locked <| u_plist := h |>).
Proof using HI Hr Hlock.
  intros HA Hdll Hsh Hdet. destruct (I_free HI (d:=d) (x:=x)) as (pg&Hpg&Hf); [rewrite HA; set_solver|].
  pose proof (pp_pt _ _ (I_phys HI Hpg)) as Hpt.
  unfold take_page, locked. do 2 ucm_step. do 2 ucm_step; [rewrite (fp_dram _ _ Hf); by apply Bool.eqb_true_iff|].
  do 2 ucm_step; [by rewrite (fp_present _ _ Hf)|]. do 8 ucm_step. rewrite Hpt. cbn [pt_to_pagesize].
  apply wp_unlock_process; [rec_simpl; set_solver|].
  exists pg, h, b. split_and!; [done..|]. ucm_norm.
  rewrite lock_unlock by done. by destruct d.
Qed.

Lemma wp_allocate mode :
  wp (get_alloc_fn_by_mode mode p) (λ o s1,
    match o with
    | Some x => ∃ d, taken d x s1
    | None => s1 = locked ∧ A SlowFree = [] ∧
        (A FastFree = [] ∨ mode = FASTMEM_PREFERRED ∧
           mm_max_fastmem (pr_mm r) ≤ mm_current_fastmem (pr_mm r))
    end) s.
Proof using HI Hr Hlock.
  assert (∀ d, is_Some (headers (u_plist s) !! free_list d)) as Hhd
    by (intros; by eapply inv_free_header).
  assert (∀ loc loc' d h b x, A (free_list d) = b ++ [x] → dll_ok h (<[free_list d := b]> A) →
    same_shape (u_plist s) h → links h !! x = Some detached →
    wp (take_page loc loc' d p x;; mret (Some x)) (λ o s1,
      match o with
      | Some x => ∃ d, taken d x s1
      | None => s1 = locked ∧ A SlowFree = [] ∧
          (A FastFree = [] ∨ mode = FASTMEM_PREFERRED ∧
             mm_max_fastmem (pr_mm r) ≤ mm_current_fastmem (pr_mm r))
      end) (locked <| u_plist := h |>)) as Htake.
  { intros. wp_step. eapply wp_mono; [by eapply wp_take_page|]. intros [] s1 ?. wp_step. eauto. }
  assert (dll_ok (u_plist locked) A) as Hdll by apply (I_dll HI).
  unfold get_alloc_fn_by_mode. destruct mode;
    [unfold allocate_fastmem_preferred|unfold allocate_slowmem_preferred];
    wp_step; (apply wp_lock_process; [done|]); fold locked.
  - do 3 ucm_step. wp_if Hquota.
    + eapply (wp_zoom_dequeue A locked FastFree); [done|apply (Hhd true)|intros Hfast|].
      * wp_step. eapply (wp_zoom_dequeue A locked SlowFree); [done|apply (Hhd false)|intros Hslow|].
        -- wp_step. auto.
        -- intros h b x HA ???. by apply (Htake _ _ false h b x).
      * intros h b x HA ???. by apply (Htake _ _ true h b x).
    + do 2 wp_step. eapply (wp_zoom_dequeue A locked SlowFree); [done|apply (Hhd false)|intros Hslow|].
      * wp_step. split_and!; [done..|]. right. split; [done|lia].
      * intros h b x HA ???. by apply (Htake _ _ false h b x).
  - wp_step. eapply (wp_zoom_dequeue A locked SlowFree); [done|apply (Hhd false)|intros Hslow|].
    + wp_step. eapply (wp_zoom_dequeue A locked FastFree); [done|apply (Hhd true)|intros Hfast|].
      * wp_step. auto.
      * intros h b x HA ???. by apply (Htake _ _ true h b x).
    + intros h b x HA ???. by apply (Htake _ _ false h b x).
Qed.
End one.

(** ** A page that joins a process *)

(** The process after the free page [x] has joined its list at level [i]. *)
Section join.
Context (pages : gmap ptr hemem_page) (h h' : page_lists list_id).
Context (A A' : list_id → list ptr) (R : ptr → ring_sel → list ptr).
Context (p : ptr) (r r' : hemem_process) (x : ptr) (d : bool) (i : Z) (pg' : hemem_page).
Context (Hproc : proc_inv pages A R None p r) (Hdll : dll_ok h A) (Hdll' : dll_ok h' A').
Context (Hfree : x ∈ A (free_list d)) (Hi : 0 ≤ i < NUM_HOTNESS_LEVELS) (Hx : x ∈ A' (bin d p i)).
Context (HA : ∀ y l, y ≠ x → y ∈ A' l ↔ y ∈ A l).

Lemma join_tier d' q y : in_tier A' d' q y ↔ in_tier A d' q y ∨ y = x ∧ d' = d ∧ q = p.
Proof using Hdll Hdll' Hfree Hi Hx HA.
  unfold in_tier. destruct (decide (y = x)) as [->|Hy]; [|setoid_rewrite HA; naive_solver]. split.
  - intros (j&?&Hj). destruct (bins_unique _ _ Hdll' _ _ _ _ _ _ _ Hj Hx) as (->&->&->). auto.
  - intros [(j&?&Hj)|(_&->&->)]; [|eauto]. by destruct (bin_free_disjoint _ _ Hdll d' d q j x).
Qed.

Lemma join_count d' :
  bin_count A' d' p = bin_count A d' p + (if Bool.eqb d' d then 1 else 0).
Proof using Hdll Hdll' Hfree Hi Hx HA.
  destruct (Bool.eqb_spec d' d) as [->|Hd].
  - apply (bin_count_add h h' A A' d p x); [done..| |].
    + intros (j&_&Hj). by destruct (bin_free_disjoint _ _ Hdll d d p j x).
    + intros y. rewrite join_tier. naive_solver.
  - rewrite Z.add_0_r. eapply bin_count_same; [done..|]. intros y. rewrite join_tier. naive_solver.
Qed.

Lemma proc_inv_joined :
  pr_pid r' = pr_pid r →
  (is_Some (pr_phh r') →
    mm_current_fastmem (pr_mm r') = HUGEPAGE_SIZE * (bin_count A true p + (if d then 1 else 0))) →
  (is_Some (pr_phh r') →
    mm_current_slowmem (pr_mm r') = HUGEPAGE_SIZE * (bin_count A false p + (if d then 0 else 1))) →
  (∀ k y, mm_pages (pr_mm r') !! k = Some y →
     mm_pages (pr_mm r) !! k = Some y ∨ y = x ∧ pg_hh pg' = Some k) →
  (∀ k y, mm_cxl_offset_to_page (pr_mm r') !! k = Some y →
     mm_cxl_offset_to_page (pr_mm r) !! k = Some y ∨ y = x ∧ pg_hh_pa pg' = Some k) →
  (∀ sel, ring_of sel (pr_mm r') = ring_of sel (pr_mm r)) →
  (∀ d, cur_cool d (pr_mm r') = cur_cool d (pr_mm r)) →
  (∀ d, cur_cool_list d (pr_mm r') = cur_cool_list d (pr_mm r)) →
  pg_in_free_ring pg' = false →
  proc_inv (<[x := pg']> pages) A' R None p r'.
Proof using Hproc Hdll Hdll' Hfree Hi Hx HA.
  intros E1 E2 E3 Htab Hcxl Hring Hcur Hlist Hnf. pose proof join_tier as Htier.
  assert (∀ y, in_bins A p y → y ≠ x) as Hne.
  { intros y Hy ->. by apply (in_bins_free _ _ Hdll p d x). }
  assert (∀ y, in_bins A' p y ↔ in_bins A p y ∨ y = x) as Hbins.
  { intros y. unfold in_bins. setoid_rewrite Htier. naive_solver. }
  destruct Hproc. split; rewrite ?E1, ?join_count; auto.
  - intros Hh. rewrite E2 by done. by destruct d.
  - intros Hh. rewrite E3 by done. by destruct d.
  - intros k y [Hy|[-> ?]]%Htab.
    + destruct (pi_pages k y Hy) as [Hb ?]. rewrite lookup_insert_ne by (symmetry; auto).
      split; [|done]. apply Hbins. auto.
    + rewrite lookup_insert_eq. split; [apply Hbins; auto|eauto].
  - intros k y [Hy|[-> ?]]%Hcxl.
    + destruct (pi_cxl k y Hy) as [Hb ?]. rewrite lookup_insert_ne by (symmetry; auto).
      split; [|done]. apply Hbins. auto.
    + rewrite lookup_insert_eq. split; [apply Hbins; auto|eauto].
  - intros sel. rewrite Hring. auto.
  - intros y. rewrite pi_free_ring, Hbins, lookup_insert. case_decide as Hy; [|naive_solver]. subst y.
    split; [intros [Hb _]; by destruct (Hne x Hb)|]. intros [_ (pgy&[= <-]&?)]. congruence.
  - intros y Hy. destruct (pi_requests y Hy) as [[Hb|[? _]] Hpg]; [|done].
    rewrite lookup_insert_ne by (symmetry; auto). split; [|done]. left. apply Hbins. auto.
  - intros d' y. rewrite Hcur, Htier. intros Hy. left. auto.
  - intros d'. rewrite Hlist. auto.
Qed.
End join.

(** ** Installing the page *)

(** What handlers that do not touch it leave alone. *)
Definition misc (s : ucm) :=
  (u_pq s, u_proc_map s, u_remap_locked s, u_pebs_stats s, u_scan_epoch s,
   u_fastmem_size s, u_slowmem_size s, u_fastmem_ptr s, u_slowmem_ptr s, u_app s, u_ipc s).

(** The part of a process that requests for memory do not touch. *)
Definition proc_steady (r : hemem_process) :=
  (pr_pid r, pr_uffd r, pr_exited r, pr_valid_uffd r, pr_remap_fd r, pr_zero r,
   pr_process_clock r, pr_phh r, pr_policy r, pr_stats r, mm_max_fastmem (pr_mm r)).

(** The page [x] of the free list of the tier [d] has become the page of the
    process [p] at the virtual address [va], and its frame has been cleared. *)
Record allocated (s : ucm) (A : list_id → list ptr) (R : ptr → ring_sel → list ptr) (p : ptr)
    (d : bool) (x : ptr) (va : Z) (s' : ucm) (A' : list_id → list ptr) : Prop := Allocated {
  al_inv : ucm_inv s' A' R None;
  al_from : x ∈ A (free_list d);
  al_to : x ∈ A' (bin d p COLD);
  al_rest y l : y ≠ x → y ∈ A' l ↔ y ∈ A l;
  al_free d' : A' (free_list d') = A (free_list d') ∨ A (free_list d') = A' (free_list d') ++ [x];
  al_page : ∃ pg pg', u_pages s !! x = Some pg ∧ u_pages s' = <[x := pg']> (u_pages s) ∧
    pg_va pg' = va ∧ frame pg' = frame pg ∧ pg_pt pg' = pg_pt pg ∧
    u_mem s' = mem_set (tier_of d) (pg_devdax_offset pg) HUGEPAGE_SIZE 0 (u_mem s);
  al_proc : ∃ r r', u_procs s !! p = Some r ∧ u_procs s' = <[p := r']> (u_procs s) ∧
    mm_pages (pr_mm r') = <[va := x]> (mm_pages (pr_mm r)) ∧
    mm_mem_allocated (pr_mm r') = u64 (mm_mem_allocated (pr_mm r) + HUGEPAGE_SIZE) ∧
    proc_steady r' = proc_steady r;
  al_misc : misc s' = misc s;
}.

Section install.
Context (s : ucm) (A : list_id → list ptr) (R : ptr → ring_sel → list ptr).
Context (HI : ucm_inv s A R None) (p : ptr) (r : hemem_process) (Hr : u_procs s !! p = Some r).
Context (va : Z) (Hva : va ≠ 0) (Haligned : va mod HUGEPAGE_SIZE = 0).
Context (Hnew : mm_pages (pr_mm r) !! va = None).

Definition installed_page (pg : hemem_page) : hemem_page :=
  linked_page p (pg <| pg_present := true |> <| pg_pid := pr_pid r |> <| pg_va := va |>
    <| pg_pid := pr_pid r |> <| pg_uffd := pr_uffd r |> <| pg_migrating := false |>
    <| pg_migrations_up := 0 |> <| pg_migrations_down := 0 |>).

Definition installed_mm (x : ptr) (pg : hemem_page) (d : bool) (mm : process_mem) : process_mem :=
  (if d then mm <| mm_pages ::= insert va x |>
   else mm <| mm_pages ::= insert va x |>
           <| mm_cxl_offset_to_page ::= insert (pg_devdax_offset pg) x |>)
  <| mm_mem_allocated ::= λ n, u64 (n + HUGEPAGE_SIZE) |>.

Lemma charge_count d c0 c1 :
  mm_current_fastmem (pr_mm r) = HUGEPAGE_SIZE * c0 →
  mm_current_slowmem (pr_mm r) = HUGEPAGE_SIZE * c1 →
  0 ≤ c0 < MAX_PAGES → 0 ≤ c1 < MAX_PAGES →
  mm_current_fastmem (charge d (pr_mm r)) = HUGEPAGE_SIZE * (c0 + (if d then 1 else 0)) ∧
  mm_current_slowmem (charge d (pr_mm r)) = HUGEPAGE_SIZE * (c1 + (if d then 0 else 1)).
Proof.
  intros E0 E1 B0 B1. unfold charge, MAX_PAGES, HUGEPAGE_SIZE in *.
  destruct d; rec_simpl; rewrite ?E0, ?E1, ?u64_small by lia; lia.
Qed.

Lemma installed_used d x pg :
  free_page d pg →
  used_page ((if d then id else insert (pg_devdax_offset pg) x) (u_pa_map s)) d p COLD
    (r <| pr_mm := installed_mm x pg d (charge d (pr_mm r)) |>) x (installed_page pg).
Proof using Hva Haligned.
  intros []. unfold installed_page, linked_page. rec_simpl. rewrite fp_dram.
  destruct d; (constructor; rec_simpl; rewrite ?fp_in_free_ring, ?fp_hh_pa, ?fp_entry;
    [done|done|done|done|done|done|done|done|done|done| |]); intros k Hk;
    try done; apply (inj Some) in Hk; subst k;
    unfold installed_mm, charge; cbv beta iota; rec_simpl; rewrite !lookup_insert_eq; auto.
Qed.

Lemma installed_mm_fields x pg d mm :
  let mm' := installed_mm x pg d (charge d mm) in
  mm_pages mm' = <[va := x]> (mm_pages mm) ∧
  mm_cxl_offset_to_page mm' =
    (if d then id else insert (pg_devdax_offset pg) x) (mm_cxl_offset_to_page mm) ∧
  mm_current_fastmem mm' = mm_current_fastmem (charge d mm) ∧
  mm_current_slowmem mm' = mm_current_slowmem (charge d mm) ∧
  mm_mem_allocated mm' = u64 (mm_mem_allocated mm + HUGEPAGE_SIZE) ∧
  (∀ sel, ring_of sel mm' = ring_of sel mm) ∧ (∀ d', cur_cool d' mm' = cur_cool d' mm) ∧
  (∀ d', cur_cool_list d' mm' = cur_cool_list d' mm).
Proof. destruct d; split_and!; try done; by intros []. Qed.

Lemma installed_page_fields d pg :
  free_page d pg →
  pg_hh (installed_page pg) = Some va ∧
  pg_hh_pa (installed_page pg) = (if d then None else Some (pg_devdax_offset pg)) ∧
  pg_in_free_ring (installed_page pg) = false ∧ pg_va (installed_page pg) = va ∧
  pg_pt (installed_page pg) = pg_pt pg ∧ frame (installed_page pg) = frame pg.
Proof.
  intros []. unfold installed_page, linked_page, frame. rec_simpl. rewrite fp_dram.
  destruct d; rec_simpl; split_and!; congruence.
Qed.

Lemma installed_inv s' d x pg h b :
  u_pages s !! x = Some pg → A (free_list d) = b ++ [x] → free_page d pg →
  let A' := <[bin d p COLD := x :: (<[free_list d := b]> A) (bin d p COLD)]> (<[free_list d := b]> A) in
  dll_ok h A' → same_shape (u_plist s) h →
  u_pages s' = <[x := installed_page pg]> (u_pages s) →
  u_procs s' = <[p := r <| pr_mm := installed_mm x pg d (charge d (pr_mm r)) |>]> (u_procs s) →
  u_plist s' = h →
  u_pa_map s' = (if d then id else insert (pg_devdax_offset pg) x) (u_pa_map s) →
  misc s' = misc s → ucm_inv s' A' R None.
Proof using HI Hr Hva Haligned Hnew.
  intros Hpg HAx Hf A' Hdll Hsh Hpages Hprocs Hplist Hpa Hmisc.
  injection Hmisc as _ _ _ _ _ Hfs Hss _ _ _ _.
  assert (x ∈ A (free_list d)) as Hxf by (rewrite HAx; set_solver).
  assert (x ∈ A' (bin d p COLD)) as Hx' by (unfold A'; rewrite fn_lookup_insert; set_solver).
  assert (∀ y l, y ≠ x → y ∈ A' l ↔ y ∈ A l) as HA'.
  { intros y l Hy. unfold A'. by rewrite elem_of_push, (elem_of_pop _ _ _ _ _ _ HAx). }
  pose proof (free_frame s A R None HI p r Hr d x pg Hxf Hpg) as Hfr.
  pose proof (I_proc HI Hr) as Hproc.
  assert (is_Some (pr_phh r) →
    mm_current_fastmem (charge d (pr_mm r)) = HUGEPAGE_SIZE * (bin_count A true p + (if d then 1 else 0)) ∧
    mm_current_slowmem (charge d (pr_mm r)) = HUGEPAGE_SIZE * (bin_count A false p + (if d then 0 else 1)))
    as Hcount.
  { intros Hh. apply charge_count; [by apply Hproc..|by eapply bin_count_range|by eapply bin_count_range]. }
  destruct (installed_mm_fields x pg d (pr_mm r)) as (M1&M2&M3&M4&_&M5&M6&M7).
  destruct (installed_page_fields d pg) as (P1&P2&P3&_&P4&P5); [done|].
  assert (∀ k y, y ≠ x → u_pa_map s' !! k = Some y ↔ u_pa_map s !! k = Some y) as Hpa'.
  { intros k y Hy. rewrite Hpa. destruct d; [done|]. apply lookup_insert_other; [by apply Hfr|done]. }
  eapply (inv_page s s' A A' R R None p r _ x pg (installed_page pg));
    [done|by left|done|exact Hprocs|done|done|exact Hpages|done|done|..]; try done; rec_simpl.
  - by rewrite Hplist.
  - by rewrite Hplist.
  - intros q Hq. by destruct (in_bins_free _ _ (I_dll HI) q d x).
  - right. exists d, COLD. split; [done|]. rewrite Hpa. by apply installed_used.
  - intros k y Hy. rewrite M1. by apply lookup_insert_other.
  - intros k y Hy. rewrite M2. destruct d; [done|]. apply lookup_insert_other; [by apply Hfr|done].
  - intros k Hk. split; [by exists d, COLD|]. rewrite Hpa in Hk. rewrite P2.
    assert (u_pa_map s !! k = Some x → False) as Hno.
    { intros Hk'. destruct (I_pa HI Hk') as [(q&Hq) _]. by destruct (in_bins_free _ _ (I_dll HI) q d x). }
    destruct d; [done|]. apply lookup_insert_Some in Hk as [[-> _]|[_ Hk]]; [done|]. by destruct Hno.
  - rewrite Hpages. eapply (proc_inv_joined (u_pages s) (u_plist s) h A A' R p r _ x d COLD);
      [done|apply HI|done|done|done|done|done|done|..]; rec_simpl; try done.
    + intros Hh. rewrite M3. by apply Hcount.
    + intros Hh. rewrite M4. by apply Hcount.
    + intros k y. rewrite M1, P1, lookup_insert_Some. intros [[-> ->]|[_ ?]]; auto.
    + intros k y. rewrite M2, P2. destruct d; [by left|]. rewrite lookup_insert_Some.
      intros [[-> ->]|[_ ?]]; auto.
Qed.

Lemma installed_page_eq pg :
  linked_page p (pg <| pg_present := true |> <| pg_pid := pr_pid r |> <| pg_va := va |>
    <| pg_pid := pr_pid r |> <| pg_uffd := pr_uffd r |> <| pg_migrating := false |>
    <| pg_migrations_up := 0 |> <| pg_migrations_down := 0 |>) = installed_page pg.
Proof. unfold installed_page. reflexivity. Qed.

Lemma upd_pr_mm (q : hemem_process) f : q <| pr_mm ::= f |> = q <| pr_mm := f (pr_mm q) |>.
Proof. by destruct q. Qed.

Lemma installed_mm_link d x pg mm :
  free_page d pg →
  (link_mm x (pg <| pg_present := true |> <| pg_pid := pr_pid r |> <| pg_va := va |>
    <| pg_pid := pr_pid r |> <| pg_uffd := pr_uffd r |> <| pg_migrating := false |>
    <| pg_migrations_up := 0 |> <| pg_migrations_down := 0 |>) (charge d mm))
  <| mm_mem_allocated ::= λ n, u64 (n + HUGEPAGE_SIZE) |> = installed_mm x pg d (charge d mm).
Proof.
  intros Hf. generalize (charge d mm). intros m. unfold link_mm, installed_mm. rec_simpl.
  rewrite (fp_dram _ _ Hf). by destruct d.
Qed.

Lemma wp_install_page d x s1 :
  taken s A p r d x s1 →
  wp (install_page p x va) (λ a s', ∃ A', allocated s A R p d x va s' A' ∧
    ∃ pg, u_pages s' !! x = Some pg ∧
      a = PageApp (pg_va pg) (pg_devdax_offset pg) (pg_in_dram pg) (pg_pt pg)) s1.
Proof using HI Hr Hva Haligned Hnew.
  intros (pg&h&b&Hpg&HA&Hdll&Hsh&Hdet&->).
  assert (x ∈ A (free_list d)) as Hxf by (rewrite HA; set_solver).
  destruct (I_free HI Hxf) as (?&?&Hf). simplify_eq.
  pose proof (pp_pt _ _ (I_phys HI Hpg)) as Hpt.
  pose proof (free_frame s A R None HI p r Hr d x pg Hxf Hpg) as Hfr.
  unfold install_page. do 2 ucm_step. rec_simpl. rewrite (fp_dram _ _ Hf), Hpt. unfold hemem_memset. cbn [pt_to_pagesize].
  do 6 ucm_step. rec_simpl. do 2 ucm_step. do 2 ucm_step; [by rewrite (proj2 (Z.eqb_neq _ _) Hva)|].
  do 2 ucm_step; [by rewrite Haligned|]. do 2 ucm_step. wp_step. eapply wp_mono.
  { eapply wp_mm_add_page; [lookup_done|lookup_done|..]; rec_simpl; try apply Hf.
    - unfold charge. by destruct d.
    - rewrite (fp_dram _ _ Hf). intros ->. destruct Hfr as [??]; [done|]. unfold charge. by rec_simpl. }
  intros [] s2 ->. rec_simpl. rewrite (fp_dram _ _ Hf).
  wp_step. eapply (wp_zoom_enqueue (<[free_list d := b]> A)); rec_simpl; [done| |done|].
  { rewrite <- elem_of_dom, (proj2 Hsh), elem_of_dom. eapply (inv_bin_header s A R None); [done|eauto|].
    unfold COLD, NUM_HOTNESS_LEVELS. lia. }
  intros h2 Hdll2 Hsh2. unfold ucm_stats_record_page_allocated. do 5 ucm_step. ucm_norm.
  destruct (installed_page_fields d pg Hf) as (P1&P2&P3&P4&P5&P6).
  destruct (installed_mm_fields x pg d (pr_mm r)) as (M1&M2&M3&M4&M5&_).
  rewrite installed_page_eq, upd_pr_mm. cbv beta.
  rewrite (installed_mm_link d x pg _ Hf).
  eexists. split; [|exists (installed_page pg); split; [apply lookup_insert_eq|]].
  2: { unfold frame in P6. injection P6 as P6 P6'. by rewrite P4, P5, P6, P6', (fp_dram _ _ Hf), Hpt. }
  split; rec_simpl.
  - eapply (installed_inv _ d x pg h2 b); try done. by eapply same_shape_trans.
  - done.
  - rewrite fn_lookup_insert, elem_of_cons. by left.
  - intros y l Hy. by rewrite elem_of_push, (elem_of_pop _ _ _ _ _ _ HA).
  - intros d'. rewrite fn_lookup_insert_ne by apply bin_not_free. destruct (decide (d' = d)) as [->|Hd].
    + right. by rewrite fn_lookup_insert.
    + left. rewrite fn_lookup_insert_ne; [done|]. intros ?%free_list_inj. done.
  - exists pg, (installed_page pg). by split_and!.
  - exists r. eexists. split_and!; [done..|]. unfold proc_steady. rec_simpl. by destruct d.
  - done.
Qed.
End install.
