(* ===== verification/RequestOk.v ===== *)
(** * Requests of the applications keep the invariant

    [ucm_allocate_memory], [ucm_deallocate_memory] and [ucm_map_fixed]: the
    loops over the pages of a range, with what they return, what they map and
    what they leave alone. *)

From S2P Require Import Prelude Fifo Ring F64 ProcList Types Hotness Mm MmAsync Ucm Inv UcmWp AsyncOk TableOk AllocOk.

(** ** Memory *)

(** The bytes of the frame of a page. *)
Definition in_frame (pg : hemem_page) (t : pbuftype) (o : Z) : Prop :=
  t = tier_of (pg_in_dram pg) ∧
  pg_devdax_offset pg ≤ o < pg_devdax_offset pg + HUGEPAGE_SIZE.

Lemma tier_of_inj d d' : tier_of d = tier_of d' → d = d'.
Proof. by destruct d, d'. Qed.

Lemma aligned_apart a b :
  a mod HUGEPAGE_SIZE = 0 → b mod HUGEPAGE_SIZE = 0 → a ≠ b →
  a + HUGEPAGE_SIZE ≤ b ∨ b + HUGEPAGE_SIZE ≤ a.
Proof. unfold HUGEPAGE_SIZE. intros Ha Hb Hne. Z.div_mod_to_equations. lia. Qed.

Lemma frames_apart s A R W x y pg pg' t o :
  ucm_inv s A R W → u_pages s !! x = Some pg → u_pages s !! y = Some pg' → x ≠ y →
  in_frame pg t o → in_frame pg' t o → False.
Proof.
  intros HI Hx Hy Hne [Ht Ho] [Ht' Ho'].
  assert (pg_in_dram pg = pg_in_dram pg') as Hd by (apply tier_of_inj; congruence).
  destruct (aligned_apart (pg_devdax_offset pg) (pg_devdax_offset pg')); [..|lia|lia].
  - apply (I_phys HI Hx).
  - apply (I_phys HI Hy).
  - intros Heq. apply Hne. eapply (I_frames HI); [done..|]. unfold frame. congruence.
Qed.

Lemma mem_set_in t off len v m o : off ≤ o < off + len → mem_set t off len v m t o = v.
Proof. intros. unfold mem_set. by rewrite decide_True. Qed.

Lemma mem_set_out t off len v m t' o :
  ¬ (t' = t ∧ off ≤ o < off + len) → mem_set t off len v m t' o = m t' o.
Proof. intros. unfold mem_set. by rewrite decide_False. Qed.

(** ** The state of an allocation under way *)
Definition response (pg : hemem_page) : hemem_page_app :=
  PageApp (pg_va pg) (pg_devdax_offset pg) (pg_in_dram pg) (pg_pt pg).

(** [s'] is [s] with the pages of the responses [pages] mapped for [p] from
    [start] on. *)
Record progress (s : ucm) (A : list_id → list ptr) (R : ptr → ring_sel → list ptr) (p : ptr)
    (start : Z) (pages : list hemem_page_app) (s' : ucm) (A' : list_id → list ptr) : Prop :=
  Progress {
  pr_inv : ucm_inv s' A' R None;
  pr_misc : misc s' = misc s;
  pr_others q : q ≠ p → u_procs s' !! q = u_procs s !! q;
  pr_table : ∃ r r', u_procs s !! p = Some r ∧ u_procs s' !! p = Some r' ∧
    (∀ va, (∀ i, 0 ≤ i < Z.of_nat (length pages) → va ≠ start + i * HUGEPAGE_SIZE) →
       mm_pages (pr_mm r') !! va = mm_pages (pr_mm r) !! va) ∧
    (∀ i a, pages !! i = Some a → pa_va a = start + Z.of_nat i * HUGEPAGE_SIZE ∧
       ∃ x d pg, mm_pages (pr_mm r') !! pa_va a = Some x ∧ x ∈ A (free_list d) ∧
         u_pages s' !! x = Some pg ∧ response pg = a ∧
         ∀ t o, in_frame pg t o → u_mem s' t o = 0) ∧
    u64 (mm_mem_allocated (pr_mm r')) =
      u64 (mm_mem_allocated (pr_mm r) + Z.of_nat (length pages) * HUGEPAGE_SIZE);
  pr_used d q i y : y ∈ A (bin d q i) → y ∈ A' (bin d q i) ∧ u_pages s' !! y = u_pages s !! y;
  pr_mem d q i y pg t o : y ∈ A (bin d q i) → u_pages s !! y = Some pg → in_frame pg t o →
    u_mem s' t o = u_mem s t o;
  pr_free d y : y ∈ A' (free_list d) → y ∈ A (free_list d);
  pr_slow : (length (A SlowFree) ≤ length (A' SlowFree) + length pages)%nat;
  pr_steady q : proc_steady <$> u_procs s' !! q = proc_steady <$> u_procs s !! q;
}.

Section progress.
Context (s : ucm) (A : list_id → list ptr) (R : ptr → ring_sel → list ptr).
Context (p : ptr) (start : Z).

Lemma progress_start r :
  ucm_inv s A R None → u_procs s !! p = Some r →
  progress s A R p start [] s A.
Proof.
  intros HI Hr. split; auto; [|simpl; lia].
  exists r, r. simpl. rewrite Z.add_0_r. by split_and!.
Qed.

Lemma lookup_snoc_cases {T} (l : list T) a i b :
  (l ++ [a]) !! i = Some b → l !! i = Some b ∨ i = length l ∧ b = a.
Proof.
  intros [?|[Hi Hb]]%lookup_app_Some; [auto|].
  destruct (i - length l)%nat as [|k] eqn:Hk; simpl in Hb; [|by destruct k].
  right. split; [lia|congruence].
Qed.

(** One more page. *)
Lemma progress_step pages s1 A1 d x s2 A2 pg :
  progress s A R p start pages s1 A1 →
  allocated s1 A1 R p d x (start + Z.of_nat (length pages) * HUGEPAGE_SIZE) s2 A2 →
  u_pages s2 !! x = Some pg →
  progress s A R p start (pages ++ [response pg]) s2 A2.
Proof.
  intros [HI1 Hmisc1 Hothers1 Htab1 Hused1 Hmem1 Hfree1 Hslow1 Hst1] Hal Hpg.
  destruct Hal as [HI2 Hfrom Hto Hrest Hfl (pg0&pg'&Hpg0&Hpages&Hva&Hframe&Hpt&Hmem2) (r1&r2&Hr1&Hr2&Ht2&Hma2&Hst2) Hmisc2].
  assert (pg' = pg) as ->. { rewrite Hpages, lookup_insert_eq in Hpg. congruence. }
  destruct Htab1 as (r&r1'&Hr&Hr1'&Htab1&Hnew1&Hma1). rewrite Hr1 in Hr1'. injection Hr1' as <-.
  assert (∀ d' q i y, y ∈ A1 (bin d' q i) → y ≠ x) as Hne.
  { intros d' q i y Hy ->. by destruct (bin_free_disjoint _ _ (I_dll HI1) d' d q i x). }
  assert (∀ y, y ≠ x → u_pages s2 !! y = u_pages s1 !! y) as Hkeep.
  { intros y Hy. by rewrite Hpages, lookup_insert_ne. }
  assert (pg_in_dram pg0 = d) as Hd by (destruct (I_free HI1 Hfrom) as (?&?&[]); congruence).
  assert (∀ y pgy t o, y ≠ x → u_pages s1 !! y = Some pgy → in_frame pgy t o →
    u_mem s2 t o = u_mem s1 t o) as Hmem.
  { intros y pgy t o Hy Hpgy Hin. rewrite Hmem2. apply mem_set_out. intros [-> Ho].
    eapply (frames_apart s1 A1 R None y x pgy pg0); [done..|]. by rewrite <- Hd in *. }
  split; [done|congruence|..].
  - intros q Hq. rewrite Hr2, lookup_insert_ne by done. auto.
  - exists r, r2. rewrite Hr2, lookup_insert_eq, length_app. cbn [length]. split_and!; [done..| | |].
    + intros va Hva'. rewrite Ht2, lookup_insert_ne.
      * apply Htab1. intros i Hi. apply Hva'. lia.
      * intros <-. apply (Hva' (Z.of_nat (length pages))); lia.
    + intros i a [Hi|[-> ->]]%lookup_snoc_cases.
      * destruct (Hnew1 i a Hi) as (Ha&y&d'&pgy&Hy&Hyf&Hpgy&Hresp&Hzero). split; [done|].
        destruct (table_page s1 A1 R None HI1 p r1 Hr1 _ _ Hy) as (?&?&?&Hb&_).
        pose proof (Hne _ _ _ _ Hb) as Hyx. exists y, d', pgy. rewrite Hkeep, Ht2 by done.
        split_and!; [|done..|].
        -- rewrite lookup_insert_ne; [done|]. rewrite Ha. apply lookup_lt_Some in Hi.
           unfold HUGEPAGE_SIZE. lia.
        -- intros t o Hin. rewrite (Hmem y pgy); auto.
      * change (pa_va (response pg)) with (pg_va pg). rewrite Hva. split; [done|].
        exists x, d, pg. rewrite Ht2, lookup_insert_eq.
        split_and!; [done|by apply Hfree1|done..|].
        injection Hframe as Hfd Hfo. intros t o [-> Ho]. rewrite Hmem2, Hfd, Hd.
        apply mem_set_in. by rewrite <- Hfo.
    + rewrite Hma2, u64_idemp, <- u64_add_l, Hma1, u64_add_l. f_equal. lia.
  - intros d' q i y Hy. destruct (Hused1 d' q i y Hy) as [Hy1 <-].
    pose proof (Hne _ _ _ _ Hy1) as Hyx. rewrite Hrest by done. auto.
  - intros d' q i y pgy t o Hy Hpgy Hin. destruct (Hused1 d' q i y Hy) as [Hy1 Hsame].
    rewrite <- (Hmem1 d' q i y pgy t o) by done. apply (Hmem y pgy); [by eapply Hne| |done]. congruence.
  - intros d' y Hy. apply Hfree1. destruct (decide (y = x)) as [->|Hyx].
    + by destruct (bin_free_disjoint _ _ (I_dll HI2) d d' p COLD x).
    + by apply Hrest.
  - rewrite length_app. simpl.
    destruct (Hfl false) as [Hs|Hs]; apply (f_equal length) in Hs; rewrite ?length_app in Hs;
      simpl in Hs; lia.
  - intros q. rewrite <- Hst1, Hr2. destruct (decide (q = p)) as [->|Hq].
    + rewrite lookup_insert_eq, Hr1. simpl. congruence.
    + by rewrite lookup_insert_ne.
Qed.
End progress.

(** ** Giving up *)

(** [mm_remove_page] takes exactly one mapping out. *)
Lemma retired_table r x pg :
  mm_pages (pr_mm (r <| pr_mm ::= unlink_mm x pg |>)) = delete (pg_va pg) (mm_pages (pr_mm r)).
Proof. rec_simpl. unfold unlink_mm. by destruct (pg_in_dram pg). Qed.

(** The pages [vas] of [p] have been taken out of the tables. *)
Record unmapped (p : ptr) (vas : list Z) (s s' : ucm) : Prop := Unmapped {
  un_procs : ∃ r r', u_procs s !! p = Some r ∧ u_procs s' !! p = Some r' ∧
    (∀ va, mm_pages (pr_mm r') !! va = if decide (va ∈ vas) then None else mm_pages (pr_mm r) !! va) ∧
    ∀ y, (∀ va, va ∈ vas → mm_pages (pr_mm r) !! va ≠ Some y) → u_pages s' !! y = u_pages s !! y;
  un_others q : q ≠ p → u_procs s' !! q = u_procs s !! q;
  un_misc : misc s' = misc s;
  un_mem : u_mem s' = u_mem s;
  un_steady q : proc_steady <$> u_procs s' !! q = proc_steady <$> u_procs s !! q;
}.

Lemma wp_mm_remove_mapped s A R W p r va x :
  ucm_inv s A R W → W = None ∨ W = Some p → u_procs s !! p = Some r →
  mm_pages (pr_mm r) !! va = Some x →
  wp (mm_remove_page p x) (λ _ s',
    ucm_inv s' A (push_free R p x) W ∧ unmapped p [va] s s') s.
Proof.
  intros HI HW Hr Hva. destruct (table_page s A R W HI p r Hr va x Hva) as (d&i&pg&Hx&Hpg&Hu&Hvaeq&Hnf).
  eapply (wp_mm_remove_page_raw s A R W HI p r Hr x pg d i); [done..|].
  split; [by apply (inv_retired s A R W HI p r Hr x pg d i)|].
  pose proof (retired_table r x pg) as Ht.
  unfold retired. split; rec_simpl; [|by intros; rewrite lookup_insert_ne|done|done|].
  2: { intros q. destruct (decide (q = p)) as [->|Hq]; [|by rewrite lookup_insert_ne].
    rewrite lookup_insert_eq, Hr. simpl. f_equal. unfold proc_steady, unlink_mm. rec_simpl.
    by destruct (pg_in_dram pg). }
  exists r. eexists. split_and!; [done|apply lookup_insert_eq|..].
  - intros va'. rewrite Ht, Hvaeq. case_decide as Hc; rewrite list_elem_of_singleton in Hc.
    + subst. apply lookup_delete_eq.
    + by rewrite lookup_delete_ne.
  - intros y Hy. rewrite lookup_insert_ne; [done|]. intros <-. apply (Hy va); [set_solver|done].
Qed.

Lemma unmapped_app p vas vas' s1 s2 s3 :
  unmapped p vas s1 s2 → unmapped p vas' s2 s3 → unmapped p (vas ++ vas') s1 s3.
Proof.
  intros [(r1&r2&Hr1&Hr2&Ht1&Hp1) Ho1 Hmi1 Hme1 Hs1] [(r2'&r3&Hr2'&Hr3&Ht2&Hp2) Ho2 Hmi2 Hme2 Hs2].
  rewrite Hr2 in Hr2'. injection Hr2' as <-.
  split; [|intros; rewrite Ho2, Ho1 by done; done|congruence..|intros q; by rewrite Hs2].
  exists r1, r3. split_and!; [done..| |].
  - intros va. rewrite Ht2, Ht1. pose proof (elem_of_app vas vas' va).
    repeat case_decide; naive_solver.
  - intros y Hy. rewrite Hp2, Hp1; [done|..].
    + intros va Hva. apply Hy. set_solver.
    + intros va Hva. rewrite Ht1. case_decide; [done|]. apply Hy. set_solver.
Qed.

Lemma wp_roll_back p xs : ∀ s A R r,
  ucm_inv s A R None → u_procs s !! p = Some r → NoDup (pa_va <$> xs) →
  (∀ a, a ∈ xs → is_Some (mm_pages (pr_mm r) !! pa_va a)) →
  wp (roll_back p xs) (λ _ s', ∃ R', ucm_inv s' A R' None ∧ unmapped p (pa_va <$> xs) s s') s.
Proof.
  induction xs as [|a xs IH]; intros s A R r HI Hr Hnd Hmapped; unfold roll_back; cbn [for_list].
  { wp_step. exists R. split; [done|]. split; [|done..]. exists r, r. by split_and!. }
  destruct (Hmapped a) as [x Hx]; [set_solver|]. apply NoDup_cons in Hnd as [Hna Hnd].
  wp_step. wp_step. eapply (wp_mm_find_page s A R None HI p r Hr). rewrite Hx.
  do 2 wp_step; [done|]. do 2 wp_step; [done|].
  eapply wp_mono; [by eapply wp_mm_remove_mapped; eauto|]. intros [] s1 [HI1 Hun].
  pose proof Hun as [(r0&r1&Hr0&Hr1&Ht&_) _ _ _ _]. rewrite Hr in Hr0. injection Hr0 as <-.
  eapply wp_mono; [eapply (IH s1 A _ r1 HI1 Hr1 Hnd)|].
  { intros b Hb. rewrite Ht. rewrite decide_False; [apply Hmapped; set_solver|].
    rewrite list_elem_of_singleton. intros Heq. apply Hna. rewrite <- Heq. by apply list_elem_of_fmap_2. }
  intros [] s2 (R2&HI2&Hun2). exists R2. split; [done|]. by apply (unmapped_app p [pa_va a]) with s1.
Qed.

(** ** [ucm_allocate_memory] *)
Definition page_count (len : Z) : Z := (len + HUGEPAGE_SIZE - 1) / HUGEPAGE_SIZE.

Lemma page_count_lt len k : k * HUGEPAGE_SIZE < len ↔ k < page_count len.
Proof. unfold page_count, HUGEPAGE_SIZE. split; intros; Z.div_mod_to_equations; lia. Qed.

(** The request failed: no mapping of the process has changed, no byte of a
    page in use has changed, and the process lock is still held. *)
Record out_of_memory (s : ucm) (A : list_id → list ptr) (p : ptr) (len : Z) (s' : ucm) : Prop :=
  OutOfMemory {
  om_inv : ∃ A' R', ucm_inv s' A' R' None;
  om_held : held (u_pq s') = {[ inr p ]} ∪ held (u_pq s);
  om_short : Z.of_nat (length (A SlowFree)) < page_count len;
  om_table : ∃ r r', u_procs s !! p = Some r ∧ u_procs s' !! p = Some r' ∧
    ∀ va, mm_pages (pr_mm r') !! va = mm_pages (pr_mm r) !! va;
  om_steady q : proc_steady <$> u_procs s' !! q = proc_steady <$> u_procs s !! q;
  om_mgr : plists (u_pq s') = plists (u_pq s) ∧ u_proc_map s' = u_proc_map s;
  om_mem d q i y pg t o : y ∈ A (bin d q i) → u_pages s !! y = Some pg → in_frame pg t o →
    u_mem s' t o = u_mem s t o;
}.

Section allocate.
Context (mode : ALLOC_MODE) (s : ucm) (A : list_id → list ptr) (R : ptr → ring_sel → list ptr).
Context (HI : ucm_inv s A R None) (p : ptr) (r : hemem_process) (Hr : u_procs s !! p = Some r).
Context (Hlock : inr p ∉ held (u_pq s)).
Context (start len : Z) (Hstart : 0 < start) (Haligned : start mod HUGEPAGE_SIZE = 0).
Context (Hlen : 0 ≤ len) (Hend : start + len + HUGEPAGE_SIZE ≤ 2 ^ 64).
Context (Hnew : ∀ i, 0 ≤ i < page_count len →
  mm_pages (pr_mm r) !! (start + i * HUGEPAGE_SIZE) = None).

Lemma step_va (k : nat) :
  Z.of_nat k * HUGEPAGE_SIZE < len →
  start + Z.of_nat k * HUGEPAGE_SIZE ≠ 0 ∧
  (start + Z.of_nat k * HUGEPAGE_SIZE) mod HUGEPAGE_SIZE = 0 ∧
  u64 (start + Z.of_nat k * HUGEPAGE_SIZE + HUGEPAGE_SIZE) =
    start + Z.of_nat (k + 1) * HUGEPAGE_SIZE.
Proof using Hstart Haligned Hend.
  intros Hk. unfold HUGEPAGE_SIZE in *. split_and!; [lia| |].
  - by rewrite Z.mod_add by lia.
  - rewrite u64_small by lia. lia.
Qed.

(** The responses so far are mapped, at different addresses. *)
Lemma progress_mapped pages s' A' r' :
  progress s A R p start pages s' A' → u_procs s' !! p = Some r' →
  NoDup (pa_va <$> pages) ∧
  (∀ a, a ∈ pages → is_Some (mm_pages (pr_mm r') !! pa_va a)) ∧
  (∀ va, va ∈ pa_va <$> pages ↔
     ∃ i, 0 ≤ i < Z.of_nat (length pages) ∧ va = start + i * HUGEPAGE_SIZE).
Proof using Type.
  intros [_ _ _ (r0&r1&_&Hr1&_&Hnew1&_) _ _ _ _ _] Hr'. rewrite Hr' in Hr1. injection Hr1 as <-.
  split_and!.
  - apply NoDup_alt. intros i j va (a&->&Hi)%list_lookup_fmap_Some (b&Hab&Hj)%list_lookup_fmap_Some.
    destruct (Hnew1 i a Hi) as [Ha _], (Hnew1 j b Hj) as [Hb _]. unfold HUGEPAGE_SIZE in *. lia.
  - intros a [i Hi]%list_elem_of_lookup. destruct (Hnew1 i a Hi) as (_&x&?&?&?&_). eauto.
  - intros va. rewrite list_elem_of_fmap. split.
    + intros (a&->&[i Hi]%list_elem_of_lookup). destruct (Hnew1 i a Hi) as [Ha _].
      exists (Z.of_nat i). apply lookup_lt_Some in Hi. split; [lia|done].
    + intros (i&Hi&->). destruct (lookup_lt_is_Some_2 pages (Z.to_nat i)) as [a Ha]; [lia|].
      destruct (Hnew1 _ a Ha) as [Hva _]. exists a. rewrite Z2Nat.id in Hva by lia.
      split; [done|]. by eapply list_elem_of_lookup_2.
Qed.

Lemma wp_out_of_mem pages s' A' :
  progress s A R p start pages s' A' → A' SlowFree = [] →
  Z.of_nat (length pages) < page_count len →
  wp (roll_back p pages) (λ _ s2, out_of_memory s A p len s2) (locked s' p).
Proof using Hr Hnew.
  intros Hpr Hslow Hk. pose proof Hpr as [HI' Hmisc _ (r0&r'&Hr0&Hr'&Htab&_&_) _ Hmem _ Hsl Hst].
  rewrite Hr in Hr0. injection Hr0 as <-.
  destruct (progress_mapped _ _ _ _ Hpr Hr') as (Hnd&Hmap&Hvas).
  assert (ucm_inv (locked s' p) A' R None) as HIl by by eapply inv_frame.
  eapply wp_mono; [by eapply (wp_roll_back p pages _ A' R r')|].
  intros [] s2 (R2&HI2&[(r1&r2&Hr1&Hr2&Ht2&_) _ Hmisc2 Hmem2 Hst2]).
  unfold locked in Hr1. rec_simpl_in Hr1. rewrite Hr' in Hr1. injection Hr1 as <-.
  injection Hmisc as Hpq Hmap1 _ _ _ _ _ _ _ _ _. injection Hmisc2 as Hpq2 Hmap2 _ _ _ _ _ _ _ _ _.
  split.
  - eauto.
  - rewrite Hpq2. unfold locked. rec_simpl. by rewrite Hpq.
  - rewrite Hslow in Hsl. simpl in Hsl. lia.
  - exists r, r2. split_and!; [done..|]. intros va. rewrite Ht2. case_decide as Hva.
    + apply Hvas in Hva as (i&Hi&->). symmetry. apply Hnew. lia.
    + apply Htab. intros i Hi ->. apply Hva, Hvas. eauto.
  - intros q. rewrite Hst2. unfold locked. rec_simpl. apply Hst.
  - rewrite Hpq2, Hmap2. unfold locked. rec_simpl. by rewrite Hpq, Hmap1.
  - intros d q i y pg t o Hy Hpg Hin. rewrite Hmem2. unfold locked. rec_simpl. eauto.
Qed.

(** What the request ends with. *)
Definition alloc_result (res : Z * list hemem_page_app) (s' : ucm) : Prop :=
  (res.1 = page_count len ∧ Z.of_nat (length res.2) = page_count len ∧
     ∃ A', progress s A R p start res.2 s' A') ∨
  (res.1 = -1 ∧ out_of_memory s A p len s').

Lemma wp_alloc_body pages s' A' :
  progress s A R p start pages s' A' → Z.of_nat (length pages) ≤ page_count len →
  wp (alloc_body mode p (u64 (start + len)) (start + Z.of_nat (length pages) * HUGEPAGE_SIZE, pages))
    (λ res s2, match res with
     | inl (pb, pages') => length pages' = S (length pages) ∧
         Z.of_nat (length pages') ≤ page_count len ∧
         pb = start + Z.of_nat (length pages') * HUGEPAGE_SIZE ∧
         ∃ A2, progress s A R p start pages' s2 A2
     | inr res => alloc_result res s2
     end) s'.
Proof using Hr Hlock Hstart Haligned Hlen Hend Hnew.
  intros Hpr Hk. pose proof Hpr as [HI' Hmisc _ (r0&r'&Hr0&Hr'&Htab&_&_) _ _ _ _ _].
  rewrite Hr in Hr0. injection Hr0 as <-. unfold alloc_body.
  rewrite u64_small by (unfold HUGEPAGE_SIZE in *; lia). wp_if Hlt.
  2: { wp_step. left. simpl. apply Z.ltb_ge in Hlt.
    assert (¬ Z.of_nat (length pages) < page_count len) by (rewrite <- page_count_lt; lia).
    split_and!; [lia..|eauto]. }
  assert (Z.of_nat (length pages) * HUGEPAGE_SIZE < len) as Hklt by lia.
  pose proof (proj1 (page_count_lt _ _) Hklt) as Hkn.
  destruct (step_va _ Hklt) as (Hva0&Hvaal&Hnext).
  assert (mm_pages (pr_mm r') !! (start + Z.of_nat (length pages) * HUGEPAGE_SIZE) = None) as Hnone.
  { rewrite Htab; [apply Hnew; lia|]. intros i Hi. unfold HUGEPAGE_SIZE. lia. }
  wp_step. eapply (wp_mm_find_page s' A' R None HI' p r' Hr'). rewrite Hnone. do 2 wp_step; [done|].
  assert (inr p ∉ held (u_pq s')) as Hlock'. { injection Hmisc as -> _ _ _ _ _ _ _ _ _ _. done. }
  wp_step. eapply wp_mono; [eapply (wp_allocate s' A' R HI' p r' Hr' Hlock' mode)|].
  intros [x|] s1.
  - intros [d Htaken]. wp_step.
    eapply wp_mono; [eapply (wp_install_page s' A' R HI' p r' Hr' _ Hva0 Hvaal Hnone d x s1 Htaken)|].
    intros a s2 (A2&Hal&pg&Hpg&->). wp_step. fold (response pg).
    pose proof (progress_step _ _ _ _ _ _ _ _ _ _ _ _ _ Hpr Hal Hpg) as Hpr2.
    assert (pa_pt (response pg) = HUGEP) as ->. { apply (I_phys (al_inv _ _ _ _ _ _ _ _ _ Hal) Hpg). }
    cbn [pt_to_pagesize]. rewrite Hnext, length_app. cbn [length].
    split_and!; [lia|lia|done|eauto].
  - intros (->&Hslow&_). wp_step. eapply wp_mono; [by eapply wp_out_of_mem|].
    intros [] s2 Hoom. wp_step. by right.
Qed.

Lemma wp_allocate_memory : wp (ucm_allocate_memory mode p start len) alloc_result s.
Proof using HI Hr Hlock Hstart Haligned Hlen Hend Hnew.
  unfold ucm_allocate_memory.
  eapply (wp_loop (λ st s', st.1 = start + Z.of_nat (length st.2) * HUGEPAGE_SIZE ∧
    Z.of_nat (length st.2) ≤ page_count len ∧ ∃ A', progress s A R p start st.2 s' A')
    (λ st _, Z.to_nat (page_count len) - length st.2)%nat).
  - simpl. split_and!; [lia| |exists A; by eapply progress_start].
    unfold page_count. apply Z.div_pos; unfold HUGEPAGE_SIZE; lia.
  - simpl. unfold page_count, HUGEPAGE_SIZE, BASEPAGE_SIZE. Z.div_mod_to_equations. lia.
  - intros [pb pages] s' (Hpb&Hk&A'&Hpr). simpl in Hpb, Hk, Hpr. subst pb.
    eapply wp_mono; [by eapply wp_alloc_body|]. intros [[pb pages']|res] s2; [|done].
    intros (Hlen'&Hk'&Hpb'&Hpr'). simpl. split; [done|lia].
Qed.
End allocate.

(** ** [ucm_deallocate_memory] *)

(** The page boundaries of a range, from [base] on. *)
Definition boundaries (base : Z) (k : nat) : list Z :=
  (λ i, base + Z.of_nat i * HUGEPAGE_SIZE) <$> seq 0 k.

Lemma boundaries_S base k :
  boundaries base (S k) = boundaries base k ++ [base + Z.of_nat k * HUGEPAGE_SIZE].
Proof. unfold boundaries. by rewrite seq_S, fmap_app. Qed.

(** How many of the addresses are mapped. *)
Definition mapped_count (table : gmap Z ptr) (vas : list Z) : Z :=
  Z.of_nat (length (omap (λ va, table !! va) vas)).

Lemma mapped_count_snoc table vas va :
  mapped_count table (vas ++ [va]) =
    mapped_count table vas + (if table !! va then 1 else 0).
Proof. unfold mapped_count. rewrite omap_app, length_app. simpl. destruct (table !! va); simpl; lia. Qed.

Lemma mapped_snoc (table : gmap Z ptr) vas va y :
  (∃ v, v ∈ vas ++ [va] ∧ table !! v = Some y) ↔
  (∃ v, v ∈ vas ∧ table !! v = Some y) ∨ table !! va = Some y.
Proof. set_solver. Qed.

(** The counters of an application's memory. *)
Lemma wp_page_freed s A R p r n :
  ucm_inv s A R None → u_procs s !! p = Some r →
  wp (ucm_stats_record_page_freed p n) (λ _ s', ucm_inv s' A R None ∧ unmapped p [] s s') s.
Proof.
  intros HI Hr. unfold ucm_stats_record_page_freed. do 3 ucm_step. split.
  - eapply (inv_proc_view s _ A R None p r); try done. by left.
  - split; rec_simpl; [|by intros; rewrite lookup_insert_ne|done|done|].
    2: { intros q. destruct (decide (q = p)) as [->|Hq]; [|by rewrite lookup_insert_ne].
      by rewrite lookup_insert_eq, Hr. }
    exists r. eexists. split_and!; [done|apply lookup_insert_eq|done|done].
Qed.

Lemma round_down_spec x :
  0 ≤ x < 2 ^ 64 → Z.land x (u64 (Z.lnot (HUGEPAGE_SIZE - 1))) = x - x mod HUGEPAGE_SIZE.
Proof.
  intros Hx. assert (Z.land x (u64 (Z.lnot (HUGEPAGE_SIZE - 1))) = Z.ldiff x (Z.ones 21)) as ->.
  { apply Z.bits_inj'. intros n Hn. rewrite Z.land_spec, Z.ldiff_spec.
    destruct (decide (n < 64)) as [Hn'|Hn'].
    - unfold u64. rewrite Z.mod_pow2_bits_low, Z.lnot_spec by lia. done.
    - rewrite (Z.bits_above_log2 x); [done|lia|]. destruct (decide (x = 0)) as [->|]; [simpl; lia|].
      apply Z.log2_lt_pow2; [lia|]. pose proof (Z.pow_le_mono_r 2 64 n). lia. }
  rewrite Z.ldiff_ones_r, Z.shiftr_div_pow2, Z.shiftl_mul_pow2 by lia.
  unfold HUGEPAGE_SIZE. change (2 ^ 21) with (2 * 1024 * 1024). Z.div_mod_to_equations. lia.
Qed.

Section deallocate.
Context (s : ucm) (A : list_id → list ptr) (R : ptr → ring_sel → list ptr).
Context (HI : ucm_inv s A R None) (p : ptr) (r : hemem_process) (Hr : u_procs s !! p = Some r).
Context (start len : Z) (Hstart : 0 ≤ start) (Hlen : 0 ≤ len).
Context (Hend : start + len + HUGEPAGE_SIZE ≤ 2 ^ 64).

Let base : Z := start - start mod HUGEPAGE_SIZE.
Let table : gmap Z ptr := mm_pages (pr_mm r).

(** The boundaries [vas] have been dealt with: [n] pages were freed, and they
    wait in the free ring. *)
Definition deallocated (vas : list Z) (n : Z) (s' : ucm) : Prop :=
  n = mapped_count table vas ∧ unmapped p vas s s' ∧
  ∃ R', ucm_inv s' A R' None ∧
    (∀ x, x ∈ R' p FreeRing ↔ x ∈ R p FreeRing ∨ ∃ va, va ∈ vas ∧ table !! va = Some x) ∧
    (∀ q, q ≠ p → R' q = R q).

Lemma boundary_fresh k : base + Z.of_nat k * HUGEPAGE_SIZE ∉ boundaries base k.
Proof using Type.
  unfold boundaries. rewrite list_elem_of_fmap. intros (i&Heq&Hi%elem_of_seq).
  unfold HUGEPAGE_SIZE in *. lia.
Qed.

Lemma mapped_count_range k : 0 ≤ mapped_count table (boundaries base k) ≤ Z.of_nat k.
Proof using Type.
  induction k as [|k IH]; [done|]. rewrite boundaries_S, mapped_count_snoc.
  destruct (table !! _); lia.
Qed.

Lemma wp_dealloc_body k n s' :
  deallocated (boundaries base k) n s' →
  wp (dealloc_body p (u64 (start + len)) (base + Z.of_nat k * HUGEPAGE_SIZE, n)) (λ res s2,
    match res with
    | inl (pb, n') => Z.of_nat k < page_count (start + len - base) ∧
        pb = base + Z.of_nat (S k) * HUGEPAGE_SIZE ∧ deallocated (boundaries base (S k)) n' s2
    | inr n' => page_count (start + len - base) ≤ Z.of_nat k ∧ n' = n ∧ s2 = s'
    end) s'.
Proof using HI Hr Hstart Hlen Hend.
  intros (Hn&Hun&R'&HI'&Hfree&Hother). pose proof Hun as [(r0&r'&Hr0&Hr'&Ht&_) _ _ _ _].
  rewrite Hr in Hr0. injection Hr0 as <-. fold table in Ht.
  assert (0 ≤ base ≤ start) as Hbase.
  { unfold base, HUGEPAGE_SIZE. Z.div_mod_to_equations. lia. }
  unfold dealloc_body. rewrite u64_small by (unfold HUGEPAGE_SIZE in *; lia). wp_if Hlt.
  2: { wp_step. split; [|done]. apply Z.ltb_ge in Hlt.
    assert (¬ Z.of_nat k < page_count (start + len - base)) by (rewrite <- page_count_lt; lia). lia. }
  assert (Z.of_nat k < page_count (start + len - base)) as Hk by (rewrite <- page_count_lt; lia).
  assert (u64 (base + Z.of_nat k * HUGEPAGE_SIZE + HUGEPAGE_SIZE) =
    base + Z.of_nat (S k) * HUGEPAGE_SIZE) as Hnext.
  { rewrite u64_small by (unfold HUGEPAGE_SIZE in *; lia). lia. }
  set (va := base + Z.of_nat k * HUGEPAGE_SIZE) in *.
  assert (mm_pages (pr_mm r') !! va = table !! va) as Hva.
  { rewrite Ht. by rewrite decide_False by apply boundary_fresh. }
  pose proof (boundaries_S base k : _ = boundaries base k ++ [va]) as HS. pose proof (mapped_count_range k) as Hrange.
  wp_step. eapply (wp_mm_find_page s' A R' None HI' p r' Hr'). rewrite Hva.
  destruct (table !! va) as [x|] eqn:Hx.
  - destruct (table_page s' A R' None HI' p r' Hr' va x) as (d&i&pg&_&Hpg&_); [congruence|].
    do 2 ucm_step. rewrite (pp_pt _ _ (I_phys HI' Hpg)). cbn [pt_to_pagesize].
    wp_step. eapply wp_mono; [eapply (wp_mm_remove_mapped s' A R' None p r' va x); [done|by left|done|congruence]|].
    intros [] s1 [HI1 Hun1]. pose proof Hun1 as [(?&r1&_&Hr1&_) _ _ _ _].
    wp_step. eapply wp_mono; [by eapply wp_page_freed|]. intros [] s2 [HI2 Hun2].
    wp_step. split_and!; [done|done|]. rewrite HS. split_and!.
    + rewrite mapped_count_snoc, Hx, <- Hn. apply u64_small. unfold HUGEPAGE_SIZE in *. lia.
    + eapply unmapped_app; [done|]. rewrite <- (app_nil_r [va]). by eapply unmapped_app.
    + exists (push_free R' p x). split_and!; [done|..].
      * intros y. unfold push_free. rewrite pop_ring_eq, elem_of_app, Hfree, mapped_snoc, Hx,
          list_elem_of_singleton.
        split; [intros [[?|?]| ->]|intros [?|[?|[= ->]]]]; auto.
      * intros q Hq. unfold push_free. rewrite pop_ring_ne by done. auto.
  - wp_step. split_and!; [done|done|]. rewrite HS. split_and!.
    + rewrite mapped_count_snoc, Hx. lia.
    + eapply unmapped_app; [done|]. split; [|done..]. exists r', r'. split_and!; [done..| |done].
      intros va'. case_decide as Hc; [|done]. apply list_elem_of_singleton in Hc as ->. congruence.
    + exists R'. split_and!; [done| |done]. intros y. rewrite Hfree, mapped_snoc, Hx.
      split; [intros [?|?]|intros [?|[?|?]]]; auto; done.
Qed.

Lemma wp_deallocate_memory :
  wp (ucm_deallocate_memory p start len)
    (deallocated (boundaries base (Z.to_nat (page_count (start + len - base))))) s.
Proof using HI Hr Hstart Hlen Hend.
  assert (0 ≤ base ≤ start ∧ start - base < HUGEPAGE_SIZE) as Hbase.
  { unfold base, HUGEPAGE_SIZE. Z.div_mod_to_equations. lia. }
  assert (0 ≤ page_count (start + len - base) ≤ len / BASEPAGE_SIZE + 2) as HK.
  { unfold page_count, HUGEPAGE_SIZE, BASEPAGE_SIZE in *. Z.div_mod_to_equations. lia. }
  unfold ucm_deallocate_memory. rewrite round_down_spec by (unfold HUGEPAGE_SIZE in *; lia). fold base.
  eapply (wp_loop (λ st s', ∃ k, st.1 = base + Z.of_nat k * HUGEPAGE_SIZE ∧
    (k ≤ Z.to_nat (page_count (start + len - base)))%nat ∧ deallocated (boundaries base k) st.2 s')
    (λ st _, Z.to_nat (page_count (start + len - base) - (st.1 - base) / HUGEPAGE_SIZE))).
  - exists O. simpl. split_and!; [lia|lia|]. split_and!; [done| |].
    + split; [|done..]. exists r, r. by split_and!.
    + exists R. split_and!; [done| |done]. intros x. split; [by left|]. intros [?|(?&?%not_elem_of_nil&_)]; done.
  - simpl. rewrite Z.sub_diag, Z.div_0_l by done. change (HUGEPAGE_SIZE / BASEPAGE_SIZE) with 512. lia.
  - intros [pb n] s' (k&Hpb&Hk&Hd). simpl in Hpb, Hk, Hd. subst pb.
    eapply wp_mono; [by eapply wp_dealloc_body|]. intros [[pb' n']|n'] s2.
    + intros (Hk'&->&Hd'). split; [exists (S k); simpl; split_and!; [done|lia|done]|]. simpl.
      replace (base + Z.of_nat (S k) * HUGEPAGE_SIZE - base) with (Z.of_nat (S k) * HUGEPAGE_SIZE) by lia.
      replace (base + Z.of_nat k * HUGEPAGE_SIZE - base) with (Z.of_nat k * HUGEPAGE_SIZE) by lia.
      rewrite !Z.div_mul by done. lia.
    + intros (Hk'&->&->). replace (Z.to_nat (page_count (start + len - base))) with k by lia. done.
Qed.
End deallocate.
