(* ===== verification/InitOk.v ===== *)
(** * Initialisation establishes the invariant

    [mm_init] fills the two free lists: every whole huge page of the two tiers
    is the frame of exactly one free page, and [ucm_inv] holds. *)

From S2P Require Import Prelude Fifo Ring F64 ProcList Types Hotness Mm MmAsync Inv UcmWp.

Definition empty_lists (_ : list_id) : list ptr := [].
Definition empty_rings (_ : ptr) (_ : ring_sel) : list ptr := [].

(** ** A new free page *)
Section new_page.
Context (s : ucm) (A : list_id → list ptr) (R : ptr → ring_sel → list ptr).
Context (HI : ucm_inv s A R None).

Definition new_free_page (d : bool) (off : Z) : hemem_page :=
  hemem_page_zero <| pg_devdax_offset := off |> <| pg_pid := -1 |> <| pg_pt := HUGEP |>
    <| pg_in_dram := d |>.

Lemma new_page_inv s' d x off h :
  u_pages s !! x = None →
  u_pages s' = <[x := new_free_page d off]> (u_pages s) →
  u_plist s' = h → dll_ok h (<[free_list d := x :: A (free_list d)]> A) →
  dom (links h) = {[ x ]} ∪ dom (links (u_plist s)) →
  dom (headers h) = dom (headers (u_plist s)) →
  u_procs s' = u_procs s → u_pa_map s' = u_pa_map s →
  u_fastmem_size s' = u_fastmem_size s → u_slowmem_size s' = u_slowmem_size s →
  0 ≤ off → off mod HUGEPAGE_SIZE = 0 → off + HUGEPAGE_SIZE ≤ tier_size s d →
  (∀ y pg, u_pages s !! y = Some pg → frame pg ≠ (d, off)) →
  Z.of_nat (S (size (u_pages s))) < MAX_PAGES →
  ucm_inv s' (<[free_list d := x :: A (free_list d)]> A) R None.
Proof using HI.
  intros Hx Hpages Hplist Hdll Hlinks Hheaders Hprocs Hpa Hfs Hss Hoff Hal Hbound Hframe Hsz.
  set (A' := <[free_list d := x :: A (free_list d)]> A) in *.
  assert (∀ l, x ∉ A l) as Hfresh.
  { intros l Hl. destruct (inv_list_of s A R None x l HI Hl) as (n&Hn&_).
    assert (x ∈ dom (links (u_plist s))) as Hd by (apply elem_of_dom; eauto).
    rewrite (I_dom HI), elem_of_dom, Hx in Hd. by destruct Hd. }
  assert (∀ y l, y ≠ x → y ∈ A' l ↔ y ∈ A l) as HA by (intros; by apply elem_of_push).
  assert (∀ d' p i, A' (bin d' p i) = A (bin d' p i)) as Hbin.
  { intros d' p i. unfold A'. rewrite fn_lookup_insert_ne; [done|]. apply not_eq_sym, bin_not_free. }
  assert (∀ p y, in_bins A' p y ↔ in_bins A p y) as Hbins.
  { intros p y. unfold in_bins, in_tier. by setoid_rewrite Hbin. }
  assert (∀ y pg, u_pages s !! y = Some pg → y ≠ x) as Hne by (intros ??? ->; congruence).
  assert (∀ y, (∃ l, y ∈ A l) → u_pages s' !! y = u_pages s !! y) as Hold.
  { intros y [l Hl]. rewrite Hpages, lookup_insert_ne; [done|]. intros <-. by apply (Hfresh l). }
  split.
  - by rewrite Hplist.
  - rewrite Hplist, Hlinks, Hpages, dom_insert_L. by rewrite (I_dom HI).
  - intros l. rewrite Hplist, <- elem_of_dom, Hheaders, elem_of_dom, (I_header HI), Hprocs. done.
  - intros y Hy. destruct (decide (y = x)) as [->|Hyx].
    + exists (free_list d). unfold A'. rewrite fn_lookup_insert. set_solver.
    + rewrite Hpages, lookup_insert_ne in Hy by done.
      destruct (I_total HI Hy) as [l Hl]. exists l. by apply HA.
  - intros d' y Hy. rewrite Hpages. destruct (decide (y = x)) as [->|Hyx].
    + rewrite lookup_insert_eq. eexists. split; [done|].
      unfold A' in Hy. destruct (decide (d' = d)) as [->|Hd]; [by split|].
      rewrite fn_lookup_insert_ne in Hy; [by destruct (Hfresh (free_list d'))|].
      intros ?%free_list_inj. congruence.
    + rewrite lookup_insert_ne by done. apply HA in Hy; [|done]. by apply (I_free HI).
  - intros d' p i y Hy. rewrite Hbin in Hy. destruct (I_used HI Hy) as (pg&r&Hpg&Hr&Hup).
    exists pg, r. rewrite Hold, Hprocs, Hpa by eauto. done.
  - intros y pg. rewrite Hpages, lookup_insert. unfold tier_size. rewrite Hfs, Hss.
    case_decide; [intros [= <-]|by apply (I_phys HI)]. by split.
  - intros y z pg pg'. rewrite Hpages, !lookup_insert.
    do 2 case_decide; simplify_eq; [done|..]; intros.
    + simplify_eq. by destruct (Hframe z pg').
    + simplify_eq. by destruct (Hframe y pg).
    + by eapply (I_frames HI).
  - intros p r. rewrite Hprocs. intros Hr. destruct (I_proc HI Hr) as [].
    assert (∀ d', bin_count A' d' p = bin_count A d' p) as Hc.
    { intros d'. apply bin_count_ext. intros i. by rewrite Hbin. }
    assert (∀ y (P : hemem_page → Prop),
      in_bins A p y ∧ (∃ pg, u_pages s !! y = Some pg ∧ P pg) ↔
      in_bins A' p y ∧ ∃ pg, u_pages s' !! y = Some pg ∧ P pg) as Hk.
    { intros y P. rewrite Hbins. split; intros [Hb Hpg]; (split; [done|]);
        destruct Hb as (?&?&_&?); [rewrite Hold by eauto|rewrite Hold in Hpg by eauto]; done. }
    split; rewrite ?Hc; auto.
    + intros k y Hk'. apply Hk. eauto.
    + intros k y Hk'. apply Hk. eauto.
    + intros y. rewrite <- Hk. auto.
    + intros y Hy. destruct (pi_requests y Hy) as [[Hb|[? _]] Hpg]; [|done].
      rewrite Hbins, Hold by (destruct Hb as (?&?&_&?); eauto). auto.
    + intros d' y Hy. destruct (pi_cur_cool d' y Hy) as (i&?&?). exists i. by rewrite Hbin.
  - rewrite Hprocs. apply HI.
  - intros k y. rewrite Hpa. intros Hk. destruct (I_pa HI Hk) as [[p Hb] Hpg].
    rewrite Hold by (destruct Hb as (?&?&_&?); eauto). split; [|done]. exists p. by apply Hbins.
  - rewrite Hpages, map_size_insert_None by done. lia.
  - rewrite Hfs, Hss. apply HI.
Qed.
End new_page.

(** ** The loops *)

(** The state after [n] pages of the tier [d] have been made from [s]. *)
Record filled (s s' : ucm) (A A' : list_id → list ptr) (d : bool) (n : Z) : Prop := Filled {
  fi_rest : rest s' = rest s ∧ u_procs s' = u_procs s ∧ u_pa_map s' = u_pa_map s;
  fi_other l : l ≠ free_list d → A' l = A l;
  fi_length : Z.of_nat (length (A' (free_list d))) = Z.of_nat (length (A (free_list d))) + n;
  fi_frames x pg : u_pages s' !! x = Some pg → pg_in_dram pg = d →
    pg_devdax_offset pg < n * HUGEPAGE_SIZE;
  fi_covered i : 0 ≤ i < n → ∃ x pg, u_pages s' !! x = Some pg ∧ frame pg = (d, i * HUGEPAGE_SIZE);
  fi_size : Z.of_nat (size (u_pages s')) = Z.of_nat (size (u_pages s)) + n;
  fi_keep x pg : u_pages s !! x = Some pg → u_pages s' !! x = Some pg;
}.

Lemma wp_init_free_page s0 A0 s A d i R :
  ucm_inv s A R None → filled s0 s A0 A d i → 0 ≤ i →
  (i + 1) * HUGEPAGE_SIZE ≤ tier_size s0 d → Z.of_nat (size (u_pages s0)) + i + 1 < MAX_PAGES →
  wp (init_free_page d i) (λ _ s', ∃ A', ucm_inv s' A' R None ∧ filled s0 s' A0 A' d (i + 1)) s.
Proof.
  intros HI Hf Hi Hbound Hsz. destruct Hf as [Hrest Hother Hlen Hframes Hcov Hsize Hkeep].
  assert (tier_size s d = tier_size s0 d) as Htier.
  { destruct Hrest as (Hr&_&_). unfold rest in Hr. unfold tier_size. by simplify_eq; destruct d. }
  assert (i * HUGEPAGE_SIZE < 2 ^ 63) as Hmax.
  { pose proof (I_sizes HI) as [??]. unfold tier_size, HUGEPAGE_SIZE in *. destruct d; lia. }
  assert (0 ≤ i * HUGEPAGE_SIZE) as Hpos by (unfold HUGEPAGE_SIZE; lia).
  unfold init_free_page, hemem_page_alloc. do 2 wp_step. wp_step.
  set (x := fresh (dom (u_pages s))).
  assert (u_pages s !! x = None) as Hx by (apply not_elem_of_dom, is_fresh).
  wp_step. wp_step. wp_step. wp_step.
  replace (pagesize_to_pt get_default_page_size) with (mret (M:=M ucm) HUGEP) by reflexivity.
  wp_step. wp_step. ucm_step. ucm_norm.
  unfold get_default_page_size.
  rewrite u64_small by lia.
  eapply (wp_zoom_enqueue A).
  - rec_simpl. destruct (u_plist s) as [lk hd] eqn:Hpl. apply (dll_alloc (PageLists lk hd)).
    + rewrite <- Hpl. apply HI.
    + simpl. pose proof (I_dom HI) as Hd. rewrite Hpl in Hd. simpl in Hd.
      by rewrite <- not_elem_of_dom, Hd, not_elem_of_dom.
    + simpl. pose proof (I_dom HI) as Hd. rewrite Hpl in Hd. simpl in Hd.
      rewrite <- size_dom, Hd, size_dom. unfold MAX_PAGES in *. lia.
  - rec_simpl. by eapply inv_free_header.
  - rec_simpl. apply lookup_insert_eq.
  - intros h Hdll Hsh. destruct Hsh as [Hl Hh]. rec_simpl_in Hl. rec_simpl_in Hh.
    assert (dom (links h) = {[ x ]} ∪ dom (links (u_plist s))) as Hl'
      by (rewrite Hl; apply dom_insert_L).
    exists (<[free_list d := x :: A (free_list d)]> A).
    assert (∀ y pg, u_pages s !! y = Some pg → frame pg ≠ (d, i * HUGEPAGE_SIZE)) as Hnew.
    { intros y pg Hy [= Hd Ho]. pose proof (Hframes y pg Hy Hd). lia. }
    split.
    + eapply (new_page_inv s A R HI _ d x (i * HUGEPAGE_SIZE)); rec_simpl;
        [done..|lia|by apply Z_mod_mult| |done|lia]. lia.
    + split; rec_simpl.
      * destruct Hrest as (Hr&?&?). split_and!; [|done..]. rewrite <- Hr. reflexivity.
      * intros l Hne. rewrite fn_lookup_insert_ne by done. auto.
      * rewrite fn_lookup_insert. simpl. lia.
      * intros y pg. rewrite lookup_insert. case_decide; [intros [= <-] _; simpl; unfold HUGEPAGE_SIZE; lia|].
        intros Hy Hd. pose proof (Hframes y pg Hy Hd). unfold HUGEPAGE_SIZE in *. lia.
      * intros j Hj. destruct (decide (j = i)) as [->|].
        -- exists x. eexists. rewrite lookup_insert_eq. done.
        -- destruct (Hcov j) as (y&pg&Hy&?); [lia|]. exists y, pg.
           rewrite lookup_insert_ne; [done|]. intros <-. congruence.
      * rewrite map_size_insert_None by done. lia.
      * intros y pg Hy. rewrite lookup_insert_ne; [eauto|]. intros <-. apply Hkeep in Hy. congruence.
Qed.

Lemma wp_init_tier s0 A0 R d n :
  ucm_inv s0 A0 R None → filled s0 s0 A0 A0 d 0 → 0 ≤ n →
  n * HUGEPAGE_SIZE ≤ tier_size s0 d → Z.of_nat (size (u_pages s0)) + n < MAX_PAGES →
  wp (for_list (seqZ 0 n) (init_free_page d))
    (λ _ s', ∃ A', ucm_inv s' A' R None ∧ filled s0 s' A0 A' d n) s0.
Proof.
  intros HI Hf Hn Hbound Hsz.
  eapply (wp_for_list _ (λ js s, ∃ A i, js = seqZ i (n - i) ∧ 0 ≤ i ≤ n ∧
            ucm_inv s A R None ∧ filled s0 s A0 A d i)).
  - exists A0, 0. rewrite Z.sub_0_r. split_and!; [done|lia..|done|done].
  - intros i js s (A&j&Heq&Hj&HI'&Hf'). destruct (decide (j = n)) as [->|].
    { by rewrite Z.sub_diag in Heq. }
    rewrite seqZ_cons in Heq by lia. injection Heq as -> ->.
    eapply wp_mono; [apply (wp_init_free_page s0 A0 s A d j R); [done|done|lia|unfold HUGEPAGE_SIZE in *; lia|lia]|].
    intros [] s' (A'&HI''&Hf''). exists A', (j + 1). split_and!; [|lia..|done|done].
    f_equal; lia.
  - intros s (A&j&Heq&Hj&HI'&Hf'). exists A.
    assert (j = n) as -> by (destruct (decide (j = n)); [done|]; by rewrite seqZ_cons in Heq by lia).
    done.
Qed.

(** ** [mm_init] *)
Lemma start_inv fsz ssz fptr sptr :
  0 ≤ fsz < 2 ^ 63 → 0 ≤ ssz < 2 ^ 63 →
  ucm_inv (ucm_start <| u_fastmem_size := fsz |> <| u_slowmem_size := ssz |>
             <| u_fastmem_ptr := fptr |> <| u_slowmem_ptr := sptr |>
             <| u_cool_stats := CoolStats (Tiered 0 0) (Tiered 0 0) |>)
    empty_lists empty_rings None.
Proof.
  intros Hf Hs. unfold empty_lists, empty_rings. split; rec_simpl; simpl.
  - split; simpl; [|done|by intros ? [] ?|by constructor|done|done].
    intros l q. rewrite lookup_insert, lookup_singleton. repeat case_decide; by intros [= <-].
  - done.
  - intros l. rewrite lookup_insert, lookup_singleton. unfold valid_list.
    destruct l; repeat case_decide; simplify_eq; rewrite ?dom_empty_L;
      (split; [intros [? ?]|intros ?]; try done; try set_solver; eauto).
  - intros x [pg Hx]. by rewrite lookup_empty in Hx.
  - intros d x Hx. by apply not_elem_of_nil in Hx.
  - intros d p i x Hx. by apply not_elem_of_nil in Hx.
  - intros x pg Hx. by rewrite lookup_empty in Hx.
  - intros x y pg pg' Hx. by rewrite lookup_empty in Hx.
  - intros p r Hp. by rewrite lookup_empty in Hp.
  - intros p q r r' Hp. by rewrite lookup_empty in Hp.
  - intros k x Hk. by rewrite lookup_empty in Hk.
  - done.
  - done.
Qed.

Lemma filled_start s A d : u_pages s = ∅ ∨ (∀ x pg, u_pages s !! x = Some pg → pg_in_dram pg ≠ d) →
  filled s s A A d 0.
Proof.
  intros He. split; [done|done|lia| |lia|lia|done].
  intros x pg Hx Hd. destruct He as [He|He]; [by rewrite He, lookup_empty in Hx|].
  by destruct (He x pg).
Qed.

(** What [mm_init] leaves: the invariant, no process, and a free page for each
    whole frame of the two tiers. *)
Record initialised (fsz ssz fptr sptr : Z) (s : ucm) (A : list_id → list ptr) : Prop := Initialised {
  in_inv : ucm_inv s A empty_rings None;
  in_fast : Z.of_nat (length (A FastFree)) = fsz / HUGEPAGE_SIZE;
  in_slow : Z.of_nat (length (A SlowFree)) = ssz / HUGEPAGE_SIZE;
  in_frames d i : 0 ≤ i < (if d : bool then fsz else ssz) / HUGEPAGE_SIZE →
    ∃ x pg, u_pages s !! x = Some pg ∧ frame pg = (d, i * HUGEPAGE_SIZE);
  in_rest : rest s = rest (ucm_start <| u_fastmem_size := fsz |> <| u_slowmem_size := ssz |>
              <| u_fastmem_ptr := fptr |> <| u_slowmem_ptr := sptr |>);
  in_procs : u_procs s = ∅;
}.

(** With the fast tier filled, no page is of the slow tier. *)
Lemma fast_only s A : ucm_inv s A empty_rings None →
  (∀ l, l ≠ FastFree → A l = []) → ∀ x pg, u_pages s !! x = Some pg → pg_in_dram pg ≠ false.
Proof.
  intros HI Hl x pg Hx. destruct (I_total HI (x:=x)) as [l Hin]; [eauto|].
  destruct (decide (l = FastFree)) as [->|Hne].
  - destruct (I_free HI (d:=true) Hin) as (pg'&?&Hfp). simplify_eq. by rewrite (fp_dram _ _ Hfp).
  - rewrite Hl in Hin by done. by apply not_elem_of_nil in Hin.
Qed.

Lemma wp_mm_init fsz ssz fptr sptr :
  HUGEPAGE_SIZE ≤ fsz < 2 ^ 63 → HUGEPAGE_SIZE ≤ ssz < 2 ^ 63 →
  fsz / HUGEPAGE_SIZE + ssz / HUGEPAGE_SIZE < MAX_PAGES →
  wp (mm_init fsz ssz fptr sptr) (λ _ s, ∃ A, initialised fsz ssz fptr sptr s A) ucm_start.
Proof.
  intros Hf Hs Hmax. assert (0 < HUGEPAGE_SIZE) as HP by done.
  pose proof (Z.mul_div_le fsz HUGEPAGE_SIZE HP) as Hfle.
  pose proof (Z.mul_div_le ssz HUGEPAGE_SIZE HP) as Hsle.
  pose proof (Z.div_str_pos fsz HUGEPAGE_SIZE) as Hfpos.
  pose proof (Z.div_str_pos ssz HUGEPAGE_SIZE) as Hspos.
  unfold mm_init, init_free_lists, get_fastmem_size, get_slowmem_size.
  do 8 wp_step. rec_simpl.
  wp_step; [rewrite negb_true_iff, Z.eqb_neq; unfold get_default_page_size; lia|].
  wp_step. eapply wp_mono.
  { apply wp_init_tier; [by apply start_inv; lia|by apply filled_start; left|..];
      unfold get_default_page_size, tier_size; rec_simpl; [lia..|].
    change (Z.of_nat (size (u_pages ucm_start))) with 0. lia. }
  intros [] s1 (A1&HI1&[(Hr1&Hp1&Hpa1) Ho1 Hl1 Hfr1 Hc1 Hsz1 Hk1]). simpl in Hl1.
  wp_step. wp_step.
  assert (u_slowmem_size s1 = ssz) as Hss by (unfold rest in Hr1; by simplify_eq).
  rewrite Hss. wp_step. wp_step; [rewrite negb_true_iff, Z.eqb_neq; unfold get_default_page_size; lia|].
  eapply wp_mono.
  { apply (wp_init_tier s1 A1 empty_rings); [done| |unfold get_default_page_size, tier_size; lia..|].
    - apply filled_start. right. by eapply fast_only.
    - rec_simpl_in Hsz1. change (Z.of_nat (size (u_pages ucm_start))) with 0 in Hsz1.
      unfold get_default_page_size in *. lia. }
  intros [] s2 (A2&HI2&[(Hr2&Hp2&Hpa2) Ho2 Hl2 Hfr2 Hc2 Hsz2 Hk2]). wp_step. exists A2.
  assert (u_pa_map s2 = ∅) as Hpa by (by rewrite Hpa2, Hpa1).
  replace (s2 <| u_pa_map := ∅ |>) with s2 by (destruct s2; simpl in Hpa; by subst).
  split; [done|..].
  - rewrite (Ho2 FastFree) by done. simpl in Hl1. unfold get_default_page_size in Hl1. lia.
  - simpl in Hl2. rewrite Hl2, (Ho1 SlowFree) by done. done.
  - intros [] i Hi.
    + destruct (Hc1 i) as (x&pg&Hx&?); [done|]. exists x, pg. auto.
    + by apply Hc2.
  - by rewrite Hr2, Hr1.
  - by rewrite Hp2, Hp1.
Qed.
