(* ===== verification/ProcessOk.v ===== *)
(** * Creation and removal of processes

    [mgr_inv s L K] relates the process table and the process list to the
    sequence [L] of the processes under management, with the locks [K] held by
    the running thread.  Creating a process, adding it, removing it and
    pruning dead processes keep it and [ucm_inv]; removal returns every page of
    the process to the free list of its tier. *)

From S2P Require Import Prelude Fifo Ring F64 ProcList Types Hotness Mm MmAsync Ucm Process Inv UcmWp AsyncOk TableOk AllocOk RequestOk.

(** ** The managed processes *)
Record mgr_inv (s : ucm) (L : list ptr) (K : gset (unit + ptr)) : Prop := MgrInv {
  M_dll : dll_ok (plists (u_pq s)) (λ _, L);
  M_dom : dom (links (plists (u_pq s))) = dom (u_procs s);
  M_header : is_Some (headers (plists (u_pq s)) !! tt);
  M_held : held (u_pq s) = K;
  M_map k p : u_proc_map s !! k = Some p ↔
    p ∈ L ∧ ∃ r, u_procs s !! p = Some r ∧ pr_pid r = k;
  M_phh p r : u_procs s !! p = Some r →
    pr_phh r = if decide (p ∈ L) then Some (pr_pid r) else None;
}.
#[global] Arguments M_dll {s L K} _.
#[global] Arguments M_dom {s L K} _.
#[global] Arguments M_header {s L K} _.
#[global] Arguments M_held {s L K} _.
#[global] Arguments M_map {s L K} _.
#[global] Arguments M_phh {s L K} _ {p r} _.

Lemma mgr_proc s L K p : mgr_inv s L K → p ∈ L → is_Some (u_procs s !! p).
Proof.
  intros HM Hp. destruct (dll_in _ _ tt p (M_dll HM) Hp) as (n&Hn&_).
  rewrite <- elem_of_dom, <- (M_dom HM), elem_of_dom. eauto.
Qed.

(** [mgr_inv] only looks at the pids and the handles of the processes. *)
Definition pid_view (r : hemem_process) := (pr_pid r, pr_phh r).

Lemma mgr_locks s s' L K K' :
  mgr_inv s L K → plists (u_pq s') = plists (u_pq s) → held (u_pq s') = K' →
  u_proc_map s' = u_proc_map s →
  (∀ q, pid_view <$> u_procs s' !! q = pid_view <$> u_procs s !! q) → mgr_inv s' L K'.
Proof.
  intros [] Hpq Hheld Hmap Hview.
  assert (∀ q r', u_procs s' !! q = Some r' → ∃ r, u_procs s !! q = Some r ∧ pid_view r' = pid_view r) as H1.
  { intros q r' Hq. specialize (Hview q). rewrite Hq in Hview. destruct (u_procs s !! q); [|done].
    injection Hview as ??. eexists. split; [done|]. unfold pid_view. congruence. }
  assert (∀ q r, u_procs s !! q = Some r → ∃ r', u_procs s' !! q = Some r' ∧ pid_view r' = pid_view r) as H2.
  { intros q r Hq. specialize (Hview q). rewrite Hq in Hview. destruct (u_procs s' !! q); [|done].
    injection Hview as ??. eexists. split; [done|]. unfold pid_view. congruence. }
  split; rewrite ?Hpq, ?Hmap; auto.
  - rewrite M_dom0. apply set_eq. intros q. rewrite !elem_of_dom. split; intros [r Hr].
    + destruct (H2 q r Hr) as (?&->&_). eauto.
    + destruct (H1 q r Hr) as (?&->&_). eauto.
  - intros k p. rewrite M_map0. split; intros (?&r&Hr&<-); (split; [done|]).
    + destruct (H2 p r Hr) as (r'&->&[= ??]). eauto.
    + destruct (H1 p r Hr) as (r'&->&[= ??]). eauto.
  - intros p r' Hr'. destruct (H1 p r' Hr') as (r&Hr&[= -> ->]). auto.
Qed.

Lemma mgr_view s s' L K :
  mgr_inv s L K → u_pq s' = u_pq s → u_proc_map s' = u_proc_map s →
  (∀ q, pid_view <$> u_procs s' !! q = pid_view <$> u_procs s !! q) → mgr_inv s' L K.
Proof. intros HM Hpq. eapply mgr_locks; [done|by rewrite Hpq..|]. rewrite Hpq. apply HM. Qed.

Lemma mgr_kept s s' L K : mgr_inv s L K → kept s s' → mgr_inv s' L K.
Proof.
  intros HM (Hrest&Hk&_). unfold rest in Hrest. eapply mgr_view; [done|congruence..|].
  intros q. specialize (Hk q).
  destruct (u_procs s' !! q), (u_procs s !! q); simpl in *; try done.
  unfold proc_keep in Hk. unfold pid_view. by simplify_eq; f_equal; congruence.
Qed.

(** ** The storage of a process *)
Lemma elem_of_process_lists p l :
  l ∈ process_lists p ↔ ∃ d i, l = bin d p i ∧ 0 ≤ i ≤ NUM_HOTNESS_LEVELS.
Proof.
  unfold process_lists. rewrite list_elem_of_In, in_flat_map.
  setoid_rewrite <- list_elem_of_In. setoid_rewrite elem_of_seqZ. split.
  - intros (i&Hi&Hl). rewrite !elem_of_cons in Hl.
    destruct Hl as [->|[->|Hl%not_elem_of_nil]]; [exists true, i|exists false, i|done];
      (split; [done|lia]).
  - intros ([]&i&->&Hi); exists i; (split; [lia|]); set_solver.
Qed.

Lemma lookup_add_lists (m : gmap list_id page_list) ls l :
  foldr (λ l, insert l empty_list) m ls !! l =
  if decide (l ∈ ls) then Some empty_list else m !! l.
Proof.
  induction ls as [|l' ls IH]; simpl; [done|]. rewrite lookup_insert, IH.
  destruct (decide (l' = l)) as [->|Hne]; [by rewrite decide_True by set_solver|].
  by repeat case_decide; set_solver.
Qed.

Lemma lookup_del_lists (m : gmap list_id page_list) ls l :
  foldr delete m ls !! l = if decide (l ∈ ls) then None else m !! l.
Proof.
  induction ls as [|l' ls IH]; simpl; [done|]. rewrite lookup_delete, IH.
  destruct (decide (l' = l)) as [->|Hne]; [by rewrite decide_True by set_solver|].
  by repeat case_decide; set_solver.
Qed.

Lemma headers_upd {L} `{Countable L} (h : page_lists L) f :
  headers (h <| headers ::= f |>) = f (headers h).
Proof. done. Qed.

(** The invariant of a process only looks at its own rings. *)
Lemma proc_inv_rings pages A R R' W p r :
  proc_inv pages A R W p r → R' p = R p → proc_inv pages A R' W p r.
Proof. intros [] HR. split; rewrite ?HR; auto. Qed.

Definition fresh_rings (R : ptr → ring_sel → list ptr) (p : ptr) : ptr → ring_sel → list ptr :=
  <[p := λ _, []]> R.

(** A process that has no page yet. *)
Record fresh_proc (r : hemem_process) : Prop := FreshProc {
  fr_pages : mm_pages (pr_mm r) = ∅;
  fr_cxl : mm_cxl_offset_to_page (pr_mm r) = ∅;
  fr_rings sel : ring_ok (ring_of sel (pr_mm r)) [] ∧ capacity (ring_of sel (pr_mm r)) = CAPACITY;
  fr_cool d : cur_cool d (pr_mm r) = None ∧ cur_cool_list d (pr_mm r) = 0;
  fr_phh : pr_phh r = None;
  fr_fast : mm_current_fastmem (pr_mm r) = 0;
  fr_slow : mm_current_slowmem (pr_mm r) = 0;
}.

Section create.
Context (s : ucm) (A : list_id → list ptr) (R : ptr → ring_sel → list ptr).
Context (HI : ucm_inv s A R None) (p : ptr) (Hp : u_procs s !! p = None).

Lemma absent_bins d i : A (bin d p i) = [].
Proof using HI Hp.
  apply (dll_no_header (I_dll HI)). destruct (headers (u_plist s) !! bin d p i) as [q|] eqn:Hq; [|done].
  assert (valid_list (u_procs s) (bin d p i)) as Hv by (apply (I_header HI); eauto).
  exfalso. destruct d; destruct Hv as [Hd _]; rewrite elem_of_dom, Hp in Hd; by destruct Hd.
Qed.

Lemma absent_count d : bin_count A d p = 0.
Proof using HI Hp.
  rewrite bin_count_members. replace (bin_members A d p) with (@nil ptr); [done|].
  symmetry. apply elem_of_nil_inv. intros x (i&_&Hx)%elem_of_bin_members. rewrite absent_bins in Hx.
  by apply not_elem_of_nil in Hx.
Qed.

Lemma fresh_proc_inv r : fresh_proc r → pr_pid r ≠ -1 →
  proc_inv (u_pages s) A (fresh_rings R p) None p r.
Proof using HI Hp.
  intros [] Hpid. assert (fresh_rings R p p = λ _, []) as HR by apply fn_lookup_insert.
  assert (∀ x, ¬ in_bins A p x) as Hno.
  { intros x (d&i&_&Hx). rewrite absent_bins in Hx. by apply not_elem_of_nil in Hx. }
  split; rewrite ?HR, ?fr_pages0, ?fr_cxl0, ?fr_phh0; auto.
  - by intros [].
  - by intros [].
  - intros k x Hk. by rewrite lookup_empty in Hk.
  - intros k x Hk. by rewrite lookup_empty in Hk.
  - intros x. rewrite elem_of_nil. naive_solver.
  - constructor.
  - intros x Hx. by apply not_elem_of_nil in Hx.
  - constructor.
  - intros d x Hx. destruct (fr_cool0 d). congruence.
  - intros d. destruct (fr_cool0 d) as [_ ->]. done.
Qed.

Lemma inv_alloc r : fresh_proc r → pr_pid r ≠ -1 →
  (∀ q r', u_procs s !! q = Some r' → pr_pid r' ≠ pr_pid r) →
  ucm_inv (alloc_process p r s) A (fresh_rings R p) None.
Proof using HI Hp.
  intros Hr Hpid Hpids. pose proof (fresh_proc_inv r Hr Hpid) as Hproc.
  assert (∀ q r', u_procs s !! q = Some r' → q ≠ p) as Hne by (intros ??? ->; congruence).
  assert (∀ l, l ∈ process_lists p → A l = []) as HA.
  { intros l (d&i&->&_)%elem_of_process_lists. apply absent_bins. }
  unfold alloc_process. split; rec_simpl; try apply HI.
  - apply (dll_headers (u_plist s)); [apply HI|..].
    + intros l q. rewrite lookup_add_lists. case_decide; [|by left].
      intros [= <-]. right. split; [auto|done].
    + intros l. rewrite lookup_add_lists. case_decide; [done|]. apply (I_dll HI).
  - intros l. rewrite headers_upd, lookup_add_lists. case_decide as Hl.
    + apply elem_of_process_lists in Hl as (d&i&->&Hi). split; [intros _|eauto].
      destruct d; simpl; rewrite dom_insert_L; set_solver.
    + rewrite (I_header HI). destruct l as [| |q i|q i]; simpl; [done..| |];
        rewrite dom_insert_L; (split; [set_solver|]);
        intros [[->%elem_of_singleton|?]%elem_of_union Hi]; try done;
        exfalso; apply Hl, elem_of_process_lists; [exists true, i|exists false, i]; done.
  - intros d q i x Hx. destruct (I_used HI Hx) as (pg&r'&Hpg&Hr'&?). exists pg, r'.
    rewrite lookup_insert_ne; [done|]. intros <-. by apply (Hne p r').
  - intros q r'. rewrite lookup_insert. case_decide as Hq.
    + intros [= <-]. by subst q.
    + intros Hr'. apply (proc_inv_rings _ _ R); [by apply (I_proc HI)|]. by apply fn_lookup_insert_ne.
  - intros q q' r1 r2. rewrite !lookup_insert. do 2 case_decide; intros; simplify_eq; try done.
    + by destruct (Hpids q' r2).
    + by destruct (Hpids q r1).
    + by eapply (I_pids HI).
Qed.

Lemma mgr_alloc r L K : mgr_inv s L K → pr_phh r = None →
  Z.of_nat (S (size (u_procs s))) < 2 ^ 64 → mgr_inv (alloc_process p r s) L K.
Proof using Hp.
  intros HM Hphh Hsz. assert (p ∉ L) as HpL.
  { intros HpL. destruct (mgr_proc s L K p HM HpL). congruence. }
  assert (∀ (q : ptr) r', u_procs s !! q = Some r' → q ≠ p) as Hne by (intros ??? ->; congruence).
  unfold alloc_process. destruct HM. split; rec_simpl; try done.
  - apply (dll_alloc (plists (u_pq s))); [done| |].
    + by rewrite <- not_elem_of_dom, M_dom0, not_elem_of_dom.
    + by rewrite <- size_dom, M_dom0, size_dom.
  - transitivity ({[ p ]} ∪ dom (links (plists (u_pq s)))); [apply dom_insert_L|].
    by rewrite M_dom0, dom_insert_L.
  - intros k q. rewrite M_map0. split; intros (HqL&r'&Hr'&<-); (split; [done|]); exists r'.
    + rewrite lookup_insert_ne; [done|]. intros <-. done.
    + rewrite lookup_insert_ne in Hr'; [done|]. intros <-. done.
  - intros q r'. rewrite lookup_insert. case_decide; [|apply M_phh0].
    intros [= <-]. subst q. by rewrite decide_False.
Qed.
End create.

(** What [hemem_process_init] returns. *)
Definition new_process (pid : Z) (mm : process_mem) : hemem_process :=
  hemem_process_zero <| pr_pid := pid |> <| pr_exited := false |>
    <| pr_valid_uffd := false |> <| pr_still_migrating := false |> <| pr_mm := mm |>
    <| pr_policy ::= process_policy_init |> <| pr_stats := ProcessStats 0 0 0 0 0 0 0 |>.

Lemma wp_new_ring s (Q : ring_buf_t → ucm → Prop) :
  (∀ q, ring_ok q [] → capacity q = CAPACITY → Q q s) → wp new_ring Q s.
Proof.
  intros HQ. unfold new_ring. pose proof (ring_buf_init_spec CAPACITY) as Hspec.
  destruct (ring_buf_init CAPACITY) as [q|]; [|unfold CAPACITY in Hspec; lia].
  destruct Hspec as (_&?&?); [unfold CAPACITY; lia|]. wp_step. auto.
Qed.

Lemma wp_hemem_process_init s A R L K pid :
  ucm_inv s A R None → mgr_inv s L K → pid ≠ -1 →
  (∀ q r', u_procs s !! q = Some r' → pr_pid r' ≠ pid) →
  Z.of_nat (S (size (u_procs s))) < 2 ^ 64 →
  wp (hemem_process_init pid) (λ p s', ∃ mm, let r := new_process pid mm in
    s' = alloc_process p r s ∧ u_procs s !! p = None ∧ fresh_proc r ∧
    mm_mem_allocated mm = 0 ∧ ucm_inv s' A (fresh_rings R p) None ∧ mgr_inv s' L K) s.
Proof.
  intros HI HM Hpid Hpids Hsz. unfold hemem_process_init, process_mem_init.
  do 2 wp_step. apply wp_new_ring. intros hot Hhot Hchot. wp_step. apply wp_new_ring.
  intros cold Hcold Hccold. wp_step. apply wp_new_ring. intros free Hfree Hcfree.
  do 4 wp_step. set (p := fresh (dom (u_procs s))).
  assert (u_procs s !! p = None) as Hp by (apply not_elem_of_dom, is_fresh).
  wp_step. wp_step. match goal with |- ∃ mm, _ => eexists end. fold (new_process pid).
  match goal with |- context [alloc_process p ?r s] => set (r0 := r) end.
  assert (fresh_proc r0) as Hfr.
  { split; try done; [|by intros []]. by intros []. }
  cbv zeta. split_and!; [reflexivity|done|exact Hfr|done|..].
  - apply inv_alloc; auto.
  - by apply mgr_alloc.
Qed.

(** ** The process table *)
Section table.
Context (s : ucm) (L : list ptr) (K : gset (unit + ptr)) (HM : mgr_inv s L K).

Lemma wp_find_process pid (Q : option ptr → ucm → Prop) :
  Q (u_proc_map s !! pid) s → wp (find_process pid) Q s.
Proof using HM.
  intros HQ. unfold find_process. do 2 wp_step. destruct (u_proc_map s !! pid) as [p|] eqn:Hp.
  - apply (M_map HM) in Hp as (_&r&Hr&Hpid). do 2 ucm_step. wp_step. by rewrite Hpid, Z.eqb_refl.
  - by wp_step.
Qed.

Lemma proc_map_fresh p r A R :
  ucm_inv s A R None → u_procs s !! p = Some r → p ∉ L → u_proc_map s !! pr_pid r = None.
Proof using HM.
  intros HI Hr Hp. destruct (u_proc_map s !! pr_pid r) as [q|] eqn:Hq; [|done].
  apply (M_map HM) in Hq as (HqL&r'&Hr'&Hpid). exfalso. apply Hp.
  by rewrite (I_pids HI Hr Hr') by done.
Qed.
End table.

(** What creating, adding and removing processes leave alone. *)
Definition world (s : ucm) :=
  (u_remap_locked s, u_scan_epoch s, u_fastmem_size s, u_slowmem_size s, u_fastmem_ptr s,
   u_slowmem_ptr s, u_mem s, u_app s, u_ipc s).

(** The handle of a process and its byte counts change. *)
Definition tables_view (r : hemem_process) :=
  (pr_pid r, mm_pages (pr_mm r), mm_cxl_offset_to_page (pr_mm r),
   mm_hot_ring (pr_mm r), mm_cold_ring (pr_mm r), mm_free_page_ring (pr_mm r),
   mm_cur_cool_in_fastmem (pr_mm r), mm_cur_cool_in_slowmem (pr_mm r),
   mm_cur_cool_in_fastmem_list (pr_mm r), mm_cur_cool_in_slowmem_list (pr_mm r)).

Lemma inv_counts s s' A R p r r' :
  ucm_inv s A R None → u_procs s !! p = Some r → u_procs s' = <[p := r']> (u_procs s) →
  tables_view r' = tables_view r →
  (is_Some (pr_phh r') → mm_current_fastmem (pr_mm r') = HUGEPAGE_SIZE * bin_count A true p ∧
                         mm_current_slowmem (pr_mm r') = HUGEPAGE_SIZE * bin_count A false p) →
  u_pages s' = u_pages s → u_plist s' = u_plist s → u_pa_map s' = u_pa_map s →
  u_fastmem_size s' = u_fastmem_size s → u_slowmem_size s' = u_slowmem_size s →
  ucm_inv s' A R None.
Proof.
  intros HI Hr Hprocs Hv Hc Hpages Hpl Hpa Hfs Hss.
  unfold tables_view in Hv. injection Hv as V1 V2 V3 V4 V5 V6 V7 V8 V9 V10.
  eapply (inv_change s s' A A R R None p r r' ∅); rewrite ?Hpages, ?Hpl, ?Hpa, ?V2, ?V3;
    auto; try done; try set_solver.
  - apply HI.
  - intros x y pg pg'. apply (I_frames HI).
  - destruct (I_proc HI Hr). split; rewrite ?V1, ?V2, ?V3; auto; try (intros Hs; by apply Hc).
    + intros []; simpl; rewrite ?V4, ?V5, ?V6; [apply (pi_ring HotRing)|apply (pi_ring ColdRing)|apply (pi_ring FreeRing)].
    + intros [] x; simpl; rewrite ?V7, ?V8; [apply (pi_cur_cool true)|apply (pi_cur_cool false)].
    + intros []; simpl; rewrite ?V9, ?V10; [apply (pi_cur_cool_list true)|apply (pi_cur_cool_list false)].
Qed.

Lemma target_insert s s' p r r' q :
  u_procs s !! p = Some r → u_procs s' = <[p := r']> (u_procs s) → pr_policy r' = pr_policy r →
  target_miss_ratio s' q = target_miss_ratio s q.
Proof.
  intros Hr Hs Hpol. unfold target_miss_ratio. rewrite Hs, lookup_insert.
  case_decide as Hq; [|done]. subst q. by rewrite Hr, Hpol.
Qed.

(** [add_process]: the process is found by its pid from now on, and its place
    in the list is by its target miss ratio. *)
Lemma wp_add_process s A R L K p r :
  ucm_inv s A R None → mgr_inv s L K → u_procs s !! p = Some r → p ∉ L →
  inl tt ∉ K → (∀ q, q ∈ p :: L → inr q ∉ K) →
  mm_current_fastmem (pr_mm r) = HUGEPAGE_SIZE * bin_count A true p →
  mm_current_slowmem (pr_mm r) = HUGEPAGE_SIZE * bin_count A false p →
  wp (add_process p) (λ _ s', ∃ b a, L = b ++ a ∧
    inserted (miss_ratio_gt (target_miss_ratio s)) p b a ∧
    ucm_inv s' A R None ∧ mgr_inv s' (b ++ p :: a) K ∧
    u_procs s' = <[p := r <| pr_phh := Some (pr_pid r) |>]> (u_procs s) ∧
    u_pages s' = u_pages s ∧ u_plist s' = u_plist s ∧ world s' = world s) s.
Proof.
  intros HI HM Hr HpL HtK HK Hcf Hcs. pose proof (proc_map_fresh s L K HM p r A R HI Hr HpL) as Hfresh.
  pose proof (M_phh HM Hr) as Hphh. rewrite decide_False in Hphh by done.
  assert (links (plists (u_pq s)) !! p = Some detached) as Hdet.
  { assert (p ∈ dom (links (plists (u_pq s)))) as [n Hn]%elem_of_dom
      by (rewrite (M_dom HM); apply elem_of_dom; eauto).
    rewrite Hn. f_equal. apply (dll_other (M_dll HM) Hn). by intros []. }
  unfold add_process. do 3 ucm_step. eapply (wp_find_process s L K HM).
  rewrite Hfresh. do 2 wp_step; [done|]. do 3 wp_step. eapply wp_HASH_ADD; [done..|].
  do 3 wp_step. ucm_step. wp_step. wp_step. wp_step. rec_simpl.
  set (s1 := s <| u_proc_map := _ |> <| u_procs := _ |>).
  assert (∀ q, target_miss_ratio s1 q = target_miss_ratio s q) as Htmr.
  { intros q. by eapply (target_insert s s1 p r). }
  destruct (u_pq s) as [h K'] eqn:Hpq. pose proof (M_held HM) as HK'. rewrite Hpq in HK'. simpl in HK'.
  subst K'. pose proof (M_dll HM) as Hdll. rewrite Hpq in Hdll. simpl in Hdll, Hdet.
  pose proof (M_header HM) as Hhd. rewrite Hpq in Hhd.
  eapply wp_mono; [by apply (wp_enqueue_process _ h (λ _, L))|].
  intros [] [h' K'] (b&a&HL&[Hb Ha]&Hdll'&[Hsl Hsh]&HK'). simpl in HK', Hdll', Hsl, Hsh. subst K'.
  unfold miss_ratio_gt in Hb, Ha. exists b, a. split_and!; [done|..].
  - unfold miss_ratio_gt. split; intros y Hy; [specialize (Hb y Hy)|specialize (Ha y Hy)];
      by rewrite !Htmr in *.
  - by eapply (inv_counts s _ A R p r).
  - split; unfold s1; rec_simpl.
    + eapply dll_ext; [exact Hdll'|]. by intros [].
    + simpl. rewrite Hsl, dom_insert_lookup_L by eauto. pose proof (M_dom HM) as Hd.
      by rewrite Hpq in Hd.
    + simpl. by rewrite <- elem_of_dom, Hsh, elem_of_dom.
    + done.
    + intros k q. rewrite lookup_insert. case_decide as Hk.
      * subst k. split.
        -- intros [= <-]. split; [set_solver|]. eexists. by rewrite lookup_insert_eq.
        -- intros (Hq&r'&Hr'&Hpid). f_equal. rewrite lookup_insert in Hr'.
           case_decide; [done|]. by eapply (I_pids HI).
      * rewrite (M_map HM), HL. split; intros (Hq&r'&Hr'&Hpid).
        -- split; [set_solver|]. exists r'. rewrite lookup_insert_ne; [done|]. intros <-. congruence.
        -- rewrite lookup_insert in Hr'. case_decide; [simplify_eq; by destruct Hk|].
           split; [set_solver|eauto].
    + intros q r'. rewrite lookup_insert. case_decide as Hq.
      * intros [= <-]. subst q. by rewrite decide_True by set_solver.
      * intros Hr'. rewrite (M_phh HM Hr'), HL. apply decide_ext. set_solver.
  - done.
  - done.
  - done.
  - done.
Qed.

(** ** Removal *)
Definition unlisted (r : hemem_process) : hemem_process :=
  r <| pr_phh := None |> <| pr_mm ::= λ mm, mm <| mm_current_fastmem := 0 |> |>
    <| pr_mm ::= λ mm, mm <| mm_current_slowmem := 0 |> |>.

Lemma wp_remove_process s A R L K p r b a :
  ucm_inv s A R None → mgr_inv s L K → u_procs s !! p = Some r → L = b ++ p :: a →
  inl tt ∉ K → (∀ q, q ∈ L → inr q ∉ K) →
  wp (remove_process p) (λ _ s', ucm_inv s' A R None ∧ mgr_inv s' (b ++ a) K ∧
    u_procs s' = <[p := unlisted r]> (u_procs s) ∧
    u_pages s' = u_pages s ∧ world s' = world s) s.
Proof.
  intros HI HM Hr HL HtK HK. assert (p ∈ L) as HpL by set_solver.
  assert (p ∉ b ++ a) as Hpba.
  { pose proof (dll_nodup (M_dll HM) tt) as Hnd. simpl in Hnd. rewrite HL in Hnd.
    apply NoDup_app in Hnd as (?&?&[? ?]%NoDup_cons). set_solver. }
  pose proof (M_phh HM Hr) as Hphh. rewrite decide_True in Hphh by done.
  assert (u_proc_map s !! pr_pid r = Some p) as Hmap by (apply (M_map HM); eauto).
  unfold remove_process. do 5 ucm_step. eapply wp_HASH_DELETE; [done..|].
  do 3 wp_step. ucm_step. wp_step. wp_step. rec_simpl.
  destruct (u_pq s) as [h K'] eqn:Hpq. pose proof (M_held HM) as HK'. rewrite Hpq in HK'. simpl in HK'.
  subst K'. pose proof (M_dll HM) as Hdll. rewrite Hpq in Hdll. simpl in Hdll.
  pose proof (M_header HM) as Hhd. rewrite Hpq in Hhd.
  eapply wp_mono; [by apply (wp_process_list_remove h (λ _, L) tt b p a)|].
  intros [] [h' K'] (Hdll'&[Hsl Hsh]&HK'). simpl in HK', Hdll', Hsl, Hsh. subst K'.
  wp_step. apply wp_lock_process; [rec_simpl; simpl; auto|].
  wp_step. ucm_step. wp_step. ucm_step. apply wp_unlock_process; [rec_simpl; simpl; set_solver|].
  ucm_norm. match goal with |- ucm_inv ?t _ _ _ ∧ _ => set (s' := t) end.
  assert (u_pq s' = ProcQueue h' K) as Hpq'.
  { unfold s'. rec_simpl. unfold upd, set_held. simpl. f_equal. specialize (HK p HpL). set_solver. }
  assert (u_procs s' = <[p := unlisted r]> (u_procs s)) as Hprocs by done.
  assert (u_proc_map s' = delete (pr_pid r) (u_proc_map s)) as Hmap' by done.
  split_and!; [eapply (inv_counts s s' A R p r); try done; by intros []| |done..].
  split; rewrite ?Hpq', ?Hprocs, ?Hmap'; simpl.
  - eapply dll_ext; [exact Hdll'|]. by intros [].
  - rewrite Hsl, dom_insert_lookup_L by eauto. pose proof (M_dom HM) as Hd. by rewrite Hpq in Hd.
  - by rewrite <- elem_of_dom, Hsh, elem_of_dom.
  - done.
  - intros k q. rewrite lookup_delete_Some, (M_map HM), HL. split.
    + intros (Hk&Hq&r'&Hr'&Hpid). assert (q ≠ p) as Hqp by (intros ->; congruence).
      split; [set_solver|]. exists r'. by rewrite lookup_insert_ne.
    + intros (Hq&r'&Hr'&Hpid). assert (q ≠ p) as Hqp by (intros ->; done).
      rewrite lookup_insert_ne in Hr' by done.
      split_and!; [|set_solver|eauto]. intros <-. by apply Hqp, (I_pids HI Hr' Hr).
  - intros q r'. rewrite lookup_insert. case_decide as Hq.
    + intros [= <-]. subst q. by rewrite decide_False.
    + intros Hr'. rewrite (M_phh HM Hr'), HL. apply decide_ext. set_solver.
Qed.

(** A process whose lock the caller holds cannot be removed. *)
Lemma ucm_remove_process_held s L K p r b a :
  mgr_inv s L K → u_procs s !! p = Some r → L = b ++ p :: a →
  inl tt ∉ K → inr p ∈ K → (∀ q, q ∈ b → inr q ∉ K) →
  ucm_remove_process p s = Err SelfDeadlock.
Proof.
  intros HM Hr HL HtK HpK HK. assert (p ∈ L) as HpL by set_solver.
  pose proof (M_phh HM Hr) as Hphh. rewrite decide_True in Hphh by done.
  assert (u_proc_map s !! pr_pid r = Some p) as Hmap by (apply (M_map HM); eauto).
  apply wpx_must. unfold ucm_remove_process, remove_process. apply wpx_bind.
  wpx_next. eapply wp_proc; [done|]. wpx_next. wp_step. wpx_next. eapply wp_HASH_DELETE; [done..|].
  wpx_next. wp_step. wpx_next. eapply wp_set_proc; [done|].
  apply wpx_bind, wpx_zoom. rec_simpl. unfold wpx.
  pose proof (process_list_remove_held (plists (u_pq s)) (λ _, L) tt b p a (held (u_pq s))) as Hheld.
  rewrite (M_held HM) in Hheld.
  replace (u_pq s) with (ProcQueue (plists (u_pq s)) K).
  - rewrite Hheld; [done|apply (M_dll HM)|apply (M_header HM)|done..].
  - rewrite <- (M_held HM). by destruct (u_pq s).
Qed.

(** *** Every page of a list goes to the free ring *)
Record retiring (p : ptr) (xs : list ptr) (s : ucm) (R : ptr → ring_sel → list ptr) (s' : ucm)
    (A : list_id → list ptr) (R' : ptr → ring_sel → list ptr) : Prop := Retiring {
  rt_inv : ucm_inv s' A R' None;
  rt_ring : R' p FreeRing = R p FreeRing ++ xs;
  rt_others q : q ≠ p → R' q = R q;
  rt_pages y : y ∉ xs → u_pages s' !! y = u_pages s !! y;
  rt_kept : kept s s';
}.

Lemma retiring_app p xs ys s1 R1 s2 A R2 s3 R3 :
  retiring p xs s1 R1 s2 A R2 → retiring p ys s2 R2 s3 A R3 → retiring p (xs ++ ys) s1 R1 s3 A R3.
Proof.
  intros [] [I2 Rg2 O2 P2 K2]. split; [done|..].
  - by rewrite Rg2, rt_ring0, <- app_assoc.
  - intros q Hq. by rewrite O2, rt_others0.
  - intros y Hy. rewrite P2, rt_pages0 by set_solver. done.
  - by rewrite rt_kept0.
Qed.

Lemma retiring_one s A R p r x pg d i :
  ucm_inv s A R None → u_procs s !! p = Some r → x ∈ A (bin d p i) →
  u_pages s !! x = Some pg → pg_in_free_ring pg = false →
  wp (mm_remove_page p x) (λ _ s', retiring p [x] s R s' A (push_free R p x)) s.
Proof.
  intros HI Hr Hx Hpg Hnf. eapply (wp_mm_remove_page_raw s A R None HI p r Hr x pg d i); [done..|].
  split.
  - apply (inv_retired s A R None HI p r Hr x pg d i); auto.
  - apply pop_ring_eq.
  - intros q Hq. by apply pop_ring_ne.
  - intros y Hy. unfold retired. rec_simpl. rewrite lookup_insert_ne; [done|set_solver].
  - eapply (kept_upd s _ p r (r <| pr_mm ::= unlink_mm x pg |>)); [done..| |].
    + unfold proc_keep. rec_simpl. unfold unlink_mm. by destruct (pg_in_dram pg).
    + eapply pages_kept_insert; [done|]. unfold unlinked_page. by destruct (pg_in_dram pg).
Qed.

(** The successor of the last element of a prefix. *)
Lemma next_after (xs b a : list ptr) o :
  xs = b ++ a →
  match last b with
  | None => o = head xs
  | Some x => ∀ b a, xs = b ++ x :: a → o = head a
  end → o = head a.
Proof.
  intros ->. destruct (last b) as [x|] eqn:Hl.
  - apply last_Some in Hl as [b' ->]. intros Ho. apply (Ho b'). by rewrite <- app_assoc.
  - by apply last_None in Hl as ->.
Qed.

Section free_list.
Context (s : ucm) (A : list_id → list ptr) (R : ptr → ring_sel → list ptr) (p : ptr) (d : bool) (i : Z).
Context (HI : ucm_inv s A R None) (r : hemem_process) (Hr : u_procs s !! p = Some r).
Context (Hi : 0 ≤ i < NUM_HOTNESS_LEVELS).

Lemma retiring_nil : retiring p [] s R s A R.
Proof using HI. split; [done|by rewrite app_nil_r|done..]. Qed.

(** The page after [b]. *)
Lemma wp_free_next b a s' R' (Q : option ptr → ucm → Prop) :
  A (bin d p i) = b ++ a → retiring p b s R s' A R' → Q (head a) s' →
  wp (zoom u_plist (next_page (bin d p i) (last b))) Q s'.
Proof using Hr Hi.
  intros HA Hrt HQ. destruct (kept_proc _ _ _ _ (rt_kept _ _ _ _ _ _ _ Hrt) Hr) as (r'&Hr'&_).
  pose proof (rt_inv _ _ _ _ _ _ _ Hrt) as HI'.
  eapply (wp_zoom_next A); [apply HI'|eapply inv_bin_header; [done|eauto|lia]
    |intros y Hy; rewrite HA; apply elem_of_app; left; by apply last_Some_elem_of|].
  intros o Ho. by apply (next_after _ _ _ _ HA) in Ho as ->.
Qed.

(** The pages [m] that are not in the free ring are removed; then the loop is at [a]. *)
Lemma wpx_free_mem_prefix E (Q : Z → ucm → Prop) a m : ∀ b s' R' cnt n,
  A (bin d p i) = b ++ m ++ a →
  (∀ x pg, x ∈ m → u_pages s !! x = Some pg → pg_in_free_ring pg = false) →
  retiring p b s R s' A R' → (length (m ++ a) < n)%nat →
  (∀ s' R' cnt n, retiring p (b ++ m) s R s' A R' → (length a < n)%nat →
     wpx E (loop n (free_mem_body p (bin d p i)) (last (b ++ m), cnt)) Q s') →
  wpx E (loop n (free_mem_body p (bin d p i)) (last b, cnt)) Q s'.
Proof using HI Hr Hi.
  induction m as [|x m IH]; intros b s' R' cnt n HA Hnf Hrt Hn Hrest.
  { rewrite app_nil_r in Hrest. by eapply Hrest. }
  destruct n as [|n]; [simpl in Hn; lia|]. cbn [loop]. apply wpx_bind. unfold free_mem_body at 1. cbn [fst snd].
  wpx_next. eapply wp_free_next; [done..|]. cbn [head app].
  destruct (kept_proc _ _ _ _ (rt_kept _ _ _ _ _ _ _ Hrt) Hr) as (r'&Hr'&_).
  pose proof (rt_inv _ _ _ _ _ _ _ Hrt) as HI'. pose proof (dll_nodup (I_dll HI) (bin d p i)) as Hnd.
  assert (x ∈ A (bin d p i)) as Hx by (rewrite HA; set_solver).
  destruct (I_used HI Hx) as (pg&_&Hpg&_&_).
  assert (x ∉ b) as Hxb by (rewrite HA in Hnd; apply NoDup_app in Hnd; set_solver).
  wpx_next. eapply wp_mono.
  { eapply (retiring_one s' A R' p r' x pg d i); [done..| |apply (Hnf x); [set_solver|done]].
    by rewrite (rt_pages _ _ _ _ _ _ _ Hrt). }
  intros [] s2 Hrt2. apply wpx_ret. rewrite <- last_snoc with (l := b).
  eapply (IH (b ++ [x])); [by rewrite <- app_assoc|set_solver|by eapply retiring_app|simpl in Hn; lia|].
  intros s3 R3 cnt' n' Hrt3 Hn'. rewrite <- app_assoc in Hrt3 |- *. by eapply Hrest.
Qed.

Lemma free_fuel : (length (A (bin d p i)) < S (size (u_pages s)))%nat.
Proof using HI.
  rewrite <- (size_dom (u_pages s)), <- (I_dom HI), size_dom.
  apply Nat.lt_succ_r, (dll_length_size _ _ (bin d p i) (I_dll HI)).
Qed.

Lemma wp_free_mem_list :
  (∀ x pg, x ∈ A (bin d p i) → u_pages s !! x = Some pg → pg_in_free_ring pg = false) →
  wp (free_mem_list p (bin d p i)) (λ _ s', ∃ R', retiring p (A (bin d p i)) s R s' A R') s.
Proof using HI Hr Hi.
  intros Hnf. unfold free_mem_list. do 2 wp_step.
  eapply (wpx_none (λ _, False)); [|by intros e []].
  eapply (wpx_free_mem_prefix _ _ [] (A (bin d p i)) [] s R 0); [by rewrite app_nil_r|done|apply retiring_nil|..].
  { rewrite app_nil_r. apply free_fuel. }
  intros s' R' cnt [|n] Hrt Hn; [simpl in Hn; lia|]. apply wpx_loop_end. unfold free_mem_body. cbn [fst snd].
  wpx_next. eapply (wp_free_next _ []); [by rewrite app_nil_r|done|]. apply wpx_ret. eauto.
Qed.

(** A page that waits in the free ring is not in the page table any more. *)
Lemma free_mem_list_waiting b x a pg y pgy dy j :
  A (bin d p i) = b ++ x :: a →
  (∀ z pgz, z ∈ b → u_pages s !! z = Some pgz → pg_in_free_ring pgz = false) →
  u_pages s !! x = Some pg → pg_in_free_ring pg = true →
  y ∈ A (bin dy p j) → y ∉ b → u_pages s !! y = Some pgy → pg_in_free_ring pgy = false →
  free_mem_list p (bin d p i) s = Err (Undefined "HASH_DELETE of an object that is not in the table").
Proof using HI Hr Hi.
  intros HA Hnf Hpg Hw Hy Hyb Hpgy Hny. apply wpx_must. unfold free_mem_list. wpx_next. wp_step.
  pose proof free_fuel as Hfuel. rewrite HA in Hfuel.
  eapply (wpx_free_mem_prefix _ _ (x :: a) b [] s R 0); [done..|apply retiring_nil|done|].
  intros s' R' cnt [|n] Hrt Hn; [simpl in Hn; lia|]. cbn [app] in Hrt |- *.
  apply wpx_loop_end. unfold free_mem_body. cbn [fst snd].
  wpx_next. eapply wp_free_next; [done..|]. cbn [head].
  destruct (kept_proc _ _ _ _ (rt_kept _ _ _ _ _ _ _ Hrt) Hr) as (r'&Hr'&_).
  pose proof (rt_inv _ _ _ _ _ _ _ Hrt) as HI'. pose proof (dll_nodup (I_dll HI) (bin d p i)) as Hnd.
  assert (x ∉ b) as Hxb by (rewrite HA in Hnd; apply NoDup_app in Hnd; set_solver).
  rewrite <- (rt_pages _ _ _ _ _ _ _ Hrt) in Hpg, Hpgy by done.
  destruct (I_used HI' Hy) as (pgy'&r1&Hy1&Hr1&Huy). simplify_eq.
  pose proof (up_hh _ _ _ _ _ _ _ Huy) as Hhy. rewrite Hny in Hhy. apply (up_pages _ _ _ _ _ _ _ Huy) in Hhy.
  assert (x ∈ A (bin d p i)) as Hx by (rewrite HA; set_solver).
  destruct (I_used HI' Hx) as (pgx&r1&Hx1&Hr1'&Hux). simplify_eq.
  pose proof (up_hh _ _ _ _ _ _ _ Hux) as Hhx. rewrite Hw in Hhx.
  assert (mm_pages (pr_mm r') ≠ ∅) as Hne by (intros He; by rewrite He in Hhy).
  apply wpx_bind. unfold mm_remove_page. wpx_next. eapply wp_proc; [done|].
  apply wpx_bind, wpx_when; [intros _|by rewrite bool_decide_true].
  unfold delete_from_pages. wpx_next. eapply wp_page; [done|]. wpx_next. eapply wp_proc; [done|].
  apply wpx_bind. rewrite Hhx. by apply wpx_fail.
Qed.
End free_list.

(** The lists of a process, in the order in which [process_mem_destroy] goes
    through them. *)
Definition removal_lists (p : ptr) : list list_id :=
  (FastBin p <$> seqZ 0 NUM_HOTNESS_LEVELS) ++ (SlowBin p <$> seqZ 0 NUM_HOTNESS_LEVELS).
Definition free_one_list (p : ptr) (l : list_id) : M ucm unit := _ ← free_mem_list p l; mret tt.

Lemma destroy_lists p s :
  process_mem_destroy p s = (for_list (removal_lists p) (free_one_list p);; mm_drain_async_requests p) s.
Proof.
  assert (∀ (m : M ucm unit) (k : M ucm unit) s, (m;; k) s = match m s with Ok _ s' => k s' | Err e => Err e end) as Hb
    by done.
  unfold process_mem_destroy, removal_lists. rewrite !Hb, for_list_app, Hb, for_list_fmap.
  unfold free_one_list.
  destruct (for_list _ _ s) as [[] s'|]; [|done]. by rewrite Hb, for_list_fmap.
Qed.

Lemma elem_of_removal_lists p l :
  l ∈ removal_lists p ↔ ∃ d i, l = bin d p i ∧ 0 ≤ i < NUM_HOTNESS_LEVELS.
Proof.
  unfold removal_lists. rewrite elem_of_app, !list_elem_of_fmap. setoid_rewrite elem_of_seqZ. split.
  - intros [(i&->&?)|(i&->&?)]; [exists true, i|exists false, i]; auto with lia.
  - intros ([]&i&->&?); [left|right]; exists i; auto with lia.
Qed.

Lemma removal_lists_nodup p : NoDup (removal_lists p).
Proof.
  apply NoDup_app. split_and!; [apply NoDup_fmap_2, NoDup_seqZ; by intros ?? [=]| |apply NoDup_fmap_2, NoDup_seqZ; by intros ?? [=]].
  intros l (i&->&_)%list_elem_of_fmap (j&?&_)%list_elem_of_fmap. done.
Qed.

Lemma elem_of_removal A p x : x ∈ removal_lists p ≫= A ↔ in_bins A p x.
Proof.
  rewrite list_elem_of_bind. setoid_rewrite elem_of_removal_lists. unfold in_bins, in_tier. naive_solver.
Qed.

Lemma wp_free_lists A p ls : ∀ s R,
  ucm_inv s A R None → is_Some (u_procs s !! p) → NoDup ls → (∀ l, l ∈ ls → l ∈ removal_lists p) →
  (∀ l x pg, l ∈ ls → x ∈ A l → u_pages s !! x = Some pg → pg_in_free_ring pg = false) →
  wp (for_list ls (free_one_list p)) (λ _ s', ∃ R', retiring p (ls ≫= A) s R s' A R') s.
Proof.
  induction ls as [|l ls IH]; intros s R HI [r Hr] Hnd Hls Hnf; cbn [for_list].
  { wp_step. exists R. by apply retiring_nil. }
  apply NoDup_cons in Hnd as [Hll Hnd].
  destruct (proj1 (elem_of_removal_lists p l)) as (d&i&->&Hi); [apply Hls; set_solver|].
  wp_step. unfold free_one_list at 1. wp_step.
  eapply wp_mono; [eapply (wp_free_mem_list s A R p d i HI r Hr Hi); set_solver|].
  intros _ s1 [R1 H1]. wp_step. destruct (kept_proc _ _ _ _ (rt_kept _ _ _ _ _ _ _ H1) Hr) as (r1&Hr1&_).
  eapply wp_mono.
  { apply (IH s1 R1); [apply H1|eauto|done|set_solver|].
    intros l x pg Hl Hx. rewrite (rt_pages _ _ _ _ _ _ _ H1); [apply (Hnf l); set_solver|].
    intros Hx'. apply Hll. by rewrite (dll_disjoint _ _ _ _ _ (I_dll HI) Hx' Hx). }
  intros [] s2 [R2 H2]. exists R2. by eapply retiring_app.
Qed.

(** The page waits in the free ring. *)
Definition pendingb (s : ucm) (x : ptr) : bool :=
  match u_pages s !! x with Some pg => pg_in_free_ring pg | None => false end.

Lemma removal_nodup h A p : dll_ok h A → NoDup (removal_lists p ≫= A).
Proof.
  intros Hdll. apply NoDup_bind.
  - intros l l' x _ _ Hx Hx'. by eapply dll_disjoint.
  - intros l _. by apply (dll_nodup Hdll).
  - apply removal_lists_nodup.
Qed.

(** A page that waits in the free ring, and that comes before one that does
    not, is deleted from the page table a second time. *)
Lemma free_lists_waiting s A R p r b x a y :
  ucm_inv s A R None → u_procs s !! p = Some r → removal_lists p ≫= A = b ++ x :: a →
  pendingb s x = true → y ∈ a → pendingb s y = false →
  for_list (removal_lists p) (free_one_list p) s =
    Err (Undefined "HASH_DELETE of an object that is not in the table").
Proof.
  intros HI Hr Hord Hx Hy Hny. pose proof (removal_nodup _ _ p (I_dll HI)) as Hnd.
  destruct (first_such (λ z, pendingb s z = true) b x a Hx) as (b1&x1&a1&Heq&Hx1&Hb1&Ha1).
  rewrite Hord, Heq in Hnd. rewrite Heq in Hord. apply Ha1 in Hy. clear b x a Hx Heq Ha1.
  apply NoDup_app in Hnd as (_&Hdis&[Hxa _]%NoDup_cons).
  apply bind_split in Hord as (ls1&l&ls2&b&a&Hls&Hl&->&->).
  assert (∀ l', l' ∈ ls1 ++ l :: ls2 → l' ∈ removal_lists p) as Hin by (by rewrite Hls).
  destruct (proj1 (elem_of_removal_lists p l)) as (d&i&->&Hi); [apply Hin; set_solver|].
  destruct (proj1 (elem_of_removal A p y)) as (dy&j&_&Hyj).
  { rewrite Hls, bind_app, bind_cons, Hl. set_solver. }
  rewrite Hls. apply wpx_must. eapply wpx_ext; [apply for_list_app|].
  wpx_next. pose proof (removal_lists_nodup p) as Hnd. rewrite Hls in Hnd. apply NoDup_app in Hnd as (Hnd&_&_).
  eapply wp_mono; [eapply (wp_free_lists A p ls1 s R HI); [eauto|done|set_solver|]|].
  { intros l' z pg Hl' Hz Hpg. specialize (Hb1 z). unfold pendingb in Hb1. rewrite Hpg in Hb1.
    apply not_true_is_false, Hb1, elem_of_app. left. apply list_elem_of_bind. eauto. }
  intros [] s1 [R1 Hrt]. destruct (kept_proc _ _ _ _ (rt_kept _ _ _ _ _ _ _ Hrt) Hr) as (r1&Hr1&_).
  cbn [for_list]. apply wpx_bind. unfold free_one_list at 1. apply wpx_bind. unfold wpx.
  assert (∀ z, z ∈ b ++ x1 :: a ++ (ls2 ≫= A) → u_pages s1 !! z = u_pages s !! z) as Hsame.
  { intros z Hz. apply (rt_pages _ _ _ _ _ _ _ Hrt). intros Hz1.
    apply elem_of_app in Hz as [Hz|Hz]; [|apply (Hdis z); set_solver].
    apply list_elem_of_bind in Hz1 as (l'&Hz1&Hl').
    rewrite Hls in Hin. pose proof (removal_lists_nodup p) as Hnd'. rewrite Hls in Hnd'.
    apply NoDup_app in Hnd' as (_&Hne&_). apply (Hne l' Hl'). apply elem_of_cons. left.
    eapply (dll_disjoint _ _ _ _ z (I_dll HI)); [done|]. rewrite Hl. set_solver. }
  unfold pendingb in *.
  destruct (u_pages s !! x1) as [pg|] eqn:Hpg; [|done].
  destruct (I_used (rt_inv _ _ _ _ _ _ _ Hrt) Hyj) as (pgy&_&Hpgy&_&_).
  assert (y ∈ b ++ x1 :: a ++ (ls2 ≫= A)) as Hyin by set_solver.
  rewrite (free_mem_list_waiting s1 A R1 p d i (rt_inv _ _ _ _ _ _ _ Hrt) r1 Hr1 Hi b x1 a pg y pgy dy j); [done|..].
  - done.
  - intros z pgz Hz. rewrite Hsame by set_solver. intros Hpgz. specialize (Hb1 z). rewrite Hpgz in Hb1.
    apply not_true_is_false, Hb1. set_solver.
  - rewrite Hsame by set_solver. done.
  - done.
  - done.
  - intros Hyb. apply (Hdis y); set_solver.
  - done.
  - rewrite Hsame in Hpgy by done. by rewrite Hpgy in Hny.
Qed.

(** [process_mem_destroy]: the process has no page left. *)
Lemma wp_process_mem_destroy s A R p :
  ucm_inv s A R None → is_Some (u_procs s !! p) → R p FreeRing = [] →
  wp (process_mem_destroy p) (λ _ s', ∃ A' R', ucm_inv s' A' R' None ∧ kept s s' ∧
    (∀ sel, R' p sel = []) ∧ (∀ q, q ≠ p → R' q = R q) ∧
    (∀ d q x, in_tier A' d q x ↔ in_tier A d q x ∧ q ≠ p) ∧
    (∀ d x, x ∈ A' (free_list d) ↔ x ∈ A (free_list d) ∨ in_tier A d p x)) s.
Proof.
  intros HI [r Hr] HR. eapply (wpx_ext (λ _, False)); [apply destroy_lists|].
  apply wp_bind. eapply wp_mono; [eapply (wp_free_lists A p _ s R HI); [eauto|apply removal_lists_nodup|done|]|].
  { intros l x pg (d&i&->&Hi)%elem_of_removal_lists Hx Hpg. destruct (pg_in_free_ring pg) eqn:Hf; [|done]. exfalso.
    apply (not_elem_of_nil x). rewrite <- HR. apply (pi_free_ring _ _ _ _ _ _ (I_proc HI Hr)).
    split; [by exists d, i|eauto]. }
  intros [] s2 [R2 [HI2 Hring Ho Hpages Hk]]. rewrite HR in Hring. cbn [app] in Hring.
  destruct (kept_proc _ _ _ _ Hk Hr) as (r2&Hr2&_).
  eapply wp_mono; [by eapply (wp_mm_drain s2 A R2 p)|].
  intros [] s3 (A3&R3&HI3&Hk3&He3&Ho3&Hrel1&Hrel2). exists A3, R3. rewrite Hring in Hrel1, Hrel2.
  setoid_rewrite elem_of_removal in Hrel1. setoid_rewrite elem_of_removal in Hrel2.
  split_and!; [done|by rewrite Hk|done|intros q Hq; by rewrite Ho3, Ho|..].
  - intros d q x. rewrite Hrel1. split; intros [Hq Hn]; (split; [done|]).
    + intros ->. apply Hn. by exists d.
    + intros Hb. apply Hn. eapply (in_bins_unique _ _ (I_dll HI)); [by exists d|done].
  - intros d x. rewrite Hrel2. split; [naive_solver|]. intros [?|Hx]; [auto|].
    right. split; [by exists d|done].
Qed.

(** *** The storage is given back *)
Section dealloc.
Context (s : ucm) (A : list_id → list ptr) (R : ptr → ring_sel → list ptr).
Context (HI : ucm_inv s A R None) (p : ptr) (Hno : ∀ d x, ¬ in_tier A d p x).

Lemma empty_bins d i : A (bin d p i) = [].
Proof using HI Hno.
  apply elem_of_nil_inv. intros x Hx. destruct (I_used HI Hx) as (pg&r&_&_&Hu).
  apply (Hno d x). exists i. split; [apply Hu|done].
Qed.

Lemma inv_dealloc : ucm_inv (dealloc_process p s) A R None.
Proof using HI Hno.
  assert (∀ l, l ∈ process_lists p → A l = []) as HA.
  { intros l (d&i&->&_)%elem_of_process_lists. apply empty_bins. }
  unfold dealloc_process. split; rec_simpl; try apply HI.
  - apply (dll_headers (u_plist s)); [apply HI|..].
    + intros l q. rewrite lookup_del_lists. case_decide; [done|by left].
    + intros l. rewrite lookup_del_lists. case_decide; [auto|]. apply (I_dll HI).
  - intros l. rewrite headers_upd, lookup_del_lists. case_decide as Hl.
    + apply elem_of_process_lists in Hl as (d&i&->&Hi). split; [by intros []|].
      destruct d; simpl; rewrite dom_delete_L; set_solver.
    + rewrite (I_header HI). destruct l as [| |q i|q i]; simpl; [done..| |];
        rewrite dom_delete_L; (split; [|set_solver]); intros [Hq Hi]; (split; [|done]);
        apply elem_of_difference; (split; [done|]); intros ->%elem_of_singleton;
        apply Hl, elem_of_process_lists; [exists true, i|exists false, i]; done.
  - intros d q i x Hx. destruct (I_used HI Hx) as (pg&r'&Hpg&Hr'&?). exists pg, r'.
    rewrite lookup_delete_ne; [done|]. intros <-. rewrite empty_bins in Hx. by apply not_elem_of_nil in Hx.
  - intros q r' [_ Hr']%lookup_delete_Some. by apply (I_proc HI).
  - intros q q' r1 r2 [_ H1]%lookup_delete_Some [_ H2]%lookup_delete_Some. by apply (I_pids HI).
Qed.
End dealloc.

Lemma mgr_dealloc s L K p : mgr_inv s L K → p ∉ L → mgr_inv (dealloc_process p s) L K.
Proof.
  intros [] Hp. unfold dealloc_process. split; rec_simpl; try done.
  - apply (dll_dealloc (plists (u_pq s))); [done|]. by intros [].
  - transitivity (dom (delete p (links (plists (u_pq s))))); [done|]. by rewrite !dom_delete_L, M_dom0.
  - intros k q. rewrite M_map0. split; intros (HqL&r'&Hr'&<-); (split; [done|]); exists r'.
    + rewrite lookup_delete_ne; [done|]. intros <-. done.
    + by apply lookup_delete_Some in Hr' as [_ ?].
  - intros q r' [_ Hr']%lookup_delete_Some. by apply M_phh0.
Qed.

(** What is left after [ucm_remove_process p]. *)
Record process_gone (s : ucm) (A : list_id → list ptr) (p : ptr) (L' : list ptr) (K : gset (unit + ptr))
    (s' : ucm) (A' : list_id → list ptr) : Prop := ProcessGone {
  gone_mgr : mgr_inv s' L' K;
  gone_proc : u_procs s' !! p = None;
  gone_others q : q ≠ p → proc_keep <$> u_procs s' !! q = proc_keep <$> u_procs s !! q;
  gone_used d q x : in_tier A' d q x ↔ in_tier A d q x ∧ q ≠ p;
  gone_free d x : x ∈ A' (free_list d) ↔ x ∈ A (free_list d) ∨ in_tier A d p x;
  gone_world : world s' = world s;
  gone_pages : pages_kept (u_pages s) (u_pages s');
}.

Lemma kept_world s s' : kept s s' → world s' = world s.
Proof. intros [Hr _]. unfold rest in Hr. unfold world. congruence. Qed.

Lemma wp_ucm_remove_process s A R L K p b a :
  ucm_inv s A R None → mgr_inv s L K → L = b ++ p :: a → R p FreeRing = [] →
  inl tt ∉ K → (∀ q, q ∈ L → inr q ∉ K) →
  wp (ucm_remove_process p) (λ _ s', ∃ A' R', ucm_inv s' A' R' None ∧
    process_gone s A p (b ++ a) K s' A' ∧ (∀ q, q ≠ p → R' q = R q)) s.
Proof.
  intros HI HM HL HR HtK HK. destruct (mgr_proc s L K p HM) as [r Hr]; [set_solver|].
  assert (p ∉ b ++ a) as Hpba.
  { pose proof (dll_nodup (M_dll HM) tt) as Hnd. simpl in Hnd. rewrite HL in Hnd.
    apply NoDup_app in Hnd as (?&?&[? ?]%NoDup_cons). set_solver. }
  unfold ucm_remove_process, hemem_process_destroy. wp_step.
  eapply wp_mono; [by eapply (wp_remove_process s A R L K p r b a)|].
  intros [] s1 (HI1&HM1&Hp1&Hpg1&Hw1). wp_step.
  eapply wp_mono; [eapply (wp_process_mem_destroy s1 A R p); [done| |done]; rewrite Hp1, lookup_insert_eq; eauto|].
  intros [] s2 (A2&R2&HI2&Hk2&HR2&Ho2&Hu2&Hf2). wp_step. exists A2, R2. split_and!; [|split|done].
  - apply inv_dealloc; [done|]. intros d x [_ ?]%Hu2. done.
  - apply mgr_dealloc; [|done]. by eapply mgr_kept.
  - unfold dealloc_process. rec_simpl. apply lookup_delete_eq.
  - intros q Hq. unfold dealloc_process. rec_simpl. rewrite lookup_delete_ne by done.
    destruct Hk2 as (_&->&_). by rewrite Hp1, lookup_insert_ne.
  - done.
  - done.
  - rewrite <- Hw1, <- (kept_world _ _ Hk2). done.
  - rewrite <- Hpg1. apply Hk2.
Qed.

Lemma ucm_remove_process_waiting s A R L K p pb pa b x a y :
  ucm_inv s A R None → mgr_inv s L K → L = pb ++ p :: pa → inl tt ∉ K → (∀ q, q ∈ L → inr q ∉ K) →
  removal_lists p ≫= A = b ++ x :: a → pendingb s x = true → y ∈ a → pendingb s y = false →
  ucm_remove_process p s = Err (Undefined "HASH_DELETE of an object that is not in the table").
Proof.
  intros HI HM HL HtK HK Hord Hx Hy Hny. destruct (mgr_proc s L K p HM) as [r Hr]; [set_solver|].
  apply wpx_must. unfold ucm_remove_process, hemem_process_destroy. wpx_next.
  eapply wp_mono; [by eapply (wp_remove_process s A R L K p r pb pa)|].
  intros [] s1 (HI1&HM1&Hp1&Hpg1&Hw1). apply wpx_bind. unfold wpx. rewrite destroy_lists. unfold mbind, M_bind.
  rewrite (free_lists_waiting s1 A R p (unlisted r) b x a y); [done|done| |done|..|done|];
    [by rewrite Hp1, lookup_insert_eq|unfold pendingb; by rewrite Hpg1..].
Qed.

(** ** Pruning *)

(** The successor of a process. *)
Lemma wp_proc_node s L K p b a (Q : _ → ucm → Prop) :
  mgr_inv s L K → L = b ++ p :: a → (∀ n, next n = head a → Q n s) → wp (zoom u_pq (node p)) Q s.
Proof.
  intros HM HL HQ. wp_step. unfold node. wp_step.
  eapply wp_deref; [by apply (dll_node (M_dll HM) (l := tt) (b := b) (a := a))|].
  replace (s <| u_pq := _ |>) with s by (by destruct s as [? ? ? []]). by apply HQ.
Qed.

(** The processes [D] are gone, the others are as they were. *)
Record pruned (s : ucm) (A : list_id → list ptr) (D : list ptr) (s' : ucm)
    (A' : list_id → list ptr) : Prop := Pruned {
  pn_used d q x : in_tier A' d q x ↔ in_tier A d q x ∧ q ∉ D;
  pn_free d x : x ∈ A' (free_list d) ↔ x ∈ A (free_list d) ∨ ∃ p, p ∈ D ∧ in_tier A d p x;
  pn_others q : q ∉ D → proc_keep <$> u_procs s' !! q = proc_keep <$> u_procs s !! q;
  pn_gone q : q ∈ D → u_procs s' !! q = None;
  pn_world : world s' = world s;
  pn_pages : pages_kept (u_pages s) (u_pages s');
}.

Lemma pruned_snoc s A D p s1 A1 L K s2 A2 :
  pruned s A D s1 A1 → process_gone s1 A1 p L K s2 A2 → p ∉ D → pruned s A (D ++ [p]) s2 A2.
Proof.
  intros [] [_ G1 G2 G3 G4 G5 G6] Hp. split.
  - intros d q x. rewrite G3, pn_used0. set_solver.
  - intros d x. rewrite G4, pn_free0, pn_used0. set_solver.
  - intros q Hq. rewrite G2, pn_others0 by set_solver. done.
  - intros q [Hq| ->%list_elem_of_singleton]%elem_of_app; [|done].
    assert (q ≠ p) as Hqp by (intros ->; done). specialize (G2 q Hqp). rewrite pn_gone0 in G2 by done.
    by destruct (u_procs s2 !! q).
  - congruence.
  - intros x. by rewrite G6.
Qed.

Section prune.
Context (is_process_alive : Z → bool) (s : ucm) (A : list_id → list ptr) (R : ptr → ring_sel → list ptr).
Context (L : list ptr) (HI : ucm_inv s A R None) (HM : mgr_inv s L ∅).

Definition dead (p : ptr) : bool :=
  match u_procs s !! p with Some r => negb (is_process_alive (pr_pid r)) | None => false end.

Definition dead_list (xs : list ptr) : list ptr := filter (λ p, dead p = true) xs.
Definition live_list (xs : list ptr) : list ptr := filter (λ p, dead p = false) xs.

Context (HR : ∀ p, p ∈ L → dead p = true → R p FreeRing = []).

(** The state once the processes before [a] have been looked at. *)
Definition prune_state (b a : list ptr) (s' : ucm) : Prop :=
  ∃ A' R', ucm_inv s' A' R' None ∧ mgr_inv s' (live_list b ++ a) ∅ ∧
    pruned s A (dead_list b) s' A' ∧ (∀ q, q ∉ dead_list b → R' q = R q).

Lemma wp_prune_loop a : ∀ b s' n,
  L = b ++ a → prune_state b a s' → (length a < n)%nat →
  wp (loop n (prune_body is_process_alive) (head a, Z.of_nat (length (dead_list b))))
    (λ cnt s', cnt = Z.of_nat (length (dead_list L)) ∧ prune_state L [] s') s'.
Proof using HI HM HR.
  induction a as [|p a IH]; intros b s' [|n] HL Hst Hn; [simpl in Hn; lia| |simpl in Hn; lia|];
    cbn [loop head]; wp_step; unfold prune_body at 1; cbn [fst snd].
  { do 2 wp_step. rewrite app_nil_r in HL. subst b. done. }
  pose proof (dll_nodup (M_dll HM) tt) as Hnd. simpl in Hnd. rewrite HL in Hnd.
  apply NoDup_app in Hnd as (_&Hba&[Hpa _]%NoDup_cons).
  assert (p ∉ b) as Hpb by (intros Hpb; apply (Hba p Hpb); set_solver).
  destruct Hst as (A'&R'&HI'&HM'&Hpr&Hrings).
  destruct (mgr_proc s' _ _ p HM') as [r' Hr']; [set_solver|].
  destruct (mgr_proc s L ∅ p HM) as [r Hr]; [set_solver|].
  assert (pr_pid r' = pr_pid r) as Hpid.
  { pose proof (pn_others _ _ _ _ _ Hpr p) as Hk. rewrite Hr, Hr' in Hk.
    unfold dead_list in Hk. rewrite list_elem_of_filter in Hk.
    assert (Some (proc_keep r') = Some (proc_keep r)) as Hk' by (apply Hk; naive_solver).
    unfold proc_keep in Hk'. congruence. }
  wp_step. eapply (wp_proc_node _ _ _ p (live_list b) a); [done..|]. intros nd Hnx. rewrite Hnx. clear nd Hnx.
  wp_step. eapply wp_proc; [done|]. rewrite Hpid.
  unfold live_list, dead_list in *.
  assert (dead p = negb (is_process_alive (pr_pid r))) as Hdead by (unfold dead; by rewrite Hr).
  destruct (is_process_alive (pr_pid r)).
  - wp_step. specialize (IH (b ++ [p]) s' n). rewrite filter_app, filter_cons_False in IH
      by (rewrite Hdead; done). rewrite filter_nil, app_nil_r in IH.
    apply IH; [by rewrite <- app_assoc| |simpl in Hn; lia].
    exists A', R'. unfold live_list, dead_list.
    rewrite !filter_app, filter_cons_True, filter_cons_False by (by rewrite Hdead).
    rewrite !filter_nil, app_nil_r, <- app_assoc. by split_and!.
  - wp_step. eapply wp_mono.
    { eapply (wp_ucm_remove_process s' A' R' _ ∅ p _ a); [done|exact HM'|done| |set_solver..].
      rewrite Hrings by (rewrite list_elem_of_filter; naive_solver). apply HR; [set_solver|done]. }
    intros [] s2 (A2&R2&HI2&Hg2&HR2). wp_step.
    specialize (IH (b ++ [p]) s2 n). rewrite filter_app, filter_cons_True in IH by (rewrite Hdead; done).
    rewrite filter_nil, length_app in IH. simpl in IH.
    rewrite Nat2Z.inj_add in IH. 
    rewrite u64_small; [apply IH; [by rewrite <- app_assoc| |simpl in Hn; lia]|].
    + exists A2, R2. unfold live_list, dead_list.
      rewrite !filter_app, filter_cons_False, filter_cons_True by (by rewrite Hdead).
      rewrite !filter_nil, app_nil_r. split_and!; [done|apply Hg2| |].
      * eapply pruned_snoc; [done..|]. rewrite list_elem_of_filter. naive_solver.
      * intros q [Hq Hqp]%not_elem_of_app. rewrite not_elem_of_cons in Hqp.
        rewrite HR2, Hrings by (done || apply Hqp). done.
    + pose proof (dll_length _ _ tt (M_dll HM)) as Hlen. simpl in Hlen. rewrite HL, length_app in Hlen.
      simpl in Hlen. pose proof (length_filter (λ p, dead p = true) b). lia.
Qed.
Lemma wp_proc_mgr_prune :
  wp (proc_mgr_prune is_process_alive)
    (λ cnt s', cnt = Z.of_nat (length (dead_list L)) ∧ prune_state L [] s') s.
Proof using HI HM HR.
  unfold proc_mgr_prune. do 4 wp_step. unfold header. wp_step.
  destruct (M_header HM) as [q Hq]. eapply wp_deref; [done|].
  replace (s <| u_pq := _ |>) with s by (by destruct s as [? ? ? []]).
  rewrite (dll_header (M_dll HM) Hq). cbn [first].
  apply (wp_prune_loop L [] s); [done| |].
  - exists A, R. split_and!; [done..| |done]. split; try done.
    + intros d q' x. unfold dead_list. rewrite filter_nil. set_solver.
    + intros d x. unfold dead_list. rewrite filter_nil. set_solver.
    + intros q' Hq'. by apply not_elem_of_nil in Hq'.
  - apply Nat.lt_succ_r, (dll_length_size _ _ tt (M_dll HM)).
Qed.
End prune.

(** The first process that is found dead cannot be removed. *)
Lemma prune_fails alive s L p b a e :
  mgr_inv s L ∅ → L = b ++ p :: a →
  (∀ q r, q ∈ b → u_procs s !! q = Some r → alive (pr_pid r) = true) →
  (∀ r, u_procs s !! p = Some r → alive (pr_pid r) = false) →
  ucm_remove_process p s = Err e → proc_mgr_prune alive s = Err e.
Proof.
  intros HM HL Halive Hdead Herr.
  assert (∀ b2 b1 n cnt, b = b1 ++ b2 → (length b2 < n)%nat →
    wpx (eq e) (loop n (prune_body alive) (head (b2 ++ p :: a), cnt)) (λ _ _, False) s) as Hloop.
  { induction b2 as [|q b2 IH]; intros b1 [|n] cnt Hb Hn; [simpl in Hn; lia| |simpl in Hn; lia|];
      cbn [loop head app]; apply wpx_bind; unfold prune_body at 1; cbn [fst snd].
    - rewrite app_nil_r in Hb. subst b1. destruct (mgr_proc s L ∅ p HM) as [r Hr]; [set_solver|].
      wpx_next. eapply (wp_proc_node _ L _ p b a); [done..|]. intros nd _. wpx_next. eapply wp_proc; [done|].
      rewrite (Hdead r Hr). apply wpx_bind. unfold wpx. by rewrite Herr.
    - destruct (mgr_proc s L ∅ q HM) as [r Hr]; [set_solver|].
      wpx_next. eapply (wp_proc_node _ L _ q b1 (b2 ++ p :: a)); [done|by rewrite HL, Hb, <- app_assoc|]. intros nd ->. wpx_next. eapply wp_proc; [done|].
      rewrite (Halive q r) by (done || set_solver). apply wpx_ret.
      apply (IH (b1 ++ [q])); [by rewrite Hb, <- app_assoc|simpl in Hn; lia]. }
  apply wpx_must. unfold proc_mgr_prune. wpx_next. wp_step. wpx_next. wp_step. unfold header. wp_step.
  destruct (M_header HM) as [q Hq]. eapply wp_deref; [done|].
  replace (s <| u_pq := _ |>) with s by (by destruct s as [? ? ? []]).
  rewrite (dll_header (M_dll HM) Hq). cbn [first]. rewrite HL. apply (Hloop b []); [done|].
  pose proof (dll_length_size _ _ tt (M_dll HM)) as Hsz. simpl in Hsz. rewrite HL, length_app in Hsz. simpl in Hsz. lia.
Qed.
