(* ===== verification/TelemOk.v ===== *)
(** * Telemetry keeps the invariant

    A sample or a counter update only changes access information: it moves no
    page, and the page tables, the free rings and the byte counts stay.  What
    it changes is stated per operation: the counts of the page, the skewness
    counters, the miss accounting of the process, the statistics. *)

From S2P Require Import Prelude Fifo Ring F64 ProcList Types Hotness Mm MmAsync Ucm Process Telem Inv UcmWp AsyncOk TableOk AllocOk RequestOk ProcessOk.

(** ** States that differ in access information only *)
Definition page_place (pg : hemem_page) := (page_core pg, pg_hot pg).

Record observed (s : ucm) (A : list_id → list ptr) (R : ptr → ring_sel → list ptr) (s' : ucm) : Prop :=
  Observed {
  ob_inv : ∃ R', ucm_inv s' A R' None ∧ ∀ q, R' q FreeRing = R q FreeRing;
  ob_pages x : page_place <$> u_pages s' !! x = page_place <$> u_pages s !! x;
  ob_procs q : proc_core <$> u_procs s' !! q = proc_core <$> u_procs s !! q;
  ob_lists : u_plist s' = u_plist s ∧ u_pq s' = u_pq s ∧ u_proc_map s' = u_proc_map s ∧
    u_pa_map s' = u_pa_map s;
  ob_world : world s' = world s;
}.

Lemma observed_refl s A R : ucm_inv s A R None → observed s A R s.
Proof. intros HI. split; [by exists R|done..]. Qed.

Lemma observed_trans s1 A R1 R2 s2 s3 :
  observed s1 A R1 s2 → ucm_inv s2 A R2 None → (∀ q, R2 q FreeRing = R1 q FreeRing) →
  observed s2 A R2 s3 → observed s1 A R1 s3.
Proof.
  intros [_ P1 Q1 L1 W1] _ HR [(R3&HI3&HR3) P2 Q2 L2 W2]. split.
  - exists R3. split; [done|]. intros q. by rewrite HR3, HR.
  - intros x. by rewrite P2, P1.
  - intros q. by rewrite Q2, Q1.
  - naive_solver congruence.
  - congruence.
Qed.

Lemma observed_mgr s A R s' L K : observed s A R s' → mgr_inv s L K → mgr_inv s' L K.
Proof.
  intros [_ _ Hq (_&Hpq&Hmap&_) _] HM. eapply mgr_view; [done..|]. intros q. specialize (Hq q).
  destruct (u_procs s' !! q), (u_procs s !! q); simpl in *; try done.
  unfold proc_core in Hq. unfold pid_view. by simplify_eq; f_equal; congruence.
Qed.

(** [keeps A m]: from any state that satisfies the invariant with the lists
    [A], [m] ends in a state that differs in access information only. *)
Definition keeps (A : list_id → list ptr) (s : ucm) {T} (m : M ucm T) (Q : T → ucm → Prop) : Prop :=
  ∀ R, ucm_inv s A R None → wp m (λ a s', observed s A R s' ∧ Q a s') s.

Section steps.
Context (s : ucm) (A : list_id → list ptr) (R : ptr → ring_sel → list ptr) (HI : ucm_inv s A R None).

(** A change of a page of a process. *)
Lemma observed_page p x d i pg f :
  x ∈ A (bin d p i) → u_pages s !! x = Some pg →
  page_place (f pg) = page_place pg → pg_ring_present (f pg) = pg_ring_present pg →
  observed s A R (s <| u_pages := <[x := f pg]> (u_pages s) |>) ∧
  ucm_inv (s <| u_pages := <[x := f pg]> (u_pages s) |>) A R None.
Proof using HI.
  intros Hx Hpg Hplace Hrp. destruct (I_used HI Hx) as (pg0&r&Hpg0&Hr&Hu).
  rewrite Hpg in Hpg0. injection Hpg0 as <-. unfold page_place in Hplace.
  apply pair_eq in Hplace as [Hcore Hhot].
  assert (ucm_inv (s <| u_pages := <[x := f pg]> (u_pages s) |>) A R None) as HI'.
  { eapply (inv_used s _ A A R None p r r x pg (f pg) d i i); try done; auto.
    - rec_simpl. by rewrite insert_id.
    - apply (I_proc HI Hr).
    - apply (I_proc HI Hr).
    - intros Hin. rewrite Hrp. destruct (pi_requests _ _ _ _ _ _ (I_proc HI Hr) x Hin) as [_ (?&?&?)].
      congruence.
    - rewrite Hhot. apply Hu.
    - apply Hu.
    - apply HI. }
  split; [|done]. split; rec_simpl; [by exists R| |done..].
  intros y. rewrite lookup_insert. case_decide as Hy; [|done]. subst y. rewrite Hpg. simpl.
  unfold page_place. congruence.
Qed.

(** A change of a process outside what the invariant sees. *)
Lemma observed_proc p r f :
  u_procs s !! p = Some r → proc_view (f r) = proc_view r →
  observed s A R (s <| u_procs := <[p := f r]> (u_procs s) |>) ∧
  ucm_inv (s <| u_procs := <[p := f r]> (u_procs s) |>) A R None.
Proof using HI.
  intros Hr Hv. assert (ucm_inv (s <| u_procs := <[p := f r]> (u_procs s) |>) A R None) as HI'.
  { eapply (inv_proc_view s _ A R None p r (f r)); try done. auto. }
  split; [|done]. split; rec_simpl; [by exists R|done| |done..].
  intros q. rewrite lookup_insert. case_decide as Hq; [|done]. subst q. rewrite Hr. simpl.
  f_equal. unfold proc_view in Hv. do 7 apply pair_eq in Hv as [Hv _]. exact Hv.
Qed.

(** A change of the counters. *)
Lemma observed_frame s' :
  u_pages s' = u_pages s → u_procs s' = u_procs s → u_plist s' = u_plist s →
  u_pq s' = u_pq s → u_proc_map s' = u_proc_map s → u_pa_map s' = u_pa_map s → world s' = world s →
  observed s A R s' ∧ ucm_inv s' A R None.
Proof using HI.
  intros E1 E2 E3 E4 E5 E6 E7. assert (ucm_inv s' A R None) as HI'.
  { unfold world in E7. eapply inv_frame; try done; congruence. }
  split; [|done]. split; [by exists R|by rewrite E1|by rewrite E2|done|done].
Qed.
End steps.

(** ** Requests to the policy thread *)
Section mark.
Context (s : ucm) (A : list_id → list ptr) (R : ptr → ring_sel → list ptr) (HI : ucm_inv s A R None).
Context (p x : ptr) (d : bool) (i : Z) (pg : hemem_page) (r : hemem_process).
Context (Hx : x ∈ A (bin d p i)) (Hpg : u_pages s !! x = Some pg) (Hr : u_procs s !! p = Some r).
Context (sel : ring_sel) (Hsel : sel ≠ FreeRing) (Hrp : pg_ring_present pg = false).

Definition marked_ring : ring_buf_t := ring_buf_put x (ring_of sel (pr_mm r)).

Lemma marked_fresh : x ∉ R p HotRing ++ R p ColdRing.
Proof using HI Hr Hpg Hrp.
  intros Hin. destruct (pi_requests _ _ _ _ _ _ (I_proc HI Hr) x Hin) as [_ (?&?&?)]. congruence.
Qed.

Lemma marked_proc_inv :
  proc_inv (<[x := pg <| pg_ring_present := true |>]> (u_pages s)) A
    (pop_ring R p sel (R p sel ++ [x])) None p (r <| pr_mm ::= set_ring sel marked_ring |>).
Proof using HI Hx Hpg Hr Hsel Hrp.
  pose proof marked_fresh as Hfresh. pose proof (ring_short s A R None p r sel HI Hr) as Hlen.
  pose proof (used_here s A R None HI p x d i pg r Hx Hpg Hr) as Hu.
  assert (in_bins A p x) as Hb by (exists d, i; split; [apply Hu|done]).
  destruct (I_proc HI Hr) as [].
  assert (R p HotRing ++ R p ColdRing ++ [x] ≡ₚ
    pop_ring R p sel (R p sel ++ [x]) p HotRing ++ pop_ring R p sel (R p sel ++ [x]) p ColdRing) as Hperm.
  { destruct sel; [|..|done]; rewrite pop_ring_eq, pop_ring_sel by done; [|done].
    rewrite <- app_assoc. apply Permutation_app_head, Permutation_app_comm. }
  assert (∀ y (P : hemem_page → Prop),
    (∃ pg', u_pages s !! y = Some pg' ∧ P pg') → (P pg → P (pg <| pg_ring_present := true |>)) →
    ∃ pg', <[x := pg <| pg_ring_present := true |>]> (u_pages s) !! y = Some pg' ∧ P pg') as Hkeep.
  { intros y P (pg'&Hy&HP) Himp. rewrite lookup_insert. case_decide as Hxy; [|eauto].
    subst y. rewrite Hpg in Hy. injection Hy as <-. eauto. }
  assert (∀ y (P : hemem_page → Prop),
    (∃ pg', <[x := pg <| pg_ring_present := true |>]> (u_pages s) !! y = Some pg' ∧ P pg') →
    (P (pg <| pg_ring_present := true |>) → P pg) → ∃ pg', u_pages s !! y = Some pg' ∧ P pg') as Hback.
  { intros y P (pg'&Hy&HP) Himp. rewrite lookup_insert in Hy. case_decide as Hxy; [|eauto].
    subst y. injection Hy as <-. eauto. }
  split; rec_simpl; try (destruct sel; done).
  - intros k y. replace (mm_pages (set_ring sel marked_ring (pr_mm r))) with (mm_pages (pr_mm r)) by by destruct sel.
    intros [? Hy]%pi_pages. split; [done|]. by apply (Hkeep y (λ pg, pg_hh pg = Some k)).
  - intros k y. replace (mm_cxl_offset_to_page (set_ring sel marked_ring (pr_mm r)))
      with (mm_cxl_offset_to_page (pr_mm r)) by by destruct sel.
    intros [? Hy]%pi_cxl. split; [done|]. by apply (Hkeep y (λ pg, pg_hh_pa pg = Some k)).
  - intros sel'. destruct (decide (sel = sel')) as [<-|].
    + rewrite set_ring_same, pop_ring_eq. unfold marked_ring. rewrite ring_buf_put_capacity.
      destruct (pi_ring sel) as [Hq Hcap]. split; [|done]. pose proof (ring_buf_put_spec _ _ x Hq) as Hput.
      rewrite bool_decide_eq_false_2 in Hput; [done|]. rewrite Hcap. unfold CAPACITY, MAX_PAGES in *. lia.
    + rewrite set_ring_other, pop_ring_sel by done. auto.
  - intros y. rewrite pop_ring_sel by done. rewrite pi_free_ring.
    split; intros [? Hy]; (split; [done|]).
    + by apply (Hkeep y (λ pg, pg_in_free_ring pg = true)).
    + by apply (Hback y (λ pg, pg_in_free_ring pg = true)).
  - by rewrite pop_ring_sel.
  - intros y. rewrite <- Hperm, (assoc_L (++)), elem_of_app, list_elem_of_singleton. intros [Hy| ->].
    + destruct (pi_requests y Hy) as [? Hpy]. split; [done|].
      by apply (Hkeep y (λ pg, pg_ring_present pg = true)).
    + split; [by left|]. rewrite lookup_insert_eq. eauto.
  - rewrite <- Hperm, (assoc_L (++)). apply NoDup_app.
    split_and!; [done| |apply NoDup_singleton]. intros y Hy ->%list_elem_of_singleton. done.
Qed.
(** The state after the request. *)
Definition marked : ucm :=
  s <| u_pages := <[x := pg <| pg_ring_present := true |>]> (u_pages s) |>
    <| u_procs := <[p := r <| pr_mm ::= set_ring sel marked_ring |>]> (u_procs s) |>.

Lemma marked_inv :
  ucm_inv marked A (pop_ring R p sel (R p sel ++ [x])) None.
Proof using HI Hx Hpg Hr Hsel Hrp.
  pose proof (used_here s A R None HI p x d i pg r Hx Hpg Hr) as Hu.
  assert (in_bins A p x) as Hb by (exists d, i; split; [apply Hu|done]).
  unfold marked. eapply (inv_page s _ A A R _ None p r _ x pg); rec_simpl; try done; auto.
  - apply HI.
  - intros q Hq. by eapply (in_bins_unique _ _ (I_dll HI)).
  - right. exists d, i. split; [done|]. destruct Hu. split; rec_simpl; auto; by destruct sel.
  - by destruct sel.
  - by destruct sel.
  - intros k (_&pg0&?&?)%(I_pa HI). split; [done|]. rec_simpl; congruence.
  - apply marked_proc_inv.
  - intros q Hq. by apply pop_ring_ne.
Qed.

Lemma marked_observed s' :
  u_pages s' = u_pages marked → u_procs s' = u_procs marked → u_plist s' = u_plist s →
  u_pq s' = u_pq s → u_proc_map s' = u_proc_map s → u_pa_map s' = u_pa_map s → world s' = world s →
  observed s A R s'.
Proof using HI Hx Hpg Hr Hsel Hrp.
  intros E1 E2 E3 E4 E5 E6 E7. pose proof marked_inv as HI'.
  unfold marked in E1, E2. rec_simpl_in E1. rec_simpl_in E2. split; [| | |done|done].
  - exists (pop_ring R p sel (R p sel ++ [x])). split.
    + unfold world in E7. eapply (inv_frame marked); try done; unfold marked; rec_simpl; congruence.
    + intros q. destruct (decide (q = p)) as [->|]; [by rewrite pop_ring_sel|by rewrite pop_ring_ne].
  - intros y. rewrite E1, lookup_insert. case_decide as Hy; [|done]. subst y. by rewrite Hpg.
  - intros q. rewrite E2, lookup_insert. case_decide as Hq; [|done]. subst q. rewrite Hr. by destruct sel.
Qed.
End mark.

(** [request_move], with the requests it may put in a ring. *)
Lemma wp_request_move s A R p x d i pg new :
  ucm_inv s A R None → x ∈ A (bin d p i) → u_pages s !! x = Some pg →
  wp (request_move p x new) (λ _ s', observed s A R s' ∧
    u_pages s' = <[x := pg <| pg_ring_present := pg_ring_present pg || negb (new =? pg_hot pg) |>]>
      (u_pages s) ∧
    ∀ q, proc_keep <$> u_procs s' !! q = proc_keep <$> u_procs s !! q) s.
Proof.
  intros HI Hx Hpg. destruct (I_used HI Hx) as (_&r&_&Hr&_).
  assert (∀ b, b = pg_ring_present pg → u_pages s = <[x := pg <| pg_ring_present := b |>]> (u_pages s)) as Hsame
    by (intros b ->; rewrite insert_id; [done|]; rewrite Hpg; by destruct pg).
  pose proof (observed_refl s A R HI) as Hrefl.
  assert (∀ sel, sel ≠ FreeRing → pg_ring_present pg = false → ∀ s',
    u_pages s' = u_pages (marked s p x pg r sel) → u_procs s' = u_procs (marked s p x pg r sel) →
    u_plist s' = u_plist s → u_pq s' = u_pq s → u_proc_map s' = u_proc_map s → u_pa_map s' = u_pa_map s →
    world s' = world s → observed s A R s' ∧
    u_pages s' = <[x := pg <| pg_ring_present := true |>]> (u_pages s) ∧
    ∀ q, proc_keep <$> u_procs s' !! q = proc_keep <$> u_procs s !! q) as Hmark.
  { intros sel Hsel Hrp s' E1 E2. intros. pose proof E1 as E1'. pose proof E2 as E2'.
    unfold marked in E1', E2'. rec_simpl_in E1'. rec_simpl_in E2'. split_and!.
    - by eapply (marked_observed s A R HI p x d i pg r Hx Hpg Hr sel).
    - done.
    - intros q. rewrite E2', lookup_insert. case_decide as Hq; [|done]. subst q. rewrite Hr. by destruct sel. }
  unfold request_move. do 2 ucm_step.
  destruct (Z.ltb_spec (pg_hot pg) new) as [Hlt|Hle].
  - replace (new =? pg_hot pg) with false by (symmetry; apply Z.eqb_neq; lia). rewrite orb_true_r.
    unfold mm_mark_page_hot_async. do 3 ucm_step. destruct (pg_ring_present pg) eqn:Hrp.
    + do 2 wp_step. auto.
    + do 6 ucm_step. wp_step. wp_step. by apply (Hmark HotRing).
  - destruct (Z.ltb_spec new (pg_hot pg)) as [Hlt|Hge].
    + replace (new =? pg_hot pg) with false by (symmetry; apply Z.eqb_neq; lia). rewrite orb_true_r.
      unfold mm_mark_page_cold_async. do 3 ucm_step. destruct (pg_ring_present pg) eqn:Hrp.
      * do 2 wp_step. auto.
      * do 6 ucm_step. wp_step. wp_step. by apply (Hmark ColdRing).
    + wp_step. replace (new =? pg_hot pg) with true by (symmetry; apply Z.eqb_eq; lia).
      rewrite orb_false_r. auto.
Qed.

(** ** Sequencing *)
Lemma wp_observed_bind {T U} (m : M ucm T) (k : T → M ucm U) s A R (P : T → ucm → Prop)
    (Q : U → ucm → Prop) :
  wp m (λ a s1, observed s A R s1 ∧ P a s1) s →
  (∀ a s1 R1, P a s1 → observed s A R s1 → ucm_inv s1 A R1 None →
     wp (k a) (λ b s2, observed s1 A R1 s2 ∧ Q b s2) s1) →
  wp (m ≫= k) (λ b s2, observed s A R s2 ∧ Q b s2) s.
Proof.
  intros Hm Hk. wp_step. eapply wp_mono; [exact Hm|]. intros a s1 [Hob HP].
  pose proof Hob as [(R1&HI1&HR1) _ _ _ _]. eapply wp_mono; [by apply (Hk a s1 R1)|].
  intros b s2 [Hob2 HQ]. split; [|done]. by eapply observed_trans.
Qed.

Lemma wp_observed_mono {T} (m : M ucm T) s A R (P Q : T → ucm → Prop) :
  wp m (λ a s1, observed s A R s1 ∧ P a s1) s → (∀ a s1, P a s1 → Q a s1) →
  wp m (λ a s1, observed s A R s1 ∧ Q a s1) s.
Proof. intros Hm HPQ. eapply wp_mono; [done|]. naive_solver. Qed.

Section ops.
Context (s : ucm) (A : list_id → list ptr) (R : ptr → ring_sel → list ptr) (HI : ucm_inv s A R None).

Lemma wp_set_page_obs p x d i pg f :
  x ∈ A (bin d p i) → u_pages s !! x = Some pg →
  page_place (f pg) = page_place pg → pg_ring_present (f pg) = pg_ring_present pg →
  wp (set_page x f) (λ _ s', observed s A R s' ∧
    u_pages s' = <[x := f pg]> (u_pages s) ∧ u_procs s' = u_procs s) s.
Proof using HI.
  intros Hx Hpg Hplace Hrp. eapply wp_set_page; [done|]. split; [|done]. by eapply observed_page.
Qed.

Lemma wp_set_proc_obs p r f :
  u_procs s !! p = Some r → proc_view (f r) = proc_view r →
  wp (set_proc p f) (λ _ s', observed s A R s' ∧
    u_pages s' = u_pages s ∧ u_procs s' = <[p := f r]> (u_procs s)) s.
Proof using HI.
  intros Hr Hv. eapply wp_set_proc; [done|]. split; [|done]. by eapply observed_proc.
Qed.

Lemma wp_count_pebs f :
  wp (count_pebs f) (λ _ s', observed s A R s' ∧
    u_pages s' = u_pages s ∧ u_procs s' = u_procs s) s.
Proof using HI. unfold count_pebs. wp_step. split; [|done]. by apply observed_frame. Qed.

(** A request to cool only touches the flag, the clock and the counters. *)
Definition cooled_proc (fastmem : bool) (r : hemem_process) : hemem_process :=
  r <| pr_mm ::= set_need_cool fastmem true |>
    <| pr_process_clock ::= tier_upd (tier_of fastmem) (λ n, u64 (n + 1)) |>
    <| pr_mm ::= λ mm, mm <| mm_cools ::= λ n, u64 (n + 1) |> |>.

Lemma wp_proc_cool_async fastmem force p r :
  u_procs s !! p = Some r →
  wp (proc_cool_async fastmem force p) (λ _ s', observed s A R s' ∧
    u_pages s' = u_pages s ∧
    u_procs s' = if force || negb (need_cool fastmem (pr_mm r))
                 then <[p := cooled_proc fastmem r]> (u_procs s) else u_procs s) s.
Proof using HI.
  intros Hr. unfold proc_cool_async. do 2 ucm_step.
  destruct (force || negb (need_cool fastmem (pr_mm r))) eqn:Hc.
  2:{ apply wp_when_false; [done|]. split; [by apply observed_refl|done]. }
  apply wp_when_true; [done|].
  do 2 ucm_step. do 2 ucm_step. do 2 ucm_step. wp_step. ucm_norm.
  fold (cooled_proc fastmem r).
  assert (proc_view (cooled_proc fastmem r) = proc_view r) as Hv by by destruct fastmem.
  destruct (observed_proc s A R HI p r (cooled_proc fastmem) Hr Hv) as [Hob HI1].
  split; [|done]. eapply (observed_trans _ _ _ _ _ _ Hob HI1); [done|]. by apply observed_frame.
Qed.
End ops.

(** ** Skewness counters *)

(** The counters after a sample of the base page [k]. *)
Definition bump_skewness (k : nat) (l : list Z) : list Z :=
  match safe_add_uint32 (nth k l 0) 1 with
  | Some n => <[k := n]> l
  | None => alter (λ n, u32 (n + 1)) k ((λ n, Z.shiftr n 1) <$> l)
  end.

Definition basepage_of (addr : Z) : nat := Z.to_nat (addr / BASEPAGE_SIZE mod N_BASEPAGES_IN_HUGEPAGE).

Lemma basepage_index addr : 0 ≤ addr →
  Z.shiftr (Z.land addr PAGE_4KB_MASK) 12 = addr / BASEPAGE_SIZE mod N_BASEPAGES_IN_HUGEPAGE.
Proof.
  intros Ha. rewrite Z.shiftr_land. change (Z.shiftr PAGE_4KB_MASK 12) with (Z.ones 9).
  rewrite Z.land_ones, Z.shiftr_div_pow2 by lia. done.
Qed.

Section skew.
Context (s : ucm) (A : list_id → list ptr) (R : ptr → ring_sel → list ptr) (HI : ucm_inv s A R None).
Context (p x : ptr) (d : bool) (i : Z) (pg : hemem_page).
Context (Hx : x ∈ A (bin d p i)) (Hpg : u_pages s !! x = Some pg).

Lemma wp_update_skewness addr : 0 ≤ addr →
  wp (update_skewness_counter x addr) (λ _ s', observed s A R s' ∧
    u_pages s' = <[x := pg <| pg_subpage_skewness ::= bump_skewness (basepage_of addr) |>]> (u_pages s) ∧
    u_procs s' = u_procs s) s.
Proof using HI Hx Hpg.
  intros Ha. unfold update_skewness_counter, get_basepage_index_in_hugepage. rewrite (basepage_index addr Ha).
  assert (0 ≤ addr / BASEPAGE_SIZE mod N_BASEPAGES_IN_HUGEPAGE < N_BASEPAGES_IN_HUGEPAGE) as Hlt
    by (apply Z.mod_pos_bound; done).
  do 3 wp_step; [apply Z.ltb_lt, Hlt|]. wp_step. fold (basepage_of addr). set (k := basepage_of addr).
  do 2 ucm_step.
  assert (page_place (pg <| pg_subpage_skewness ::= bump_skewness k |>) = page_place pg) as Hplace by done.
  destruct (observed_page s A R HI p x d i pg (λ pg, pg <| pg_subpage_skewness ::= bump_skewness k |>)
    Hx Hpg Hplace eq_refl) as [Hob _]. cbv beta in Hob.
  destruct (safe_add_uint32 (nth k (pg_subpage_skewness pg) 0) 1) as [n|] eqn:Hn.
  - ucm_step.
    assert (pg <| pg_subpage_skewness ::= <[k := n]> |> = pg <| pg_subpage_skewness ::= bump_skewness k |>) as ->.
    { destruct pg. unfold upd, set_pg_subpage_skewness, bump_skewness; simpl in *. by rewrite Hn. }
    done.
  - wp_step. ucm_step. ucm_step. ucm_norm. unfold halve_skewness_counters. ucm_norm.
    match goal with |- context [<[x := ?q]> (u_pages s)] =>
      assert (q = pg <| pg_subpage_skewness ::= bump_skewness k |>) as -> end; [|done].
    destruct pg. unfold upd, set_pg_subpage_skewness, bump_skewness; simpl in *. by rewrite Hn.
Qed.
End skew.

(** ** PEBS samples *)

(** A page after a sample at [addr], for a process with the clocks [clock]. *)
Definition sampled_page (clock : tiered) (addr : Z) (pg : hemem_page) : hemem_page :=
  let new_hotness := access_to_index (fast (pg_accesses pg)) (slow (pg_accesses pg)) in
  catch_up clock (pg <| pg_ring_present := pg_ring_present pg || negb (new_hotness =? pg_hot pg) |>)
    <| pg_subpage_skewness ::= bump_skewness (basepage_of addr) |>.

Lemma observed_proc_lookup s A R s' p r : observed s A R s' → u_procs s !! p = Some r →
  ∃ r', u_procs s' !! p = Some r' ∧ proc_core r' = proc_core r.
Proof.
  intros Hob Hr. pose proof (ob_procs _ _ _ _ Hob p) as Hp. rewrite Hr in Hp.
  destruct (u_procs s' !! p) as [r'|]; [|done]. exists r'. split; [done|]. by apply (inj Some) in Hp.
Qed.

Section pebs.
Context (s : ucm) (A : list_id → list ptr) (R : ptr → ring_sel → list ptr) (HI : ucm_inv s A R None).

Lemma wp_process_valid_pebs_sample p x d i pg r addr :
  x ∈ A (bin d p i) → u_pages s !! x = Some pg → u_procs s !! p = Some r → 0 ≤ addr →
  wp (process_valid_pebs_sample p x addr) (λ _ s', observed s A R s' ∧
    u_pages s' = <[x := sampled_page (pr_process_clock r) addr pg]> (u_pages s)) s.
Proof using HI.
  intros Hx Hpg Hr Ha. unfold process_valid_pebs_sample. do 2 ucm_step.
  eapply wp_observed_bind; [by eapply (wp_request_move s A R p x d i pg)|].
  intros [] s1 R1 [Hp1 Hk1] Hob1 HI1. set (pg1 := pg <| pg_ring_present := _ |>) in Hp1.
  destruct (observed_proc_lookup _ _ _ _ _ _ Hob1 Hr) as (r1&Hr1&_).
  assert (pr_process_clock r1 = pr_process_clock r) as Hclock.
  { specialize (Hk1 p). rewrite Hr, Hr1 in Hk1. apply (inj Some) in Hk1. unfold proc_keep in Hk1. congruence. }
  assert (u_pages s1 !! x = Some pg1) as Hpg1 by by rewrite Hp1, lookup_insert_eq.
  wp_step. eapply wp_proc; [done|]. rewrite Hclock.
  eapply wp_observed_bind; [by eapply (wp_set_page_obs s1 A R1 HI1 p x d i pg1)|].
  intros [] s2 R2 [Hp2 Hpr2] Hob2 HI2. set (pg2 := catch_up (pr_process_clock r) pg1) in *.
  eapply wp_observed_bind.
  { eapply (wp_update_skewness _ A R2 HI2 p x d i pg2); [done| |done]. by rewrite Hp2, lookup_insert_eq. }
  intros [] s3 R3 [Hp3 Hprocs3] Hob3 HI3. rewrite Hpr2 in Hprocs3.
  rewrite Hp2, insert_insert_eq, Hp1, insert_insert_eq in Hp3.
  fold (sampled_page (pr_process_clock r) addr pg) in Hp3.
  assert (u_procs s3 !! p = Some r1) as Hr3 by by rewrite Hprocs3.
  wp_step. eapply wp_page; [by rewrite Hp3, lookup_insert_eq|]. apply wp_when; intros _.
  2:{ split; [by apply observed_refl|done]. }
  eapply wp_observed_bind; [by eapply (wp_set_proc_obs s3 A R3 HI3 p r1)|].
  intros [] s4 R4 [Hp4 Hpr4] Hob4 HI4. unfold mm_request_cool_fastmem, mm_request_cool_slowmem.
  eapply wp_observed_bind.
  { eapply (wp_proc_cool_async _ A R4 HI4 true true p). by rewrite Hpr4, lookup_insert_eq. }
  intros [] s5 R5 [Hp5 Hpr5] Hob5 HI5.
  cbn [orb] in Hpr5. eapply wp_observed_mono.
  { eapply (wp_proc_cool_async s5 A R5 HI5 false true p). by rewrite Hpr5, lookup_insert_eq. }
  intros [] s6 [Hp6 _]. by rewrite Hp6, Hp5, Hp4.
Qed.

End pebs.

Section perf.
Context (s : ucm) (A : list_id → list ptr) (R : ptr → ring_sel → list ptr) (HI : ucm_inv s A R None).

(** Which page a sample is about. *)
Definition sample_target (ps : perf_sample) : option (ptr * ptr) :=
  if ps_addr ps =? 0 then None
  else
    p ← u_proc_map s !! ps_pid ps;
    r ← u_procs s !! p;
    x ← mm_pages (pr_mm r) !! Z.land (ps_addr ps) HUGE_PFN_MASK;
    Some (p, x).

Lemma wp_process_perf_sample L K ps core :
  mgr_inv s L K → 0 ≤ ps_addr ps → Z.of_nat core < HEMEM_NCORES →
  wp (process_perf_sample ps core) (λ _ s', observed s A R s' ∧
    match sample_target ps with
    | None => u_pages s' = u_pages s ∧ u_procs s' = u_procs s
    | Some (p, x) => ∃ r pg, u_procs s !! p = Some r ∧ u_pages s !! x = Some pg ∧
        if pg_in_dram pg then
          u_pages s' = <[x := sampled_page (pr_process_clock r) (ps_addr ps)
            (pg <| pg_accesses ::= tier_upd FASTMEM (λ n, u64 (n + 1)) |>
                <| pg_tot_accesses ::= tier_upd FASTMEM (λ n, u64 (n + 1)) |>)]> (u_pages s)
        else u_pages s' = u_pages s
    end) s.
Proof using HI.
  intros HM Ha Hcore. unfold process_perf_sample, sample_target.
  eapply wp_observed_bind; [by eapply (wp_count_pebs s A R HI)|]. intros [] s1 R1 [Hp1 Hpr1] Hob1 HI1.
  assert (∀ f, wp (count_pebs f) (λ _ s', observed s1 A R1 s' ∧ u_pages s' = u_pages s ∧
    u_procs s' = u_procs s) s1) as Hcount.
  { intros f. eapply wp_observed_mono; [by eapply (wp_count_pebs s1 A R1 HI1)|]. naive_solver congruence. }
  destruct (ps_addr ps =? 0) eqn:Haddr; [apply Hcount|].
  pose proof (observed_mgr _ _ _ _ _ _ Hob1 HM) as HM1.
  wp_step. eapply (wp_find_process _ L K HM1). replace (u_proc_map s1) with (u_proc_map s) by (symmetry; apply Hob1).
  destruct (u_proc_map s !! ps_pid ps) as [p|] eqn:Hp; simpl; [|apply Hcount].
  apply (M_map HM) in Hp as (_&r&Hr&_). rewrite Hr. simpl. rewrite <- Hpr1 in Hr.
  wp_step. eapply (wp_mm_find_page _ A R1 None HI1 p r Hr).
  destruct (mm_pages (pr_mm r) !! Z.land (ps_addr ps) HUGE_PFN_MASK) as [x|] eqn:Hx; simpl; [|apply Hcount].
  destruct (table_page s1 A R1 None HI1 p r Hr _ _ Hx) as (d&i&pg&Hxb&Hpg&Hu&_).
  eapply wp_observed_bind; [apply Hcount|]. intros [] s2 R2 [Hp2 Hpr2] Hob2 HI2.
  rewrite Hp1 in Hpg. rewrite Hpr1 in Hr.
  wp_step. eapply wp_page; [by rewrite Hp2|].
  eapply (wp_observed_bind _ _ _ _ _ (λ _ s', u_pages s' = u_pages s ∧ u_procs s' = u_procs s)).
  { apply wp_when; intros _; [|split; [by apply observed_refl|done]].
    eapply wp_observed_mono; [by eapply (wp_count_pebs _ A R2 HI2)|]. naive_solver congruence. }
  intros [] s3 R3 [Hp3 Hpr3] Hob3 HI3.
  wp_step. apply wp_assert; [apply negb_true_iff, Z.eqb_neq, Hu|].
  wp_step. apply wp_when_false; [apply Z.leb_gt; lia|].
  eapply wp_observed_bind; [eapply (wp_set_proc_obs s3 A R3 HI3 p r); [by rewrite Hpr3|done]|].
  intros [] s4 R4 [Hp4 Hpr4] Hob4 HI4. destruct (pg_in_dram pg) eqn:Hd.
  2:{ apply wp_when_false; [done|]. split; [by apply observed_refl|]. exists r, pg. rewrite Hd.
      split_and!; [done..|congruence]. }
  apply wp_when_true; [done|].
  eapply wp_observed_bind; [eapply (wp_set_proc_obs _ A R4 HI4 p); [by rewrite Hpr4, lookup_insert_eq|done]|].
  intros [] s5 R5 [Hp5 Hpr5] Hob5 HI5. rewrite Hp4, Hp3 in Hp5. rewrite Hpr4, insert_insert_eq in Hpr5.
  eapply wp_observed_bind; [eapply (wp_set_page_obs _ A R5 HI5 p x d i pg); [done|by rewrite Hp5|done..]|].
  intros [] s6 R6 [Hp6 Hpr6] Hob6 HI6.
  eapply wp_observed_bind.
  { eapply (wp_set_page_obs _ A R6 HI6 p x d i); [done|by rewrite Hp6, lookup_insert_eq|done..]. }
  intros [] s7 R7 [Hp7 Hpr7] Hob7 HI7. rewrite Hp6, Hp5, insert_insert_eq in Hp7.
  rewrite Hpr6, Hpr5 in Hpr7. eapply wp_observed_mono.
  { eapply (wp_process_valid_pebs_sample s7 A R7 HI7);
      [done|by rewrite Hp7, lookup_insert_eq|by rewrite Hpr7, lookup_insert_eq|done]. }
  intros [] s8 Hp8. exists r, pg. rewrite Hd. split_and!; [done..|]. rewrite Hp8, Hp7. rec_simpl.
  by rewrite insert_insert_eq.
Qed.
End perf.

(** ** Loops over samples and counters *)
Section loops.
Context (A : list_id → list ptr) (L : list ptr) (K : gset (unit + ptr)).

(** [m] changes access information only, from any state the invariants hold in. *)
Definition observes {T} (m : M ucm T) (Q : T → Prop) : Prop :=
  ∀ s R, ucm_inv s A R None → mgr_inv s L K → wp m (λ a s', observed s A R s' ∧ Q a) s.

Lemma observes_ret {T} (a : T) (Q : T → Prop) : Q a → observes (mret a) Q.
Proof. intros HQ s R HI HM. wp_step. split; [by apply observed_refl|done]. Qed.

Lemma observes_bind {T U} (m : M ucm T) (k : T → M ucm U) (P : T → Prop) (Q : U → Prop) :
  observes m P → (∀ a, P a → observes (k a) Q) → observes (m ≫= k) Q.
Proof.
  intros Hm Hk s R HI HM. eapply wp_observed_bind; [by apply Hm|].
  intros a s1 R1 HP Hob HI1. apply Hk; [done..|]. by eapply observed_mgr.
Qed.

Lemma observes_mono {T} (m : M ucm T) (P Q : T → Prop) :
  observes m P → (∀ a, P a → Q a) → observes m Q.
Proof. intros Hm HPQ s R HI HM. eapply wp_mono; [by apply Hm|]. naive_solver. Qed.

Lemma observes_when b (m : M ucm unit) : (b = true → observes m (λ _, True)) → observes (when b m) (λ _, True).
Proof. intros Hm. destruct b; [by apply Hm|by apply observes_ret]. Qed.

Lemma observes_loop {X T} (I : X → Prop) (mu : X → nat) (body : X → M ucm (X + T)) (Q : T → Prop) n x :
  I x → (mu x < n)%nat →
  (∀ x, I x → observes (body x) (λ r, match r with inl x' => I x' ∧ (mu x' < mu x)%nat | inr r => Q r end)) →
  observes (loop n body x) Q.
Proof.
  intros HI Hmu Hbody. revert x HI Hmu. induction n as [|n IH]; intros x HI Hmu; [lia|].
  cbn [loop]. eapply observes_bind; [by apply Hbody|]. intros [x'|r]; [|by apply observes_ret].
  intros [HI' Hlt]. apply IH; [done|lia].
Qed.

(** A sample the kernel wrote for this core. *)
Definition sample_ok (ps : perf_sample) : Prop := 0 ≤ ps_addr ps ∧ 1 ≤ ps_size ps < 2 ^ 16.

Lemma observes_count f : observes (count_pebs f) (λ _, True).
Proof. intros s R HI HM. eapply wp_observed_mono; [by eapply wp_count_pebs|done]. Qed.

Lemma observes_pebs_sample ps core :
  sample_ok ps → Z.of_nat core < HEMEM_NCORES → observes (on_pebs_sample_received ps core) (λ _, True).
Proof.
  intros [Ha _] Hcore. unfold on_pebs_sample_received.
  destruct (ps_type ps); try apply observes_count; [|by apply observes_ret].
  intros s R HI HM. eapply wp_observed_mono; [by eapply (wp_process_perf_sample s A R HI L K)|done].
Qed.

(** What the kernel guarantees about a perf buffer. *)
Record perf_ok (p : perf_event_mmap_page) : Prop := PerfOk {
  pf_range : 0 ≤ data_tail p ≤ data_head p ∧ data_head p < 2 ^ 63;
  pf_size : 0 < data_size p;
  pf_record off : sample_ok (record_at p off);
}.

(** The scan ends, and has consumed everything the kernel had written. *)
Lemma observes_pebs_scan p core :
  perf_ok p → Z.of_nat core < HEMEM_NCORES →
  observes (pebs_scan p (λ ph, on_pebs_sample_received ph core))
    (λ p', data_head p ≤ data_tail p' < data_head p + 2 ^ 16 ∧ data_head p' = data_head p ∧
           data_size p' = data_size p).
Proof.
  intros [[Hr Hmax] Hsize Hrec] Hcore. unfold pebs_scan.
  destruct (Z.eqb_spec (data_head p) (data_tail p)) as [He|Hne].
  { apply observes_ret. lia. }
  eapply (observes_bind _ _ (λ _, True)).
  { intros s R HI HM. apply wp_assert; [apply Z.ltb_lt; lia|]. split; [by apply observed_refl|done]. }
  intros _ _. eapply (observes_bind _ _ (λ t, data_head p ≤ t < data_head p + 2 ^ 16)).
  2:{ intros t Ht. by apply observes_ret. }
  apply (observes_loop (λ t, data_tail p ≤ t < data_head p + 2 ^ 16)
           (λ t, Z.to_nat (data_head p - t))); [lia|lia|].
  intros t Ht. unfold pebs_scan_body. destruct (Z.ltb_spec t (data_head p)) as [Hlt|Hge];
    [|by apply observes_ret; lia].
  pose proof (Hrec (t mod data_size p)) as Hs. pose proof Hs as [_ ?].
  eapply (observes_bind _ _ (λ _, True)).
  { apply observes_when. intros _. by apply observes_pebs_sample. }
  intros _ _. apply observes_ret. rewrite u64_small by lia. lia.
Qed.

Lemma observes_pebs_epoch_scan ps : ∀ core,
  Forall perf_ok ps → Z.of_nat (core + length ps) ≤ HEMEM_NCORES →
  observes (pebs_epoch_scan core ps) (λ ps', Forall2 (λ p p', data_head p ≤ data_tail p') ps ps').
Proof.
  induction ps as [|p ps IH]; intros core Hok Hlen; cbn [pebs_epoch_scan length] in *.
  { by apply observes_ret. }
  apply Forall_cons in Hok as [Hp Hps].
  eapply observes_bind; [apply observes_pebs_scan; [done|lia]|]. intros p' [? _].
  eapply observes_bind; [apply IH; [done|lia]|]. intros ps' Hps'. apply observes_ret.
  constructor; [lia|done].
Qed.
End loops.

(** ** CXL counters *)
Definition counted_page (delta : Z) (pg : hemem_page) : hemem_page :=
  pg <| pg_accesses ::= tier_upd SLOWMEM (λ n, counter_safe_add n delta) |>
     <| pg_tot_accesses ::= tier_upd SLOWMEM (λ n, counter_safe_add n delta) |>.

(** The clocks of the process after the update: a page over the threshold asks
    for cooling, unless cooling of the tier is already under way. *)
Definition cxl_clock (r : hemem_process) (pg : hemem_page) : tiered :=
  if (CXL_COOLING_THRESHOLD <? slow (pg_accesses pg)) && negb (need_cool false (pr_mm r))
  then tier_upd SLOWMEM (λ n, u64 (n + 1)) (pr_process_clock r) else pr_process_clock r.

Definition updated_page (delta : Z) (r : hemem_process) (pg : hemem_page) : hemem_page :=
  let pg1 := counted_page delta pg in
  let pg2 := catch_up (cxl_clock r pg1) pg1 in
  let new_hotness := access_to_index (fast (pg_accesses pg2)) (slow (pg_accesses pg2)) in
  pg2 <| pg_ring_present := pg_ring_present pg2 || negb (new_hotness =? pg_hot pg2) |>.

Section cxl.
Context (s : ucm) (A : list_id → list ptr) (R : ptr → ring_sel → list ptr) (HI : ucm_inv s A R None).
Context (p x : ptr) (d : bool) (i : Z) (pg : hemem_page) (r : hemem_process).
Context (Hx : x ∈ A (bin d p i)) (Hpg : u_pages s !! x = Some pg) (Hr : u_procs s !! p = Some r).

Lemma wp_cxl_page_update_stats delta :
  wp (cxl_page_update_stats p x delta) (λ _ s', observed s A R s' ∧
    u_pages s' = <[x := updated_page delta r pg]> (u_pages s)) s.
Proof using HI Hx Hpg Hr.
  unfold cxl_page_update_stats.
  eapply wp_observed_bind; [by eapply (wp_set_page_obs _ A R HI p x d i pg)|].
  intros [] s1 R1 [Hp1 Hpr1] Hob1 HI1.
  eapply wp_observed_bind.
  { eapply (wp_set_page_obs _ A R1 HI1 p x d i); [done|by rewrite Hp1, lookup_insert_eq|done..]. }
  intros [] s2 R2 [Hp2 Hpr2] Hob2 HI2. rewrite Hp1, insert_insert_eq in Hp2. rewrite Hpr1 in Hpr2.
  fold (counted_page delta pg) in Hp2. set (pg1 := counted_page delta pg) in *.
  assert (u_pages s2 !! x = Some pg1) as Hpg2 by by rewrite Hp2, lookup_insert_eq.
  wp_step. eapply wp_page; [done|].
  eapply (wp_observed_bind _ _ _ _ _ (λ _ s', u_pages s' = u_pages s2 ∧
    ∃ r', u_procs s' !! p = Some r' ∧ pr_process_clock r' = cxl_clock r pg1)).
  { unfold cxl_clock. destruct (CXL_COOLING_THRESHOLD <? slow (pg_accesses pg1)).
    - apply wp_when_true; [done|]. unfold mm_request_soft_cool_slowmem.
      eapply wp_observed_mono; [by eapply (wp_proc_cool_async s2 A R2 HI2 false false p r); rewrite Hpr2|].
      intros [] s3 [Hp3 Hpr3]. split; [done|]. rewrite Hpr3. cbn [orb andb].
      destruct (negb (need_cool false (pr_mm r))); [rewrite lookup_insert_eq|rewrite Hpr2]; eauto.
    - apply wp_when_false; [done|]. split; [by apply observed_refl|]. split; [done|].
      rewrite Hpr2. eauto. }
  intros [] s3 R3 (Hp3&r3&Hr3&Hclock) Hob3 HI3. wp_step. eapply wp_proc; [done|]. rewrite Hclock.
  eapply wp_observed_bind; [eapply (wp_set_page_obs _ A R3 HI3 p x d i pg1); [done|by rewrite Hp3|done..]|].
  intros [] s4 R4 [Hp4 Hpr4] Hob4 HI4. set (pg2 := catch_up (cxl_clock r pg1) pg1) in *.
  assert (u_pages s4 !! x = Some pg2) as Hpg4 by by rewrite Hp4, lookup_insert_eq.
  wp_step. eapply wp_page; [done|].
  eapply wp_observed_mono; [by eapply (wp_request_move s4 A R4 p x d i pg2)|].
  intros [] s5 [Hp5 _]. rewrite Hp5, Hp4, Hp3, Hp2, !insert_insert_eq. done.
Qed.

(** The delta of an update, and what the process is charged. *)
Definition access_delta (prev_cnt curr_cnt comp : Z) : Z :=
  i64 (i64 (if prev_cnt <? curr_cnt then curr_cnt - prev_cnt else curr_cnt) - comp).

Lemma wp_cxl_apply_access_count_delta delta :
  wp (cxl_apply_access_count_delta delta p x) (λ _ s', observed s A R s' ∧
    (∃ pg', u_pages s' = <[x := pg']> (u_pages s) ∧
       pg' = pg <| pg_migration_access_comp := pg_migration_access_comp pg' |>) ∧
    ∃ r', u_procs s' = <[p := r']> (u_procs s) ∧ pr_process_clock r' = pr_process_clock r ∧
      pr_mm r' = pr_mm r) s.
Proof using HI Hx Hpg Hr.
  unfold cxl_apply_access_count_delta.
  assert (∀ f, wp (set_proc p (λ r, r <| pr_policy ::= λ po, po <| po_access_count ::= tier_upd SLOWMEM f |> |>))
    (λ _ s', observed s A R s' ∧
    (∃ pg', u_pages s' = <[x := pg']> (u_pages s) ∧
       pg' = pg <| pg_migration_access_comp := pg_migration_access_comp pg' |>) ∧
    ∃ r', u_procs s' = <[p := r']> (u_procs s) ∧ pr_process_clock r' = pr_process_clock r ∧
      pr_mm r' = pr_mm r) s) as Hset.
  { intros f. eapply wp_observed_mono; [by eapply (wp_set_proc_obs s A R HI p r)|].
    intros [] s' [Hp Hpr]. split; [|eauto]. exists pg. rewrite Hp, insert_id by done. by destruct pg. }
  destruct (0 <? delta); [apply Hset|]. wp_step. eapply wp_proc; [done|].
  destruct (_ <? u64 (- delta)); [|apply Hset].
  eapply wp_observed_bind; [apply Hset|].
  intros [] s1 R1 ((pg1&Hp1&Heq1)&r1&Hpr1&Hc1&Hm1) Hob1 HI1. unfold ucm_get_curr_epoch. do 2 wp_step.
  wp_step. eapply wp_page; [by rewrite Hp1, lookup_insert_eq|]. apply wp_when; intros _.
  - eapply wp_observed_mono.
    { eapply (wp_set_page_obs _ A R1 HI1 p x d i); [done|by rewrite Hp1, lookup_insert_eq|done..]. }
    intros [] s2 [Hp2 Hpr2]. rewrite Hp1, insert_insert_eq in Hp2. rewrite Hpr1 in Hpr2.
    split; [|eauto]. eexists. split; [done|]. rewrite Heq1. by destruct pg.
  - split; [by apply observed_refl|]. split; [by exists pg1|by exists r1].
Qed.
End cxl.

Section update.
Context (s : ucm) (A : list_id → list ptr) (R : ptr → ring_sel → list ptr) (HI : ucm_inv s A R None).

(** The page and the process an offset of the slow tier belongs to. *)
Lemma cxl_owner k x : u_pa_map s !! k = Some x →
  ∃ p r i pg, x ∈ A (bin false p i) ∧ u_pages s !! x = Some pg ∧ u_procs s !! p = Some r ∧
    mm_cxl_offset_to_page (pr_mm r) !! k = Some x ∧ pg_in_dram pg = false.
Proof using HI.
  intros (q&rq&i&pg&Hb&Hpg&Hrq&Hu&Ho&Hf)%(pa_page s A R None HI). exists q, rq, i, pg.
  split_and!; [done..| |apply Hu]. apply (up_cxl _ _ _ _ _ _ _ Hu).
  rewrite (up_hh_pa _ _ _ _ _ _ _ Hu), Hf. simpl. congruence.
Qed.

Lemma wp_cxl_update_stats p x i pg r prev curr :
  x ∈ A (bin false p i) → u_pages s !! x = Some pg → u_procs s !! p = Some r →
  wp (cxl_update_stats prev curr p x) (λ _ s', observed s A R s' ∧
    ∃ pg', u_pages s' = <[x := pg']> (u_pages s) ∧
      updated_page (access_delta prev curr (pg_migration_access_comp pg)) r pg =
      pg' <| pg_migration_access_comp := pg_migration_access_comp pg |>) s.
Proof using HI.
  intros Hx Hpg Hr. unfold cxl_update_stats.
  set (delta := access_delta prev curr (pg_migration_access_comp pg)).
  eapply (wp_observed_bind _ _ _ _ _ (λ a s', a = delta ∧
    u_pages s' = <[x := pg <| pg_migration_access_comp := 0 |>]> (u_pages s) ∧ u_procs s' = u_procs s)).
  { unfold cxl_calc_access_count_delta. wp_step. eapply wp_page; [done|].
    eapply wp_observed_bind; [by eapply (wp_set_page_obs _ A R HI p x false i pg)|].
    intros [] s1 R1 [Hp1 Hpr1] _ HI1. wp_step. split; [by apply observed_refl|done]. }
  intros a s1 R1 (->&Hp1&Hpr1) Hob1 HI1. rewrite <- Hpr1 in Hr.
  assert (u_pages s1 !! x = Some (pg <| pg_migration_access_comp := 0 |>)) as Hpg1
    by by rewrite Hp1, lookup_insert_eq.
  eapply wp_observed_bind; [by eapply (wp_cxl_apply_access_count_delta s1 A R1 HI1 p x false i)|].
  intros [] s2 R2 ((pg2&Hp2&Heq2)&r2&Hpr2&Hc2&Hm2) Hob2 HI2.
  eapply wp_observed_bind.
  { eapply (wp_cxl_page_update_stats s2 A R2 HI2 p x false i pg2 r2); [done|..].
    - by rewrite Hp2, lookup_insert_eq.
    - by rewrite Hpr2, lookup_insert_eq. }
  intros [] s3 R3 Hp3 _ HI3. wp_step. split; [by apply observed_refl|].
  eexists. rewrite Hp3, Hp2, Hp1, !insert_insert_eq. split; [done|].
  set (c := pg_migration_access_comp pg2) in *. rewrite Heq2. unfold updated_page, cxl_clock. rewrite Hc2, Hm2.
  destruct pg. unfold catch_up, counted_page, upd, decayed; simpl. done.
Qed.

(** A counter update, by the owner of the offset. *)
Lemma wp_on_cxl_counter_update off prev curr :
  wp (on_cxl_counter_update off prev curr) (λ _ s', observed s A R s' ∧
    if (curr =? prev) || (u_scan_epoch s =? 0) || negb (_detect_hot_cxl_page prev curr) then
      u_pages s' = u_pages s
    else match u_pa_map s !! off with
    | None => u_pages s' = u_pages s
    | Some x => ∃ p r pg pg', u_pages s !! x = Some pg ∧ u_procs s !! p = Some r ∧
        in_bins A p x ∧ u_pages s' = <[x := pg']> (u_pages s) ∧
        updated_page (access_delta prev curr (pg_migration_access_comp pg)) r pg =
        pg' <| pg_migration_access_comp := pg_migration_access_comp pg |>
    end) s.
Proof using HI.
  unfold on_cxl_counter_update, ucm_get_curr_epoch. do 2 wp_step.
  destruct ((curr =? prev) || (u_scan_epoch s =? 0)).
  { wp_step. split; [by apply observed_refl|done]. }
  destruct (_detect_hot_cxl_page prev curr); cbn [orb negb].
  2:{ wp_step. split; [by apply observed_refl|done]. }
  unfold cxl_find_proc_page. wp_step. wp_step. eapply wp_mm_find_proc_by_cxl_offset; [done|..].
  - intros ->. wp_step. wp_step. split; [by apply observed_frame|done].
  - intros x q j Hk Hq. rewrite Hk. destruct (cxl_owner off x Hk) as (p&r&i&pg&Hb&Hpg&Hr&Hcxl&Hd).
    destruct (bins_unique _ _ (I_dll HI) _ _ _ _ _ _ _ Hq Hb) as (_&->&_).
    wp_step. eapply (wp_mm_find_page_by_cxl_offset s A R None HI p r Hr). rewrite Hcxl.
    do 2 wp_step. eapply wp_page; [done|]. rewrite Hd. wp_step; [done|]. wp_step.
    eapply wp_observed_bind; [by eapply (wp_cxl_update_stats p x i pg r)|].
    intros a s1 R1 (pg'&Hp'&Heq) Hob1 HI1. wp_step. split; [by apply observed_refl|].
    exists p, r, pg, pg'. split_and!; [done..| |done|done].
    exists false, i. split; [|done]. destruct (I_used HI Hb) as (?&?&_&_&[]). done.
Qed.
End update.

(** The whole poll. *)
Section poll.
Context (A : list_id → list ptr) (L : list ptr) (K : gset (unit + ptr)).

Lemma observes_scan_counters cnts : ∀ i diffs,
  observes A L K (scan_counters i cnts diffs) (λ cnts', cnts' =
    zip_with (λ c d, u64 (c + d)) cnts diffs).
Proof.
  induction cnts as [|c cnts IH]; intros i [|d diffs]; cbn [scan_counters]; try by apply observes_ret.
  eapply (observes_bind A L K _ _ (λ _, True)).
  { intros s R HI HM. eapply wp_observed_mono; [by eapply wp_on_cxl_counter_update|done]. }
  intros _ _. eapply observes_bind; [apply IH|]. intros rest ->. by apply observes_ret.
Qed.

Lemma observes_telem_engine_poll ps cnts diffs :
  Forall perf_ok ps → Z.of_nat (length ps) ≤ HEMEM_NCORES - (LAST_HEMEM_THREAD + 1) →
  observes A L K (telem_engine_poll ps cnts diffs) (λ r,
    Forall2 (λ p p', data_head p ≤ data_tail p') ps r.1 ∧
    r.2 = zip_with (λ c d, u64 (c + d)) cnts diffs).
Proof.
  intros Hps Hlen. unfold telem_engine_poll.
  eapply observes_bind; [apply observes_pebs_epoch_scan; [done|unfold LAST_HEMEM_THREAD in *; lia]|].
  intros ps' Hps'. unfold cxl_epoch_scan.
  eapply observes_bind; [apply observes_scan_counters|]. intros cnts' ->. by apply observes_ret.
Qed.
End poll.
