(* ===== verification/MigrateOk.v ===== *)
(** * Migration keeps the invariant and the data

    The candidate is the first page old enough, in the order of the policy;
    migrating it exchanges its frame with the one of a free page of the other
    tier.  The bytes of every page in use are unchanged, the application maps
    the frame the page is in, and [ucm_inv] holds again. *)

From S2P Require Import Prelude Fifo Ring F64 ProcList Types Hotness Mm MmAsync Ucm Process Migrate Inv UcmWp AsyncOk TableOk AllocOk RequestOk ProcessOk.

(** ** Choosing the page *)

(** The page has not been migrated in the last [MIN_MIGRATION_EPOCH_INTERVAL]
    epochs. *)
Definition eligible (s : ucm) (x : ptr) : Prop :=
  ∃ pg, u_pages s !! x = Some pg ∧ min_migration_epoch pg ≤ u_scan_epoch s.

Section scan.
Context (s : ucm) (A : list_id → list ptr) (R : ptr → ring_sel → list ptr) (HI : ucm_inv s A R None).
Context (p : ptr) (r : hemem_process) (Hr : u_procs s !! p = Some r).

(** [x] has been taken out of the list [l], where it was the first eligible page. *)
Definition picked (l : list_id) (x : ptr) (s' : ucm) : Prop :=
  ∃ b a h, A l = b ++ x :: a ∧ eligible s x ∧ (∀ y, y ∈ b → ¬ eligible s y) ∧
    s' = s <| u_plist := h |> ∧ dll_ok h (<[l := b ++ a]> A) ∧ same_shape (u_plist s) h ∧
    links h !! x = Some detached.

Lemma wp_scan_list d i a : ∀ b n,
  0 ≤ i < NUM_HOTNESS_LEVELS → A (bin d p i) = b ++ a → (∀ y, y ∈ b → ¬ eligible s y) →
  (length a < n)%nat →
  wp (loop n (scan_body p (bin d p i) (u_scan_epoch s)) (last b))
    (λ o s', match o with
     | None => s' = s ∧ ∀ y, y ∈ A (bin d p i) → ¬ eligible s y
     | Some x => picked (bin d p i) x s'
     end) s.
Proof using HI Hr.
  induction a as [|x a IH]; intros b [|n] Hi HA Hb Hn; [simpl in Hn; lia| |simpl in Hn; lia|];
    cbn [loop]; wp_step; unfold scan_body at 1; wp_step;
    (eapply (wp_zoom_next A);
      [apply HI|eapply inv_bin_header; [done|eauto|lia]
      |intros y Hy; rewrite HA; apply elem_of_app; left; by apply last_Some_elem_of|]);
    intros o Ho; apply (next_after _ _ _ _ HA) in Ho as ->; simpl.
  { do 2 wp_step. split; [done|]. rewrite HA, app_nil_r. done. }
  assert (x ∈ A (bin d p i)) as Hx by (rewrite HA; set_solver).
  destruct (I_used HI Hx) as (pg&r'&Hpg&Hr'&Hu). simplify_eq.
  wp_step. eapply wp_page; [done|]. wp_step. apply wp_assert; [apply negb_true_iff, Z.eqb_neq, Hu|].
  destruct (Z.leb_spec (min_migration_epoch pg) (u_scan_epoch s)) as [He|He].
  - wp_step. eapply (wp_zoom_remove A); [apply HI|eapply inv_bin_header; [done|eauto|lia]|done|].
    intros h Hdll Hsh Hdet. wp_step. eapply wp_proc; [done|].
    wp_step. apply wp_assert; [apply Z.eqb_eq, Hu|]. do 2 wp_step.
    exists b, a, h. split_and!; [done|by exists pg|done..].
  - wp_step. rewrite <- last_snoc with (l := b).
    apply IH; [done|by rewrite <- app_assoc| |simpl in Hn; lia].
    intros y [Hy| ->%list_elem_of_singleton]%elem_of_app; [by apply Hb|].
    intros (pg'&Hpg'&?). simplify_eq. lia.
Qed.

(** The lists of the levels [js], in order. *)
Lemma wp_scan_lists d js :
  (∀ i, i ∈ js → 0 ≤ i < NUM_HOTNESS_LEVELS) →
  wp (scan_lists p (bin d p <$> js) (u_scan_epoch s))
    (λ o s', match o with
     | None => s' = s ∧ ∀ i y, i ∈ js → y ∈ A (bin d p i) → ¬ eligible s y
     | Some x => ∃ js1 i js2, js = js1 ++ i :: js2 ∧ picked (bin d p i) x s' ∧
         ∀ j y, j ∈ js1 → y ∈ A (bin d p j) → ¬ eligible s y
     end) s.
Proof using HI Hr.
  induction js as [|i js IH]; intros Hjs; cbn [scan_lists fmap list_fmap].
  { wp_step. split; [done|]. intros i y Hi. by apply not_elem_of_nil in Hi. }
  do 2 wp_step. wp_step. eapply wp_mono.
  { apply (wp_scan_list d i (A (bin d p i)) []); [set_solver|done|set_solver|].
    rewrite <- (size_dom (u_pages s)), <- (I_dom HI), size_dom.
    apply Nat.lt_succ_r, (dll_length_size _ _ (bin d p i) (I_dll HI)). }
  intros [x|] s'.
  - intros Hp. wp_step. exists [], i, js. split_and!; [done..|]. intros j y Hj. by apply not_elem_of_nil in Hj.
  - intros [-> Hno]. eapply wp_mono; [apply IH; set_solver|]. intros [x|] s'.
    + intros (js1&j&js2&->&Hp&Hn). exists (i :: js1), j, js2. split_and!; [done..|].
      intros j' y [->|?]%elem_of_cons; eauto.
    + intros [-> Hn]. split; [done|]. intros j y [->|?]%elem_of_cons; eauto.
Qed.
End scan.

(** ** Moving the page *)
Definition good_reply (a : app_reply) : Prop :=
  ar_result a = IPC_SUCCESS ∧ ar_va a = None ∧ ar_success a = true.

(** The page is in the frame [off] of the tier [dst]. *)
Definition moved_page (dst : bool) (off epoch : Z) (p : ptr) (pg : hemem_page) : hemem_page :=
  pg <| pg_migration_uffd_unmap_pending := true |>
     <| pg_last_migrated_epoch := epoch |>
     <| pg_migration_access_comp ::= Z.max (pt_to_cacheline_count (pg_pt pg)) |>
     <| pg_migrations_up ::= λ n, if dst then u64 (n + 1) else n |>
     <| pg_migrations_down ::= λ n, if dst then n else u64 (n + 1) |>
     <| pg_devdax_offset := off |> <| pg_in_dram := dst |>
     <| pg_hh_pa := if dst then None else Some off |>
     <| pg_pa_proc_entry := entry_for p (if dst then None else Some off) |>
     <| pg_migrating := false |>.

Lemma moved_page_done dst off epoch p pg :
  (moved_page dst off epoch p pg) <| pg_migrating := false |> = moved_page dst off epoch p pg.
Proof. unfold moved_page. upd_merge. reflexivity. Qed.

Definition moved_mm (dst : bool) (old off : Z) (x : ptr) (mm : process_mem) : process_mem :=
  mm <| mm_cxl_offset_to_page ::= if dst then delete old else insert off x |>
     <| mm_current_fastmem ::= λ n, u64 (if dst then n + HUGEPAGE_SIZE else n - HUGEPAGE_SIZE) |>
     <| mm_current_slowmem ::= λ n, u64 (if dst then n - HUGEPAGE_SIZE else n + HUGEPAGE_SIZE) |>.

Definition moved_stats (dst : bool) (t : process_stats) : process_stats :=
  if dst then t <| ps_up_count ::= λ n, u64 (n + 1) |>
  else t <| ps_down_count ::= λ n, u64 (n + 1) |>.

Definition moved_proc (dst : bool) (old off : Z) (x : ptr) (r : hemem_process) : hemem_process :=
  r <| pr_stats ::= moved_stats dst |> <| pr_mm ::= moved_mm dst old off x |>.

(** What one migration does, outside the lists. *)
Record moved (dst : bool) (p x : ptr) (pg : hemem_page) (r : hemem_process) (off : Z) (s s' : ucm) :
    Prop := Moved {
  mv_pages : u_pages s' = <[x := moved_page dst off (u_scan_epoch s) p pg]> (u_pages s);
  mv_procs : u_procs s' = <[p := moved_proc dst (pg_devdax_offset pg) off x r]> (u_procs s);
  mv_plist : u_plist s' = u_plist s;
  mv_pa : u_pa_map s' =
    if dst then delete (pg_devdax_offset pg) (u_pa_map s) else <[off := x]> (u_pa_map s);
  mv_mem : u_mem s' = mem_copy (tier_of dst) off (tier_of (negb dst)) (pg_devdax_offset pg)
    HUGEPAGE_SIZE (u_mem s);
  mv_app : u_app s' = <[(pr_pid r, pg_va pg) := (tier_of dst, off)]> (u_app s);
  mv_ipc : u_ipc s' = tail (u_ipc s);
  mv_locked : u_remap_locked s' = u_remap_locked s;
  mv_rest : (u_pq s', u_proc_map s', u_scan_epoch s') = (u_pq s, u_proc_map s, u_scan_epoch s);
  mv_tiers : (u_fastmem_size s', u_slowmem_size s', u_fastmem_ptr s', u_slowmem_ptr s') =
    (u_fastmem_size s, u_slowmem_size s, u_fastmem_ptr s, u_slowmem_ptr s);
}.

(** The tiers are mapped at huge-page boundaries of the address space. *)
Definition tiers_mapped (s : ucm) : Prop :=
  u_fastmem_ptr s mod HUGEPAGE_SIZE = 0 ∧ u_slowmem_ptr s mod HUGEPAGE_SIZE = 0.

Definition frame_ok (sz off : Z) : Prop :=
  0 ≤ off ∧ off mod HUGEPAGE_SIZE = 0 ∧ off + HUGEPAGE_SIZE ≤ sz.

(** The pieces of [ucm_migrate_one_page] after the copy. *)
Section pieces.
Context (t : ucm) (p x : ptr) (pg : hemem_page) (r : hemem_process) (dst : bool).
Context (Hpg : u_pages t !! x = Some pg) (Hr : u_procs t !! p = Some r).

Definition counted_move (pg : hemem_page) : hemem_page :=
  pg <| pg_migrations_up ::= λ n, if dst then u64 (n + 1) else n |>
     <| pg_migrations_down ::= λ n, if dst then n else u64 (n + 1) |>.
Definition counted_stats (t : ucm_stats_t) : ucm_stats_t :=
  (if dst then t <| st_migrations_up ::= λ n, u64 (n + 1) |>
   else t <| st_migrations_down ::= λ n, u64 (n + 1) |>)
    <| st_bytes_migrated ::= λ n, u64 (n + HUGEPAGE_SIZE) |>.

Lemma wp_record_migration (Q : unit → ucm → Prop) :
  Q tt (t <| u_pages := <[x := counted_move pg]> (u_pages t) |>
          <| u_procs := <[p := r <| pr_stats ::= moved_stats dst |>]> (u_procs t) |>
          <| u_stats ::= counted_stats |>) →
  wp (if dst then ucm_stats_record_migration_up p x HUGEPAGE_SIZE
      else ucm_stats_record_migration_down p x HUGEPAGE_SIZE) Q t.
Proof using Hpg Hr.
  intros HQ. unfold counted_move, counted_stats, moved_stats in HQ. destruct dst.
  - unfold ucm_stats_record_migration_up. do 5 ucm_step. revert HQ. by destruct pg.
  - unfold ucm_stats_record_migration_down. do 5 ucm_step. revert HQ. by destruct pg.
Qed.

Lemma wp_ipc_remap_pages a (Q : ucm_ipc_result → ucm → Prop) :
  Forall good_reply (u_ipc t) →
  Q IPC_SUCCESS (t <| u_ipc := tail (u_ipc t) |>
    <| u_app ::= insert (pr_pid r, pa_va a) (tier_of (pa_in_dram a), pa_devdax_offset a) |>) →
  wp (ipc_remap_pages p a) Q t.
Proof using Hr.
  intros Hgood HQ. unfold ipc_remap_pages. do 6 ucm_step. cbv zeta.
  assert (good_reply (default (AppReply IPC_SUCCESS None true) (head (u_ipc t)))) as (Eres&Eva&Eok).
  { destruct Hgood; [by split|done]. }
  rewrite Eres, Eva, Eok. cbn [default]. wp_step. apply wp_assert; [apply Z.eqb_refl|]. do 3 wp_step. done.
Qed.

Lemma wp_relink (Q : unit → ucm → Prop) old :
  pg_in_dram pg = dst →
  pg_hh_pa pg = (if dst then Some old else None) →
  pg_pa_proc_entry pg = entry_for p (pg_hh_pa pg) →
  mm_cxl_offset_to_page (pr_mm r) !! (if dst then old else pg_devdax_offset pg) =
    (if dst then Some x else None) →
  u_pa_map t !! (if dst then old else pg_devdax_offset pg) = (if dst then Some x else None) →
  Q tt (t <| u_pages := <[x := pg
              <| pg_hh_pa := if dst then None else Some (pg_devdax_offset pg) |>
              <| pg_pa_proc_entry :=
                   entry_for p (if dst then None else Some (pg_devdax_offset pg)) |>]> (u_pages t) |>
          <| u_procs := <[p := r <| pr_mm ::= λ mm, mm <| mm_cxl_offset_to_page ::=
              if dst then delete old else insert (pg_devdax_offset pg) x |> |>]> (u_procs t) |>
          <| u_pa_map ::= if dst then delete old else insert (pg_devdax_offset pg) x |>) →
  wp (if dst then mm_remove_page_from_cxl p x else mm_add_page_to_cxl p x) Q t.
Proof using Hpg Hr.
  intros Hd Hhh Hentry Hcxl Hpam HQ. destruct dst.
  - unfold mm_remove_page_from_cxl, delete_from_cxl. do 6 ucm_step.
    eapply wp_HASH_DELETE; [done..|]. do 3 ucm_step.
    unfold pa_proc_map_remove. do 2 ucm_step. rec_simpl. rewrite Hentry, Hhh. cbn [entry_for pe_used negb].
    do 3 wp_step. eapply wp_HASH_DELETE; [done|by rec_simpl|]. do 3 ucm_step. ucm_norm.
    revert HQ. by destruct t.
  - unfold mm_add_page_to_cxl. do 2 ucm_step. wp_step. apply wp_assert; [by rewrite Hd|].
    unfold mm_find_page_by_cxl_offset. do 3 ucm_step.
    apply wp_HASH_FIND; [congruence|]. rewrite Hcxl.
    unfold add_to_cxl. do 6 ucm_step. apply wp_HASH_ADD; [done..|]. do 3 ucm_step.
    unfold pa_proc_map_add. do 2 ucm_step. rec_simpl. wp_step. apply wp_assert; [by rewrite Hd|].
    wp_step. apply wp_assert; [by rewrite Hentry, Hhh|]. do 3 wp_step.
    apply wp_HASH_ADD; [by rewrite Hentry, Hhh|done|]. do 3 ucm_step. ucm_norm.
    revert HQ. by destruct t.
Qed.
End pieces.

Section move.
Context (writeprotect : Z → Z → Z → bool → ioctl_result).
Context (Hwp : ∀ uffd va len b, writeprotect uffd va len b ≠ IOCTL_FAILED).
Context (s : ucm) (p : ptr) (r : hemem_process) (Hr : u_procs s !! p = Some r).
Context (x : ptr) (pg : hemem_page) (Hpg : u_pages s !! x = Some pg).
Context (Hpid : pg_pid pg = pr_pid r) (Hva : pg_va pg ≠ 0) (Hal : pg_va pg mod HUGEPAGE_SIZE = 0).
Context (Hpt : pg_pt pg = HUGEP) (Hlock : x ∉ u_remap_locked s).
Context (Hsizes : 0 ≤ u_fastmem_size s < 2 ^ 63 ∧ 0 ≤ u_slowmem_size s < 2 ^ 63).
Context (Hipc : Forall good_reply (u_ipc s)) (Hptr : tiers_mapped s).

Definition started : ucm :=
  s <| u_remap_locked := {[ x ]} ∪ u_remap_locked s |>
    <| u_pages := <[x := pg <| pg_migrating := true |> <| pg_migration_uffd_unmap_pending := true |>
         <| pg_last_migrated_epoch := u_scan_epoch s |>
         <| pg_migration_access_comp ::= Z.max (pt_to_cacheline_count (pg_pt pg)) |>]> (u_pages s) |>.

Lemma wp_start_migration loc (Q : unit → ucm → Prop) :
  Q tt started → wp (start_migration writeprotect p x loc) Q s.
Proof using Hwp Hr Hpg Hpid Hva Hal Hlock.
  intros HQ. unfold start_migration. do 4 ucm_step. wp_step. apply wp_assert; [by apply Z.eqb_eq|].
  wp_step. unfold lock_page at 1, wp at 1. rewrite decide_False by done.
  unfold ucm_get_curr_epoch. do 6 ucm_step. unfold ucm_wp_page. do 2 ucm_step. rec_simpl.
  wp_step. apply wp_assert; [by apply negb_true_iff, Z.eqb_neq|].
  wp_step. apply wp_assert; [by apply Z.eqb_eq|].
  destruct (writeprotect _ _ _ _) eqn:Hw; [| |by apply Hwp in Hw]; wp_step; ucm_norm;
    revert HQ; clear; unfold started; ucm_norm; done.
Qed.

Context (dst : bool) (off : Z) (Hd : pg_in_dram pg = negb dst).
Context (Hold : frame_ok (tier_size s (negb dst)) (pg_devdax_offset pg)).
Context (Hnew : frame_ok (tier_size s dst) off).

Lemma aligned_addr base o :
  base mod HUGEPAGE_SIZE = 0 → o mod HUGEPAGE_SIZE = 0 → u64 (base + o) mod HUGEPAGE_SIZE = 0.
Proof using Type.
  intros (a&->)%Z.mod_divide (b&->)%Z.mod_divide; [|done..].
  unfold u64. rewrite <- Z.mul_add_distr_r.
  change (2 ^ 64) with (2 ^ 43 * HUGEPAGE_SIZE).
  rewrite Zmult_mod_distr_r. apply Z.mod_mul. done.
Qed.

(** The four bounds asserted before the copy. *)
Lemma wpx_frame_assert E l l' sz o (m : M ucm unit) (Q : unit → ucm → Prop) s' :
  frame_ok sz o → sz < 2 ^ 63 → wpx E m Q s' →
  wpx E (assert_ l (o <? sz);; assert_ l' (u64 (o + HUGEPAGE_SIZE) <=? sz);; m) Q s'.
Proof using Type.
  intros (?&_&?) ??. unfold HUGEPAGE_SIZE in *.
  wpx_next. apply wp_assert; [apply Z.ltb_lt; lia|].
  wpx_next. apply wp_assert; [|done]. apply Z.leb_le. rewrite u64_small; lia.
Qed.

(** The state in which the application is asked to map the new frame. *)
Definition asking : ucm :=
  s <| u_pages := <[x := (counted_move dst pg) <| pg_migrating := true |> <| pg_migration_uffd_unmap_pending := true |>
         <| pg_last_migrated_epoch := u_scan_epoch s |>
         <| pg_migration_access_comp ::= Z.max (pt_to_cacheline_count (pg_pt pg)) |>
         <| pg_devdax_offset := off |>]> (u_pages s) |>
    <| u_procs := <[p := r <| pr_stats ::= moved_stats dst |>]> (u_procs s) |>
    <| u_remap_locked := {[ x ]} ∪ u_remap_locked s |>
    <| u_mem ::= mem_copy (tier_of dst) off (tier_of (negb dst)) (pg_devdax_offset pg) HUGEPAGE_SIZE |>
    <| u_stats ::= counted_stats dst |>.

(** What [ucm_migrate_one_page] does from then on. *)
Definition ask_application : M ucm unit :=
  rc ← ipc_remap_pages p (PageApp (pg_va pg) off dst (pg_pt pg));
  match rc with
  | IPC_SUCCESS =>
      set_page x (λ pg, pg <| pg_in_dram := dst |>);;
      if dst then mm_remove_page_from_cxl p x else mm_add_page_to_cxl p x
  | IPC_APP_EXITED => ucm_remove_process p
  | _ => fail (AssertFail "migration.c:163")
  end.

Lemma wpx_until_ask E (Q : unit → ucm → Prop) :
  wpx E ask_application Q asking → wpx E (ucm_migrate_one_page p x dst off) Q started.
Proof using Hr Hpg Hpt Hsizes Hptr Hd Hold Hnew.
  intros HQ. unfold ucm_migrate_one_page. unfold started at 1.
  wpx_next. eapply wp_page; [lookup_done|]. rec_simpl.
  wpx_next. apply wp_assert; [rewrite Hd; by destruct dst|].
  unfold get_slowmem_size, get_fastmem_size. wpx_next. wp_step. wpx_next. wp_step. rec_simpl. rewrite Hpt. cbn [pt_to_pagesize].
  apply wpx_frame_assert; [by destruct dst|by destruct dst; apply Hsizes|].
  apply wpx_frame_assert; [by destruct dst|by destruct dst; apply Hsizes|].
  unfold devdax_offset_to_addr. wpx_next. do 3 wp_step. rec_simpl. wpx_next. do 3 wp_step. rec_simpl.
  wpx_next. apply wp_assert; [by apply Z.eqb_eq, aligned_addr; destruct dst; try apply Hptr; apply Hold|].
  wpx_next. apply wp_assert; [by apply Z.eqb_eq, aligned_addr; destruct dst; try apply Hptr; apply Hnew|].
  unfold hemem_memcpy. wpx_next. wp_step.
  wpx_next. eapply wp_record_migration; [lookup_done..|]. wpx_next. ucm_step.
  revert HQ. unfold ask_application, asking, counted_move. ucm_norm. rewrite Hpt. clear. by destruct s, pg.
Qed.

(** The page is in the tables of the slow tier exactly when it is there. *)
Context (Hhh : pg_hh_pa pg = if dst then Some (pg_devdax_offset pg) else None).
Context (Hentry : pg_pa_proc_entry pg = entry_for p (pg_hh_pa pg)).
Context (Hcxl : mm_cxl_offset_to_page (pr_mm r) !! (if dst then pg_devdax_offset pg else off) =
  if dst then Some x else None).
Context (Hpam : u_pa_map s !! (if dst then pg_devdax_offset pg else off) = if dst then Some x else None).

Definition copied : ucm :=
  s <| u_pages := <[x := (moved_page dst off (u_scan_epoch s) p pg) <| pg_migrating := true |>]> (u_pages s) |>
    <| u_procs := <[p := r <| pr_stats ::= moved_stats dst |> <| pr_mm ::= λ mm,
         mm <| mm_cxl_offset_to_page ::= if dst then delete (pg_devdax_offset pg) else insert off x |> |>]>
         (u_procs s) |>
    <| u_remap_locked := {[ x ]} ∪ u_remap_locked s |>
    <| u_mem ::= mem_copy (tier_of dst) off (tier_of (negb dst)) (pg_devdax_offset pg) HUGEPAGE_SIZE |>
    <| u_stats ::= counted_stats dst |>
    <| u_ipc := tail (u_ipc s) |>
    <| u_app ::= insert (pr_pid r, pg_va pg) (tier_of dst, off) |>
    <| u_pa_map ::= if dst then delete (pg_devdax_offset pg) else insert off x |>.

Lemma wp_ucm_migrate_one_page (Q : unit → ucm → Prop) :
  Q tt copied → wp (ucm_migrate_one_page p x dst off) Q started.
Proof using All.
  intros HQ. apply (wpx_until_ask (λ _, False)). unfold ask_application. apply wp_bind.
  eapply wp_ipc_remap_pages; [unfold asking; lookup_done|done|]. unfold asking. do 2 ucm_step.
  eapply (wp_relink _ _ _ _ _ dst) with (old := pg_devdax_offset pg);
    [lookup_done..|by rec_simpl|by unfold counted_move; rec_simpl
    |by unfold counted_move; rec_simpl|by unfold counted_move; rec_simpl|by unfold counted_move; rec_simpl|].
  revert HQ. unfold counted_move, copied, moved_page. ucm_norm.
  by destruct s, pg.
Qed.

(** The whole of [demote_one_page] and [promote_one_page]. *)
Lemma wp_move_one_page (Q : unit → ucm → Prop) :
  (∀ s', moved dst p x pg r off s s' → Q tt s') →
  wp ((if dst then promote_one_page writeprotect else demote_one_page writeprotect) p x off) Q s.
Proof using All.
  intros HQ.
  assert (∀ t t', t' = t <| u_remap_locked := u_remap_locked t ∖ {[x]} |> →
    moved dst p x pg r off s t' → x ∈ u_remap_locked t → wp (unlock_page x) Q t) as Hend.
  { intros t t' -> Ht Hx. unfold unlock_page, wp. rewrite decide_True by done. by apply HQ. }
  pose proof (wp_ucm_migrate_one_page (λ _ t, t = copied) eq_refl) as Hcopy.
  assert (∀ loc, wp (start_migration writeprotect p x loc) (λ _ t, t = started) s) as Hstart.
  { intros loc. by apply wp_start_migration. }
  assert (copied = copied) as Ecopied by done. unfold copied at 2 in Ecopied.
  generalize dependent copied. intros c Hcopy ->. clear Hcxl Hpam Hhh Hold Hnew. revert Hcopy.
  destruct dst; intros Hcopy.
  - unfold promote_one_page, ucm_migrate_up. wp_step. eapply wp_mono; [apply Hstart|]. intros [] ? ->.
    wp_step. eapply wp_mono; [apply Hcopy|]. intros [] ? ->. do 6 ucm_step. rec_simpl.
    wp_step. apply wp_assert; [done|]. do 2 ucm_step.
    change (pg_pt (moved_page _ _ _ _ pg)) with (pg_pt pg). rewrite Hpt. cbn [pt_to_pagesize].
    eapply Hend; [ucm_norm; reflexivity| |rec_simpl; set_solver]. split; rec_simpl;
      [rewrite moved_page_done; reflexivity|unfold moved_proc, moved_mm; reflexivity|reflexivity|reflexivity|reflexivity|reflexivity|reflexivity| |reflexivity|reflexivity].
    set_solver.
  - unfold demote_one_page, ucm_migrate_down. wp_step. eapply wp_mono; [apply Hstart|]. intros [] ? ->.
    wp_step. eapply wp_mono; [apply Hcopy|]. intros [] ? ->. do 6 ucm_step. rec_simpl.
    wp_step. apply wp_assert; [done|]. do 2 ucm_step.
    change (pg_pt (moved_page _ _ _ _ pg)) with (pg_pt pg). rewrite Hpt. cbn [pt_to_pagesize].
    eapply Hend; [ucm_norm; reflexivity| |rec_simpl; set_solver]. split; rec_simpl;
      [rewrite moved_page_done; reflexivity|unfold moved_proc, moved_mm; reflexivity|reflexivity|reflexivity|reflexivity|reflexivity|reflexivity| |reflexivity|reflexivity].
    set_solver.
Qed.
End move.

(** ** The invariant after an exchange of frames *)

(** The key [old] of [x] is deleted, or [x] is entered under the key [off]. *)
Lemma relink_lookup (m : gmap Z ptr) (dst : bool) old off x k y :
  (∀ k, m !! k = Some x → Some k = if dst then Some old else None) →
  m !! (if dst then old else off) = (if dst then Some x else None) →
  (if dst then delete old m else <[off := x]> m) !! k = Some y ↔
  y ≠ x ∧ m !! k = Some y ∨ y = x ∧ dst = false ∧ k = off.
Proof.
  intros Hback Hm. destruct dst.
  - rewrite lookup_delete_Some. split; [|naive_solver]. intros [Hk Hy]. left. split; [|done].
    intros ->. apply Hback in Hy. congruence.
  - rewrite lookup_insert_Some. split; [|naive_solver].
    intros [[<- <-]|[Hk Hy]]; [naive_solver|]. left. split; [|done].
    intros ->. by apply Hback in Hy.
Qed.

Section exchange.
Context (s : ucm) (A : list_id → list ptr) (R : ptr → ring_sel → list ptr) (HI : ucm_inv s A R None).
Context (p : ptr) (r : hemem_process) (Hr : u_procs s !! p = Some r) (Hfree : R p FreeRing = []).
Context (dst : bool) (i j : Z) (x np : ptr) (pg npg : hemem_page).
Context (Hx : x ∈ A (bin (negb dst) p i)) (Hnp : np ∈ A (free_list dst)).
Context (Hpg : u_pages s !! x = Some pg) (Hnpg : u_pages s !! np = Some npg).

(** The state after [x] has taken the frame of [np], and [np] the frame of [x]. *)
Record exchanged (A' : list_id → list ptr) (pg' npg' : hemem_page) (r' : hemem_process) (s' : ucm) :
    Prop := Exchanged {
  ex_dll : dll_ok (u_plist s') A';
  ex_shape : same_shape (u_plist s) (u_plist s');
  ex_other y l : y ≠ x → y ≠ np → y ∈ A' l ↔ y ∈ A l;
  ex_x : x ∈ A' (bin dst p j);
  ex_np : np ∈ A' (free_list (negb dst));
  ex_level : 0 ≤ j < NUM_HOTNESS_LEVELS;
  ex_pages : u_pages s' = <[np := npg']> (<[x := pg']> (u_pages s));
  ex_page : (pg_in_dram pg', pg_devdax_offset pg', pg_hh_pa pg', pg_hot pg') =
    (dst, pg_devdax_offset npg, if dst then None else Some (pg_devdax_offset npg), j);
  ex_entry : pg_pa_proc_entry pg' = entry_for p (pg_hh_pa pg');
  ex_page_keep :
    (pg_present pg', pg_pid pg', pg_va pg', pg_pt pg', pg_hh pg', pg_ring_present pg', pg_in_free_ring pg') =
    (pg_present pg, pg_pid pg, pg_va pg, pg_pt pg, pg_hh pg, pg_ring_present pg, pg_in_free_ring pg);
  ex_free : free_page (negb dst) npg';
  ex_free_frame : (pg_devdax_offset npg', pg_pt npg') = (pg_devdax_offset pg, pg_pt npg);
  ex_procs : u_procs s' = <[p := r']> (u_procs s);
  ex_proc : (pr_pid r', pr_phh r', mm_pages (pr_mm r')) = (pr_pid r, pr_phh r, mm_pages (pr_mm r));
  ex_rings sel : ring_of sel (pr_mm r') = ring_of sel (pr_mm r);
  ex_cxl : mm_cxl_offset_to_page (pr_mm r') =
    if dst then delete (pg_devdax_offset pg) (mm_cxl_offset_to_page (pr_mm r))
    else <[pg_devdax_offset npg := x]> (mm_cxl_offset_to_page (pr_mm r));
  ex_pa : u_pa_map s' = if dst then delete (pg_devdax_offset pg) (u_pa_map s)
    else <[pg_devdax_offset npg := x]> (u_pa_map s);
  ex_fastmem : mm_current_fastmem (pr_mm r') =
    u64 (if dst then mm_current_fastmem (pr_mm r) + HUGEPAGE_SIZE
         else mm_current_fastmem (pr_mm r) - HUGEPAGE_SIZE);
  ex_slowmem : mm_current_slowmem (pr_mm r') =
    u64 (if dst then mm_current_slowmem (pr_mm r) - HUGEPAGE_SIZE
         else mm_current_slowmem (pr_mm r) + HUGEPAGE_SIZE);
  ex_cool d y : cur_cool d (pr_mm r') = Some y → cur_cool d (pr_mm r) = Some y ∧ y ≠ x;
  ex_cool_list d : 0 ≤ cur_cool_list d (pr_mm r') < NUM_HOTNESS_LEVELS;
  ex_sizes : (u_fastmem_size s', u_slowmem_size s') = (u_fastmem_size s, u_slowmem_size s);
}.

Lemma exchange_used : used_page (u_pa_map s) (negb dst) p i r x pg.
Proof using HI Hr Hx Hpg. destruct (I_used HI Hx) as (?&?&?&?&?). by simplify_eq. Qed.

Lemma exchange_free : free_page dst npg.
Proof using HI Hnp Hnpg. destruct (I_free HI Hnp) as (?&?&?). by simplify_eq. Qed.

Lemma exchange_ne : x ≠ np.
Proof using HI Hx Hnp.
  intros E. apply (bin_free_disjoint _ _ (I_dll HI) (negb dst) dst p i x); [done|]. by rewrite E.
Qed.

(** No page of the process waits to be freed. *)
Lemma exchange_not_free q y : in_bins A p y → u_pages s !! y = Some q → pg_in_free_ring q = false.
Proof using HI Hr Hfree.
  intros Hy Hq. destruct (pg_in_free_ring q) eqn:E; [|done]. exfalso.
  assert (y ∈ R p FreeRing) as Hin by (apply (pi_free_ring _ _ _ _ _ _ (I_proc HI Hr)); eauto).
  rewrite Hfree in Hin. by apply not_elem_of_nil in Hin.
Qed.

(** The tables of the slow tier hold the page exactly when it is there. *)
Lemma exchange_tables :
  pg_hh_pa pg = (if dst then Some (pg_devdax_offset pg) else None) ∧
  mm_cxl_offset_to_page (pr_mm r) !! (if dst then pg_devdax_offset pg else pg_devdax_offset npg) =
    (if dst then Some x else None) ∧
  u_pa_map s !! (if dst then pg_devdax_offset pg else pg_devdax_offset npg) = if dst then Some x else None.
Proof using All.
  pose proof exchange_used as Hu.
  assert (pg_in_free_ring pg = false) as Hnf.
  { apply (exchange_not_free pg x); [|done]. exists (negb dst), i. split; [apply Hu|done]. }
  pose proof (up_hh_pa _ _ _ _ _ _ _ Hu) as Hhh. rewrite Hnf in Hhh.
  destruct dst; simpl in *; rewrite Hhh; (split; [done|]).
  - by apply (up_cxl _ _ _ _ _ _ _ Hu).
  - by apply (free_frame s A R None HI p r Hr false np npg).
Qed.

Context (A' : list_id → list ptr) (pg' npg' : hemem_page) (r' : hemem_process) (s' : ucm).
Context (HE : exchanged A' pg' npg' r' s').

Lemma exchange_tier d y : in_tier A' d p y ↔ in_tier A d p y ∧ y ≠ x ∨ y = x ∧ d = dst.
Proof using HI Hx Hnp HE.
  destruct (decide (y = np)) as [->|Hnpy].
  { pose proof exchange_ne. split; [intros Hy|intros [[Hy _]|[? _]]; [|congruence]]; exfalso.
    - eapply (in_bins_free _ _ (ex_dll _ _ _ _ _ HE) p); [by exists d|apply (ex_np _ _ _ _ _ HE)].
    - eapply (in_bins_free _ _ (I_dll HI) p); [by exists d|done]. }
  destruct (decide (y = x)) as [->|Hxy].
  - split; [intros (k&_&Hk); right|intros [[_ []]|[_ ->]]; [done|]].
    + by destruct (bins_unique _ _ (ex_dll _ _ _ _ _ HE) _ _ _ _ _ _ _ Hk (ex_x _ _ _ _ _ HE)) as (->&_).
    + exists j. split; [apply (ex_level _ _ _ _ _ HE)|apply (ex_x _ _ _ _ _ HE)].
  - unfold in_tier. setoid_rewrite (ex_other _ _ _ _ _ HE y); naive_solver.
Qed.

Lemma exchange_bins y : in_bins A' p y ↔ in_bins A p y.
Proof using HI Hx Hnp HE Hpg Hr.
  unfold in_bins. setoid_rewrite exchange_tier. destruct (decide (y = x)) as [->|?]; [|naive_solver].
  split; [intros _; exists (negb dst), i; split; [apply exchange_used|done]|].
  intros _. exists dst. by right.
Qed.

Lemma exchange_counts :
  bin_count A' dst p = bin_count A dst p + 1 ∧
  bin_count A (negb dst) p = bin_count A' (negb dst) p + 1.
Proof using HI Hx Hnp HE Hpg Hr.
  assert (in_tier A (negb dst) p x) as Hin by (exists i; split; [apply exchange_used|done]).
  assert (¬ in_tier A dst p x) as Hout.
  { intros (k&_&Hk). destruct (bins_unique _ _ (I_dll HI) _ _ _ _ _ _ _ Hk Hx) as (E&_).
    by destruct dst. }
  split; eapply bin_count_add; try apply HE; try apply HI; try done.
  - intros y. rewrite exchange_tier. destruct (decide (y = x)) as [->|?]; naive_solver.
  - rewrite exchange_tier. intros [[_ []]|[_ E]]; [done|]. by destruct dst.
  - intros y. rewrite exchange_tier. destruct (decide (y = x)) as [->|?]; [naive_solver|].
    destruct dst; naive_solver.
Qed.

Lemma exchange_lookup y : y ≠ x → y ≠ np → u_pages s' !! y = u_pages s !! y.
Proof using HE. intros ??. by rewrite (ex_pages _ _ _ _ _ HE), !lookup_insert_ne. Qed.

Lemma exchange_lookup_x : u_pages s' !! x = Some pg'.
Proof using HE HI Hx Hnp.
  pose proof exchange_ne. by rewrite (ex_pages _ _ _ _ _ HE), lookup_insert_ne, lookup_insert_eq.
Qed.

Lemma exchange_lookup_np : u_pages s' !! np = Some npg'.
Proof using HE. by rewrite (ex_pages _ _ _ _ _ HE), lookup_insert_eq. Qed.

(** The fields of a page of a process that the exchange keeps. *)
Lemma exchange_keep {T} (f : hemem_page → T) y q :
  f pg' = f pg → in_bins A p y → u_pages s !! y = Some q →
  ∃ q', u_pages s' !! y = Some q' ∧ f q' = f q.
Proof using HE HI Hx Hnp Hpg.
  intros Hf Hy Hq. destruct (decide (y = x)) as [->|Hyx].
  - exists pg'. rewrite exchange_lookup_x. split; [done|]. congruence.
  - exists q. rewrite exchange_lookup; [done..|]. intros ->.
    by eapply (in_bins_free _ _ (I_dll HI)).
Qed.

Lemma exchange_back {T} (f : hemem_page → T) y q' :
  f pg' = f pg → in_bins A p y → u_pages s' !! y = Some q' →
  ∃ q, u_pages s !! y = Some q ∧ f q' = f q.
Proof using HE HI Hx Hnp Hpg.
  intros Hf Hy Hq. destruct (decide (y = x)) as [->|Hyx].
  - exists pg. rewrite exchange_lookup_x in Hq. split; [done|]. congruence.
  - exists q'. rewrite exchange_lookup in Hq; [done..|]. intros ->.
    by eapply (in_bins_free _ _ (I_dll HI)).
Qed.

Lemma exchange_cxl k y : mm_cxl_offset_to_page (pr_mm r') !! k = Some y ↔
  y ≠ x ∧ mm_cxl_offset_to_page (pr_mm r) !! k = Some y ∨
  y = x ∧ dst = false ∧ k = pg_devdax_offset npg.
Proof using All.
  destruct exchange_tables as (Hhh&Hcxl&_). rewrite (ex_cxl _ _ _ _ _ HE). apply relink_lookup; [|done].
  intros k' (_&q&?&?)%(pi_cxl _ _ _ _ _ _ (I_proc HI Hr)). simplify_eq. congruence.
Qed.

Lemma exchange_pa_map k y : u_pa_map s' !! k = Some y ↔
  y ≠ x ∧ u_pa_map s !! k = Some y ∨ y = x ∧ dst = false ∧ k = pg_devdax_offset npg.
Proof using All.
  destruct exchange_tables as (Hhh&_&Hpam). rewrite (ex_pa _ _ _ _ _ HE). apply relink_lookup; [|done].
  intros k' (_&q&?&?)%(I_pa HI). simplify_eq. congruence.
Qed.

Lemma exchange_proc_inv : proc_inv (u_pages s') A' R None p r'.
Proof using All.
  pose proof (I_proc HI Hr) as HP. destruct exchange_counts as [Hc1 Hc2].
  pose proof (bin_count_range s A R None dst p HI) as Hb1.
  pose proof (bin_count_range s A R None (negb dst) p HI) as Hb2.
  assert (0 ≤ bin_count A' (negb dst) p) as Hb3 by (unfold bin_count; lia).
  pose proof (ex_proc _ _ _ _ _ HE) as Hp. injection Hp as Hpid Hphh Hpages.
  pose proof (ex_page_keep _ _ _ _ _ HE) as Hk. injection Hk as _ _ _ _ Ehh Erp Efr.
  pose proof (ex_page _ _ _ _ _ HE) as Hk. injection Hk as _ Eoff Epa _.
  unfold MAX_PAGES in *.
  split; rewrite ?Hpid, ?Hphh, ?Hpages.
  - apply HP.
  - intros Hs. rewrite (ex_fastmem _ _ _ _ _ HE), (pi_fastmem _ _ _ _ _ _ HP Hs).
    unfold HUGEPAGE_SIZE. destruct dst; simpl in *; rewrite u64_small; lia.
  - intros Hs. rewrite (ex_slowmem _ _ _ _ _ HE), (pi_slowmem _ _ _ _ _ _ HP Hs).
    unfold HUGEPAGE_SIZE. destruct dst; simpl in *; rewrite u64_small; lia.
  - intros k y (Hy&q&Hq&<-)%(pi_pages _ _ _ _ _ _ HP). rewrite exchange_bins. split; [done|].
    by apply exchange_keep.
  - intros k y. rewrite exchange_bins, exchange_cxl. intros [[Hyx Hy]|(->&E&->)].
    + apply (pi_cxl _ _ _ _ _ _ HP) in Hy as (Hb&q&Hq&Hk). split; [done|]. exists q. split; [|done].
      rewrite exchange_lookup; [done..|]. intros ->. by eapply (in_bins_free _ _ (I_dll HI)).
    + split; [exists (negb dst), i; split; [apply exchange_used|done]|].
      exists pg'. rewrite exchange_lookup_x. split; [done|]. by rewrite Epa, E.
  - intros sel. rewrite (ex_rings _ _ _ _ _ HE). apply HP.
  - intros y. rewrite (pi_free_ring _ _ _ _ _ _ HP), exchange_bins. split; intros (Hb&q&Hq&<-).
    + split; [done|]. by apply exchange_keep.
    + split; [done|]. destruct (exchange_back pg_in_free_ring y q) as (q'&?&?); eauto.
  - apply HP.
  - intros y ([Hb|[? _]]&q&Hq&<-)%(pi_requests _ _ _ _ _ _ HP); [|done]. rewrite exchange_bins.
    split; [by left|]. by apply exchange_keep.
  - apply HP.
  - intros d y [Hy Hyx]%(ex_cool _ _ _ _ _ HE). apply exchange_tier. left. split; [|done]. by apply HP.
  - apply HE.
Qed.

(** The two frames change hands; no other page has either. *)
Lemma exchange_frames y z q q' :
  u_pages s' !! y = Some q → u_pages s' !! z = Some q' → frame q = frame q' → y = z.
Proof using All.
  pose proof exchange_used as Hu. pose proof exchange_free as Hf.
  pose proof (ex_page _ _ _ _ _ HE) as Hk. injection Hk as Ed Eoff _ _.
  pose proof (ex_free_frame _ _ _ _ _ HE) as Hk. injection Hk as Eoff' _.
  set (swap y := if decide (y = x) then np else if decide (y = np) then x else y).
  assert (∀ y q, u_pages s' !! y = Some q →
    ∃ q0, u_pages s !! swap y = Some q0 ∧ frame q0 = frame q) as Hswap.
  { intros w qw Hw. unfold swap, frame. destruct (decide (w = x)) as [->|Hwx].
    - rewrite exchange_lookup_x in Hw. injection Hw as <-. exists npg. split; [done|].
      by rewrite Ed, Eoff, (fp_dram _ _ Hf).
    - destruct (decide (w = np)) as [->|Hwn].
      + rewrite exchange_lookup_np in Hw. injection Hw as <-. exists pg. split; [done|].
        by rewrite (fp_dram _ _ (ex_free _ _ _ _ _ HE)), Eoff', (up_dram _ _ _ _ _ _ _ Hu).
      + rewrite exchange_lookup in Hw by done. eauto. }
  intros (q0&Hy&<-)%Hswap (q1&Hz&<-)%Hswap Heq.
  pose proof (I_frames HI Hy Hz Heq) as Hsw. unfold swap in Hsw.
  repeat case_decide; congruence.
Qed.

Lemma exchange_phys y q :
  y = x ∨ y = np → u_pages s' !! y = Some q → phys_page (tier_size s' (pg_in_dram q)) q.
Proof using All.
  pose proof exchange_used as Hu. pose proof exchange_free as Hf.
  pose proof (ex_page _ _ _ _ _ HE) as Hk. injection Hk as Ed Eoff _ _.
  pose proof (ex_page_keep _ _ _ _ _ HE) as Hk. injection Hk as _ _ _ Ept _ _ _.
  pose proof (ex_free_frame _ _ _ _ _ HE) as Hk. injection Hk as Eoff' Ept'.
  assert (∀ d, tier_size s' d = tier_size s d) as Hsz.
  { pose proof (ex_sizes _ _ _ _ _ HE) as Hk. injection Hk as ??. by intros []. }
  pose proof (I_phys HI Hpg) as [F1 F2 F3 F4]. rewrite (up_dram _ _ _ _ _ _ _ Hu) in F4.
  pose proof (I_phys HI Hnpg) as [G1 G2 G3 G4]. rewrite (fp_dram _ _ Hf) in G4.
  intros [->| ->].
  - rewrite exchange_lookup_x. intros [= <-]. by split; rewrite ?Hsz, ?Ept, ?Eoff, ?Ed.
  - rewrite exchange_lookup_np. intros [= <-].
    split; rewrite ?Hsz, ?(fp_dram _ _ (ex_free _ _ _ _ _ HE)), ?Eoff', ?Ept'; done.
Qed.

Lemma exchange_used' : used_page (u_pa_map s') dst p j r' x pg'.
Proof using All.
  pose proof exchange_used as Hu.
  pose proof (exchange_not_free pg x) as Hnf.
  pose proof (ex_page _ _ _ _ _ HE) as Hk. injection Hk as Ed Eoff Epa Ehot.
  pose proof (ex_page_keep _ _ _ _ _ HE) as Hk. injection Hk as Epr Epid Eva _ Ehh _ Efr.
  pose proof (ex_proc _ _ _ _ _ HE) as Hp. injection Hp as Hpid _ Hpages.
  assert (pg_in_free_ring pg = false) as Hfr.
  { apply Hnf; [exists (negb dst), i; split; [apply Hu|done]|done]. }
  split; rewrite ?Ed, ?Epr, ?Epid, ?Eva, ?Ehh, ?Efr, ?Hpid, ?Hpages, ?Epa, ?Ehot, ?Eoff, ?Hfr.
  - done.
  - apply Hu.
  - apply Hu.
  - done.
  - apply HE.
  - apply Hu.
  - apply Hu.
  - by rewrite (up_hh _ _ _ _ _ _ _ Hu), Hfr.
  - by destruct dst.
  - by rewrite (ex_entry _ _ _ _ _ HE), Epa.
  - apply Hu.
  - intros k Hk. rewrite exchange_cxl, exchange_pa_map. destruct dst; [done|]. injection Hk as <-.
    split; by right.
Qed.

Lemma exchange_inv : ucm_inv s' A' R None.
Proof using All.
  pose proof exchange_ne as Hne. pose proof (ex_proc _ _ _ _ _ HE) as Hp. injection Hp as Hpid _ Hpages.
  pose proof (ex_sizes _ _ _ _ _ HE) as Hk. injection Hk as Hfs Hss.
  assert (in_bins A p x) as Hxb by (exists (negb dst), i; split; [apply exchange_used|done]).
  eapply (inv_change s s' A A' R R None p r r' {[x; np]}); try done; try apply HE.
  - by left.
  - rewrite (ex_pages _ _ _ _ _ HE), !dom_insert_lookup_L; [done|eauto..].
    rewrite lookup_insert_ne by done. eauto.
  - intros y Hy. apply exchange_lookup; set_solver.
  - intros y l Hy. apply HE; set_solver.
  - intros y q [->%elem_of_singleton| ->%elem_of_singleton]%elem_of_union Hq.
    + by eapply (in_bins_unique _ _ (I_dll HI)).
    + by destruct (in_bins_free _ _ (I_dll HI) q dst np).
  - intros y [->%elem_of_singleton| ->%elem_of_singleton]%elem_of_union.
    + exists pg'. split; [apply exchange_lookup_x|]. right. exists dst, j.
      split; [apply (ex_x _ _ _ _ _ HE)|apply exchange_used'].
    + exists npg'. split; [apply exchange_lookup_np|]. left. exists (negb dst).
      split; [apply (ex_np _ _ _ _ _ HE)|apply (ex_free _ _ _ _ _ HE)].
  - intros y q Hy. apply exchange_phys. set_solver.
  - intros y z q q'. apply exchange_frames.
  - intros k y _. by rewrite Hpages.
  - intros k y Hy. rewrite exchange_cxl. set_solver.
  - intros k y Hy. rewrite exchange_pa_map. set_solver.
  - intros k y HX. rewrite exchange_pa_map. intros [[Hyx Hy]|(->&E&->)].
    + apply (I_pa HI) in Hy as ((q&Hq)&_). exfalso. assert (y = np) as -> by set_solver.
      by eapply (in_bins_free _ _ (I_dll HI)).
    + rewrite exchange_bins. split; [done|]. exists pg'. split; [apply exchange_lookup_x|].
      pose proof (ex_page _ _ _ _ _ HE) as Hk. injection Hk as _ _ Epa _. by rewrite Epa, E.
  - apply exchange_proc_inv.
Qed.
End exchange.

#[global] Arguments ex_dll {s A p r dst j x np pg npg A' pg' npg' r' s'} _.
#[global] Arguments ex_level {s A p r dst j x np pg npg A' pg' npg' r' s'} _.
#[global] Arguments ex_page {s A p r dst j x np pg npg A' pg' npg' r' s'} _.
#[global] Arguments ex_page_keep {s A p r dst j x np pg npg A' pg' npg' r' s'} _.
#[global] Arguments ex_procs {s A p r dst j x np pg npg A' pg' npg' r' s'} _.
