(* ===== verification/MigrateRun.v ===== *)
(** * Migrating the pages of a process

    A round of [process_migrate_down_bytes] or [process_migrate_up_bytes]
    moves the first eligible page to a free frame of the other tier; the loop
    ends, within the bytes asked for and the rate, and says why it stopped. *)

From S2P Require Import Prelude Fifo Ring F64 ProcList Types Hotness Mm MmAsync Ucm Process Migrate Inv UcmWp AsyncOk TableOk AllocOk RequestOk ProcessOk MigrateOk.

(** ** What a migration preserves *)

(** The byte [o] of a page. *)
Definition byte (s : ucm) (pg : hemem_page) (o : Z) : Z :=
  u_mem s (tier_of (pg_in_dram pg)) (pg_devdax_offset pg + o).

(** The application maps every page of its own at the frame it is in. *)
Definition app_maps (s : ucm) (A : list_id → list ptr) : Prop :=
  ∀ q y pg r, in_bins A q y → u_pages s !! y = Some pg → pg_in_free_ring pg = false →
    u_procs s !! q = Some r →
    u_app s !! (pr_pid r, pg_va pg) = Some (tier_of (pg_in_dram pg), pg_devdax_offset pg).

Definition proc_fixed (r : hemem_process) :=
  (pr_pid r, pr_uffd r, pr_exited r, pr_valid_uffd r, pr_remap_fd r, pr_zero r,
   pr_process_clock r, pr_phh r, pr_policy r, mm_mem_allocated (pr_mm r),
   mm_max_fastmem (pr_mm r), mm_pages (pr_mm r)).

Definition surroundings (s : ucm) :=
  (u_pq s, u_proc_map s, u_scan_epoch s, u_remap_locked s,
   u_fastmem_size s, u_slowmem_size s, u_fastmem_ptr s, u_slowmem_ptr s).

(** [n] pages of [p] have moved to the tier [dst]. *)
Record migrated (dst : bool) (p : ptr) (n : Z) (s : ucm) (A : list_id → list ptr)
    (s' : ucm) (A' : list_id → list ptr) : Prop := Migrated {
  mg_bins q y : in_bins A' q y ↔ in_bins A q y;
  mg_others d q y : q ≠ p → in_tier A' d q y ↔ in_tier A d q y;
  mg_stay y : in_tier A dst p y → in_tier A' dst p y;
  mg_count : bin_count A' dst p = bin_count A dst p + n;
  mg_count' : bin_count A' (negb dst) p = bin_count A (negb dst) p - n;
  mg_free : Z.of_nat (length (A' (free_list dst))) = Z.of_nat (length (A (free_list dst))) - n;
  mg_free' : Z.of_nat (length (A' (free_list (negb dst)))) =
    Z.of_nat (length (A (free_list (negb dst)))) + n;
  mg_data q y pg : in_bins A q y → u_pages s !! y = Some pg → ∃ pg', u_pages s' !! y = Some pg' ∧
    (pg_va pg', pg_pid pg', pg_in_free_ring pg') = (pg_va pg, pg_pid pg, pg_in_free_ring pg) ∧
    ∀ o, 0 ≤ o < HUGEPAGE_SIZE → byte s' pg' o = byte s pg o;
  mg_app : app_maps s A → app_maps s' A';
  mg_proc q : proc_fixed <$> u_procs s' !! q = proc_fixed <$> u_procs s !! q;
  mg_rest : surroundings s' = surroundings s;
  mg_ipc : Forall good_reply (u_ipc s) → Forall good_reply (u_ipc s');
}.

Lemma migrated_refl dst p s A : migrated dst p 0 s A s A.
Proof. split; try done; try lia. intros q y pg _ Hy. by exists pg. Qed.

Lemma migrated_trans dst p n n' s1 A1 s2 A2 s3 A3 :
  migrated dst p n s1 A1 s2 A2 → migrated dst p n' s2 A2 s3 A3 →
  migrated dst p (n + n') s1 A1 s3 A3.
Proof.
  intros [B1 O1 S1 C1 C1' F1 F1' D1 P1 R1 T1 I1] [B2 O2 S2 C2 C2' F2 F2' D2 P2 R2 T2 I2].
  split; try lia; try congruence; auto.
  - intros q y. by rewrite B2.
  - intros d q y Hq. rewrite O2 by done. auto.
  - intros q y pg Hb Hy. destruct (D1 q y pg Hb Hy) as (pg1&Hy1&E1&M1).
    destruct (D2 q y pg1) as (pg2&Hy2&E2&M2); [by apply B1|done|].
    exists pg2. split; [done|]. split; [congruence|]. intros o Ho. rewrite M2; auto.
Qed.

(** ** The lists of an exchange *)
Lemma elem_of_upd_same (A : list_id → list ptr) l xs y l' :
  (y ∈ xs ↔ y ∈ A l) → y ∈ (<[l := xs]> A) l' ↔ y ∈ A l'.
Proof.
  intros Hy. destruct (decide (l = l')) as [<-|Hl].
  - by rewrite fn_lookup_insert.
  - by rewrite fn_lookup_insert_ne.
Qed.

Section swap_lists.
Context (A : list_id → list ptr) (p : ptr) (dst : bool) (i j : Z) (x np : ptr) (b a fb : list ptr).
Context (HA : A (bin (negb dst) p i) = b ++ x :: a) (HF : A (free_list dst) = fb ++ [np]).

(** [x] is taken from its list, [np] from the free list of the other tier. *)
Definition taken_lists : list_id → list ptr :=
  <[free_list dst := fb]> (<[bin (negb dst) p i := b ++ a]> A).
(** [x] is entered at level [j] of the other tier, [np] in the free list of the first. *)
Definition binned_lists : list_id → list ptr :=
  <[bin dst p j := x :: taken_lists (bin dst p j)]> taken_lists.
Definition swap_lists : list_id → list ptr :=
  <[free_list (negb dst) := np :: binned_lists (free_list (negb dst))]> binned_lists.

Lemma swap_other y l : y ≠ x → y ≠ np → y ∈ swap_lists l ↔ y ∈ A l.
Proof using HA HF.
  intros Hx Hnp. unfold swap_lists, binned_lists, taken_lists.
  rewrite elem_of_upd_same by set_solver. rewrite elem_of_upd_same by set_solver.
  rewrite elem_of_upd_same, elem_of_upd_same; [done|rewrite HA; set_solver|].
  rewrite fn_lookup_insert_ne by apply bin_not_free. rewrite HF. set_solver.
Qed.

Lemma swap_x : x ∈ swap_lists (bin dst p j).
Proof using Type.
  unfold swap_lists. rewrite fn_lookup_insert_ne by (intros E; by eapply bin_not_free).
  unfold binned_lists. rewrite fn_lookup_insert. constructor.
Qed.

Lemma swap_np : np ∈ swap_lists (free_list (negb dst)).
Proof using Type. unfold swap_lists. rewrite fn_lookup_insert. constructor. Qed.

Lemma swap_free :
  swap_lists (free_list dst) = fb ∧ swap_lists (free_list (negb dst)) = np :: A (free_list (negb dst)).
Proof using HA HF.
  assert (free_list (negb dst) ≠ free_list dst) as Hne by by destruct dst.
  unfold swap_lists, binned_lists, taken_lists. rewrite !fn_lookup_insert, fn_lookup_insert_ne by done.
  rewrite !(fn_lookup_insert_ne _ (bin dst p j)) by apply bin_not_free.
  rewrite fn_lookup_insert, fn_lookup_insert_ne by done.
  by rewrite fn_lookup_insert_ne by apply bin_not_free.
Qed.
End swap_lists.

(** ** One exchange *)
Section exchange_data.
Context (s : ucm) (A : list_id → list ptr) (R : ptr → ring_sel → list ptr) (HI : ucm_inv s A R None).
Context (p : ptr) (r : hemem_process) (Hr : u_procs s !! p = Some r) (Hfree : R p FreeRing = []).
Context (dst : bool) (i j : Z) (x np : ptr) (pg npg : hemem_page) (b a fb : list ptr).
Context (HA : A (bin (negb dst) p i) = b ++ x :: a) (HF : A (free_list dst) = fb ++ [np]).
Context (Hpg : u_pages s !! x = Some pg) (Hnpg : u_pages s !! np = Some npg).
Context (pg' npg' : hemem_page) (r' : hemem_process) (s' : ucm).
Notation A' := (swap_lists A p dst i j x np b a fb).
Context (HE : exchanged s A p r dst j x np pg npg A' pg' npg' r' s').
Context (Hmem : u_mem s' = mem_copy (tier_of dst) (pg_devdax_offset npg) (tier_of (negb dst))
  (pg_devdax_offset pg) HUGEPAGE_SIZE (u_mem s)).
Context (Happ : u_app s' =
  <[(pr_pid r, pg_va pg) := (tier_of dst, pg_devdax_offset npg)]> (u_app s)).
Context (Hipc : u_ipc s' = tail (u_ipc s)) (Hpf : proc_fixed r' = proc_fixed r).
Context (Hsur : surroundings s' = surroundings s).

Lemma exchange_mem_x : x ∈ A (bin (negb dst) p i).
Proof using HA. rewrite HA. apply elem_of_app. right. constructor. Qed.
Lemma exchange_mem_np : np ∈ A (free_list dst).
Proof using HF. rewrite HF. apply elem_of_app. right. constructor. Qed.

(** The page reads in its new frame as it did in the old one. *)
Lemma exchange_copied o : 0 ≤ o < HUGEPAGE_SIZE → byte s' pg' o = byte s pg o.
Proof using HI Hr Hpg HA HE Hmem.
  intros Ho. pose proof (exchange_used s A R HI p r Hr dst i x pg exchange_mem_x Hpg) as Hu.
  pose proof (ex_page HE) as Hk. injection Hk as Ed Eoff _ _.
  unfold byte. rewrite Ed, Eoff, Hmem, (up_dram _ _ _ _ _ _ _ Hu). unfold mem_copy.
  rewrite decide_True by (split; [done|lia]). f_equal. lia.
Qed.

(** No other page in use has a byte in the frame written. *)
Lemma exchange_untouched q y pgy o :
  in_bins A q y → u_pages s !! y = Some pgy → 0 ≤ o < HUGEPAGE_SIZE → byte s' pgy o = byte s pgy o.
Proof using HI HF Hnpg Hmem.
  intros Hb Hy Ho. pose proof (exchange_free s A R HI dst np npg exchange_mem_np Hnpg) as Hf.
  unfold byte. rewrite Hmem. unfold mem_copy. destruct (decide _) as [[Et Eo]|]; [|done]. exfalso.
  destruct (decide (np = y)) as [<-|Hny].
  { apply (in_bins_free _ _ (I_dll HI) q dst np Hb), exchange_mem_np. }
  eapply (frames_apart s A R None np y npg pgy (tier_of dst) (pg_devdax_offset pgy + o) HI); try done;
    unfold in_frame; rewrite ?(fp_dram _ _ Hf); (split; [done|lia]).
Qed.

Lemma exchange_app : app_maps s A → app_maps s' A'.
Proof using All.
  intros Hmaps q y pgy ry Hb Hy Hfr Hq.
  pose proof (exchange_ne s A R HI p dst i x np exchange_mem_x exchange_mem_np) as Hne.
  pose proof (exchange_used s A R HI p r Hr dst i x pg exchange_mem_x Hpg) as Hu.
  pose proof (exchange_inv s A R HI p r Hr Hfree dst i j x np pg npg exchange_mem_x exchange_mem_np Hpg Hnpg
    A' pg' npg' r' s' HE) as HI'.
  pose proof (ex_page HE) as Hk. injection Hk as Ed Eoff _ _.
  pose proof (ex_page_keep HE) as Hk. injection Hk as _ _ Eva _ Ehh _ _.
  pose proof (exchange_lookup_x s A R HI p r dst i j x np pg npg exchange_mem_x exchange_mem_np
    A' pg' npg' r' s' HE) as Hx'.
  pose proof (ex_procs HE) as Hprocs.
  unfold proc_fixed in Hpf.
  assert (pr_pid r' = pr_pid r) as Hpid by congruence.
  destruct (decide (y = x)) as [->|Hyx].
  { rewrite Hx' in Hy. injection Hy as <-.
    assert (q = p) as ->.
    { eapply (in_bins_unique _ _ (I_dll HI')); [done|]. exists dst, j.
      split; [apply (ex_level HE)|apply swap_x]. }
    rewrite Hprocs, lookup_insert_eq in Hq. injection Hq as <-.
    by rewrite Happ, Hpid, Eva, Ed, Eoff, lookup_insert_eq. }
  assert (y ≠ np) as Hyn.
  { intros ->. eapply (in_bins_free _ _ (I_dll HI') q); [done|apply swap_np]. }
  rewrite (exchange_lookup s A p r dst j x np pg npg A' pg' npg' r' s' HE) in Hy by done.
  assert (in_bins A q y) as Hb0.
  { destruct Hb as (d&k&Hk&Hb). exists d, k. split; [done|]. by apply swap_other in Hb. }
  assert (∃ r0, u_procs s !! q = Some r0 ∧ pr_pid ry = pr_pid r0) as (r0&Hr0&->).
  { rewrite Hprocs, lookup_insert in Hq. case_decide; [|eauto]. simplify_eq. eauto. }
  rewrite Happ, lookup_insert_ne; [by eapply Hmaps|].
  intros [= Ep Eva']. apply Hyx. assert (q = p) as -> by by eapply (I_pids HI).
  assert (r0 = r) as -> by congruence. destruct Hb0 as (d&k&_&Hb0).
  pose proof (used_here s A R None HI p y d k pgy r Hb0 Hy Hr) as Huy.
  pose proof (up_hh _ _ _ _ _ _ _ Huy) as E1. rewrite Hfr in E1.
  pose proof (up_hh _ _ _ _ _ _ _ Hu) as E2.
  rewrite (exchange_not_free s A R HI p r Hr Hfree pg x) in E2; [| |done].
  2:{ exists (negb dst), i. split; [apply Hu|apply exchange_mem_x]. }
  apply (up_pages _ _ _ _ _ _ _ Huy) in E1. apply (up_pages _ _ _ _ _ _ _ Hu) in E2. congruence.
Qed.

Lemma exchange_other_tier d q y : q ≠ p → in_tier A' d q y ↔ in_tier A d q y.
Proof using HI HA HF HE.
  intros Hq. assert (∀ k l, y ∈ A' l ∧ l = bin d q k ↔ y ∈ A l ∧ l = bin d q k) as Hk.
  { intros k l. destruct (decide (y = x)) as [->|Hyx].
    - split; intros [Hl ->]; exfalso; apply Hq.
      + by destruct (bins_unique _ _ (ex_dll HE) _ _ _ _ _ _ _ Hl (swap_x _ _ _ _ _ _ _ _ _ _)) as (_&->&_).
      + by destruct (bins_unique _ _ (I_dll HI) _ _ _ _ _ _ _ Hl exchange_mem_x) as (_&->&_).
    - destruct (decide (y = np)) as [->|Hyn]; [|by rewrite swap_other].
      split; intros [Hl ->]; exfalso.
      + eapply (bin_free_disjoint _ _ (ex_dll HE)); [done|apply swap_np].
      + eapply (bin_free_disjoint _ _ (I_dll HI)); [done|apply exchange_mem_np]. }
  split; intros (k&?&Hl); exists k; (split; [done|]); by apply (Hk k).
Qed.

Lemma exchange_contents q y pgy : in_bins A q y → u_pages s !! y = Some pgy → ∃ pgy', u_pages s' !! y = Some pgy' ∧
  (pg_va pgy', pg_pid pgy', pg_in_free_ring pgy') = (pg_va pgy, pg_pid pgy, pg_in_free_ring pgy) ∧
  ∀ o, 0 ≤ o < HUGEPAGE_SIZE → byte s' pgy' o = byte s pgy o.
Proof using All.
  intros Hb Hy. destruct (decide (y = x)) as [->|Hyx].
  - simplify_eq. exists pg'. split_and!; [| |apply exchange_copied].
    + by apply (exchange_lookup_x s A R HI p r dst i j x np pg npg exchange_mem_x exchange_mem_np
        A' pg' npg' r' s').
    + pose proof (ex_page_keep HE). congruence.
  - exists pgy. split_and!; [|done|intros o; by eapply exchange_untouched].
    rewrite (exchange_lookup s A p r dst j x np pg npg A' pg' npg' r' s' HE); [done..|].
    intros ->. by eapply (in_bins_free _ _ (I_dll HI)), exchange_mem_np.
Qed.

Lemma exchange_migrated : migrated dst p 1 s A s' A'.
Proof using All.
  pose proof exchange_mem_x as Hx. pose proof exchange_mem_np as Hnp.
  destruct (exchange_counts s A R HI p r Hr dst i j x np pg npg Hx Hnp Hpg A' pg' npg' r' s' HE) as [C1 C2].
  destruct (swap_free A p dst i j x np b a fb HA HF) as [F1 F2].
  split; try done.
  - intros q y. destruct (decide (q = p)) as [->|Hq].
    + apply (exchange_bins s A R HI p r Hr dst i j x np pg npg Hx Hnp Hpg A' pg' npg' r' s' HE).
    + unfold in_bins. by setoid_rewrite exchange_other_tier.
  - intros d q y. apply exchange_other_tier.
  - intros y Hy. apply (exchange_tier s A R HI p r dst i j x np pg npg Hx Hnp A' pg' npg' r' s' HE).
    destruct (decide (y = x)) as [->|?]; [by right|by left].
  - lia.
  - rewrite F1, HF, length_app. simpl. lia.
  - rewrite F2. simpl. lia.
  - intros q y pgy. apply exchange_contents.
  - apply exchange_app.
  - intros q. rewrite (ex_procs HE), lookup_insert. case_decide as E; [|done]. subst q.
    rewrite Hr. simpl. by rewrite Hpf.
  - intros Hg. rewrite Hipc. by destruct Hg.
Qed.
End exchange_data.

(** ** Dropping the bookmark *)

(** [r'] is [r] with no bookmark of tier [d] on [x]. *)
Record unmarked (d : bool) (x : ptr) (r r' : hemem_process) : Prop := Unmarked {
  um_fixed : proc_fixed r' = proc_fixed r;
  um_core : proc_core r' = proc_core r;
  um_stats : pr_stats r' = pr_stats r;
  um_rings sel : ring_of sel (pr_mm r') = ring_of sel (pr_mm r);
  um_cool d' y : cur_cool d' (pr_mm r') = Some y →
    cur_cool d' (pr_mm r) = Some y ∧ (d' = d → y ≠ x);
  um_list d' : 0 ≤ cur_cool_list d' (pr_mm r) < NUM_HOTNESS_LEVELS →
    0 ≤ cur_cool_list d' (pr_mm r') < NUM_HOTNESS_LEVELS;
}.

Lemma wp_reset_bookmark s d p x r pg (Q : unit → ucm → Prop) :
  u_procs s !! p = Some r → u_pages s !! x = Some pg → pg_in_dram pg = d →
  (∀ r', unmarked d x r r' → Q tt (s <| u_procs := <[p := r']> (u_procs s) |>)) →
  wp (reset_bookmark d p x) Q s.
Proof.
  intros Hr Hpg Hd HQ. unfold reset_bookmark. do 4 ucm_step.
  destruct (decide (cur_cool d (pr_mm r) = Some x)) as [E|E].
  - apply wp_when_true; [by apply bool_decide_eq_true|].
    wp_step. apply wp_assert; [rewrite Hd; by destruct d|]. do 3 ucm_step. ucm_norm.
    apply HQ. destruct d; rewrite ?Hd; (split; [done|done|done|by intros []| |]); intros [] ?; simpl; try done;
      unfold NUM_HOTNESS_LEVELS; lia.
  - apply wp_when_false; [by apply bool_decide_eq_false|].
    replace s with (s <| u_procs := <[p := r]> (u_procs s) |>).
    2:{ rewrite insert_id by done. by destruct s. }
    apply HQ. split; try done. intros d' y Hy. split; [done|]. intros -> ->. done.
Qed.

(** ** A page put back in its tier *)
Section put_back.
Context (s : ucm) (A : list_id → list ptr) (R : ptr → ring_sel → list ptr) (HI : ucm_inv s A R None).
Context (p : ptr) (r r' : hemem_process) (Hr : u_procs s !! p = Some r).
Context (d : bool) (i j : Z) (x : ptr) (pg pg' : hemem_page) (b a : list ptr).
Context (HA : A (bin d p i) = b ++ x :: a) (Hpg : u_pages s !! x = Some pg).
Context (Hr' : unmarked d x r r') (Hj : 0 ≤ j < NUM_HOTNESS_LEVELS).
Context (Hcore : page_core pg' = page_core pg) (Hrp : pg_ring_present pg' = pg_ring_present pg).
Context (Hhot : pg_hot pg' = j).
Notation A1 := (<[bin d p i := b ++ a]> A).
Notation A' := (<[bin d p j := x :: A1 (bin d p j)]> A1).
Context (s' : ucm) (Hpages : u_pages s' = <[x := pg']> (u_pages s)).
Context (Hprocs : u_procs s' = <[p := r']> (u_procs s)).
Context (Hdll : dll_ok (u_plist s') A') (Hsh : same_shape (u_plist s) (u_plist s')).
Context (Hrest : (u_pa_map s', u_mem s', u_app s', u_ipc s') = (u_pa_map s, u_mem s, u_app s, u_ipc s)).
Context (Hsur : surroundings s' = surroundings s).

Lemma put_other y l : y ≠ x → y ∈ A' l ↔ y ∈ A l.
Proof using HA.
  intros Hy. clear -HA Hy. rewrite elem_of_upd_same by (rewrite elem_of_cons; naive_solver).
  rewrite elem_of_upd_same; [done|]. rewrite HA, !elem_of_app, elem_of_cons. naive_solver.
Qed.

Lemma put_here : x ∈ A' (bin d p j).
Proof using Type. rewrite fn_lookup_insert. constructor. Qed.

Lemma put_from : x ∈ A (bin d p i).
Proof using HA. rewrite HA. apply elem_of_app. right. constructor. Qed.

Lemma put_settled : settled A A'.
Proof using HI HA Hr Hpg Hdll Hj.
  eapply (settled_moved _ _ _ _ d p x j (I_dll HI) Hdll); [|done|apply put_here|intros y l; apply put_other].
  exists i. split; [|apply put_from].
  by apply (used_here s A R None HI p x d i pg r put_from Hpg Hr).
Qed.

Lemma put_inv : ucm_inv s' A' R None.
Proof using All.
  unfold surroundings in Hsur.
  pose proof (I_proc HI Hr) as HP. destruct Hr' as [_ Uc _ Ur Uk Ul].
  eapply (inv_used s s' A A' R None p r r' x pg pg' d i j); try done; try congruence.
  - by left.
  - apply put_from.
  - intros d' y Hy. destruct (Uk d' y Hy) as [Hk _]. by apply HP.
  - intros d'. apply Ul, HP.
  - intros Hx. rewrite Hrp.
    destruct (pi_requests _ _ _ _ _ _ HP x Hx) as (_&q&Hq&?). congruence.
  - apply put_here.
  - intros y l. apply put_other.
Qed.

Lemma put_migrated dst : migrated dst p 0 s A s' A'.
Proof using All.
  destruct put_settled as [St Sf]. injection Hrest as Epa Emem Eapp Eipc.
  pose proof Hcore as Hc0. injection Hc0 as E1 E2 E3 E4 E5 E6 E7 E8 E9 E10.
  assert (∀ d, length (A' (free_list d)) = length (A (free_list d))) as Hlen.
  { intros d'. by rewrite !fn_lookup_insert_ne by apply bin_not_free. }
  assert (∀ d, bin_count A' d p = bin_count A d p) as Hcount.
  { intros d'. eapply bin_count_same; [apply (I_dll HI)|apply Hdll|]. intros y. apply St. }
  assert (∀ y q', u_pages s' !! y = Some q' → ∃ q, u_pages s !! y = Some q ∧ page_core q' = page_core q) as Hback.
  { intros y q'. rewrite Hpages, lookup_insert. case_decide as Ey; [|eauto]. intros [= <-]. subst y. eauto. }
  split; rewrite ?Hlen, ?Hcount; try lia; try done.
  - intros q y. unfold in_bins. by setoid_rewrite St.
  - intros y. apply St.
  - intros q y pgy Hb Hy. rewrite Hpages, lookup_insert. case_decide as E.
    + subst y. simplify_eq. exists pg'. split_and!; [done|congruence|].
      intros o _. unfold byte. by rewrite E1, E5, Emem.
    + exists pgy. split_and!; [done..|]. intros o _. unfold byte. by rewrite Emem.
  - intros Hm q y pgy ry [d' Hb] (q0&Hq0&Hc)%Hback Hfr Hq. unfold page_core in Hc.
    assert (∃ r0, u_procs s !! q = Some r0 ∧ pr_pid ry = pr_pid r0) as (r0&Hr0&->).
    { rewrite Hprocs, lookup_insert in Hq. case_decide; [|eauto]. simplify_eq. exists r. split; [done|].
      pose proof (um_core _ _ _ _ Hr') as Hcc. unfold proc_core in Hcc. congruence. }
    rewrite Eapp. replace (pg_va pgy) with (pg_va q0) by congruence.
    replace (pg_in_dram pgy) with (pg_in_dram q0) by congruence.
    replace (pg_devdax_offset pgy) with (pg_devdax_offset q0) by congruence.
    eapply (Hm q y); [exists d'; by apply St|done|congruence|done].
  - intros q. rewrite Hprocs, lookup_insert. case_decide as E; [|done]. subst q. rewrite Hr. simpl.
    by rewrite (um_fixed _ _ _ _ Hr').
  - by rewrite Eipc.
Qed.
End put_back.

(** ** One round *)
Lemma set_hot_same (pg : hemem_page) i : pg_hot pg = i → pg <| pg_hot := i |> = pg.
Proof. intros <-. by destruct pg. Qed.

Definition levels (dst : bool) : list Z :=
  if dst then reverse (seqZ PEBS_MIN_PROMOTION_TIER (NUM_HOTNESS_LEVELS - PEBS_MIN_PROMOTION_TIER))
  else seqZ 0 PEBS_MAX_DEMOTION_TIER.

Lemma levels_range dst i : i ∈ levels dst → 0 ≤ i < NUM_HOTNESS_LEVELS.
Proof.
  unfold levels, PEBS_MIN_PROMOTION_TIER, PEBS_MAX_DEMOTION_TIER.
  destruct dst; rewrite ?elem_of_reverse, elem_of_seqZ; unfold NUM_HOTNESS_LEVELS; lia.
Qed.

(** No page can be migrated to the tier [dst]: none is old enough, or there is
    no free frame. *)
Definition exhausted (dst : bool) (p : ptr) (s : ucm) (A : list_id → list ptr) : Prop :=
  (∀ i y, i ∈ levels dst → y ∈ A (bin (negb dst) p i) → ¬ eligible s y) ∨ A (free_list dst) = [].

(** The environment of a migration: the application answers, the tiers are
    mapped, and no page is locked. *)
Record ready (s : ucm) : Prop := Ready {
  rd_ipc : Forall good_reply (u_ipc s);
  rd_tiers : tiers_mapped s;
  rd_locks : u_remap_locked s = ∅;
}.

Section round.
Context (writeprotect : Z → Z → Z → bool → ioctl_result).
Context (Hwp : ∀ uffd va len b, writeprotect uffd va len b ≠ IOCTL_FAILED).
Context (s : ucm) (A : list_id → list ptr) (R : ptr → ring_sel → list ptr) (HI : ucm_inv s A R None).
Context (p : ptr) (r : hemem_process) (Hr : u_procs s !! p = Some r) (Hfree : R p FreeRing = []).
Context (Hready : ready s).

(** The page [x] has been picked, and the bookmark dropped. *)
Section picked_page.
Context (dst : bool) (i : Z) (x : ptr) (pg : hemem_page) (b a : list ptr).
Context (HA : A (bin (negb dst) p i) = b ++ x :: a) (Hpg : u_pages s !! x = Some pg).
Context (r2 : hemem_process) (Hr2 : unmarked (negb dst) x r r2) (h : page_lists list_id).
Context (Hdll : dll_ok h (<[bin (negb dst) p i := b ++ a]> A)) (Hsh : same_shape (u_plist s) h).
Context (Hdet : links h !! x = Some detached).
Notation s2 := (s <| u_plist := h |> <| u_procs := <[p := r2]> (u_procs s) |>).

Lemma picked_used : used_page (u_pa_map s) (negb dst) p i r x pg.
Proof using HI Hr HA Hpg. apply (used_here s A R None HI); [|done..]. rewrite HA. apply elem_of_app. right. constructor. Qed.

(** The lists are those of [s]. *)
Lemma picked_header h' l : same_shape h h' → is_Some (headers (u_plist s) !! l) → is_Some (headers h' !! l).
Proof using Hsh.
  intros [_ E'] H. destruct Hsh as [_ E]. apply elem_of_dom. rewrite E', E. by apply elem_of_dom.
Qed.

(** Put back at level [j]. *)
Lemma wp_put_back j pg' (Q : unit → ucm → Prop) s3 :
  0 ≤ j < NUM_HOTNESS_LEVELS → page_core pg' = page_core pg →
  pg_ring_present pg' = pg_ring_present pg → pg_hot pg' = j →
  s3 = s2 <| u_pages := <[x := pg']> (u_pages s) |> →
  (∀ s' A', ucm_inv s' A' R None → migrated dst p 0 s A s' A' → Q tt s') →
  wp (zoom u_plist (enqueue_page (bin (negb dst) p j) x)) Q s3.
Proof using HI Hr HA Hpg Hr2 Hdll Hsh Hdet.
  intros Hj Hcore Hrp Hhot -> HQ.
  eapply (wp_zoom_enqueue (<[bin (negb dst) p i := b ++ a]> A)); rec_simpl; [done| |done|].
  { apply picked_header; [done|]. eapply inv_bin_header; [done|eauto|lia]. }
  intros h' Hdll' Hsh'. eapply HQ.
  - eapply (put_inv s A R HI p r r2 Hr (negb dst) i j x pg pg' b a); try done.
    rec_simpl. by eapply same_shape_trans.
  - eapply (put_migrated s A R HI p r r2 Hr (negb dst) i j x pg pg' b a); try done.
    rec_simpl. by eapply same_shape_trans.
Qed.

(** A free page [np] of the other tier has been taken as well. *)
Context (np : ptr) (npg : hemem_page) (fb : list ptr) (h3 : page_lists list_id).
Context (HF : A (free_list dst) = fb ++ [np]) (Hnpg : u_pages s !! np = Some npg).
Context (Hdll3 : dll_ok h3 (taken_lists A p dst i b a fb)) (Hsh3 : same_shape h h3).
Context (Hdet3 : links h3 !! np = Some detached).
Notation s3 := (s2 <| u_plist := h3 |>).

Lemma picked_in : x ∈ A (bin (negb dst) p i).
Proof using HA. rewrite HA. apply elem_of_app. right. constructor. Qed.
Lemma picked_np_in : np ∈ A (free_list dst).
Proof using HF. rewrite HF. apply elem_of_app. right. constructor. Qed.

Lemma picked_free : free_page dst npg.
Proof using HI HF Hnpg. apply (exchange_free s A R HI dst np npg); [apply picked_np_in|done]. Qed.

Lemma picked_ne : x ≠ np.
Proof using HI HA HF.
  apply (exchange_ne s A R HI p dst i); [apply picked_in|apply picked_np_in].
Qed.

Lemma picked_x_out l : x ∉ taken_lists A p dst i b a fb l.
Proof using Hdll Hdet HF.
  unfold taken_lists. intros Hin. destruct (decide (free_list dst = l)) as [<-|Hl].
  - rewrite fn_lookup_insert in Hin. apply (dll_fresh _ _ x Hdll Hdet (free_list dst)).
    rewrite fn_lookup_insert_ne by apply bin_not_free. rewrite HF. apply elem_of_app. by left.
  - rewrite fn_lookup_insert_ne in Hin by done. by apply (dll_fresh _ _ x Hdll Hdet l).
Qed.

Definition recycled (npg : hemem_page) : hemem_page :=
  npg <| pg_devdax_offset := pg_devdax_offset pg |> <| pg_in_dram := negb dst |>
      <| pg_present := false |>.

Lemma wp_check_free l l' (Q : unit → ucm → Prop) : Q tt s3 → wp (check_free l l' np) Q s3.
Proof using HI HF Hnpg.
  intros HQ. pose proof picked_free as Hf. unfold check_free. do 2 ucm_step.
  wp_step. apply wp_assert; [by rewrite (fp_present _ _ Hf)|].
  apply wp_assert; [by rewrite (fp_pid _ _ Hf)|done].
Qed.

(** The page is still in the table of its process. *)
Lemma wp_picked_find (Q : option ptr → ucm → Prop) :
  Q (Some x) s3 → wp (mm_find_page p (pg_va pg)) Q s3.
Proof using HI Hr Hfree HA Hpg Hr2.
  intros HQ. pose proof picked_used as Hu.
  pose proof (um_core _ _ _ _ Hr2) as Hc. injection Hc as _ _ _ _ C5 _.
  unfold mm_find_page. do 2 ucm_step. rewrite C5. apply wp_HASH_FIND.
  - intros y (d&k&pgy&_&Hy&_&Hva&_)%(table_page s A R None HI p r Hr). eauto.
  - rewrite (up_pages _ _ _ _ _ _ _ Hu (pg_va pg)); [done|].
    rewrite (up_hh _ _ _ _ _ _ _ Hu), (exchange_not_free s A R HI p r Hr Hfree pg x); [done| |done].
    exists (negb dst), i. split; [apply Hu|apply picked_in].
Qed.

Lemma wp_picked_move (Q : unit → ucm → Prop) :
  (∀ s4, moved dst p x pg r2 (pg_devdax_offset npg) s3 s4 → Q tt s4) →
  wp ((if dst then promote_one_page writeprotect else demote_one_page writeprotect)
    p x (pg_devdax_offset npg)) Q s3.
Proof using All.
  intros HQ. pose proof picked_used as Hu. pose proof picked_free as Hf.
  pose proof (um_core _ _ _ _ Hr2) as Hc. injection Hc as C1 C2 C3 C4 C5 C6.
  destruct (exchange_tables s A R HI p r Hr Hfree dst i i x np pg npg picked_in picked_np_in Hpg Hnpg)
    as (Ehh&Ecxl&Epa).
  destruct (I_phys HI Hpg) as [Pt P1 P2 P3]. rewrite (up_dram _ _ _ _ _ _ _ Hu) in P3.
  destruct (I_phys HI Hnpg) as [_ N1 N2 N3]. rewrite (fp_dram _ _ Hf) in N3.
  destruct Hready as [Hipc Htiers Hlocks].
  apply (wp_move_one_page writeprotect Hwp s3 p r2) with (pg := pg); rec_simpl; try done; try apply Hu.
  - apply lookup_insert_eq.
  - rewrite C1. apply Hu.
  - rewrite Hlocks. set_solver.
  - apply (I_sizes HI).
  - by rewrite C6.
Qed.

Lemma wp_recycle s' (Q : unit → ucm → Prop) :
  u_pages s' !! np = Some npg →
  Q tt (s' <| u_pages := <[np := recycled npg]> (u_pages s') |>) →
  wp (recycle_frame (negb dst) np (pg_devdax_offset pg)) Q s'.
Proof using HI HF Hnpg.
  intros Hs' HQ. pose proof picked_free as Hf. unfold recycle_frame. do 4 ucm_step. rec_simpl.
  rewrite (fp_hot _ _ Hf), (fp_accesses _ _ Hf), (fp_tot_accesses _ _ Hf).
  wp_step. apply wp_assert; [done|]. wp_step. apply wp_assert; [done|]. by apply wp_assert.
Qed.

Context (j : Z) (Hj : 0 ≤ j < NUM_HOTNESS_LEVELS) (s4 : ucm).
Context (Hmv : moved dst p x pg r2 (pg_devdax_offset npg) s3 s4).
Notation pg' := ((moved_page dst (pg_devdax_offset npg) (u_scan_epoch s) p pg) <| pg_hot := j |>).
Notation r' := (moved_proc dst (pg_devdax_offset pg) (pg_devdax_offset npg) x r2).
Notation A' := (swap_lists A p dst i j x np b a fb).

Lemma moved_exchanged h' :
  dll_ok h' A' → same_shape h3 h' →
  exchanged s A p r dst j x np pg npg A' pg' (recycled npg) r'
    (s4 <| u_pages := <[np := recycled npg]> (<[x := pg']> (u_pages s)) |> <| u_plist := h' |>).
Proof using All.
  intros Hdll' Hsh'. pose proof picked_used as Hu. pose proof picked_free as Hf.
  pose proof (um_core _ _ _ _ Hr2) as Hc. injection Hc as C1 C2 C3 C4 C5 C6.
  pose proof (I_proc HI Hr) as HP. destruct Hmv as [_ M2 _ M4 _ _ _ _ _ M10].
  injection M10 as M11 M12 _ _.
  split; rec_simpl.
  - done.
  - eapply same_shape_trans; [|done]. by eapply same_shape_trans.
  - intros y l. by apply swap_other.
  - apply swap_x.
  - apply swap_np.
  - done.
  - done.
  - done.
  - done.
  - done.
  - destruct Hf. by split.
  - done.
  - rewrite M2. rec_simpl. by rewrite insert_insert_eq.
  - unfold moved_proc, moved_mm. rec_simpl. congruence.
  - intros sel. rewrite <- (um_rings _ _ _ _ Hr2). by destruct sel.
  - unfold moved_proc, moved_mm. rec_simpl. rewrite C6. by destruct dst.
  - rewrite M4. rec_simpl. by destruct dst.
  - unfold moved_proc, moved_mm. rec_simpl. rewrite C3. by destruct dst.
  - unfold moved_proc, moved_mm. rec_simpl. rewrite C4. by destruct dst.
  - intros d y Hy.
    assert (cur_cool d (pr_mm r2) = Some y) as Hy2 by (revert Hy; by destruct d).
    destruct (um_cool _ _ _ _ Hr2 d y Hy2) as [Hk Hne]. split; [done|]. intros ->.
    destruct (decide (d = negb dst)) as [->|Hd]; [by apply Hne|].
    destruct (pi_cur_cool _ _ _ _ _ _ HP d x Hk) as (k&_&Hin).
    destruct (bins_unique _ _ (I_dll HI) d (negb dst) p p k i x) as (?&_); [done| |done].
    rewrite HA. apply elem_of_app. right. constructor.
  - intros d. pose proof (um_list _ _ _ _ Hr2 d (pi_cur_cool_list _ _ _ _ _ _ HP d)). by destruct d.
  - congruence.
Qed.

Definition return_free (d : bool) : ptr → M ucm unit :=
  if d then return_free_fastmem_page else return_free_slowmem_page.

Lemma wp_return_other d y s' (Q : unit → ucm → Prop) pgy :
  u_pages s' !! y = Some pgy → pg_present pgy = false →
  wp (zoom u_plist (enqueue_page (free_list d) y)) Q s' → wp (return_free d y) Q s'.
Proof using Type.
  intros Hy Hpr HQ. destruct d; unfold return_free, return_free_fastmem_page, return_free_slowmem_page;
    do 2 ucm_step; wp_step; (apply wp_assert; [by rewrite Hpr|done]).
Qed.

Lemma detached_outside (h' : page_lists list_id) B y :
  dll_ok h' B → dom (links h') = dom (links (u_plist s)) → is_Some (u_pages s !! y) →
  (∀ l, y ∉ B l) → links h' !! y = Some detached.
Proof using HI.
  intros Hok Hdom Hy Hout. apply elem_of_dom in Hy. rewrite <- (I_dom HI), <- Hdom in Hy.
  apply elem_of_dom in Hy as [n Hn]. rewrite Hn. f_equal. by apply (dll_other Hok Hn).
Qed.

Lemma wp_finish {T} (m : M ucm T) (Q : T → ucm → Prop) :
  (∀ s', ucm_inv s' A' R None → migrated dst p 1 s A s' A' → wp m Q s') →
  wp (zoom u_plist (enqueue_page (bin dst p j) x);; return_free (negb dst) np;; m) Q
    (s4 <| u_pages := <[np := recycled npg]> (<[x := pg']> (u_pages s)) |>).
Proof using All.
  intros HQ. pose proof picked_ne as Hne. pose proof (mv_plist _ _ _ _ _ _ _ _ Hmv) as Hpl. rec_simpl_in Hpl.
  assert (∀ l, is_Some (headers (u_plist s) !! l) → is_Some (headers h3 !! l)) as Hhd.
  { intros l. by apply picked_header. }
  assert (dom (links h3) = dom (links (u_plist s))) as Hdom3.
  { destruct Hsh3 as [-> _]. apply Hsh. }
  wp_step. eapply (wp_zoom_enqueue (taken_lists A p dst i b a fb)); rec_simpl; rewrite ?Hpl; [done|..].
  { apply Hhd. eapply inv_bin_header; [done|eauto|lia]. }
  { eapply (detached_outside _ _ x Hdll3); [done|eauto|apply picked_x_out]. }
  intros h4 Hdll4 Hsh4.
  wp_step. eapply wp_return_other; [lookup_done|done|].
  eapply (wp_zoom_enqueue (binned_lists A p dst i j x b a fb)); rec_simpl; [done|..].
  { destruct Hsh4 as [_ E]. apply elem_of_dom. rewrite E. apply elem_of_dom, Hhd.
    eapply inv_free_header, HI. }
  { eapply (detached_outside _ _ np Hdll4); [destruct Hsh4 as [-> _]; done|eauto|].
    intros l Hin. unfold binned_lists in Hin. destruct (decide (bin dst p j = l)) as [<-|Hl].
    - rewrite fn_lookup_insert in Hin. apply elem_of_cons in Hin as [?|Hin]; [congruence|].
      by apply (dll_fresh _ _ np Hdll3 Hdet3 (bin dst p j)).
    - rewrite fn_lookup_insert_ne in Hin by done. by apply (dll_fresh _ _ np Hdll3 Hdet3 l). }
  intros h5 Hdll5 Hsh5.
  pose proof (moved_exchanged h5 Hdll5 (same_shape_trans _ _ _ Hsh4 Hsh5)) as HE.
  upd_merge. pose proof Hmv as [_ _ _ _ Mmem Mapp Mipc Mlk Mrest Mtiers].
  pose proof picked_in as Hxin. pose proof picked_np_in as Hnpin.
  pose proof (um_fixed _ _ _ _ Hr2) as Hfx. unfold proc_fixed in Hfx. apply HQ.
  - eapply (exchange_inv s A R HI p r Hr Hfree dst i j x np pg npg); done.
  - eapply (exchange_migrated s A R HI p r Hr Hfree dst i j x np pg npg); try done; rec_simpl.
    + rewrite Mapp. rec_simpl. congruence.
    + unfold surroundings. rec_simpl. rec_simpl_in Mlk. rec_simpl_in Mrest. rec_simpl_in Mtiers. congruence.
Qed.
End picked_page.

Definition round_result (dst : bool) (bytes m : Z) (res : Z + Z) (s' : ucm) : Prop :=
  match res with
  | inl m' => m' = m + HUGEPAGE_SIZE ∧ m < bytes ∧ m < PEBS_MIGRATE_RATE ∧
      ∃ A', ucm_inv s' A' R None ∧ migrated dst p 1 s A s' A'
  | inr m' => m' = m ∧ (bytes ≤ m ∨ PEBS_MIGRATE_RATE ≤ m ∨ exhausted dst p s A) ∧
      ∃ A', ucm_inv s' A' R None ∧ migrated dst p 0 s A s' A'
  end.

Lemma round_stop dst bytes m :
  bytes ≤ m ∨ PEBS_MIGRATE_RATE ≤ m ∨ exhausted dst p s A → round_result dst bytes m (inr m) s.
Proof using HI. intros Hstop. split; [done|]. split; [done|]. exists A. split; [done|apply migrated_refl]. Qed.

Lemma wp_migrate_down_body bytes m :
  0 ≤ m → wp (migrate_down_body writeprotect p bytes m) (round_result false bytes m) s.
Proof using All.
  intros Hm. unfold migrate_down_body.
  destruct (Z.ltb_spec m bytes) as [Hb|Hb]; simpl; [|wp_step; apply round_stop; by left].
  destruct (Z.leb_spec PEBS_MIGRATE_RATE m) as [Hra|Hra]; [wp_step; apply round_stop; by right; left|].
  wp_step. unfold find_demotion_candidate, find_coldest_fastmem_page, ucm_get_curr_epoch. do 2 wp_step.
  eapply wp_mono; [apply (wp_scan_lists s A R HI p r Hr true); apply (levels_range false)|].
  intros [x|] s1.
  2:{ intros [-> Hno]. wp_step. apply round_stop. by right; right; left. }
  intros (js1&i&js2&Hjs&(b&a&h&HA&(pg&Hpg&He)&_&->&Hdll&Hsh&Hdet)&_). cbn [bin] in *.
  change (FastBin p i) with (bin (negb false) p i) in *.
  pose proof (picked_used false i x pg b a HA Hpg) as Hu.
  do 4 ucm_step. rec_simpl.
  wp_step. apply wp_assert; [apply Z.eqb_eq, Hu|].
  wp_step. apply wp_assert; [apply negb_true_iff, Z.eqb_neq, Hu|].
  wp_step. eapply (wp_reset_bookmark _ true p x r pg); [done|done|apply Hu|]. intros r2 Hr2. rec_simpl.
  wp_step. unfold get_free_slowmem_page. change SlowFree with (free_list false).
  eapply (wp_zoom_dequeue (<[bin (negb false) p i := b ++ a]> A)); rec_simpl; [done|..].
  { apply (picked_header h Hsh); [done|]. eapply (inv_free_header _ _ _ _ false), HI. }
  { intros HF. rewrite fn_lookup_insert_ne in HF by apply bin_not_free.
    wp_step. eapply (wp_put_back false i x pg b a HA Hpg r2 Hr2 h Hdll Hsh Hdet (pg_hot pg) pg); try done.
    - rewrite (up_hot _ _ _ _ _ _ _ Hu). apply Hu.
    - rewrite (insert_id (u_pages s) x pg) by done. by destruct s.
    - intros s' A' HI' Hmg. wp_step. split; [done|]. split; [by right; right; right|]. eauto. }
  intros h3 fb np HF Hdll3 Hsh3 Hdet3.
  rewrite fn_lookup_insert_ne in HF by apply bin_not_free.
  destruct (I_free HI (d:=false) (x:=np)) as (npg&Hnpg&Hnf); [rewrite HF; set_solver|].
  pose proof (picked_ne false i x b a HA np fb HF) as Hne.
  wp_step. eapply (wp_check_free false); [done..|].
  wp_step. eapply (wp_picked_find false i x pg b a HA Hpg); [done|].
  do 2 ucm_step.
  wp_step. eapply (wp_picked_move false i x pg b a HA Hpg r2 Hr2 h Hdll Hsh Hdet np npg fb h3 HF Hnpg Hdll3 Hsh3 Hdet3).
  intros s4 Hmv. pose proof (mv_pages _ _ _ _ _ _ _ _ Hmv) as Hpages4. rec_simpl_in Hpages4.
  wp_step. eapply (wp_recycle false pg np npg fb HF Hnpg).
  { by rewrite Hpages4, lookup_insert_ne. }
  rewrite Hpages4. do 2 ucm_step.
  change (pg_hot (moved_page _ _ _ _ pg)) with (pg_hot pg).
  change (pg_pt (moved_page _ _ _ _ pg)) with (pg_pt pg).
  rewrite (up_hot _ _ _ _ _ _ _ Hu), (pp_pt _ _ (I_phys HI Hpg)). cbn [pt_to_pagesize].
  rewrite <- (set_hot_same (moved_page false _ _ p pg) i) by apply Hu.
  eapply (wp_finish false i x pg b a HA Hpg r2 Hr2 h Hdll Hsh Hdet np npg fb h3 HF Hnpg Hdll3 Hsh3 Hdet3 i).
  - apply Hu.
  - done.
  - intros s' HI' Hmg. wp_step. split; [|by eauto 10].
    apply u64_small. revert Hm Hra. unfold PEBS_MIGRATE_RATE, HUGEPAGE_SIZE. lia.
Qed.

Lemma wp_migrate_up_body bytes m :
  0 ≤ m → wp (migrate_up_body writeprotect p bytes m) (round_result true bytes m) s.
Proof using All.
  intros Hm. unfold migrate_up_body.
  destruct (Z.ltb_spec m bytes) as [Hb|Hb]; simpl; [|wp_step; apply round_stop; by left].
  destruct (Z.leb_spec PEBS_MIGRATE_RATE m) as [Hra|Hra]; [wp_step; apply round_stop; by right; left|].
  wp_step. unfold find_promotion_candidate, find_hottest_slowmem_page, ucm_get_curr_epoch. do 2 wp_step.
  eapply wp_mono; [apply (wp_scan_lists s A R HI p r Hr false); apply (levels_range true)|].
  intros [x|] s1.
  2:{ intros [-> Hno]. wp_step. apply round_stop. by right; right; left. }
  intros (js1&i&js2&Hjs&(b&a&h&HA&(pg&Hpg&He)&_&->&Hdll&Hsh&Hdet)&_). cbn [bin] in *.
  change (SlowBin p i) with (bin (negb true) p i) in *.
  pose proof (picked_used true i x pg b a HA Hpg) as Hu.
  wp_step. eapply (wp_reset_bookmark _ false p x r pg); [done|done|apply Hu|]. intros r2 Hr2. rec_simpl.
  do 4 ucm_step. pose proof (um_core _ _ _ _ Hr2) as Hc. injection Hc as C1 _ _ _ _ _. rewrite C1.
  wp_step. apply wp_assert; [apply Z.eqb_eq, Hu|].
  wp_step. apply wp_assert; [apply negb_true_iff, Z.eqb_neq, Hu|]. cbv zeta.
  set (j := decayed_index (pr_process_clock r2) pg).
  assert (0 ≤ j < NUM_HOTNESS_LEVELS) as Hj by apply decayed_index_range.
  wp_step. unfold get_free_fastmem_page. change FastFree with (free_list true).
  eapply (wp_zoom_dequeue (<[bin (negb true) p i := b ++ a]> A)); rec_simpl; [done|..].
  { apply (picked_header h Hsh); [done|]. eapply (inv_free_header _ _ _ _ true), HI. }
  { intros HF. rewrite fn_lookup_insert_ne in HF by apply bin_not_free. do 2 ucm_step. wp_step.
    eapply (wp_put_back true i x pg b a HA Hpg r2 Hr2 h Hdll Hsh Hdet j (pg <| pg_hot := j |>)); try done.
    intros s' A' HI' Hmg. wp_step. split; [done|]. split; [by right; right; right|]. eauto. }
  intros h3 fb np HF Hdll3 Hsh3 Hdet3.
  rewrite fn_lookup_insert_ne in HF by apply bin_not_free.
  destruct (I_free HI (d:=true) (x:=np)) as (npg&Hnpg&Hnf); [rewrite HF; set_solver|].
  pose proof (picked_ne true i x b a HA np fb HF) as Hne.
  wp_step. eapply (wp_check_free true); [done..|].
  wp_step. eapply (wp_picked_find true i x pg b a HA Hpg); [done|].
  do 2 ucm_step.
  wp_step. eapply (wp_picked_move true i x pg b a HA Hpg r2 Hr2 h Hdll Hsh Hdet np npg fb h3 HF Hnpg Hdll3 Hsh3 Hdet3).
  intros s4 Hmv. pose proof (mv_pages _ _ _ _ _ _ _ _ Hmv) as Hpages4. rec_simpl_in Hpages4.
  wp_step. eapply (wp_recycle true pg np npg fb HF Hnpg).
  { by rewrite Hpages4, lookup_insert_ne. }
  rewrite Hpages4. do 2 ucm_step. upd_merge.
  rewrite (pp_pt _ _ (I_phys HI Hpg)). cbn [pt_to_pagesize].
  rec_simpl. rewrite (insert_insert_ne _ x np) by done. rewrite insert_insert_eq.
  eapply (wp_finish true i x pg b a HA Hpg r2 Hr2 h Hdll Hsh Hdet np npg fb h3 HF Hnpg Hdll3 Hsh3 Hdet3 j);
    [done..|].
  intros s' HI' Hmg. wp_step. split; [|by eauto 10].
  apply u64_small. revert Hm Hra. unfold PEBS_MIGRATE_RATE, HUGEPAGE_SIZE. lia.
Qed.
End round.

(** ** The loops *)
Lemma migrated_ready dst p n s A s' A' : migrated dst p n s A s' A' → ready s → ready s'.
Proof.
  intros Hmg [Hipc Ht Hl]. pose proof (mg_rest _ _ _ _ _ _ _ Hmg) as Hs. unfold surroundings in Hs.
  split; [by apply (mg_ipc _ _ _ _ _ _ _ Hmg)| |congruence].
  unfold tiers_mapped in *. by replace (u_fastmem_ptr s') with (u_fastmem_ptr s) by congruence;
    replace (u_slowmem_ptr s') with (u_slowmem_ptr s) by congruence.
Qed.

Section loops.
Context (writeprotect : Z → Z → Z → bool → ioctl_result).
Context (Hwp : ∀ uffd va len b, writeprotect uffd va len b ≠ IOCTL_FAILED).
Context (s : ucm) (A : list_id → list ptr) (R : ptr → ring_sel → list ptr) (HI : ucm_inv s A R None).
Context (p : ptr) (Hp : is_Some (u_procs s !! p)) (Hfree : R p FreeRing = []).
Context (Hready : ready s).

(** [res] bytes have been migrated: no more than a page beyond what was asked,
    no more than the rate, and less only when nothing more can be migrated. *)
Record migration_result (dst : bool) (bytes res : Z) (s' : ucm) : Prop := MigrationResult {
  mr_moved : ∃ A' n, res = n * HUGEPAGE_SIZE ∧ 0 ≤ n ∧ ucm_inv s' A' R None ∧
    migrated dst p n s A s' A' ∧
    (bytes ≤ res ∨ PEBS_MIGRATE_RATE ≤ res ∨
     ∃ s1 A1, migrated dst p n s A s1 A1 ∧ exhausted dst p s1 A1);
  mr_asked : res = 0 ∨ res < bytes + HUGEPAGE_SIZE;
  mr_rate : res ≤ PEBS_MIGRATE_RATE;
}.

Lemma wp_migrate_loop dst bytes body :
  (∀ s1 A1 r1 m, ucm_inv s1 A1 R None → u_procs s1 !! p = Some r1 → ready s1 → 0 ≤ m →
     wp (body m) (round_result s1 A1 R p dst bytes m) s1) →
  wp (loop (S (size (u_pages s))) body 0) (migration_result dst bytes) s.
Proof using All.
  intros Hbody.
  eapply (wp_loop (λ m s1, ∃ A1 n, m = n * HUGEPAGE_SIZE ∧ 0 ≤ n ∧ ucm_inv s1 A1 R None ∧
      migrated dst p n s A s1 A1 ∧ (n = 0 ∨ m < bytes + HUGEPAGE_SIZE) ∧ m ≤ PEBS_MIGRATE_RATE)
    (λ m s1, Z.to_nat (bin_count A (negb dst) p - m / HUGEPAGE_SIZE))).
  - exists A, 0. split_and!; try done; [apply migrated_refl|by left].
  - pose proof (bin_count_bound _ _ (negb dst) p (I_dll HI)) as Hbd.
    rewrite <- size_dom, (I_dom HI), size_dom in Hbd. rewrite Z.div_0_l by done. lia.
  - intros m s1 (A1&n&->&Hn&HI1&Hmg&Hask&Hrate).
    assert (is_Some (u_procs s1 !! p)) as [r1 Hr1].
    { pose proof (mg_proc _ _ _ _ _ _ _ Hmg p) as E. destruct Hp as [r0 Hr0]. rewrite Hr0 in E.
      destruct (u_procs s1 !! p); [eauto|done]. }
    eapply wp_mono; [eapply (Hbody s1 A1); [done..|by eapply migrated_ready|unfold HUGEPAGE_SIZE; lia]|].
    intros [m'|m'] s'; simpl.
    + intros (->&Hb&Hra&A'&HI'&Hmg'). pose proof (migrated_trans _ _ _ _ _ _ _ _ _ _ Hmg Hmg') as Hmg2.
      split.
      * exists A', (n + 1). split_and!; try done; try lia.
        revert Hra. unfold PEBS_MIGRATE_RATE, HUGEPAGE_SIZE. lia.
      * pose proof (mg_count' _ _ _ _ _ _ _ Hmg2) as Hc.
        assert (0 ≤ bin_count A' (negb dst) p) by (unfold bin_count; lia).
        replace (n * HUGEPAGE_SIZE + HUGEPAGE_SIZE) with ((n + 1) * HUGEPAGE_SIZE) by lia.
        rewrite !Z.div_mul by done. lia.
    + intros (->&Hstop&A'&HI'&Hmg'). pose proof (migrated_trans _ _ _ _ _ _ _ _ _ _ Hmg Hmg') as Hmg2.
      rewrite Z.add_0_r in Hmg2. split; [|destruct Hask as [->|?]; auto|done].
      exists A', n. split_and!; try done. destruct Hstop as [?|[?|?]]; [by left|by right; left|].
      right. right. eauto.
Qed.

Lemma wp_process_migrate_down_bytes bytes :
  wp (process_migrate_down_bytes writeprotect p bytes) (migration_result false bytes) s.
Proof using All.
  unfold process_migrate_down_bytes. do 2 wp_step. apply wp_migrate_loop. intros.
  by eapply wp_migrate_down_body.
Qed.

Lemma wp_process_migrate_up_bytes bytes :
  wp (process_migrate_up_bytes writeprotect p bytes) (migration_result true bytes) s.
Proof using All.
  unfold process_migrate_up_bytes. do 2 wp_step. apply wp_migrate_loop. intros.
  by eapply wp_migrate_up_body.
Qed.
End loops.
