(* ===== verification/MigrateExit.v ===== *)
(** * An application that exits during a migration

    The round of [process_migrate_down_bytes] or [process_migrate_up_bytes] in
    which the application does not answer the request to map the new frame:
    [ucm_migrate_one_page] removes the process, whose lock the caller holds. *)

From S2P Require Import Prelude Fifo Ring F64 ProcList Types Hotness Mm MmAsync Ucm Process Migrate Inv UcmWp AsyncOk TableOk AllocOk RequestOk ProcessOk MigrateOk MigrateRun.

Section exit.
Context (writeprotect : Z → Z → Z → bool → ioctl_result).
Context (Hwp : ∀ uffd va len b, writeprotect uffd va len b ≠ IOCTL_FAILED).
Context (s : ucm) (A : list_id → list ptr) (R : ptr → ring_sel → list ptr) (HI : ucm_inv s A R None).
Context (p : ptr) (r : hemem_process) (Hr : u_procs s !! p = Some r) (Hfree : R p FreeRing = []).
Context (L : list ptr) (K : gset (unit + ptr)) (HM : mgr_inv s L K) (before after : list ptr).
Context (HL : L = before ++ p :: after).
Context (HtK : inl tt ∉ K) (HpK : inr p ∈ K) (HK : ∀ q, q ∈ before → inr q ∉ K).
Context (Hptr : tiers_mapped s) (Hlocks : u_remap_locked s = ∅).
Context (va : option Z) (ok : bool) (replies : list app_reply).
Context (Hexit : u_ipc s = AppReply IPC_APP_EXITED va ok :: replies).

(** The application is asked, and has exited. *)
Lemma wpx_ask_exited t r' x pg dst off (Q : unit → ucm → Prop) :
  u_procs t = <[p := r']> (u_procs s) → pid_view r' = pid_view r →
  u_pq t = u_pq s → u_proc_map t = u_proc_map s → u_ipc t = u_ipc s →
  wpx (eq SelfDeadlock) (ask_application p x pg dst off) Q t.
Proof using Hr HM HL HtK HpK HK Hexit.
  intros Hprocs Hv Hpq Hmap Hipc. unfold ask_application, ipc_remap_pages. apply wpx_bind.
  wpx_next. eapply wp_proc; [by rewrite Hprocs, lookup_insert_eq|]. wpx_next. wp_step. rewrite Hipc, Hexit.
  cbn [head default ar_result]. wpx_next. wp_step. apply wpx_ret. unfold wpx.
  rewrite (ucm_remove_process_held _ L K p r' before after); try done.
  - eapply (mgr_view s); [done|done|done|]. intros q. rec_simpl. rewrite Hprocs, lookup_insert.
    case_decide as Hq; [|done]. subst q. rewrite Hr. cbn. by rewrite Hv.
  - rec_simpl. by rewrite Hprocs, lookup_insert_eq.
Qed.

Section picked_page.
Context (dst : bool) (i : Z) (x : ptr) (pg : hemem_page) (b a : list ptr).
Context (HA : A (bin (negb dst) p i) = b ++ x :: a) (Hpg : u_pages s !! x = Some pg).
Context (r2 : hemem_process) (Hr2 : unmarked (negb dst) x r r2).
Context (np : ptr) (npg : hemem_page) (fb : list ptr) (h3 : page_lists list_id).
Context (HF : A (free_list dst) = fb ++ [np]) (Hnpg : u_pages s !! np = Some npg).
Notation s3 := (s <| u_plist := h3 |> <| u_procs := <[p := r2]> (u_procs s) |>).

Lemma wpx_move_exited t (Q : unit → ucm → Prop) :
  t = s3 →
  wpx (eq SelfDeadlock) ((if dst then promote_one_page writeprotect else demote_one_page writeprotect)
    p x (pg_devdax_offset npg)) Q t.
Proof using All.
  intros ->.
  pose proof (picked_used s A R HI p r Hr dst i x pg b a HA Hpg) as Hu.
  pose proof (picked_free s A R HI dst np npg fb HF Hnpg) as Hf.
  pose proof (um_core _ _ _ _ Hr2) as Hc. injection Hc as C1 C2 C3 C4 C5 C6.
  destruct (I_phys HI Hpg) as [Pt P1 P2 P3]. rewrite (up_dram _ _ _ _ _ _ _ Hu) in P3.
  destruct (I_phys HI Hnpg) as [_ N1 N2 N3]. rewrite (fp_dram _ _ Hf) in N3.
  assert (u_procs s3 !! p = Some r2) as Hr3 by (rec_simpl; apply lookup_insert_eq).
  assert (∀ loc, wp (start_migration writeprotect p x loc) (λ _ t, t = started s3 x pg) s3) as Hstart.
  { intros loc. apply (wp_start_migration writeprotect Hwp s3 p r2 Hr3 x pg); rec_simpl; try done; try apply Hu.
    - rewrite C1. apply Hu.
    - rewrite Hlocks. set_solver. }
  assert (wpx (eq SelfDeadlock) (ucm_migrate_one_page p x dst (pg_devdax_offset npg)) (λ _ _, False)
    (started s3 x pg)) as Hmove.
  { apply (wpx_until_ask s3 p r2 Hr3 x pg); rec_simpl; try done; [apply (I_sizes HI)|apply Hu|].
    eapply wpx_ask_exited; unfold asking; rec_simpl; [by rewrite insert_insert_eq| |done..].
    pose proof (um_fixed _ _ _ _ Hr2) as Hfx. unfold proc_fixed in Hfx. unfold pid_view. rec_simpl. congruence. }
  destruct dst; [unfold promote_one_page, ucm_migrate_up|unfold demote_one_page, ucm_migrate_down];
    (wpx_next; eapply wp_mono; [apply Hstart|]; intros [] ? ->; apply wpx_bind;
     eapply wpx_mono; [apply Hmove|done]).
Qed.
End picked_page.

(** There is a page to migrate to the tier [dst], and a free frame for it. *)
Definition can_migrate (dst : bool) : Prop :=
  (∃ i y, i ∈ levels dst ∧ y ∈ A (bin (negb dst) p i) ∧ eligible s y) ∧ A (free_list dst) ≠ [].

Lemma can_migrate_not dst : can_migrate dst → ¬ exhausted dst p s A.
Proof using Type. intros [(i&y&Hi&Hy&He) Hne] [Hno|HF]; [by apply (Hno i y)|done]. Qed.

Lemma wpx_migrate_down_exited bytes :
  0 < bytes → can_migrate false →
  wpx (eq SelfDeadlock) (migrate_down_body writeprotect p bytes 0) (λ _ _, False) s.
Proof using All.
  intros Hb Hcan. apply can_migrate_not in Hcan. unfold migrate_down_body.
  rewrite (proj2 (Z.ltb_lt 0 bytes)) by done. cbn [negb]. change (PEBS_MIGRATE_RATE <=? 0) with false. cbn match.
  wpx_next. unfold find_demotion_candidate, find_coldest_fastmem_page, ucm_get_curr_epoch. do 2 wp_step.
  eapply wp_mono; [apply (wp_scan_lists s A R HI p r Hr true); apply (levels_range false)|].
  intros [x|] s1; [|intros [_ Hno]; exfalso; apply Hcan; by left].
  intros (js1&i&js2&Hjs&(b&a&h&HA&(pg&Hpg&He)&_&->&Hdll&Hsh&Hdet)&_). cbn [bin] in *.
  change (FastBin p i) with (bin (negb false) p i) in *.
  pose proof (picked_used s A R HI p r Hr false i x pg b a HA Hpg) as Hu.
  wpx_next. eapply wp_page; [done|]. wpx_next. eapply wp_proc; [done|].
  wpx_next. apply wp_assert; [apply Z.eqb_eq, Hu|].
  wpx_next. apply wp_assert; [apply negb_true_iff, Z.eqb_neq, Hu|].
  wpx_next. eapply (wp_reset_bookmark _ true p x r pg); [done|done|apply Hu|]. intros r2 Hr2. rec_simpl.
  wpx_next. unfold get_free_slowmem_page. change SlowFree with (free_list false).
  eapply (wp_zoom_dequeue (<[bin (negb false) p i := b ++ a]> A)); rec_simpl; [done|..].
  { apply (picked_header s h Hsh); [done|]. eapply (inv_free_header _ _ _ _ false), HI. }
  { intros HF. rewrite fn_lookup_insert_ne in HF by apply bin_not_free. exfalso. apply Hcan. by right. }
  intros h3 fb np HF Hdll3 Hsh3 Hdet3. rewrite fn_lookup_insert_ne in HF by apply bin_not_free.
  destruct (I_free HI (d:=false) (x:=np)) as (npg&Hnpg&Hnf); [rewrite HF; set_solver|].
  wpx_next. eapply (wp_check_free s A R HI p false _ h np npg fb h3 HF Hnpg).
  wpx_next. eapply (wp_picked_find s A R HI p r Hr Hfree false i x pg b a HA Hpg r2 Hr2).
  wpx_next. eapply wp_page; [done|].
  apply wpx_bind.
  apply (wpx_move_exited false i x pg b a HA Hpg r2 Hr2 np npg fb h3 HF Hnpg). reflexivity.
Qed.

Lemma wpx_migrate_up_exited bytes :
  0 < bytes → can_migrate true →
  wpx (eq SelfDeadlock) (migrate_up_body writeprotect p bytes 0) (λ _ _, False) s.
Proof using All.
  intros Hb Hcan. apply can_migrate_not in Hcan. unfold migrate_up_body.
  rewrite (proj2 (Z.ltb_lt 0 bytes)) by done. cbn [negb]. change (PEBS_MIGRATE_RATE <=? 0) with false. cbn match.
  wpx_next. unfold find_promotion_candidate, find_hottest_slowmem_page, ucm_get_curr_epoch. do 2 wp_step.
  eapply wp_mono; [apply (wp_scan_lists s A R HI p r Hr false); apply (levels_range true)|].
  intros [x|] s1; [|intros [_ Hno]; exfalso; apply Hcan; by left].
  intros (js1&i&js2&Hjs&(b&a&h&HA&(pg&Hpg&He)&_&->&Hdll&Hsh&Hdet)&_). cbn [bin] in *.
  change (SlowBin p i) with (bin (negb true) p i) in *.
  pose proof (picked_used s A R HI p r Hr true i x pg b a HA Hpg) as Hu.
  wpx_next. eapply (wp_reset_bookmark _ false p x r pg); [done|done|apply Hu|]. intros r2 Hr2. rec_simpl.
  wpx_next. eapply wp_page; [done|]. wpx_next. eapply wp_proc; [lookup_done|].
  pose proof (um_core _ _ _ _ Hr2) as Hc. injection Hc as C1 _ _ _ _ _. rewrite C1.
  wpx_next. apply wp_assert; [apply Z.eqb_eq, Hu|].
  wpx_next. apply wp_assert; [apply negb_true_iff, Z.eqb_neq, Hu|]. cbv zeta.
  wpx_next. unfold get_free_fastmem_page. change FastFree with (free_list true).
  eapply (wp_zoom_dequeue (<[bin (negb true) p i := b ++ a]> A)); rec_simpl; [done|..].
  { apply (picked_header s h Hsh); [done|]. eapply (inv_free_header _ _ _ _ true), HI. }
  { intros HF. rewrite fn_lookup_insert_ne in HF by apply bin_not_free. exfalso. apply Hcan. by right. }
  intros h3 fb np HF Hdll3 Hsh3 Hdet3. rewrite fn_lookup_insert_ne in HF by apply bin_not_free.
  destruct (I_free HI (d:=true) (x:=np)) as (npg&Hnpg&Hnf); [rewrite HF; set_solver|].
  wpx_next. eapply (wp_check_free s A R HI p true _ h np npg fb h3 HF Hnpg).
  wpx_next. eapply (wp_picked_find s A R HI p r Hr Hfree true i x pg b a HA Hpg r2 Hr2).
  wpx_next. eapply wp_page; [done|].
  apply wpx_bind.
  apply (wpx_move_exited true i x pg b a HA Hpg r2 Hr2 np npg fb h3 HF Hnpg). reflexivity.
Qed.

Lemma migrate_exited dst bytes :
  0 < bytes → can_migrate dst →
  (if dst then process_migrate_up_bytes writeprotect p bytes else process_migrate_down_bytes writeprotect p bytes) s =
    Err SelfDeadlock.
Proof using All.
  intros Hb Hcan. apply wpx_must.
  destruct dst.
  - unfold process_migrate_up_bytes. wpx_next. wp_step. apply wpx_loop_end.
    eapply wpx_mono; [by apply wpx_migrate_up_exited|done].
  - unfold process_migrate_down_bytes. wpx_next. wp_step. apply wpx_loop_end.
    eapply wpx_mono; [by apply wpx_migrate_down_exited|done].
Qed.
End exit.
