(* ===== verification/EpochOk.v ===== *)
(** * An epoch of the policy

    [qos_policy_epoch], from the lemmas of the components (the round of the core
    loop around it is in ServerOk.v).  The rules are stated for the outcomes of a run: the only
    failures an epoch can have are those of the floating-point arithmetic of
    the policy, and an epoch that ends keeps the invariants, every page still
    in use, and its bytes. *)

From S2P Require Import Prelude Fifo Ring F64 ProcList Types Hotness Mm MmAsync Ucm Process Telem Migrate Qos Inv UcmWp AsyncOk CoolOk TableOk AllocOk RequestOk ProcessOk TelemOk MigrateOk MigrateRun.

(** The failures of the policy's floating-point arithmetic: the assertion on
    the miss ratio, and a conversion to an integer that is out of range. *)
Definition float_error (e : err) : Prop :=
  e = AssertFail "policy-state.c:56" ∨ e = Undefined "conversion of a double out of range".

(** ** What an epoch preserves *)
Definition proc_ident (r : hemem_process) :=
  (pr_pid r, pr_uffd r, pr_exited r, pr_valid_uffd r, pr_remap_fd r, pr_zero r, pr_phh r,
   po_target_miss_ratio (pr_policy r), mm_mem_allocated (pr_mm r), mm_max_fastmem (pr_mm r)).

Definition setting (s : ucm) :=
  (u_proc_map s, plists (u_pq s), u_remap_locked s, u_scan_epoch s,
   u_fastmem_size s, u_slowmem_size s, u_fastmem_ptr s, u_slowmem_ptr s).

Record stable (s : ucm) (A : list_id → list ptr) (s' : ucm) (A' : list_id → list ptr) : Prop := Stable {
  st_used q y : in_bins A' q y → in_bins A q y;
  st_gone q y pg : in_bins A q y → ¬ in_bins A' q y → u_pages s !! y = Some pg →
    pg_in_free_ring pg = true;
  st_data q y pg : in_bins A' q y → u_pages s !! y = Some pg → ∃ pg', u_pages s' !! y = Some pg' ∧
    (pg_va pg', pg_in_free_ring pg') = (pg_va pg, pg_in_free_ring pg) ∧
    ∀ o, 0 ≤ o < HUGEPAGE_SIZE → byte s' pg' o = byte s pg o;
  st_app : app_maps s A → app_maps s' A';
  st_proc q : proc_ident <$> u_procs s' !! q = proc_ident <$> u_procs s !! q;
  st_setting : setting s' = setting s;
  st_ipc : Forall good_reply (u_ipc s) → Forall good_reply (u_ipc s');
}.

Lemma stable_refl s A : stable s A s A.
Proof. split; try done. intros q y pg _ Hy. by exists pg. Qed.

Lemma in_bins_dec A p x : in_bins A p x ∨ ¬ in_bins A p x.
Proof.
  destruct (decide (x ∈ bin_members A true p ++ bin_members A false p)) as [H|H].
  - left. apply elem_of_app in H as [H|H]; apply elem_of_bin_members in H; eexists; eauto.
  - right. intros [[] Hd]; apply H, elem_of_app; [left|right]; by apply elem_of_bin_members.
Qed.

Lemma stable_trans s1 A1 s2 A2 s3 A3 : stable s1 A1 s2 A2 → stable s2 A2 s3 A3 → stable s1 A1 s3 A3.
Proof.
  intros [U1 G1 D1 P1 R1 T1 I1] [U2 G2 D2 P2 R2 T2 I2]. split; try congruence; auto.
  - intros q y pg Hb Hn Hy. destruct (in_bins_dec A2 q y) as [Hb2|Hb2]; [|by eapply G1].
    destruct (D1 q y pg Hb2 Hy) as (pg2&Hy2&[= _ <-]&_). by eapply G2.
  - intros q y pg Hb Hy. destruct (D1 q y pg (U2 _ _ Hb) Hy) as (pg2&Hy2&E2&M2).
    destruct (D2 q y pg2 Hb Hy2) as (pg3&Hy3&E3&M3). exists pg3. split_and!; [done|congruence|].
    intros o Ho. rewrite M3; auto.
Qed.

(** Migrating and moving within the tiers are such changes. *)
Lemma migrated_stable dst p n s A s' A' : migrated dst p n s A s' A' → stable s A s' A'.
Proof.
  intros [B _ _ _ _ _ _ D P R T I]. split; auto.
  - intros q y. apply B.
  - intros q y pg Hb Hn _. destruct Hn. by apply B.
  - intros q y pg Hb Hy. destruct (D q y pg) as (pg'&?&E&?); [by apply B|done|].
    exists pg'. split_and!; [done|congruence|done].
  - intros q. specialize (R q). destruct (u_procs s' !! q), (u_procs s !! q); simpl in *; try done.
    unfold proc_fixed in R. unfold proc_ident. f_equal. congruence.
  - unfold surroundings in T. unfold setting. congruence.
Qed.

(** The pages that wait to be freed, by the rings. *)
Lemma waiting s A R q y pg :
  ucm_inv s A R None → in_bins A q y → u_pages s !! y = Some pg →
  pg_in_free_ring pg = bool_decide (y ∈ R q FreeRing).
Proof.
  intros HI Hb Hy. destruct Hb as (d&i&Hi&Hb). destruct (I_used HI Hb) as (?&r&?&Hr&_). simplify_eq.
  pose proof (pi_free_ring _ _ _ _ _ _ (I_proc HI Hr) y) as Hiff.
  destruct (pg_in_free_ring pg) eqn:E; symmetry.
  - apply bool_decide_eq_true, Hiff. split; [by exists d, i|eauto].
  - apply bool_decide_eq_false. intros (_&pg'&?&?)%Hiff. simplify_eq. congruence.
Qed.

Lemma kept_stable s A R s' A' R' :
  ucm_inv s A R None → ucm_inv s' A' R' None → kept s s' →
  (∀ q y, in_bins A' q y → in_bins A q y) →
  (∀ q y, in_bins A q y → ¬ in_bins A' q y → y ∈ R q FreeRing) →
  (∀ q y, in_bins A' q y → y ∈ R' q FreeRing ↔ y ∈ R q FreeRing) →
  stable s A s' A'.
Proof.
  intros HI HI' (Hrest&Hproc&Hpages) Hsub Hgone Hring. unfold rest in Hrest.
  assert (∀ q y pg, in_bins A' q y → u_pages s !! y = Some pg → ∃ pg', u_pages s' !! y = Some pg' ∧
    page_keep pg' = page_keep pg ∧ pg_in_free_ring pg' = pg_in_free_ring pg) as Hpage.
  { intros q y pg Hb Hy. specialize (Hpages y). rewrite Hy in Hpages.
    destruct (u_pages s' !! y) as [pg'|] eqn:Hy'; [|done]. exists pg'. split; [done|].
    split; [by apply (inj Some) in Hpages|].
    rewrite (waiting s' A' R' q y pg' HI' Hb Hy'), (waiting s A R q y pg HI (Hsub _ _ Hb) Hy).
    by apply bool_decide_ext, Hring. }
  split; auto.
  - intros q y pg Hb Hn Hy. rewrite (waiting s A R q y pg HI Hb Hy). by apply bool_decide_eq_true, Hgone.
  - intros q y pg Hb Hy. destruct (Hpage q y pg Hb Hy) as (pg'&Hy'&Hk&Hf). unfold page_keep in Hk.
    exists pg'. split_and!; [done|congruence|]. intros o _. unfold byte. congruence.
  - intros Hm q y pg' r' Hb Hy' Hf Hr'.
    assert (∃ pg, u_pages s !! y = Some pg) as [pg Hy].
    { specialize (Hpages y). rewrite Hy' in Hpages. destruct (u_pages s !! y); [eauto|done]. }
    destruct (Hpage q y pg Hb Hy) as (pg2&Hy2&Hk&Hf2). rewrite Hy' in Hy2. injection Hy2 as <-.
    specialize (Hproc q). rewrite Hr' in Hproc. destruct (u_procs s !! q) as [r|] eqn:Hr; [|done].
    simpl in Hproc. unfold proc_keep in Hproc. unfold page_keep in Hk.
    pose proof (Hm q y pg r (Hsub _ _ Hb) Hy) as Happ. rewrite <- Hf2 in Happ. specialize (Happ Hf Hr).
    assert (pr_pid r' = pr_pid r) as -> by congruence. assert (u_app s' = u_app s) as -> by congruence.
    assert (pg_va pg' = pg_va pg) as -> by congruence.
    assert (pg_in_dram pg' = pg_in_dram pg) as -> by congruence.
    by assert (pg_devdax_offset pg' = pg_devdax_offset pg) as -> by congruence.
  - intros q. specialize (Hproc q). destruct (u_procs s' !! q), (u_procs s !! q); simpl in *; try done.
    unfold proc_keep in Hproc. unfold proc_ident. f_equal. congruence.
  - unfold setting. congruence.
  - intros Hg. by replace (u_ipc s') with (u_ipc s) by congruence.
Qed.

Lemma settled_bins A A' q y : settled A A' → in_bins A' q y ↔ in_bins A q y.
Proof. intros [Ht _]. unfold in_bins. by setoid_rewrite Ht. Qed.

(** ** The state between the steps of an epoch *)
Record sound (L : list ptr) (K : gset (unit + ptr)) (s : ucm) (A : list_id → list ptr)
    (R : ptr → ring_sel → list ptr) : Prop := Sound {
  so_inv : ucm_inv s A R None;
  so_mgr : mgr_inv s L K;
  so_ready : ready s;
}.

Lemma stable_ready s A s' A' : stable s A s' A' → ready s → ready s'.
Proof.
  intros Hst [Hi Ht Hl]. pose proof (st_setting _ _ _ _ Hst) as Hs. unfold setting in Hs.
  split; [by apply (st_ipc _ _ _ _ Hst)| |congruence]. unfold tiers_mapped in *.
  by replace (u_fastmem_ptr s') with (u_fastmem_ptr s) by congruence;
    replace (u_slowmem_ptr s') with (u_slowmem_ptr s) by congruence.
Qed.

(** The processes an epoch sees are those it began with. *)
Lemma stable_mgr s A s' A' L K K' :
  stable s A s' A' → mgr_inv s L K → held (u_pq s') = K' → mgr_inv s' L K'.
Proof.
  intros Hst HM HK. pose proof (st_setting _ _ _ _ Hst) as Hs. unfold setting in Hs.
  eapply mgr_locks; [done|congruence|done|congruence|].
  intros q. pose proof (st_proc _ _ _ _ Hst q) as Hq.
  destruct (u_procs s' !! q), (u_procs s !! q); simpl in *; try done.
  unfold proc_ident in Hq. unfold pid_view. f_equal. congruence.
Qed.

(** What is reached from [s] by steps that keep it sound. *)
Definition reaches (L : list ptr) (K : gset (unit + ptr)) (s : ucm) (A : list_id → list ptr)
    (P : (ptr → ring_sel → list ptr) → Prop) (s' : ucm) : Prop :=
  ∃ A' R', sound L K s' A' R' ∧ stable s A s' A' ∧ P R'.

Lemma reaches_trans L K1 K2 s A P1 P2 s1 s2 :
  reaches L K1 s A P1 s1 →
  (∀ A1 R1, sound L K1 s1 A1 R1 → P1 R1 → reaches L K2 s1 A1 P2 s2) → reaches L K2 s A P2 s2.
Proof.
  intros (A1&R1&Hso&Hst&HP) Hk. destruct (Hk A1 R1 Hso HP) as (A2&R2&Hso2&Hst2&HP2).
  exists A2, R2. split_and!; [done|by eapply stable_trans|done].
Qed.

(** ** Locks *)
Section lock.
Context (L : list ptr) (K : gset (unit + ptr)) (s : ucm) (A : list_id → list ptr) (R : ptr → ring_sel → list ptr).
Context (Hso : sound L K s A R) (p : ptr).

Lemma stable_pq (f : proc_queue → proc_queue) :
  (∀ q, plists (f q) = plists q) → stable s A (s <| u_pq ::= f |>) A.
Proof using Type.
  intros Hf. split; try done.
  - intros q y pg _ Hy. by exists pg.
  - unfold setting. rec_simpl. by rewrite Hf.
Qed.

Lemma sound_pq (f : proc_queue → proc_queue) K' :
  (∀ q, plists (f q) = plists q) → held (f (u_pq s)) = K' → sound L K' (s <| u_pq ::= f |>) A R.
Proof using Hso.
  intros Hf HK. destruct Hso as [HI HM Hrd]. split.
  - by eapply inv_frame.
  - eapply (stable_mgr s A); [by apply stable_pq|done|done].
  - by eapply stable_ready; [apply stable_pq|].
Qed.

Lemma wp_lock_sound :
  inr p ∉ K →
  wp (lock_process p) (λ _ s', reaches L ({[ inr p ]} ∪ K) s A (λ R', R' = R) s') s.
Proof using Hso.
  intros Hp. pose proof (M_held (so_mgr _ _ _ _ _ Hso)) as HK.
  apply wp_lock_process; [by rewrite HK|]. exists A, R. split_and!; [|by apply stable_pq|done].
  apply sound_pq; [done|]. cbn. by rewrite <- HK.
Qed.

Lemma wp_unlock_sound :
  inr p ∈ K →
  wp (unlock_process p) (λ _ s', reaches L (K ∖ {[ inr p ]}) s A (λ R', R' = R) s') s.
Proof using Hso.
  intros Hp. pose proof (M_held (so_mgr _ _ _ _ _ Hso)) as HK.
  apply wp_unlock_process; [by rewrite HK|]. exists A, R. split_and!; [|by apply stable_pq|done].
  apply sound_pq; [done|]. cbn. by rewrite <- HK.
Qed.
End lock.

(** ** Loops over the processes *)
Section fold.
Context {X : Type} (E : err → Prop) (body : X → ptr → M ucm X) (L : list ptr) (K : gset (unit + ptr)).
Context (J : list ptr → X → ucm → Prop).
Context (HJ : ∀ b x s, J b x s → mgr_inv s L K).
Context (Hbody : ∀ b p a x s, L = b ++ p :: a → J b x s →
  wpx E (body x p) (λ x' s', J (b ++ [p]) x' s') s).

Lemma wpx_fold_loop a : ∀ b x s n,
  L = b ++ a → J b x s → (length a < n)%nat →
  wpx E (loop n (fold_processes_body body) (head a, x)) (λ x' s', J L x' s') s.
Proof using HJ Hbody.
  induction a as [|p a IH]; intros b x s [|n] HL HJb Hn; [simpl in Hn; lia| |simpl in Hn; lia|];
    cbn [loop head]; apply wpx_bind; unfold fold_processes_body at 1; cbn [fst snd].
  { do 2 apply wpx_ret. rewrite app_nil_r in HL. by subst. }
  pose proof (HJ _ _ _ HJb) as HM.
  apply wpx_bind, wpx_wp. wp_step. unfold node. wp_step.
  eapply wp_deref; [eapply (dll_node (M_dll HM) (l := tt)); done|]. cbn [next].
  replace (s <| u_pq := _ |>) with s by (by destruct s as [? ? ? []]).
  apply wpx_bind. eapply wpx_mono; [by eapply Hbody|]. intros x' s' HJ'. apply wpx_ret.
  apply (IH (b ++ [p])); [by rewrite <- app_assoc|done|simpl in Hn; lia].
Qed.

Lemma wpx_fold_processes x s :
  J [] x s → wpx E (fold_processes body x) (λ x' s', J L x' s') s.
Proof using HJ Hbody.
  intros HJ0. pose proof (HJ _ _ _ HJ0) as HM. unfold fold_processes.
  apply wpx_bind, wpx_wp. wp_step. apply wpx_bind, wpx_wp. wp_step. unfold header. wp_step.
  destruct (M_header HM) as [q Hq]. eapply wp_deref; [done|].
  replace (s <| u_pq := _ |>) with s by (by destruct s as [? ? ? []]).
  rewrite (dll_header (M_dll HM) Hq). cbn [first].
  apply (wpx_fold_loop L []); [done|done|].
  apply Nat.lt_succ_r, (dll_length_size _ _ tt (M_dll HM)).
Qed.
End fold.

(** ** Steps on one process *)
Section steps.
Context (L : list ptr) (K : gset (unit + ptr)) (s : ucm) (A : list_id → list ptr) (R : ptr → ring_sel → list ptr).
Context (Hso : sound L K s A R) (p : ptr) (r : hemem_process) (Hr : u_procs s !! p = Some r).

Lemma wp_drain_sound :
  wp (mm_drain_async_requests p) (λ _ s', reaches L K s A
    (λ R', (∀ sel, R' p sel = []) ∧ ∀ q, q ≠ p → R' q = R q) s') s.
Proof using Hso Hr.
  destruct Hso as [HI HM Hrd]. eapply wp_mono; [eapply (wp_mm_drain s A R p); [done|eauto]|].
  intros [] s' (A'&R'&HI'&Hk&Hemp&Hoth&Hrel&_).
  assert (stable s A s' A') as Hst.
  { eapply (kept_stable s A R s' A' R'); try done.
    - intros q y [d Hb]. exists d. by apply Hrel.
    - intros q y [d Hb] Hn. destruct (decide (y ∈ R p FreeRing)) as [Hy|Hy].
      + assert (q = p) as ->; [|done]. eapply (in_bins_unique _ _ (I_dll HI)); [by exists d|].
        by apply (pi_free_ring _ _ _ _ _ _ (I_proc HI Hr)).
      + destruct Hn. exists d. by apply Hrel.
    - intros q y [d Hb]. apply Hrel in Hb as [Hb Hy]. destruct (decide (q = p)) as [->|Hq].
      + rewrite Hemp. set_solver.
      + by rewrite Hoth. }
  exists A', R'. split_and!; [|done|done..]. split; [done|by eapply mgr_kept|by eapply stable_ready].
Qed.

(** A change to the policy state of the process, its target aside. *)
Lemma wp_set_policy_sound f :
  po_target_miss_ratio (f (pr_policy r)) = po_target_miss_ratio (pr_policy r) →
  wp (set_policy p f) (λ _ s', u_procs s' = <[p := r <| pr_policy ::= f |>]> (u_procs s) ∧
    reaches L K s A (λ R', R' = R) s') s.
Proof using Hso Hr.
  intros Hf. unfold set_policy. ucm_step. destruct Hso as [HI HM Hrd]. split; [done|].
  set (s' := s <| u_procs := _ |>).
  assert (stable s A s' A) as Hst.
  { split; try done.
    - intros q y pg _ Hy. by exists pg.
    - intros Hm q y pg r' Hb Hy Hw Hr'. unfold s' in Hr', Hy. rec_simpl_in Hr'. rec_simpl_in Hy.
      rewrite lookup_insert in Hr'. case_decide as Hq; [|by eapply Hm].
      injection Hr' as <-. subst q. by apply (Hm p y pg r).
    - intros q. unfold s'. rec_simpl. rewrite lookup_insert. case_decide as Hq; [|done]. subst q.
      rewrite Hr. unfold proc_ident. rec_simpl. simpl. by rewrite Hf. }
  exists A, R. split_and!; [|done|done]. split.
  - by eapply (inv_proc_view s s' A R None p r); [|left|..].
  - by eapply stable_mgr; [| |apply HM].
  - by eapply stable_ready.
Qed.

(** Cooling of one tier, and the bookmark it returns stored. *)
Lemma wp_cool_sound fastmem :
  wp (o ← partial_cool_impl fastmem p; set_mm p (set_cur_cool fastmem o))
    (λ _ s', reaches L K s A (λ R', R' = R) s') s.
Proof using Hso Hr.
  destruct Hso as [HI HM Hrd]. wp_step.
  eapply wp_mono; [eapply (wp_partial_cool fastmem p R None (or_introl eq_refl) s A); [done|eauto]|].
  intros o s1 (A1&HI1&Hk1&Hset&Ho). destruct (kept_proc _ _ _ _ Hk1 Hr) as (r1&Hr1&_).
  ucm_step. set (s2 := s1 <| u_procs := _ |>).
  destruct (inv_cool_fields p R None (or_introl eq_refl) s1 s2 A1 r1 (set_cur_cool fastmem o)) as [HI2 Hk2];
    try done; try (by destruct fastmem).
  - intros d y. destruct (decide (d = fastmem)) as [->|Hd].
    + intros Hy. apply Ho. by destruct fastmem.
    + intros Hy. apply (pi_cur_cool _ _ _ _ _ _ (I_proc HI1 Hr1)). by destruct fastmem, d.
  - intros d. pose proof (pi_cur_cool_list _ _ _ _ _ _ (I_proc HI1 Hr1) d). by destruct fastmem, d.
  - assert (kept s s2) as Hk by by etransitivity.
    assert (stable s A s2 A1) as Hst.
    { eapply (kept_stable s A R s2 A1 R); try done.
      - intros q y. apply (settled_bins A A1 q y Hset).
      - intros q y Hb Hn. destruct Hn. by apply (settled_bins A A1 q y Hset). }
    exists A1, R. split_and!; [|done|done]. split; [done|by eapply mgr_kept|by eapply stable_ready].
Qed.

(** Migration in either direction. *)
Lemma migrated_reaches dst n s' A' :
  ucm_inv s' A' R None → migrated dst p n s A s' A' → reaches L K s A (λ R', R' = R) s'.
Proof using Hso.
  intros HI' Hmg. pose proof (migrated_stable _ _ _ _ _ _ _ Hmg) as Hst. destruct Hso as [HI HM Hrd].
  exists A', R. split_and!; [|done|done]. split; [done| |by eapply stable_ready].
  eapply stable_mgr; [done..|]. pose proof (mg_rest _ _ _ _ _ _ _ Hmg) as Hs. unfold surroundings in Hs.
  assert (u_pq s' = u_pq s) as -> by congruence. apply HM.
Qed.

Context (writeprotect : Z → Z → Z → bool → ioctl_result).
Context (Hwp : ∀ uffd va len b, writeprotect uffd va len b ≠ IOCTL_FAILED).
Context (Hfree : R p FreeRing = []).

Lemma wp_migrate_down_sound bytes :
  wp (process_migrate_down_bytes writeprotect p bytes) (λ _ s', reaches L K s A (λ R', R' = R) s') s.
Proof using All.
  destruct Hso as [HI HM Hrd] eqn:E.
  eapply wp_mono; [eapply (wp_process_migrate_down_bytes _ Hwp s A R HI p); [eauto|done..]|].
  intros res s' [(A'&n&_&_&HI'&Hmg&_) _ _]. by eapply migrated_reaches.
Qed.

Lemma wp_migrate_up_sound bytes :
  wp (process_migrate_up_bytes writeprotect p bytes) (λ _ s', reaches L K s A (λ R', R' = R) s') s.
Proof using All.
  destruct Hso as [HI HM Hrd] eqn:E.
  eapply wp_mono; [eapply (wp_process_migrate_up_bytes _ Hwp s A R HI p); [eauto|done..]|].
  intros res s' [(A'&n&_&_&HI'&Hmg&_) _ _]. by eapply migrated_reaches.
Qed.
End steps.

(** Sequencing: from a sound state to the next. *)
Lemma wpx_seq {T U} E (m : M ucm T) (k : T → M ucm U) L K s A P (Q : U → ucm → Prop) :
  wp m (λ _ s1, reaches L K s A P s1) s →
  (∀ a s1 A1 R1, sound L K s1 A1 R1 → stable s A s1 A1 → P R1 → wpx E (k a) Q s1) →
  wpx E (mbind k m) Q s.
Proof.
  intros Hm Hk. apply wpx_bind, wpx_wp. eapply wp_mono; [exact Hm|].
  intros a s1 (A1&R1&Hso&Hst&HP). by eapply Hk.
Qed.

Lemma wpx_set_policy {U} E L K s A R p r f (k : unit → M ucm U) (Q : U → ucm → Prop) :
  sound L K s A R → u_procs s !! p = Some r →
  po_target_miss_ratio (f (pr_policy r)) = po_target_miss_ratio (pr_policy r) →
  (∀ s1 A1, u_procs s1 = <[p := r <| pr_policy ::= f |>]> (u_procs s) →
     sound L K s1 A1 R → stable s A s1 A1 → wpx E (k tt) Q s1) →
  wpx E (set_policy p f ≫= k) Q s.
Proof.
  intros Hso Hr Hf Hk. apply wpx_bind, wpx_wp. eapply wp_mono; [by eapply wp_set_policy_sound|].
  intros [] s1 (Hp&A1&R1&Hso1&Hst1&->). by eapply Hk.
Qed.

Lemma sound_proc L K s A R p : sound L K s A R → p ∈ L → ∃ r, u_procs s !! p = Some r.
Proof. intros Hso Hp. destruct (mgr_proc s L K p (so_mgr _ _ _ _ _ Hso) Hp) as [r Hr]. eauto. Qed.

Ltac stable_chain := repeat (eapply stable_trans; [eassumption|]); apply stable_refl.

(** ** Measuring demand and supply *)
Lemma wpx_update_miss po s (Q : f64 → ucm → Prop) :
  (∀ m, Q m s) → wpx float_error (update_process_miss_ratio po) Q s.
Proof.
  intros HQ. unfold update_process_miss_ratio. cbv zeta. destruct (_ =? 0); [apply wpx_ret, HQ|].
  apply wpx_bind. unfold process_policy_calc_miss_ratio. cbv zeta.
  destruct (_ && _); [do 2 apply wpx_ret; apply HQ|]. apply wpx_fail. by left.
Qed.

(** The arrays hold processes of the list. *)
Definition arrays_in (L : list ptr) (st : qos_policy_state_t) : Prop :=
  (∀ q, q ∈ container (need_fastmem st) → q ∈ L) ∧ (∀ q, q ∈ container (take_fastmem st) → q ∈ L).

Lemma append_in (L : list ptr) arr p q :
  (∀ q, q ∈ container arr → q ∈ L) → p ∈ L →
  q ∈ container (process_array_append arr p).2 → q ∈ L.
Proof. unfold process_array_append. destruct (_ <=? _)%nat; simpl; set_solver. Qed.

Lemma wpx_check_process L s A R p st :
  sound L ∅ s A R → p ∈ L → arrays_in L st →
  wpx float_error (check_process st p) (λ st' s', arrays_in L st' ∧
    reaches L ∅ s A (λ R', R' p FreeRing = [] ∧ ∀ q, q ≠ p → R' q = R q) s') s.
Proof.
  intros Hso Hp [Hneed Htake]. unfold check_process.
  eapply wpx_seq; [eapply wp_lock_sound; [done|set_solver]|]. intros _ s1 A1 R1 Hso1 Hst1 ->.
  destruct (sound_proc _ _ _ _ _ p Hso1 Hp) as [r1 Hr1].
  eapply wpx_seq; [by eapply wp_drain_sound|]. intros _ s2 A2 R2 Hso2 Hst2 [Hemp Hoth].
  destruct (sound_proc _ _ _ _ _ p Hso2 Hp) as [r2 Hr2].
  eapply (wpx_set_policy _ _ _ _ _ _ p r2); [done..|]. intros s3 A3 Hp3 Hso3 Hst3.
  apply wpx_bind, wpx_wp. eapply wp_proc; [by rewrite Hp3, lookup_insert_eq|].
  apply wpx_bind, wpx_update_miss. intros miss.
  eapply (wpx_set_policy _ _ _ _ _ _ p); [done|by rewrite Hp3, lookup_insert_eq|done|]. intros s4 A4 Hp4 Hso4 Hst4.
  cbv zeta. eapply (wpx_set_policy _ _ _ _ _ _ p); [done|by rewrite Hp4, lookup_insert_eq|done|].
  intros s5 A5 Hp5 Hso5 Hst5. apply wpx_bind.
  eapply (wpx_mono _ _ (λ st' s6, arrays_in L st' ∧ ∃ A6, sound L ({[inr p]} ∪ ∅) s6 A6 R2 ∧ stable s5 A5 s6 A6)).
  { destruct (f64_gt _ _); [|destruct (f64_lt _ _)].
    - eapply (wpx_set_policy _ _ _ _ _ _ p); [done|by rewrite Hp5, lookup_insert_eq|done|].
      intros s6 A6 _ Hso6 Hst6. apply wpx_ret. split; [|eauto].
      split; [intros q; by apply append_in|done].
    - eapply (wpx_set_policy _ _ _ _ _ _ p); [done|by rewrite Hp5, lookup_insert_eq|done|].
      intros s6 A6 _ Hso6 Hst6. apply wpx_ret. split; [|eauto].
      split; [done|intros q; by apply append_in].
    - apply wpx_ret. split; [done|]. exists A5. split; [done|apply stable_refl]. }
  intros st' s6 (Harr&A6&Hso6&Hst6).
  eapply wpx_seq; [eapply wp_unlock_sound; [done|set_solver]|]. intros _ s7 A7 R7 Hso7 Hst7 ->.
  apply wpx_ret. split; [done|]. exists A7, R2. split_and!; [| |done|done].
  - by replace (({[inr p]} ∪ ∅) ∖ {[inr p]}) with (∅ : gset (unit + ptr)) in Hso7 by set_solver.
  - stable_chain.
Qed.

Lemma list_mem_mid (L b a : list ptr) p : L = b ++ p :: a → p ∈ L.
Proof. intros ->. set_solver. Qed.

Lemma sound_mid L K s A R b p a : sound L K s A R → L = b ++ p :: a → ∀ q, q ∈ b → q ≠ p.
Proof.
  intros Hso HL q Hq ->. pose proof (dll_nodup (M_dll (so_mgr _ _ _ _ _ Hso)) tt) as Hnd. simpl in Hnd.
  rewrite HL in Hnd. apply NoDup_app in Hnd as (_&Hd&_). apply (Hd p Hq). set_solver.
Qed.

Lemma reaches_mgr L K s A P s' : reaches L K s A P s' → mgr_inv s' L K.
Proof. intros (A'&R'&Hso&_). apply Hso. Qed.

Lemma wpx_check_mem L s A R st :
  sound L ∅ s A R →
  wpx float_error (check_mem_demand_supply st) (λ st' s', arrays_in L st' ∧
    reaches L ∅ s A (λ R', ∀ q, q ∈ L → R' q FreeRing = []) s') s.
Proof.
  intros Hso. unfold check_mem_demand_supply.
  apply (wpx_fold_processes _ _ L ∅ (λ b st' s', arrays_in L st' ∧
    reaches L ∅ s A (λ R', ∀ q, q ∈ b → R' q FreeRing = []) s')).
  - intros b st' s' [_ Hre]. by eapply reaches_mgr.
  - intros b p a st' s1 HL [Harr (A1&R1&Hso1&Hst1&Hb)].
    eapply wpx_mono; [eapply wpx_check_process; [done|by eapply list_mem_mid|done]|].
    intros st2 s2 [Harr2 (A2&R2&Hso2&Hst2&Hp&Hoth)]. split; [done|].
    exists A2, R2. split_and!; [done|by eapply stable_trans|].
    intros q [Hq| ->%list_elem_of_singleton]%elem_of_app; [|done].
    rewrite Hoth; [by apply Hb|]. by eapply sound_mid.
  - split; [by split; intros q Hq; apply not_elem_of_nil in Hq|].
    exists A, R. split_and!; [done|apply stable_refl|]. intros q Hq. by apply not_elem_of_nil in Hq.
Qed.

(** ** Budgets *)
Lemma wpx_to_i64 x s (Q : Z → ucm → Prop) :
  (∀ n, - 2 ^ 63 ≤ n < 2 ^ 63 → Q n s) → wpx float_error (to_i64 x) Q s.
Proof.
  intros HQ. unfold to_i64. destruct (f64_trunc x) as [n|]; [|apply wpx_fail; by right].
  destruct (Z.leb_spec (- 2 ^ 63) n), (Z.ltb_spec n (2 ^ 63)); cbn [andb];
    [apply wpx_ret; auto|apply wpx_fail; by right..].
Qed.

Lemma wpx_portion_of dev tot m s (Q : Z → ucm → Prop) :
  (∀ n, Q n s) → wpx float_error (portion_of dev tot m) Q s.
Proof. intros HQ. apply wpx_bind, wpx_to_i64. intros n _. apply wpx_ret, HQ. Qed.

Lemma wp_fastmem_free_size L K s A R (Q : Z → ucm → Prop) :
  sound L K s A R → Q (u64 (Z.of_nat (length (A FastFree)) * HUGEPAGE_SIZE)) s → wp get_fastmem_free_size Q s.
Proof.
  intros Hso HQ. destruct Hso as [HI _ _]. destruct (inv_free_header s A R None true HI) as [q Hq].
  unfold get_fastmem_free_size, get_fastmem_free_page_cnt. do 2 wp_step. eapply wp_list_header; [done|].
  do 2 wp_step. by rewrite (dll_header (I_dll HI) Hq).
Qed.

Lemma wpx_demotion_budgets L st ps : ∀ s A R m tot,
  sound L ∅ s A R → (∀ q, q ∈ ps → q ∈ L) →
  wpx float_error (allocate_demotion_budgets st ps m tot)
    (λ _ s', reaches L ∅ s A (λ R', R' = R) s') s.
Proof.
  induction ps as [|p ps IH]; intros s A R m tot Hso Hps; cbn [allocate_demotion_budgets].
  { apply wpx_ret. exists A, R. split_and!; [done|apply stable_refl|done]. }
  destruct (sound_proc _ _ _ _ _ p Hso) as [r Hr]; [set_solver|].
  assert (∀ f m tot, po_target_miss_ratio (f (pr_policy r)) = po_target_miss_ratio (pr_policy r) →
    wpx float_error (set_policy p f;; allocate_demotion_budgets st ps m tot)
      (λ _ s', reaches L ∅ s A (λ R', R' = R) s') s) as Hset.
  { intros f m' tot' Hf. eapply (wpx_set_policy _ _ _ _ _ _ p r); [done..|].
    intros s1 A1 _ Hso1 Hst1. eapply wpx_mono; [eapply IH; [done|set_solver]|].
    intros _ s2 (A2&R2&Hso2&Hst2&->). exists A2, R. split_and!; [done|by eapply stable_trans|done]. }
  apply wpx_bind, wpx_wp. eapply wp_proc; [done|]. destruct (f64_le _ _); [by apply Hset|].
  apply wpx_bind, wpx_portion_of. intros n. by apply Hset.
Qed.

Lemma wpx_promotion_budgets L st ps : ∀ s A R m,
  sound L ∅ s A R → (∀ q, q ∈ ps → q ∈ L) →
  wpx float_error (allocate_promotion_budgets st ps m)
    (λ _ s', reaches L ∅ s A (λ R', R' = R) s') s.
Proof.
  induction ps as [|p ps IH]; intros s A R m Hso Hps; cbn [allocate_promotion_budgets].
  { apply wpx_ret. exists A, R. split_and!; [done|apply stable_refl|done]. }
  destruct (sound_proc _ _ _ _ _ p Hso) as [r Hr]; [set_solver|].
  apply wpx_bind, wpx_wp. eapply wp_proc; [done|]. apply wpx_bind.
  eapply (wpx_mono _ _ (λ _ s1, reaches L ∅ s A (λ R', R' = R) s1)).
  { assert (∀ f, po_target_miss_ratio (f (pr_policy r)) = po_target_miss_ratio (pr_policy r) →
      wpx float_error (set_policy p f) (λ _ s1, reaches L ∅ s A (λ R', R' = R) s1) s) as Hset.
    { intros f Hf. apply wpx_wp. eapply wp_mono; [by eapply wp_set_policy_sound|]. by intros ?? [_ ?]. }
    destruct (f64_le _ _); [by apply Hset|]. apply wpx_bind, wpx_portion_of. intros n. by apply Hset. }
  intros _ s1 (A1&R1&Hso1&Hst1&->). eapply wpx_mono; [eapply IH; [done|set_solver]|].
  intros _ s2 (A2&R2&Hso2&Hst2&->). exists A2, R. split_and!; [done|by eapply stable_trans|done].
Qed.

Lemma wpx_migration_budget L s A R st :
  sound L ∅ s A R → arrays_in L st →
  wpx float_error (allocate_migration_budget st) (λ _ s', reaches L ∅ s A (λ R', R' = R) s') s.
Proof.
  intros Hso [Hneed Htake]. unfold allocate_migration_budget. cbv zeta. apply wpx_bind.
  eapply wpx_mono; [by eapply wpx_demotion_budgets|]. intros tot s1 (A1&R1&Hso1&Hst1&->).
  apply wpx_bind, wpx_wp. eapply wp_fastmem_free_size; [done|]. apply wpx_bind.
  eapply wpx_mono; [by eapply wpx_promotion_budgets|]. intros _ s2 (A2&R2&Hso2&Hst2&->).
  apply wpx_bind, wpx_wp. wp_step. unfold header. wp_step.
  destruct (M_header (so_mgr _ _ _ _ _ Hso2)) as [q Hq]. eapply wp_deref; [done|].
  replace (s2 <| u_pq := _ |>) with s2 by (by destruct s2 as [? ? ? []]).
  apply wpx_ret. exists A2, R. split_and!; [done|by eapply stable_trans|done].
Qed.

(** ** Migrating *)
Lemma wp_bin_numentries s A R d p js :
  ucm_inv s A R None → is_Some (u_procs s !! p) → (∀ i, i ∈ js → 0 ≤ i < NUM_HOTNESS_LEVELS) →
  wp (bin_numentries d p js)
    (λ ns s', s' = s ∧ ns = (λ i, Z.of_nat (length (A (bin d p i)))) <$> js) s.
Proof.
  intros HI Hp. induction js as [|i js IH]; intros Hjs; cbn [bin_numentries]; [by wp_step|].
  destruct (inv_bin_header s A R None d p i HI Hp) as [q Hq]; [specialize (Hjs i); set_solver by lia|].
  wp_step. eapply wp_list_header; [done|]. wp_step. eapply wp_mono; [apply IH; set_solver|].
  intros ns s' [-> ->]. wp_step. split; [done|]. by rewrite (dll_header (I_dll HI) Hq).
Qed.

(** The bytes a process may swap, from the lengths of its lists. *)
Definition swap_bytes (A : list_id → list ptr) (p : ptr) : Z :=
  swap_levels swap_order
    (λ i, default 0 (((λ i, Z.of_nat (length (A (bin false p i)))) <$> seqZ 0 NUM_HOTNESS_LEVELS) !! i))
    (i64 <$> ((λ i, Z.of_nat (length (A (bin true p i)))) <$> seqZ 0 NUM_HOTNESS_LEVELS)) 0.

Lemma wp_intra_bytes s A R p :
  ucm_inv s A R None → is_Some (u_procs s !! p) →
  wp (calculate_intra_process_migration_bytes p) (λ n s', s' = s ∧ n = swap_bytes A p) s.
Proof.
  intros HI Hp. unfold calculate_intra_process_migration_bytes.
  assert (∀ i, i ∈ seqZ 0 NUM_HOTNESS_LEVELS → 0 ≤ i < NUM_HOTNESS_LEVELS) as Hjs.
  { intros i. rewrite elem_of_seqZ. lia. }
  wp_step. eapply wp_mono; [by eapply wp_bin_numentries|]. intros ns s' [-> ->].
  wp_step. eapply wp_mono; [by eapply wp_bin_numentries|]. intros ns s' [-> ->]. by wp_step.
Qed.

Lemma wp_targets_sound L K s A R p st :
  sound L K s A R → p ∈ L →
  wp (set_process_migration_targets p st) (λ _ s', reaches L K s A (λ R', R' = R) s') s.
Proof.
  intros Hso Hp. destruct (sound_proc _ _ _ _ _ p Hso Hp) as [r Hr].
  assert (∀ f, po_target_miss_ratio (f (pr_policy r)) = po_target_miss_ratio (pr_policy r) →
    wp (set_policy p f) (λ _ s1, reaches L K s A (λ R', R' = R) s1) s) as Hset.
  { intros f Hf. eapply wp_mono; [by eapply wp_set_policy_sound|]. by intros ?? [_ ?]. }
  unfold set_process_migration_targets. wp_step. eapply wp_proc; [done|]. cbv zeta.
  destruct (0 <? _).
  { wp_step. eapply wp_fastmem_free_size; [done|]. cbv zeta. by apply Hset. }
  destruct (_ <? 0); [by apply Hset|]. wp_step.
  eapply wp_mono; [eapply wp_intra_bytes; [apply Hso|eauto]|]. intros n s' [-> _]. cbv zeta. by apply Hset.
Qed.

(** The bodies of the loops take the lock of the process, and return it. *)
Lemma wpx_take_lock {U} E L s A R p (k : unit → M ucm U) (Q : U → ucm → Prop) :
  sound L ∅ s A R →
  (∀ s1 A1, sound L {[ inr p ]} s1 A1 R → stable s A s1 A1 → wpx E (k tt) Q s1) →
  wpx E (lock_process p ≫= k) Q s.
Proof.
  intros Hso Hk. eapply wpx_seq; [eapply wp_lock_sound; [done|set_solver]|].
  intros [] s1 A1 R1 Hso1 Hst1 ->. rewrite right_id_L in Hso1 by apply _. by eapply Hk.
Qed.

Lemma wpx_return_lock E L s s1 A A1 R1 p (P : (ptr → ring_sel → list ptr) → Prop) :
  sound L {[ inr p ]} s1 A1 R1 → stable s A s1 A1 → P R1 →
  wpx E (unlock_process p) (λ _ s', reaches L ∅ s A P s') s1.
Proof.
  intros Hso Hst HP. apply wpx_wp. eapply wp_mono; [eapply wp_unlock_sound; [done|set_solver]|].
  intros [] s3 (A3&R3&Hso3&Hst3&->). rewrite difference_diag_L in Hso3.
  exists A3, R1. split_and!; [done|by eapply stable_trans|done].
Qed.

(** A loop over the processes whose rounds keep the rings. *)
Lemma wpx_each E L (body : ptr → M ucm unit) s A R :
  sound L ∅ s A R →
  (∀ p s1 A1, p ∈ L → sound L ∅ s1 A1 R → wpx E (body p) (λ _ s2, reaches L ∅ s1 A1 (λ R', R' = R) s2) s1) →
  wpx E (PROCESS_FOR_EACH body) (λ _ s', reaches L ∅ s A (λ R', R' = R) s') s.
Proof.
  intros Hso Hbody. unfold PROCESS_FOR_EACH.
  apply (wpx_fold_processes _ _ L ∅ (λ _ _ s', reaches L ∅ s A (λ R', R' = R) s')).
  - intros _ _ s'. apply reaches_mgr.
  - intros b p a [] s1 HL (A1&R1&Hso1&Hst1&->).
    eapply wpx_mono; [eapply Hbody; [by eapply list_mem_mid|done]|].
    intros [] s2 (A2&R2&Hso2&Hst2&->). exists A2, R. split_and!; [done|by eapply stable_trans|done].
  - exists A, R. split_and!; [done|apply stable_refl|done].
Qed.

Lemma wpx_cool_process E L s A R p :
  sound L ∅ s A R → p ∈ L →
  wpx E (cool_process p) (λ _ s', reaches L ∅ s A (λ R', R' = R) s') s.
Proof.
  intros Hso Hp. unfold cool_process. eapply wpx_take_lock; [done|]. intros s1 A1 Hso1 Hst1.
  destruct (sound_proc _ _ _ _ _ p Hso1 Hp) as [r1 Hr1].
  pose proof (wp_cool_sound _ _ _ _ _ Hso1 p r1 Hr1 true) as Hc.
  unfold incremental_fastmem_cooling, incremental_slowmem_cooling.
  apply wp_ok in Hc as ([]&s2&Hrun&A2&R2&Hso2&Hst2&->).
  destruct (sound_proc _ _ _ _ _ p Hso2 Hp) as [r2 Hr2].
  pose proof (wp_cool_sound _ _ _ _ _ Hso2 p r2 Hr2 false) as Hc.
  apply wp_ok in Hc as ([]&s3&Hrun3&A3&R3&Hso3&Hst3&->).
  assert (stable s A s3 A3) as Hst by stable_chain.
  pose proof (wpx_return_lock E L s s3 A A3 R p (λ R', R' = R) Hso3 Hst eq_refl) as Hend.
  unfold wpx, mbind, M_bind in *. destruct (partial_cool_impl true p s1) as [o s1'|]; [|done].
  rewrite Hrun. destruct (partial_cool_impl false p s2) as [o2 s2'|]; [|done]. by rewrite Hrun3.
Qed.

Section epoch.
Context (writeprotect : Z → Z → Z → bool → ioctl_result).
Context (Hwp : ∀ uffd va len b, writeprotect uffd va len b ≠ IOCTL_FAILED).
Context (E : err → Prop).

Lemma wpx_migrate_down_process L s A R p st :
  sound L ∅ s A R → p ∈ L → R p FreeRing = [] →
  wpx E (migrate_down_process writeprotect st p) (λ _ s', reaches L ∅ s A (λ R', R' = R) s') s.
Proof using Hwp.
  intros Hso Hp Hfree. unfold migrate_down_process. eapply wpx_take_lock; [done|]. intros s1 A1 Hso1 Hst1.
  eapply wpx_seq; [by eapply wp_targets_sound|]. intros _ s2 A2 R2 Hso2 Hst2 ->.
  destruct (sound_proc _ _ _ _ _ p Hso2 Hp) as [r2 Hr2]. apply wpx_bind, wpx_wp. eapply wp_proc; [done|].
  eapply wpx_seq; [by eapply wp_migrate_down_sound|]. intros _ s3 A3 R3 Hso3 Hst3 ->.
  eapply wpx_return_lock; [done| |done]. stable_chain.
Qed.

Lemma wpx_migrate_up_process L s A R p :
  sound L ∅ s A R → p ∈ L → R p FreeRing = [] →
  wpx E (migrate_up_process writeprotect p) (λ _ s', reaches L ∅ s A (λ R', R' = R) s') s.
Proof using Hwp.
  intros Hso Hp Hfree. unfold migrate_up_process. eapply wpx_take_lock; [done|]. intros s1 A1 Hso1 Hst1.
  destruct (sound_proc _ _ _ _ _ p Hso1 Hp) as [r1 Hr1]. apply wpx_bind, wpx_wp. eapply wp_proc; [done|].
  eapply wpx_seq; [by eapply wp_migrate_up_sound|]. intros _ s3 A3 R3 Hso3 Hst3 ->.
  eapply wpx_return_lock; [done| |done]. stable_chain.
Qed.

Lemma wpx_do_migration L s A R st :
  sound L ∅ s A R → (∀ p, p ∈ L → R p FreeRing = []) →
  wpx E (do_migration writeprotect st) (λ _ s', reaches L ∅ s A (λ R', R' = R) s') s.
Proof using Hwp.
  intros Hso Hfree. unfold do_migration. apply wpx_bind. eapply wpx_mono.
  { eapply wpx_each; [done|]. intros p s1 A1 Hp Hso1. apply wpx_migrate_down_process; auto. }
  intros [] s1 (A1&R1&Hso1&Hst1&->). eapply wpx_mono.
  { eapply wpx_each; [done|]. intros p s2 A2 Hp Hso2. apply wpx_migrate_up_process; auto. }
  intros [] s2 (A2&R2&Hso2&Hst2&->). exists A2, R. split_and!; [done|by eapply stable_trans|done].
Qed.
End epoch.

(** An epoch of the policy. *)
Lemma wpx_qos_policy_epoch writeprotect L s A R enable st :
  (∀ uffd va len b, writeprotect uffd va len b ≠ IOCTL_FAILED) → sound L ∅ s A R →
  wpx float_error (qos_policy_epoch writeprotect enable st)
    (λ _ s', reaches L ∅ s A (λ R', ∀ q, q ∈ L → R' q FreeRing = []) s') s.
Proof.
  intros Hwp Hso. unfold qos_policy_epoch. apply wpx_bind.
  eapply wpx_mono; [by eapply wpx_check_mem|]. intros st1 s1 (Harr&A1&R1&Hso1&Hst1&Hfree).
  apply wpx_bind. eapply (wpx_mono _ _ (λ _ s2, reaches L ∅ s A (λ R', R' = R1) s2)).
  { destruct enable; [|apply wpx_ret; by exists A1, R1].
    apply wpx_bind. eapply wpx_mono; [by eapply wpx_migration_budget|]. intros st2 s2 (A2&R2&Hso2&Hst2&->).
    apply wpx_bind. eapply wpx_mono; [by eapply wpx_do_migration|]. intros [] s3 (A3&R3&Hso3&Hst3&->).
    apply wpx_ret. exists A3, R1. split_and!; [done| |done]. stable_chain. }
  intros st2 s2 (A2&R2&Hso2&Hst2&->). apply wpx_bind. eapply wpx_mono.
  { eapply wpx_each; [done|]. intros p s3 A3 Hp Hso3. by apply wpx_cool_process. }
  intros [] s3 (A3&R3&Hso3&Hst3&->). apply wpx_ret. exists A3, R1. split_and!; [done| |done].
  by eapply stable_trans.
Qed.
