(* ===== verification/EvolveOk.v ===== *)
(** * What applications see of a step

    The page tables of the processes, the frames of the pages and the bytes in
    them are what the applications see of the manager.  [evolves s s' lost new]
    says that a step changes nothing of this but to take the mappings [lost]
    away and to add the mappings [new]; [coherent s] that every application
    maps each of its pages to the frame that holds it. *)

From S2P Require Import Prelude Fifo Ring F64 ProcList Types Hotness Mm MmAsync Ucm Process Telem Migrate Inv UcmWp AsyncOk TableOk AllocOk RequestOk ProcessOk TelemOk MigrateOk MigrateRun EpochOk.

(** The page of the process [q] at the address [va]. *)
Definition entry (s : ucm) (q : ptr) (r : hemem_process) (va : Z) (x : ptr) : Prop :=
  u_procs s !! q = Some r ∧ mm_pages (pr_mm r) !! va = Some x.

(** The page [x] is in the same frame, and its bytes are the same. *)
Definition same_page (s s' : ucm) (x : ptr) : Prop :=
  ∃ pg pg', u_pages s !! x = Some pg ∧ u_pages s' !! x = Some pg' ∧ frame pg' = frame pg ∧
    ∀ o, 0 ≤ o < HUGEPAGE_SIZE → byte s' pg' o = byte s pg o.

Record evolves (s s' : ucm) (lost new : ptr → Z → Prop) : Prop := Evolves {
  ev_kept q r va x : entry s q r va x → lost q va ∨ ∃ r', entry s' q r' va x;
  ev_entry q r' va x : entry s' q r' va x → new q va ∨
    ∃ r, entry s q r va x ∧ pr_pid r' = pr_pid r ∧ same_page s s' x;
  ev_app : u_app s' = u_app s;
}.

Definition nothing : ptr → Z → Prop := λ _ _, False.

(** The mapping of each application agrees with the page tables, except for
    the mappings [new]. *)
Definition coherent_but (s : ucm) (new : ptr → Z → Prop) : Prop :=
  ∀ q r va x pg, entry s q r va x → u_pages s !! x = Some pg → new q va ∨
    u_app s !! (pr_pid r, va) = Some (tier_of (pg_in_dram pg), pg_devdax_offset pg).

Definition coherent (s : ucm) : Prop := coherent_but s nothing.

Lemma evolves_coherent s s' lost new :
  coherent s → evolves s s' lost new → coherent_but s' new.
Proof.
  intros Hc [_ He Ha] q r' va x pg' Hx Hpg'. destruct (He q r' va x Hx) as [?|(r&Hx0&Hpid&Hsame)]; [by left|].
  destruct Hsame as (pg&pg0&Hpg&Hpg0&[= Hd Ho]&_). rewrite Hpg' in Hpg0. injection Hpg0 as <-.
  right. rewrite Ha, Hpid, Hd, Ho. by destruct (Hc q r va x pg Hx0 Hpg).
Qed.

(** The two ways to say it. *)
Lemma app_maps_coherent s A R : ucm_inv s A R None → app_maps s A ↔ coherent s.
Proof.
  intros HI. split.
  - intros Hm q r va x pg [Hr Hx] Hpg. right.
    destruct (table_page s A R None HI q r Hr va x Hx) as (d&i&pg0&Hb&Hpg0&Hu&<-&Hf).
    rewrite Hpg in Hpg0. injection Hpg0 as <-. apply (Hm q x pg r); [|done..].
    exists d, i. split; [apply Hu|done].
  - intros Hc q x pg r (d&i&Hi&Hb) Hpg Hf Hr.
    pose proof (used_here s A R None HI q x d i pg r Hb Hpg Hr) as Hu.
    destruct (Hc q r (pg_va pg) x pg) as [[]|?]; [split; [done|]|done..].
    apply (up_pages _ _ _ _ _ _ _ Hu). by rewrite (up_hh _ _ _ _ _ _ _ Hu), Hf.
Qed.

(** ** Steps that change no mapping *)
Lemma observed_evolves s A R s' :
  ucm_inv s A R None → observed s A R s' → evolves s s' nothing nothing.
Proof.
  intros HI [_ Hp Hq _ Hw].
  assert (∀ q r r', u_procs s !! q = Some r → u_procs s' !! q = Some r' →
    pr_pid r' = pr_pid r ∧ mm_pages (pr_mm r') = mm_pages (pr_mm r)) as Hproc.
  { intros q r r' Hr Hr'. specialize (Hq q). rewrite Hr, Hr' in Hq. simpl in Hq. unfold proc_core in Hq.
    split; congruence. }
  split.
  - intros q r va x [Hr Hx]. right. pose proof (Hq q) as Hq'. rewrite Hr in Hq'.
    destruct (u_procs s' !! q) as [r'|] eqn:Hr'; [|done]. exists r'. split; [done|].
    destruct (Hproc _ _ _ Hr Hr') as [_ ->]. done.
  - intros q r' va x [Hr' Hx]. right. pose proof (Hq q) as Hq'. rewrite Hr' in Hq'.
    destruct (u_procs s !! q) as [r|] eqn:Hr; [|done]. destruct (Hproc _ _ _ Hr Hr') as [Hpid Ht].
    rewrite Ht in Hx. exists r. split_and!; [by split|done|].
    destruct (table_page s A R None HI q r Hr va x Hx) as (_&_&pg&_&Hpg&_).
    specialize (Hp x). rewrite Hpg in Hp. destruct (u_pages s' !! x) as [pg'|] eqn:Hpg'; [|done].
    apply (inj Some) in Hp. unfold page_place, page_core in Hp. unfold world in Hw.
    exists pg, pg'. split_and!; [done..|unfold frame; congruence|].
    intros o _. unfold byte. congruence.
  - unfold world in Hw. congruence.
Qed.

Lemma evolves_refl s A R : ucm_inv s A R None → evolves s s nothing nothing.
Proof. intros HI. eapply observed_evolves; [done|]. by apply observed_refl. Qed.

(** ** Allocation *)
Lemma byte_in_frame pg o :
  0 ≤ o < HUGEPAGE_SIZE → in_frame pg (tier_of (pg_in_dram pg)) (pg_devdax_offset pg + o).
Proof. intros Ho. split; [done|lia]. Qed.

Lemma elem_of_boundaries base k va :
  va ∈ boundaries base k ↔ ∃ i, 0 ≤ i < Z.of_nat k ∧ va = base + i * HUGEPAGE_SIZE.
Proof.
  unfold boundaries. rewrite list_elem_of_fmap. split.
  - intros (j&->&Hj%elem_of_seq). exists (Z.of_nat j). split; [lia|done].
  - intros (i&Hi&->). exists (Z.to_nat i). rewrite elem_of_seq. split; [by rewrite Z2Nat.id by lia|lia].
Qed.

Definition new_at (p : ptr) (vas : list Z) : ptr → Z → Prop := λ q va, q = p ∧ va ∈ vas.

Lemma progress_evolves s A R p r start pages s' A' :
  ucm_inv s A R None → progress s A R p start pages s' A' → u_procs s !! p = Some r →
  (∀ va, va ∈ boundaries start (length pages) → mm_pages (pr_mm r) !! va = None) →
  evolves s s' nothing (new_at p (boundaries start (length pages))).
Proof.
  intros HI [HI' Hmisc Hoth (r0&r1&Hr0&Hr1&Ht&Hnew&_) Hused Hmem _ _ Hst] Hr Hfresh.
  rewrite Hr in Hr0. injection Hr0 as <-.
  assert (∀ q r va x, entry s q r va x → same_page s s' x) as Hsame.
  { intros q r2 va x [Hr2 Hx]. destruct (table_page s A R None HI q r2 Hr2 va x Hx) as (d&i&pg&Hb&Hpg&_).
    destruct (Hused d q i x Hb) as [_ Heq]. exists pg, pg. split_and!; [done|congruence|done|].
    intros o Ho. unfold byte. apply (Hmem d q i x pg); [done..|]. by apply byte_in_frame. }
  assert (∀ va, va ∉ boundaries start (length pages) → mm_pages (pr_mm r1) !! va = mm_pages (pr_mm r) !! va) as Ht'.
  { intros va Hva. apply Ht. intros i Hi ->. apply Hva, elem_of_boundaries. eauto. }
  split.
  - intros q r2 va x [Hr2 Hx]. right. destruct (decide (q = p)) as [->|Hq].
    + rewrite Hr in Hr2. injection Hr2 as <-. exists r1. split; [done|]. rewrite Ht'; [done|].
      intros Hva%Hfresh. congruence.
    + exists r2. split; [by rewrite Hoth|done].
  - intros q r2 va x [Hr2 Hx]. destruct (decide (q = p)) as [->|Hq].
    + rewrite Hr1 in Hr2. injection Hr2 as <-.
      destruct (decide (va ∈ boundaries start (length pages))) as [Hva|Hva]; [left; by split|].
      rewrite Ht' in Hx by done. assert (entry s p r va x) as He by by split.
      right. exists r. split_and!; [done| |by eapply Hsame].
      specialize (Hst p). rewrite Hr, Hr1 in Hst. simpl in Hst. unfold proc_steady in Hst. congruence.
    + rewrite Hoth in Hr2 by done. right. exists r2. assert (entry s q r2 va x) as He by by split.
      split_and!; [done..|by eapply Hsame].
  - unfold misc in Hmisc. congruence.
Qed.

(** ** Taking mappings away *)
Lemma unmapped_evolves s A R p vas s' :
  ucm_inv s A R None → unmapped p vas s s' → evolves s s' (new_at p vas) nothing.
Proof.
  intros HI [(r&r1&Hr&Hr1&Ht&Hp) Hoth Hmisc Hmem Hst].
  assert (∀ q r va x, entry s q r va x → (q = p → va ∉ vas) → same_page s s' x) as Hsame.
  { intros q r2 va x [Hr2 Hx] Hva. destruct (table_page s A R None HI q r2 Hr2 va x Hx) as (d&i&pg&Hb&Hpg&Hu&Hvaeq&_).
    exists pg, pg. split_and!; [done| |done|intros o _; unfold byte; by rewrite Hmem].
    rewrite Hp; [done|]. intros va' Hva' Hx'.
    destruct (table_page s A R None HI p r Hr va' x Hx') as (d'&i'&pg'&Hb'&Hpg'&Hu'&Hvaeq'&_).
    destruct (bins_unique _ _ (I_dll HI) _ _ _ _ _ _ _ Hb Hb') as (_&->&_).
    apply Hva; [done|]. congruence. }
  split.
  - intros q r2 va x [Hr2 Hx]. destruct (decide (q = p)) as [->|Hq].
    + rewrite Hr in Hr2. injection Hr2 as <-. destruct (decide (va ∈ vas)) as [Hva|Hva]; [left; by split|].
      right. exists r1. split; [done|]. by rewrite Ht, decide_False.
    + right. exists r2. split; [by rewrite Hoth|done].
  - intros q r2 va x [Hr2 Hx]. right. destruct (decide (q = p)) as [->|Hq].
    + rewrite Hr1 in Hr2. injection Hr2 as <-. rewrite Ht in Hx. case_decide as Hva; [done|].
      assert (entry s p r va x) as He by by split. exists r. split_and!; [done| |by eapply Hsame].
      specialize (Hst p). rewrite Hr, Hr1 in Hst. simpl in Hst. unfold proc_steady in Hst. congruence.
    + rewrite Hoth in Hr2 by done. assert (entry s q r2 va x) as He by by split.
      exists r2. split_and!; [done..|]. eapply Hsame; [done|]. by intros ->.
  - unfold misc in Hmisc. congruence.
Qed.

(** ** Processes that come and go *)
Lemma kept_evolves s A R s' A' R' (D : ptr → Prop) :
  ucm_inv s A R None → ucm_inv s' A' R' None → (∀ q, D q ∨ ¬ D q) →
  (∀ q x, in_bins A' q x ↔ in_bins A q x ∧ ¬ D q) →
  (∀ q, ¬ D q → R' q FreeRing = R q FreeRing) →
  (∀ q, ¬ D q → proc_keep <$> u_procs s' !! q = proc_keep <$> u_procs s !! q) →
  (∀ q, D q → u_procs s' !! q = None) →
  pages_kept (u_pages s) (u_pages s') → world s' = world s →
  evolves s s' (λ q _, D q) nothing.
Proof.
  intros HI HI' Hdec Hbins HR Hproc HD Hpages Hw. unfold world in Hw.
  assert (∀ q x, ¬ D q → in_bins A q x → ∃ pg pg' r r' d d' i i',
    u_pages s !! x = Some pg ∧ u_pages s' !! x = Some pg' ∧ page_keep pg' = page_keep pg ∧
    pg_in_free_ring pg' = pg_in_free_ring pg ∧ u_procs s !! q = Some r ∧ u_procs s' !! q = Some r' ∧
    pr_pid r' = pr_pid r ∧ used_page (u_pa_map s) d q i r x pg ∧
    used_page (u_pa_map s') d' q i' r' x pg') as Hpage.
  { intros q x Hq Hb. assert (in_bins A' q x) as Hb' by by apply Hbins.
    pose proof Hb as (d&i&_&Hi). pose proof Hb' as (d'&i'&_&Hi').
    destruct (I_used HI Hi) as (pg&r&Hpg&Hr&Hu). destruct (I_used HI' Hi') as (pg'&r'&Hpg'&Hr'&Hu').
    exists pg, pg', r, r', d, d', i, i'. specialize (Hpages x). rewrite Hpg, Hpg' in Hpages.
    apply (inj Some) in Hpages. specialize (Hproc q Hq). rewrite Hr, Hr' in Hproc. simpl in Hproc.
    unfold proc_keep in Hproc. split_and!; [done..| |done|done|congruence|done|done].
    rewrite (waiting s' A' R' q x pg' HI' Hb' Hpg'), (waiting s A R q x pg HI Hb Hpg). by rewrite HR. }
  split.
  - intros q r va x [Hr Hx]. destruct (Hdec q) as [?|Hq]; [by left|]. right.
    destruct (table_page s A R None HI q r Hr va x Hx) as (d0&i0&pg0&Hb0&Hpg0&Hu0&Hva0&Hf0).
    destruct (Hpage q x Hq) as (pg&pg'&r1&r'&d&d'&i&i'&Hpg&Hpg'&Hk&Hf&Hr1&Hr'&Hpid&Hu&Hu').
    { exists d0, i0. split; [apply Hu0|done]. }
    exists r'. split; [done|]. simplify_eq. apply (up_pages _ _ _ _ _ _ _ Hu').
    rewrite (up_hh _ _ _ _ _ _ _ Hu'), Hf, Hf0. unfold page_keep in Hk. congruence.
  - intros q r' va x [Hr' Hx]. right.
    destruct (table_page s' A' R' None HI' q r' Hr' va x Hx) as (d0&i0&pg0&Hb0&Hpg0&Hu0&Hva0&Hf0).
    assert (in_bins A' q x) as [Hb Hq]%Hbins by (exists d0, i0; split; [apply Hu0|done]).
    destruct (Hpage q x Hq Hb) as (pg&pg'&r&r1&d&d'&i&i'&Hpg&Hpg'&Hk&Hf&Hr&Hr1&Hpid&Hu&Hu').
    rewrite Hr' in Hr1. injection Hr1 as <-. rewrite Hpg' in Hpg0. injection Hpg0 as <-.
    unfold page_keep in Hk. exists r. split_and!; [split; [done|]|done|].
    + apply (up_pages _ _ _ _ _ _ _ Hu). rewrite (up_hh _ _ _ _ _ _ _ Hu), <- Hf, Hf0. congruence.
    + exists pg, pg'. split_and!; [done..|unfold frame; congruence|]. intros o _. unfold byte. congruence.
  - congruence.
Qed.

Lemma in_bins_tier A A' (D : ptr → Prop) :
  (∀ d q x, in_tier A' d q x ↔ in_tier A d q x ∧ ¬ D q) →
  ∀ q x, in_bins A' q x ↔ in_bins A q x ∧ ¬ D q.
Proof. intros H q x. unfold in_bins. setoid_rewrite H. naive_solver. Qed.

Lemma gone_evolves s A R p L K s' A' R' :
  ucm_inv s A R None → ucm_inv s' A' R' None → process_gone s A p L K s' A' →
  (∀ q, q ≠ p → R' q = R q) → evolves s s' (λ q _, q = p) nothing.
Proof.
  intros HI HI' [_ Hgone Hoth Hused _ Hw Hpages] HR.
  eapply (kept_evolves s A R s' A' R' (λ q, q = p)); auto.
  - intros q. destruct (decide (q = p)); auto.
  - by apply in_bins_tier.
  - intros q Hq. by rewrite HR.
  - by intros q ->.
Qed.

Lemma pruned_evolves s A R D s' A' R' :
  ucm_inv s A R None → ucm_inv s' A' R' None → pruned s A D s' A' →
  (∀ q, q ∉ D → R' q = R q) → evolves s s' (λ q _, q ∈ D) nothing.
Proof.
  intros HI HI' [Hused _ Hoth Hgone Hw Hpages] HR.
  eapply (kept_evolves s A R s' A' R' (λ q, q ∈ D)); auto.
  - intros q. destruct (decide (q ∈ D)); auto.
  - by apply in_bins_tier.
  - intros q Hq. by rewrite HR.
Qed.

Lemma evolves_trans s1 s2 s3 l1 l2 n1 n2 :
  evolves s1 s2 l1 n1 → evolves s2 s3 l2 n2 →
  evolves s1 s3 (λ q va, l1 q va ∨ l2 q va) (λ q va, n1 q va ∨ n2 q va).
Proof.
  intros [K1 E1 A1] [K2 E2 A2]. split; [| |congruence].
  - intros q r va x Hx. destruct (K1 _ _ _ _ Hx) as [?|(r2&Hx2)]; [by left; left|].
    destruct (K2 _ _ _ _ Hx2) as [?|?]; [by left; right|by right].
  - intros q r3 va x Hx. destruct (E2 _ _ _ _ Hx) as [?|(r2&Hx2&P2&S2)]; [by left; right|].
    destruct (E1 _ _ _ _ Hx2) as [?|(r1&Hx1&P1&S1)]; [by left; left|].
    right. exists r1. split_and!; [done|congruence|].
    destruct S1 as (pg1&pg2&H1&H2&F1&B1), S2 as (pg2'&pg3&H2'&H3&F2&B2). rewrite H2 in H2'. injection H2' as <-.
    exists pg1, pg3. split_and!; [done|done|congruence|]. intros o Ho. by rewrite B2, B1.
Qed.

Lemma evolves_weaken s s' l1 l2 n1 n2 :
  evolves s s' l1 n1 → (∀ q va, l1 q va → l2 q va) → (∀ q va, n1 q va → n2 q va) →
  evolves s s' l2 n2.
Proof. intros [K E A] Hl Hn. split; [|..|done]; intros; [destruct (K q r va x)|destruct (E q r' va x)]; auto. Qed.

(** A step before or after which nothing changes. *)
Lemma evolves_after s1 s2 s3 lost new :
  evolves s1 s2 nothing nothing → evolves s2 s3 lost new → evolves s1 s3 lost new.
Proof. intros H1 H2. eapply evolves_weaken; [by eapply evolves_trans|..]; unfold nothing; naive_solver. Qed.

(** Only processes without pages are new. *)
Lemma evolves_procs s A R s' :
  ucm_inv s A R None → u_pages s' = u_pages s → u_mem s' = u_mem s → u_app s' = u_app s →
  (∀ q r, u_procs s !! q = Some r → ∃ r', u_procs s' !! q = Some r' ∧
     pr_pid r' = pr_pid r ∧ mm_pages (pr_mm r') = mm_pages (pr_mm r)) →
  (∀ q r', u_procs s' !! q = Some r' → is_Some (u_procs s !! q) ∨ mm_pages (pr_mm r') = ∅) →
  evolves s s' nothing nothing.
Proof.
  intros HI Hp Hm Ha Hkeep Hnew. split; [| |done].
  - intros q r va x [Hr Hx]. right. destruct (Hkeep q r Hr) as (r'&Hr'&_&Ht). exists r'.
    split; [done|congruence].
  - intros q r' va x [Hr' Hx]. right. destruct (Hnew q r' Hr') as [[r Hr]|He].
    2: { by rewrite He, lookup_empty in Hx. }
    destruct (Hkeep q r Hr) as (r2&Hr2&Hpid&Ht). rewrite Hr' in Hr2. injection Hr2 as <-.
    rewrite Ht in Hx. exists r. split_and!; [by split|done|].
    destruct (table_page s A R None HI q r Hr va x Hx) as (_&_&pg&_&Hpg&_).
    exists pg, pg. rewrite Hp. split_and!; [done..|]. intros o _. unfold byte. by rewrite Hm.
Qed.

(** ** Steps that may move pages *)

(** Like [evolves], but a page may be in another frame than before. *)
Record preserves (s s' : ucm) (lost new : ptr → Z → Prop) : Prop := Preserves {
  pv_kept q r va x : entry s q r va x → lost q va ∨ ∃ r', entry s' q r' va x;
  pv_entry q r' va x : entry s' q r' va x → new q va ∨
    ∃ r pg pg', entry s q r va x ∧ pr_pid r' = pr_pid r ∧
      u_pages s !! x = Some pg ∧ u_pages s' !! x = Some pg' ∧
      ∀ o, 0 ≤ o < HUGEPAGE_SIZE → byte s' pg' o = byte s pg o;
}.

Lemma evolves_preserves s s' lost new : evolves s s' lost new → preserves s s' lost new.
Proof.
  intros [K E _]. split; [done|]. intros q r' va x Hx.
  destruct (E q r' va x Hx) as [?|(r&Hx0&Hp&pg&pg'&Hpg&Hpg'&_&Hb)]; [by left|]. right.
  by exists r, pg, pg'.
Qed.

Lemma preserves_trans s1 s2 s3 l1 l2 n1 n2 :
  preserves s1 s2 l1 n1 → preserves s2 s3 l2 n2 →
  preserves s1 s3 (λ q va, l1 q va ∨ l2 q va) (λ q va, n1 q va ∨ n2 q va).
Proof.
  intros [K1 E1] [K2 E2]. split.
  - intros q r va x Hx. destruct (K1 _ _ _ _ Hx) as [?|(r2&Hx2)]; [by left; left|].
    destruct (K2 _ _ _ _ Hx2) as [?|?]; [by left; right|by right].
  - intros q r3 va x Hx. destruct (E2 _ _ _ _ Hx) as [?|(r2&pg2&pg3&Hx2&P2&Hpg2&Hpg3&B2)]; [by left; right|].
    destruct (E1 _ _ _ _ Hx2) as [?|(r1&pg1&pg2'&Hx1&P1&Hpg1&Hpg2'&B1)]; [by left; left|].
    rewrite Hpg2 in Hpg2'. injection Hpg2' as <-. right. exists r1, pg1, pg3.
    split_and!; [done|congruence|done|done|]. intros o Ho. by rewrite B2, B1.
Qed.

Lemma preserves_weaken s s' l1 l2 n1 n2 :
  preserves s s' l1 n1 → (∀ q va, l1 q va → l2 q va) → (∀ q va, n1 q va → n2 q va) →
  preserves s s' l2 n2.
Proof. intros [K E] Hl Hn. split; intros; [destruct (K q r va x)|destruct (E q r' va x)]; auto. Qed.

(** An epoch moves pages and returns the frames that wait to be freed. *)
Lemma stable_preserves s A R s' A' R' :
  ucm_inv s A R None → ucm_inv s' A' R' None → stable s A s' A' → preserves s s' nothing nothing.
Proof.
  intros HI HI' [Hu Hg Hd _ Hp _ _].
  assert (∀ q r, u_procs s !! q = Some r → ∃ r', u_procs s' !! q = Some r' ∧ pr_pid r' = pr_pid r) as Hproc.
  { intros q r Hr. specialize (Hp q). rewrite Hr in Hp. destruct (u_procs s' !! q) as [r'|]; [|done].
    exists r'. split; [done|]. simpl in Hp. unfold proc_ident in Hp. congruence. }
  split.
  - intros q r va x [Hr Hx]. right.
    destruct (table_page s A R None HI q r Hr va x Hx) as (d&i&pg&Hb&Hpg&Hup&Hva&Hf).
    assert (in_bins A q x) as Hin by (exists d, i; split; [apply Hup|done]).
    destruct (in_bins_dec A' q x) as [Hin'|Hn]; [|by rewrite (Hg q x pg Hin Hn Hpg) in Hf].
    destruct (Hd q x pg Hin' Hpg) as (pg'&Hpg'&[= Hva' Hf']&_). destruct (Hproc q r Hr) as (r'&Hr'&_).
    destruct Hin' as (d'&i'&_&Hb'). pose proof (used_here s' A' R' None HI' q x d' i' pg' r' Hb' Hpg' Hr') as Hup'.
    exists r'. split; [done|]. apply (up_pages _ _ _ _ _ _ _ Hup').
    rewrite (up_hh _ _ _ _ _ _ _ Hup'), Hf', Hf. congruence.
  - intros q r' va x [Hr' Hx]. right.
    destruct (table_page s' A' R' None HI' q r' Hr' va x Hx) as (d'&i'&pg'&Hb'&Hpg'&Hup'&Hva'&Hf').
    assert (in_bins A' q x) as Hin' by (exists d', i'; split; [apply Hup'|done]).
    destruct (Hu q x Hin') as (d&i&_&Hb). destruct (I_used HI Hb) as (pg&r&Hpg&Hr&Hup).
    destruct (Hd q x pg Hin' Hpg) as (pg2&Hpg2&[= Hva Hf]&Hby). rewrite Hpg' in Hpg2. injection Hpg2 as <-.
    destruct (Hproc q r Hr) as (r2&Hr2&Hpid). rewrite Hr' in Hr2. injection Hr2 as <-.
    exists r, pg, pg'. split_and!; [split; [done|]|done..].
    apply (up_pages _ _ _ _ _ _ _ Hup). rewrite (up_hh _ _ _ _ _ _ _ Hup), <- Hf, Hf'. congruence.
Qed.

(** ** What an application reads *)

(** The byte at the offset [o] of the huge page at [va]. *)
Definition app_byte (s : ucm) (pid va o : Z) : option Z :=
  (λ f, u_mem s f.1 (f.2 + o)) <$> u_app s !! (pid, va).

Lemma coherent_app_byte s q r va x pg o :
  coherent s → entry s q r va x → u_pages s !! x = Some pg →
  app_byte s (pr_pid r) va o = Some (byte s pg o).
Proof. intros Hc Hx Hpg. unfold app_byte. by destruct (Hc q r va x pg Hx Hpg) as [[]| ->]. Qed.

Lemma preserves_app_byte s s' lost new q r' va x o :
  coherent s → coherent s' → preserves s s' lost new → entry s' q r' va x →
  0 ≤ o < HUGEPAGE_SIZE → new q va ∨
    ∃ v, app_byte s (pr_pid r') va o = Some v ∧ app_byte s' (pr_pid r') va o = Some v.
Proof.
  intros Hc Hc' [_ E] Hx Ho. destruct (E _ _ _ _ Hx) as [?|(r&pg&pg'&Hx0&Hp&Hpg&Hpg'&Hb)]; [by left|right].
  exists (byte s pg o). rewrite (coherent_app_byte s' q r' va x pg' o) by done.
  rewrite Hp, (coherent_app_byte s q r va x pg o) by done. by rewrite Hb.
Qed.
