(* ===== verification/Ipc.v ===== *)
(** * The request server (src/src/ucm/ipc/ipc.c) and the page-fault handler
    (src/src/ucm/uffd.c)

    An application talks to the manager over a socket: it adds itself, hands
    over its userfaultfd and its remap socket, asks for memory, gives it back
    and leaves.  The kernel reports page faults and unmapped ranges on the
    userfaultfd.

    Sockets, [/proc] and the kernel are the environment: the descriptors an
    application sends come with the request, and what [map_nspid_to_pid]
    (which reads [/proc]) and the ioctls return are parameters. *)

From S2P Require Import Prelude Fifo Ring F64 ProcList Types Hotness Mm MmAsync Ucm Process Migrate.

(** The manager, [uffd_to_proc] of uffd.c, and the descriptors the two epoll
    instances watch. *)
Record srv := Srv {
  sv_ucm : ucm;
  uffd_to_proc : gmap Z ptr;
  request_epoll : gset Z;
  fault_epoll : gset Z;
}.
#[global] Instance eta_srv : Eta srv :=
  λ r, Srv (sv_ucm r) (uffd_to_proc r) (request_epoll r) (fault_epoll r).
#[global] Instance set_sv_ucm : Setter sv_ucm := ltac:(mk_setter).
#[global] Instance set_uffd_to_proc : Setter uffd_to_proc := ltac:(mk_setter).
#[global] Instance set_request_epoll : Setter request_epoll := ltac:(mk_setter).
#[global] Instance set_fault_epoll : Setter fault_epoll := ltac:(mk_setter).

(** [struct hemem_process *uffd_to_proc[1024]]. *)
Definition MAX_UFFD : Z := 1024.

(** ** ipc-shared.h *)
Inductive operation :=
  | ALLOC_SPACE | FREE_SPACE | ADD_PROCESS | REMOVE_PROCESS | RECORD_UFFD | REMAP_PAGES
  | RECORD_REMAP_FD.
Inductive status_code := SUCCESS | FAILED | INVALID_REQUEST | NO_SPACE.

Record msg_header := MsgHeader {
  h_status : status_code;
  h_pid : Z;
  h_operation : operation;
}.
Record alloc_request := AllocRequest {
  al_pid : Z;
  al_addr : Z;
  al_length : Z;
  al_map_fixed : bool;
}.
Record add_process_request := AddProcessRequest {
  ap_target_miss_ratio : f64;
  ap_pid : Z;
  ap_pid_namespace : Z;
  ap_zero : bool;
}.

(** A message read from a descriptor; with [ADD_PROCESS] comes the userfaultfd
    the application sends next. *)
Inductive message :=
  | AllocSpace (request : alloc_request)
  | FreeSpace (pid addr length : Z)
  | AddProcess (request : add_process_request) (uffd : Z)
  | RemoveProcess (pid : Z)
  | RecordRemapFd (pid : Z)
  | UnknownMessage.

(** The header and the pages of a response. *)
Definition msg_response : Type := msg_header * list hemem_page_app.

(** The sizes of the structs of ipc-shared.h, and the [msg_size] that the
    handlers put in the header of a response. *)
Definition MAX_SIZE : Z := 262128.
Definition sizeof_msg_header : Z := 24.
Definition sizeof_hemem_page_app : Z := 32.
Definition sizeof_alloc_response : Z := sizeof_msg_header + 8.
Definition sizeof_add_process_response : Z := sizeof_msg_header + 136.
Definition msg_size (resp : msg_response) : Z :=
  match h_operation resp.1 with
  | ALLOC_SPACE => sizeof_alloc_response + sizeof_hemem_page_app * Z.of_nat (length resp.2)
  | ADD_PROCESS => sizeof_add_process_response
  | _ => sizeof_msg_header
  end.

(** The length of the buffer in which [process_msg] has the response written. *)
Definition send_buf_len (msg : message) : Z :=
  match msg with
  | AllocSpace request =>
      let len := sizeof_alloc_response + sizeof_hemem_page_app *
                   (al_length request / HUGEPAGE_SIZE +
                    if al_length request mod HUGEPAGE_SIZE =? 0 then 0 else 1) in
      if MAX_SIZE <? len then len else MAX_SIZE
  | _ => MAX_SIZE
  end.

(** uffd.c *)
Definition add_process_uffd (process : ptr) (uffd : Z) : M srv unit :=
  if (0 <=? uffd) && (uffd <? MAX_UFFD) then
    modify (λ sv, sv <| uffd_to_proc ::= insert uffd process |>
                     <| fault_epoll ::= union {[ uffd ]} |>)
  else fail (Undefined "uffd_to_proc out of bounds").

Section server.
Context (alloc_mode : ALLOC_MODE) (map_nspid_to_pid : Z → Z → Z).

(** ** ipc.c *)
Definition ipc_handle_add_process (request : add_process_request) : M srv (ptr * msg_response) :=
  let pid := map_nspid_to_pid (ap_pid_namespace request) (ap_pid request) in
  assert_ "ipc.c:78" (0 <=? pid);;
  zoom sv_ucm (
    found ← find_process pid;
    process ← (match found with
               | Some p => mret p
               | None => hemem_process_init pid
               end);
    set_proc process (λ r, r
      <| pr_policy ::= process_policy_set_miss_ratio (ap_target_miss_ratio request) |>);;
    set_proc process (λ r, r <| pr_zero := ap_zero request |>);;
    fsz ← get_fastmem_size;
    set_mm process (λ mm, mm <| mm_max_fastmem := fsz |>);;
    when (is_null found) (add_process process);;
    mret (process, (MsgHeader SUCCESS pid ADD_PROCESS, []))).

Definition ipc_handle_record_uffd (uffd : Z) (process : ptr) : M srv msg_response :=
  zoom sv_ucm (set_proc process (λ r, r <| pr_uffd := uffd |> <| pr_valid_uffd := true |>));;
  add_process_uffd process uffd;;
  r ← zoom sv_ucm (proc process);
  mret (MsgHeader SUCCESS (pr_pid r) RECORD_UFFD, []).

(** The response to the process is written first; the one to the userfaultfd
    is left for [process_msg] to write. *)
Definition ipc_add_process_handshake (request : add_process_request) (uffd : Z) :
    M srv (msg_response * msg_response) :=
  '(process, resp) ← ipc_handle_add_process request;
  resp' ← ipc_handle_record_uffd uffd process;
  mret (resp, resp').

Definition ipc_handle_remove_process (pid : Z) : M srv msg_response :=
  zoom sv_ucm (
    o ← find_process pid;
    match o with
    | Some process =>
        set_proc process (λ r, r <| pr_exited := true |>);;
        ucm_remove_process process
    | None => mret tt
    end);;
  mret (MsgHeader SUCCESS pid REMOVE_PROCESS, []).

Definition ipc_handle_alloc_space (request : alloc_request) : M srv msg_response :=
  zoom sv_ucm (
    o ← find_process (al_pid request);
    match o with
    | None => mret (MsgHeader FAILED (al_pid request) ALLOC_SPACE, [])
    | Some process =>
        '(num_pages, pages) ←
          (if al_map_fixed request
           then ucm_map_fixed process (al_addr request) (al_length request)
           else ucm_allocate_memory alloc_mode process (al_addr request) (al_length request));
        let failed := num_pages <? 0 in
        mret (MsgHeader (if failed then FAILED else SUCCESS) (al_pid request) ALLOC_SPACE,
              if failed then [] else take (Z.to_nat num_pages) pages)
    end).

Definition ipc_handle_free_space (pid addr length : Z) : M srv msg_response :=
  zoom sv_ucm (
    o ← find_process pid;
    match o with
    | None => mret (MsgHeader FAILED pid FREE_SPACE, [])
    | Some process =>
        _ ← ucm_deallocate_memory process addr length;
        mret (MsgHeader SUCCESS pid FREE_SPACE, [])
    end).

Definition ipc_handle_get_process_remap_fd (fd pid : Z) : M srv msg_response :=
  zoom sv_ucm (
    o ← find_process pid;
    match o with
    | None => mret (MsgHeader FAILED pid RECORD_REMAP_FD, [])
    | Some process =>
        set_proc process (λ r, r <| pr_remap_fd := fd |>);;
        mret (MsgHeader SUCCESS pid RECORD_REMAP_FD, [])
    end).

(** The responses written to the descriptor [fd], in order. *)
Definition process_msg (fd : Z) (msg : message) : M srv (list msg_response) :=
  match msg with
  | AllocSpace request => r ← ipc_handle_alloc_space request; mret [r]
  | FreeSpace pid addr length => r ← ipc_handle_free_space pid addr length; mret [r]
  | AddProcess request uffd =>
      '(r, r') ← ipc_add_process_handshake request uffd; mret [r; r']
  | RemoveProcess pid => r ← ipc_handle_remove_process pid; mret [r]
  | RecordRemapFd pid =>
      r ← ipc_handle_get_process_remap_fd fd pid;
      modify (λ sv, sv <| request_epoll ::= λ e, e ∖ {[ fd ]} |>);;
      mret [r]
  | UnknownMessage => fail (AssertFail "ipc.c:327")
  end.

End server.

(** ** uffd.c *)
Definition UFFD_PAGEFAULT_FLAG_WP : Z := Z.shiftl 1 1.
Definition UFFD_PAGEFAULT_FLAG_MINOR : Z := Z.shiftl 1 2.

Inductive uffd_msg :=
  | UFFD_EVENT_UNMAP (start end_ : Z)
  | UFFD_EVENT_REMOVE (start end_ : Z)
  | UFFD_EVENT_REMAP (from to len : Z)
  | UFFD_EVENT_PAGEFAULT (address flags : Z)
  | UFFD_EVENT_OTHER.

Section faults.
Context (alloc_mode : ALLOC_MODE).
(** [get_physmem_mode() == USE_SHM]; whether a migration in progress ends
    within the second it is waited for, and the time waited; the outcome of
    the [UFFDIO_WAKE] ioctl. *)
Context (use_shm : bool) (migration_ends : ptr → bool) (wait_time_us : Z).
Context (wake : Z → Z → Z → ioctl_result).

Definition bounded_migration_wait (x : ptr) : M ucm bool :=
  pg ← page x;
  mret (if pg_migrating pg then migration_ends x else true).

Definition handle_wp_fault_inner (process : ptr) (page_boundary : Z) : M ucm unit :=
  o ← mm_find_page process page_boundary;
  assert_ "uffd.c:81" (negb (is_null o));;
  x ← nonnull o;
  success ← bounded_migration_wait x;
  assert_ "uffd.c:93" success;;
  ucm_stats_record_migration_wait process wait_time_us.

Definition handle_wp_fault (process : ptr) (page_boundary fault_addr : Z) : M ucm unit :=
  if use_shm && (fault_addr =? page_boundary) then mret tt
  else handle_wp_fault_inner process page_boundary.

Definition handle_missing_fault_unallocated (process : ptr) (page_boundary : Z) : M ucm unit :=
  assert_ "uffd.c:132" (negb (page_boundary =? 0));;
  o ← ucm_allocate_page alloc_mode process;
  assert_ "uffd.c:138" (negb (is_null o));;
  x ← nonnull o;
  pg ← page x;
  let pagesize := pt_to_pagesize (pg_pt pg) in
  r ← proc process;
  when (pr_zero r) (hemem_memset (tier_of (pg_in_dram pg)) (pg_devdax_offset pg) 0 pagesize);;
  modify (λ s, s <| u_stats ::= λ t, t <| st_memsets ::= λ n, u64 (n + 1) |> |>);;
  set_page x (λ pg, pg <| pg_uffd := pr_uffd r |> <| pg_pid := pr_pid r |>
                       <| pg_va := page_boundary |>);;
  assert_ "uffd.c:158" (page_boundary mod HUGEPAGE_SIZE =? 0);;
  set_page x (λ pg, pg <| pg_migrations_down := 0 |> <| pg_migrations_up := 0 |>);;
  modify (λ s, s <| u_stats ::= λ t, t <| st_missing_faults_handled ::= λ n, u64 (n + 1) |> |>);;
  ucm_stats_record_page_allocated process pagesize;;
  mm_add_page process x;;
  status ← ipc_remap_pages process
    (PageApp page_boundary (pg_devdax_offset pg) (pg_in_dram pg) (pg_pt pg));
  match status with
  | IPC_SUCCESS => mret tt
  | IPC_APP_EXITED => ucm_remove_process process
  | _ => fail (AssertFail "uffd.c:188")
  end.

Definition handle_missing_fault (process : ptr) (page_boundary : Z) : M ucm unit :=
  set_proc process (λ r, r <| pr_stats ::= λ t, t <| ps_miss_faults ::= λ n, u64 (n + 1) |> |>);;
  o ← mm_find_page process page_boundary;
  match o with
  | Some _ => mret tt
  | None => handle_missing_fault_unallocated process page_boundary
  end.

Definition handle_page_fault (fault_addr fault_flags : Z) (process : ptr) : M ucm unit :=
  let page_boundary := Z.land fault_addr (u64 (Z.lnot (get_default_page_size - 1))) in
  assert_ "uffd.c:268" (negb (page_boundary =? 0));;
  let is_wp := negb (Z.land fault_flags UFFD_PAGEFAULT_FLAG_WP =? 0) in
  let is_minor := negb (Z.land fault_flags UFFD_PAGEFAULT_FLAG_MINOR =? 0) in
  (if is_wp then handle_wp_fault process page_boundary fault_addr
   else if negb is_minor then handle_missing_fault process page_boundary
   else fail (AssertFail "uffd.c:289"));;
  r ← proc process;
  match wake (pr_uffd r) page_boundary get_default_page_size with
  | IOCTL_OK => mret tt
  | IOCTL_FREED => assert_ "uffd.c:303" (pr_exited r)
  | IOCTL_FAILED => fail (AssertFail "uffd.c:307")
  end.

(** The loop over the pages of the range. *)
Definition unmap_body (process : ptr) (end_ page_boundary : Z) : M ucm (Z + unit) :=
  if page_boundary <? end_ then
    o ← mm_find_page process page_boundary;
    match o with
    | Some x =>
        pg ← page x;
        let pagesize := pt_to_pagesize (pg_pt pg) in
        set_page x (λ pg, pg <| pg_migration_uffd_unmap_pending := false |>);;
        (if pg_migration_uffd_unmap_pending pg then mret tt
         else
           set_page x (λ pg, pg <| pg_map_fixed_uffd_unmap_pending := false |>);;
           if pg_map_fixed_uffd_unmap_pending pg then mret tt
           else
             mm_remove_page process x;;
             ucm_stats_record_page_freed process pagesize);;
        mret (inl (u64 (page_boundary + pagesize)))
    | None => mret (inl (u64 (page_boundary + get_default_page_size)))
    end
  else mret (inr tt).

Definition handle_page_unmap (start end_ : Z) (process : ptr) : M ucm unit :=
  loop (S (S (Z.to_nat ((end_ - start) / BASEPAGE_SIZE + 1 + HUGEPAGE_SIZE / BASEPAGE_SIZE))))
    (unmap_body process end_) (Z.land start (u64 (Z.lnot (get_default_page_size - 1)))).

Definition handle_uffd_msg (msg : uffd_msg) (process : ptr) : M ucm unit :=
  match msg with
  | UFFD_EVENT_UNMAP start end_ => handle_page_unmap start end_ process
  | UFFD_EVENT_REMOVE _ _ => mret tt
  | UFFD_EVENT_REMAP _ _ _ => mret tt
  | UFFD_EVENT_PAGEFAULT address flags => handle_page_fault address flags process
  | UFFD_EVENT_OTHER => fail (AssertFail "uffd.c:407")
  end.

(** What [read] returns on a userfaultfd. *)
Inductive read_result := READ_MSGS (msgs : list uffd_msg) | READ_AGAIN | READ_EOF | READ_ERROR
  | READ_INVALID_SIZE.

(** One round of the loop over the ready descriptors: [i] is the counter of
    the loop and also that of the inner loop over the messages; [reads] are
    the results of the reads still to come. *)
Definition fault_body (events : list (Z * bool)) (st : nat * list read_result) :
    M srv ((nat * list read_result) + list read_result) :=
  let '(i, reads) := st in
  match events !! i with
  | None => mret (inr reads)
  | Some (ready_fd, epollin) =>
      if negb epollin then mret (inl (S i, reads))
      else
        process ← gets (λ sv, uffd_to_proc sv !! ready_fd);
        match reads with
        | [] => fail (Blocked "read")
        | READ_AGAIN :: reads' => mret (inl (S i, reads'))
        | READ_EOF :: _ => fail (AssertFail "uffd.c:442")
        | READ_ERROR :: _ => fail (AssertFail "uffd.c:450")
        | READ_INVALID_SIZE :: _ => fail (AssertFail "uffd.c:455")
        | READ_MSGS msgs :: reads' =>
            for_list msgs (λ msg,
              p ← nonnull process;
              zoom sv_ucm (handle_uffd_msg msg p));;
            mret (inl (S (length msgs), reads'))
        end
  end.

(** A pass over the [events] that [epoll_wait] returned. *)
Definition handle_faults (events : list (Z * bool)) (reads : list read_result) :
    M srv (list read_result) :=
  loop (S (S (length reads) * S (length events))) (fault_body events) (O, reads).
End faults.
