(* ===== verification/IpcOk.v ===== *)
(** * The request server keeps the invariants

    Every message of an application that respects the protocol is handled to
    the end, and leaves the manager in a state that satisfies the invariant of
    the page tables and that of the process list.  What the response says is
    what the page tables hold. *)

From S2P Require Import Prelude Fifo Ring F64 ProcList Types Hotness Mm MmAsync Ucm Process Telem Migrate Inv UcmWp AsyncOk TableOk AllocOk RequestOk ProcessOk TelemOk MigrateOk MigrateRun EpochOk EvolveOk Ipc.

(** ** Soundness through the operations *)
Lemma observed_sound L K s A R s' :
  sound L K s A R → observed s A R s' →
  ∃ R', sound L K s' A R' ∧ ∀ q, R' q FreeRing = R q FreeRing.
Proof.
  intros [HI HM [Hi Ht Hl]] Hob. pose proof Hob as [(R'&HI'&HR) _ _ _ Hw].
  exists R'. split; [|done]. split; [done|by eapply observed_mgr|]. unfold world in Hw.
  split; [congruence| |congruence]. unfold tiers_mapped in *.
  by replace (u_fastmem_ptr s') with (u_fastmem_ptr s) by congruence;
    replace (u_slowmem_ptr s') with (u_slowmem_ptr s) by congruence.
Qed.

Lemma steady_pid s s' :
  (∀ q, proc_steady <$> u_procs s' !! q = proc_steady <$> u_procs s !! q) →
  ∀ q, pid_view <$> u_procs s' !! q = pid_view <$> u_procs s !! q.
Proof.
  intros Hst q. specialize (Hst q). destruct (u_procs s' !! q), (u_procs s !! q); simpl in *; try done.
  unfold proc_steady in Hst. unfold pid_view. f_equal. congruence.
Qed.

Lemma steady_sound L K s A R s' A' R' :
  sound L K s A R → ucm_inv s' A' R' None → misc s' = misc s →
  (∀ q, proc_steady <$> u_procs s' !! q = proc_steady <$> u_procs s !! q) → sound L K s' A' R'.
Proof.
  intros [HI HM [Hi Ht Hl]] HI' Hmisc Hst. unfold misc in Hmisc. split; [done| |].
  - eapply mgr_view; [done|congruence..|]. by apply steady_pid.
  - split; [congruence| |congruence]. unfold tiers_mapped in *.
    by replace (u_fastmem_ptr s') with (u_fastmem_ptr s) by congruence;
      replace (u_slowmem_ptr s') with (u_slowmem_ptr s) by congruence.
Qed.

(** ** [ucm_map_fixed] *)
Section map_fixed.
Context (s : ucm) (A : list_id → list ptr) (R : ptr → ring_sel → list ptr).
Context (HI : ucm_inv s A R None) (p : ptr) (r : hemem_process) (Hr : u_procs s !! p = Some r).
Context (start len : Z) (Hstart : 0 < start) (Haligned : start mod HUGEPAGE_SIZE = 0).
Context (Hlen : 0 ≤ len) (Hend : start + len + HUGEPAGE_SIZE ≤ 2 ^ 64).
Context (Hmapped : ∀ i, 0 ≤ i < page_count len →
  is_Some (mm_pages (pr_mm r) !! (start + i * HUGEPAGE_SIZE))).

(** The response names the frames that back the range. *)
Definition fixed_pages (pages : list hemem_page_app) : Prop :=
  ∀ i a, pages !! i = Some a → ∃ x pg,
    mm_pages (pr_mm r) !! (start + Z.of_nat i * HUGEPAGE_SIZE) = Some x ∧ u_pages s !! x = Some pg ∧
    a = PageApp (start + Z.of_nat i * HUGEPAGE_SIZE) (pg_devdax_offset pg) (pg_in_dram pg) HUGEP.

(** The memory of the process is counted again. *)
Definition recounted (k : nat) (s' : ucm) : Prop :=
  ∃ r', u_procs s' !! p = Some r' ∧ mm_pages (pr_mm r') = mm_pages (pr_mm r) ∧
    u64 (mm_mem_allocated (pr_mm r')) = u64 (mm_mem_allocated (pr_mm r) + Z.of_nat k * HUGEPAGE_SIZE).

Definition fixed_so_far (pages : list hemem_page_app) (s' : ucm) : Prop :=
  observed s A R s' ∧ fixed_pages pages ∧ recounted (length pages) s'.

Lemma wp_record_allocated s1 R1 r1 n :
  ucm_inv s1 A R1 None → u_procs s1 !! p = Some r1 →
  wp (ucm_stats_record_page_allocated p n) (λ _ s', observed s1 A R1 s' ∧
    u_procs s' = <[p := r1 <| pr_mm ::= λ mm, mm <| mm_mem_allocated ::= λ k, u64 (k + n) |> |>]>
      (u_procs s1)) s1.
Proof.
  intros HI1 Hr1. unfold ucm_stats_record_page_allocated. do 2 wp_step. eapply wp_set_mm; [done|]. rec_simpl.
  split; [|done].
  set (f := λ r, r <| pr_mm ::= λ mm, mm <| mm_mem_allocated ::= λ k, u64 (k + n) |> |>).
  destruct (observed_proc s1 A R1 HI1 p r1 f Hr1 eq_refl) as [O1 HI2].
  eapply observed_trans; [exact O1|exact HI2|done|]. by apply observed_frame.
Qed.

Lemma wp_map_fixed_body pages s' :
  fixed_so_far pages s' → Z.of_nat (length pages) ≤ page_count len →
  wp (map_fixed_body p (u64 (start + len)) (start + Z.of_nat (length pages) * HUGEPAGE_SIZE, pages))
    (λ res s2, match res with
     | inl (pb, pages') => length pages' = S (length pages) ∧
         Z.of_nat (length pages') ≤ page_count len ∧
         pb = start + Z.of_nat (length pages') * HUGEPAGE_SIZE ∧ fixed_so_far pages' s2
     | inr res => res = (page_count len, pages) ∧ Z.of_nat (length pages) = page_count len ∧ s2 = s'
     end) s'.
Proof using HI Hr Hstart Haligned Hlen Hend Hmapped.
  intros (Hob&Hfix&r'&Hr'&Htab&Hma) Hk. pose proof Hob as [(R'&HI'&HRf) Hpl _ _ _]. unfold map_fixed_body.
  rewrite u64_small by (unfold HUGEPAGE_SIZE in *; lia). wp_if Hlt.
  2: { wp_step. apply Z.ltb_ge in Hlt.
    assert (¬ Z.of_nat (length pages) < page_count len) by (rewrite <- page_count_lt; lia).
    assert (Z.of_nat (length pages) = page_count len) as -> by lia. done. }
  apply Z.ltb_lt in Hlt. assert (Z.of_nat (length pages) * HUGEPAGE_SIZE < len) as Hklt by lia.
  pose proof (proj1 (page_count_lt _ _) Hklt) as Hkn.
  destruct (step_va start len Hstart Haligned Hend _ Hklt) as (_&_&Hnext).
  destruct (Hmapped (Z.of_nat (length pages))) as [x Hx]; [lia|].
  assert (mm_pages (pr_mm r') !! (start + Z.of_nat (length pages) * HUGEPAGE_SIZE) = Some x) as Hx' by congruence.
  destruct (table_page s' A R' None HI' p r' Hr' _ _ Hx') as (d&i&pg'&Hb&Hpg'&_).
  pose proof (pp_pt _ _ (I_phys HI' Hpg')) as Hpt.
  assert (∃ pg, u_pages s !! x = Some pg ∧ page_place pg' = page_place pg) as (pg&Hpg&Hplace).
  { specialize (Hpl x). rewrite Hpg' in Hpl. destruct (u_pages s !! x) as [pg|]; [|done].
    exists pg. split; [done|]. by apply (inj Some) in Hpl. }
  wp_step. eapply (wp_mm_find_page s' A R' None HI' p r' Hr'). rewrite Hx'.
  do 2 wp_step; [done|]. do 2 ucm_step; [done|]. do 3 ucm_step.
  eapply wp_mono; [by eapply (wp_set_page_obs s' A R' HI' p x d i)|].
  intros [] s1 (O1&P1&Q1). pose proof O1 as [(R1&HI1&HR1) _ _ _ _].
  wp_step. eapply wp_mono; [eapply (wp_record_allocated s1 R1 r'); [done|congruence]|].
  intros [] s2 (O2&Q2). wp_step. rewrite Hpt. cbn [pt_to_pagesize]. rewrite Hnext, length_app.
  cbn [length]. split_and!; [lia|lia|done|]. split_and!.
  - eapply observed_trans; [exact Hob|exact HI'|exact HRf|]. by eapply observed_trans.
  - intros j a [Hj|[-> ->]]%lookup_snoc_cases; [by apply Hfix|].
    exists x, pg. split_and!; [done..|]. unfold page_place, page_core in Hplace. f_equal; congruence.
  - exists (r' <| pr_mm ::= λ mm, mm <| mm_mem_allocated ::= λ k, u64 (k + HUGEPAGE_SIZE) |> |>).
    rewrite length_app. cbn [length]. split_and!.
    + rewrite Q2, Hpt. apply lookup_insert_eq.
    + done.
    + rec_simpl. rewrite u64_idemp, <- u64_add_l, Hma, u64_add_l. f_equal. lia.
Qed.

Lemma wp_map_fixed :
  wp (ucm_map_fixed p start len) (λ res s', res.1 = page_count len ∧
    Z.of_nat (length res.2) = page_count len ∧ fixed_so_far res.2 s') s.
Proof using HI Hr Hstart Haligned Hlen Hend Hmapped.
  unfold ucm_map_fixed.
  eapply (wp_loop (λ st s', st.1 = start + Z.of_nat (length st.2) * HUGEPAGE_SIZE ∧
    Z.of_nat (length st.2) ≤ page_count len ∧ fixed_so_far st.2 s')
    (λ st _, Z.to_nat (page_count len) - length st.2)%nat).
  - simpl. split_and!; [lia|unfold page_count; apply Z.div_pos; unfold HUGEPAGE_SIZE; lia|].
    split_and!; [by apply observed_refl|by intros []|].
    exists r. by rewrite Z.add_0_r.
  - simpl. unfold page_count, HUGEPAGE_SIZE, BASEPAGE_SIZE. Z.div_mod_to_equations. lia.
  - intros [pb pages] s' (Hpb&Hk&Hfix). simpl in Hpb, Hk, Hfix. subst pb.
    eapply wp_mono; [by eapply wp_map_fixed_body|]. intros [[pb pages']|res] s2.
    + intros (Hlen'&Hk'&Hpb'&Hfix'). simpl. split; [done|lia].
    + intros (->&Heq&->). simpl. done.
Qed.
End map_fixed.

(** ** What a message changes *)
Definition page_base (addr : Z) : Z := addr - addr mod HUGEPAGE_SIZE.

(** The boundaries of the range that [FREE_SPACE] gives back. *)
Definition freed_range (addr len : Z) : list Z :=
  boundaries (page_base addr) (Z.to_nat (page_count (addr + len - page_base addr))).

Definition alloc_range (addr len : Z) : list Z := boundaries addr (Z.to_nat (page_count len)).

(** The mappings that a message adds, and those it takes away. *)
Definition new_by (s : ucm) (msg : message) : ptr → Z → Prop := λ p va,
  match msg with
  | AllocSpace q => u_proc_map s !! al_pid q = Some p ∧ al_map_fixed q = false ∧
      va ∈ alloc_range (al_addr q) (al_length q)
  | _ => False
  end.

Definition lost_by (s : ucm) (msg : message) : ptr → Z → Prop := λ p va,
  match msg with
  | FreeSpace pid addr len => u_proc_map s !! pid = Some p ∧ va ∈ freed_range addr len
  | RemoveProcess pid => u_proc_map s !! pid = Some p
  | _ => False
  end.

Definition changes_by (s s' : ucm) (msg : message) : Prop :=
  evolves s s' (lost_by s msg) (new_by s msg).

Lemma changes_none s A R s' msg :
  ucm_inv s A R None → observed s A R s' → changes_by s s' msg.
Proof. intros HI Hob. eapply evolves_weaken; [by eapply observed_evolves|done..]. Qed.

Lemma changes_refl s A R msg : ucm_inv s A R None → changes_by s s msg.
Proof. intros HI. eapply changes_none; [done|]. by apply observed_refl. Qed.

(** The frames of the process are on the free lists. *)
Definition frames_returned (s s' : ucm) (p : ptr) : Prop :=
  ∀ d x, x ∈ pages_of (u_plist s') (free_list d) ↔
    x ∈ pages_of (u_plist s) (free_list d) ∨
    ∃ i, 0 ≤ i < NUM_HOTNESS_LEVELS ∧ x ∈ pages_of (u_plist s) (bin d p i).

Lemma gone_frames s A R p L' K s' A' R' :
  ucm_inv s A R None → ucm_inv s' A' R' None → process_gone s A p L' K s' A' → frames_returned s s' p.
Proof.
  intros HI HI' Hgo d x. rewrite (pages_of_spec _ A'), (pages_of_spec _ A) by (apply HI || apply HI').
  rewrite (gone_free _ _ _ _ _ _ _ Hgo). unfold in_tier. f_equiv.
  split; intros (i&Hi&Hx); exists i; (split; [done|]); by rewrite (pages_of_spec _ A) in * by apply HI.
Qed.

(** ** Requests that respect the protocol *)
Definition good_range (addr len : Z) : Prop :=
  0 < addr ∧ addr mod HUGEPAGE_SIZE = 0 ∧ 0 ≤ len ∧ addr + len + HUGEPAGE_SIZE ≤ 2 ^ 64.

(** The pages on the free list of the slow tier. *)
Definition free_slow (s : ucm) : Z :=
  match headers (u_plist s) !! SlowFree with Some q => numentries q | None => 0 end.

(** A fixed mapping is of memory that is allocated, another allocation is of
    addresses that are not, and there is room for it. *)
Definition alloc_permitted (s : ucm) (q : alloc_request) : Prop :=
  ∀ p r, u_proc_map s !! al_pid q = Some p → u_procs s !! p = Some r →
    good_range (al_addr q) (al_length q) ∧
    if al_map_fixed q then
      ∀ i, 0 ≤ i < page_count (al_length q) →
        is_Some (mm_pages (pr_mm r) !! (al_addr q + i * HUGEPAGE_SIZE))
    else
      page_count (al_length q) ≤ free_slow s ∧
      ∀ i, 0 ≤ i < page_count (al_length q) →
        mm_pages (pr_mm r) !! (al_addr q + i * HUGEPAGE_SIZE) = None.

Lemma free_slow_length s A R : ucm_inv s A R None → free_slow s = Z.of_nat (length (A SlowFree)).
Proof.
  intros HI. unfold free_slow. destruct (inv_free_header s A R None false HI) as [q Hq].
  change (free_list false) with SlowFree in Hq. rewrite Hq, (dll_header (I_dll HI) Hq). done.
Qed.

(** The manager between two requests: no lock is held, and every process is in
    the list. *)
Record settled_srv (L : list ptr) (sv : srv) (A : list_id → list ptr)
    (R : ptr → ring_sel → list ptr) : Prop := SettledSrv {
  sv_sound : sound L ∅ (sv_ucm sv) A R;
  sv_listed q : is_Some (u_procs (sv_ucm sv) !! q) → q ∈ L;
}.

Definition server_ok (sv : srv) : Prop := ∃ L A R, settled_srv L sv A R.

Lemma steady_dom {T} (f : hemem_process → T) s s' q :
  f <$> u_procs s' !! q = f <$> u_procs s !! q → is_Some (u_procs s' !! q) → is_Some (u_procs s !! q).
Proof. intros Hf [r Hr]. rewrite Hr in Hf. destruct (u_procs s !! q); [eauto|done]. Qed.

Section handlers.
Context (alloc_mode : ALLOC_MODE) (map_nspid_to_pid : Z → Z → Z).
Context (L : list ptr) (sv : srv) (A : list_id → list ptr) (R : ptr → ring_sel → list ptr).
Context (Hok : settled_srv L sv A R).

Lemma found_process pid p :
  u_proc_map (sv_ucm sv) !! pid = Some p →
  p ∈ L ∧ ∃ r, u_procs (sv_ucm sv) !! p = Some r ∧ pr_pid r = pid.
Proof using Hok. apply (M_map (so_mgr _ _ _ _ _ (sv_sound _ _ _ _ Hok))). Qed.

(** The pages [pages] back the range from [addr] on; [zeroed] says that they
    hold zeroes. *)
Definition backed (s' : ucm) (p : ptr) (addr len : Z) (zeroed : bool)
    (pages : list hemem_page_app) : Prop :=
  Z.of_nat (length pages) = page_count len ∧ ∃ r', u_procs s' !! p = Some r' ∧
  ∀ i a, pages !! i = Some a → ∃ x pg,
    mm_pages (pr_mm r') !! (addr + Z.of_nat i * HUGEPAGE_SIZE) = Some x ∧
    u_pages s' !! x = Some pg ∧ pa_va a = addr + Z.of_nat i * HUGEPAGE_SIZE ∧ response pg = a ∧
    (zeroed = true → ∀ t o, in_frame pg t o → u_mem s' t o = 0).

Definition still_ok (s' : ucm) : Prop :=
  ∃ A' R', sound L ∅ s' A' R' ∧ ∀ q, is_Some (u_procs s' !! q) → q ∈ L.

Lemma observed_ok s' : observed (sv_ucm sv) A R s' → still_ok s'.
Proof using Hok.
  intros Hob. destruct (observed_sound _ _ _ _ _ _ (sv_sound _ _ _ _ Hok) Hob) as (R'&Hso'&_).
  exists A, R'. split; [done|]. intros q Hq. apply (sv_listed _ _ _ _ Hok).
  by eapply (steady_dom proc_core), Hq; apply Hob.
Qed.

Lemma steady_ok s' A' R' :
  ucm_inv s' A' R' None → misc s' = misc (sv_ucm sv) →
  (∀ q, proc_steady <$> u_procs s' !! q = proc_steady <$> u_procs (sv_ucm sv) !! q) → still_ok s'.
Proof using Hok.
  intros HI' Hm Hst. exists A', R'. split; [by eapply steady_sound; [apply Hok|..]|].
  intros q Hq. apply (sv_listed _ _ _ _ Hok). by eapply (steady_dom proc_steady), Hq.
Qed.

Lemma still_ok_srv s' : still_ok s' → server_ok (sv <| sv_ucm := s' |>).
Proof. intros (A'&R'&?&?). by exists L, A', R'. Qed.

Lemma wp_fixed p r addr len :
  u_procs (sv_ucm sv) !! p = Some r → good_range addr len →
  (∀ i, 0 ≤ i < page_count len → is_Some (mm_pages (pr_mm r) !! (addr + i * HUGEPAGE_SIZE))) →
  wp (ucm_map_fixed p addr len) (λ res s', res.1 = page_count len ∧ still_ok s' ∧
    backed s' p addr len false res.2 ∧ evolves (sv_ucm sv) s' nothing nothing ∧
    u_proc_map s' = u_proc_map (sv_ucm sv) ∧ free_slow (sv_ucm sv) ≤ free_slow s' + page_count len) (sv_ucm sv).
Proof using Hok.
  intros Hr (H1&H2&H3&H4) Hm. pose proof (so_inv _ _ _ _ _ (sv_sound _ _ _ _ Hok)) as HI.
  eapply wp_mono; [by eapply wp_map_fixed|]. intros [n pages] s' (Hn&Hlen&Hob&Hfix&r'&Hr'&Htab&_).
  simpl in *. split_and!; [done|by apply observed_ok| |by eapply observed_evolves|by apply Hob|].
  2: { unfold free_slow. destruct (ob_lists _ _ _ _ Hob) as (->&_). lia. }
  split; [done|]. exists r'. split; [done|]. intros i a Hi. destruct (Hfix i a Hi) as (x&pg&Hx&Hpg&->).
  destruct (table_page _ _ _ _ HI p r Hr _ _ Hx) as (_&_&pg0&_&Hpg0&_&Hva&_).
  rewrite Hpg in Hpg0. injection Hpg0 as <-. pose proof (pp_pt _ _ (I_phys HI Hpg)) as Hpt.
  pose proof (ob_pages _ _ _ _ Hob x) as Hx'. rewrite Hpg in Hx'.
  destruct (u_pages s' !! x) as [pg'|] eqn:Hpg'; [|done]. apply (inj Some) in Hx'.
  unfold page_place, page_core in Hx'. exists x, pg'. rewrite Htab. split_and!; [done..| |done].
  unfold response. f_equal; congruence.
Qed.

Lemma wp_allocated p r addr len :
  u_procs (sv_ucm sv) !! p = Some r → good_range addr len →
  page_count len ≤ free_slow (sv_ucm sv) →
  (∀ i, 0 ≤ i < page_count len → mm_pages (pr_mm r) !! (addr + i * HUGEPAGE_SIZE) = None) →
  wp (ucm_allocate_memory alloc_mode p addr len) (λ res s', res.1 = page_count len ∧ still_ok s' ∧
    backed s' p addr len true res.2 ∧
    evolves (sv_ucm sv) s' nothing (new_at p (alloc_range addr len)) ∧
    u_proc_map s' = u_proc_map (sv_ucm sv) ∧ free_slow (sv_ucm sv) ≤ free_slow s' + page_count len) (sv_ucm sv).
Proof using Hok.
  intros Hr (H1&H2&H3&H4) Hroom Hnew. pose proof (sv_sound _ _ _ _ Hok) as [HI HM _].
  rewrite (free_slow_length _ _ _ HI) in Hroom. eapply wp_mono.
  { eapply (wp_allocate_memory alloc_mode _ A R HI p r Hr); try done. rewrite (M_held HM). set_solver. }
  intros [n pages] s' [(Hn&Hlen&A'&Hpr)|(_&Hoom)].
  2: { pose proof (om_short _ _ _ _ _ Hoom). lia. }
  pose proof Hpr as [HI' Hmisc Hoth (r0&r'&Hr0&Hr'&_&Hpages&_) _ _ _ Hslow Hst]. simpl in *.
  split_and!; [done|by eapply steady_ok| | |unfold misc in Hmisc; congruence|].
  3: { rewrite (free_slow_length _ _ _ HI), (free_slow_length _ _ _ HI'). lia. }
  2: { unfold alloc_range. replace (Z.to_nat (page_count len)) with (length pages) by lia.
    eapply (progress_evolves _ A R p r); [done..|]. intros va (i&Hi&->)%elem_of_boundaries. apply Hnew. lia. }
  split; [done|]. exists r'. split; [done|]. intros i a Hi. destruct (Hpages i a Hi) as (Hva&x&d&pg&Hx&_&Hpg&Hresp&Hz). rewrite Hva in Hx.
  exists x, pg. by split_and!.
Qed.

(** What [ALLOC_SPACE] answers. *)
Definition alloc_answer (q : alloc_request) (resp : msg_response) (s' : ucm) : Prop :=
  match u_proc_map (sv_ucm sv) !! al_pid q with
  | None => resp = (MsgHeader FAILED (al_pid q) ALLOC_SPACE, [])
  | Some p => resp.1 = MsgHeader SUCCESS (al_pid q) ALLOC_SPACE ∧
      backed s' p (al_addr q) (al_length q) (negb (al_map_fixed q)) resp.2 ∧
      u_proc_map s' = u_proc_map (sv_ucm sv) ∧
      free_slow (sv_ucm sv) ≤ free_slow s' + page_count (al_length q)
  end.

Lemma wp_handle_alloc_space q :
  alloc_permitted (sv_ucm sv) q →
  wp (ipc_handle_alloc_space alloc_mode q) (λ resp sv', server_ok sv' ∧
    alloc_answer q resp (sv_ucm sv') ∧ changes_by (sv_ucm sv) (sv_ucm sv') (AllocSpace q)) sv.
Proof using Hok.
  intros Hq. pose proof (sv_sound _ _ _ _ Hok) as [HI HM _].
  unfold ipc_handle_alloc_space, alloc_answer. apply wp_zoom. wp_step. eapply (wp_find_process _ L ∅ HM).
  destruct (u_proc_map (sv_ucm sv) !! al_pid q) as [p|] eqn:Hp.
  2: { wp_step. split_and!; [|done|by eapply changes_refl]. exists L, A, R. by destruct sv. }
  destruct (found_process _ _ Hp) as (_&r&Hr&_). destruct (Hq p r Hp Hr) as [Hrange Hbody].
  assert (0 ≤ page_count (al_length q)) as Hpos.
  { unfold page_count. apply Z.div_pos; destruct Hrange; unfold HUGEPAGE_SIZE in *; lia. }
  wp_step. eapply (wp_mono _ (λ res s', res.1 = page_count (al_length q) ∧ still_ok s' ∧
    backed s' p (al_addr q) (al_length q) (negb (al_map_fixed q)) res.2 ∧
    evolves (sv_ucm sv) s' nothing (new_by (sv_ucm sv) (AllocSpace q)) ∧
    u_proc_map s' = u_proc_map (sv_ucm sv) ∧
    free_slow (sv_ucm sv) ≤ free_slow s' + page_count (al_length q))).
  { destruct (al_map_fixed q) eqn:Hfix.
    - eapply wp_mono; [by eapply wp_fixed|]. intros res s' (?&?&?&?&?&?).
      split_and!; [done..| |done|done]. by eapply evolves_weaken.
    - destruct Hbody. eapply wp_mono; [by eapply wp_allocated|]. intros res s' (?&?&?&?&?&?).
      split_and!; [done..| |done|done]. eapply evolves_weaken; [done..|]. intros q0 va [-> ?]. by split_and!. }
  intros [n pages] s' (Hn&Hst&Hb&Hev&Hmap&Hfree). simpl in Hn, Hb. wp_step. subst n.
  rewrite (proj2 (Z.ltb_ge _ _) Hpos). split; [by apply still_ok_srv|]. split; [|by eapply evolves_weaken].
  cbn [fst snd]. rewrite firstn_all2; [done|]. destruct Hb as [Hlen _]. simpl in Hlen. lia.
Qed.

(** ** [FREE_SPACE] *)
Definition free_answer (pid addr len : Z) (resp : msg_response) (s' : ucm) : Prop :=
  match u_proc_map (sv_ucm sv) !! pid with
  | None => resp = (MsgHeader FAILED pid FREE_SPACE, [])
  | Some p => resp = (MsgHeader SUCCESS pid FREE_SPACE, []) ∧
      u_proc_map s' = u_proc_map (sv_ucm sv) ∧
      ∃ r r', u_procs (sv_ucm sv) !! p = Some r ∧ u_procs s' !! p = Some r' ∧
        ∀ va, mm_pages (pr_mm r') !! va =
          if decide (va ∈ freed_range addr len) then None else mm_pages (pr_mm r) !! va
  end.

Lemma wp_handle_free_space pid addr len :
  0 ≤ addr → 0 ≤ len → addr + len + HUGEPAGE_SIZE ≤ 2 ^ 64 →
  wp (ipc_handle_free_space pid addr len) (λ resp sv', server_ok sv' ∧
    free_answer pid addr len resp (sv_ucm sv') ∧
    changes_by (sv_ucm sv) (sv_ucm sv') (FreeSpace pid addr len)) sv.
Proof using Hok.
  intros H1 H2 H3. pose proof (sv_sound _ _ _ _ Hok) as [HI HM _].
  unfold ipc_handle_free_space, free_answer. apply wp_zoom. wp_step. eapply (wp_find_process _ L ∅ HM).
  destruct (u_proc_map (sv_ucm sv) !! pid) as [p|] eqn:Hp.
  2: { wp_step. split_and!; [|done|by eapply changes_refl]. exists L, A, R. by destruct sv. }
  destruct (found_process _ _ Hp) as (_&r&Hr&_). wp_step.
  eapply wp_mono; [by eapply (wp_deallocate_memory _ A R HI p r Hr)|].
  intros n s' (_&Hun&R'&HI'&_). pose proof Hun as [(r0&r'&Hr0&Hr'&Ht&_) _ Hmisc _ Hst]. wp_step.
  split; [by eapply still_ok_srv, steady_ok|]. split.
  2: { eapply evolves_weaken; [by eapply unmapped_evolves|by intros q va [-> ?]|done]. }
  split; [done|]. split; [unfold misc in Hmisc; rec_simpl; congruence|].
  rewrite Hr in Hr0. injection Hr0 as <-. by exists r, r'.
Qed.

(** ** [REMOVE_PROCESS] *)
(** The frees of the process have been carried out. *)
Definition remove_permitted (pid : Z) : Prop :=
  ∀ p r, u_proc_map (sv_ucm sv) !! pid = Some p → u_procs (sv_ucm sv) !! p = Some r →
    ring_buf_empty (mm_free_page_ring (pr_mm r)) = true.

Lemma wp_handle_remove_process pid :
  remove_permitted pid →
  wp (ipc_handle_remove_process pid) (λ resp sv', server_ok sv' ∧
    resp = (MsgHeader SUCCESS pid REMOVE_PROCESS, []) ∧
    (u_proc_map (sv_ucm sv') !! pid = None ∧
     ∀ p, u_proc_map (sv_ucm sv) !! pid = Some p →
       u_procs (sv_ucm sv') !! p = None ∧ frames_returned (sv_ucm sv) (sv_ucm sv') p) ∧
    changes_by (sv_ucm sv) (sv_ucm sv') (RemoveProcess pid)) sv.
Proof using Hok.
  intros Hperm. pose proof (sv_sound _ _ _ _ Hok) as [HI HM Hrd].
  unfold ipc_handle_remove_process. wp_step. apply wp_zoom. wp_step. eapply (wp_find_process _ L ∅ HM).
  destruct (u_proc_map (sv_ucm sv) !! pid) as [p|] eqn:Hp.
  2: { do 2 wp_step. split_and!; [|done|done|done|by eapply changes_refl]. exists L, A, R. by destruct sv. }
  destruct (found_process _ _ Hp) as (HpL&r&Hr&Hpid). specialize (Hperm p r Hp Hr).
  change (mm_free_page_ring (pr_mm r)) with (ring_of FreeRing (pr_mm r)) in Hperm.
  rewrite (ring_buf_empty_spec _ _ (proj1 (pi_ring _ _ _ _ _ _ (I_proc HI Hr) FreeRing))) in Hperm.
  apply bool_decide_eq_true in Hperm. wp_step.
  eapply wp_mono; [by eapply (wp_set_proc_obs _ A R HI p r)|]. intros [] s1 [Hob1 [_ Hpr1]].
  destruct (observed_sound _ _ _ _ _ _ (sv_sound _ _ _ _ Hok) Hob1) as (R1&[HI1 HM1 Hrd1]&HR1).
  apply list_elem_of_split in HpL as (b&a&HL).
  eapply wp_mono; [eapply (wp_ucm_remove_process s1 A R1 L ∅ p b a); [done|done|done|by rewrite HR1|set_solver..]|].
  intros [] s2 (A2&R2&HI2&Hgo&HR2). pose proof Hgo as [HM2 Hgone Hoth _ _ Hw2 _]. wp_step.
  assert (p ∉ b ++ a) as Hpba.
  { pose proof (dll_nodup (M_dll HM) tt) as Hnd. simpl in Hnd. rewrite HL in Hnd.
    apply NoDup_app in Hnd as (_&?&[? ?]%NoDup_cons). set_solver. }
  split_and!; [|done| | |].
  4: { eapply evolves_after; [by eapply observed_evolves|].
    eapply evolves_weaken; [by eapply gone_evolves|by intros q va ->|done]. }
  3: { intros ? [= <-]. split; [done|]. destruct (ob_lists _ _ _ _ Hob1) as (Hpl&_).
    pose proof (gone_frames _ _ _ _ _ _ _ _ _ HI1 HI2 Hgo) as Hfr. unfold frames_returned in *. by rewrite Hpl in Hfr. }
  - exists (b ++ a), A2, R2. split; [split; [done..|]|].
    + destruct Hrd1 as [Hi Ht Hl]. unfold world in Hw2. rec_simpl.
      split; [congruence| |congruence]. unfold tiers_mapped in *.
      by replace (u_fastmem_ptr s2) with (u_fastmem_ptr s1) by congruence;
        replace (u_slowmem_ptr s2) with (u_slowmem_ptr s1) by congruence.
    + rec_simpl. intros q Hq. assert (q ≠ p) as Hqp by (intros ->; rewrite Hgone in Hq; by destruct Hq).
      pose proof (steady_dom proc_keep _ _ _ (Hoth q Hqp) Hq) as Hq1.
      rewrite Hpr1, lookup_insert_ne in Hq1 by done. apply (sv_listed _ _ _ _ Hok) in Hq1. set_solver.
  - rec_simpl. destruct (u_proc_map s2 !! pid) as [q|] eqn:Hq; [|done].
    apply (M_map HM2) in Hq as (HqL&r'&Hr'&Hpid'). exfalso.
    assert (q ≠ p) as Hqp by (intros ->; done). specialize (Hoth q Hqp). rewrite Hr' in Hoth.
    rewrite Hpr1, lookup_insert_ne in Hoth by done.
    destruct (u_procs (sv_ucm sv) !! q) as [rq|] eqn:Hrq; [|done]. simpl in Hoth. unfold proc_keep in Hoth.
    apply Hqp. eapply (I_pids HI Hrq Hr). congruence.
Qed.

(** ** [RECORD_REMAP_FD] *)
Lemma wp_handle_remap_fd fd pid :
  wp (ipc_handle_get_process_remap_fd fd pid) (λ resp sv', server_ok sv' ∧
    (if u_proc_map (sv_ucm sv) !! pid then
       resp = (MsgHeader SUCCESS pid RECORD_REMAP_FD, []) ∧
       ∃ p r, u_proc_map (sv_ucm sv) !! pid = Some p ∧ u_procs (sv_ucm sv') !! p = Some r ∧
         pr_remap_fd r = fd
     else resp = (MsgHeader FAILED pid RECORD_REMAP_FD, [])) ∧
    changes_by (sv_ucm sv) (sv_ucm sv') (RecordRemapFd pid)) sv.
Proof using Hok.
  pose proof (sv_sound _ _ _ _ Hok) as [HI HM _].
  unfold ipc_handle_get_process_remap_fd. apply wp_zoom. wp_step. eapply (wp_find_process _ L ∅ HM).
  destruct (u_proc_map (sv_ucm sv) !! pid) as [p|] eqn:Hp.
  2: { wp_step. split_and!; [|done|by eapply changes_refl]. exists L, A, R. by destruct sv. }
  destruct (found_process _ _ Hp) as (_&r&Hr&_). wp_step.
  eapply wp_mono; [by eapply (wp_set_proc_obs _ A R HI p r)|]. intros [] s1 [Hob1 [_ Hpr1]].
  wp_step. split; [by eapply still_ok_srv, observed_ok|].
  split; [|by eapply changes_none]. split; [done|].
  eexists p, _. rec_simpl. rewrite Hpr1, lookup_insert_eq. by split_and!.
Qed.

(** ** [ADD_PROCESS] *)

(** How the process is set up for the request [q]. *)
Definition configured (q : add_process_request) (fsz : Z) (r : hemem_process) : hemem_process :=
  r <| pr_policy ::= process_policy_set_miss_ratio (ap_target_miss_ratio q) |>
    <| pr_zero := ap_zero q |> <| pr_mm ::= λ mm, mm <| mm_max_fastmem := fsz |> |>.

Definition added (q : add_process_request) (pid : Z) (p : ptr) (s' : ucm) : Prop :=
  u_proc_map s' !! pid = Some p ∧
  ∃ r, u_procs s' !! p = Some r ∧ pr_pid r = pid ∧ pr_zero r = ap_zero q ∧
    po_target_miss_ratio (pr_policy r) = ap_target_miss_ratio q.

Definition ok_state (s' : ucm) : Prop :=
  ∃ L' A' R', sound L' ∅ s' A' R' ∧ ∀ q, is_Some (u_procs s' !! q) → q ∈ L'.

(** A process that is known is set up again. *)
Lemma added_again q pid p r s' :
  u_proc_map (sv_ucm sv) !! pid = Some p → u_procs (sv_ucm sv) !! p = Some r → pr_pid r = pid →
  s' = (sv_ucm sv) <| u_procs := <[p := configured q (u_fastmem_size (sv_ucm sv)) r]>
    (u_procs (sv_ucm sv)) |> →
  ok_state s' ∧ added q pid p s' ∧ evolves (sv_ucm sv) s' nothing nothing.
Proof using Hok.
  intros Hp Hr Hpid ->. pose proof (sv_sound _ _ _ _ Hok) as [HI HM _].
  destruct (observed_proc _ A R HI p r (configured q (u_fastmem_size (sv_ucm sv))) Hr eq_refl) as [Hob _].
  split_and!; [| |by eapply observed_evolves].
  - destruct (observed_ok _ Hob) as (A'&R'&?&?). by exists L, A', R'.
  - split; rec_simpl; [done|]. eexists. split; [apply lookup_insert_eq|]. done.
Qed.

Lemma wp_configure {X} q s p r (k : M ucm X) Q :
  u_procs s !! p = Some r →
  wp k Q (s <| u_procs := <[p := configured q (u_fastmem_size s) r]> (u_procs s) |>) →
  wp (set_proc p (λ r, r <| pr_policy ::= process_policy_set_miss_ratio (ap_target_miss_ratio q) |>);;
      set_proc p (λ r, r <| pr_zero := ap_zero q |>);;
      fsz ← get_fastmem_size;
      set_mm p (λ mm, mm <| mm_max_fastmem := fsz |>);; k) Q s.
Proof.
  intros Hr Hk. do 4 ucm_step. wp_step. unfold get_fastmem_size. wp_step. do 2 ucm_step. ucm_norm.
  exact Hk.
Qed.

Lemma wp_init_and_add {X} q (res : X) s1 R1 p r (Q : X → ucm → Prop) :
  ucm_inv s1 A R1 None → mgr_inv s1 L ∅ → p ∉ L → u_procs s1 !! p = Some r → fresh_proc r →
  (∀ d i, A (bin d p i) = []) →
  (∀ L' R' s', ucm_inv s' A R' None → mgr_inv s' L' ∅ → (∀ y, y ∈ L' ↔ y = p ∨ y ∈ L) →
     world s' = world s1 → u_pages s' = u_pages s1 →
     u_procs s' = <[p := (configured q (u_fastmem_size s1) r) <| pr_phh := Some (pr_pid r) |>]> (u_procs s1) →
     Q res s') →
  wp (add_process p;; mret res) Q
    (s1 <| u_procs := <[p := configured q (u_fastmem_size s1) r]> (u_procs s1) |>).
Proof using Hok.
  intros HI1 HM1 HpL Hr Hfr Hbins HQ.
  destruct (observed_proc s1 A R1 HI1 p r (configured q (u_fastmem_size s1)) Hr eq_refl) as [Hob HI2].
  pose proof (observed_mgr _ _ _ _ _ _ Hob HM1) as HM2.
  assert (∀ d, bin_count A d p = 0) as Hcount.
  { intros d. unfold bin_count. induction (seqZ 0 NUM_HOTNESS_LEVELS) as [|i l IH]; [done|].
    simpl. rewrite Hbins. simpl. lia. }
  wp_step. eapply wp_mono.
  { eapply (wp_add_process _ A R1 L ∅ p); [done..|rec_simpl; apply lookup_insert_eq|done| | | |].
    - set_solver.
    - set_solver.
    - rewrite Hcount. apply Hfr.
    - rewrite Hcount. apply Hfr. }
  intros [] s3 (b&a&HL&_&HI3&HM3&Hpr3&Hpg3&_&Hw3). wp_step.
  eapply HQ; [done..| |done|done|].
  - intros y. rewrite HL. set_solver.
  - rewrite Hpr3. rec_simpl. by rewrite insert_insert_eq.
Qed.

Lemma ready_world s s' : world s' = world s → ready s → ready s'.
Proof using Type.
  intros Hw [Hi Ht Hl]. unfold world in Hw. split; [congruence| |congruence]. unfold tiers_mapped in *.
  by replace (u_fastmem_ptr s') with (u_fastmem_ptr s) by congruence;
    replace (u_slowmem_ptr s') with (u_slowmem_ptr s) by congruence.
Qed.

Lemma wp_handle_add_process q :
  let pid := map_nspid_to_pid (ap_pid_namespace q) (ap_pid q) in
  0 ≤ pid → Z.of_nat (S (size (u_procs (sv_ucm sv)))) < 2 ^ 64 →
  wp (ipc_handle_add_process map_nspid_to_pid q) (λ res sv',
    ok_state (sv_ucm sv') ∧ added q pid res.1 (sv_ucm sv') ∧
    res.2 = (MsgHeader SUCCESS pid ADD_PROCESS, []) ∧
    evolves (sv_ucm sv) (sv_ucm sv') nothing nothing ∧
    (request_epoll sv', fault_epoll sv', uffd_to_proc sv') =
      (request_epoll sv, fault_epoll sv, uffd_to_proc sv)) sv.
Proof using Hok.
  intros pid Hpid Hsz. pose proof (sv_sound _ _ _ _ Hok) as [HI HM Hrd].
  unfold ipc_handle_add_process. fold pid. do 2 wp_step; [by apply Z.leb_le|]. apply wp_zoom. wp_step.
  eapply (wp_find_process _ L ∅ HM). destruct (u_proc_map (sv_ucm sv) !! pid) as [p|] eqn:Hp.
  { destruct (found_process _ _ Hp) as (_&r&Hr&Hpid'). do 2 wp_step.
    apply (wp_configure _ _ _ r); [done|]. cbn [is_null]. wp_step. apply wp_when_false; [done|]. wp_step.
    by destruct (added_again q pid p r _ Hp Hr Hpid' eq_refl) as (?&?&?). }
  wp_step. eapply wp_mono.
  { eapply (wp_hemem_process_init _ A R L ∅ pid HI HM); [lia| |done].
    intros p r' Hr' Hpid'. assert (p ∈ L) as HpL by (apply (sv_listed _ _ _ _ Hok); eauto).
    assert (u_proc_map (sv_ucm sv) !! pid = Some p) by (apply (M_map HM); eauto). congruence. }
  intros p s1 (mm&->&Hfresh&Hfr&_&HI1&HM1).
  assert (p ∉ L) as HpL. { intros [??]%(mgr_proc _ _ _ _ HM). congruence. }
  eapply wp_configure; [unfold alloc_process; rec_simpl; apply lookup_insert_eq|].
  cbn [is_null]. eapply (wp_init_and_add q (p, (MsgHeader SUCCESS pid ADD_PROCESS, [])) _ _ p);
    [exact HI1|exact HM1|done|unfold alloc_process; rec_simpl; apply lookup_insert_eq|exact Hfr| |].
  { intros d i. by apply (absent_bins _ _ _ HI). }
  intros L' R' s' HI' HM' HL' Hw' Hpg' Hpr'. split; [|split; [split|split; [done|split; [|done]]]].
  4: { unfold world in Hw'. rec_simpl. eapply evolves_procs; [exact HI|done|..].
    - injection Hw' as _ _ _ _ _ _ Hw' _ _. by rewrite Hw'.
    - injection Hw' as _ _ _ _ _ _ _ Hw' _. by rewrite Hw'.
    - intros x r Hr. exists r. split; [|done]. rewrite Hpr'. unfold alloc_process. rec_simpl.
      assert (x ≠ p) by (intros ->; congruence). by rewrite !lookup_insert_ne.
    - intros x r Hr. rewrite Hpr', lookup_insert in Hr. case_decide as Hx.
      + right. injection Hr as <-. apply Hfr.
      + left. unfold alloc_process in Hr. rec_simpl_in Hr. rewrite lookup_insert_ne in Hr by done. eauto. }
  - exists L', A, R'. split; [split; [done..|]|].
    + eapply ready_world; [exact Hw'|]. by eapply ready_world, Hrd.
    + intros x. rec_simpl. rewrite Hpr', HL'. unfold alloc_process. rec_simpl.
      rewrite !lookup_insert. case_decide; [by left|]. intros Hx. right. by apply (sv_listed _ _ _ _ Hok).
  - rec_simpl. apply (M_map HM'). split; [apply HL'; by left|]. rewrite Hpr', lookup_insert_eq. by eexists.
  - rec_simpl. rewrite Hpr', lookup_insert_eq. by eexists.
Qed.

(** The handshake: the process is known, and its userfaultfd leads to it. *)
Definition add_answer (q : add_process_request) (uffd : Z) (resps : list msg_response)
    (sv' : srv) : Prop :=
  let pid := map_nspid_to_pid (ap_pid_namespace q) (ap_pid q) in
  resps = [(MsgHeader SUCCESS pid ADD_PROCESS, []); (MsgHeader SUCCESS pid RECORD_UFFD, [])] ∧
  ∃ p r, u_proc_map (sv_ucm sv') !! pid = Some p ∧ u_procs (sv_ucm sv') !! p = Some r ∧
    pr_pid r = pid ∧ pr_zero r = ap_zero q ∧ po_target_miss_ratio (pr_policy r) = ap_target_miss_ratio q ∧
    pr_uffd r = uffd ∧ pr_valid_uffd r = true ∧
    uffd_to_proc sv' = <[uffd := p]> (uffd_to_proc sv) ∧ fault_epoll sv' = {[ uffd ]} ∪ fault_epoll sv.

Lemma wp_add_process_handshake q uffd :
  0 ≤ map_nspid_to_pid (ap_pid_namespace q) (ap_pid q) →
  Z.of_nat (S (size (u_procs (sv_ucm sv)))) < 2 ^ 64 → 0 ≤ uffd < MAX_UFFD →
  wp (ipc_add_process_handshake map_nspid_to_pid q uffd) (λ res sv',
    server_ok sv' ∧ add_answer q uffd [res.1; res.2] sv' ∧
    changes_by (sv_ucm sv) (sv_ucm sv') (AddProcess q uffd)) sv.
Proof using Hok.
  intros Hpid Hsz Huffd. unfold ipc_add_process_handshake, add_answer. wp_step.
  eapply wp_mono; [by apply wp_handle_add_process|].
  intros [p resp] sv1 ((L1&A1&R1&Hso1&Hl1)&(Hmap&r&Hr&Hrp&Hz&Hratio)&Hresp&Hev1&Hsv1).
  simpl in Hresp, Hmap, Hr. subst resp. pose proof Hso1 as [HI1 HM1 Hrd1].
  wp_step. unfold ipc_handle_record_uffd. wp_step. apply wp_zoom.
  eapply wp_mono; [by eapply (wp_set_proc_obs _ A1 R1 HI1 p r)|]. intros [] s2 [Hob2 [_ Hpr2]].
  wp_step. unfold add_process_uffd.
  rewrite (proj2 (Z.leb_le _ _)), (proj2 (Z.ltb_lt _ _)) by lia. cbn [andb]. wp_step. wp_step.
  apply wp_zoom. rec_simpl. eapply wp_proc; [rewrite Hpr2; apply lookup_insert_eq|].
  do 2 wp_step. split; [|split].
  3: { rec_simpl. eapply evolves_weaken; [eapply evolves_after; [exact Hev1|]|done..].
    by eapply observed_evolves. }
  - destruct (observed_sound _ _ _ _ _ _ Hso1 Hob2) as (R2&Hso2&_). exists L1, A1, R2.
    split; rec_simpl; [done|]. intros x Hx. apply Hl1. by eapply (steady_dom proc_core), Hx; apply Hob2.
  - rec_simpl. rewrite Hrp. split; [done|]. exists p. eexists. rewrite Hpr2, lookup_insert_eq.
    injection Hsv1 as _ Hf Hu. destruct (ob_lists _ _ _ _ Hob2) as (_&_&Hm&_). rewrite Hf, Hu, Hm.
    by split_and!.
Qed.

(** ** Messages that respect the protocol *)
Definition permitted (msg : message) : Prop :=
  match msg with
  | AllocSpace q => alloc_permitted (sv_ucm sv) q
  | FreeSpace pid addr len => 0 ≤ addr ∧ 0 ≤ len ∧ addr + len + HUGEPAGE_SIZE ≤ 2 ^ 64
  | AddProcess q uffd => 0 ≤ map_nspid_to_pid (ap_pid_namespace q) (ap_pid q) ∧
      Z.of_nat (S (size (u_procs (sv_ucm sv)))) < 2 ^ 64 ∧ 0 ≤ uffd < MAX_UFFD
  | RemoveProcess pid => remove_permitted pid
  | RecordRemapFd pid => True
  | UnknownMessage => False
  end.

(** What the server answers. *)
Definition answered (fd : Z) (msg : message) (resps : list msg_response) (sv' : srv) : Prop :=
  match msg with
  | AllocSpace q => ∃ resp, resps = [resp] ∧ alloc_answer q resp (sv_ucm sv')
  | FreeSpace pid addr len => ∃ resp, resps = [resp] ∧ free_answer pid addr len resp (sv_ucm sv')
  | AddProcess q uffd => add_answer q uffd resps sv'
  | RemoveProcess pid => resps = [(MsgHeader SUCCESS pid REMOVE_PROCESS, [])] ∧
      u_proc_map (sv_ucm sv') !! pid = None ∧
      ∀ p, u_proc_map (sv_ucm sv) !! pid = Some p →
        u_procs (sv_ucm sv') !! p = None ∧ frames_returned (sv_ucm sv) (sv_ucm sv') p
  | RecordRemapFd pid => fd ∉ request_epoll sv' ∧ ∃ resp, resps = [resp] ∧
      if u_proc_map (sv_ucm sv) !! pid then resp = (MsgHeader SUCCESS pid RECORD_REMAP_FD, []) ∧
        ∃ p r, u_proc_map (sv_ucm sv) !! pid = Some p ∧ u_procs (sv_ucm sv') !! p = Some r ∧
          pr_remap_fd r = fd
      else resp = (MsgHeader FAILED pid RECORD_REMAP_FD, [])
  | UnknownMessage => False
  end.

Lemma wp_process_msg fd msg :
  permitted msg →
  wp (process_msg alloc_mode map_nspid_to_pid fd msg) (λ resps sv',
    server_ok sv' ∧ answered fd msg resps sv' ∧ changes_by (sv_ucm sv) (sv_ucm sv') msg) sv.
Proof using Hok.
  destruct msg as [q|pid addr len|q uffd|pid|pid|]; cbn [permitted answered process_msg]; intros Hp;
    [..|done]; wp_step.
  - eapply wp_mono; [by apply wp_handle_alloc_space|]. intros resp sv' (?&?&?). wp_step. eauto.
  - destruct Hp as (?&?&?). eapply wp_mono; [by apply wp_handle_free_space|].
    intros resp sv' (?&?&?). wp_step. eauto.
  - destruct Hp as (?&?&?). eapply wp_mono; [by apply wp_add_process_handshake|].
    intros [r r'] sv' (?&?&?). by wp_step.
  - eapply wp_mono; [by apply wp_handle_remove_process|]. intros resp sv' (?&->&?&?). by wp_step.
  - eapply wp_mono; [by apply wp_handle_remap_fd|]. intros resp sv' ((L'&A'&R'&[??])&Hans&?).
    do 3 wp_step. split; [by exists L', A', R'|]. rec_simpl. split; [|done]. split; [set_solver|]. eauto.
Qed.
End handlers.
