(* ===== verification/FaultOk.v ===== *)
(** * The page-fault handler keeps the invariants (src/src/ucm/uffd.c)

    The kernel reports every range that an application unmaps, also when the
    unmapping is part of moving a page or of mapping a fixed range again.  The
    two marks of a page tell these notifications apart from those that give
    memory back: a notification for a marked page takes the mark and keeps the
    page. *)

From S2P Require Import Prelude Fifo Ring F64 ProcList Types Hotness Mm MmAsync Ucm Process Telem Migrate Inv UcmWp AsyncOk TableOk AllocOk RequestOk ProcessOk TelemOk MigrateOk MigrateRun EpochOk EvolveOk Ipc IpcOk.

(** The page expects a notification that does not free it. *)
Definition spared (pg : hemem_page) : bool :=
  pg_migration_uffd_unmap_pending pg || pg_map_fixed_uffd_unmap_pending pg.

(** The page without the mark that the notification took. *)
Definition mark_taken (pg : hemem_page) : hemem_page :=
  if pg_migration_uffd_unmap_pending pg then pg <| pg_migration_uffd_unmap_pending := false |>
  else pg <| pg_migration_uffd_unmap_pending := false |> <| pg_map_fixed_uffd_unmap_pending := false |>.

Section unmap.
Context (s : ucm) (A : list_id → list ptr) (R : ptr → ring_sel → list ptr).
Context (HI : ucm_inv s A R None) (p : ptr) (r : hemem_process) (Hr : u_procs s !! p = Some r).
Let table : gmap Z ptr := mm_pages (pr_mm r).

Definition spared_at (x : ptr) : bool :=
  match u_pages s !! x with Some pg => spared pg | None => false end.

(** The notification for the boundaries [vas] has been handled. *)
Record unmap_handled (vas : list Z) (s' : ucm) : Prop := UnmapHandled {
  uh_inv : ∃ R', ucm_inv s' A R' None;
  uh_misc : misc s' = misc s;
  uh_steady q : proc_steady <$> u_procs s' !! q = proc_steady <$> u_procs s !! q;
  uh_mem : u_mem s' = u_mem s;
  uh_table : ∃ r', u_procs s' !! p = Some r' ∧ ∀ va, mm_pages (pr_mm r') !! va =
    if decide (va ∈ vas) then x ← table !! va; if spared_at x then Some x else None else table !! va;
  uh_others q : q ≠ p → u_procs s' !! q = u_procs s !! q;
  uh_pages x : (∀ va, va ∈ vas → table !! va ≠ Some x) → u_pages s' !! x = u_pages s !! x;
  uh_spared va x pg : va ∈ vas → table !! va = Some x → u_pages s !! x = Some pg → spared pg = true →
    u_pages s' !! x = Some (mark_taken pg);
}.

Lemma unmap_start : unmap_handled [] s.
Proof using HI Hr.
  split; try done; [by exists R|by exists r|]. by intros va x pg ?%not_elem_of_nil.
Qed.

Lemma table_inj va va' x : table !! va = Some x → table !! va' = Some x → va = va'.
Proof using HI Hr.
  intros H1 H2. destruct (table_page s A R None HI p r Hr va x H1) as (_&_&pg&_&Hpg&_&<-&_).
  destruct (table_page s A R None HI p r Hr va' x H2) as (_&_&pg'&_&Hpg'&_&<-&_). congruence.
Qed.

(** One more boundary, by what has become of its page. *)
Lemma unmap_step vas va s1 s2 r1 r2 R2 :
  unmap_handled vas s1 → va ∉ vas → u_procs s1 !! p = Some r1 →
  ucm_inv s2 A R2 None → misc s2 = misc s1 → u_mem s2 = u_mem s1 →
  (∀ q, proc_steady <$> u_procs s2 !! q = proc_steady <$> u_procs s1 !! q) →
  (∀ q, q ≠ p → u_procs s2 !! q = u_procs s1 !! q) →
  u_procs s2 !! p = Some r2 →
  (∀ va', va' ≠ va → mm_pages (pr_mm r2) !! va' = mm_pages (pr_mm r1) !! va') →
  (∀ y, table !! va ≠ Some y → u_pages s2 !! y = u_pages s1 !! y) →
  (mm_pages (pr_mm r2) !! va = x ← table !! va; if spared_at x then Some x else None) →
  (∀ x pg, table !! va = Some x → u_pages s !! x = Some pg → spared pg = true →
     u_pages s2 !! x = Some (mark_taken pg)) →
  unmap_handled (vas ++ [va]) s2.
Proof using HI Hr.
  intros [_ Hm Hst Hmem (r1'&Hr1'&Ht) Ho Hp Hs] Hva Hr1 HI2 Hm2 Hmem2 Hst2 Ho2 Hr2 Ht2 Hp2 Hva2 Hs2.
  rewrite Hr1 in Hr1'. injection Hr1' as <-. split; [eauto|congruence|..].
  - intros q. by rewrite Hst2.
  - congruence.
  - exists r2. split; [done|]. intros va'. destruct (decide (va' = va)) as [->|Hne].
    + rewrite decide_True by set_solver. done.
    + rewrite Ht2, Ht by done. destruct (decide (va' ∈ vas)), (decide (va' ∈ vas ++ [va])); set_solver.
  - intros q Hq. rewrite Ho2, Ho; done.
  - intros x Hx. rewrite Hp2, Hp; [done|..]; intros; apply Hx; set_solver.
  - intros va' x pg [Hin|Hin]%elem_of_app Hx Hpg Hsp.
    + rewrite Hp2; [by eapply Hs|]. intros Hx'. by rewrite (table_inj _ _ _ Hx Hx') in Hin.
    + apply list_elem_of_singleton in Hin as ->. by apply Hs2.
Qed.

(** The page at the boundary, when there is one. *)
Lemma wp_unmap_page vas va s1 r1 R1 x pg :
  unmap_handled vas s1 → va ∉ vas → ucm_inv s1 A R1 None → u_procs s1 !! p = Some r1 →
  mm_pages (pr_mm r1) !! va = Some x → table !! va = Some x →
  u_pages s !! x = Some pg → u_pages s1 !! x = Some pg →
  wp (set_page x (λ pg, pg <| pg_migration_uffd_unmap_pending := false |>);;
      if pg_migration_uffd_unmap_pending pg then mret tt
      else
        set_page x (λ pg, pg <| pg_map_fixed_uffd_unmap_pending := false |>);;
        if pg_map_fixed_uffd_unmap_pending pg then mret tt
        else mm_remove_page p x;; ucm_stats_record_page_freed p (pt_to_pagesize (pg_pt pg)))
    (λ _ s2, unmap_handled (vas ++ [va]) s2) s1.
Proof using HI Hr.
  intros Hun Hva HI1 Hr1 Hx1 Hx Hpg Hpg1.
  destruct (table_page s1 A R1 None HI1 p r1 Hr1 va x Hx1) as (d&i&pg1&Hb&Hpg1'&_).
  rewrite Hpg1 in Hpg1'. injection Hpg1' as <-.
  assert (∀ f : hemem_page → hemem_page,
    page_place (f pg) = page_place pg → pg_ring_present (f pg) = pg_ring_present pg →
    ucm_inv (s1 <| u_pages := <[x := f pg]> (u_pages s1) |>) A R1 None) as Hset.
  { intros f Hf1 Hf2. by apply (observed_page s1 A R1 HI1 p x d i pg f). }
  assert (spared_at x = spared pg) as Hsp by (unfold spared_at; by rewrite Hpg).
  assert (∀ f : hemem_page → hemem_page,
    page_place (f pg) = page_place pg → pg_ring_present (f pg) = pg_ring_present pg →
    spared pg = true → f pg = mark_taken pg →
    unmap_handled (vas ++ [va]) (s1 <| u_pages := <[x := f pg]> (u_pages s1) |>)) as Hspare.
  { intros f Hf1 Hf2 Hspg Hf. eapply (unmap_step vas va s1 _ r1 r1 R1); try done; rec_simpl.
    - by apply Hset.
    - intros y Hy. rewrite lookup_insert_ne; [done|]. congruence.
    - by rewrite Hx; simpl; rewrite Hsp, Hspg.
    - intros y pgy Hy Hpgy _. rewrite Hx in Hy. injection Hy as <-. rewrite Hpg in Hpgy.
      injection Hpgy as <-. rewrite lookup_insert_eq. congruence. }
  unfold spared, mark_taken in *. do 2 ucm_step. wp_if Hmig.
  { wp_step. apply (Hspare (λ pg, pg <| pg_migration_uffd_unmap_pending := false |>)); done. }
  do 2 ucm_step. ucm_norm.
  set (f := λ pg, pg <| pg_migration_uffd_unmap_pending := false |>
    <| pg_map_fixed_uffd_unmap_pending := false |>). wp_if Hfix.
  { wp_step. by apply (Hspare f). }
  pose proof (Hset f eq_refl eq_refl) as HI2. wp_step.
  eapply wp_mono; [by eapply (wp_mm_remove_mapped _ A R1 None p r1 va x HI2); [left| |]|].
  intros [] s3 [HI3 Hun3]. pose proof Hun3 as [(?&r3&_&Hr3&_) _ _ _ _].
  eapply wp_mono; [by eapply wp_page_freed|]. intros [] s4 [HI4 Hun4].
  pose proof (unmapped_app _ _ _ _ _ _ Hun3 Hun4) as [(r1'&r4&Hr1'&Hr4&Ht4&Hp4) Ho4 Hm4 Hmem4 Hst4].
  rec_simpl_in Hr1'. rewrite Hr1 in Hr1'. injection Hr1' as <-.
  assert (∀ va', va' ≠ va → va' ∉ [va] ++ []) as Hnin by set_solver.
  eapply (unmap_step vas va s1 s4 r1 r4); try done.
  - intros va' Hva'. rewrite Ht4, decide_False by auto. done.
  - intros y Hy. rewrite Hp4.
    + rec_simpl. rewrite lookup_insert_ne; [done|]. congruence.
    + intros va' Hva'. assert (va' = va) as -> by set_solver. congruence.
  - rewrite Ht4, decide_True by set_solver. rewrite Hx. simpl. by rewrite Hsp.
  - intros y pgy Hy Hpgy Hsy. rewrite Hx in Hy. injection Hy as <-. rewrite Hpg in Hpgy.
    injection Hpgy as <-. unfold spared in Hsy. by rewrite Hmig, Hfix in Hsy.
Qed.

Context (start end_ : Z) (Hstart : 0 ≤ start ≤ end_) (Hend : end_ + HUGEPAGE_SIZE ≤ 2 ^ 64).
Let base : Z := start - start mod HUGEPAGE_SIZE.

Lemma wp_unmap_body k s1 :
  unmap_handled (boundaries base k) s1 →
  wp (unmap_body p end_ (base + Z.of_nat k * HUGEPAGE_SIZE)) (λ res s2,
    match res with
    | inl pb => Z.of_nat k < page_count (end_ - base) ∧
        pb = base + Z.of_nat (S k) * HUGEPAGE_SIZE ∧ unmap_handled (boundaries base (S k)) s2
    | inr _ => page_count (end_ - base) ≤ Z.of_nat k ∧ s2 = s1
    end) s1.
Proof using HI Hr Hstart Hend.
  intros Hun. pose proof Hun as [(R1&HI1) _ _ _ (r1&Hr1&Ht) _ Hpages _].
  assert (0 ≤ base ≤ start) as Hbase. { unfold base, HUGEPAGE_SIZE. Z.div_mod_to_equations. lia. }
  unfold unmap_body. wp_if Hlt.
  2: { wp_step. split; [|done]. apply Z.ltb_ge in Hlt.
    assert (¬ Z.of_nat k < page_count (end_ - base)) by (rewrite <- page_count_lt; lia). lia. }
  apply Z.ltb_lt in Hlt.
  assert (Z.of_nat k < page_count (end_ - base)) as Hk by (rewrite <- page_count_lt; lia).
  set (va := base + Z.of_nat k * HUGEPAGE_SIZE) in *.
  assert (u64 (va + HUGEPAGE_SIZE) = base + Z.of_nat (S k) * HUGEPAGE_SIZE) as Hnext.
  { rewrite u64_small by (unfold va, HUGEPAGE_SIZE in *; lia). unfold va. lia. }
  assert (va ∉ boundaries base k) as Hfresh by apply (boundary_fresh start k).
  pose proof (boundaries_S base k : _ = boundaries base k ++ [va]) as HS.
  assert (mm_pages (pr_mm r1) !! va = table !! va) as Hva by (rewrite Ht, decide_False; done).
  wp_step. eapply (wp_mm_find_page s1 A R1 None HI1 p r1 Hr1). rewrite Hva.
  destruct (table !! va) as [x|] eqn:Hx.
  - destruct (table_page s A R None HI p r Hr va x Hx) as (_&_&pg&_&Hpg&_).
    assert (u_pages s1 !! x = Some pg) as Hpg1.
    { rewrite Hpages; [done|]. intros va' Hin Hx'. by rewrite (table_inj _ _ _ Hx Hx') in Hfresh. }
    pose proof (pp_pt _ _ (I_phys HI Hpg)) as Hpt. do 2 ucm_step.
    eapply wp_seq_assoc; [by eapply wp_unmap_page|]. intros [] s2 Hun2. wp_step.
    rewrite Hpt. cbn [pt_to_pagesize]. rewrite HS. done.
  - wp_step. unfold get_default_page_size. split_and!; [done..|]. rewrite HS.
    eapply (unmap_step (boundaries base k) va s1 s1 r1 r1 R1); try done.
    + by rewrite Hva, Hx.
    + intros x pg Hx'. congruence.
Qed.

Lemma wp_handle_page_unmap :
  wp (handle_page_unmap start end_ p)
    (λ _, unmap_handled (boundaries base (Z.to_nat (page_count (end_ - base))))) s.
Proof using HI Hr Hstart Hend.
  assert (0 ≤ base ≤ start ∧ start - base < HUGEPAGE_SIZE) as Hbase.
  { unfold base, HUGEPAGE_SIZE. Z.div_mod_to_equations. lia. }
  assert (0 ≤ page_count (end_ - base) ≤ (end_ - start) / BASEPAGE_SIZE + 2) as HK.
  { unfold page_count, HUGEPAGE_SIZE, BASEPAGE_SIZE in *. Z.div_mod_to_equations. lia. }
  unfold handle_page_unmap, get_default_page_size.
  rewrite round_down_spec by (unfold HUGEPAGE_SIZE in *; lia). fold base.
  eapply (wp_loop (λ pb s', ∃ k, pb = base + Z.of_nat k * HUGEPAGE_SIZE ∧
    (k ≤ Z.to_nat (page_count (end_ - base)))%nat ∧ unmap_handled (boundaries base k) s')
    (λ pb _, Z.to_nat (page_count (end_ - base) - (pb - base) / HUGEPAGE_SIZE))).
  - exists O. split_and!; [lia|lia|apply unmap_start].
  - rewrite Z.sub_diag, Z.div_0_l by done. change (HUGEPAGE_SIZE / BASEPAGE_SIZE) with 512. lia.
  - intros pb s' (k&->&Hk&Hun). eapply wp_mono; [by eapply wp_unmap_body|]. intros [pb'|[]] s2.
    + intros (Hk'&->&Hun'). split; [exists (S k); split_and!; [done|lia|done]|].
      replace (base + Z.of_nat (S k) * HUGEPAGE_SIZE - base) with (Z.of_nat (S k) * HUGEPAGE_SIZE) by lia.
      replace (base + Z.of_nat k * HUGEPAGE_SIZE - base) with (Z.of_nat k * HUGEPAGE_SIZE) by lia.
      rewrite !Z.div_mul by done. lia.
    + intros (Hk'&->). by replace (Z.to_nat (page_count (end_ - base))) with k by lia.
Qed.
End unmap.

(** Only unmarked pages of the range are lost. *)
Definition unmap_lost (s : ucm) (p : ptr) (vas : list Z) : ptr → Z → Prop := λ q va,
  q = p ∧ va ∈ vas ∧ ∃ r x, entry s p r va x ∧ spared_at s x = false.

Lemma unmap_evolves s A R p r vas s' :
  ucm_inv s A R None → u_procs s !! p = Some r → unmap_handled s A p r vas s' →
  evolves s s' (unmap_lost s p vas) nothing.
Proof.
  intros HI Hr [_ Hmisc Hst Hmem (r1&Hr1&Ht) Hoth Hpages Hsp].
  assert (∀ q r' va x, entry s' q r' va x → ∃ r0, entry s q r0 va x ∧ pr_pid r' = pr_pid r0 ∧
    (q = p → va ∈ vas → spared_at s x = true)) as Hback.
  { intros q r' va x [Hr' Hx]. destruct (decide (q = p)) as [->|Hq].
    2: { rewrite Hoth in Hr' by done. exists r'. by split_and!. }
    rewrite Hr1 in Hr'. injection Hr' as <-. rewrite Ht in Hx.
    assert (pr_pid r1 = pr_pid r) as Hpid.
    { specialize (Hst p). rewrite Hr, Hr1 in Hst. simpl in Hst. unfold proc_steady in Hst. congruence. }
    case_decide as Hva; [|exists r; by split_and!].
    destruct (mm_pages (pr_mm r) !! va) as [y|] eqn:Hy; simpl in Hx; [|done].
    destruct (spared_at s y) eqn:Hs; [|done]. injection Hx as <-. exists r. by split_and!. }
  split.
  - intros q r0 va x [Hr0 Hx]. destruct (decide (q = p)) as [->|Hq].
    2: { right. exists r0. split; [by rewrite Hoth|done]. }
    rewrite Hr in Hr0. injection Hr0 as <-. destruct (decide (va ∈ vas)) as [Hva|Hva].
    2: { right. exists r1. split; [done|]. by rewrite Ht, decide_False. }
    destruct (spared_at s x) eqn:Hs.
    + right. exists r1. split; [done|]. rewrite Ht, decide_True, Hx by done. simpl. by rewrite Hs.
    + left. split_and!; [done..|]. by exists r, x.
  - intros q r' va x Hx. right. destruct (Hback _ _ _ _ Hx) as (r0&Hx0&Hpid&Hs). exists r0.
    split_and!; [done..|]. destruct Hx0 as [Hr0 Hx0].
    destruct (table_page s A R None HI q r0 Hr0 va x Hx0) as (d&i&pg&Hb&Hpg&_&Hvaeq&_).
    assert (∀ o, byte s' pg o = byte s pg o) as Hbyte by (intros; unfold byte; by rewrite Hmem).
    destruct (decide (q = p ∧ va ∈ vas)) as [[-> Hva]|Hn].
    + rewrite Hr in Hr0. injection Hr0 as <-. specialize (Hs eq_refl Hva). unfold spared_at in Hs.
      rewrite Hpg in Hs. exists pg, (mark_taken pg). split_and!; [done|by eapply Hsp|..];
        intros; unfold byte, mark_taken; rewrite ?Hmem; by destruct (pg_migration_uffd_unmap_pending pg).
    + exists pg, pg. split_and!; [done| |done|auto]. rewrite Hpages; [done|]. intros va' Hva' Hx'.
      destruct (table_page s A R None HI p r Hr va' x Hx') as (d'&i'&pg'&Hb'&Hpg'&_&Hvaeq'&_).
      destruct (bins_unique _ _ (I_dll HI) _ _ _ _ _ _ _ Hb Hb') as (_&->&_).
      apply Hn. split; [done|]. congruence.
  - unfold misc in Hmisc. congruence.
Qed.

(** ** Page faults on memory that is mapped *)
Section page_fault.
Context (alloc_mode : ALLOC_MODE) (use_shm : bool) (migration_ends : ptr → bool) (wait_time_us : Z).
Context (wake : Z → Z → Z → ioctl_result) (Hwake : ∀ uffd va len, wake uffd va len = IOCTL_OK).
Context (Hends : ∀ x, migration_ends x = true).
Context (s : ucm) (A : list_id → list ptr) (R : ptr → ring_sel → list ptr).
Context (HI : ucm_inv s A R None) (p : ptr) (r : hemem_process) (Hr : u_procs s !! p = Some r).

(** A store to a page that is being moved waits for the move; only the count
    of the time waited changes. *)
Lemma wp_handle_wp_fault pb addr :
  is_Some (mm_pages (pr_mm r) !! pb) →
  wp (handle_wp_fault use_shm migration_ends wait_time_us p pb addr)
    (λ _ s', observed s A R s' ∧ u_pages s' = u_pages s) s.
Proof using HI Hr Hends.
  intros [x Hx]. unfold handle_wp_fault.
  destruct (use_shm && (addr =? pb)); [wp_step; split; [by apply observed_refl|done]|].
  unfold handle_wp_fault_inner. wp_step. eapply (wp_mm_find_page s A R None HI p r Hr). rewrite Hx.
  destruct (table_page s A R None HI p r Hr pb x Hx) as (d&i&pg&_&Hpg&_).
  do 2 wp_step; [done|]. do 2 wp_step; [done|]. wp_step. unfold bounded_migration_wait. do 2 ucm_step.
  wp_step. wp_step. apply wp_assert; [by destruct (pg_migrating pg)|].
  unfold ucm_stats_record_migration_wait. do 2 wp_step.
  match goal with |- wp _ _ ?s1 => destruct (observed_frame s A R HI s1) as [Hob1 HI1]; [done..|] end.
  eapply wp_mono; [by eapply (wp_set_proc_obs _ A R HI1 p r)|]. intros [] s2 [Hob2 [Hp2 _]].
  split; [|done]. eapply observed_trans; [exact Hob1|exact HI1|done|exact Hob2].
Qed.

(** A fault on a page that has been mapped meanwhile is only counted. *)
Lemma wp_handle_missing_fault pb :
  is_Some (mm_pages (pr_mm r) !! pb) →
  wp (handle_missing_fault alloc_mode p pb) (λ _ s', observed s A R s' ∧ u_pages s' = u_pages s) s.
Proof using HI Hr.
  intros [x Hx]. unfold handle_missing_fault. wp_step.
  eapply wp_mono; [by eapply (wp_set_proc_obs s A R HI p r)|]. intros [] s1 [Hob [Hp1 Hpr1]].
  pose proof Hob as [(R1&HI1&HR1) _ _ _ _].
  wp_step. eapply (wp_mm_find_page s1 A R1 None HI1 p); [rewrite Hpr1; apply lookup_insert_eq|].
  rec_simpl. rewrite Hx. by wp_step.
Qed.

Lemma wp_handle_page_fault addr flags :
  let pb := Z.land addr (u64 (Z.lnot (HUGEPAGE_SIZE - 1))) in
  pb ≠ 0 → is_Some (mm_pages (pr_mm r) !! pb) →
  Z.land flags UFFD_PAGEFAULT_FLAG_WP ≠ 0 ∨ Z.land flags UFFD_PAGEFAULT_FLAG_MINOR = 0 →
  wp (handle_page_fault alloc_mode use_shm migration_ends wait_time_us wake addr flags p)
    (λ _ s', observed s A R s' ∧ u_pages s' = u_pages s) s.
Proof using HI Hr Hends Hwake.
  intros pb Hpb Hx Hflags. unfold handle_page_fault. fold get_default_page_size in pb. fold pb.
  do 2 wp_step; [by apply negb_true_iff, Z.eqb_neq|]. wp_step.
  eapply (wp_mono _ (λ _ s', observed s A R s' ∧ u_pages s' = u_pages s)).
  { destruct (Z.land flags UFFD_PAGEFAULT_FLAG_WP =? 0) eqn:Hw; cbn [negb].
    - apply Z.eqb_eq in Hw. destruct Hflags as [?| ->]; [done|]. cbn [Z.eqb negb].
      by apply wp_handle_missing_fault.
    - by apply wp_handle_wp_fault. }
  intros [] s1 [Hob Hp1]. destruct (observed_proc_lookup _ _ _ _ _ _ Hob Hr) as (r1&Hr1&_).
  do 2 ucm_step. rewrite Hwake. by wp_step.
Qed.
End page_fault.
