(* ===== verification/ServerOk.v ===== *)
(** * The manager as a whole

    The request thread, the fault thread and the core thread share the state
    [srv].  An [event] is what one of them does between two points where it
    holds no lock: handle a message, handle a notification of the kernel, run a
    round of [core_loop].  [reachable] are the states that sequences of events
    lead to; in every such state the invariants hold, and every event that the
    protocol permits runs to its end. *)

From S2P Require Import Prelude Fifo Ring F64 ProcList Types Hotness Mm MmAsync Ucm Process Telem Migrate Qos Inv UcmWp AsyncOk TableOk AllocOk RequestOk InitOk ProcessOk TelemOk MigrateOk MigrateRun EpochOk EvolveOk Ipc IpcOk FaultOk.

(** ** A round of the core loop *)
Section round.
Context (writeprotect : Z → Z → Z → bool → ioctl_result) (is_process_alive : Z → bool).
Context (Hwp : ∀ uffd va len b, writeprotect uffd va len b ≠ IOCTL_FAILED).

(** The frees of the processes that have died have been carried out. *)
Definition prune_permitted (s : ucm) : Prop :=
  ∀ p r, u_procs s !! p = Some r → is_process_alive (pr_pid r) = false →
    ring_buf_empty (mm_free_page_ring (pr_mm r)) = true.

Definition telem_permitted (ps : list perf_event_mmap_page) : Prop :=
  Forall perf_ok ps ∧ Z.of_nat (length ps) ≤ HEMEM_NCORES - (LAST_HEMEM_THREAD + 1).

Lemma free_ring_empty s A R p r :
  ucm_inv s A R None → u_procs s !! p = Some r →
  ring_buf_empty (mm_free_page_ring (pr_mm r)) = true → R p FreeRing = [].
Proof.
  intros HI Hr He. change (mm_free_page_ring (pr_mm r)) with (ring_of FreeRing (pr_mm r)) in He.
  rewrite (ring_buf_empty_spec _ _ (proj1 (pi_ring _ _ _ _ _ _ (I_proc HI Hr) FreeRing))) in He.
  by apply bool_decide_eq_true in He.
Qed.

Lemma wp_prune_round L s A R :
  sound L ∅ s A R → (∀ q, is_Some (u_procs s !! q) → q ∈ L) →
  (∀ p r, u_procs s !! p = Some r → is_process_alive (pr_pid r) = false → R p FreeRing = []) →
  wp (proc_mgr_prune is_process_alive) (λ _ s', ∃ L' A' R', sound L' ∅ s' A' R' ∧
    (∀ q, is_Some (u_procs s' !! q) → q ∈ L') ∧
    (∀ p r, u_procs s' !! p = Some r → is_process_alive (pr_pid r) = true) ∧
    evolves s s' (λ q _, dead is_process_alive s q = true) nothing) s.
Proof.
  intros [HI HM Hrd] Hl Hdead. eapply wp_mono.
  { eapply (wp_proc_mgr_prune is_process_alive s A R L HI HM). intros p HpL.
    unfold dead. destruct (u_procs s !! p) as [r|] eqn:Hr; [|done].
    rewrite negb_true_iff. by apply Hdead. }
  intros _ s' [_ (A'&R'&HI'&HM'&Hpr&HR')]. rewrite app_nil_r in HM'.
  assert (∀ q r, u_procs s' !! q = Some r →
    dead is_process_alive s q = false ∧ ∃ r0, u_procs s !! q = Some r0 ∧ pr_pid r0 = pr_pid r) as Hlive.
  { intros q r Hr. assert (q ∉ dead_list is_process_alive s L) as Hq.
    { intros Hq. rewrite (pn_gone _ _ _ _ _ Hpr q Hq) in Hr. done. }
    pose proof (pn_others _ _ _ _ _ Hpr q Hq) as Hk. rewrite Hr in Hk.
    destruct (u_procs s !! q) as [r0|] eqn:Hr0; [|done]. simpl in Hk. unfold proc_keep in Hk.
    split; [|exists r0; split; [done|congruence]].
    destruct (dead is_process_alive s q) eqn:Hd; [|done]. destruct Hq.
    apply list_elem_of_filter. split; [done|]. apply Hl. eauto. }
  exists (live_list is_process_alive s L), A', R'. split_and!.
  - split; [done..|]. by eapply ready_world; [apply Hpr|].
  - intros q [r Hr]. destruct (Hlive q r Hr) as (Hd&r0&Hr0&_).
    apply list_elem_of_filter. split; [done|]. apply Hl. eauto.
  - intros q r Hr. destruct (Hlive q r Hr) as (Hd&r0&Hr0&<-). unfold dead in Hd. rewrite Hr0 in Hd.
    by apply negb_false_iff in Hd.
  - eapply evolves_weaken; [by eapply pruned_evolves| |done].
    by intros q _ [? _]%list_elem_of_filter.
Qed.

Lemma scan_epoch_ok L s A R n :
  sound L ∅ s A R → sound L ∅ (s <| u_scan_epoch := n |>) A R.
Proof.
  intros [HI HM [Hi Ht Hl]]. split; [by eapply inv_frame|by eapply mgr_view|]. by split.
Qed.

(** A round ends with every frame that waited in a free ring back on its free
    list; a dead process is gone. *)
Lemma wpx_core_round L s A R enable ps cnts diffs st :
  sound L ∅ s A R → (∀ q, is_Some (u_procs s !! q) → q ∈ L) →
  prune_permitted s → telem_permitted ps →
  wpx float_error (core_round writeprotect is_process_alive enable ps cnts diffs st)
    (λ res s', ∃ L' A' R', sound L' ∅ s' A' R' ∧ (∀ q, is_Some (u_procs s' !! q) → q ∈ L') ∧
      (∀ q, q ∈ L' → R' q FreeRing = []) ∧
      (∀ p r, u_procs s' !! p = Some r → is_process_alive (pr_pid r) = true) ∧
      (coherent s → coherent s') ∧
      preserves s s' (λ q _, dead is_process_alive s q = true) nothing ∧
      Forall2 (λ p p', data_head p ≤ data_tail p') ps res.1.1) s.
Proof using Hwp.
  intros Hso Hl Hprune [Hps Hlen]. pose proof Hso as [HI HM _]. unfold core_round.
  apply wpx_bind, wpx_wp. eapply wp_mono; [by apply (observes_telem_engine_poll A L ∅)|].
  intros pc s1 [Hob [Hf2 _]]. destruct (observed_sound _ _ _ _ _ _ Hso Hob) as (R1&Hso1&HR1).
  apply wpx_bind, wpx_wp. eapply wp_mono.
  { apply (wp_prune_round L s1 A R1); [done|..].
    - intros q Hq. apply Hl. by eapply (steady_dom proc_core), Hq; apply Hob.
    - intros p r Hr Ha. rewrite HR1. pose proof (ob_procs _ _ _ _ Hob p) as Hp. rewrite Hr in Hp.
      destruct (u_procs s !! p) as [r0|] eqn:Hr0; [|done]. simpl in Hp. unfold proc_core in Hp.
      eapply (free_ring_empty s A R p r0); [done..|]. apply (Hprune p r0 Hr0). congruence. }
  intros _ s2 (L2&A2&R2&Hso2&Hl2&Hal2&Hev2).
  apply wpx_bind. eapply wpx_mono; [by eapply wpx_qos_policy_epoch|].
  intros st' s3 (A3&R3&Hso3&Hst3&Hfree3). apply wpx_bind, wpx_wp. apply wp_modify, wpx_ret.
  exists L2, A3, R3. split_and!; [by apply scan_epoch_ok| |done| | | |done]; rec_simpl.
  - intros q Hq. apply Hl2. by eapply (steady_dom proc_ident), Hq; apply Hst3.
  - intros p r Hr. pose proof (st_proc _ _ _ _ Hst3 p) as Hp. rewrite Hr in Hp.
    destruct (u_procs s2 !! p) as [r2|] eqn:Hr2; [|done]. simpl in Hp. unfold proc_ident in Hp.
    replace (pr_pid r) with (pr_pid r2) by congruence. by eapply Hal2.
  - intros Hc. pose proof (evolves_coherent _ _ _ _ Hc (observed_evolves _ _ _ _ HI Hob)) as Hc1.
    pose proof (evolves_coherent _ _ _ _ Hc1 Hev2) as Hc2.
    assert (coherent s3) as Hc3.
    { apply (app_maps_coherent s3 A3 R3); [apply Hso3|]. apply (st_app _ _ _ _ Hst3).
      apply (app_maps_coherent s2 A2 R2); [apply Hso2|done]. }
    exact Hc3.
  - pose proof (evolves_preserves _ _ _ _ (evolves_after _ _ _ _ _ (observed_evolves _ _ _ _ HI Hob) Hev2)) as H02.
    pose proof (stable_preserves s2 A2 R2 s3 A3 R3 (so_inv _ _ _ _ _ Hso2) (so_inv _ _ _ _ _ Hso3) Hst3) as H23.
    assert (preserves s s3 (λ q _, dead is_process_alive s q = true) nothing) as [K E].
    { eapply preserves_weaken; [by eapply preserves_trans|..]; [|by intros q va [[]|[]]].
      intros q va [Hd|[]]. rewrite <- Hd. unfold dead. pose proof (ob_procs _ _ _ _ Hob q) as Hq.
      destruct (u_procs s !! q) as [r|], (u_procs s1 !! q) as [r1|]; try done. simpl in Hq.
      unfold proc_core in Hq. by replace (pr_pid r1) with (pr_pid r) by congruence. }
    by split.
Qed.
End round.

(** What applications do to their mappings and to the memory is not the
    manager's business. *)
Lemma server_ok_view L sv A R s' :
  settled_srv L sv A R →
  (u_procs s', u_pages s', u_plist s', u_pa_map s', u_fastmem_size s', u_slowmem_size s', u_pq s',
   u_proc_map s', u_ipc s', u_fastmem_ptr s', u_slowmem_ptr s', u_remap_locked s') =
  (let s := sv_ucm sv in
   (u_procs s, u_pages s, u_plist s, u_pa_map s, u_fastmem_size s, u_slowmem_size s, u_pq s,
    u_proc_map s, u_ipc s, u_fastmem_ptr s, u_slowmem_ptr s, u_remap_locked s)) →
  server_ok (sv <| sv_ucm := s' |>).
Proof.
  intros [[HI HM [Hi Ht Hlk]] Hl] [= E1 E2 E3 E4 E5 E6 E7 E8 E9 E10 E11 E12]. exists L, A, R.
  split; rec_simpl; [|by rewrite E1]. split; [by eapply inv_frame| |].
  - eapply mgr_view; [done..|]. intros q. by rewrite E1.
  - split; [by rewrite E9| |by rewrite E12]. unfold tiers_mapped in *. by rewrite E10, E11.
Qed.

(** ** Events *)

(** An application maps or unmaps a huge page, or writes a byte of one; the
    answers of the applications to the remap requests that follow; a message on a socket; a notification on a userfaultfd; a round of the core
    loop, with what it finds in [/proc], in the perf buffers and in the
    counters. *)
Inductive event :=
  | EvMap (pid va : Z) (f : option (pbuftype * Z))
  | EvWrite (pid va o v : Z)
  | EvReplies (replies : list app_reply)
  | EvMessage (fd : Z) (msg : message)
  | EvNotification (fd : Z) (msg : uffd_msg)
  | EvRound (is_process_alive : Z → bool) (enable_migration : bool)
      (ps : list perf_event_mmap_page) (cnts diffs : list Z) (st : qos_policy_state_t).

Section system.
Context (alloc_mode : ALLOC_MODE) (map_nspid_to_pid : Z → Z → Z).
Context (use_shm : bool) (migration_ends : ptr → bool) (wait_time_us : Z).
Context (wake : Z → Z → Z → ioctl_result) (writeprotect : Z → Z → Z → bool → ioctl_result).

Definition run_event (ev : event) : M srv unit :=
  match ev with
  | EvMap pid va f =>
      modify (λ sv, sv <| sv_ucm ::= λ s, s <| u_app ::= partial_alter (λ _, f) (pid, va) |> |>)
  | EvWrite pid va o v =>
      f ← gets (λ sv, u_app (sv_ucm sv) !! (pid, va));
      match f with
      | Some (t, off) => modify (λ sv, sv <| sv_ucm ::= λ s, s <| u_mem ::= mem_set t (off + o) 1 v |> |>)
      | None => mret tt
      end
  | EvReplies replies => modify (λ sv, sv <| sv_ucm ::= λ s, s <| u_ipc := replies |> |>)
  | EvMessage fd msg => _ ← process_msg alloc_mode map_nspid_to_pid fd msg; mret tt
  | EvNotification fd msg =>
      o ← gets (λ sv, uffd_to_proc sv !! fd);
      process ← nonnull o;
      zoom sv_ucm (handle_uffd_msg alloc_mode use_shm migration_ends wait_time_us wake msg process)
  | EvRound is_process_alive enable ps cnts diffs st =>
      _ ← zoom sv_ucm (core_round writeprotect is_process_alive enable ps cnts diffs st); mret tt
  end.

(** The notifications that the kernel sends for memory that is mapped. *)
Definition notification_permitted (sv : srv) (fd : Z) (msg : uffd_msg) : Prop :=
  ∃ p r, uffd_to_proc sv !! fd = Some p ∧ u_procs (sv_ucm sv) !! p = Some r ∧
    match msg with
    | UFFD_EVENT_UNMAP start end_ => 0 ≤ start ≤ end_ ∧ end_ + HUGEPAGE_SIZE ≤ 2 ^ 64
    | UFFD_EVENT_REMOVE _ _ | UFFD_EVENT_REMAP _ _ _ => True
    | UFFD_EVENT_PAGEFAULT addr flags =>
        let pb := Z.land addr (u64 (Z.lnot (HUGEPAGE_SIZE - 1))) in
        pb ≠ 0 ∧ is_Some (mm_pages (pr_mm r) !! pb) ∧
        (Z.land flags UFFD_PAGEFAULT_FLAG_WP ≠ 0 ∨ Z.land flags UFFD_PAGEFAULT_FLAG_MINOR = 0)
    | UFFD_EVENT_OTHER => False
    end.

Definition event_permitted (sv : srv) (ev : event) : Prop :=
  match ev with
  | EvMap _ _ _ => True
  | EvWrite _ _ o _ => 0 ≤ o < HUGEPAGE_SIZE
  | EvReplies replies => Forall good_reply replies
  | EvMessage fd msg => permitted map_nspid_to_pid sv msg
  | EvNotification fd msg => notification_permitted sv fd msg
  | EvRound is_process_alive _ ps _ _ _ =>
      prune_permitted is_process_alive (sv_ucm sv) ∧ telem_permitted ps
  end.

(** The manager once [main] has set it up. *)
Definition boot (fsz ssz fptr sptr : Z) : M srv unit :=
  zoom sv_ucm (mm_init fsz ssz fptr sptr;; proc_mgr_init).

Definition srv_start : srv := Srv ucm_start ∅ ∅ ∅.

Inductive reachable (fsz ssz fptr sptr : Z) : srv → Prop :=
  | reachable_boot sv :
      boot fsz ssz fptr sptr srv_start = Ok tt sv → reachable fsz ssz fptr sptr sv
  | reachable_event sv ev sv' :
      reachable fsz ssz fptr sptr sv → event_permitted sv ev → run_event ev sv = Ok tt sv' →
      reachable fsz ssz fptr sptr sv'.

(** The environment: the kernel accepts the requests on a userfaultfd, and a
    migration ends within the time a fault waits for it. *)
Record kernel_ok : Prop := KernelOk {
  k_writeprotect uffd va len b : writeprotect uffd va len b ≠ IOCTL_FAILED;
  k_wake uffd va len : wake uffd va len = IOCTL_OK;
  k_ends x : migration_ends x = true;
}.

(** The events after which applications have nothing to map: all but a new
    allocation and the mapping itself. *)
Definition maps_nothing (ev : event) : Prop :=
  match ev with
  | EvMessage _ (AllocSpace q) => al_map_fixed q = true
  | EvMap _ _ _ => False
  | _ => True
  end.

(** The events in which no application writes. *)
Definition writes_nothing (ev : event) : Prop :=
  match ev with EvWrite _ _ _ _ => False | _ => True end.

(** The mappings that an event takes away, and those that it makes. *)
Definition lost_in (sv : srv) (ev : event) : ptr → Z → Prop :=
  match ev with
  | EvMessage _ msg => lost_by (sv_ucm sv) msg
  | EvNotification fd (UFFD_EVENT_UNMAP start end_) => λ q va,
      uffd_to_proc sv !! fd = Some q ∧ va ∈ freed_range start (end_ - start)
  | EvRound is_process_alive _ _ _ _ _ => λ q _, dead is_process_alive (sv_ucm sv) q = true
  | _ => nothing
  end.
Definition new_in (sv : srv) (ev : event) : ptr → Z → Prop :=
  match ev with EvMessage _ msg => new_by (sv_ucm sv) msg | _ => nothing end.

Context (Hk : kernel_ok).

Lemma wp_run_notification L sv A R fd msg :
  settled_srv L sv A R → notification_permitted sv fd msg →
  wp (run_event (EvNotification fd msg)) (λ _ sv', server_ok sv' ∧
    evolves (sv_ucm sv) (sv_ucm sv') (lost_in sv (EvNotification fd msg)) nothing) sv.
Proof using Hk.
  intros Hok (p&r&Hfd&Hr&Hmsg). pose proof (so_inv _ _ _ _ _ (sv_sound _ _ _ _ Hok)) as HI.
  cbn [run_event]. do 2 wp_step. rewrite Hfd. wp_step. wp_step; [done|]. apply wp_zoom.
  destruct msg as [start end_|? ?|? ? ?|addr flags|]; cbn [handle_uffd_msg]; [..|done].
  - destruct Hmsg as [??]. eapply wp_mono; [by eapply (wp_handle_page_unmap _ A R HI p r Hr)|].
    intros u s' Hun. cbv beta in Hun. pose proof Hun as [(R'&HI') Hm Hst _ _ _ _ _].
    split; [eapply still_ok_srv, steady_ok; [exact Hok|done..]|].
    rec_simpl. eapply evolves_weaken; [by eapply (unmap_evolves _ A R p r)| |done].
    intros q va (->&Hva&_). split; [done|]. unfold freed_range. by replace (start + (end_ - start)) with end_ by lia.
  - wp_step. split; [exists L, A, R; by destruct sv|by eapply evolves_refl].
  - wp_step. split; [exists L, A, R; by destruct sv|by eapply evolves_refl].
  - destruct Hmsg as (?&?&?). eapply wp_mono.
    { eapply (wp_handle_page_fault alloc_mode use_shm migration_ends wait_time_us wake
        (k_wake Hk) (k_ends Hk) _ A R HI p r Hr); done. }
    intros _ s' [Hob _]. split; [eapply still_ok_srv, observed_ok; [exact Hok|done]|].
    by eapply observed_evolves.
Qed.

(** Every permitted event keeps the invariants; it fails only in the
    arithmetic of the policy. *)
Lemma wpx_run_event sv ev :
  server_ok sv → event_permitted sv ev →
  wpx float_error (run_event ev) (λ _ sv', server_ok sv' ∧
    (maps_nothing ev → coherent (sv_ucm sv) → coherent (sv_ucm sv')) ∧
    (writes_nothing ev →
     preserves (sv_ucm sv) (sv_ucm sv') (lost_in sv ev) (new_in sv ev))) sv.
Proof using Hk.
  intros (L&A&R&Hok) Hev. pose proof Hok as [Hso Hl].
  destruct ev as [pid va f|pid va o v|replies|fd msg|fd msg|alive enable ps cnts diffs st]; cbn [event_permitted] in Hev.
  - apply wpx_wp. cbn [run_event]. wp_step. split; [by eapply server_ok_view|]. split; [done|]. intros _.
    destruct (evolves_preserves _ _ _ _ (evolves_refl _ A R (so_inv _ _ _ _ _ Hso))) as [K E]. by split.
  - apply wpx_wp. cbn [run_event]. do 2 wp_step.
    destruct (u_app (sv_ucm sv) !! (pid, va)) as [[t off]|]; wp_step; (split; [|done]); [by eapply server_ok_view|].
    by exists L, A, R.
  - apply wpx_wp. cbn [run_event]. wp_step. split; [|split; [done|]].
    2: { intros _. apply evolves_preserves. pose proof (evolves_refl _ A R (so_inv _ _ _ _ _ Hso)) as [K E Ha]. by split. }
    exists L, A, R. destruct Hso as [HI HM [Hi Ht Hlk]].
    split; rec_simpl; [|done]. split; [by eapply inv_frame|by eapply mgr_view|]. by split.
  - apply wpx_wp. cbn [run_event]. wp_step.
    eapply wp_mono; [by eapply (wp_process_msg alloc_mode map_nspid_to_pid L sv A R Hok)|].
    intros resps sv' (Hok'&_&Hch). wp_step. split; [done|]. split; [|intros _; by apply evolves_preserves].
    intros Hm Hc q r va x pg Hx Hpg.
    destruct (evolves_coherent _ _ _ _ Hc Hch q r va x pg Hx Hpg) as [Hn|?]; [left|by right].
    destruct msg; cbn in Hn, Hm; try done. destruct Hn as (_&?&_). congruence.
  - apply wpx_wp. eapply wp_mono; [by eapply wp_run_notification|].
    intros _ sv' [? Hev']. split; [done|]. split; [|intros _; by apply evolves_preserves].
    intros _ Hc. by eapply evolves_coherent.
  - destruct Hev as [Hp Ht]. cbn [run_event]. apply wpx_bind. unfold wpx, zoom.
    pose proof (wpx_core_round writeprotect alive (k_writeprotect Hk) L (sv_ucm sv) A R
      enable ps cnts diffs st Hso Hl Hp Ht) as Hr. unfold wpx in Hr.
    destruct (core_round _ _ _ _ _ _ _ _) as [res s'|e]; [|done].
    destruct Hr as (L'&A'&R'&Hso'&Hl'&_&_&Hc&Hpv&_). split; [exists L', A', R'; by split|done].
Qed.

Lemma boot_ok fsz ssz fptr sptr :
  HUGEPAGE_SIZE ≤ fsz < 2 ^ 63 → HUGEPAGE_SIZE ≤ ssz < 2 ^ 63 →
  fsz / HUGEPAGE_SIZE + ssz / HUGEPAGE_SIZE < MAX_PAGES →
  fptr mod HUGEPAGE_SIZE = 0 → sptr mod HUGEPAGE_SIZE = 0 →
  wp (boot fsz ssz fptr sptr) (λ _ sv, server_ok sv ∧ free_slow (sv_ucm sv) = ssz / HUGEPAGE_SIZE) srv_start.
Proof using Type.
  intros Hf Hs Hm Hfp Hsp. unfold boot. apply wp_zoom. wp_step.
  eapply wp_mono; [by apply wp_mm_init|]. intros [] s (A&[HI _ Hslow _ Hrest Hprocs]).
  unfold rest in Hrest. unfold proc_mgr_init.
  assert (u_pq s = ProcQueue (PageLists ∅ {[ tt := PageList None None 0 ]}) ∅) as Hpq by (by injection Hrest).
  wp_step. rewrite Hpq. eapply wp_set_header; [apply lookup_singleton_eq|].
  split; [|rewrite <- Hslow; rec_simpl; by apply (free_slow_length s A empty_rings)].
  assert (u_ipc s = [] ∧ u_remap_locked s = ∅ ∧ u_fastmem_ptr s = fptr ∧ u_slowmem_ptr s = sptr ∧
    u_proc_map s = ∅) as (Hi&Hrl&Hfptr&Hsptr&Hmap) by (by injection Hrest).
  exists [], A, empty_rings. split; rec_simpl.
  2: { intros q. rewrite Hprocs. by intros [? ?%lookup_empty_Some]. }
  split; [by eapply inv_frame| |].
  - split; rec_simpl; simpl; rewrite ?Hprocs, ?Hmap, ?insert_singleton_eq.
    + split; simpl; [|done|by intros ? [] ?|by constructor|done|done].
      intros [] q. rewrite lookup_singleton_eq. by intros [= <-].
    + by rewrite !dom_empty_L.
    + rewrite lookup_singleton_eq. eauto.
    + done.
    + intros k p. rewrite lookup_empty. split; [done|]. by intros [?%not_elem_of_nil _].
    + intros p r. by rewrite lookup_empty.
  - split; rec_simpl; [by rewrite Hi| |done]. unfold tiers_mapped. rec_simpl. by rewrite Hfptr, Hsptr.
Qed.

(** The sizes that [main] accepts: at least a page per tier, and less than a
    million pages. *)
Definition good_tiers (fsz ssz fptr sptr : Z) : Prop :=
  HUGEPAGE_SIZE ≤ fsz < 2 ^ 63 ∧ HUGEPAGE_SIZE ≤ ssz < 2 ^ 63 ∧
  fsz / HUGEPAGE_SIZE + ssz / HUGEPAGE_SIZE < MAX_PAGES ∧
  fptr mod HUGEPAGE_SIZE = 0 ∧ sptr mod HUGEPAGE_SIZE = 0.

Lemma reachable_ok fsz ssz fptr sptr sv :
  good_tiers fsz ssz fptr sptr → reachable fsz ssz fptr sptr sv → server_ok sv.
Proof using Hk.
  intros (H1&H2&H3&H4&H5). induction 1 as [sv Hb|sv ev sv' _ IH Hev Hrun].
  - pose proof (boot_ok fsz ssz fptr sptr H1 H2 H3 H4 H5) as Hok. unfold wp in Hok.
    rewrite Hb in Hok. apply Hok.
  - pose proof (wpx_run_event sv ev IH Hev) as Hok. unfold wpx in Hok. rewrite Hrun in Hok. apply Hok.
Qed.
End system.
