(* ===== verification/App.v ===== *)
(** * The library in the application (src/src/app)

    An application is linked with a library that intercepts its [mmap] and
    [munmap].  Anonymous mappings are backed by memory of the manager: the
    library asks for pages (ipc.c), maps the frames of the response (mmap.c),
    and maps a page again when the manager has moved it (remap.c).

    The state of the model is that of the manager with, for the process at
    hand, the address space of the application: [u_app] of the manager's state
    holds the frame behind each huge page of each process, [protections] the
    protection of the huge pages of this process, [registered] the pages that
    its userfaultfd watches.  What the kernel decides is a parameter.
    A read from the socket returns a whole response, and the application does
    not fork. *)

From S2P Require Import Prelude Fifo Ring F64 ProcList Types Hotness Mm MmAsync Ucm Process Migrate Ipc.

Record app := App {
  ap_srv : srv;
  internal_call : bool;
  mem_amplification : Z;
  protections : gmap Z Z;
  registered : gset Z;
}.
#[global] Instance eta_app : Eta app :=
  λ a, App (ap_srv a) (internal_call a) (mem_amplification a) (protections a) (registered a).
#[global] Instance set_ap_srv : Setter ap_srv := ltac:(mk_setter).
#[global] Instance set_internal_call : Setter internal_call := ltac:(mk_setter).
#[global] Instance set_mem_amplification : Setter mem_amplification := ltac:(mk_setter).
#[global] Instance set_protections : Setter protections := ltac:(mk_setter).
#[global] Instance set_registered : Setter registered := ltac:(mk_setter).

(** [app_ctx_t], with the descriptors of [physmem_ctx_t]. *)
Record app_ctx_t := AppCtx {
  is_init : bool;
  ipc_fd : Z;
  host_pid : Z;
  fastmem_fd : Z;
  slowmem_fd : Z;
}.

(** The bits of sys/mman.h that the library looks at. *)
Definition PROT_READ : Z := 1.
Definition PROT_WRITE : Z := 2.
Definition PROT_EXEC : Z := 4.
Definition PROT_SEM : Z := 8.
Definition MAP_SHARED : Z := 1.
Definition MAP_PRIVATE : Z := 2.
Definition MAP_FIXED : Z := 16.
Definition MAP_ANONYMOUS : Z := 32.
Definition MAP_STACK : Z := 131072.
Definition MAP_HUGETLB : Z := 262144.
Definition MAP_FAILED : Z := 2 ^ 64 - 1.

Definition MAX_MEM_LEN_PER_REQ : Z := 512 * HUGEPAGE_SIZE.
Definition MMAP_INTERPOSE_SZ_THRESH : Z := 4 * 1024.

(** [(x & bit) == bit], [x &= ~bit], [x |= bit]. *)
Definition has (x bit : Z) : bool := Z.land x bit =? bit.
Definition clear_bit (x bit : Z) : Z := Z.land x (Z.lnot bit).
Definition set_bit (x bit : Z) : Z := Z.lor x bit.

Section app.
Context (alloc_mode : ALLOC_MODE) (map_nspid_to_pid : Z → Z → Z).
(** Whether a [MAP_FIXED] mapping at an address fails, whether registering a
    page with the userfaultfd succeeds, and whether unregistering does; the
    address that the kernel gives a new mapping; what [munmap] returns. *)
Context (map_fails : Z → bool) (registers unregisters : Z → bool).
Context (reserve : Z → Z → Z → Z → Z) (libc_munmap : Z → Z → Z).
Context (ctx : app_ctx_t).

(** ** ipc.c: a request and its response

    The buffer has [MAX_SIZE] bytes; a longer response is cut off and its
    header then disagrees with what has been read. *)
Definition request_roundtrip (msg : message) : M app msg_response :=
  zoom ap_srv (
    resps ← process_msg alloc_mode map_nspid_to_pid (ipc_fd ctx) msg;
    match resps with
    | resp :: _ => assert_ "app/ipc.c:67" (msg_size resp <=? MAX_SIZE);; mret resp
    | [] => fail (AssertFail "app/ipc.c:60")
    end).

Definition ipc_alloc_space (addr length : Z) (map_fixed : bool) : M app msg_response :=
  request_roundtrip (AllocSpace (AllocRequest (host_pid ctx) addr length map_fixed)).

Definition ipc_free_space (addr length : Z) : M app status_code :=
  resp ← request_roundtrip (FreeSpace (host_pid ctx) addr length);
  mret (h_status resp.1).

Definition is_success (st : status_code) : bool :=
  match st with SUCCESS => true | _ => false end.

(** ** The address space *)

(** [libc_mmap] with [MAP_FIXED] of one page at [va] onto the frame. *)
Definition map_page (va : Z) (in_dram : bool) (offset : Z) : M app unit :=
  modify (λ a, a <| ap_srv ::= λ sv, sv <| sv_ucm ::= λ s, s <| u_app ::=
                      insert (host_pid ctx, va) (tier_of in_dram, offset) |> |> |>
                 <| protections ::= insert va (Z.lor PROT_READ PROT_WRITE) |>
                 <| registered ::= λ e, e ∖ {[ va ]} |>).

(** uffd.c *)
Definition uffd_register_page (va : Z) : M app bool :=
  if registers va then modify (λ a, a <| registered ::= union {[ va ]} |>);; mret true
  else mret false.

Definition uffd_unregister_page (va : Z) : M app bool :=
  if unregisters va then modify (λ a, a <| registered ::= λ e, e ∖ {[ va ]} |>);; mret true
  else mret false.

(** ** mmap.c *)

(** The loop over the pages of a response. *)
Fixpoint populate_pages (pages : list hemem_page_app) (page_boundary : Z) : M app Z :=
  match pages with
  | [] => mret page_boundary
  | page :: pages' =>
      let pagesize := pt_to_pagesize (pa_pt page) in
      assert_ "mmap.c:77" (negb (map_fails page_boundary));;
      map_page page_boundary (pa_in_dram page) (pa_devdax_offset page);;
      _ ← uffd_register_page page_boundary;
      assert_ "mmap.c:96" (negb (page_boundary =? 0));;
      assert_ "mmap.c:97" (page_boundary mod pagesize =? 0);;
      populate_pages pages' (u64 (page_boundary + pagesize))
  end.

Definition populate_body (end_ : Z) (st : Z * Z) : M app ((Z * Z) + unit) :=
  let '(page_boundary, remaining_length) := st in
  if page_boundary <? end_ then
    let req_mem_size := if MAX_MEM_LEN_PER_REQ <? remaining_length
                        then MAX_MEM_LEN_PER_REQ else remaining_length in
    response ← ipc_alloc_space page_boundary req_mem_size false;
    assert_ "mmap.c:53" (is_success (h_status response.1));;
    page_boundary ← populate_pages response.2 page_boundary;
    mret (inl (page_boundary, u64 (remaining_length - req_mem_size)))
  else mret (inr tt).

Definition hemem_mmap_populate (addr length : Z) : M app unit :=
  assert_ "mmap.c:29" (negb (addr =? 0));;
  assert_ "mmap.c:30" (negb (length =? 0));;
  loop (S (Z.to_nat (length / HUGEPAGE_SIZE + 1))) (populate_body (u64 (addr + length))) (addr, length).

Definition fixed_page (page : hemem_page_app) : M app unit :=
  assert_ "exit mmap.c:146" (negb (map_fails (pa_va page)));;
  map_page (pa_va page) (pa_in_dram page) (pa_devdax_offset page);;
  ok ← uffd_register_page (PAGE_ROUND_DOWN (pa_va page));
  assert_ "mmap.c:153" ok.

Definition hemem_mmap_fixed (addr length : Z) : M app unit :=
  assert_ "mmap.c:107" (negb (addr =? 0));;
  assert_ "mmap.c:108" (negb (length =? 0));;
  let page_boundary := PAGE_ROUND_DOWN addr in
  response ← ipc_alloc_space page_boundary length true;
  assert_ "mmap.c:117" (is_success (h_status response.1));;
  assert_ "mmap.c:121" (negb (Z.of_nat (List.length response.2) =? 0));;
  for_list response.2 fixed_page.

(** The huge pages that [length] bytes from [p] touch. *)
Definition page_range (p length : Z) : list Z :=
  (λ i, p + i * HUGEPAGE_SIZE) <$> seqZ 0 ((length + HUGEPAGE_SIZE - 1) / HUGEPAGE_SIZE).

(** The mapping that only reserves addresses: the frames from the first of the
    fast tier on. *)
Definition reserve_pages (p length prot : Z) : M app unit :=
  for_list (page_range p length) (λ va,
    modify (λ a, a <| ap_srv ::= λ sv, sv <| sv_ucm ::= λ s, s <| u_app ::=
                        insert (host_pid ctx, va) (FASTMEM, va - p) |> |> |>
                   <| protections ::= insert va prot |>
                   <| registered ::= λ e, e ∖ {[ va ]} |>)).

(** [memset] through the mapping. *)
Definition app_memset (p v length : Z) : M app unit :=
  for_list (page_range p length) (λ va,
    o ← gets (λ a, u_app (sv_ucm (ap_srv a)) !! (host_pid ctx, va));
    '(t, off) ← nonnull o;
    zoom ap_srv (zoom sv_ucm (hemem_memset t off v (Z.min HUGEPAGE_SIZE (length - (va - p)))))).

(** [mprotect] refuses a protection with a bit it does not know. *)
Definition valid_prot (prot : Z) : bool :=
  Z.land prot (Z.lor PROT_READ (Z.lor PROT_WRITE (Z.lor PROT_EXEC PROT_SEM))) =? prot.

Definition mprotect (p length prot : Z) : M app unit :=
  when (valid_prot prot) $
  for_list (page_range p length) (λ va, modify (λ a, a <| protections ::= insert va prot |>)).

(** The flags of the mapping, from those the application gave. *)
Definition to_shared (flags : Z) : Z :=
  if has flags MAP_PRIVATE then set_bit (clear_bit flags MAP_PRIVATE) MAP_SHARED else flags.
Definition drop_anon (flags : Z) : Z :=
  if has flags MAP_ANONYMOUS then clear_bit flags MAP_ANONYMOUS else flags.
Definition drop_huge (flags : Z) : Z :=
  if has flags MAP_HUGETLB then clear_bit flags MAP_HUGETLB else flags.

Definition hemem_mmap_impl (addr length prot flags fd offset : Z) : M app Z :=
  modify (λ a, a <| internal_call := true |>);;
  assert_ "mmap.c:167" (fd =? -1);;
  assert_ "mmap.c:174" (negb (length =? 0));;
  if negb (fd =? -1) then mret MAP_FAILED
  else if negb (offset =? 0) then mret MAP_FAILED
  else
    let did_unset_map_anon := has (to_shared flags) MAP_ANONYMOUS in
    let flags := drop_huge (drop_anon (to_shared flags)) in
    let did_add_prot_write := did_unset_map_anon && negb (has prot PROT_WRITE) in
    let prot := if did_add_prot_write then set_bit prot PROT_WRITE else prot in
    if negb (addr =? 0) && has flags MAP_FIXED then
      hemem_mmap_fixed addr length;;
      modify (λ a, a <| internal_call := false |>);;
      mret addr
    else
      let flags := if negb (addr =? 0) then set_bit flags MAP_FIXED else flags in
      let length_orig := length in
      let length := PAGE_ROUND_UP length in
      when (length_orig <? length)
        (modify (λ a, a <| mem_amplification ::= λ n, u64 (n + (length - length_orig)) |>));;
      let p := reserve addr length prot flags in
      if p =? MAP_FAILED then mret MAP_FAILED
      else
        reserve_pages p length prot;;
        when (negb (addr =? 0)) (assert_ "mmap.c:250" (p =? addr));;
        hemem_mmap_populate p length;;
        when did_unset_map_anon (app_memset p 0 length);;
        when did_add_prot_write (mprotect p length (clear_bit flags PROT_WRITE));;
        modify (λ a, a <| internal_call := false |>);;
        mret p.

Definition free_body (end_ : Z) (st : Z * Z) : M app ((Z * Z) + unit) :=
  let '(page_boundary, remaining_length) := st in
  if page_boundary <? end_ then
    let req_mem_size := if MAX_MEM_LEN_PER_REQ <? remaining_length
                        then MAX_MEM_LEN_PER_REQ else remaining_length in
    _ ← ipc_free_space page_boundary req_mem_size;
    mret (inl (u64 (page_boundary + req_mem_size), u64 (remaining_length - req_mem_size)))
  else mret (inr tt).

Definition unregister_body (end_ : Z) (page_boundary : Z) : M app (Z + unit) :=
  if page_boundary <? end_ then
    ok ← uffd_unregister_page page_boundary;
    assert_ "mmap.c:306" ok;;
    mret (inl (u64 (page_boundary + HUGEPAGE_SIZE)))
  else mret (inr tt).

(** [libc_munmap] of the pages of the range. *)
Definition unmap_pages (p length : Z) : M app unit :=
  for_list (page_range p length) (λ va,
    modify (λ a, a <| ap_srv ::= λ sv, sv <| sv_ucm ::= λ s, s <| u_app ::=
                        delete (host_pid ctx, va) |> |> |>
                   <| protections ::= delete va |>
                   <| registered ::= λ e, e ∖ {[ va ]} |>)).

Definition hemem_munmap_impl (addr length : Z) : M app Z :=
  modify (λ a, a <| internal_call := true |>);;
  let fuel := S (S (Z.to_nat (length / HUGEPAGE_SIZE + 1))) in
  loop fuel (free_body (u64 (addr + length))) (addr, length);;
  loop fuel (unregister_body (u64 (addr + length))) addr;;
  let ret := libc_munmap addr (PAGE_ROUND_UP length) in
  when (ret =? 0) (unmap_pages addr (PAGE_ROUND_UP length));;
  assert_ "mmap.c:319" (ret =? 0);;
  modify (λ a, a <| internal_call := false |>);;
  mret ret.

(** ** interpose.c: [inl result] when the call has been handled, [inr tt] when
    it goes to the kernel. *)
Definition is_our_mem_fd (fd : Z) : bool := (fd =? fastmem_fd ctx) || (fd =? slowmem_fd ctx).

Definition mmap_filter_internal (addr length prot flags fd offset : Z) : M app (Z + unit) :=
  internal ← gets internal_call;
  if negb (is_init ctx) then mret (inr tt)
  else if internal : bool then mret (inr tt)
  else if is_our_mem_fd fd then fail (AssertFail "exit interpose.c:55")
  else if negb (has flags MAP_ANONYMOUS) then mret (inr tt)
  else if has prot PROT_EXEC then mret (inr tt)
  else if has flags MAP_STACK then mret (inr tt)
  else if length <? MMAP_INTERPOSE_SZ_THRESH then mret (inr tt)
  else
    result ← hemem_mmap_impl addr length prot flags fd offset;
    assert_ "interpose.c:96" (negb (result =? MAP_FAILED));;
    mret (inl result).

Definition munmap_filter (addr length : Z) : M app (Z + unit) :=
  internal ← gets internal_call;
  if internal : bool then mret (inr tt)
  else if length <? MMAP_INTERPOSE_SZ_THRESH then mret (inr tt)
  else
    ret ← hemem_munmap_impl addr length;
    assert_ "interpose.c:133" (0 <=? ret);;
    mret (inl ret).

Definition SYS_mmap : Z := 9.
Definition SYS_munmap : Z := 11.

Definition hook (syscall_number arg0 arg1 arg2 arg3 arg4 arg5 : Z) : M app (Z + unit) :=
  if syscall_number =? SYS_mmap then mmap_filter_internal arg0 arg1 arg2 arg3 arg4 arg5
  else if syscall_number =? SYS_munmap then munmap_filter arg0 arg1
  else mret (inr tt).

(** ** remap.c *)
Record remap_request := RemapRequest {
  rq_operation : operation;
  rq_pages : list hemem_page_app;
}.
Record remap_response := RemapResponse {
  rr_header : msg_header;
  rr_va : Z;
}.

Definition remap_page (page : hemem_page_app) : M app unit :=
  assert_ "remap.c:56" (negb (map_fails (pa_va page)));;
  map_page (pa_va page) (pa_in_dram page) (pa_devdax_offset page);;
  ok ← uffd_register_page (pa_va page);
  assert_ "remap.c:61" ok;;
  assert_ "remap.c:63" (negb (pa_va page =? 0));;
  assert_ "remap.c:64" (pa_va page mod pt_to_pagesize (pa_pt page) =? 0).

Definition handle_remap_request (request : remap_request) : M app remap_response :=
  for_list (rq_pages request) remap_page;;
  match rq_pages request with
  | page :: _ => mret (RemapResponse (MsgHeader SUCCESS (host_pid ctx) REMAP_PAGES) (pa_va page))
  | [] => fail (Undefined "first page of an empty request")
  end.

(** [handle_remap_bufread] on a buffer that holds the requests [buf]: [todo]
    are those from the current offset on.  The header is read there, the
    request at the start of the buffer. *)
Fixpoint handle_remap_bufread (buf todo : list remap_request) : M app (list remap_response) :=
  match todo with
  | [] => mret []
  | header :: todo' =>
      match rq_operation header, buf with
      | REMAP_PAGES, request :: _ =>
          response ← handle_remap_request request;
          responses ← handle_remap_bufread buf todo';
          mret (response :: responses)
      | _, _ => fail (AssertFail "remap.c:108")
      end
  end.
End app.
