(* ===== verification/AppOk.v ===== *)
(** * The library and the manager together

    [hemem_mmap_impl] run against the manager: the range it returns is backed
    by pages of the manager, the application maps each of them to the frame
    that the page tables say, the memory reads as zero, and nothing else has
    changed.  [hemem_munmap_impl] gives all of it back.  A remap request has on
    the application the effect that the manager counts on. *)

From S2P Require Import Prelude Fifo Ring F64 ProcList Types Hotness Mm MmAsync Ucm Process Telem Migrate Inv UcmWp AsyncOk TableOk AllocOk RequestOk ProcessOk TelemOk MigrateOk MigrateRun EpochOk EvolveOk Ipc IpcOk App.

(** A computation in the middle of a sequence. *)
Lemma wp_then {S X Y Z} (m : M S X) (c : X → M S unit) (f : X → M S Y) (k : Y → M S Z) P Q s :
  wp (x ← m; c x;; f x) P s → (∀ y s', P y s' → wp (k y) Q s') →
  wp (x ← m; c x;; y ← f x; k y) Q s.
Proof.
  unfold wp, mbind, M_bind. intros H Hk. destruct (m s) as [x s1|]; [|done].
  destruct (c x s1) as [[] s2|]; [|done]. destruct (f x s2) as [y s3|]; [|done]. by apply (Hk y).
Qed.

(** ** The address spaces are not part of the manager's invariant *)
Lemma sound_app L K s A R m : sound L K s A R → sound L K (s <| u_app := m |>) A R.
Proof. intros [HI HM [Hi Ht Hl]]. split; [by eapply inv_frame|by eapply mgr_view|]. by split. Qed.

Lemma server_ok_app sv m : server_ok sv → server_ok (sv <| sv_ucm ::= λ s, s <| u_app := m |> |>).
Proof. intros (L&A&R&[Hso Hl]). exists L, A, R. split; [by apply sound_app|done]. Qed.

Lemma evolves_app s s' l n m :
  evolves s s' l n → evolves (s <| u_app := m |>) (s' <| u_app := m |>) l n.
Proof. intros [K E _]. by split. Qed.

Lemma same_app s : s <| u_app := u_app s |> = s.
Proof. by destruct s. Qed.

(** The step of the manager that takes [s] to [s'], with the mappings the
    applications had. *)
Definition grows (s s' : ucm) (q : ptr) (vas : list Z) : Prop :=
  evolves s (s' <| u_app := u_app s |>) nothing (new_at q vas).

Lemma boundaries_app base k m :
  boundaries base (k + m) = boundaries base k ++ boundaries (base + Z.of_nat k * HUGEPAGE_SIZE) m.
Proof.
  induction m as [|m IH]; [by rewrite Nat.add_0_r, app_nil_r|].
  rewrite Nat.add_succ_r, !boundaries_S, IH, <- app_assoc. do 3 f_equal. unfold HUGEPAGE_SIZE. lia.
Qed.

Lemma page_count_exact m : page_count (Z.of_nat m * HUGEPAGE_SIZE) = Z.of_nat m.
Proof. unfold page_count, HUGEPAGE_SIZE. Z.div_mod_to_equations. lia. Qed.

Lemma page_range_boundaries p n : page_range p (Z.of_nat n * HUGEPAGE_SIZE) = boundaries p n.
Proof.
  unfold page_range, boundaries, seqZ.
  replace (Z.to_nat ((Z.of_nat n * HUGEPAGE_SIZE + HUGEPAGE_SIZE - 1) / HUGEPAGE_SIZE)) with n.
  - rewrite <- list_fmap_compose. apply list_fmap_ext. intros i x _. unfold compose. f_equal. lia.
  - unfold HUGEPAGE_SIZE. Z.div_mod_to_equations. lia.
Qed.

Lemma round_up_pages len :
  0 < len → len + HUGEPAGE_SIZE ≤ 2 ^ 64 →
  PAGE_ROUND_UP len = Z.of_nat (Z.to_nat (page_count len)) * HUGEPAGE_SIZE.
Proof.
  intros Hpos Hle. unfold PAGE_ROUND_UP. rewrite (u64_small (len + _ - 1)) by (unfold HUGEPAGE_SIZE in *; lia).
  rewrite round_down_spec by (unfold HUGEPAGE_SIZE in *; lia).
  unfold page_count, HUGEPAGE_SIZE in *. Z.div_mod_to_equations. lia.
Qed.

Lemma wp_mprotect a p n prot :
  wp (mprotect p (Z.of_nat n * HUGEPAGE_SIZE) prot) (λ _ a', ap_srv a' = ap_srv a ∧ (internal_call a', mem_amplification a') = (internal_call a, mem_amplification a) ∧
    (valid_prot prot = true → ∀ va, va ∈ boundaries p n → protections a' !! va = Some prot)) a.
Proof.
  unfold mprotect. destruct (valid_prot prot); cbn [when]; [|by wp_step].
  rewrite page_range_boundaries.
  eapply (wp_for_list _ (λ vas a', ap_srv a' = ap_srv a ∧ (internal_call a', mem_amplification a') = (internal_call a, mem_amplification a) ∧
    ∀ va, va ∈ boundaries p n → va ∈ vas ∨ protections a' !! va = Some prot)).
  - split_and!; [done..|]. by left.
  - intros va vas a' (H1&H2&H3). wp_step. split_and!; [done..|]. intros va' Hva'. rec_simpl.
    rewrite lookup_insert. case_decide as Heq; [by right|].
    destruct (H3 va' Hva') as [[->|?]%elem_of_cons|?]; [done|by left|by right].
  - intros a' (H1&H2&H3). split_and!; [done..|]. intros _ va Hva.
    by destruct (H3 va Hva) as [?%not_elem_of_nil|?].
Qed.

Lemma page_count_add D m :
  0 ≤ D → D mod HUGEPAGE_SIZE = 0 → 0 ≤ m → page_count (D + m) = page_count D + page_count m.
Proof. intros ? ? ?. unfold page_count, HUGEPAGE_SIZE in *. Z.div_mod_to_equations. lia. Qed.

Lemma page_count_mul D : 0 ≤ D → D mod HUGEPAGE_SIZE = 0 → page_count D * HUGEPAGE_SIZE = D.
Proof. intros ? ?. unfold page_count, HUGEPAGE_SIZE in *. Z.div_mod_to_equations. lia. Qed.

Lemma page_count_decreases len D D' :
  D < D' ≤ len → D mod HUGEPAGE_SIZE = 0 → D' mod HUGEPAGE_SIZE = 0 ∨ D' = len →
  (Z.to_nat (page_count (len - D')) < Z.to_nat (page_count (len - D)))%nat.
Proof. intros ? ? ?. unfold page_count, HUGEPAGE_SIZE in *. Z.div_mod_to_equations. lia. Qed.

Lemma page_count_step x :
  0 < x → (Z.to_nat (page_count (x - HUGEPAGE_SIZE)) < Z.to_nat (page_count x))%nat.
Proof. intros ?. unfold page_count, HUGEPAGE_SIZE in *. Z.div_mod_to_equations. lia. Qed.

Lemma page_count_bound x : 0 ≤ x → 0 ≤ page_count x ≤ x / HUGEPAGE_SIZE + 1.
Proof. intros ?. unfold page_count, HUGEPAGE_SIZE in *. Z.div_mod_to_equations. lia. Qed.

Lemma page_count_nonneg D : 0 ≤ D → 0 ≤ page_count D.
Proof. intros. unfold page_count, HUGEPAGE_SIZE. Z.div_mod_to_equations. lia. Qed.

Section app.
Context (alloc_mode : ALLOC_MODE) (map_nspid_to_pid : Z → Z → Z).
Context (map_fails : Z → bool) (registers : Z → bool).
Context (Hmap : ∀ va, map_fails va = false).
Context (ctx : app_ctx_t).
Notation pid := (host_pid ctx).

(** ** Mapping the pages of a response *)
Fixpoint map_all (pages : list hemem_page_app) (pb : Z)
    (m : gmap (Z * Z) (pbuftype * Z)) : gmap (Z * Z) (pbuftype * Z) :=
  match pages with
  | [] => m
  | a :: pages' => map_all pages' (pb + HUGEPAGE_SIZE)
      (<[(pid, pb) := (tier_of (pa_in_dram a), pa_devdax_offset a)]> m)
  end.

Lemma map_all_other pages : ∀ pb m k,
  (∀ i, 0 ≤ i < Z.of_nat (length pages) → k ≠ (pid, pb + i * HUGEPAGE_SIZE)) →
  map_all pages pb m !! k = m !! k.
Proof.
  induction pages as [|a pages IH]; intros pb m k Hk; [done|]. cbn [map_all length] in *.
  rewrite IH.
  - rewrite lookup_insert_ne; [done|]. specialize (Hk 0). rewrite Z.mul_0_l, Z.add_0_r in Hk.
    intros <-. apply Hk; [lia|done].
  - intros i Hi ->. apply (Hk (i + 1)); [lia|]. f_equal. unfold HUGEPAGE_SIZE. lia.
Qed.

Lemma map_all_at pages : ∀ pb m i a,
  pages !! i = Some a →
  map_all pages pb m !! (pid, pb + Z.of_nat i * HUGEPAGE_SIZE) =
    Some (tier_of (pa_in_dram a), pa_devdax_offset a).
Proof.
  induction pages as [|b pages IH]; intros pb m i a Hi; [done|]. cbn [map_all].
  destruct i as [|i]; cbn in Hi.
  - injection Hi as ->. rewrite Z.mul_0_l, Z.add_0_r, map_all_other; [apply lookup_insert_eq|].
    intros i Hi [= Heq]. unfold HUGEPAGE_SIZE in *. lia.
  - rewrite <- (IH (pb + HUGEPAGE_SIZE) (<[(pid, pb) := (tier_of (pa_in_dram b), pa_devdax_offset b)]> m) i a Hi).
    do 2 f_equal. unfold HUGEPAGE_SIZE. lia.
Qed.

(** The application's own state, apart from its mappings. *)
Definition own (a : app) := (internal_call a, mem_amplification a).

Lemma wp_populate_pages pages : ∀ a pb,
  Forall (λ p, pa_pt p = HUGEP) pages → 0 < pb → pb mod HUGEPAGE_SIZE = 0 →
  pb + Z.of_nat (length pages) * HUGEPAGE_SIZE < 2 ^ 64 →
  wp (populate_pages map_fails registers ctx pages pb) (λ pb' a',
    pb' = pb + Z.of_nat (length pages) * HUGEPAGE_SIZE ∧
    ap_srv a' = (ap_srv a) <| sv_ucm ::= λ s, s <| u_app := map_all pages pb (u_app s) |> |> ∧
    own a' = own a) a.
Proof using Hmap.
  induction pages as [|p pages IH]; intros a pb Hpt Hpos Hal Hend; cbn [populate_pages].
  { wp_step. cbn [length map_all]. split_and!; [lia| |done]. by destruct a as [[[]]]. }
  apply Forall_cons in Hpt as [Hp Hpt]. rewrite Hp. cbn [pt_to_pagesize].
  cbn [length] in Hend. assert (0 < HUGEPAGE_SIZE) as HP by done.
  do 2 wp_step; [by rewrite Hmap|]. wp_step. unfold map_page. wp_step. wp_step.
  match goal with |- wp _ _ ?st => set (a1 := st) end.
  assert (ap_srv a1 = (ap_srv a) <| sv_ucm ::= λ s, s <| u_app :=
    <[(pid, pb) := (tier_of (pa_in_dram p), pa_devdax_offset p)]> (u_app s) |> |> ∧ own a1 = own a)
    as [Hs1 Ho1] by done. clearbody a1.
  eapply (wp_mono _ (λ _ a2, ap_srv a2 = ap_srv a1 ∧ own a2 = own a1)).
  { unfold uffd_register_page. destruct (registers pb); [do 3 wp_step|wp_step]; done. }
  intros _ a2 [Hs2 Ho2].
  do 2 wp_step; [apply negb_true_iff, Z.eqb_neq; lia|]. do 2 wp_step; [by apply Z.eqb_eq|].
  rewrite u64_small by (unfold HUGEPAGE_SIZE in *; lia).
  eapply wp_mono; [apply IH; [done|lia| |unfold HUGEPAGE_SIZE in *; lia]|].
  { rewrite <- (Z.mul_1_l HUGEPAGE_SIZE) at 1. by rewrite Z.mod_add. }
  intros pb' a3 (->&Hs3&Ho3). cbn [length map_all]. split_and!; [unfold HUGEPAGE_SIZE; lia| |congruence].
  rewrite Hs3, Hs2, Hs1. by destruct (ap_srv a) as [[]].
Qed.

(** ** [hemem_mmap_populate] *)
Section populate.
Context (s0 : ucm) (q : ptr) (addr : Z) (n : nat).
Context (Hq : u_proc_map s0 !! pid = Some q).
Context (Hnew : ∀ r va, u_procs s0 !! q = Some r → va ∈ boundaries addr n → mm_pages (pr_mm r) !! va = None).
Context (Hpos : 0 < addr) (Hal : addr mod HUGEPAGE_SIZE = 0).
Context (Hend : addr + Z.of_nat n * HUGEPAGE_SIZE + HUGEPAGE_SIZE ≤ 2 ^ 64).

(** The first [k] pages are there. *)
Record populated (k : nat) (sv : srv) : Prop := Populated {
  pl_ok : server_ok sv;
  pl_coherent : coherent (sv_ucm sv);
  pl_grows : grows s0 (sv_ucm sv) q (boundaries addr k);
  pl_map : u_proc_map (sv_ucm sv) = u_proc_map s0;
  pl_zero va : va ∈ boundaries addr k → ∃ r x pg, entry (sv_ucm sv) q r va x ∧
    u_pages (sv_ucm sv) !! x = Some pg ∧ ∀ o, 0 ≤ o < HUGEPAGE_SIZE → byte (sv_ucm sv) pg o = 0;
  pl_room : Z.of_nat (n - k) ≤ free_slow (sv_ucm sv);
  pl_le : (k ≤ n)%nat;
}.

Lemma chunk_range k m :
  (k + m ≤ n)%nat →
  good_range (addr + Z.of_nat k * HUGEPAGE_SIZE) (Z.of_nat m * HUGEPAGE_SIZE).
Proof using Hpos Hal Hend.
  intros Hk. unfold good_range. unfold HUGEPAGE_SIZE in *. split_and!; [lia| |lia|lia].
  by rewrite Z.mod_add.
Qed.

Lemma chunk_permitted k m sv :
  populated k sv → (k + m ≤ n)%nat →
  alloc_permitted (sv_ucm sv) (AllocRequest pid (addr + Z.of_nat k * HUGEPAGE_SIZE)
    (Z.of_nat m * HUGEPAGE_SIZE) false).
Proof using Hq Hnew Hpos Hal Hend.
  intros [_ _ Hg Hm _ Hroom _] Hk p r. cbn [al_pid al_addr al_length al_map_fixed]. rewrite Hm, Hq.
  intros [= <-] Hr. split; [by apply chunk_range|]. rewrite page_count_exact. split; [lia|].
  intros i Hi. destruct (mm_pages (pr_mm r) !! _) as [x|] eqn:Hx; [|done]. exfalso.
  set (va := addr + Z.of_nat k * HUGEPAGE_SIZE + i * HUGEPAGE_SIZE) in *.
  assert (va = addr + (Z.of_nat k + i) * HUGEPAGE_SIZE) as Hva by (unfold va, HUGEPAGE_SIZE; lia).
  destruct (ev_entry _ _ _ _ Hg q r va x) as [[_ Hin]|(r0&[Hr0 Hx0]&_)]; [by split| |].
  - apply elem_of_boundaries in Hin as (j&Hj&Hj'). unfold HUGEPAGE_SIZE in *. lia.
  - rewrite (Hnew r0 va Hr0) in Hx0; [done|]. apply elem_of_boundaries. exists (Z.of_nat k + i). lia.
Qed.

(** What the manager's answer gives. *)
Lemma chunk_pages m sv1 pb pages :
  server_ok sv1 → u_proc_map (sv_ucm sv1) !! pid = Some q →
  backed (sv_ucm sv1) q pb (Z.of_nat m * HUGEPAGE_SIZE) true pages →
  length pages = m ∧ Forall (λ p, pa_pt p = HUGEP) pages ∧
  ∀ va, va ∈ boundaries pb m → ∃ r x pg i a,
    entry (sv_ucm sv1) q r va x ∧ pr_pid r = pid ∧ u_pages (sv_ucm sv1) !! x = Some pg ∧
    (∀ o, 0 ≤ o < HUGEPAGE_SIZE → byte (sv_ucm sv1) pg o = 0) ∧
    pages !! i = Some a ∧ va = pb + Z.of_nat i * HUGEPAGE_SIZE ∧ response pg = a.
Proof using n.
  intros (L&A&R&[[HI HM _] _]) Hqm (Hlen&r&Hr&Hpages). rewrite page_count_exact in Hlen.
  split_and!; [lia| |].
  - apply Forall_lookup. intros i a Hi. destruct (Hpages i a Hi) as (x&pg&_&Hpg&_&<-&_).
    apply (I_phys HI Hpg).
  - intros va (i&Hi&->)%elem_of_boundaries.
    destruct (lookup_lt_is_Some_2 pages (Z.to_nat i)) as [a Ha]; [lia|].
    destruct (Hpages _ a Ha) as (x&pg&Hx&Hpg&_&Hresp&Hz). rewrite Z2Nat.id in Hx by lia.
    exists r, x, pg, (Z.to_nat i), a. rewrite Z2Nat.id by lia. split_and!; [by split| |done| |done..].
    + apply (M_map HM) in Hqm as (_&r'&Hr'&Hp'). congruence.
    + intros o Ho. apply (Hz eq_refl). by apply byte_in_frame.
Qed.

Lemma populated_step k m sv sv1 pb pages :
  populated k sv → (k + m ≤ n)%nat → pb = addr + Z.of_nat k * HUGEPAGE_SIZE →
  server_ok sv1 → u_proc_map (sv_ucm sv1) = u_proc_map (sv_ucm sv) →
  free_slow (sv_ucm sv) ≤ free_slow (sv_ucm sv1) + Z.of_nat m →
  backed (sv_ucm sv1) q pb (Z.of_nat m * HUGEPAGE_SIZE) true pages →
  evolves (sv_ucm sv) (sv_ucm sv1) nothing (new_at q (boundaries pb m)) →
  populated (k + m) (sv1 <| sv_ucm ::= λ s, s <| u_app := map_all pages pb (u_app s) |> |>).
Proof using Hq.
  intros Hpl Hk Hpb Hok1 Hm1 Hf1 Hback Hev. pose proof Hpl as [Hok Hc Hg Hm Hz Hroom Hle].
  assert (u_proc_map (sv_ucm sv1) !! pid = Some q) as Hq1 by congruence.
  destruct (chunk_pages m sv1 pb pages Hok1 Hq1 Hback) as (Hlen&_&Hpages).
  pose proof (boundaries_app addr k m) as Happ. rewrite <- Hpb in Happ.
  split.
  - by apply server_ok_app.
  - rec_simpl. intros p r va x pg Hx Hpg. right. rec_simpl. rec_simpl_in Hpg.
    assert (entry (sv_ucm sv1) p r va x) as Hx1 by exact Hx.
    destruct (decide (pr_pid r = pid ∧ va ∈ boundaries pb m)) as [[Hpid Hva]|Hn].
    + destruct (Hpages va Hva) as (r'&x'&pg'&i&b&[Hr' Hx']&Hpid'&Hpg'&_&Hi&->&Hresp).
      destruct Hx1 as [Hr Hxx]. destruct Hok1 as (L&A&R&[[HI _ _] _]).
      assert (p = q) as -> by (eapply (I_pids HI Hr Hr'); congruence).
      rewrite Hr in Hr'. injection Hr' as <-. rewrite Hxx in Hx'. injection Hx' as <-.
      rewrite Hpg in Hpg'. injection Hpg' as <-. subst b. rewrite Hpid. by apply (map_all_at pages pb _ i _ Hi).
    + rewrite map_all_other.
      * destruct (evolves_coherent _ _ _ _ Hc Hev p r va x pg Hx1 Hpg) as [[-> Hva]|Ha]; [|done].
        exfalso. apply Hn. split; [|done]. destruct (Hpages va Hva) as (r'&?&?&?&?&[Hr' _]&Hpid'&_).
        destruct Hx1 as [Hr _]. congruence.
      * intros i Hi [= Hp ->]. apply Hn. split; [done|]. apply elem_of_boundaries. exists i. split; [lia|done].
  - unfold grows. rec_simpl.
    replace ((sv_ucm sv1) <| u_app := map_all pages pb (u_app (sv_ucm sv1)) |> <| u_app := u_app s0 |>)
      with ((sv_ucm sv1) <| u_app := u_app s0 |>) by by destruct (sv_ucm sv1).
    pose proof (evolves_trans _ _ _ _ _ _ _ Hg (evolves_app _ _ _ _ (u_app s0) Hev)) as Ht.
    eapply evolves_weaken; [exact Ht|by intros ? ? [[]|[]]|].
    intros p va [[-> ?]|[-> ?]]; (split; [done|]); rewrite Happ, elem_of_app; auto.
  - rec_simpl. congruence.
  - intros va. rewrite Happ, elem_of_app. rec_simpl. intros [Hva|Hva].
    + destruct (Hz va Hva) as (r&x&pg&Hx&Hpg&Hzero).
      destruct (ev_kept _ _ _ _ Hev q r va x Hx) as [[]|(r'&Hx')].
      destruct (ev_entry _ _ _ _ Hev q r' va x Hx') as [[_ Hn]|(_&_&_&pg1&pg2&Hpg1&Hpg2&_&Hb)].
      * apply elem_of_boundaries in Hva as (i&Hi&Hvai), Hn as (j&Hj&Hvaj). unfold HUGEPAGE_SIZE in *. lia.
      * rewrite Hpg in Hpg1. injection Hpg1 as <-. exists r', x, pg2. split_and!; [done..|].
        intros o Ho. unfold byte in *. rec_simpl. rewrite Hb; auto.
    + destruct (Hpages va Hva) as (r&x&pg&i&b&Hx&_&Hpg&Hzero&_). exists r, x, pg. done.
  - rec_simpl. change (Z.of_nat (n - (k + m)) ≤ free_slow (sv_ucm sv1)). lia.
  - lia.
Qed.

(** A request and the mapping of its pages. *)
Lemma wp_populate_chunk k m a :
  populated k (ap_srv a) → (k + m ≤ n)%nat → (m ≤ 512)%nat →
  wp (response ← ipc_alloc_space alloc_mode map_nspid_to_pid ctx
        (addr + Z.of_nat k * HUGEPAGE_SIZE) (Z.of_nat m * HUGEPAGE_SIZE) false;
      assert_ "mmap.c:53" (is_success (h_status response.1));;
      populate_pages map_fails registers ctx response.2 (addr + Z.of_nat k * HUGEPAGE_SIZE))
    (λ pb a', pb = addr + Z.of_nat (k + m) * HUGEPAGE_SIZE ∧ populated (k + m) (ap_srv a') ∧
      own a' = own a) a.
Proof using Hmap Hq Hnew Hpos Hal Hend.
  intros Hpl Hk Hm. pose proof Hpl as [(L&A&R&Hok) _ _ Hmp _ _ _]. wp_step.
  unfold ipc_alloc_space, request_roundtrip. apply wp_zoom. wp_step.
  eapply wp_mono; [eapply (wp_process_msg alloc_mode map_nspid_to_pid L (ap_srv a) A R Hok)|].
  { by apply (chunk_permitted k m). }
  intros resps sv1 (Hok1&(resp&->&Hans)&Hch). unfold alloc_answer in Hans.
  cbn [al_pid al_addr al_length al_map_fixed negb] in Hans. rewrite Hmp, Hq in Hans.
  destruct Hans as (Hst&Hback&Hm1&Hf1). rewrite page_count_exact in Hf1.
  assert (u_proc_map (sv_ucm sv1) !! pid = Some q) as Hq1 by congruence.
  destruct (chunk_pages m sv1 _ _ Hok1 Hq1 Hback) as (Hlen&Hpt&_).
  do 2 wp_step.
  { apply Z.leb_le. unfold msg_size. rewrite Hst, Hlen. cbn [h_operation]. clear -Hm.
    unfold sizeof_alloc_response, sizeof_msg_header, sizeof_hemem_page_app, MAX_SIZE. lia. }
  wp_step. do 2 wp_step; [by rewrite Hst|].
  destruct (chunk_range k m Hk) as (Hc1&Hc2&_&Hc4).
  eapply wp_mono; [apply wp_populate_pages; [done..|]|].
  { rewrite Hlen. unfold HUGEPAGE_SIZE in *. lia. }
  intros pb a' (->&Hs'&Hown). rewrite Hlen. split_and!; [unfold HUGEPAGE_SIZE; lia| |done].
  rewrite Hs'. rec_simpl. eapply (populated_step k m (ap_srv a) sv1); try done; [congruence|].
  eapply evolves_weaken; [exact Hch|done|]. intros p va (Hp&_&Hva). cbn [al_pid] in Hp. rewrite Hmp, Hq in Hp.
  injection Hp as <-. split; [done|]. unfold alloc_range in Hva.
  cbn [al_addr al_length] in Hva. by rewrite page_count_exact, Nat2Z.id in Hva.
Qed.

Lemma wp_populate_body k a :
  populated k (ap_srv a) →
  wp (populate_body alloc_mode map_nspid_to_pid map_fails registers ctx
        (u64 (addr + Z.of_nat n * HUGEPAGE_SIZE))
        (addr + Z.of_nat k * HUGEPAGE_SIZE, Z.of_nat (n - k) * HUGEPAGE_SIZE))
    (λ res a', own a' = own a ∧ match res with
     | inl (pb, rem) => ∃ k', (k < k')%nat ∧ pb = addr + Z.of_nat k' * HUGEPAGE_SIZE ∧
         rem = Z.of_nat (n - k') * HUGEPAGE_SIZE ∧ populated k' (ap_srv a')
     | inr _ => k = n ∧ populated n (ap_srv a')
     end) a.
Proof using Hmap Hq Hnew Hpos Hal Hend.
  intros Hpl. pose proof (pl_le _ _ Hpl) as Hle. assert (0 < HUGEPAGE_SIZE) as HP by done.
  unfold populate_body. rewrite u64_small by nia. wp_if Hlt.
  2: { wp_step. apply Z.ltb_ge in Hlt. assert (k = n) as -> by nia. done. }
  apply Z.ltb_lt in Hlt. set (m := Nat.min 512 (n - k)).
  assert (k < n)%nat as Hkn by nia.
  assert ((if MAX_MEM_LEN_PER_REQ <? Z.of_nat (n - k) * HUGEPAGE_SIZE then MAX_MEM_LEN_PER_REQ
    else Z.of_nat (n - k) * HUGEPAGE_SIZE) = Z.of_nat m * HUGEPAGE_SIZE) as ->.
  { unfold MAX_MEM_LEN_PER_REQ, m, HUGEPAGE_SIZE. destruct (Z.ltb_spec (512 * (2 * 1024 * 1024)) (Z.of_nat (n - k) * (2 * 1024 * 1024))); lia. }
  eapply wp_then; [apply wp_populate_chunk; [done|unfold m; lia..]|].
  intros pb a' (->&Hpl'&Hown). wp_step. split; [done|]. exists (k + m)%nat.
  split_and!; [unfold m; lia|done| |done]. rewrite u64_small; unfold m, HUGEPAGE_SIZE in *; lia.
Qed.

Lemma wp_hemem_mmap_populate a :
  (0 < n)%nat → populated 0 (ap_srv a) →
  wp (hemem_mmap_populate alloc_mode map_nspid_to_pid map_fails registers ctx addr
        (Z.of_nat n * HUGEPAGE_SIZE)) (λ _ a', populated n (ap_srv a') ∧ own a' = own a) a.
Proof using Hmap Hq Hnew Hpos Hal Hend.
  intros Hn Hpl. assert (0 < HUGEPAGE_SIZE) as HP by done. unfold hemem_mmap_populate.
  do 2 wp_step; [apply negb_true_iff, Z.eqb_neq; lia|].
  do 2 wp_step; [apply negb_true_iff, Z.eqb_neq; nia|].
  eapply (wp_loop (λ st a', own a' = own a ∧ ∃ k, st = (addr + Z.of_nat k * HUGEPAGE_SIZE,
    Z.of_nat (n - k) * HUGEPAGE_SIZE) ∧ populated k (ap_srv a'))
    (λ st _, Z.to_nat (st.2 / HUGEPAGE_SIZE))).
  - split; [done|]. exists O. split; [|done]. f_equal; [lia|]. by rewrite Nat.sub_0_r.
  - cbn [snd]. lia.
  - intros st a' (Hown&k&->&Hpl'). eapply wp_mono; [by apply wp_populate_body|].
    intros [[pb rem]|[]] a2 [Hown2 Hres].
    + destruct Hres as (k'&Hk'&->&->&Hpl2). split; [split; [congruence|eauto]|].
      cbn [snd]. rewrite !Z.div_mul by lia. pose proof (pl_le _ _ Hpl2). lia.
    + destruct Hres as [_ Hpl2]. split; [done|congruence].
Qed.

(** ** The mapping that reserves the addresses *)
Lemma populated_reserve k sv va f :
  populated k sv → va ∈ boundaries addr n → va ∉ boundaries addr k →
  populated k (sv <| sv_ucm ::= λ s, s <| u_app ::= <[(pid, va) := f]> |> |>).
Proof using Hq Hnew.
  intros [Hok Hc Hg Hm Hz Hroom Hle] Hva Hvak. split; rec_simpl; [|..|done|done].
  - by apply server_ok_app.
  - intros p r va' x pg Hx Hpg. right. rec_simpl. rewrite lookup_insert_ne.
    { destruct (Hc p r va' x pg Hx Hpg) as [[]|Ha]. exact Ha. }
    intros [= Hp ->]. assert (entry (sv_ucm sv) p r va' x) as [Hr Hx'] by exact Hx.
    pose proof Hok as (L&A&R&[[HI HM _] _]).
    assert (p = q) as ->.
    { pose proof Hq as Hq1. rewrite <- Hm in Hq1. apply (M_map HM) in Hq1 as (_&r'&Hr'&Hp').
      eapply (I_pids HI Hr Hr'). congruence. }
    destruct (ev_entry _ _ _ _ Hg q r va' x) as [[_ ?]|(r0&[Hr0 Hx0]&_)]; [by split|done|].
    rewrite (Hnew r0 va' Hr0 Hva) in Hx0. done.
  - unfold grows. by destruct (sv_ucm sv).
  - done.
  - exact Hz.
Qed.

Lemma wp_reserve_pages a prot :
  populated 0 (ap_srv a) →
  wp (reserve_pages ctx addr (Z.of_nat n * HUGEPAGE_SIZE) prot)
    (λ _ a', populated 0 (ap_srv a') ∧ own a' = own a) a.
Proof using Hq Hnew.
  intros Hpl. unfold reserve_pages. rewrite page_range_boundaries.
  eapply (wp_for_list _ (λ vas a', (∀ va, va ∈ vas → va ∈ boundaries addr n) ∧
    populated 0 (ap_srv a') ∧ own a' = own a)); [done| |by intros a' (_&?&?)].
  intros va vas a' (Hvas&Hpl'&Hown). wp_step. rec_simpl. split_and!; [|apply populated_reserve|done].
  - intros va' Hva'. apply Hvas. by right.
  - done.
  - apply Hvas. by left.
  - apply not_elem_of_nil.
Qed.

(** ** [memset] of the range *)
Lemma populated_clear sv va t off :
  populated n sv → va ∈ boundaries addr n → u_app (sv_ucm sv) !! (pid, va) = Some (t, off) →
  populated n (sv <| sv_ucm ::= λ s, s <| u_mem ::= mem_set t off HUGEPAGE_SIZE 0 |> |>).
Proof using Hq.
  intros [Hok Hc Hg Hm Hz Hroom Hle] Hva Happ. pose proof Hok as (L&A&R&[[HI HM Hrd] Hl]).
  destruct (Hz va Hva) as (r&x&pg&Hx&Hpg&_).
  assert (t = tier_of (pg_in_dram pg) ∧ off = pg_devdax_offset pg) as [-> ->].
  { destruct (Hc q r va x pg Hx Hpg) as [[]|Ha]. rewrite <- Hm in Hq.
    apply (M_map HM) in Hq as (_&r'&Hr'&Hp'). destruct Hx as [Hr _]. rewrite Hr in Hr'.
    injection Hr' as <-. rewrite Hp', Happ in Ha. by injection Ha. }
  assert (∀ y pgy o, u_pages (sv_ucm sv) !! y = Some pgy → 0 ≤ o < HUGEPAGE_SIZE →
    mem_set (tier_of (pg_in_dram pg)) (pg_devdax_offset pg) HUGEPAGE_SIZE 0 (u_mem (sv_ucm sv))
      (tier_of (pg_in_dram pgy)) (pg_devdax_offset pgy + o) =
    if decide (y = x) then 0 else byte (sv_ucm sv) pgy o) as Hbyte.
  { intros y pgy o Hpgy Ho. case_decide as Hy.
    - subst y. rewrite Hpg in Hpgy. injection Hpgy as <-. apply mem_set_in. lia.
    - apply mem_set_out. intros [Ht Hin].
      eapply (frames_apart (sv_ucm sv) A R None y x pgy pg); [done..|by apply byte_in_frame|].
      by split. }
  split; rec_simpl; [|exact Hc| |done| |exact Hroom|done].
  - exists L, A, R. split; [split|done]; rec_simpl.
    + by eapply inv_frame.
    + by eapply mgr_view.
    + destruct Hrd as [? ? ?]. by split.
  - destruct Hg as [K E Ha]. split; [exact K| |done].
    intros p r' va' x' Hx'. assert (entry (sv_ucm sv) p r' va' x') as Hx2 by exact Hx'.
    destruct (E p r' va' x' Hx') as [Hn|(r0&Hx0&Hpid&pg0&pg'&H0&H'&Hf&Hb)]; [by left|].
    destruct (decide (x' = x)) as [->|Hne].
    + left. destruct Hx2 as [Hr2 Hx2], Hx as [Hr Hx].
      destruct (table_page _ A R None HI p r' Hr2 va' x Hx2) as (d&i&pg1&Hb1&Hpg1&_&<-&_).
      destruct (table_page _ A R None HI q r Hr va x Hx) as (d'&i'&pg2&Hb2&Hpg2&_&<-&_).
      destruct (bins_unique _ _ (I_dll HI) _ _ _ _ _ _ _ Hb1 Hb2) as (_&->&_).
      split; [done|]. rewrite Hpg1 in Hpg2. injection Hpg2 as <-. done.
    + right. exists r0. split_and!; [done..|]. exists pg0, pg'. split_and!; [done..|].
      intros o Ho. unfold byte. rec_simpl. rewrite (Hbyte x' pg' o H' Ho), decide_False by done.
      by apply Hb.
  - intros va' Hva'. destruct (Hz va' Hva') as (r'&x'&pg'&Hx'&Hpg'&Hzero).
    exists r', x', pg'. split_and!; [exact Hx'|done|]. intros o Ho. unfold byte. rec_simpl.
    rewrite (Hbyte x' pg' o Hpg' Ho). case_decide; [done|]. by apply Hzero.
Qed.

Lemma wp_app_memset a :
  populated n (ap_srv a) →
  wp (app_memset ctx addr 0 (Z.of_nat n * HUGEPAGE_SIZE))
    (λ _ a', populated n (ap_srv a') ∧ own a' = own a) a.
Proof using Hq.
  intros Hpl. unfold app_memset. rewrite page_range_boundaries.
  eapply (wp_for_list _ (λ vas a', (∀ va, va ∈ vas → va ∈ boundaries addr n) ∧
    populated n (ap_srv a') ∧ own a' = own a)); [done| |by intros a' (_&?&?)].
  intros va vas a' (Hvas&Hpl'&Hown). assert (va ∈ boundaries addr n) as Hva by (apply Hvas; by left).
  pose proof Hpl' as [(L&A&R&[[HI HM _] _]) Hc _ Hm Hz _ _].
  assert (∃ t off, u_app (sv_ucm (ap_srv a')) !! (pid, va) = Some (t, off)) as (t&off&Happ).
  { destruct (Hz va Hva) as (r&x&pg&Hx&Hpg&_). destruct (Hc q r va x pg Hx Hpg) as [[]|Ha].
    rewrite <- Hm in Hq. apply (M_map HM) in Hq as (_&r'&Hr'&Hp'). destruct Hx as [Hr _].
    rewrite Hr in Hr'. injection Hr' as <-. rewrite Hp' in Ha. eauto. }
  do 2 wp_step. wp_step. rewrite Happ. wp_step; [done|]. cbv beta iota. do 2 wp_step. unfold hemem_memset. wp_step.
  apply elem_of_boundaries in Hva as (i&Hi&Hvai).
  replace (Z.min HUGEPAGE_SIZE _) with HUGEPAGE_SIZE by (unfold HUGEPAGE_SIZE in *; lia).
  split_and!; [intros va' Hva'; apply Hvas; by right| |done]. rec_simpl.
  apply (populated_clear _ va); [done| |done]. apply elem_of_boundaries. eauto.
Qed.
End populate.

(** ** [hemem_mmap_impl] *)
Context (reserve : Z → Z → Z → Z → Z).

(** The protection of the new range, when the application asked for zeroed
    memory that it does not write. *)
Definition final_protection (addr flags : Z) : Z :=
  let flags := drop_huge (drop_anon (to_shared flags)) in
  clear_bit (if negb (addr =? 0) then set_bit flags MAP_FIXED else flags) PROT_WRITE.

Lemma wp_hemem_mmap_impl a q addr len prot flags p :
  server_ok (ap_srv a) → coherent (sv_ucm (ap_srv a)) →
  u_proc_map (sv_ucm (ap_srv a)) !! pid = Some q →
  0 < len → addr = 0 ∨ addr = p ∧ has (drop_huge (drop_anon (to_shared flags))) MAP_FIXED = false →
  (∀ prot flags, reserve addr (PAGE_ROUND_UP len) prot flags = p) →
  0 < p → p mod HUGEPAGE_SIZE = 0 → p + page_count len * HUGEPAGE_SIZE + HUGEPAGE_SIZE ≤ 2 ^ 64 →
  (∀ r va, u_procs (sv_ucm (ap_srv a)) !! q = Some r → va ∈ alloc_range p len →
     mm_pages (pr_mm r) !! va = None) →
  page_count len ≤ free_slow (sv_ucm (ap_srv a)) →
  wp (hemem_mmap_impl alloc_mode map_nspid_to_pid map_fails registers reserve ctx addr len prot flags (-1) 0)
    (λ res a', res = p ∧
      populated (sv_ucm (ap_srv a)) q p (Z.to_nat (page_count len)) (Z.to_nat (page_count len)) (ap_srv a') ∧
      internal_call a' = false ∧
      (has (to_shared flags) MAP_ANONYMOUS = true → has prot PROT_WRITE = false →
       valid_prot (final_protection addr flags) = true →
       ∀ va, va ∈ alloc_range p len → protections a' !! va = Some (final_protection addr flags))) a.
Proof using Hmap.
  intros Hok Hc Hq Hlen Haddr Hres Hp Hpal Hend Hnew Hroom.
  set (s0 := sv_ucm (ap_srv a)) in *. set (n := Z.to_nat (page_count len)) in *.
  assert (0 < HUGEPAGE_SIZE) as HP by done.
  assert (0 < page_count len ∧ len ≤ page_count len * HUGEPAGE_SIZE) as [Hn Hle].
  { unfold page_count, HUGEPAGE_SIZE. Z.div_mod_to_equations. lia. }
  assert (Z.of_nat n = page_count len) as Hnz by (unfold n; lia).
  assert (PAGE_ROUND_UP len = Z.of_nat n * HUGEPAGE_SIZE) as Hru by (apply round_up_pages; lia).
  rewrite Hru in Hres. unfold hemem_mmap_impl. do 2 wp_step. wp_step. wp_step; [done|].
  wp_step. wp_step; [apply negb_true_iff, Z.eqb_neq; lia|]. cbn [Z.eqb negb].
  replace (negb (addr =? 0) && has (drop_huge (drop_anon (to_shared flags))) MAP_FIXED) with false.
  2: { destruct Haddr as [->|[_ ->]]; [done|]. by rewrite andb_false_r. }
  rewrite Hru, Hres. change (negb (1 =? 1)%positive) with false. cbv iota. wp_step.
  eapply (wp_mono _ (λ _ a1, ap_srv a1 = ap_srv a)); [wp_step; [wp_step|]; done|].
  intros _ a1 Ha1. rewrite (proj2 (Z.eqb_neq p MAP_FAILED)) by (unfold MAP_FAILED; lia).
  assert (populated s0 q p n 0 (ap_srv a1)) as Hpl.
  { rewrite Ha1. split; [done|done| |done| |fold s0; lia|lia].
    - unfold grows. fold s0. replace (s0 <| u_app := u_app s0 |>) with s0 by by destruct s0.
      destruct Hok as (L&A&R&[[HI _ _] _]). eapply evolves_weaken; [by eapply evolves_refl|done..].
    - by intros va ?%not_elem_of_nil. }
  wp_step. eapply wp_mono; [by apply wp_reserve_pages|]. intros _ a2 [Hpl2 _].
  wp_step. eapply (wp_mono _ (λ _ a3, a3 = a2)).
  { wp_step; [|done]. apply wp_assert; [|done]. destruct Haddr as [->|[-> _]]; [done|]. apply Z.eqb_refl. }
  intros _ a3 ->. wp_step.
  eapply wp_mono; [apply (wp_hemem_mmap_populate s0 q p n Hq Hnew Hp Hpal); [lia|lia|done]|].
  intros _ a4 [Hpl4 _]. wp_step.
  eapply (wp_mono _ (λ _ a5, populated s0 q p n n (ap_srv a5))).
  { wp_step; [|done]. eapply wp_mono; [by apply (wp_app_memset s0 q p n Hq)|]. by intros _ a5 [? _]. }
  intros _ a5 Hpl5. wp_step.
  eapply (wp_mono _ (λ _ a6, ap_srv a6 = ap_srv a5 ∧
    (has (to_shared flags) MAP_ANONYMOUS = true → has prot PROT_WRITE = false →
     valid_prot (final_protection addr flags) = true →
     ∀ va, va ∈ alloc_range p len → protections a6 !! va = Some (final_protection addr flags)))).
  { wp_step.
    - eapply wp_mono; [apply wp_mprotect|]. intros _ a6 (?&_&?). done.
    - split; [done|]. intros H1 H2. by rewrite H1, H2 in *. }
  intros _ a6 [Ha6 Hprot]. do 3 wp_step. split_and!; [done| |done|done]. rec_simpl. by rewrite Ha6.
Qed.

(** ** [hemem_munmap_impl] *)
Section munmap.
Context (unregisters : Z → bool).
Context (s0 : ucm) (q : ptr) (addr len : Z).
Context (Hq : u_proc_map s0 !! pid = Some q) (Hpos : 0 < addr) (Hal : addr mod HUGEPAGE_SIZE = 0).
Context (Hlen : 0 < len) (Hend : addr + len + 2 * HUGEPAGE_SIZE ≤ 2 ^ 64).

Definition shrinks (s' : ucm) (vas : list Z) : Prop :=
  evolves s0 (s' <| u_app := u_app s0 |>) (new_at q vas) nothing.

(** The first [k] pages have been given back. *)
Record given_back (k : nat) (sv : srv) : Prop := GivenBack {
  gb_ok : server_ok sv;
  gb_coherent : coherent (sv_ucm sv);
  gb_shrinks : shrinks (sv_ucm sv) (boundaries addr k);
  gb_map : u_proc_map (sv_ucm sv) = u_proc_map s0;
  gb_gone r va : u_procs (sv_ucm sv) !! q = Some r → va ∈ boundaries addr k →
    mm_pages (pr_mm r) !! va = None;
}.

Lemma freed_range_aligned pb req :
  pb mod HUGEPAGE_SIZE = 0 → freed_range pb req = alloc_range pb req.
Proof using Type.
  intros Hpb. unfold freed_range, page_base, alloc_range. rewrite Hpb, Z.sub_0_r.
  replace (pb + req - pb) with req by lia. done.
Qed.

Lemma wp_free_chunk D req a :
  given_back (Z.to_nat (page_count D)) (ap_srv a) → 0 ≤ D → D mod HUGEPAGE_SIZE = 0 → 0 < req →
  D + req ≤ len →
  wp (ipc_free_space alloc_mode map_nspid_to_pid ctx (addr + D) req)
    (λ _ a', given_back (Z.to_nat (page_count (D + req))) (ap_srv a') ∧ own a' = own a) a.
Proof using Hq Hpos Hal Hend.
  intros [(L&A&R&Hok) Hc Hs Hm Hg] HD HDal Hreq Hle.
  assert ((addr + D) mod HUGEPAGE_SIZE = 0) as Hpbal.
  { rewrite Z.add_mod, Hal, HDal by done. done. }
  unfold ipc_free_space, request_roundtrip. wp_step. apply wp_zoom. wp_step.
  eapply wp_mono; [eapply (wp_process_msg alloc_mode map_nspid_to_pid L (ap_srv a) A R Hok)|].
  { cbn [permitted]. unfold HUGEPAGE_SIZE in *. lia. }
  intros resps sv1 (Hok1&(resp&->&Hans)&Hch). unfold free_answer in Hans.
  rewrite Hm, Hq in Hans. destruct Hans as (->&Hm1&r&r'&Hr&Hr'&Ht). do 2 wp_step; [done|]. do 2 wp_step. rewrite freed_range_aligned in Ht by done.
  assert (boundaries addr (Z.to_nat (page_count (D + req))) =
    boundaries addr (Z.to_nat (page_count D)) ++ alloc_range (addr + D) req) as Happ.
  { pose proof (page_count_nonneg D HD). pose proof (page_count_nonneg req ltac:(lia)).
    rewrite page_count_add, Z2Nat.inj_add, boundaries_app, Z2Nat.id, page_count_mul by (done || lia). done. }
  split; [|done]. rec_simpl. split; [done|..]; rewrite ?Happ.
  - eapply (evolves_coherent _ _ _ _ Hc). eapply evolves_weaken; [exact Hch|done|by intros ? ? []].
  - unfold shrinks. pose proof (evolves_trans _ _ _ _ _ _ _ Hs (evolves_app _ _ _ _ (u_app s0) Hch)) as Htr.
    eapply evolves_weaken; [exact Htr| |by intros ? ? [[]|[]]].
    intros p va [[-> Hva]|[Hp Hva]]; (split; [|rewrite elem_of_app]); auto.
    + rewrite Hm, Hq in Hp. congruence.
    + rewrite freed_range_aligned in Hva by done. by right.
  - by rewrite Hm1.
  - intros r1 va Hr1 [Hva|Hva]%elem_of_app; rewrite Hr' in Hr1; injection Hr1 as <-; rewrite Ht.
    + case_decide; [done|]. by apply Hg.
    + by rewrite decide_True.
Qed.

Lemma wp_free_body D a :
  given_back (Z.to_nat (page_count D)) (ap_srv a) → 0 ≤ D ≤ len →
  D mod HUGEPAGE_SIZE = 0 ∨ D = len →
  wp (free_body alloc_mode map_nspid_to_pid ctx (u64 (addr + len)) (addr + D, len - D))
    (λ res a', own a' = own a ∧ match res with
     | inl (pb, rem) => ∃ D', D < D' ≤ len ∧ (D' mod HUGEPAGE_SIZE = 0 ∨ D' = len) ∧
         pb = addr + D' ∧ rem = len - D' ∧ given_back (Z.to_nat (page_count D')) (ap_srv a')
     | inr _ => given_back (Z.to_nat (page_count len)) (ap_srv a')
     end) a.
Proof using Hq Hpos Hal Hend Hlen.
  intros Hgb HD Hcase. unfold free_body. rewrite u64_small by (unfold HUGEPAGE_SIZE in *; lia).
  wp_if Hlt; [apply Z.ltb_lt in Hlt|apply Z.ltb_ge in Hlt].
  2: { wp_step. assert (D = len) as -> by lia. done. }
  assert (D mod HUGEPAGE_SIZE = 0) as HDal by (destruct Hcase; [done|lia]).
  set (req := if MAX_MEM_LEN_PER_REQ <? len - D then MAX_MEM_LEN_PER_REQ else len - D).
  assert (0 < req ≤ len - D ∧ ((D + req) mod HUGEPAGE_SIZE = 0 ∨ D + req = len)) as [Hreq Hcase'].
  { unfold req. destruct (Z.ltb_spec MAX_MEM_LEN_PER_REQ (len - D)); split.
    - unfold MAX_MEM_LEN_PER_REQ, HUGEPAGE_SIZE in *; lia.
    - left. rewrite Z.add_mod, HDal by done. done.
    - lia.
    - lia. }
  wp_step. eapply wp_mono; [apply wp_free_chunk; [done|lia..]|]. intros u a' [Hgb' Hown]. wp_step.
  split; [done|]. exists (D + req). split_and!; [lia|lia|done|..|done];
    rewrite u64_small; unfold HUGEPAGE_SIZE in *; lia.
Qed.

Lemma wp_unregister_all a fuel sv :
  (∀ va, unregisters va = true) → ap_srv a = sv → (Z.to_nat (page_count len) < fuel)%nat →
  wp (loop fuel (unregister_body unregisters (u64 (addr + len))) addr)
    (λ _ a', ap_srv a' = sv) a.
Proof using Hend Hpos Hlen.
  intros Hun Hsv Hf. assert (0 < HUGEPAGE_SIZE) as HP by done. rewrite u64_small by lia.
  eapply (wp_loop (λ pb a', ap_srv a' = sv ∧ addr ≤ pb < addr + len + HUGEPAGE_SIZE)
    (λ pb _, Z.to_nat (page_count (addr + len - pb)))).
  - split; [done|lia].
  - replace (addr + len - addr) with len by lia. done.
  - intros pb a' [Hsv' Hpb]. unfold unregister_body. wp_if Hlt; [apply Z.ltb_lt in Hlt|by wp_step].
    wp_step. unfold uffd_unregister_page. rewrite Hun. do 5 wp_step; [done|]. wp_step.
    rewrite u64_small by lia. split; [split; [done|lia]|].
    replace (addr + len - (pb + HUGEPAGE_SIZE)) with (addr + len - pb - HUGEPAGE_SIZE) by lia.
    apply page_count_step. lia.
Qed.

Lemma given_back_unmap k sv va :
  given_back k sv → va ∈ boundaries addr k →
  given_back k (sv <| sv_ucm ::= λ s, s <| u_app ::= delete (pid, va) |> |>).
Proof using Hq.
  intros [Hok Hc Hs Hm Hg] Hva. split; rec_simpl; [by apply server_ok_app|..|done|exact Hg].
  - intros p r va' x pg Hx Hpg. right. rec_simpl. rewrite lookup_delete_ne.
    { destruct (Hc p r va' x pg Hx Hpg) as [[]|Ha]. exact Ha. }
    intros [= Hp ->]. destruct Hx as [Hr Hx]. rec_simpl_in Hr.
    pose proof Hok as (L&A&R&[[HI HM _] _]).
    assert (p = q) as ->.
    { pose proof Hq as Hq1. rewrite <- Hm in Hq1. apply (M_map HM) in Hq1 as (_&r'&Hr'&Hp').
      eapply (I_pids HI Hr Hr'). congruence. }
    rewrite (Hg r va' Hr Hva) in Hx. done.
  - unfold shrinks. by destruct (sv_ucm sv).
Qed.

(** The page at [va] is not mapped, protected or registered any more. *)
Definition unmapped_at (a : app) (va : Z) : Prop :=
  u_app (sv_ucm (ap_srv a)) !! (pid, va) = None ∧ protections a !! va = None ∧ va ∉ registered a.

Lemma wp_unmap_pages k a :
  given_back k (ap_srv a) →
  wp (unmap_pages ctx addr (Z.of_nat k * HUGEPAGE_SIZE)) (λ _ a',
    given_back k (ap_srv a') ∧ ∀ va, va ∈ boundaries addr k → unmapped_at a' va) a.
Proof using Hq.
  intros Hgb. unfold unmap_pages. rewrite page_range_boundaries.
  eapply (wp_for_list _ (λ vas a', (∀ va, va ∈ vas → va ∈ boundaries addr k) ∧
    given_back k (ap_srv a') ∧ ∀ va, va ∈ boundaries addr k → va ∈ vas ∨ unmapped_at a' va)).
  - split_and!; auto.
  - intros va vas a' (Hvas&Hgb'&Hun). wp_step. rec_simpl. split_and!.
    + intros va' ?. apply Hvas. by right.
    + apply given_back_unmap; [done|]. apply Hvas. by left.
    + intros va' Hva'. unfold unmapped_at. rec_simpl. destruct (decide (va' = va)) as [->|Hne].
      { right. rewrite !lookup_delete_eq. split_and!; [done..|].
        apply not_elem_of_difference. right. by apply elem_of_singleton. }
      destruct (Hun va' Hva') as [[?|?]%elem_of_cons|(?&?&?)]; [done|by left|right].
      rewrite !lookup_delete_ne by congruence. split_and!; [done..|]. by intros [? _]%elem_of_difference.
  - intros a' (_&Hgb'&Hun). split; [done|]. intros va Hva. destruct (Hun va Hva) as [Hn|?]; [|done].
    by apply not_elem_of_nil in Hn.
Qed.

Lemma wp_hemem_munmap_impl libc_munmap a :
  (∀ va, unregisters va = true) → libc_munmap addr (PAGE_ROUND_UP len) = 0 →
  server_ok (ap_srv a) → coherent (sv_ucm (ap_srv a)) → sv_ucm (ap_srv a) = s0 →
  wp (hemem_munmap_impl alloc_mode map_nspid_to_pid unregisters libc_munmap ctx addr len)
    (λ ret a', ret = 0 ∧ given_back (Z.to_nat (page_count len)) (ap_srv a') ∧
      (∀ va, va ∈ boundaries addr (Z.to_nat (page_count len)) → unmapped_at a' va) ∧
      internal_call a' = false) a.
Proof using Hq Hpos Hal Hend Hlen.
  intros Hun Hlibc Hok Hc Hs0. assert (0 < HUGEPAGE_SIZE) as HP by done.
  pose proof (page_count_bound len ltac:(lia)) as Hpc.
  unfold hemem_munmap_impl. do 3 wp_step.
  eapply (wp_loop (λ st a', ∃ D, st = (addr + D, len - D) ∧ 0 ≤ D ≤ len ∧
    (D mod HUGEPAGE_SIZE = 0 ∨ D = len) ∧ given_back (Z.to_nat (page_count D)) (ap_srv a'))
    (λ st _, Z.to_nat (page_count st.2))).
  - exists 0. rewrite Z.add_0_r, Z.sub_0_r. split_and!; [done|lia|lia|by left|]. rewrite Hs0 in Hc. split; rec_simpl; rewrite ?Hs0; try done.
    + unfold shrinks. destruct Hok as (L&A&R&[[HI _ _] _]). pose proof (evolves_refl _ _ _ HI) as He.
      rewrite Hs0 in He. rewrite same_app. eapply evolves_weaken; [exact He|by intros ? ? []|done].
    + intros r va _ Hva. by apply not_elem_of_nil in Hva.
  - cbn [snd]. lia.
  - intros st a1 (D&->&HD&Hcase&Hgb). eapply wp_mono; [by apply wp_free_body|].
    intros [[pb rem]|[]] a2 [_ Hres].
    + destruct Hres as (D'&HD'&Hcase'&->&->&Hgb'). split; [exists D'; split_and!; [done|lia|lia|done|done]|].
      cbn [snd]. apply page_count_decreases; [done|destruct Hcase; [done|lia]|done].
    + wp_step. eapply wp_mono; [eapply wp_unregister_all; [done|done|lia]|].
      intros u a3 Hsv. rewrite Hlibc. cbn [Z.eqb when]. wp_step. rewrite round_up_pages by (unfold HUGEPAGE_SIZE in *; lia).
      eapply wp_mono; [apply wp_unmap_pages; by rewrite Hsv|]. intros u' a4 [Hgb' Hat].
      do 2 wp_step; [done|]. do 3 wp_step. by split_and!.
Qed.
End munmap.

(** ** Remapping *)
Lemma wp_remap_page a pa :
  (∀ va, registers va = true) → pa_va pa ≠ 0 → pa_va pa mod pt_to_pagesize (pa_pt pa) = 0 →
  wp (remap_page map_fails registers ctx pa) (λ _ a',
    ap_srv a' = (ap_srv a) <| sv_ucm ::= λ s, s <| u_app ::=
      insert (pid, pa_va pa) (tier_of (pa_in_dram pa), pa_devdax_offset pa) |> |>) a.
Proof using Hmap.
  intros Hreg H0 Hal. unfold remap_page. do 2 wp_step; [by rewrite Hmap|]. unfold map_page. do 2 wp_step.
  wp_step. unfold uffd_register_page. rewrite Hreg. do 3 wp_step. do 2 wp_step; [done|].
  do 2 wp_step; [by apply negb_true_iff, Z.eqb_neq|]. wp_step; [by apply Z.eqb_eq|]. done.
Qed.

(** The manager's side of the exchange, given the answer of the application. *)
Definition as_reply (resp : remap_response) : app_reply :=
  AppReply IPC_SUCCESS (Some (rr_va resp)) (is_success (h_status (rr_header resp))).

Lemma wp_remap_refines a q r pa :
  (∀ va, registers va = true) → pa_va pa ≠ 0 → pa_va pa mod pt_to_pagesize (pa_pt pa) = 0 →
  u_procs (sv_ucm (ap_srv a)) !! q = Some r → pr_pid r = pid →
  wp (handle_remap_request map_fails registers ctx (RemapRequest REMAP_PAGES [pa])) (λ resp a',
    ipc_remap_pages q pa ((sv_ucm (ap_srv a)) <| u_ipc := [as_reply resp] |>) =
      Ok IPC_SUCCESS ((sv_ucm (ap_srv a')) <| u_ipc := [] |>)) a.
Proof using Hmap.
  intros Hreg H0 Hal Hr Hpid. unfold handle_remap_request. cbn [rq_pages]. wp_step.
  cbn [for_list]. wp_step. eapply wp_mono; [by apply wp_remap_page|]. intros u a' Ha'. cbv beta in Ha'.
  do 2 wp_step. unfold ipc_remap_pages, proc, deref, mbind, M_bind. rec_simpl. rewrite Hr.
  unfold gets, modify, assert_. rec_simpl.
  cbn [head default tail as_reply ar_result ar_va ar_success rr_va rr_header h_status is_success from_option id].
  rewrite Z.eqb_refl. unfold mret, M_ret. by rewrite Ha', Hpid.
Qed.

Lemma wp_handle_remap_request a op pa :
  (∀ va, registers va = true) → pa_va pa ≠ 0 → pa_va pa mod pt_to_pagesize (pa_pt pa) = 0 →
  wp (handle_remap_request map_fails registers ctx (RemapRequest op [pa])) (λ resp a',
    rr_va resp = pa_va pa ∧
    u_app (sv_ucm (ap_srv a')) =
      <[(pid, pa_va pa) := (tier_of (pa_in_dram pa), pa_devdax_offset pa)]> (u_app (sv_ucm (ap_srv a)))) a.
Proof using Hmap.
  intros Hreg H0 Hal. unfold handle_remap_request. cbn [rq_pages]. wp_step. cbn [for_list]. wp_step.
  eapply wp_mono; [by apply wp_remap_page|]. intros u a' Ha'. cbv beta in Ha'. do 2 wp_step. by rewrite Ha'.
Qed.

(** A second request in the buffer is answered for the first one. *)
Lemma wp_bufread_first a pa pa' :
  (∀ va, registers va = true) → pa_va pa ≠ 0 → pa_va pa mod pt_to_pagesize (pa_pt pa) = 0 →
  let buf := [RemapRequest REMAP_PAGES [pa]; RemapRequest REMAP_PAGES [pa']] in
  wp (handle_remap_bufread map_fails registers ctx buf buf) (λ resps a',
    rr_va <$> resps = [pa_va pa; pa_va pa] ∧
    u_app (sv_ucm (ap_srv a')) =
      <[(pid, pa_va pa) := (tier_of (pa_in_dram pa), pa_devdax_offset pa)]> (u_app (sv_ucm (ap_srv a)))) a.
Proof using Hmap.
  intros Hreg H0 Hal buf. unfold buf. cbn [handle_remap_bufread rq_operation]. wp_step.
  eapply wp_mono; [by apply wp_handle_remap_request|]. intros r1 a1 [Hr1 Ha1]. do 2 wp_step.
  eapply wp_mono; [by apply wp_handle_remap_request|]. intros r2 a2 [Hr2 Ha2]. do 4 wp_step.
  split; [by rewrite <- Hr1 at 1; rewrite <- Hr2|]. by rewrite Ha2, Ha1, insert_insert_eq.
Qed.
End app.
