(* ===== verification/Machine.v ===== *)
(** * A small machine

    A manager with two frames of fast and four of slow memory, on a kernel
    that grants every request.  [event_permittedb] decides for concrete states
    that an event respects the protocol, so that runs of the machine are
    reachable states by evaluation. *)

From S2P Require Import Prelude Fifo Ring F64 ProcList Types Hotness Mm MmAsync Ucm Process Telem Migrate Qos Inv RequestOk TelemOk MigrateOk EpochOk EvolveOk Ipc IpcOk FaultOk ServerOk.

(** ** Deciding that an event is permitted *)
Definition good_rangeb (addr len : Z) : bool :=
  (0 <? addr) && (addr mod HUGEPAGE_SIZE =? 0) && (0 <=? len) && (addr + len + HUGEPAGE_SIZE <=? 2 ^ 64).

Definition proc_of_pid (s : ucm) (pid : Z) : option hemem_process :=
  p ← u_proc_map s !! pid; u_procs s !! p.

Definition alloc_permittedb (s : ucm) (q : alloc_request) : bool :=
  match proc_of_pid s (al_pid q) with
  | None => true
  | Some r =>
      let mapped i := bool_decide (is_Some (mm_pages (pr_mm r) !! (al_addr q + i * HUGEPAGE_SIZE))) in
      let vas := seqZ 0 (page_count (al_length q)) in
      good_rangeb (al_addr q) (al_length q) &&
      if al_map_fixed q then forallb mapped vas
      else (page_count (al_length q) <=? free_slow s) && forallb (λ i, negb (mapped i)) vas
  end.

Definition freedb (r : hemem_process) : bool := ring_buf_empty (mm_free_page_ring (pr_mm r)).

Definition message_permittedb (map_nspid_to_pid : Z → Z → Z) (sv : srv) (msg : message) : bool :=
  match msg with
  | AllocSpace q => alloc_permittedb (sv_ucm sv) q
  | FreeSpace _ addr len => (0 <=? addr) && (0 <=? len) && (addr + len + HUGEPAGE_SIZE <=? 2 ^ 64)
  | AddProcess q uffd =>
      (0 <=? map_nspid_to_pid (ap_pid_namespace q) (ap_pid q)) &&
      (Z.of_nat (S (size (u_procs (sv_ucm sv)))) <? 2 ^ 64) && (0 <=? uffd) && (uffd <? MAX_UFFD)
  | RemoveProcess pid => match proc_of_pid (sv_ucm sv) pid with Some r => freedb r | None => true end
  | RecordRemapFd _ => true
  | UnknownMessage => false
  end.

Definition notification_permittedb (sv : srv) (fd : Z) (msg : uffd_msg) : bool :=
  match (p ← uffd_to_proc sv !! fd; u_procs (sv_ucm sv) !! p), msg with
  | None, _ => false
  | Some _, UFFD_EVENT_UNMAP start end_ =>
      (0 <=? start) && (start <=? end_) && (end_ + HUGEPAGE_SIZE <=? 2 ^ 64)
  | Some _, (UFFD_EVENT_REMOVE _ _ | UFFD_EVENT_REMAP _ _ _) => true
  | Some r, UFFD_EVENT_PAGEFAULT addr flags =>
      let pb := Z.land addr (u64 (Z.lnot (HUGEPAGE_SIZE - 1))) in
      negb (pb =? 0) && bool_decide (is_Some (mm_pages (pr_mm r) !! pb)) &&
      (negb (Z.land flags UFFD_PAGEFAULT_FLAG_WP =? 0) || (Z.land flags UFFD_PAGEFAULT_FLAG_MINOR =? 0))
  | Some _, UFFD_EVENT_OTHER => false
  end.

(** Rounds with an empty perf buffer, and the answers of applications that
    carry out every remap request. *)
Definition event_permittedb (map_nspid_to_pid : Z → Z → Z) (sv : srv) (ev : event) : bool :=
  match ev with
  | EvMap _ _ _ => true
  | EvWrite _ _ o _ => (0 <=? o) && (o <? HUGEPAGE_SIZE)
  | EvReplies [] => true
  | EvReplies _ => false
  | EvMessage _ msg => message_permittedb map_nspid_to_pid sv msg
  | EvNotification fd msg => notification_permittedb sv fd msg
  | EvRound alive _ [] _ _ _ =>
      forallb (λ '(_, r), alive (pr_pid r) || freedb r) (map_to_list (u_procs (sv_ucm sv)))
  | EvRound _ _ _ _ _ _ => false
  end.

Lemma good_rangeb_sound addr len : good_rangeb addr len = true → good_range addr len.
Proof. unfold good_rangeb, good_range. intros. lia. Qed.

Lemma proc_of_pid_some s pid p r :
  u_proc_map s !! pid = Some p → u_procs s !! p = Some r → proc_of_pid s pid = Some r.
Proof. intros Hp Hr. unfold proc_of_pid. by rewrite Hp. Qed.

Lemma alloc_permittedb_sound s q : alloc_permittedb s q = true → alloc_permitted s q.
Proof.
  unfold alloc_permittedb. intros H p r Hp Hr. rewrite (proc_of_pid_some _ _ _ _ Hp Hr) in H.
  apply andb_true_iff in H as [H1 H2]. split; [by apply good_rangeb_sound|].
  destruct (al_map_fixed q).
  - intros i Hi. rewrite forallb_forall in H2. eapply bool_decide_eq_true, H2.
    apply list_elem_of_In, elem_of_seqZ. lia.
  - apply andb_true_iff in H2 as [H2 H3]. split; [by apply Z.leb_le|]. intros i Hi.
    rewrite forallb_forall in H3. specialize (H3 i). apply eq_None_not_Some. intros Hs.
    rewrite bool_decide_true in H3 by done. discriminate H3. apply list_elem_of_In, elem_of_seqZ. lia.
Qed.

Lemma message_permittedb_sound mn sv msg : message_permittedb mn sv msg = true → permitted mn sv msg.
Proof.
  destruct msg as [q| |q uffd|pid|pid|]; cbn [message_permittedb permitted]; intros H; try done.
  - by apply alloc_permittedb_sound.
  - lia.
  - apply andb_true_iff in H as [[[H1 H2]%andb_true_iff H3]%andb_true_iff H4].
    apply Z.leb_le in H1, H3. apply Z.ltb_lt in H2, H4. done.
  - intros p r Hp Hr. by rewrite (proc_of_pid_some _ _ _ _ Hp Hr) in H.
Qed.

Lemma notification_permittedb_sound sv fd msg :
  notification_permittedb sv fd msg = true → notification_permitted sv fd msg.
Proof.
  unfold notification_permittedb, notification_permitted. intros H.
  destruct (uffd_to_proc sv !! fd) as [p|] eqn:Hp; [|done]. cbn [mbind option_bind] in H.
  destruct (u_procs (sv_ucm sv) !! p) as [r|] eqn:Hr; [|done]. exists p, r. split_and!; [done..|].
  destruct msg; try done; [lia|].
  apply andb_true_iff in H as [[H1 H2]%andb_true_iff H3]. split_and!.
  - by apply negb_true_iff, Z.eqb_neq in H1.
  - by apply bool_decide_eq_true in H2.
  - apply orb_true_iff in H3 as [H3|H3]; [left|right]; [by apply negb_true_iff, Z.eqb_neq in H3|].
    by apply Z.eqb_eq.
Qed.

Lemma event_permittedb_sound mn sv ev : event_permittedb mn sv ev = true → event_permitted mn sv ev.
Proof.
  destruct ev as [|pid va o v|[]|fd msg|fd msg|alive enable [] cnts diffs st]; cbn [event_permittedb event_permitted]; intros H; try done.
  - lia.
  - by apply message_permittedb_sound.
  - by apply notification_permittedb_sound.
  - split; [|by split]. intros p r Hr Ha. rewrite forallb_forall in H.
    specialize (H (p, r)). cbn in H. rewrite Ha in H. apply H.
    apply list_elem_of_In, elem_of_map_to_list. done.
Qed.

(** ** Deciding that the mappings are coherent *)
Definition entries (s : ucm) : list (Z * Z * ptr) :=
  '(_, r) ← map_to_list (u_procs s); '(va, x) ← map_to_list (mm_pages (pr_mm r)); [(pr_pid r, va, x)].

Definition frame_of (s : ucm) (x : ptr) : option (pbuftype * Z) :=
  (λ pg, (tier_of (pg_in_dram pg), pg_devdax_offset pg)) <$> u_pages s !! x.

Definition coherentb (s : ucm) : bool :=
  forallb (λ '(pid, va, x), match frame_of s x with
    | Some f => bool_decide (u_app s !! (pid, va) = Some f) | None => true end) (entries s).

Lemma elem_of_entries s q r va x : entry s q r va x → (pr_pid r, va, x) ∈ entries s.
Proof.
  intros [Hr Hx]. unfold entries. apply list_elem_of_bind. exists (q, r).
  split; [|by apply elem_of_map_to_list]. apply list_elem_of_bind. exists (va, x).
  split; [by left|by apply elem_of_map_to_list].
Qed.

Lemma coherentb_sound s : coherentb s = true → coherent s.
Proof.
  unfold coherentb. rewrite forallb_forall. intros H q r va x pg Hx Hpg. right.
  specialize (H (pr_pid r, va, x)). cbn in H. unfold frame_of in H. rewrite Hpg in H. cbn in H.
  eapply bool_decide_eq_true, H, list_elem_of_In. by eapply elem_of_entries.
Qed.

(** The applications map the pages they have. *)
Definition map_events (s : ucm) : list event := (λ '(pid, va, x), EvMap pid va (frame_of s x)) <$> entries s.

(** ** Runs *)
Section runs.
Context (alloc_mode : ALLOC_MODE) (map_nspid_to_pid : Z → Z → Z).
Context (use_shm : bool) (migration_ends : ptr → bool) (wait_time_us : Z).
Context (wake : Z → Z → Z → ioctl_result) (writeprotect : Z → Z → Z → bool → ioctl_result).

Local Notation step := (run_event alloc_mode map_nspid_to_pid use_shm migration_ends wait_time_us wake writeprotect).
Local Notation reach := (reachable alloc_mode map_nspid_to_pid use_shm migration_ends wait_time_us wake writeprotect).

(** The state after the events, if each of them is permitted and returns. *)
Fixpoint run_from (sv : srv) (evs : list event) : option srv :=
  match evs with
  | [] => Some sv
  | ev :: evs' =>
      if event_permittedb map_nspid_to_pid sv ev then
        match step ev sv with Ok _ sv' => run_from sv' evs' | Err _ => None end
      else None
  end.

Definition run_machine (fsz ssz fptr sptr : Z) (evs : list event) : option srv :=
  match boot fsz ssz fptr sptr srv_start with Ok _ sv => run_from sv evs | Err _ => None end.

Lemma run_from_reachable fsz ssz fptr sptr evs : ∀ sv sv',
  reach fsz ssz fptr sptr sv → run_from sv evs = Some sv' → reach fsz ssz fptr sptr sv'.
Proof using Type.
  induction evs as [|ev evs IH]; intros sv sv' Hsv; cbn [run_from]; [by intros [= <-]|].
  destruct (event_permittedb map_nspid_to_pid sv ev) eqn:Hp; [|done].
  destruct (step ev sv) as [[] sv1|] eqn:Hs; [|done]. apply IH. eapply reachable_event; [done| |exact Hs].
  by apply event_permittedb_sound.
Qed.

Lemma run_machine_reachable fsz ssz fptr sptr evs sv :
  run_machine fsz ssz fptr sptr evs = Some sv → reach fsz ssz fptr sptr sv.
Proof using Type.
  unfold run_machine. destruct (boot _ _ _ _ _) as [[] sv0|] eqn:Hb; [|done].
  apply run_from_reachable. by apply reachable_boot.
Qed.

Definition end_of_run (fsz ssz fptr sptr : Z) (evs : list event) : srv :=
  default srv_start (run_machine fsz ssz fptr sptr evs).
Definition runs_through (fsz ssz fptr sptr : Z) (evs : list event) : bool :=
  match run_machine fsz ssz fptr sptr evs with Some _ => true | None => false end.

Lemma end_of_run_reachable fsz ssz fptr sptr evs :
  runs_through fsz ssz fptr sptr evs = true →
  reach fsz ssz fptr sptr (end_of_run fsz ssz fptr sptr evs).
Proof using Type.
  unfold runs_through, end_of_run. intros H. apply (run_machine_reachable _ _ _ _ evs).
  destruct (run_machine fsz ssz fptr sptr evs); [done|discriminate H].
Qed.
End runs.

(** The kernel and the pid namespace of the machine. *)
Definition host_pid_of (ns pid : Z) : Z := pid.
Definition ready_kernel (_ _ _ : Z) : ioctl_result := IOCTL_OK.
Definition ready_protect (_ _ _ : Z) (_ : bool) : ioctl_result := IOCTL_OK.
Definition always {T} (_ : T) : bool := true.

Lemma machine_kernel : kernel_ok always ready_kernel ready_protect.
Proof. by split. Qed.

Definition mb (n : Z) : Z := n * HUGEPAGE_SIZE.

Notation machine := (end_of_run FASTMEM_PREFERRED host_pid_of true always 1000
  ready_kernel ready_protect (mb 2) (mb 4) (mb 1) (mb 64)).
Notation machine_runs := (runs_through FASTMEM_PREFERRED host_pid_of true always 1000
  ready_kernel ready_protect (mb 2) (mb 4) (mb 1) (mb 64)).

Lemma machine_tiers : good_tiers (mb 2) (mb 4) (mb 1) (mb 64).
Proof. unfold good_tiers, mb. repeat split; vm_compute; congruence. Qed.

Lemma machine_reachable evs :
  machine_runs evs = true →
  reachable FASTMEM_PREFERRED host_pid_of true always 1000 ready_kernel ready_protect
    (mb 2) (mb 4) (mb 1) (mb 64) (machine evs).
Proof.
  apply end_of_run_reachable.
Qed.

Lemma machine_ok evs : machine_runs evs = true → server_ok (machine evs).
Proof. intros H. eapply reachable_ok; [apply machine_kernel|apply machine_tiers|by apply machine_reachable]. Qed.

(** Two applications; the first asks for three pages, so that the last one
    is in the slow tier, the second for one. *)
Definition ratio_zero : f64 := S754_zero false.
Definition two_apps : list event := [
  EvMessage 7 (AddProcess (AddProcessRequest ratio_zero 42 0 false) 20);
  EvMessage 8 (AddProcess (AddProcessRequest ratio_zero 43 0 false) 21);
  EvMessage 7 (AllocSpace (AllocRequest 42 (mb 100) (mb 3) false));
  EvMessage 8 (AllocSpace (AllocRequest 43 (mb 100) (mb 1) false))].

Lemma two_apps_run : machine_runs two_apps = true.
Proof. vm_compute. reflexivity. Qed.

(** They map their pages, and the first one writes to its pages in both tiers. *)
Definition mapped_apps : list event :=
  two_apps ++ map_events (sv_ucm (machine two_apps)) ++
  [EvWrite 42 (mb 100) 5 77; EvWrite 42 (mb 102) 6 78].

Lemma mapped_apps_run : machine_runs mapped_apps = true.
Proof. vm_compute. reflexivity. Qed.

Lemma mapped_apps_coherent : coherent (sv_ucm (machine mapped_apps)).
Proof. apply coherentb_sound. vm_compute. reflexivity. Qed.

(** A round in which the counters report many accesses to the third page of
    the first application; the second such round exchanges it for a cold page
    of the fast tier. *)
Definition hot_round : event := EvRound always true [] [0] [500000] qos_policy_state_init.
Definition warm_apps : list event := mapped_apps ++ [hot_round].

Lemma warm_apps_run : machine_runs warm_apps = true.
Proof. vm_compute. reflexivity. Qed.

Lemma warm_apps_coherent : coherent (sv_ucm (machine warm_apps)).
Proof. apply coherentb_sound. vm_compute. reflexivity. Qed.

(** The event, in the machine. *)
Notation machine_step := (run_event FASTMEM_PREFERRED host_pid_of true always 1000 ready_kernel ready_protect).
Definition after (ev : event) (sv : srv) : srv :=
  match machine_step ev sv with Ok _ sv' => sv' | Err _ => sv end.

(** A concrete run that returns. *)
Definition returns {T U} (r : outcome T U) : bool := match r with Ok _ _ => true | Err _ => false end.

Lemma after_ok ev sv : returns (machine_step ev sv) = true → machine_step ev sv = Ok tt (after ev sv).
Proof. unfold after. by destruct (machine_step ev sv) as [[] sv'|e]. Qed.

(** The process with the pid [pid] and its page at [va]. *)
Definition the_proc (s : ucm) (pid : Z) : ptr := default 1%positive (u_proc_map s !! pid).
Definition the_struct (s : ucm) (pid : Z) : option hemem_process := u_procs s !! the_proc s pid.
Definition the_page (s : ucm) (pid va : Z) : option ptr :=
  r ← the_struct s pid; mm_pages (pr_mm r) !! va.

(** The page is mapped by a process with that pid. *)
Definition mappedb (s : ucm) (pid va : Z) : bool :=
  match the_struct s pid, the_page s pid va ≫= frame_of s with
  | Some r, Some _ => pr_pid r =? pid
  | _, _ => false
  end.

Lemma the_entry s pid va :
  mappedb s pid va = true →
  ∃ r x pg, entry s (the_proc s pid) r va x ∧ pr_pid r = pid ∧ u_pages s !! x = Some pg.
Proof.
  unfold mappedb, the_page, frame_of. destruct (the_struct s pid) as [r|] eqn:Hr; [|done]. cbn.
  destruct (mm_pages (pr_mm r) !! va) as [x|] eqn:Hx; [|done]. cbn.
  destruct (u_pages s !! x) as [pg|] eqn:Hpg; [|done]. intros Hp%Z.eqb_eq. exists r, x, pg. by split_and!.
Qed.

(** The page is in the list. *)
Definition mapped_inb (s : ucm) (pid va : Z) (l : list_id) : bool :=
  mappedb s pid va &&
  match the_page s pid va with Some x => bool_decide (x ∈ pages_of (u_plist s) l) | None => false end.

Lemma the_entry_in s pid va l :
  mapped_inb s pid va l = true →
  ∃ r x pg, entry s (the_proc s pid) r va x ∧ u_pages s !! x = Some pg ∧ x ∈ pages_of (u_plist s) l.
Proof.
  intros [Hm Hl]%andb_true_iff. destruct (the_entry s pid va Hm) as (r&x&pg&[Hr Hx]&_&Hpg).
  unfold the_page, the_struct in Hl. rewrite Hr in Hl. cbn [mbind option_bind] in Hl. rewrite Hx in Hl.
  apply bool_decide_eq_true in Hl. exists r, x, pg. by split_and!.
Qed.

(** The process has no frees pending. *)
Definition the_freedb (s : ucm) (pid : Z) : bool :=
  match the_struct s pid with Some r => freedb r | None => false end.

Lemma the_freed s pid :
  the_freedb s pid = true →
  ∃ r, u_procs s !! the_proc s pid = Some r ∧ ring_buf_empty (mm_free_page_ring (pr_mm r)) = true.
Proof.
  unfold the_freedb, the_struct. destruct (u_procs s !! the_proc s pid) as [r|]; [|done]. by exists r.
Qed.
