(* ===== verification/System.v ===== *)
(** * What the manager guarantees

    The properties of every state that [main] and the events after it can lead
    to, for any kernel that grants the requests on a userfaultfd
    ([kernel_ok]), any pid translation and both allocation modes.  Each is
    instantiated on a run of the machine of Machine.v. *)

From S2P Require Import Prelude Fifo Ring F64 ProcList Types Hotness Mm MmAsync Ucm Process Telem Migrate Qos Inv TableOk RequestOk ProcessOk TelemOk MigrateOk MigrateRun EpochOk EvolveOk Ipc IpcOk FaultOk ServerOk Machine.

(** ** Consequences of the invariants *)

(** A byte of memory is mapped at most once. *)
Lemma mapped_once s A R p r va x pg p' r' va' x' pg' t o :
  ucm_inv s A R None →
  entry s p r va x → u_pages s !! x = Some pg → entry s p' r' va' x' → u_pages s !! x' = Some pg' →
  in_frame pg t o → in_frame pg' t o → p = p' ∧ va = va'.
Proof.
  intros HI [Hr Hx] Hpg [Hr' Hx'] Hpg' Hf Hf'.
  destruct (decide (x = x')) as [<-|Hne]; [|by destruct (frames_apart s A R None x x' pg pg' t o)].
  destruct (table_page s A R None HI p r Hr va x Hx) as (d&i&pg1&Hb&Hpg1&_&<-&_).
  destruct (table_page s A R None HI p' r' Hr' va' x Hx') as (d'&i'&pg2&Hb'&Hpg2&_&<-&_).
  destruct (bins_unique _ _ (I_dll HI) _ _ _ _ _ _ _ Hb Hb') as (_&->&_).
  split; [done|congruence].
Qed.

(** The bytes that the lists of a process hold in a tier, by their counts. *)
Definition bin_bytes (s : ucm) (d : bool) (p : ptr) : Z :=
  HUGEPAGE_SIZE * Z.of_nat (sum_list_with (λ i, Z.to_nat (match headers (u_plist s) !! bin d p i with
    | Some q => numentries q | None => 0 end)) (seqZ 0 NUM_HOTNESS_LEVELS)).

Lemma bin_bytes_count s A R d p :
  ucm_inv s A R None → bin_bytes s d p = HUGEPAGE_SIZE * bin_count A d p.
Proof.
  intros HI. unfold bin_bytes, bin_count. do 2 f_equal.
  induction (seqZ 0 NUM_HOTNESS_LEVELS) as [|i js IH]; [done|]. cbn. rewrite IH. f_equal.
  destruct (headers (u_plist s) !! bin d p i) as [q|] eqn:Hq.
  - rewrite (dll_header (I_dll HI) Hq). cbn. by rewrite Nat2Z.id.
  - by rewrite (dll_no_header (I_dll HI) Hq).
Qed.

Section reachable.
Context (alloc_mode : ALLOC_MODE) (map_nspid_to_pid : Z → Z → Z).
Context (use_shm : bool) (migration_ends : ptr → bool) (wait_time_us : Z).
Context (wake : Z → Z → Z → ioctl_result) (writeprotect : Z → Z → Z → bool → ioctl_result).
Context (Hk : kernel_ok migration_ends wake writeprotect).
Context (fsz ssz fptr sptr : Z) (Ht : good_tiers fsz ssz fptr sptr).

Local Notation step := (run_event alloc_mode map_nspid_to_pid use_shm migration_ends wait_time_us wake writeprotect).
Local Notation reach := (reachable alloc_mode map_nspid_to_pid use_shm migration_ends wait_time_us wake
  writeprotect fsz ssz fptr sptr).

(** C1: memory is transparent.  Whatever the manager does (requests of other
    processes, faults, telemetry, cooling, a whole policy epoch with its
    migrations), an application reads the same bytes through its mapping
    before and after, at every page that it still has and did not just ask
    for. *)
Theorem memory_transparent sv ev sv' q r va x o :
  reach sv → coherent (sv_ucm sv) → event_permitted map_nspid_to_pid sv ev → maps_nothing ev →
  writes_nothing ev → step ev sv = Ok tt sv' → entry (sv_ucm sv') q r va x → 0 ≤ o < HUGEPAGE_SIZE →
  ∃ v, app_byte (sv_ucm sv) (pr_pid r) va o = Some v ∧ app_byte (sv_ucm sv') (pr_pid r) va o = Some v.
Proof using Hk Ht.
  intros Hsv Hc Hev Hm Hw Hrun Hx Ho. pose proof (reachable_ok _ _ _ _ _ _ _ Hk _ _ _ _ sv Ht Hsv) as Hok.
  pose proof (wpx_run_event alloc_mode map_nspid_to_pid use_shm _ wait_time_us _ _ Hk sv ev Hok Hev) as He.
  unfold wpx in He. rewrite Hrun in He. destruct He as (_&Hc'&Hpv).
  destruct (preserves_app_byte _ _ _ _ q r va x o Hc (Hc' Hm Hc) (Hpv Hw) Hx Ho) as [Hn|?]; [|done].
  destruct ev as [| | |fd msg| |]; try done. destruct msg; try done. destruct Hn as (_&Hf&_). cbn in Hm. congruence.
Qed.

(** C3: isolation.  No byte of the two tiers is behind two addresses: the
    frames of different pages of one process, and of pages of different
    processes, are disjoint. *)
Theorem mapped_memory_disjoint sv p r va x pg p' r' va' x' pg' t o :
  reach sv →
  entry (sv_ucm sv) p r va x → u_pages (sv_ucm sv) !! x = Some pg →
  entry (sv_ucm sv) p' r' va' x' → u_pages (sv_ucm sv) !! x' = Some pg' →
  (p, va) ≠ (p', va') → ¬ (in_frame pg t o ∧ in_frame pg' t o).
Proof using Hk Ht.
  intros Hsv Hx Hpg Hx' Hpg' Hne [Hf Hf'].
  destruct (reachable_ok _ _ _ _ _ _ _ Hk _ _ _ _ sv Ht Hsv) as (L&A&R&[[HI _ _] _]).
  by destruct (mapped_once _ A R p r va x pg p' r' va' x' pg' t o HI Hx Hpg Hx' Hpg' Hf Hf') as [-> ->].
Qed.

(** C2: progress.  In every reachable state every permitted event runs to its
    end: no assertion fails, no dangling pointer is followed, no lock is taken
    twice, no loop runs on.  The only exception is the floating-point
    arithmetic of the policy, whose two failures are named. *)
Theorem event_progress sv ev :
  reach sv → event_permitted map_nspid_to_pid sv ev →
  (∃ sv', step ev sv = Ok tt sv' ∧ reach sv') ∨ (∃ e, step ev sv = Err e ∧ float_error e).
Proof using Hk Ht.
  intros Hsv Hev. pose proof (reachable_ok _ _ _ _ _ _ _ Hk _ _ _ _ sv Ht Hsv) as Hok.
  pose proof (wpx_run_event alloc_mode map_nspid_to_pid use_shm _ wait_time_us _ _ Hk sv ev Hok Hev) as Hw.
  unfold wpx in Hw. destruct (step ev sv) as [[] sv'|e] eqn:Hrun; [left|right; by exists e].
  exists sv'. split; [done|]. by eapply reachable_event.
Qed.

(** C7: the page lists partition the pages.  Every page struct is in exactly
    one list; the pointers of a list spell out the same pages forwards and
    backwards, and its count is their number. *)
Theorem page_lists_partition sv :
  reach sv →
  (∀ x, is_Some (u_pages (sv_ucm sv) !! x) → ∃ l, ∀ l', x ∈ pages_of (u_plist (sv_ucm sv)) l' ↔ l' = l) ∧
  ∀ l q, headers (u_plist (sv_ucm sv)) !! l = Some q →
    NoDup (pages_of (u_plist (sv_ucm sv)) l) ∧
    pages_of_back (u_plist (sv_ucm sv)) l = reverse (pages_of (u_plist (sv_ucm sv)) l) ∧
    numentries q = Z.of_nat (length (pages_of (u_plist (sv_ucm sv)) l)).
Proof using Hk Ht.
  intros Hsv. destruct (reachable_ok _ _ _ _ _ _ _ Hk _ _ _ _ sv Ht Hsv) as (L&A&R&[[HI _ _] _]).
  pose proof (I_dll HI) as Hd. split.
  - intros x Hx. destruct (I_total HI Hx) as (l&Hl). exists l. intros l'.
    rewrite (pages_of_spec _ A) by done. split; [|by intros ->]. intros Hl'. by eapply dll_disjoint.
  - intros l q Hq. rewrite (pages_of_spec _ A), (pages_of_back_spec _ A), (dll_header Hd Hq) by done.
    split_and!; [apply Hd|done..].
Qed.

(** C8: every page struct is well formed: a huge page whose frame is aligned
    and lies within its tier, and that agrees with the list it is in.  On a
    free list it belongs to no process and has no history; on a list of a
    process it has its pid, the level of the list and an aligned address. *)
Theorem page_well_formed sv x pg l :
  reach sv → u_pages (sv_ucm sv) !! x = Some pg → x ∈ pages_of (u_plist (sv_ucm sv)) l →
  pg_pt pg = HUGEP ∧ pg_devdax_offset pg mod HUGEPAGE_SIZE = 0 ∧
  0 ≤ pg_devdax_offset pg ∧
  pg_devdax_offset pg + HUGEPAGE_SIZE ≤ tier_size (sv_ucm sv) (pg_in_dram pg) ∧
  match l with
  | FastFree | SlowFree => l = free_list (pg_in_dram pg) ∧ pg_present pg = false ∧ pg_pid pg = -1 ∧
      pg_accesses pg = Tiered 0 0
  | FastBin p i | SlowBin p i => l = bin (pg_in_dram pg) p i ∧ pg_present pg = true ∧ pg_hot pg = i ∧
      0 ≤ i < NUM_HOTNESS_LEVELS ∧ pg_va pg mod HUGEPAGE_SIZE = 0 ∧
      ∃ r, u_procs (sv_ucm sv) !! p = Some r ∧ pg_pid pg = pr_pid r
  end.
Proof using Hk Ht.
  intros Hsv Hpg. destruct (reachable_ok _ _ _ _ _ _ _ Hk _ _ _ _ sv Ht Hsv) as (L&A&R&[[HI _ _] _]).
  rewrite (pages_of_spec _ A) by apply HI. intros Hl. destruct (I_phys HI Hpg) as [? ? ? ?].
  split_and!; [done..|].
  assert (∀ d, l = free_list d → l = free_list (pg_in_dram pg) ∧ pg_present pg = false ∧ pg_pid pg = -1 ∧
      pg_accesses pg = Tiered 0 0) as Hfree.
  { intros d ->. destruct (I_free HI Hl) as (pg1&Hpg1&[Hd ? ? _ ? _ _ _ _ _]).
    rewrite Hpg in Hpg1. injection Hpg1 as <-. by rewrite Hd. }
  assert (∀ d p i, l = bin d p i → l = bin (pg_in_dram pg) p i ∧ pg_present pg = true ∧ pg_hot pg = i ∧
      0 ≤ i < NUM_HOTNESS_LEVELS ∧ pg_va pg mod HUGEPAGE_SIZE = 0 ∧
      ∃ r, u_procs (sv_ucm sv) !! p = Some r ∧ pg_pid pg = pr_pid r) as Hused.
  { intros d p i ->. destruct (I_used HI Hl) as (pg1&r&Hpg1&Hr&[Hd ? ? ? [? ?] ? ? _ _ _ _ _]).
    rewrite Hpg in Hpg1. injection Hpg1 as <-. rewrite Hd. split_and!; [done..|]. by exists r. }
  destruct l as [| |p i|p i]; [by apply (Hfree true)|by apply (Hfree false)|by apply (Hused true)|by apply (Hused false)].
Qed.

(** C9: the byte counts of a process are those of its lists: the fast and the
    slow memory that the policy believes a process to have is the number of its
    pages in the tier times the page size. *)
Theorem memory_accounted sv p r :
  reach sv → u_procs (sv_ucm sv) !! p = Some r →
  mm_current_fastmem (pr_mm r) = bin_bytes (sv_ucm sv) true p ∧
  mm_current_slowmem (pr_mm r) = bin_bytes (sv_ucm sv) false p.
Proof using Hk Ht.
  intros Hsv Hr. destruct (reachable_ok _ _ _ _ _ _ _ Hk _ _ _ _ sv Ht Hsv) as (L&A&R&[[HI HM _] Hl]).
  rewrite !(bin_bytes_count _ A R) by done.
  assert (is_Some (pr_phh r)) as Hphh.
  { rewrite (M_phh HM Hr), decide_True; [done|]. apply Hl. eauto. }
  split; [by apply (pi_fastmem _ _ _ _ _ _ (I_proc HI Hr))|by apply (pi_slowmem _ _ _ _ _ _ (I_proc HI Hr))].
Qed.


(** C10: a coherent state stays coherent: as long as applications map only what
    the manager told them, every application maps each of its pages to the
    frame that holds it, through every epoch of migrations. *)
Theorem mappings_stay_coherent sv ev sv' q r va x pg :
  reach sv → coherent (sv_ucm sv) → event_permitted map_nspid_to_pid sv ev → maps_nothing ev →
  step ev sv = Ok tt sv' → entry (sv_ucm sv') q r va x → u_pages (sv_ucm sv') !! x = Some pg →
  u_app (sv_ucm sv') !! (pr_pid r, va) = Some (tier_of (pg_in_dram pg), pg_devdax_offset pg).
Proof using Hk Ht.
  intros Hsv Hc Hev Hm Hrun Hx Hpg. pose proof (reachable_ok _ _ _ _ _ _ _ Hk _ _ _ _ sv Ht Hsv) as Hok.
  pose proof (wpx_run_event alloc_mode map_nspid_to_pid use_shm _ wait_time_us _ _ Hk sv ev Hok Hev) as He.
  unfold wpx in He. rewrite Hrun in He. destruct He as (_&Hc'&_).
  by destruct (Hc' Hm Hc q r va x pg Hx Hpg) as [[]|?].
Qed.

(** C12: nothing is taken away.  An event takes from the page tables only the
    pages that it is meant to: those of the range of a free request or of an
    unmap notification, those of a process that is removed or that died. *)
Theorem mappings_stay sv ev sv' q r va x :
  reach sv → event_permitted map_nspid_to_pid sv ev → writes_nothing ev →
  step ev sv = Ok tt sv' → entry (sv_ucm sv) q r va x →
  lost_in sv ev q va ∨ ∃ r', entry (sv_ucm sv') q r' va x.
Proof using Hk Ht.
  intros Hsv Hev Hw Hrun Hx. pose proof (reachable_ok _ _ _ _ _ _ _ Hk _ _ _ _ sv Ht Hsv) as Hok.
  pose proof (wpx_run_event alloc_mode map_nspid_to_pid use_shm _ wait_time_us _ _ Hk sv ev Hok Hev) as He.
  unfold wpx in He. rewrite Hrun in He. destruct He as (_&_&Hpv). by eapply (pv_kept _ _ _ _ (Hpv Hw)).
Qed.
End reachable.

(** The migrating round of the machine: the page at the third address is in the
    slow tier before and in the fast tier after it, and the byte that was
    written to it is there. *)
Lemma memory_transparent_witness :
  let sv := machine warm_apps in
  let sv' := after hot_round sv in
  machine_step hot_round sv = Ok tt sv' ∧
  (the_page (sv_ucm sv) 42 (mb 102) ≫= frame_of (sv_ucm sv)) = Some (SLOWMEM, 0) ∧
  (the_page (sv_ucm sv') 42 (mb 102) ≫= frame_of (sv_ucm sv')) = Some (FASTMEM, mb 1) ∧
  ∃ v, app_byte (sv_ucm sv) 42 (mb 102) 6 = Some v ∧ app_byte (sv_ucm sv') 42 (mb 102) 6 = Some v.
Proof.
  intros sv sv'.
  assert (machine_step hot_round sv = Ok tt sv') as Hrun by (apply after_ok; vm_compute; reflexivity).
  split; [done|]. split; [vm_compute; reflexivity|]. split; [vm_compute; reflexivity|].
  destruct (the_entry (sv_ucm sv') 42 (mb 102)) as (r&x&_&He&<-&_); [vm_compute; reflexivity|].
  pose proof warm_apps_coherent as Hc. pose proof (machine_reachable _ warm_apps_run) as Hsv.
  assert (event_permitted host_pid_of sv hot_round) as Hev by (apply event_permittedb_sound; vm_compute; reflexivity).
  change (machine warm_apps) with sv in Hc, Hsv. clearbody sv' sv.
  by apply (memory_transparent FASTMEM_PREFERRED host_pid_of true always 1000 _ _ machine_kernel
    (mb 2) (mb 4) (mb 1) (mb 64) machine_tiers sv hot_round sv' _ r _ x 6 Hsv Hc Hev I I Hrun He).
Defined.

(** The first and the second application have a page at the same address. *)
Lemma mapped_memory_disjoint_witness :
  let s := sv_ucm (machine warm_apps) in
  ∃ r x pg r' x' pg', entry s (the_proc s 42) r (mb 100) x ∧ u_pages s !! x = Some pg ∧
    entry s (the_proc s 43) r' (mb 100) x' ∧ u_pages s !! x' = Some pg' ∧
    ¬ (in_frame pg FASTMEM 5 ∧ in_frame pg' FASTMEM 5).
Proof.
  pose proof (machine_reachable _ warm_apps_run) as Hsv. intros s.
  destruct (the_entry s 42 (mb 100)) as (r&x&pg&He&_&Hpg); [vm_compute; reflexivity|].
  destruct (the_entry s 43 (mb 100)) as (r'&x'&pg'&He'&_&Hpg'); [vm_compute; reflexivity|].
  assert (bool_decide (the_proc s 42 = the_proc s 43) = false) as Hne by (vm_compute; reflexivity).
  apply bool_decide_eq_false in Hne. exists r, x, pg, r', x', pg'. split_and!; [done..|].
  apply (mapped_memory_disjoint FASTMEM_PREFERRED host_pid_of true always 1000 _ _ machine_kernel
    (mb 2) (mb 4) (mb 1) (mb 64) machine_tiers _ _ r (mb 100) x pg _ r' (mb 100) x' pg' _ _ Hsv He Hpg He' Hpg').
  congruence.
Defined.

Lemma event_progress_witness :
  let sv := machine warm_apps in
  event_permittedb host_pid_of sv hot_round = true ∧
  ((∃ sv', machine_step hot_round sv = Ok tt sv' ∧ reachable FASTMEM_PREFERRED host_pid_of true always 1000
      ready_kernel ready_protect (mb 2) (mb 4) (mb 1) (mb 64) sv') ∨
   (∃ e, machine_step hot_round sv = Err e ∧ float_error e)).
Proof.
  pose proof (machine_reachable _ warm_apps_run) as Hsv. intros sv. change (machine warm_apps) with sv in Hsv.
  assert (event_permittedb host_pid_of sv hot_round = true) as Hev by (vm_compute; reflexivity).
  split; [done|]. apply event_permittedb_sound in Hev. clearbody sv.
  exact (event_progress FASTMEM_PREFERRED host_pid_of true always 1000 _ _ machine_kernel
    (mb 2) (mb 4) (mb 1) (mb 64) machine_tiers sv hot_round Hsv Hev).
Defined.

Lemma page_lists_partition_witness :
  let h := u_plist (sv_ucm (machine warm_apps)) in
  (∃ l, ∀ l', 3%positive ∈ pages_of h l' ↔ l' = l) ∧ pages_of_back h SlowFree = reverse (pages_of h SlowFree).
Proof.
  pose proof (machine_reachable _ warm_apps_run) as Hsv.
  destruct (page_lists_partition FASTMEM_PREFERRED host_pid_of true always 1000 _ _ machine_kernel
    (mb 2) (mb 4) (mb 1) (mb 64) machine_tiers _ Hsv) as [Ha Hb]. intros h. split.
  - apply Ha. apply (bool_decide_unpack (is_Some _)). vm_compute. exact I.
  - destruct (headers h !! SlowFree) as [q|] eqn:Hq; [by apply (Hb SlowFree q)|]. exfalso.
    assert (bool_decide (is_Some (headers h !! SlowFree)) = true) as Hs by (vm_compute; reflexivity).
    apply bool_decide_eq_true in Hs. rewrite Hq in Hs. by destruct Hs.
Defined.

Lemma page_well_formed_witness :
  let s := sv_ucm (machine warm_apps) in
  ∃ r x pg, entry s (the_proc s 42) r (mb 102) x ∧ u_pages s !! x = Some pg ∧
    x ∈ pages_of (u_plist s) (SlowBin (the_proc s 42) 0) ∧
    pg_devdax_offset pg mod HUGEPAGE_SIZE = 0 ∧ pg_hot pg = 0.
Proof.
  pose proof (machine_reachable _ warm_apps_run) as Hsv. intros s.
  destruct (the_entry_in s 42 (mb 102) (SlowBin (the_proc s 42) 0)) as (r&x&pg&He&Hpg&Hin); [vm_compute; reflexivity|].
  exists r, x, pg. split; [exact He|]. split; [exact Hpg|]. split; [exact Hin|].
  destruct (page_well_formed FASTMEM_PREFERRED host_pid_of true always 1000 _ _ machine_kernel
    (mb 2) (mb 4) (mb 1) (mb 64) machine_tiers _ x pg _ Hsv Hpg Hin) as (_&Hal&_&_&_&_&Hhot&_).
  exact (conj Hal Hhot).
Defined.

Lemma memory_accounted_witness :
  let s := sv_ucm (machine warm_apps) in
  ∃ r, u_procs s !! the_proc s 42 = Some r ∧ mm_current_fastmem (pr_mm r) = mb 2 ∧
    mm_current_slowmem (pr_mm r) = mb 1.
Proof.
  pose proof (machine_reachable _ warm_apps_run) as Hsv. intros s.
  destruct (the_entry s 42 (mb 102)) as (r&x&pg&[Hr _]&_&Hpg); [vm_compute; reflexivity|].
  exists r. split; [done|].
  destruct (memory_accounted FASTMEM_PREFERRED host_pid_of true always 1000 _ _ machine_kernel
    (mb 2) (mb 4) (mb 1) (mb 64) machine_tiers _ _ r Hsv Hr) as [-> ->]. split; vm_compute; reflexivity.
Defined.


Lemma mappings_stay_coherent_witness :
  let sv := machine warm_apps in
  let sv' := after hot_round sv in
  ∃ r x pg, entry (sv_ucm sv') (the_proc (sv_ucm sv') 42) r (mb 102) x ∧ u_pages (sv_ucm sv') !! x = Some pg ∧
    u_app (sv_ucm sv') !! (pr_pid r, mb 102) = Some (tier_of (pg_in_dram pg), pg_devdax_offset pg).
Proof.
  pose proof (machine_reachable _ warm_apps_run) as Hsv. pose proof warm_apps_coherent as Hc. intros sv sv'.
  assert (machine_step hot_round sv = Ok tt sv') as Hrun by (apply after_ok; vm_compute; reflexivity).
  assert (event_permitted host_pid_of sv hot_round) as Hev by (apply event_permittedb_sound; vm_compute; reflexivity).
  destruct (the_entry (sv_ucm sv') 42 (mb 102)) as (r&x&pg&He&_&Hpg); [vm_compute; reflexivity|].
  change (machine warm_apps) with sv in Hsv, Hc. clearbody sv' sv. exists r, x, pg. split; [done|]. split; [done|].
  by apply (mappings_stay_coherent FASTMEM_PREFERRED host_pid_of true always 1000 _ _ machine_kernel
    (mb 2) (mb 4) (mb 1) (mb 64) machine_tiers sv hot_round sv' _ r _ x pg Hsv Hc Hev I Hrun He Hpg).
Defined.

(** The second application gives its page back; the first keeps its own. *)
Lemma mappings_stay_witness :
  let ev := EvMessage 8 (FreeSpace 43 (mb 100) (mb 1)) in
  let sv := machine warm_apps in
  ∃ q r x, entry (sv_ucm sv) q r (mb 100) x ∧
    (lost_in sv ev q (mb 100) ∨ ∃ r', entry (sv_ucm (after ev sv)) q r' (mb 100) x).
Proof.
  pose proof (machine_reachable _ warm_apps_run) as Hsv. intros ev sv.
  assert (machine_step ev sv = Ok tt (after ev sv)) as Hrun by (apply after_ok; vm_compute; reflexivity).
  assert (event_permitted host_pid_of sv ev) as Hev by (apply event_permittedb_sound; vm_compute; reflexivity).
  destruct (the_entry (sv_ucm sv) 42 (mb 100)) as (r&x&pg&He&_&Hpg); [vm_compute; reflexivity|].
  set (sv' := after ev sv) in *. change (machine warm_apps) with sv in Hsv. clearbody sv' sv.
  exists (the_proc (sv_ucm sv) 42), r, x. split; [done|].
  exact (mappings_stay FASTMEM_PREFERRED host_pid_of true always 1000 _ _ machine_kernel
    (mb 2) (mb 4) (mb 1) (mb 64) machine_tiers sv ev sv' _ r (mb 100) x Hsv Hev I Hrun He).
Defined.
