(* ===== verification/Service.v ===== *)
(** * What the manager answers

    The responses to the messages of applications and the effect of the
    notifications and rounds, in the states that can be reached. *)

From S2P Require Import Prelude Fifo Ring F64 ProcList Types Hotness Mm MmAsync Ucm Process Telem Migrate Qos Inv TableOk AllocOk RequestOk ProcessOk TelemOk MigrateOk MigrateRun EpochOk EvolveOk Ipc IpcOk FaultOk ServerOk Machine.

(** ** Sizes *)
Lemma page_count_split len :
  0 ≤ len → page_count len = len / HUGEPAGE_SIZE + if len mod HUGEPAGE_SIZE =? 0 then 0 else 1.
Proof.
  intros H. unfold page_count. case_match; unfold HUGEPAGE_SIZE in *; Z.div_mod_to_equations; lia.
Qed.

(** A process whose lock is held gets no memory. *)
Lemma allocate_locked mode p s :
  inr p ∈ held (u_pq s) → get_alloc_fn_by_mode mode p s = Err SelfDeadlock.
Proof.
  intros Hl. destruct mode; cbn [get_alloc_fn_by_mode]; unfold allocate_fastmem_preferred,
    allocate_slowmem_preferred, lock_process, zoom, lock, mbind, M_bind; by rewrite decide_True.
Qed.

Lemma allocate_memory_locked mode p r s start len :
  inr p ∈ held (u_pq s) → u_procs s !! p = Some r → mm_pages (pr_mm r) !! start = None →
  0 ≤ start → 0 < len → start + len < 2 ^ 64 →
  ucm_allocate_memory mode p start len s = Err SelfDeadlock.
Proof.
  intros Hl Hr Hn H0 Hlen Hend. unfold ucm_allocate_memory. cbn [loop]. unfold mbind, M_bind.
  assert (alloc_body mode p (u64 (start + len)) (start, []) s = Err SelfDeadlock) as ->; [|done].
  unfold alloc_body. rewrite u64_small, (proj2 (Z.ltb_lt _ _)) by lia.
  unfold mm_find_page, proc, deref, mbind, M_bind. rewrite Hr. unfold mret, M_ret. unfold HASH_FIND. rewrite Hn. cbn.
  unfold ucm_allocate_page. by rewrite allocate_locked.
Qed.

(** A response without pages fits. *)
Lemma bare_response_fits h msg : msg_size (h, []) ≤ send_buf_len msg.
Proof.
  transitivity MAX_SIZE; [destruct h as [? ? []]; vm_compute; congruence|].
  unfold send_buf_len. destruct msg as [q| | | | |]; [|done..]. cbv zeta. generalize (sizeof_alloc_response + sizeof_hemem_page_app *
    (al_length q / HUGEPAGE_SIZE + if al_length q mod HUGEPAGE_SIZE =? 0 then 0 else 1)).
  intros len. destruct (Z.ltb_spec MAX_SIZE len); lia.
Qed.

(** The process that a page names as its owner is alive. *)
Lemma owner_alive s A R W p x pg :
  ucm_inv s A R W → u_procs s !! p = None → u_pages s !! x = Some pg → pe_proc (pg_pa_proc_entry pg) ≠ Some p.
Proof.
  intros HI Hp Hx. destruct (I_total HI (ex_intro _ pg Hx)) as (l&Hin).
  assert (∀ d, x ∈ A (free_list d) → pe_proc (pg_pa_proc_entry pg) ≠ Some p) as Hfl.
  { intros d Hd. destruct (I_free HI Hd) as (pg'&Hx'&[]). simplify_eq. by replace (pg_pa_proc_entry pg) with no_entry. }
  assert (∀ d q i, x ∈ A (bin d q i) → pe_proc (pg_pa_proc_entry pg) ≠ Some p) as Hbin.
  { intros d q i Hd. destruct (I_used HI Hd) as (pg'&r&Hx'&Hr&Hu). simplify_eq. rewrite (up_entry _ _ _ _ _ _ _ Hu).
    unfold entry_for. case_match; cbn; congruence. }
  destruct l as [| |q i|q i]; [apply (Hfl true)|apply (Hfl false)|apply (Hbin true q i)|apply (Hbin false q i)]; done.
Qed.

Section service.
Context (alloc_mode : ALLOC_MODE) (map_nspid_to_pid : Z → Z → Z).
Context (use_shm : bool) (migration_ends : ptr → bool) (wait_time_us : Z).
Context (wake : Z → Z → Z → ioctl_result) (writeprotect : Z → Z → Z → bool → ioctl_result).
Context (Hk : kernel_ok migration_ends wake writeprotect).
Context (fsz ssz fptr sptr : Z) (Ht : good_tiers fsz ssz fptr sptr).

Local Notation reach := (reachable alloc_mode map_nspid_to_pid use_shm migration_ends wait_time_us wake
  writeprotect fsz ssz fptr sptr).

Lemma served_ok sv fd msg :
  reach sv → permitted map_nspid_to_pid sv msg → ∃ resps sv',
    process_msg alloc_mode map_nspid_to_pid fd msg sv = Ok resps sv' ∧ server_ok sv' ∧
    answered map_nspid_to_pid sv fd msg resps sv'.
Proof using Hk Ht.
  intros Hsv Hp. destruct (reachable_ok _ _ _ _ _ _ _ Hk _ _ _ _ sv Ht Hsv) as (L&A&R&Hok).
  pose proof (wp_process_msg alloc_mode map_nspid_to_pid L sv A R Hok fd msg Hp) as Hw. unfold wp in Hw.
  destruct (process_msg alloc_mode map_nspid_to_pid fd msg sv) as [resps sv'|]; [|done].
  destruct Hw as (Hok'&Ha&_). by exists resps, sv'.
Qed.

Lemma served sv fd msg :
  reach sv → permitted map_nspid_to_pid sv msg → ∃ resps sv',
    process_msg alloc_mode map_nspid_to_pid fd msg sv = Ok resps sv' ∧ answered map_nspid_to_pid sv fd msg resps sv'.
Proof using Hk Ht. intros Hsv Hp. destruct (served_ok sv fd msg Hsv Hp) as (resps&sv'&Hrun&_&Ha). eauto. Qed.


(** C15: a free request is served.  The pages of the range leave the page table,
    and no others do. *)
Theorem free_served sv fd pid addr len p :
  reach sv → 0 ≤ addr → 0 ≤ len → addr + len + HUGEPAGE_SIZE ≤ 2 ^ 64 →
  u_proc_map (sv_ucm sv) !! pid = Some p →
  ∃ sv' r r', process_msg alloc_mode map_nspid_to_pid fd (FreeSpace pid addr len) sv = Ok [(MsgHeader SUCCESS pid FREE_SPACE, [])] sv' ∧
    u_procs (sv_ucm sv) !! p = Some r ∧ u_procs (sv_ucm sv') !! p = Some r' ∧
    ∀ va, mm_pages (pr_mm r') !! va =
      if decide (va ∈ freed_range addr len) then None else mm_pages (pr_mm r) !! va.
Proof using Hk Ht.
  intros Hsv H1 H2 H3 Hp. destruct (served sv fd (FreeSpace pid addr len) Hsv) as (resps&sv'&Hrun&resp&->&Ha); [done|].
  unfold free_answer in Ha. rewrite Hp in Ha. destruct Ha as (->&_&r&r'&Ha). by exists sv', r, r'.
Qed.

(** C16: a process that leaves gives its memory back.  Its struct is freed; it
    is not in the table of pids and in the list of processes any more, and no
    page names it as the owner of a physical address; the free list of each
    tier has gained exactly its pages of that tier.  The table [uffd_to_proc]
    is not touched: an entry for the process stays there, and points to the
    struct that is gone. *)
Theorem removal_returns_frames sv fd pid p :
  reach sv → remove_permitted sv pid → u_proc_map (sv_ucm sv) !! pid = Some p →
  ∃ sv', process_msg alloc_mode map_nspid_to_pid fd (RemoveProcess pid) sv = Ok [(MsgHeader SUCCESS pid REMOVE_PROCESS, [])] sv' ∧
    u_procs (sv_ucm sv') !! p = None ∧ u_proc_map (sv_ucm sv') !! pid = None ∧
    p ∉ pages_of (plists (u_pq (sv_ucm sv'))) tt ∧
    (∀ x pg, u_pages (sv_ucm sv') !! x = Some pg → pe_proc (pg_pa_proc_entry pg) ≠ Some p) ∧
    frames_returned (sv_ucm sv) (sv_ucm sv') p ∧
    uffd_to_proc sv' = uffd_to_proc sv.
Proof using Hk Ht.
  intros Hsv Hq Hp.
  destruct (served_ok sv fd (RemoveProcess pid) Hsv Hq) as (resps&sv'&Hrun&(L&A&R&[[HI HM _] _])&->&Hn&Ha).
  destruct (Ha p Hp) as [Hgone Hfr]. exists sv'. split_and!; [done..| | |done|].
  - rewrite (pages_of_spec _ _ _ (M_dll HM)). intros [r Hr]%(mgr_proc _ _ _ _ HM). congruence.
  - intros x pg Hx. by eapply owner_alive.
  - cbn [process_msg] in Hrun. unfold ipc_handle_remove_process, zoom, mbind, M_bind in Hrun.
    destruct (match find_process pid (sv_ucm sv) with Ok _ _ => _ | Err _ => _ end) as [[] s'|]; [|done].
    by injection Hrun as <-.
Qed.

(** C37: messages about a process that is not known.  A request to allocate or
    to free is refused and changes nothing; one to remove the process is
    answered with success and changes nothing; one to record its descriptor is
    refused, but the descriptor leaves the set that is polled for requests. *)
Theorem unknown_process_answered sv fd pid addr len fixed :
  reach sv → u_proc_map (sv_ucm sv) !! pid = None →
  let serve := process_msg alloc_mode map_nspid_to_pid fd in
  serve (AllocSpace (AllocRequest pid addr len fixed)) sv = Ok [(MsgHeader FAILED pid ALLOC_SPACE, [])] sv ∧
  serve (FreeSpace pid addr len) sv = Ok [(MsgHeader FAILED pid FREE_SPACE, [])] sv ∧
  serve (RemoveProcess pid) sv = Ok [(MsgHeader SUCCESS pid REMOVE_PROCESS, [])] sv ∧
  serve (RecordRemapFd pid) sv =
    Ok [(MsgHeader FAILED pid RECORD_REMAP_FD, [])] (sv <| request_epoll ::= λ e, e ∖ {[ fd ]} |>).
Proof using Hk Ht.
  intros Hsv Hp. destruct (reachable_ok _ _ _ _ _ _ _ Hk _ _ _ _ sv Ht Hsv) as (L&A&R&[[_ HM _] _]).
  assert (find_process pid (sv_ucm sv) = Ok None (sv_ucm sv)) as Hf.
  { pose proof (wp_find_process (sv_ucm sv) L ∅ HM pid (λ o s, o = None ∧ s = sv_ucm sv)) as Hw.
    unfold wp in Hw. rewrite Hp in Hw. specialize (Hw (conj eq_refl eq_refl)).
    destruct (find_process pid (sv_ucm sv)) as [o s|]; [|done]. by destruct Hw as [-> ->]. }
  intros serve. unfold serve, process_msg, ipc_handle_alloc_space, ipc_handle_free_space, ipc_handle_remove_process,
    ipc_handle_get_process_remap_fd, modify, zoom, mbind, M_bind. cbn [al_pid].
  rewrite Hf. unfold mret, M_ret. by destruct sv.
Qed.

(** C17: the response fits its buffer.  For every permitted message, each
    response is at most as long as the buffer that [process_msg] provides,
    whose length it computes from the request before anything is allocated. *)
Theorem response_fits_buffer sv fd msg :
  reach sv → permitted map_nspid_to_pid sv msg →
  ∃ resps sv', process_msg alloc_mode map_nspid_to_pid fd msg sv = Ok resps sv' ∧ Forall (λ resp, msg_size resp ≤ send_buf_len msg) resps.
Proof using Hk Ht.
  intros Hsv Hp. destruct (served sv fd msg Hsv Hp) as (resps&sv'&Hrun&Ha). exists resps, sv'. split; [done|].
  destruct msg as [q|pid addr len|q uffd|pid|pid|]; cbn [answered] in Ha; [| | | | |done].
  - destruct Ha as (resp&->&Ha). apply Forall_singleton. unfold alloc_answer in Ha.
    destruct (u_proc_map (sv_ucm sv) !! al_pid q) as [p|] eqn:Hq.
    2: { rewrite Ha. apply bare_response_fits. }
    destruct Ha as (Hs&[Hlen _]&_). pose proof (Hp p) as Hpp.
    destruct (reachable_ok _ _ _ _ _ _ _ Hk _ _ _ _ sv Ht Hsv) as (L&A&R&[[_ HM _] _]).
    apply (M_map HM) in Hq as Hq'. destruct Hq' as (_&r&Hr&_).
    destruct (Hpp r Hq Hr) as [(_&_&Hl&_) _]. rewrite page_count_split in Hlen by done.
    unfold msg_size, send_buf_len. rewrite Hs, Hlen. cbn [h_operation]. cbv zeta.
    generalize (sizeof_alloc_response + sizeof_hemem_page_app *
      (al_length q / HUGEPAGE_SIZE + if al_length q mod HUGEPAGE_SIZE =? 0 then 0 else 1)).
    intros n. destruct (Z.ltb_spec MAX_SIZE n); lia.
  - destruct Ha as (resp&->&Ha). apply Forall_singleton. unfold free_answer in Ha.
    destruct (u_proc_map (sv_ucm sv) !! pid); [destruct Ha as [-> _]|subst resp]; apply bare_response_fits.
  - destruct Ha as [-> _]. apply Forall_cons. split; [|apply Forall_singleton]; apply bare_response_fits.
  - destruct Ha as [-> _]. apply Forall_singleton, bare_response_fits.
  - destruct Ha as (_&resp&->&Ha). apply Forall_singleton.
    destruct (u_proc_map (sv_ucm sv) !! pid); [destruct Ha as [-> _]|subst resp]; apply bare_response_fits.
Qed.

(** C38: an allocation that runs out of memory leaves the process locked.
    [ucm_allocate_memory] gives the pages back and reports the failure, but the
    lock that the allocation policy took is not released: every later
    allocation of the process waits for itself. *)
Theorem out_of_memory_keeps_lock sv p r start len pages s' start' len' :
  reach sv → u_procs (sv_ucm sv) !! p = Some r →
  0 < start → start mod HUGEPAGE_SIZE = 0 → 0 ≤ len → start + len + HUGEPAGE_SIZE ≤ 2 ^ 64 →
  (∀ i, 0 ≤ i < page_count len → mm_pages (pr_mm r) !! (start + i * HUGEPAGE_SIZE) = None) →
  ucm_allocate_memory alloc_mode p start len (sv_ucm sv) = Ok (-1, pages) s' →
  0 ≤ start' → 0 < len' → start' + len' < 2 ^ 64 → mm_pages (pr_mm r) !! start' = None →
  free_slow (sv_ucm sv) < page_count len ∧ inr p ∈ held (u_pq s') ∧
  ucm_allocate_memory alloc_mode p start' len' s' = Err SelfDeadlock.
Proof using Hk Ht.
  intros Hsv Hr H1 H2 H3 H4 Hnew Hrun H5 H6 H7 Hn.
  destruct (reachable_ok _ _ _ _ _ _ _ Hk _ _ _ _ sv Ht Hsv) as (L&A&R&[[HI HM _] _]).
  assert (inr p ∉ held (u_pq (sv_ucm sv))) as Hheld by (rewrite (M_held HM); set_solver).
  pose proof (wp_allocate_memory alloc_mode (sv_ucm sv) A R HI p r Hr Hheld start len H1 H2 H3 H4 Hnew) as Hw.
  unfold wp in Hw. rewrite Hrun in Hw. destruct Hw as [(Hpc&_)|[_ [_ Hh Hs (r0&r'&Hr0&Hr'&Htab) _ _ _]]].
  { exfalso. cbn in Hpc. assert (0 ≤ page_count len); [|lia]. apply Z.div_pos; unfold HUGEPAGE_SIZE; lia. }
  rewrite Hr in Hr0. injection Hr0 as <-. assert (inr p ∈ held (u_pq s')) as Hp by (rewrite Hh; set_solver).
  split; [by rewrite (free_slow_length _ A R)|]. split; [done|].
  by apply (allocate_memory_locked _ p r'); [..|rewrite Htab|done|done|done].
Qed.

(** C13: frees are carried out.  After a round of the core loop no page waits in
    a free ring any more, and the processes that died are gone with their
    pages. *)
Theorem round_carries_out_frees sv alive enable ps cnts diffs st sv' :
  reach sv → event_permitted map_nspid_to_pid sv (EvRound alive enable ps cnts diffs st) →
  run_event alloc_mode map_nspid_to_pid use_shm migration_ends wait_time_us wake writeprotect
    (EvRound alive enable ps cnts diffs st) sv = Ok tt sv' →
  (∀ x pg, u_pages (sv_ucm sv') !! x = Some pg → pg_in_free_ring pg = false) ∧
  ∀ q r, u_procs (sv_ucm sv') !! q = Some r →
    ring_buf_empty (mm_free_page_ring (pr_mm r)) = true ∧ alive (pr_pid r) = true.
Proof using Hk Ht.
  intros Hsv [Hp Htel] Hrun.
  destruct (reachable_ok _ _ _ _ _ _ _ Hk _ _ _ _ sv Ht Hsv) as (L&A&R&[Hso Hl]).
  pose proof (wpx_core_round writeprotect alive (k_writeprotect _ _ _ Hk) L (sv_ucm sv) A R enable ps cnts diffs st
    Hso Hl Hp Htel) as Hr.
  cbn [run_event] in Hrun. unfold mbind, M_bind, zoom in Hrun. unfold wpx in Hr.
  destruct (core_round _ _ _ _ _ _ _ _) as [res s1|e]; [|done]. injection Hrun as <-. rec_simpl.
  destruct Hr as (L'&A'&R'&[HI' _ _]&Hl'&Hfree&Halive&_). split.
  - intros x pg Hx. destruct (I_total HI' (ex_intro _ pg Hx)) as (l&Hin).
    assert (∀ d, x ∈ A' (free_list d) → pg_in_free_ring pg = false) as Hfl.
    { intros d Hd. destruct (I_free HI' Hd) as (pg'&Hx'&[]). congruence. }
    assert (∀ d q i, x ∈ A' (bin d q i) → pg_in_free_ring pg = false) as Hbin.
    { intros d q i Hd. destruct (I_used HI' Hd) as (pg'&r&Hx'&Hr&Hu). 
      rewrite (waiting s1 A' R' q x pg HI') by (done || by exists d, i; split; [apply Hu|]).
      rewrite Hfree by (apply Hl'; eauto). by apply bool_decide_eq_false, not_elem_of_nil. }
    destruct l as [| |q i|q i]; [apply (Hfl true)|apply (Hfl false)|apply (Hbin true q i)|apply (Hbin false q i)]; done.
  - intros q r Hr. split; [|by eapply Halive].
    pose proof (proj1 (pi_ring _ _ _ _ _ _ (I_proc HI' Hr) FreeRing)) as Hring.
    rewrite Hfree in Hring by (apply Hl'; eauto). by apply (ring_buf_empty_spec _ _ Hring).
Qed.
End service.

(** ** Instances *)
Local Notation machine_serve := (process_msg FASTMEM_PREFERRED host_pid_of).

Definition two_more : alloc_request := AllocRequest 43 (mb 200) (mb 2) false.


Lemma free_served_witness :
  let sv := machine warm_apps in
  ∃ p sv' r r', u_proc_map (sv_ucm sv) !! 42 = Some p ∧
    machine_serve 7 (FreeSpace 42 (mb 101) (mb 1)) sv = Ok [(MsgHeader SUCCESS 42 FREE_SPACE, [])] sv' ∧
    u_procs (sv_ucm sv) !! p = Some r ∧ u_procs (sv_ucm sv') !! p = Some r' ∧
    mm_pages (pr_mm r') !! mb 101 = None ∧ mm_pages (pr_mm r') !! mb 102 = mm_pages (pr_mm r) !! mb 102.
Proof.
  pose proof (machine_reachable _ warm_apps_run) as Hsv. intros sv.
  assert (u_proc_map (sv_ucm sv) !! 42 = Some (the_proc (sv_ucm sv) 42)) as Hm by (vm_compute; reflexivity).
  change (machine warm_apps) with sv in Hsv. clearbody sv. exists (the_proc (sv_ucm sv) 42).
  destruct (free_served FASTMEM_PREFERRED host_pid_of true always 1000 _ _ machine_kernel
    (mb 2) (mb 4) (mb 1) (mb 64) machine_tiers sv 7 42 (mb 101) (mb 1) (the_proc (sv_ucm sv) 42) Hsv)
    as (sv'&r&r'&Hrun&Hr&Hr'&Htab); [vm_compute; congruence..|done|].
  exists sv', r, r'. split_and!; [done..| |]; by rewrite Htab.
Defined.

(** The first application leaves; descriptor 20 still leads to its struct. *)
Lemma removal_returns_frames_witness :
  let sv := machine warm_apps in
  ∃ p sv', machine_serve 7 (RemoveProcess 42) sv = Ok [(MsgHeader SUCCESS 42 REMOVE_PROCESS, [])] sv' ∧
    u_procs (sv_ucm sv') !! p = None ∧ frames_returned (sv_ucm sv) (sv_ucm sv') p ∧
    uffd_to_proc sv' !! 20 = Some p.
Proof.
  pose proof (machine_reachable _ warm_apps_run) as Hsv. intros sv.
  assert (u_proc_map (sv_ucm sv) !! 42 = Some (the_proc (sv_ucm sv) 42)) as Hm by (vm_compute; reflexivity).
  assert (permitted host_pid_of sv (RemoveProcess 42)) as Hp by (apply message_permittedb_sound; vm_compute; reflexivity).
  assert (uffd_to_proc sv !! 20 = Some (the_proc (sv_ucm sv) 42)) as Hu by (vm_compute; reflexivity).
  change (machine warm_apps) with sv in Hsv. clearbody sv. exists (the_proc (sv_ucm sv) 42).
  destruct (removal_returns_frames FASTMEM_PREFERRED host_pid_of true always 1000 _ _ machine_kernel
    (mb 2) (mb 4) (mb 1) (mb 64) machine_tiers sv 7 42 _ Hsv Hp Hm) as (sv'&Hrun&Hgone&_&_&_&Hfr&Hsame).
  exists sv'. split_and!; [exact Hrun|exact Hgone|exact Hfr|]. rewrite Hsame. exact Hu.
Defined.

Lemma unknown_process_answered_witness :
  let sv := machine warm_apps in
  machine_serve 9 (AllocSpace (AllocRequest 44 (mb 5) (mb 1) false)) sv =
    Ok [(MsgHeader FAILED 44 ALLOC_SPACE, [])] sv ∧
  machine_serve 9 (FreeSpace 44 (mb 5) (mb 1)) sv = Ok [(MsgHeader FAILED 44 FREE_SPACE, [])] sv ∧
  machine_serve 9 (RemoveProcess 44) sv = Ok [(MsgHeader SUCCESS 44 REMOVE_PROCESS, [])] sv ∧
  machine_serve 9 (RecordRemapFd 44) sv =
    Ok [(MsgHeader FAILED 44 RECORD_REMAP_FD, [])] (sv <| request_epoll ::= λ e, e ∖ {[ 9 ]} |>).
Proof.
  pose proof (machine_reachable _ warm_apps_run) as Hsv. intros sv.
  assert (u_proc_map (sv_ucm sv) !! 44 = None) as Hm by (vm_compute; reflexivity).
  change (machine warm_apps) with sv in Hsv. clearbody sv.
  exact (unknown_process_answered FASTMEM_PREFERRED host_pid_of true always 1000 _ _ machine_kernel
    (mb 2) (mb 4) (mb 1) (mb 64) machine_tiers sv 9 44 (mb 5) (mb 1) false Hsv Hm).
Defined.

Lemma response_fits_buffer_witness :
  let sv := machine warm_apps in
  ∃ resps sv', machine_serve 8 (AllocSpace two_more) sv = Ok resps sv' ∧
    Forall (λ resp, msg_size resp ≤ send_buf_len (AllocSpace two_more)) resps.
Proof.
  pose proof (machine_reachable _ warm_apps_run) as Hsv. intros sv.
  assert (permitted host_pid_of sv (AllocSpace two_more)) as Hp
    by (apply message_permittedb_sound; vm_compute; reflexivity).
  change (machine warm_apps) with sv in Hsv. clearbody sv.
  exact (response_fits_buffer FASTMEM_PREFERRED host_pid_of true always 1000 _ _ machine_kernel
    (mb 2) (mb 4) (mb 1) (mb 64) machine_tiers sv 8 (AllocSpace two_more) Hsv Hp).
Defined.

(** The second application asks for more than there is, and then for one page. *)
Definition too_much (sv : srv) : outcome ucm (Z * list hemem_page_app) :=
  ucm_allocate_memory FASTMEM_PREFERRED (the_proc (sv_ucm sv) 43) (mb 200) (mb 3) (sv_ucm sv).

Definition too_muchb (sv : srv) : bool :=
  match too_much sv with Ok (rc, _) _ => rc =? -1 | Err _ => false end &&
  match u_procs (sv_ucm sv) !! the_proc (sv_ucm sv) 43 with
  | Some r => bool_decide (mm_pages (pr_mm r) !! mb 300 = None) &&
      forallb (λ i, bool_decide (mm_pages (pr_mm r) !! (mb 200 + i * HUGEPAGE_SIZE) = None)) (seqZ 0 (page_count (mb 3)))
  | None => false
  end.

Lemma too_muchb_sound sv :
  too_muchb sv = true → ∃ r pages s', u_procs (sv_ucm sv) !! the_proc (sv_ucm sv) 43 = Some r ∧
    ucm_allocate_memory FASTMEM_PREFERRED (the_proc (sv_ucm sv) 43) (mb 200) (mb 3) (sv_ucm sv) = Ok (-1, pages) s' ∧
    mm_pages (pr_mm r) !! mb 300 = None ∧
    ∀ i, 0 ≤ i < page_count (mb 3) → mm_pages (pr_mm r) !! (mb 200 + i * HUGEPAGE_SIZE) = None.
Proof.
  unfold too_muchb, too_much. intros [Hrc Hf]%andb_true_iff.
  destruct (ucm_allocate_memory _ _ _ _ _) as [[rc pages] s'|]; [|done]. apply Z.eqb_eq in Hrc as ->.
  destruct (u_procs (sv_ucm sv) !! the_proc (sv_ucm sv) 43) as [r|]; [|done].
  apply andb_true_iff in Hf as [H300%bool_decide_eq_true H200]. rewrite forallb_forall in H200.
  exists r, pages, s'. split_and!; [done..|]. intros i Hi.
  eapply bool_decide_eq_true, H200, list_elem_of_In, elem_of_seqZ. lia.
Qed.

Lemma out_of_memory_keeps_lock_witness :
  let sv := machine warm_apps in
  ∃ pages s', ucm_allocate_memory FASTMEM_PREFERRED (the_proc (sv_ucm sv) 43) (mb 200) (mb 3) (sv_ucm sv) =
      Ok (-1, pages) s' ∧ inr (the_proc (sv_ucm sv) 43) ∈ held (u_pq s') ∧
    ucm_allocate_memory FASTMEM_PREFERRED (the_proc (sv_ucm sv) 43) (mb 300) (mb 1) s' = Err SelfDeadlock.
Proof.
  pose proof (machine_reachable _ warm_apps_run) as Hsv. intros sv.
  destruct (too_muchb_sound sv) as (r&pages&s'&Hr&Hrun&H300&H200); [vm_compute; reflexivity|].
  change (machine warm_apps) with sv in Hsv. clearbody sv.
  destruct (out_of_memory_keeps_lock FASTMEM_PREFERRED host_pid_of true always 1000 _ _ machine_kernel
    (mb 2) (mb 4) (mb 1) (mb 64) machine_tiers sv (the_proc (sv_ucm sv) 43) r (mb 200) (mb 3) pages s' (mb 300) (mb 1) Hsv Hr)
    as (_&Hh&Hd); [by vm_compute|by vm_compute|by vm_compute|by vm_compute|exact H200|exact Hrun|
      by vm_compute|by vm_compute|by vm_compute|exact H300|].
  exists pages, s'. exact (conj Hrun (conj Hh Hd)).
Defined.

(** The second application gives its page back; the round frees it. *)
Definition freeing_apps : list event := warm_apps ++ [EvMessage 8 (FreeSpace 43 (mb 100) (mb 1))].
Definition plain_round : event := EvRound always true [] [] [] qos_policy_state_init.

Lemma round_carries_out_frees_witness :
  let sv := machine freeing_apps in
  let sv' := after plain_round sv in
  (∃ x pg, u_pages (sv_ucm sv) !! x = Some pg ∧ pg_in_free_ring pg = true) ∧
  ∀ x pg, u_pages (sv_ucm sv') !! x = Some pg → pg_in_free_ring pg = false.
Proof.
  assert (machine_runs freeing_apps = true) as Hr by (vm_compute; reflexivity).
  pose proof (machine_reachable _ Hr) as Hsv. intros sv sv'.
  assert (machine_step plain_round sv = Ok tt sv') as Hrun by (apply after_ok; vm_compute; reflexivity).
  assert (event_permitted host_pid_of sv plain_round) as Hev by (apply event_permittedb_sound; vm_compute; reflexivity).
  assert (existsb (λ '(x, pg), pg_in_free_ring pg) (map_to_list (u_pages (sv_ucm sv))) = true) as Hw
    by (vm_compute; reflexivity).
  change (machine freeing_apps) with sv in Hsv. clearbody sv' sv. split.
  - apply existsb_exists in Hw as ([x pg]&Hin&Hpg). exists x, pg. split; [|done].
    by apply elem_of_map_to_list, list_elem_of_In.
  - exact (proj1 (round_carries_out_frees FASTMEM_PREFERRED host_pid_of true always 1000 _ _ machine_kernel
      (mb 2) (mb 4) (mb 1) (mb 64) machine_tiers sv _ _ _ _ _ _ sv' Hsv Hev Hrun)).
Defined.
