(* ===== verification/Mapping.v ===== *)
(** * [mmap] and [munmap], end to end

    The library in the application and the manager together: what an
    intercepted [mmap] or [munmap] means for the memory that applications
    see, and what a remap request does. *)

From S2P Require Import Prelude Fifo Ring F64 ProcList Types Hotness Mm MmAsync Ucm Process Telem Migrate Qos Inv RequestOk ProcessOk TelemOk MigrateOk MigrateRun EpochOk EvolveOk Ipc IpcOk ServerOk App AppOk Machine.

(** What the applications read, across a step that leaves their pages alone but
    for those that it takes away or makes. *)
Lemma evolves_app_byte s s' lost new q r va x o :
  coherent s → coherent s' → evolves s (s' <| u_app := u_app s |>) lost new →
  entry s q r va x → 0 ≤ o < HUGEPAGE_SIZE →
  lost q va ∨ new q va ∨ app_byte s' (pr_pid r) va o = app_byte s (pr_pid r) va o.
Proof.
  intros Hc Hc' [K E _] Hx Ho. destruct (K q r va x Hx) as [?|(r'&Hx')]; [by left|right].
  destruct (E q r' va x Hx') as [?|(r0&Hx0&Hp&pg&pg'&Hpg&Hpg'&_&Hb)]; [by left|right].
  assert (r0 = r) as -> by (destruct Hx, Hx0; congruence).
  rewrite (coherent_app_byte s q r va x pg o), <- Hp by done.
  rewrite (coherent_app_byte s' q r' va x pg' o) by done. f_equal. exact (Hb o Ho).
Qed.

(** The page table of a process after such a step. *)
Lemma evolves_table s s' lost new q r r' va m :
  evolves s (s' <| u_app := m |>) lost new → u_procs s !! q = Some r → u_procs s' !! q = Some r' →
  ¬ lost q va → ¬ new q va → mm_pages (pr_mm r') !! va = mm_pages (pr_mm r) !! va.
Proof.
  intros [K E _] Hr Hr' Hl Hn. apply option_eq. intros x. split; intros Hx.
  - destruct (E q r' va x) as [?|(r0&[Hr0 Hx0]&_)]; [by split|done|congruence].
  - destruct (K q r va x) as [?|(r1&[Hr1 Hx1])]; [by split|done|]. rec_simpl_in Hr1. congruence.
Qed.

Section mapping.
Context (alloc_mode : ALLOC_MODE) (map_nspid_to_pid : Z → Z → Z).
Context (map_fails : Z → bool) (registers unregisters : Z → bool).
Context (reserve : Z → Z → Z → Z → Z) (libc_munmap : Z → Z → Z) (ctx : app_ctx_t).
Notation pid := (host_pid ctx).
Notation mmap := (hemem_mmap_impl alloc_mode map_nspid_to_pid map_fails registers reserve ctx).
Notation munmap := (hemem_munmap_impl alloc_mode map_nspid_to_pid unregisters libc_munmap ctx).

(** The manager knows the application, it has nothing at the [len] bytes from
    [p], and there is room for them. *)
Record mappable (sv : srv) (q : ptr) (p len : Z) : Prop := Mappable {
  ma_ok : server_ok sv;
  ma_coherent : coherent (sv_ucm sv);
  ma_known : u_proc_map (sv_ucm sv) !! pid = Some q;
  ma_len : 0 < len;
  ma_addr : 0 < p ∧ p mod HUGEPAGE_SIZE = 0 ∧ p + page_count len * HUGEPAGE_SIZE + HUGEPAGE_SIZE ≤ 2 ^ 64;
  ma_fresh r va : u_procs (sv_ucm sv) !! q = Some r → va ∈ alloc_range p len → mm_pages (pr_mm r) !! va = None;
  ma_room : page_count len ≤ free_slow (sv_ucm sv);
}.

Lemma wp_mmap_mappable a q len prot flags p :
  (∀ va, map_fails va = false) → mappable (ap_srv a) q p len →
  (∀ prot flags, reserve 0 (PAGE_ROUND_UP len) prot flags = p) →
  wp (mmap 0 len prot flags (-1) 0) (λ res a', res = p ∧
    populated (sv_ucm (ap_srv a)) q p (Z.to_nat (page_count len)) (Z.to_nat (page_count len)) (ap_srv a') ∧
    (has (to_shared flags) MAP_ANONYMOUS = true → has prot PROT_WRITE = false →
     valid_prot (final_protection 0 flags) = true →
     ∀ va, va ∈ alloc_range p len → protections a' !! va = Some (final_protection 0 flags))) a.
Proof using Type.
  intros Hmf [Hok Hc Hq Hlen (Hp&Hal&Hend) Hfr Hroom] Hres. eapply wp_mono.
  { eapply (wp_hemem_mmap_impl alloc_mode map_nspid_to_pid map_fails registers Hmf ctx reserve a q 0 len prot flags p);
      auto. }
  by intros res a' (?&?&_&?).
Qed.

(** C4: anonymous memory.  An intercepted [mmap] of [len] bytes with no address
    given ([addr] is null), when the slow tier alone has room for the pages,
    returns the address that the kernel chooses; afterwards the application
    reads zero at every byte of the range through its own mapping, every
    mapping of every application is coherent, and no application sees a
    difference in the memory it had. *)
Theorem mmap_gives_zeroed_memory a q len prot flags p :
  (∀ va, map_fails va = false) → mappable (ap_srv a) q p len →
  (∀ prot flags, reserve 0 (PAGE_ROUND_UP len) prot flags = p) →
  ∃ a', mmap 0 len prot flags (-1) 0 a = Ok p a' ∧ coherent (sv_ucm (ap_srv a')) ∧
    (∀ va o, va ∈ alloc_range p len → 0 ≤ o < HUGEPAGE_SIZE →
       app_byte (sv_ucm (ap_srv a')) pid va o = Some 0) ∧
    (∀ q' r va x o, entry (sv_ucm (ap_srv a)) q' r va x → 0 ≤ o < HUGEPAGE_SIZE →
       app_byte (sv_ucm (ap_srv a')) (pr_pid r) va o = app_byte (sv_ucm (ap_srv a)) (pr_pid r) va o).
Proof using Type.
  intros Hmf Hma Hres. pose proof (wp_mmap_mappable a q len prot flags p Hmf Hma Hres) as Hw. unfold wp in Hw.
  destruct (mmap 0 len prot flags (-1) 0 a) as [res a'|]; [|done]. destruct Hw as (->&Hpl&_).
  destruct Hma as [Hok Hc Hq _ _ Hfr _]. pose proof Hpl as [Hok' Hc' Hg Hm Hz _ _].
  exists a'. split; [done|]. split; [done|]. split.
  - intros va o Hva Ho. destruct (Hz va Hva) as (r&x&pg&Hx&Hpg&Hb).
    destruct Hok' as (L&A&R&[[HI HM _] _]). rewrite <- Hm in Hq. apply (M_map HM) in Hq as (_&r'&Hr'&<-).
    assert (r' = r) as -> by (destruct Hx; congruence).
    rewrite (coherent_app_byte _ q r va x pg o) by done. by rewrite Hb.
  - intros q' r va x o Hx Ho.
    destruct (evolves_app_byte _ _ _ _ q' r va x o Hc Hc' Hg Hx Ho) as [[]|[[-> Hva]|?]]; [|done].
    destruct Hx as [Hr Hx]. by rewrite (Hfr r va Hr Hva) in Hx.
Qed.


(** C19: a remap request is answered the way the manager expects.  When the
    application handles the request for one page, the manager's side of the
    exchange, run against that very answer, succeeds and leaves the mappings
    that the application has made: the effect on the application that the
    model of the migration builds into [ipc_remap_pages] is that of
    [handle_remap_request]. *)
Theorem remap_exchange_agrees a q r pa :
  (∀ va, map_fails va = false) → (∀ va, registers va = true) →
  pa_va pa ≠ 0 → pa_va pa mod pt_to_pagesize (pa_pt pa) = 0 →
  u_procs (sv_ucm (ap_srv a)) !! q = Some r → pr_pid r = pid →
  ∃ resp a', handle_remap_request map_fails registers ctx (RemapRequest REMAP_PAGES [pa]) a = Ok resp a' ∧
    ipc_remap_pages q pa ((sv_ucm (ap_srv a)) <| u_ipc := [as_reply resp] |>) =
      Ok IPC_SUCCESS ((sv_ucm (ap_srv a')) <| u_ipc := [] |>).
Proof using Type.
  intros Hmf Hreg H0 Hal Hr Hpid.
  pose proof (wp_remap_refines map_fails registers Hmf ctx a q r pa Hreg H0 Hal Hr Hpid) as Hw. unfold wp in Hw.
  destruct (handle_remap_request _ _ _ _ a) as [resp a'|] eqn:Hrun; [|done]. by exists resp, a'.
Qed.

(** [handle_remap_bufread] reads every request at the start of the buffer.
    When two requests arrive together, the first is carried out and answered
    twice and the page of the second is not mapped again. *)
Theorem remap_second_request_lost a pa pa' :
  (∀ va, map_fails va = false) → (∀ va, registers va = true) →
  pa_va pa ≠ 0 → pa_va pa mod pt_to_pagesize (pa_pt pa) = 0 → pa_va pa ≠ pa_va pa' →
  let buf := [RemapRequest REMAP_PAGES [pa]; RemapRequest REMAP_PAGES [pa']] in
  ∃ resps a', handle_remap_bufread map_fails registers ctx buf buf a = Ok resps a' ∧
    rr_va <$> resps = [pa_va pa; pa_va pa] ∧
    u_app (sv_ucm (ap_srv a')) !! (pid, pa_va pa') = u_app (sv_ucm (ap_srv a)) !! (pid, pa_va pa').
Proof using Type.
  intros Hmf Hreg H0 Hal Hne buf.
  pose proof (wp_bufread_first map_fails registers Hmf ctx a pa pa' Hreg H0 Hal) as Hw. fold buf in Hw. unfold wp in Hw.
  destruct (handle_remap_bufread _ _ _ buf buf a) as [resps a'|]; [|done]. destruct Hw as [Hva Happ].
  exists resps, a'. split_and!; [done..|]. rewrite Happ. apply lookup_insert_ne. congruence.
Qed.

(** Memory that the application must not touch is readable.  For a
    private anonymous mapping without [PROT_WRITE], [hemem_mmap_impl] restores
    the protection from the flags of the mapping instead of the protection:
    whatever protection was asked for, [PROT_NONE] included, every page of the
    mapping ends up with [PROT_READ]. *)
Theorem mmap_protection_from_flags a q len prot p :
  (∀ va, map_fails va = false) → mappable (ap_srv a) q p len →
  (∀ prot flags, reserve 0 (PAGE_ROUND_UP len) prot flags = p) → has prot PROT_WRITE = false →
  ∃ a', mmap 0 len prot (Z.lor MAP_PRIVATE MAP_ANONYMOUS) (-1) 0 a = Ok p a' ∧
    ∀ va, va ∈ alloc_range p len → protections a' !! va = Some PROT_READ.
Proof using Type.
  intros Hmf Hma Hres Hpw.
  pose proof (wp_mmap_mappable a q len prot (Z.lor MAP_PRIVATE MAP_ANONYMOUS) p Hmf Hma Hres) as Hw. unfold wp in Hw.
  destruct (mmap 0 len prot _ (-1) 0 a) as [res a'|]; [|done]. destruct Hw as (->&_&Hpr).
  exists a'. split; [done|]. by apply Hpr.
Qed.
End mapping.

(** ** Instances *)
Definition mappableb (ctx : app_ctx_t) (sv : srv) (p len : Z) : bool :=
  coherentb (sv_ucm sv) && (0 <? len) && (0 <? p) && (p mod HUGEPAGE_SIZE =? 0) &&
  (p + page_count len * HUGEPAGE_SIZE + HUGEPAGE_SIZE <=? 2 ^ 64) &&
  (page_count len <=? free_slow (sv_ucm sv)) &&
  match proc_of_pid (sv_ucm sv) (host_pid ctx) with
  | Some r => forallb (λ va, bool_decide (mm_pages (pr_mm r) !! va = None)) (alloc_range p len)
  | None => false
  end.

Lemma mappableb_sound ctx sv p len :
  server_ok sv → mappableb ctx sv p len = true → ∃ q, mappable ctx sv q p len.
Proof.
  intros Hok [[[[[[Hc%coherentb_sound H1%Z.ltb_lt]%andb_true_iff H2%Z.ltb_lt]%andb_true_iff
    H3%Z.eqb_eq]%andb_true_iff H4%Z.leb_le]%andb_true_iff H5%Z.leb_le]%andb_true_iff Hf]%andb_true_iff.
  unfold proc_of_pid in Hf. destruct (u_proc_map (sv_ucm sv) !! host_pid ctx) as [q|] eqn:Hq; [|done].
  cbn [mbind option_bind] in Hf. exists q. split; [done..| |done].
  intros r va Hr Hva. rewrite Hr in Hf. rewrite forallb_forall in Hf.
  eapply bool_decide_eq_true, Hf, list_elem_of_In, Hva.
Qed.

(** The second application of the machine, which the kernel gives the addresses
    from [mb 200] on. *)
Definition ctx43 : app_ctx_t := AppCtx true 8 43 3 4.
Definition app43 (sv : srv) : app := App sv false 0 ∅ ∅.
Definition never (_ : Z) : bool := false.
Definition at200 (_ _ _ _ : Z) : Z := mb 200.
Definition unmap_ok (_ _ : Z) : Z := 0.

Notation mmap43 := (hemem_mmap_impl FASTMEM_PREFERRED host_pid_of never always at200 ctx43).
Notation munmap43 := (hemem_munmap_impl FASTMEM_PREFERRED host_pid_of always unmap_ok ctx43).

Lemma mmap_gives_zeroed_memory_witness :
  let a := app43 (machine warm_apps) in
  ∃ a', mmap43 0 (mb 1 + 1) 3 34 (-1) 0 a = Ok (mb 200) a' ∧
    app_byte (sv_ucm (ap_srv a')) 43 (mb 201) 17 = Some 0.
Proof.
  pose proof (machine_ok _ warm_apps_run) as Hok. intros a.
  destruct (mappableb_sound ctx43 (ap_srv a) (mb 200) (mb 1 + 1)) as (q&Hma); [exact Hok|vm_compute; reflexivity|].
  clearbody a. destruct (mmap_gives_zeroed_memory FASTMEM_PREFERRED host_pid_of never always at200 ctx43 a q (mb 1 + 1) 3 34
    (mb 200) (λ _, eq_refl) Hma (λ _ _, eq_refl)) as (a'&Hrun&_&Hz&_).
  exists a'. split; [exact Hrun|]. apply (Hz (mb 201) 17); [|done]. apply (bool_decide_unpack (mb 201 ∈ _)).
  vm_compute. exact I.
Defined.


Lemma remap_exchange_agrees_witness :
  let a := app43 (machine warm_apps) in
  let pa := PageApp (mb 100) (mb 1) true HUGEP in
  ∃ q resp a', handle_remap_request never always ctx43 (RemapRequest REMAP_PAGES [pa]) a = Ok resp a' ∧
    ipc_remap_pages q pa ((sv_ucm (ap_srv a)) <| u_ipc := [as_reply resp] |>) =
      Ok IPC_SUCCESS ((sv_ucm (ap_srv a')) <| u_ipc := [] |>).
Proof.
  intros a pa. destruct (the_entry (sv_ucm (ap_srv a)) 43 (mb 100)) as (r&x&pg&[Hr _]&Hp&_); [vm_compute; reflexivity|].
  clearbody a. exists (the_proc (sv_ucm (ap_srv a)) 43).
  exact (remap_exchange_agrees never always ctx43 a _ r pa (λ _, eq_refl) (λ _, eq_refl) ltac:(by vm_compute)
    ltac:(by vm_compute) Hr Hp).
Defined.

Lemma remap_second_request_lost_witness :
  let pa := PageApp (mb 100) (mb 1) true HUGEP in
  let pa' := PageApp (mb 101) 0 true HUGEP in
  let buf := [RemapRequest REMAP_PAGES [pa]; RemapRequest REMAP_PAGES [pa']] in
  ∃ resps a', handle_remap_bufread never always ctx43 buf buf (app43 srv_start) = Ok resps a' ∧
    rr_va <$> resps = [mb 100; mb 100] ∧ u_app (sv_ucm (ap_srv a')) !! (43, mb 101) = None.
Proof.
  exact (remap_second_request_lost never always ctx43 (app43 srv_start) (PageApp (mb 100) (mb 1) true HUGEP)
    (PageApp (mb 101) 0 true HUGEP) (λ _, eq_refl) (λ _, eq_refl) ltac:(by vm_compute) ltac:(by vm_compute)
    ltac:(by vm_compute)).
Defined.

Lemma mmap_protection_from_flags_witness :
  let a := app43 (machine warm_apps) in
  ∃ a', mmap43 0 (mb 1) 0 34 (-1) 0 a = Ok (mb 200) a' ∧ protections a' !! mb 200 = Some PROT_READ.
Proof.
  pose proof (machine_ok _ warm_apps_run) as Hok. intros a.
  destruct (mappableb_sound ctx43 (ap_srv a) (mb 200) (mb 1)) as (q&Hma); [exact Hok|vm_compute; reflexivity|].
  clearbody a. destruct (mmap_protection_from_flags FASTMEM_PREFERRED host_pid_of never always at200 ctx43 a q (mb 1) 0
    (mb 200) (λ _, eq_refl) Hma (λ _ _, eq_refl) eq_refl) as (a'&Hrun&Hpr).
  exists a'. split; [exact Hrun|]. apply Hpr. apply (bool_decide_unpack (mb 200 ∈ _)). vm_compute. exact I.
Defined.
