(* ===== verification/Tiering.v ===== *)
(** * How memory moves between the tiers

    What the manager starts with, which page it chooses to migrate, and how
    much of it moves in a round. *)

From S2P Require Import Prelude Fifo Ring F64 ProcList Types Hotness Mm MmAsync Ucm Process Telem Migrate Qos Inv TableOk AllocOk RequestOk InitOk ProcessOk TelemOk CoolPass MigrateOk MigrateRun EpochOk EvolveOk Ipc IpcOk FaultOk ServerOk Machine System.

(** In a list of numbers counted down, what is larger comes before. *)
Lemma reverse_seqZ_before m n js1 i js2 j :
  reverse (seqZ m n) = js1 ++ i :: js2 → i < j < m + n → j ∈ js1.
Proof.
  intros Hjs Hj.
  assert (∀ k : nat, Z.of_nat k < n → reverse (seqZ m n) !! k = Some (m + n - 1 - Z.of_nat k)) as Hk.
  { intros k Hlt. rewrite reverse_lookup by (rewrite length_seqZ; lia). rewrite length_seqZ, lookup_seqZ.
    split; lia. }
  assert (reverse (seqZ m n) !! length js1 = Some i) as Hi.
  { by rewrite Hjs, list_lookup_middle. }
  assert (Z.of_nat (length js1) < n) as Hlen.
  { apply lookup_lt_Some in Hi. rewrite length_reverse, length_seqZ in Hi. lia. }
  rewrite Hk in Hi by done. injection Hi as Hi.
  assert (reverse (seqZ m n) !! Z.to_nat (m + n - 1 - j) = Some j) as Hjj.
  { rewrite Hk by lia. f_equal. lia. }
  rewrite Hjs, lookup_app_l in Hjj by lia. by eapply list_elem_of_lookup_2.
Qed.

(** The pages of a process in a tier, above level 0. *)
Definition warm_pages (s : ucm) (fastmem : bool) (p : ptr) : list ptr :=
  seqZ 1 (NUM_HOTNESS_LEVELS - 1) ≫= λ i, pages_of (u_plist s) (bin fastmem p i).

(** A request to cool, and the pass that follows it. *)
Definition cool_tier (fastmem : bool) (p : ptr) : M ucm (option ptr) :=
  proc_cool_async fastmem true p;;
  partial_cool_impl fastmem p.

Lemma warm_pages_spec s A R W fastmem p x :
  ucm_inv s A R W →
  x ∈ warm_pages s fastmem p ↔ ∃ j, 1 ≤ j < NUM_HOTNESS_LEVELS ∧ x ∈ A (bin fastmem p j).
Proof.
  intros HI. unfold warm_pages. rewrite list_elem_of_bind. setoid_rewrite elem_of_seqZ.
  setoid_rewrite (pages_of_spec _ A _ (I_dll HI)). split; intros (j&?&?); exists j; auto with lia.
Qed.

Lemma wp_cool_tier s A R fastmem p r :
  ucm_inv s A R None → u_procs s !! p = Some r →
  cur_cool fastmem (pr_mm r) = None → cur_cool_list fastmem (pr_mm r) = 0 →
  2 * Z.of_nat (length (warm_pages s fastmem p)) < 16384 →
  let clock := tier_upd (tier_of fastmem) (λ n, u64 (n + 1)) (pr_process_clock r) in
  let c := λ x, match u_pages s !! x with Some pg => decayed_index clock pg | None => 0 end in
  wp (cool_tier fastmem p) (λ o s', o = None ∧ ∃ s1 R1 r1, u_procs s1 !! p = Some r1 ∧
    pr_process_clock r1 = clock ∧ u_pages s1 = u_pages s ∧ pass_ended fastmem p c R1 None s1 A s') s.
Proof.
  intros HI Hr Hcur Hlist Hlen clock c. unfold cool_tier. wp_step.
  eapply wp_mono; [by eapply (wp_proc_cool_async s A R HI fastmem true p r)|].
  intros [] s1 ([(R1&HI1&_) _ _ _ _]&Hp1&Hr1). cbn [orb] in Hr1.
  assert (u_procs s1 !! p = Some (cooled_proc fastmem r)) as Hr1' by (by rewrite Hr1, lookup_insert_eq).
  eapply wp_mono; [eapply (wp_cool_pass fastmem p clock c (warm_pages s fastmem p) R1 None (or_introl eq_refl) s1 A
    (cooled_proc fastmem r) HI1 Hr1')|]; try (by destruct fastmem).
  - intros x pg Hx. unfold c. by rewrite <- Hp1, Hx.
  - intros j y Hj Hy. eapply warm_pages_spec; eauto.
  - unfold COOLING_PAGES. lia.
  - intros o s' [-> Hend]. split; [done|]. exists s1, R1, (cooled_proc fastmem r). split_and!; [done| |done|done].
    by destruct fastmem.
Qed.

Section tiering.
Context (alloc_mode : ALLOC_MODE) (map_nspid_to_pid : Z → Z → Z).
Context (use_shm : bool) (migration_ends : ptr → bool) (wait_time_us : Z).
Context (wake : Z → Z → Z → ioctl_result) (writeprotect : Z → Z → Z → bool → ioctl_result).
Context (Hk : kernel_ok migration_ends wake writeprotect).
Context (fsz ssz fptr sptr : Z) (Ht : good_tiers fsz ssz fptr sptr).
Local Notation reach := (reachable alloc_mode map_nspid_to_pid use_shm migration_ends wait_time_us wake
  writeprotect fsz ssz fptr sptr).

(** C21: the hottest page is chosen.  [find_hottest_slowmem_page] takes the
    first page of the slow tier that may migrate again from the highest level
    that has one, and finds none only when no level from
    [PEBS_MIN_PROMOTION_TIER] on has one. *)
Theorem hottest_page_chosen sv p r :
  reach sv → u_procs (sv_ucm sv) !! p = Some r →
  let s := sv_ucm sv in
  ∃ o s', find_hottest_slowmem_page p s = Ok o s' ∧
    match o with
    | None => s' = s ∧ ∀ i y, PEBS_MIN_PROMOTION_TIER ≤ i < NUM_HOTNESS_LEVELS →
        y ∈ pages_of (u_plist s) (SlowBin p i) → ¬ eligible s y
    | Some x => ∃ i b a, PEBS_MIN_PROMOTION_TIER ≤ i < NUM_HOTNESS_LEVELS ∧
        pages_of (u_plist s) (SlowBin p i) = b ++ x :: a ∧
        pages_of (u_plist s') (SlowBin p i) = b ++ a ∧
        eligible s x ∧ (∀ y, y ∈ b → ¬ eligible s y) ∧
        ∀ j y, i < j < NUM_HOTNESS_LEVELS → y ∈ pages_of (u_plist s) (SlowBin p j) → ¬ eligible s y
    end.
Proof using Hk Ht.
  intros Hsv Hr s. destruct (reachable_ok _ _ _ _ _ _ _ Hk _ _ _ _ sv Ht Hsv) as (L&A&R&[[HI _ _] _]).
  set (js := reverse (seqZ PEBS_MIN_PROMOTION_TIER (NUM_HOTNESS_LEVELS - PEBS_MIN_PROMOTION_TIER))).
  assert (∀ i, i ∈ js ↔ PEBS_MIN_PROMOTION_TIER ≤ i < NUM_HOTNESS_LEVELS) as Hjs.
  { intros i. unfold js. rewrite elem_of_reverse, elem_of_seqZ. lia. }
  assert (wp (find_hottest_slowmem_page p) (λ o s', match o with
     | None => s' = s ∧ ∀ i y, i ∈ js → y ∈ A (bin false p i) → ¬ eligible s y
     | Some x => ∃ js1 i js2, js = js1 ++ i :: js2 ∧ picked s A (bin false p i) x s' ∧
         ∀ j y, j ∈ js1 → y ∈ A (bin false p j) → ¬ eligible s y
     end) s) as Hw.
  { unfold find_hottest_slowmem_page, ucm_get_curr_epoch. do 2 wp_step.
    apply (wp_scan_lists s A R HI p r Hr false js). intros i Hi%Hjs. unfold PEBS_MIN_PROMOTION_TIER in Hi. lia. }
  unfold wp in Hw. destruct (find_hottest_slowmem_page p s) as [o s'|]; [|done]. exists o, s'. split; [done|].
  pose proof (I_dll HI) as Hd. destruct o as [x|].
  - destruct Hw as (js1&i&js2&Hsplit&(b&a&h&HA&He&Hb&->&Hdh&_)&Hn). exists i, b, a.
    change (SlowBin p) with (bin false p). rec_simpl.
    rewrite (pages_of_spec _ A), (pages_of_spec h _ _ Hdh), fn_lookup_insert by done.
    split_and!; [apply Hjs; rewrite Hsplit; set_solver..|done|done|done|done|].
    intros j y Hj. rewrite (pages_of_spec _ A) by done. apply Hn.
    eapply reverse_seqZ_before; [exact Hsplit|lia].
  - destruct Hw as [-> Hn]. split; [done|]. intros i y Hi. change (SlowBin p) with (bin false p).
    rewrite (pages_of_spec _ A) by done. apply Hn. by apply Hjs.
Qed.

(** C36: a pass of cooling halves what the levels are computed from.  A request
    to cool a tier of a process for which no pass is under way advances the
    clock of the tier by one; the pass after it ends with the request done, as
    long as the levels above 0 have fewer than 8192 pages, and leaves every
    page that was above level 0 at the level of its counters, each halved as
    often as its clock is behind.  The pages of level 0 stay, no field of any
    page but [pg_hot] changes, and no list of another tier or process does. *)
Theorem cooling_pass_halves sv p r fastmem :
  reach sv → u_procs (sv_ucm sv) !! p = Some r →
  cur_cool fastmem (pr_mm r) = None → cur_cool_list fastmem (pr_mm r) = 0 →
  let s := sv_ucm sv in
  2 * Z.of_nat (length (warm_pages s fastmem p)) < 16384 →
  let clock := tier_upd (tier_of fastmem) (λ n, u64 (n + 1)) (pr_process_clock r) in
  (∀ x pg, x ∈ warm_pages s fastmem p → u_pages s !! x = Some pg → in_step clock pg) →
  ∃ s' r', cool_tier fastmem p s = Ok None s' ∧ u_procs s' !! p = Some r' ∧
    need_cool fastmem (pr_mm r') = false ∧ pr_process_clock r' = clock ∧
    (∀ x, unlevelled <$> u_pages s' !! x = unlevelled <$> u_pages s !! x) ∧
    (∀ i x pg, 0 ≤ i < NUM_HOTNESS_LEVELS → x ∈ pages_of (u_plist s) (bin fastmem p i) → u_pages s !! x = Some pg →
       let j := if i =? 0 then 0 else cooled_level clock pg in
       x ∈ pages_of (u_plist s') (bin fastmem p j) ∧ u_pages s' !! x = Some (pg <| pg_hot := j |>)) ∧
    ∀ l, (∀ i, l ≠ bin fastmem p i) → pages_of (u_plist s') l = pages_of (u_plist s) l.
Proof using Hk Ht.
  intros Hsv Hr Hcur Hlist s Hlen clock Hstep.
  destruct (reachable_ok _ _ _ _ _ _ _ Hk _ _ _ _ sv Ht Hsv) as (L&A&R&[[HI _ _] _]). fold s in HI, Hr.
  set (c := λ x, match u_pages s !! x with Some pg => decayed_index clock pg | None => 0 end).
  assert (∀ x, x ∈ warm_pages s fastmem p ↔ ∃ j, 1 ≤ j < NUM_HOTNESS_LEVELS ∧ x ∈ A (bin fastmem p j)) as HM
    by (intros x; by eapply warm_pages_spec).
  pose proof (wp_cool_tier s A R fastmem p r HI Hr Hcur Hlist Hlen) as Hw. cbv zeta in Hw. fold clock in Hw. fold c in Hw.
  unfold wp in Hw. destruct (cool_tier fastmem p s) as [o s'|]; [|done].
  destruct Hw as (->&s1&R1&r1&Hr1&Hclock&Hp1&A'&HI'&[Hz Hcold Hoth Hpages Hkept Hset]&Hlev&r'&Hr'&Hneed).
  exists s', r'. split_and!; [done..| | | |].
  - destruct (kept_proc _ _ _ _ Hkept Hr1) as (r2&Hr2&Hk2). unfold proc_keep in Hk2. congruence.
  - intros x. by rewrite (Hpages x), Hp1.
  - intros i x pg Hi Hx Hpg j. rewrite (pages_of_spec _ A _ (I_dll HI)) in Hx.
    rewrite (pages_of_spec _ A' _ (I_dll HI')).
    assert (x ∈ A' (bin fastmem p j)) as Hxj.
    { unfold j. destruct (Z.eqb_spec i 0) as [->|Hi0]; [by apply Hz|].
      rewrite <- (decayed_index_level clock pg) by (apply (Hstep x); [apply HM; exists i; auto with lia|done]).
      destruct (proj2 (proj1 Hset fastmem p x)) as (k&Hk1&Hxk); [by exists i|].
      assert (c x = decayed_index clock pg) as <- by (unfold c; by rewrite Hpg).
      destruct (decide (k = 0)) as [->|Hk0]; [|by rewrite (Hlev k x) by (done || lia)].
      destruct (Hcold x Hxk) as [Hx0|Hc]; [|by rewrite Hc].
      by destruct (bins_unique _ _ (I_dll HI) _ _ _ _ _ _ _ Hx Hx0) as (_&_&?). }
    split; [done|]. destruct (I_used HI' Hxj) as (pg'&r3&Hpg'&_&Hu). specialize (Hpages x).
    rewrite Hpg', Hp1, Hpg in Hpages. apply (inj Some) in Hpages. rewrite Hpg'. f_equal.
    apply up_hot in Hu. rewrite <- Hu. by apply unlevelled_level.
  - intros l Hl. rewrite (pages_of_spec _ A' _ (I_dll HI')), (pages_of_spec _ A _ (I_dll HI)). by apply Hoth.
Qed.

Definition migrate_bytes (dst : bool) (p : ptr) (bytes : Z) : M ucm Z :=
  if dst then process_migrate_up_bytes writeprotect p bytes
  else process_migrate_down_bytes writeprotect p bytes.

(** C20: migration keeps to its budget.  A process whose frees have been carried
    out moves whole pages, at most one page more than was asked for and never
    more than the rate; what one tier loses the other gains. *)
Theorem migration_within_budget sv p r dst bytes :
  reach sv → u_procs (sv_ucm sv) !! p = Some r →
  ring_buf_empty (mm_free_page_ring (pr_mm r)) = true →
  ∃ n s', migrate_bytes dst p bytes (sv_ucm sv) = Ok (n * HUGEPAGE_SIZE) s' ∧ 0 ≤ n ∧
    (n = 0 ∨ n * HUGEPAGE_SIZE < bytes + HUGEPAGE_SIZE) ∧ n * HUGEPAGE_SIZE ≤ PEBS_MIGRATE_RATE ∧
    bin_bytes s' dst p = bin_bytes (sv_ucm sv) dst p + n * HUGEPAGE_SIZE ∧
    bin_bytes s' (negb dst) p = bin_bytes (sv_ucm sv) (negb dst) p - n * HUGEPAGE_SIZE.
Proof using Hk Ht.
  intros Hsv Hr He. destruct (reachable_ok _ _ _ _ _ _ _ Hk _ _ _ _ sv Ht Hsv) as (L&A&R&[[HI _ Hrd] _]).
  pose proof (free_ring_empty _ _ _ _ _ HI Hr He) as Hf. pose proof (k_writeprotect _ _ _ Hk) as Hwp.
  assert (wp (migrate_bytes dst p bytes) (migration_result (sv_ucm sv) A R p dst bytes) (sv_ucm sv)) as Hw.
  { destruct dst; [apply wp_process_migrate_up_bytes|apply wp_process_migrate_down_bytes]; eauto. }
  unfold wp in Hw. destruct (migrate_bytes dst p bytes (sv_ucm sv)) as [res s'|]; [|done].
  destruct Hw as [(A'&n&->&Hn&HI'&Hmg&_) Hask Hrate]. exists n, s'.
  rewrite !(bin_bytes_count s' A' R), !(bin_bytes_count (sv_ucm sv) A R) by done.
  pose proof (mg_count _ _ _ _ _ _ _ Hmg). pose proof (mg_count' _ _ _ _ _ _ _ Hmg).
  split_and!; [done|done| |done|lia|lia]. destruct Hask as [Hz|?]; [left|by right].
  unfold HUGEPAGE_SIZE in Hz. lia.
Qed.

(** C22: an unmap notification frees what the application unmapped and nothing
    else.  A page of the range leaves the page table unless the manager itself
    caused the notification, by a migration or a fixed mapping; such a page
    stays, and only its mark is taken off.  Pages outside the range and other
    processes are untouched. *)
Theorem unmap_frees_unless_marked sv p r start end_ :
  reach sv → u_procs (sv_ucm sv) !! p = Some r → 0 ≤ start ≤ end_ → end_ + HUGEPAGE_SIZE ≤ 2 ^ 64 →
  let s := sv_ucm sv in
  ∃ s' r', handle_page_unmap start end_ p s = Ok tt s' ∧ u_procs s' !! p = Some r' ∧
    (∀ va, va ∉ freed_range start (end_ - start) → mm_pages (pr_mm r') !! va = mm_pages (pr_mm r) !! va) ∧
    (∀ va x pg, va ∈ freed_range start (end_ - start) → mm_pages (pr_mm r) !! va = Some x →
       u_pages s !! x = Some pg →
       if spared pg then mm_pages (pr_mm r') !! va = Some x ∧ u_pages s' !! x = Some (mark_taken pg)
       else mm_pages (pr_mm r') !! va = None) ∧
    (∀ q, q ≠ p → u_procs s' !! q = u_procs s !! q) ∧ u_mem s' = u_mem s.
Proof using Hk Ht.
  intros Hsv Hr Hst He s. destruct (reachable_ok _ _ _ _ _ _ _ Hk _ _ _ _ sv Ht Hsv) as (L&A&R&[[HI _ _] _]).
  pose proof (wp_handle_page_unmap s A R HI p r Hr start end_ Hst He) as Hw. unfold wp in Hw.
  destruct (handle_page_unmap start end_ p s) as [[] s'|]; [|done].
  destruct Hw as [_ _ _ Hmem (r'&Hr'&Htab) Hoth _ Hsp]. exists s', r'.
  assert (freed_range start (end_ - start) = boundaries (start - start mod HUGEPAGE_SIZE)
    (Z.to_nat (page_count (end_ - (start - start mod HUGEPAGE_SIZE))))) as Hrange.
  { unfold freed_range, page_base. by replace (start + (end_ - start)) with end_ by lia. }
  rewrite Hrange. split_and!; [done|done| |..|done|done].
  - intros va Hva. by rewrite Htab, decide_False.
  - intros va x pg Hva Hx Hpg. pose proof (Hsp va x pg Hva Hx Hpg) as Hmark.
    rewrite Htab, decide_True, Hx by done. cbn. unfold spared_at. fold s in Hpg. rewrite Hpg.
    destruct (spared pg); [by split; [|apply Hmark]|done].
Qed.
End tiering.

(** C23: the manager starts with all memory free.  [main] makes one page struct
    for every frame of the two tiers, on the free list of its tier, and has no
    process. *)
Theorem boot_frees_all_frames fsz ssz fptr sptr :
  good_tiers fsz ssz fptr sptr →
  ∃ sv, boot fsz ssz fptr sptr srv_start = Ok tt sv ∧ u_procs (sv_ucm sv) = ∅ ∧
    ∀ d, let sz := if d : bool then fsz else ssz in
      Z.of_nat (length (pages_of (u_plist (sv_ucm sv)) (free_list d))) = sz / HUGEPAGE_SIZE ∧
      ∀ i, 0 ≤ i < sz / HUGEPAGE_SIZE → ∃ x pg, u_pages (sv_ucm sv) !! x = Some pg ∧
        x ∈ pages_of (u_plist (sv_ucm sv)) (free_list d) ∧ frame pg = (d, i * HUGEPAGE_SIZE).
Proof.
  intros (H1&H2&H3&_&_). pose proof (wp_mm_init fsz ssz fptr sptr H1 H2 H3) as Hw. unfold wp in Hw.
  unfold boot, zoom, mbind, M_bind. cbn [sv_ucm srv_start].
  destruct (mm_init fsz ssz fptr sptr ucm_start) as [[] s|]; [|done].
  destruct Hw as (A&[HI Hf Hs Hfr Hrest Hp]).
  assert (u_pq s = ProcQueue (PageLists ∅ {[ tt := PageList None None 0 ]}) ∅) as Hpq.
  { unfold rest in Hrest. by injection Hrest. }
  unfold proc_mgr_init, zoom. rewrite Hpq. unfold set_header, zoom, store. cbn [plists headers]. rewrite lookup_singleton_eq.
  eexists. split; [done|]. rec_simpl. split; [done|]. intros d.
  rewrite (pages_of_spec _ A) by apply HI. split; [by destruct d|].
  intros i Hi. destruct (Hfr d i Hi) as (x&pg&Hx&Hframe). exists x, pg. split_and!; [done| |done].
  destruct (I_total HI (ex_intro _ pg Hx)) as (l&Hl). injection Hframe as Hd _.
  assert (∀ q, is_Some (u_procs s !! q) → False) as Hno by (rewrite Hp; by intros q [? ?%lookup_empty_Some]).
  assert (∀ d q i, x ∈ A (bin d q i) → False) as Hbin.
  { intros d' q j Hb. destruct (I_used HI Hb) as (_&r&_&Hr&_). eapply (Hno q). eauto. }
  assert (∀ d', l = free_list d' → x ∈ A (free_list d)) as Hfree.
  { intros d' ->. destruct (I_free HI Hl) as (pg'&Hx'&[Hd' _ _ _ _ _ _ _ _ _]).
    rewrite Hx in Hx'. injection Hx' as <-. by rewrite <- Hd, Hd'. }
  destruct l as [| |q j|q j]; [by apply (Hfree true)|by apply (Hfree false)|by destruct (Hbin true q j)|
    by destruct (Hbin false q j)].
Qed.

(** ** Instances *)
Lemma hottest_page_chosen_witness :
  let s := sv_ucm (machine warm_apps) in
  ∃ o s', find_hottest_slowmem_page (the_proc s 42) s = Ok o s' ∧
    match o with
    | None => s' = s
    | Some x => ∃ i b a, pages_of (u_plist s) (SlowBin (the_proc s 42) i) = b ++ x :: a
    end.
Proof.
  pose proof (machine_reachable _ warm_apps_run) as Hsv. intros s.
  destruct (the_entry s 42 (mb 100)) as (r&_&_&[Hr _]&_); [vm_compute; reflexivity|].
  destruct (hottest_page_chosen FASTMEM_PREFERRED host_pid_of true always 1000 _ _ machine_kernel
    (mb 2) (mb 4) (mb 1) (mb 64) machine_tiers _ _ r Hsv Hr) as (o&s'&Hrun&Ho).
  exists o, s'. split; [exact Hrun|]. destruct o as [x|]; [|exact (proj1 Ho)].
  destruct Ho as (i&b&a&_&Hpages&_). exists i, b, a. exact Hpages.
Defined.

(** A hot page of the slow tier, its process and its counters: the hypotheses
    of [cooling_pass_halves], evaluated. *)
Definition cooling_readyb (s : ucm) (fastmem : bool) (pid : Z) : bool :=
  match the_struct s pid with
  | Some r =>
      let clock := tier_upd (tier_of fastmem) (λ n, u64 (n + 1)) (pr_process_clock r) in
      let warm := warm_pages s fastmem (the_proc s pid) in
      bool_decide (cur_cool fastmem (pr_mm r) = None) && (cur_cool_list fastmem (pr_mm r) =? 0) &&
      (0 <? Z.of_nat (length warm)) && (2 * Z.of_nat (length warm) <? 16384) &&
      forallb (λ x, match u_pages s !! x with Some pg => bool_decide (in_step clock pg) | None => true end) warm
  | None => false
  end.

Lemma cooling_ready s fastmem pid :
  cooling_readyb s fastmem pid = true →
  ∃ r, u_procs s !! the_proc s pid = Some r ∧ cur_cool fastmem (pr_mm r) = None ∧
    cur_cool_list fastmem (pr_mm r) = 0 ∧
    2 * Z.of_nat (length (warm_pages s fastmem (the_proc s pid))) < 16384 ∧
    (∀ x pg, x ∈ warm_pages s fastmem (the_proc s pid) → u_pages s !! x = Some pg →
       in_step (tier_upd (tier_of fastmem) (λ n, u64 (n + 1)) (pr_process_clock r)) pg).
Proof.
  unfold cooling_readyb, the_struct. destruct (u_procs s !! the_proc s pid) as [r|]; [|done].
  rewrite !andb_true_iff, forallb_forall. intros ((((Hc&Hl)&_)&Hn)&Hst). exists r.
  apply bool_decide_eq_true in Hc. apply Z.eqb_eq in Hl. apply Z.ltb_lt in Hn. split_and!; [done..|].
  intros x pg Hx Hpg. apply list_elem_of_In, Hst in Hx. rewrite Hpg in Hx. by apply bool_decide_eq_true in Hx.
Qed.

(** Two rounds without migration: the third page of the first application has
    a million accesses, and is on level 6 of the slow tier. *)
Definition hot_apps : list event :=
  warm_apps ++ [EvRound always false [] [0] [500000] qos_policy_state_init;
                EvRound always false [] [0] [500000] qos_policy_state_init].

Lemma cooling_pass_halves_witness :
  let s := sv_ucm (machine hot_apps) in
  ∃ x s', x ∈ pages_of (u_plist s) (SlowBin (the_proc s 42) 6) ∧
    cool_tier false (the_proc s 42) s = Ok None s' ∧ x ∈ pages_of (u_plist s') (SlowBin (the_proc s 42) 5).
Proof.
  assert (machine_runs hot_apps = true) as Hrun by (vm_compute; reflexivity).
  pose proof (machine_reachable _ Hrun) as Hsv. intros s.
  destruct (cooling_ready s false 42) as (r&Hr&Hc&Hl&Hn&Hst); [vm_compute; reflexivity|].
  destruct (the_entry_in s 42 (mb 102) (SlowBin (the_proc s 42) 6)) as (_&x&pg&_&Hpg&Hx); [vm_compute; reflexivity|].
  assert (from_option (λ r, forallb (λ x, from_option (λ pg, Z.eqb (cooled_level (tier_upd (tier_of false)
    (λ n, u64 (n + 1)) (pr_process_clock r)) pg) 5) false (u_pages s !! x))
    (pages_of (u_plist s) (SlowBin (the_proc s 42) 6))) false (the_struct s 42) = true) as H5 by (vm_compute; reflexivity).
  clear Hrun. subst s. revert Hsv r Hr Hc Hl Hn Hst x pg Hpg Hx H5. generalize (machine hot_apps).
  intros sv Hsv r Hr Hc Hl Hn Hst x pg Hpg Hx H5.
  unfold the_struct in H5. rewrite Hr in H5. cbn [from_option] in H5. rewrite forallb_forall in H5.
  pose proof (H5 x (proj1 (list_elem_of_In _ _) Hx)) as H5x. rewrite Hpg in H5x. apply Z.eqb_eq in H5x.
  destruct (cooling_pass_halves FASTMEM_PREFERRED host_pid_of true always 1000 _ _ machine_kernel
    (mb 2) (mb 4) (mb 1) (mb 64) machine_tiers _ _ r false Hsv Hr Hc Hl Hn Hst) as (s'&r'&Hs'&_&_&_&_&Hat&_).
  exists x, s'. split; [exact Hx|]. split; [exact Hs'|].
  assert (0 ≤ 6 < NUM_HOTNESS_LEVELS) as H6 by (unfold NUM_HOTNESS_LEVELS; lia).
  pose proof (proj1 (Hat 6 x pg H6 Hx Hpg)) as H. cbn [Z.eqb] in H. rewrite H5x in H. exact H.
Defined.

(** Demoting one page of the first application. *)
Lemma migration_within_budget_witness :
  let s := sv_ucm (machine warm_apps) in
  ∃ n s', migrate_bytes ready_protect false (the_proc s 42) (mb 1) s = Ok (n * HUGEPAGE_SIZE) s' ∧
    bin_bytes s' false (the_proc s 42) = bin_bytes s false (the_proc s 42) + n * HUGEPAGE_SIZE.
Proof.
  pose proof (machine_reachable _ warm_apps_run) as Hsv. intros s.
  destruct (the_freed s 42) as (r&Hr&He); [vm_compute; reflexivity|].
  destruct (migration_within_budget FASTMEM_PREFERRED host_pid_of true always 1000 _ _ machine_kernel
    (mb 2) (mb 4) (mb 1) (mb 64) machine_tiers _ _ r false (mb 1) Hsv Hr He) as (n&s'&Hrun&_&_&_&Hb&_).
  exists n, s'. exact (conj Hrun Hb).
Defined.

Lemma unmap_frees_unless_marked_witness :
  let sv := machine warm_apps in
  ∃ s' r r', u_procs (sv_ucm sv) !! the_proc (sv_ucm sv) 42 = Some r ∧
    handle_page_unmap (mb 100) (mb 101) (the_proc (sv_ucm sv) 42) (sv_ucm sv) = Ok tt s' ∧
    u_procs s' !! the_proc (sv_ucm sv) 42 = Some r' ∧
    mm_pages (pr_mm r') !! mb 102 = mm_pages (pr_mm r) !! mb 102.
Proof.
  pose proof (machine_reachable _ warm_apps_run) as Hsv. intros sv.
  destruct (the_entry (sv_ucm sv) 42 (mb 100)) as (r&_&_&[Hr _]&_); [vm_compute; reflexivity|].
  change (machine warm_apps) with sv in Hsv. clearbody sv.
  destruct (unmap_frees_unless_marked FASTMEM_PREFERRED host_pid_of true always 1000 _ _ machine_kernel
    (mb 2) (mb 4) (mb 1) (mb 64) machine_tiers sv _ r (mb 100) (mb 101) Hsv Hr) as (s'&r'&Hrun&Hr'&Hout&_);
    [by vm_compute|by vm_compute|].
  exists s', r, r'. split; [exact Hr|]. split; [exact Hrun|]. split; [exact Hr'|]. apply Hout.
  apply (bool_decide_unpack (mb 102 ∉ _)). vm_compute. exact I.
Defined.

Lemma boot_frees_all_frames_witness :
  ∃ sv, boot (mb 2) (mb 4) (mb 1) (mb 64) srv_start = Ok tt sv ∧
    Z.of_nat (length (pages_of (u_plist (sv_ucm sv)) SlowFree)) = 4.
Proof.
  destruct (boot_frees_all_frames (mb 2) (mb 4) (mb 1) (mb 64) machine_tiers) as (sv&Hrun&_&Hd).
  exists sv. split; [exact Hrun|]. exact (proj1 (Hd false)).
Defined.
