(* ===== verification/Findings.v ===== *)
(** * Runs that go wrong

    What the code does in situations that the hypotheses of the other theorems
    exclude.  The first two sections are about every state that can be reached;
    the others evaluate a run of the machine of Machine.v. *)

From S2P Require Import Prelude Fifo Ring F64 ProcList Types Hotness Mm MmAsync Ucm Process Telem Migrate Qos Inv UcmWp RequestOk ProcessOk TelemOk MigrateOk MigrateRun MigrateExit EpochOk EvolveOk Ipc IpcOk FaultOk ServerOk App AppOk Machine Mapping Tiering.

Definition error_of {S T} (r : outcome S T) : option err :=
  match r with Ok _ _ => None | Err e => Some e end.
Definition state_of {T} (r : outcome ucm T) : ucm := match r with Ok _ s => s | Err _ => ucm_start end.

(** ** A free that is still pending *)

(** The pages of a process in the order in which they are removed. *)
Definition removal_order (s : ucm) (p : ptr) : list ptr := removal_lists p ≫= pages_of (u_plist s).

Notation not_in_table := (Undefined "HASH_DELETE of an object that is not in the table").

Section reached.
Context (alloc_mode : ALLOC_MODE) (map_nspid_to_pid : Z → Z → Z).
Context (use_shm : bool) (migration_ends : ptr → bool) (wait_time_us : Z).
Context (wake : Z → Z → Z → ioctl_result) (writeprotect : Z → Z → Z → bool → ioctl_result).
Context (Hk : kernel_ok migration_ends wake writeprotect).
Context (fsz ssz fptr sptr : Z) (Ht : good_tiers fsz ssz fptr sptr).
Local Notation reach := (reachable alloc_mode map_nspid_to_pid use_shm migration_ends wait_time_us wake
  writeprotect fsz ssz fptr sptr).

(** C39: a process that leaves, or is found dead, while a free of its is pending.
    [free_mem_list] removes every page of every list of the process, also one
    that has left the page table and waits in the free ring.  As soon as such a
    page comes before one that is still in the table, in the order of the
    lists (the fast tier before the slow one, the colder level first), the page
    is deleted from the table a second time.  A comment in mm-async.c says that
    this case is fine. *)
Theorem removal_with_pending_free sv fd pid p b x a y :
  let s := sv_ucm sv in
  reach sv → u_proc_map s !! pid = Some p →
  removal_order s p = b ++ x :: a → pendingb s x = true → y ∈ a → pendingb s y = false →
  process_msg alloc_mode map_nspid_to_pid fd (RemoveProcess pid) sv = Err not_in_table ∧
  ∀ alive, alive pid = false → (∀ q r, q ≠ p → u_procs s !! q = Some r → alive (pr_pid r) = true) →
    proc_mgr_prune alive s = Err not_in_table.
Proof using Hk Ht.
  intros s Hsv Hp Hord Hx Hy Hny. destruct (reachable_ok _ _ _ _ _ _ _ Hk _ _ _ _ sv Ht Hsv) as (L&A&R&[Hso _]).
  pose proof Hso as [HI HM _]. fold s in Hso, HI, HM.
  assert (removal_lists p ≫= A = b ++ x :: a) as HA.
  { rewrite <- Hord. unfold removal_order. apply list_bind_ext; [|done]. intros l. by rewrite (pages_of_spec _ A _ (I_dll HI)). }
  pose proof Hp as (HpL&r&Hr&Hpid)%(M_map HM). apply list_elem_of_split in HpL as (pb&pa&HL).
  assert (∀ s' R', ucm_inv s' A R' None → mgr_inv s' L ∅ → u_pages s' = u_pages s →
    ucm_remove_process p s' = Err not_in_table) as Hfail.
  { intros s' R' HI' HM' Hpg. eapply (ucm_remove_process_waiting s' A R' L ∅ p pb pa b x a y); try done; [set_solver..| |];
      unfold pendingb; by rewrite Hpg. }
  split.
  - apply wpx_must. cbn [process_msg]. unfold ipc_handle_remove_process. apply wpx_bind, wpx_bind, wpx_zoom. fold s.
    wpx_next. eapply (wp_find_process _ L ∅ HM). rewrite Hp. wpx_next.
    eapply wp_mono; [by eapply (wp_set_proc_obs s A R HI p r)|]. intros [] s1 (Hob&Hpg&_).
    destruct (observed_sound _ _ _ _ _ _ Hso Hob) as (R1&[HI1 HM1 _]&_). unfold wpx. by rewrite (Hfail s1 R1).
  - intros alive Hdead Halive. eapply (prune_fails alive s L p pb pa); [done..| | |by eapply Hfail].
    + intros q r' Hq Hr'. apply (Halive q); [|done]. intros ->.
      pose proof (dll_nodup (M_dll HM) tt) as Hnd. simpl in Hnd. rewrite HL in Hnd. apply NoDup_app in Hnd. set_solver.
    + intros r' Hr'. by simplify_eq.
Qed.
(** ** An application that exits during a migration *)

(** C40: an application that exits between the choice of a page and the answer
    to the remap request stops the manager.  [migrate_down_process] and
    [migrate_up_process] hold the lock of the process while its pages are
    migrated.  Whenever there is a page to migrate and a free frame for it, and
    the answer is that the application has exited, [ucm_migrate_one_page]
    removes the process, and [process_list_remove] waits forever for the lock
    that its own caller holds. *)
Theorem exit_during_migration_deadlocks sv p r dst bytes i y va ok replies :
  let s := sv_ucm sv in
  reach sv → u_procs s !! p = Some r → ring_buf_empty (mm_free_page_ring (pr_mm r)) = true →
  0 < bytes → i ∈ levels dst → y ∈ pages_of (u_plist s) (bin (negb dst) p i) → eligible s y →
  pages_of (u_plist s) (free_list dst) ≠ [] →
  (lock_process p;; migrate_bytes writeprotect dst p bytes)
    (s <| u_ipc := AppReply IPC_APP_EXITED va ok :: replies |>) = Err SelfDeadlock.
Proof using Hk Ht.
  intros s Hsv Hr He Hb Hi Hy Hel Hfree.
  destruct (reachable_ok _ _ _ _ _ _ _ Hk _ _ _ _ sv Ht Hsv) as (L&A&R&[[HI HM [_ Hptr Hlk]] Hlist]).
  fold s in HI, HM, Hptr, Hlk. pose proof (free_ring_empty _ _ _ _ _ HI Hr He) as Hf.
  rewrite (pages_of_spec _ A _ (I_dll HI)) in Hy. rewrite (pages_of_spec _ A _ (I_dll HI)) in Hfree.
  assert (p ∈ L) as (b&a&HL)%list_elem_of_split by (apply Hlist; eauto).
  assert (p ∉ b) as Hpb.
  { pose proof (dll_nodup (M_dll HM) tt) as Hnd. simpl in Hnd. rewrite HL in Hnd. apply NoDup_app in Hnd. set_solver. }
  set (s1 := s <| u_ipc := AppReply IPC_APP_EXITED va ok :: replies |> <| u_pq ::= λ q, q <| held := {[ inr p ]} |> |>).
  assert (lock_process p (s <| u_ipc := AppReply IPC_APP_EXITED va ok :: replies |>) = Ok tt s1) as Hlock.
  { unfold lock_process, zoom, lock. rec_simpl. rewrite (M_held HM), decide_False by set_solver.
    rewrite (right_id_L ∅ (∪)). reflexivity. }
  unfold mbind, M_bind. rewrite Hlock.
  assert (ucm_inv s1 A R None) as HI1 by (destruct HI; by split).
  assert (mgr_inv s1 L {[ inr p ]}) as HM1 by (eapply mgr_locks; [apply HM|done..]).
  eapply (migrate_exited writeprotect (k_writeprotect _ _ _ Hk) s1 A R HI1 p r Hr Hf L {[ inr p ]} HM1 b a HL);
    [set_solver..|done|done|reflexivity|done|].
  split; [|done]. by exists i, y.
Qed.
End reached.

(** ** Instances *)

(** The first application frees one of its three pages; no round follows. *)
Definition pending_free : list event := warm_apps ++ [EvMessage 7 (FreeSpace 42 (mb 101) (mb 1))].

(** The order of the pages of a process, with a page that waits before one that
    does not. *)
Fixpoint pending_beforeb (s : ucm) (xs : list ptr) : bool :=
  match xs with
  | [] => false
  | x :: xs => pendingb s x && existsb (λ y, negb (pendingb s y)) xs || pending_beforeb s xs
  end.

Lemma pending_beforeb_sound s xs :
  pending_beforeb s xs = true →
  ∃ b x a y, xs = b ++ x :: a ∧ pendingb s x = true ∧ y ∈ a ∧ pendingb s y = false.
Proof.
  induction xs as [|x xs IH]; [done|]. cbn [pending_beforeb].
  intros [[Hx (y&Hy&Hny)%existsb_exists]%andb_true_iff|(b&x'&a&y&->&Hr)%IH]%orb_true_iff.
  - exists [], x, xs, y. apply negb_true_iff in Hny. by apply list_elem_of_In in Hy.
  - by exists (x :: b), x', a, y.
Qed.

Lemma removal_with_pending_free_witness :
  let sv := machine pending_free in
  process_msg FASTMEM_PREFERRED host_pid_of 7 (RemoveProcess 42) sv = Err not_in_table ∧
  proc_mgr_prune (λ pid, negb (pid =? 42)) (sv_ucm sv) = Err not_in_table.
Proof.
  assert (machine_runs pending_free = true) as Hrun by (vm_compute; reflexivity).
  pose proof (machine_reachable _ Hrun) as Hsv. intros sv.
  assert (u_proc_map (sv_ucm sv) !! 42 = Some (the_proc (sv_ucm sv) 42)) as Hm by (vm_compute; reflexivity).
  destruct (pending_beforeb_sound (sv_ucm sv) (removal_order (sv_ucm sv) (the_proc (sv_ucm sv) 42)))
    as (b&x&a&y&Hord&Hx&Hy&Hny); [vm_compute; reflexivity|].
  assert (forallb (λ '(q, r), bool_decide (q = the_proc (sv_ucm sv) 42) || negb (pr_pid r =? 42))
    (map_to_list (u_procs (sv_ucm sv))) = true) as Hoth by (vm_compute; reflexivity).
  change (machine pending_free) with sv in Hsv. clearbody sv. clear Hrun.
  destruct (removal_with_pending_free FASTMEM_PREFERRED host_pid_of true always 1000 _ _ machine_kernel
    (mb 2) (mb 4) (mb 1) (mb 64) machine_tiers sv 7 42 _ b x a y Hsv Hm Hord Hx Hy Hny) as [H1 H2].
  split; [exact H1|]. apply H2; [reflexivity|]. intros q r Hq Hr. rewrite forallb_forall in Hoth.
  specialize (Hoth (q, r) (proj1 (list_elem_of_In _ _) (proj2 (elem_of_map_to_list _ q r) Hr))). cbn in Hoth.
  rewrite bool_decide_false in Hoth by exact Hq. exact Hoth.
Defined.

(** The process has a page that is old enough, on a level that is scanned, and
    the other tier has a free frame. *)
Definition migratableb (s : ucm) (dst : bool) (p : ptr) : bool :=
  existsb (λ i, existsb (λ y, match u_pages s !! y with
    | Some pg => min_migration_epoch pg <=? u_scan_epoch s | None => false end)
    (pages_of (u_plist s) (bin (negb dst) p i))) (levels dst) &&
  bool_decide (pages_of (u_plist s) (free_list dst) ≠ []).

Lemma migratableb_sound s dst p :
  migratableb s dst p = true →
  ∃ i y, i ∈ levels dst ∧ y ∈ pages_of (u_plist s) (bin (negb dst) p i) ∧ eligible s y ∧
    pages_of (u_plist s) (free_list dst) ≠ [].
Proof.
  intros [(i&Hi&(y&Hy&He)%existsb_exists)%existsb_exists Hf%bool_decide_eq_true]%andb_true_iff.
  apply list_elem_of_In in Hi, Hy. exists i, y. split_and!; [done..| |done].
  destruct (u_pages s !! y) as [pg|] eqn:Hpg; [|done]. exists pg. split; [done|lia].
Qed.

Lemma exit_during_migration_deadlocks_witness :
  let s := sv_ucm (machine warm_apps) in
  (lock_process (the_proc s 42);; migrate_bytes ready_protect false (the_proc s 42) (mb 1))
    (s <| u_ipc := [AppReply IPC_APP_EXITED None true] |>) = Err SelfDeadlock.
Proof.
  pose proof (machine_reachable _ warm_apps_run) as Hsv. intros s.
  destruct (the_freed s 42) as (r&Hr&He); [vm_compute; reflexivity|].
  destruct (migratableb_sound s false (the_proc s 42)) as (i&y&Hi&Hy&Hel&Hf); [vm_compute; reflexivity|].
  exact (exit_during_migration_deadlocks FASTMEM_PREFERRED host_pid_of true always 1000 _ _ machine_kernel
    (mb 2) (mb 4) (mb 1) (mb 64) machine_tiers _ _ r false (mb 1) i y None true [] Hsv Hr He eq_refl Hi Hy Hel Hf).
Defined.

(** A whole round of the core loop in which this happens. *)
Lemma exit_stops_round :
  let sv := (machine warm_apps) <| sv_ucm ::= λ s, s <| u_ipc := [AppReply IPC_APP_EXITED None true] |> |> in
  error_of (machine_step hot_round sv) = Some SelfDeadlock.
Proof. vm_compute. reflexivity. Qed.

(** ** Several userfaultfds at once *)
Definition machine_faults : list (Z * bool) → list read_result → M srv (list read_result) :=
  handle_faults FASTMEM_PREFERRED true always 1000 ready_kernel.
Definition unmap_first : read_result := READ_MSGS [UFFD_EVENT_UNMAP (mb 100) (mb 101)].

(** The loop over the ready descriptors and the loop over the messages of
    one share their counter.  When two descriptors are ready with a message
    each, the second is not read and its page stays; when three are, the third
    is read twice instead of the second, the second time in vain. *)
Theorem fault_loop_skips_descriptors :
  match machine_faults [(20, true); (21, true)] [unmap_first; unmap_first] (machine warm_apps) with
  | Ok rest sv => rest = [unmap_first] ∧ mappedb (sv_ucm sv) 42 (mb 100) = false ∧
      mappedb (sv_ucm sv) 43 (mb 100) = true
  | Err _ => False
  end ∧
  match machine_faults [(20, true); (21, true); (20, true)] [unmap_first; unmap_first; READ_AGAIN]
    (machine warm_apps) with
  | Ok rest sv => rest = [] ∧ mappedb (sv_ucm sv) 43 (mb 100) = true
  | Err _ => False
  end.
Proof. split; vm_compute; repeat split. Qed.

(** ** A fault on memory that was never allocated *)
Definition in_some_list (s : ucm) (x : ptr) : bool :=
  existsb (λ '(l, _), bool_decide (x ∈ pages_of (u_plist s) l)) (map_to_list (headers (u_plist s))).
Definition faulted : ucm :=
  let s := sv_ucm (machine warm_apps) in
  state_of (handle_page_fault FASTMEM_PREFERRED true always 1000 ready_kernel (mb 300 + 9) 0 (the_proc s 43) s).

(** The page that [handle_missing_fault_unallocated] allocates is mapped for
    the process but is put on none of its lists: it is never cooled, never
    migrated, and not returned when the process leaves. *)
Theorem faulted_page_in_no_list :
  mappedb faulted 43 (mb 300) = true ∧ (in_some_list faulted <$> the_page faulted 43 (mb 300)) = Some false.
Proof. split; vm_compute; reflexivity. Qed.

(** ** A page that moves before it is mapped *)

(** The manager migrates a page after it has answered the allocation request;
    the application then maps the frame that the answer named. *)
Definition late_mapping : list event :=
  two_apps ++ [hot_round; hot_round] ++ map_events (sv_ucm (machine two_apps)).

(** Nothing keeps a page in its frame between the answer to an allocation
    request and the [mmap] of the application.  A page that is migrated in
    between is mapped to its old frame, which is free and will be given to
    another page. *)
Theorem late_mapping_is_stale :
  let s := sv_ucm (machine late_mapping) in
  machine_runs late_mapping = true ∧
  u_app s !! (42, mb 102) = Some (SLOWMEM, 0) ∧ (the_page s 42 (mb 102) ≫= frame_of s) = Some (FASTMEM, mb 1) ∧
  existsb (λ x, bool_decide (frame_of s x = Some (SLOWMEM, 0))) (pages_of (u_plist s) SlowFree) = true.
Proof. split; [|split; [|split]]; vm_compute; reflexivity. Qed.

(** ** Fixed mappings *)
Definition fixed_again : outcome app Z :=
  mmap43 (mb 100) (mb 1) 3 (Z.lor MAP_FIXED (Z.lor MAP_PRIVATE MAP_ANONYMOUS)) (-1) 0
    (app43 (machine (warm_apps ++ [EvWrite 43 (mb 100) 3 99]))).

(** A fixed anonymous mapping over memory of the application keeps the old
    bytes, although a new anonymous mapping is zero, and counts the memory a
    second time. *)
Lemma fixed_mapping_not_zeroed :
  match fixed_again with
  | Ok p a => p = mb 100 ∧ app_byte (sv_ucm (ap_srv a)) 43 (mb 100) 3 = Some 99 ∧
      (mm_mem_allocated ∘ pr_mm <$> the_struct (sv_ucm (ap_srv a)) 43) = Some (mb 2)
  | Err _ => False
  end.
Proof. vm_compute. repeat split. Qed.

(** ** A process that registers again *)
Definition one_half : f64 := f64_div (f64_of_Z 1) (f64_of_Z 2).
Definition registers_again : list event := [
  EvMessage 7 (AddProcess (AddProcessRequest ratio_zero 42 0 false) 20);
  EvMessage 8 (AddProcess (AddProcessRequest one_half 43 0 false) 21);
  EvMessage 7 (AddProcess (AddProcessRequest (f64_of_Z 1) 42 0 false) 20)].

(** Its new target takes effect, but its place in the list stays: the list is
    not ordered by target any more. *)
Lemma new_target_keeps_place :
  let s := sv_ucm (machine registers_again) in
  machine_runs registers_again = true ∧
  target_miss_ratio s <$> pages_of (plists (u_pq s)) tt = [f64_of_Z 1; one_half] ∧
  f64_lt one_half (f64_of_Z 1) = true.
Proof. split; [|split]; vm_compute; reflexivity. Qed.
