(* ===== verification/Bits.v ===== *)
(** * Words of bits (src/libs/util/include/util/bitops.h)

    Machine words as integers, with the rotations, the bit fields and the
    shuffles of the utility library, and the counts of zeros and ones that
    the compiler provides.  [word w x] says that [x] is a value of the [w]-bit
    unsigned type.

    The lemmas describe a word by its bits: [by_bits] reduces an equation of
    words to one of the bits at an arbitrary position, and the rewrite
    database [bits] evaluates that bit. *)

From S2P Require Import Prelude.

Definition word (w x : Z) : Prop := 0 ≤ x < 2 ^ w.
Definition trunc (w x : Z) : Z := x mod 2 ^ w.

(** [~x], [x << n] and [~0] in a type of [w] bits. *)
Definition wnot (w x : Z) : Z := trunc w (Z.lnot x).
Definition shl (w x n : Z) : Z := trunc w (Z.shiftl x n).
Definition all_ones (w : Z) : Z := wnot w 0.

Definition BITS_PER_LONG : Z := 64.
Definition DIV_ROUND_UP (n d : Z) : Z := u64 (n + d - 1) / d.
Definition BITS_TO_LONGS (nr : Z) : Z := DIV_ROUND_UP nr BITS_PER_LONG.
Definition BIT_WORD (nr : Z) : Z := nr / BITS_PER_LONG.

(** The built-ins [__builtin_ctzll], [__builtin_clzll] and
    [__builtin_popcountll] on the low [n] bits. *)
Fixpoint trailing_zeros (n : nat) (x : Z) : Z :=
  match n with
  | O => 0
  | S n' => if Z.odd x then 0 else 1 + trailing_zeros n' (Z.div2 x)
  end.
Fixpoint leading_zeros (n : nat) (x : Z) : Z :=
  match n with
  | O => 0
  | S n' => if Z.testbit x (Z.of_nat n') then 0 else 1 + leading_zeros n' x
  end.
Fixpoint popcount (n : nat) (x : Z) : Z :=
  match n with
  | O => 0
  | S n' => Z.b2z (Z.odd x) + popcount n' (Z.div2 x)
  end.

Definition clz64 (val : Z) : Z := if val =? 0 then 64 else leading_zeros 64 val.
Definition ctz64 (val : Z) : Z := if val =? 0 then 64 else trailing_zeros 64 val.
Definition ctpop64 (val : Z) : Z := popcount 64 val.

(** ** Rotations *)
Definition rol (w word shift : Z) : Z :=
  trunc w (Z.lor (Z.shiftl word shift) (Z.shiftr word (Z.land (u32 (w - shift)) (w - 1)))).
Definition ror (w word shift : Z) : Z :=
  trunc w (Z.lor (Z.shiftr word shift) (Z.shiftl word (Z.land (u32 (w - shift)) (w - 1)))).
Definition rol8 : Z → Z → Z := rol 8.
Definition ror8 : Z → Z → Z := ror 8.
Definition rol16 : Z → Z → Z := rol 16.
Definition ror16 : Z → Z → Z := ror 16.
Definition rol32 : Z → Z → Z := rol 32.
Definition ror32 : Z → Z → Z := ror 32.
Definition rol64 : Z → Z → Z := rol 64.
Definition ror64 : Z → Z → Z := ror 64.

Definition hswap32 (h : Z) : Z := rol32 h 16.
Definition hswap64 (h : Z) : Z :=
  let m := 0x0000ffff0000ffff in
  let h := rol64 h 32 in
  Z.lor (shl 64 (Z.land h m) 16) (Z.land (Z.shiftr h 16) m).
Definition wswap64 (h : Z) : Z := rol64 h 32.

(** ** Bit fields

    [None] is a failed assertion. *)
Definition field_ok (w start length : Z) : bool :=
  (0 <=? start) && (0 <? length) && (length <=? w - start).

Definition extract (w value start length : Z) : option Z :=
  if field_ok w start length
  then Some (Z.land (Z.shiftr value start) (Z.shiftr (all_ones w) (w - length)))
  else None.
Definition extract32 : Z → Z → Z → option Z := extract 32.
Definition extract64 : Z → Z → Z → option Z := extract 64.
Definition extract8 (value start length : Z) : option Z :=
  if field_ok 8 start length then extract32 value start length else None.
Definition extract16 (value start length : Z) : option Z :=
  if field_ok 16 start length then extract32 value start length else None.

(** [signed w x]: the value of the [w]-bit word [x] in two's complement. *)
Definition signed (w x : Z) : Z := trunc w (x + 2 ^ (w - 1)) - 2 ^ (w - 1).

Definition sextract (w value start length : Z) : option Z :=
  if field_ok w start length
  then Some (Z.shiftr (signed w (shl w value (w - length - start))) (w - length))
  else None.
Definition sextract32 : Z → Z → Z → option Z := sextract 32.
Definition sextract64 : Z → Z → Z → option Z := sextract 64.

Definition deposit (w value start length fieldval : Z) : option Z :=
  if field_ok w start length then
    let mask := shl w (Z.shiftr (all_ones w) (w - length)) start in
    Some (Z.lor (Z.land value (wnot w mask)) (Z.land (shl w fieldval start) mask))
  else None.
Definition deposit32 : Z → Z → Z → Z → option Z := deposit 32.
Definition deposit64 : Z → Z → Z → Z → option Z := deposit 64.

(** ** Shuffles *)
Definition half_shuffle32 (x : Z) : Z :=
  let x := Z.lor (shl 32 (Z.land x 0xFF00) 8) (Z.land x 0x00FF) in
  let x := Z.land (Z.lor (shl 32 x 4) x) 0x0F0F0F0F in
  let x := Z.land (Z.lor (shl 32 x 2) x) 0x33333333 in
  Z.land (Z.lor (shl 32 x 1) x) 0x55555555.

Definition half_shuffle64 (x : Z) : Z :=
  let x := Z.lor (shl 64 (Z.land x 0xFFFF0000) 16) (Z.land x 0xFFFF) in
  let x := Z.land (Z.lor (shl 64 x 8) x) 0x00FF00FF00FF00FF in
  let x := Z.land (Z.lor (shl 64 x 4) x) 0x0F0F0F0F0F0F0F0F in
  let x := Z.land (Z.lor (shl 64 x 2) x) 0x3333333333333333 in
  Z.land (Z.lor (shl 64 x 1) x) 0x5555555555555555.

Definition half_unshuffle32 (x : Z) : Z :=
  let x := Z.land x 0x55555555 in
  let x := Z.land (Z.lor (Z.shiftr x 1) x) 0x33333333 in
  let x := Z.land (Z.lor (Z.shiftr x 2) x) 0x0F0F0F0F in
  let x := Z.land (Z.lor (Z.shiftr x 4) x) 0x00FF00FF in
  Z.land (Z.lor (Z.shiftr x 8) x) 0x0000FFFF.

Definition half_unshuffle64 (x : Z) : Z :=
  let x := Z.land x 0x5555555555555555 in
  let x := Z.land (Z.lor (Z.shiftr x 1) x) 0x3333333333333333 in
  let x := Z.land (Z.lor (Z.shiftr x 2) x) 0x0F0F0F0F0F0F0F0F in
  let x := Z.land (Z.lor (Z.shiftr x 4) x) 0x00FF00FF00FF00FF in
  let x := Z.land (Z.lor (Z.shiftr x 8) x) 0x0000FFFF0000FFFF in
  Z.land (Z.lor (Z.shiftr x 16) x) 0x00000000FFFFFFFF.

(** ** Words by their bits *)
Lemma testbit_trunc w x i : 0 ≤ w → Z.testbit (trunc w x) i = (i <? w) && Z.testbit x i.
Proof.
  intros Hw. unfold trunc. destruct (Z.ltb_spec i w); simpl.
  - apply Z.mod_pow2_bits_low. lia.
  - apply Z.mod_pow2_bits_high. lia.
Qed.

Lemma testbit_wnot w x i :
  0 ≤ w → 0 ≤ i → Z.testbit (wnot w x) i = (i <? w) && negb (Z.testbit x i).
Proof. intros. unfold wnot. rewrite testbit_trunc, Z.lnot_spec by lia. done. Qed.

Lemma testbit_shl w x n i :
  0 ≤ w → 0 ≤ i → Z.testbit (shl w x n) i = (i <? w) && Z.testbit x (i - n).
Proof. intros. unfold shl. rewrite testbit_trunc, Z.shiftl_spec by lia. done. Qed.

Lemma testbit_all_ones w i : 0 ≤ w → 0 ≤ i → Z.testbit (all_ones w) i = (i <? w).
Proof. intros. unfold all_ones. rewrite testbit_wnot, Z.bits_0 by lia. apply andb_true_r. Qed.

Lemma testbit_word w x i : 0 ≤ w → word w x → w ≤ i → Z.testbit x i = false.
Proof.
  intros Hw [H0 H1] Hi. destruct (decide (x = 0)) as [->|]; [apply Z.bits_0|].
  apply Z.bits_above_log2; [lia|]. assert (Z.log2 x < w); [|lia]. apply Z.log2_lt_pow2; lia.
Qed.

Lemma word_trunc w x : 0 ≤ w → word w (trunc w x).
Proof. intros. apply Z.mod_pos_bound. lia. Qed.

Lemma trunc_small w x : word w x → trunc w x = x.
Proof. apply Z.mod_small. Qed.

Lemma word_of_bits w x :
  0 ≤ w → (∀ i, w ≤ i → Z.testbit x i = false) → word w x.
Proof.
  intros Hw Hx. enough (x = trunc w x) as -> by by apply word_trunc.
  apply Z.bits_inj'. intros i Hi. rewrite testbit_trunc by done.
  destruct (Z.ltb_spec i w); simpl; [done|]. by apply Hx.
Qed.

Lemma shiftr_spec x n i : 0 ≤ i → Z.testbit (Z.shiftr x n) i = Z.testbit x (i + n).
Proof. apply Z.shiftr_spec. Qed.

Lemma shiftl_spec x n i : 0 ≤ i → Z.testbit (Z.shiftl x n) i = Z.testbit x (i - n).
Proof. apply Z.shiftl_spec. Qed.

#[export] Hint Rewrite testbit_trunc testbit_wnot testbit_shl testbit_all_ones shiftr_spec
  shiftl_spec Z.land_spec Z.lor_spec Z.lxor_spec Z.ldiff_spec Z.bits_0 using lia : bits.

Ltac by_bits i := apply Z.bits_inj'; intros i ?; autorewrite with bits.

Lemma word_land w x y : 0 ≤ w → word w y → word w (Z.land x y).
Proof.
  intros Hw Hy. apply word_of_bits; [done|]. intros i Hi.
  by rewrite Z.land_spec, (testbit_word w y), andb_false_r.
Qed.

Lemma word_lor w x y : 0 ≤ w → word w x → word w y → word w (Z.lor x y).
Proof.
  intros Hw Hx Hy. apply word_of_bits; [done|]. intros i Hi.
  by rewrite Z.lor_spec, (testbit_word w x), (testbit_word w y).
Qed.

Lemma word_zero w x : 0 ≤ w → word w x → x = 0 ↔ ∀ i, 0 ≤ i < w → Z.testbit x i = false.
Proof.
  intros Hw Hx. split; [intros -> i _; apply Z.bits_0|]. intros H. apply Z.bits_inj'. intros i Hi.
  rewrite Z.bits_0. destruct (decide (i < w)); [by apply H|]. apply (testbit_word w); [done..|lia].
Qed.

Lemma word_nonzero w x : 0 ≤ w → word w x → x ≠ 0 → ∃ i, 0 ≤ i < w ∧ Z.testbit x i = true.
Proof.
  intros Hw Hx Hn. exists (Z.log2 x). destruct Hx. split; [|apply Z.bit_log2; lia].
  split; [apply Z.log2_nonneg|]. apply Z.log2_lt_pow2; lia.
Qed.

(** ** Counts *)
Lemma testbit_div2 x i : 0 ≤ i → Z.testbit (Z.div2 x) i = Z.testbit x (i + 1).
Proof. intros. by rewrite Z.div2_spec, Z.shiftr_spec. Qed.

Lemma trailing_zeros_spec n x :
  let z := trailing_zeros n x in
  0 ≤ z ≤ Z.of_nat n ∧ (z < Z.of_nat n → Z.testbit x z = true) ∧
  ∀ j, 0 ≤ j < z → Z.testbit x j = false.
Proof.
  revert x. induction n as [|n IH]; intros x; simpl; [split_and!; intros; lia|].
  destruct (Z.odd x) eqn:Ho; rewrite <- Z.bit0_odd in Ho; [split_and!; [lia..|done|intros; lia]|].
  destruct (IH (Z.div2 x)) as ([? ?]&Ht&Hz). split_and!; [lia..| |].
  - intros Hlt. rewrite Z.add_comm, <- testbit_div2 by lia. apply Ht. lia.
  - intros j Hj. destruct (decide (j = 0)) as [->|]; [done|].
    replace j with (j - 1 + 1) by lia. rewrite <- testbit_div2 by lia. apply Hz. lia.
Qed.

Lemma ctz64_spec x :
  word 64 x → x ≠ 0 →
  0 ≤ ctz64 x < 64 ∧ Z.testbit x (ctz64 x) = true ∧ ∀ j, 0 ≤ j < ctz64 x → Z.testbit x j = false.
Proof.
  intros Hx Hn. unfold ctz64. rewrite (proj2 (Z.eqb_neq _ _) Hn).
  destruct (trailing_zeros_spec 64 x) as ([? ?]&Ht&Hz).
  destruct (word_nonzero 64 x) as (i&?&Hi); [lia|done..|].
  assert (trailing_zeros 64 x < 64).
  { destruct (decide (i < trailing_zeros 64 x)); [|lia]. rewrite Hz in Hi; [done|lia]. }
  split_and!; [lia..| |done]. apply Ht. lia.
Qed.

Lemma leading_zeros_spec n x :
  let z := leading_zeros n x in
  0 ≤ z ≤ Z.of_nat n ∧ (z < Z.of_nat n → Z.testbit x (Z.of_nat n - 1 - z) = true) ∧
  ∀ j, Z.of_nat n - z ≤ j < Z.of_nat n → Z.testbit x j = false.
Proof.
  induction n as [|n IH]; [simpl; split_and!; intros; lia|]. cbn [leading_zeros].
  destruct (Z.testbit x (Z.of_nat n)) eqn:Ho.
  { split_and!; [lia..| |intros; lia]. intros _. rewrite <- Ho. f_equal. lia. }
  destruct IH as ([? ?]&Ht&Hz). split_and!; [lia..| |].
  - intros Hlt. rewrite <- Ht by lia. f_equal. lia.
  - intros j Hj. destruct (decide (j = Z.of_nat n)) as [->|]; [done|]. apply Hz. lia.
Qed.

Lemma clz64_spec x :
  word 64 x → x ≠ 0 →
  0 ≤ clz64 x < 64 ∧ Z.testbit x (63 - clz64 x) = true ∧
  ∀ j, 63 - clz64 x < j < 64 → Z.testbit x j = false.
Proof.
  intros Hx Hn. unfold clz64. rewrite (proj2 (Z.eqb_neq _ _) Hn).
  destruct (leading_zeros_spec 64 x) as ([? ?]&Ht&Hz).
  destruct (word_nonzero 64 x) as (i&?&Hi); [lia|done..|].
  assert (leading_zeros 64 x < 64).
  { destruct (decide (64 - leading_zeros 64 x ≤ i)); [|lia]. rewrite Hz in Hi; [done|lia]. }
  split_and!; [lia..| |].
  - rewrite <- Ht by lia. f_equal.
  - intros j Hj. apply Hz. lia.
Qed.

(** The number of positions below [n] that satisfy [f]. *)
Definition count_bits (f : Z → bool) (n : Z) : Z := Z.of_nat (length (filter (λ i, f i = true) (seqZ 0 n))).

Lemma filter_agree (f g : Z → bool) (l : list Z) :
  (∀ i, i ∈ l → f i = g i) → filter (λ i, f i = true) l = filter (λ i, g i = true) l.
Proof.
  induction l as [|i l IH]; intros Hfg; [done|]. rewrite !filter_cons, IH by set_solver.
  by rewrite (Hfg i) by set_solver.
Qed.

Lemma filter_shift (f : Z → bool) n (l : list Z) :
  length (filter (λ i, f i = true) (Z.add n <$> l)) = length (filter (λ i, f (n + i) = true) l).
Proof.
  induction l as [|i l IH]; [done|]. rewrite fmap_cons, !filter_cons.
  destruct (decide (f (n + i) = true)); cbn [length]; by rewrite IH.
Qed.

Lemma count_bits_ext f g n : (∀ i, 0 ≤ i < n → f i = g i) → count_bits f n = count_bits g n.
Proof.
  intros Hfg. unfold count_bits. do 2 f_equal. apply filter_agree.
  intros i [? ?]%elem_of_seqZ. apply Hfg. lia.
Qed.

Lemma count_bits_add f n m :
  0 ≤ n → 0 ≤ m → count_bits f (n + m) = count_bits f n + count_bits (λ i, f (n + i)) m.
Proof.
  intros Hn Hm. unfold count_bits. rewrite seqZ_app, filter_app, length_app, Nat2Z.inj_add by done.
  do 2 f_equal. replace (0 + n) with (n + 0) by lia. rewrite <- fmap_add_seqZ.
  apply filter_shift.
Qed.

Lemma count_bits_nonpos f n : n ≤ 0 → count_bits f n = 0.
Proof. intros. unfold count_bits. by rewrite seqZ_nil. Qed.

Lemma count_bits_none f n : (∀ i, 0 ≤ i < n → f i = false) → count_bits f n = 0.
Proof.
  intros Hf. rewrite (count_bits_ext f (λ _, false)) by done. unfold count_bits.
  induction (seqZ 0 n) as [|i l IH]; [done|]. by rewrite filter_cons.
Qed.

Lemma count_bits_range f n : 0 ≤ n → 0 ≤ count_bits f n ≤ n.
Proof.
  intros. unfold count_bits. pose proof (length_filter (λ i, f i = true) (seqZ 0 n)).
  rewrite length_seqZ in *. lia.
Qed.

Lemma count_bits_first f : count_bits f 1 = Z.b2z (f 0).
Proof. unfold count_bits. cbn [seqZ]. change (seqZ 0 1) with [0]. rewrite filter_cons, filter_nil. by destruct (f 0). Qed.

Lemma popcount_spec n x : popcount n x = count_bits (Z.testbit x) (Z.of_nat n).
Proof.
  revert x. induction n as [|n IH]; intros x; [done|]. cbn [popcount]. rewrite IH.
  rewrite Nat2Z.inj_succ, <- Z.add_1_l, count_bits_add by lia. f_equal.
  - by rewrite count_bits_first, Z.bit0_odd.
  - apply count_bits_ext. intros i Hi. rewrite testbit_div2 by lia. f_equal. lia.
Qed.

(** ** Rotations move bits around a circle *)
Definition width (w : Z) : Prop := w ∈ [8; 16; 32; 64].

Lemma width_cases w (P : Z → Prop) : width w → P 8 → P 16 → P 32 → P 64 → P w.
Proof. unfold width. rewrite !elem_of_cons, elem_of_nil. naive_solver. Qed.

Lemma width_pos w : width w → 0 < w ≤ 64.
Proof. intros Hw. by apply (width_cases w); [|lia..]. Qed.

Lemma rot_amount w shift :
  width w → 0 ≤ shift < w → Z.land (u32 (w - shift)) (w - 1) = (- shift) mod w.
Proof.
  intros Hw Hs. pose proof (width_pos _ Hw). rewrite u32_small by lia.
  assert (∃ k, 0 ≤ k ∧ w = 2 ^ k) as (k&Hk&->).
  { apply (width_cases w); [done|by exists 3|by exists 4|by exists 5|by exists 6]. }
  replace (2 ^ k - 1) with (Z.ones k) by (rewrite Z.ones_equiv; lia). rewrite Z.land_ones by done.
  by rewrite Zminus_mod, Z_mod_same_full, Zminus_mod_idemp_r.
Qed.

Lemma testbit_rol w x shift i :
  width w → word w x → 0 ≤ shift < w → 0 ≤ i < w →
  Z.testbit (rol w x shift) i = Z.testbit x ((i - shift) mod w).
Proof.
  intros Hw Hx Hs Hi. unfold rol. rewrite rot_amount by done. autorewrite with bits.
  rewrite (proj2 (Z.ltb_lt _ _)) by lia. simpl.
  destruct (decide (shift = 0)) as [->|].
  { rewrite Z.mod_0_l by lia. rewrite Z.sub_0_r, Z.add_0_r, orb_diag, Z.mod_small by lia. done. }
  rewrite <- (Z.mod_unique (- shift) w (-1) (w - shift)) by lia.
  destruct (decide (shift ≤ i)).
  - rewrite (testbit_word w x (i + _)), orb_false_r, Z.mod_small by (done || lia). done.
  - rewrite (Z.testbit_neg_r x (i - shift)) by lia. simpl. f_equal.
    apply (Z.mod_unique (i - shift) w (-1)); lia.
Qed.

Lemma testbit_ror w x shift i :
  width w → word w x → 0 ≤ shift < w → 0 ≤ i < w →
  Z.testbit (ror w x shift) i = Z.testbit x ((i + shift) mod w).
Proof.
  intros Hw Hx Hs Hi. unfold ror. rewrite rot_amount by done. autorewrite with bits.
  rewrite (proj2 (Z.ltb_lt _ _)) by lia. simpl.
  destruct (decide (shift = 0)) as [->|].
  { rewrite Z.mod_0_l by lia. rewrite Z.sub_0_r, Z.add_0_r, orb_diag, Z.mod_small by lia. done. }
  rewrite <- (Z.mod_unique (- shift) w (-1) (w - shift)) by lia.
  destruct (decide (i + shift < w)).
  - rewrite (Z.testbit_neg_r x (i - _)), orb_false_r, Z.mod_small by lia. done.
  - rewrite (testbit_word w x (i + shift)) by (done || lia). simpl. f_equal.
    apply (Z.mod_unique (i + shift) w 1); lia.
Qed.

Lemma word_rol w x shift : width w → word w (rol w x shift).
Proof. intros Hw. apply word_trunc. pose proof (width_pos _ Hw). lia. Qed.

Lemma word_ror w x shift : width w → word w (ror w x shift).
Proof. intros Hw. apply word_trunc. pose proof (width_pos _ Hw). lia. Qed.

(** Two words of [w] bits are equal when they agree below [w]. *)
Lemma word_inj w x y :
  0 ≤ w → word w x → word w y → (∀ i, 0 ≤ i < w → Z.testbit x i = Z.testbit y i) → x = y.
Proof.
  intros Hw Hx Hy Hxy. apply Z.bits_inj'. intros i Hi. destruct (decide (i < w)); [by apply Hxy|].
  rewrite !(testbit_word w) by (done || lia). done.
Qed.

Lemma rol_ror w x shift : width w → word w x → 0 ≤ shift < w → ror w (rol w x shift) shift = x.
Proof.
  intros Hw Hx Hs. pose proof (width_pos _ Hw).
  apply (word_inj w); [lia|by apply word_ror|done|]. intros i Hi.
  pose proof (Z.mod_pos_bound (i + shift) w).
  rewrite testbit_ror by (done || by apply word_rol). rewrite testbit_rol by (done || lia).
  rewrite Zminus_mod_idemp_l. f_equal. replace (i + shift - shift) with i by lia. by apply Z.mod_small.
Qed.

(** ** Bit fields *)
Lemma field_ok_spec w start length :
  field_ok w start length = true ↔ 0 ≤ start ∧ 0 < length ∧ start + length ≤ w.
Proof. unfold field_ok. rewrite !andb_true_iff, !Z.leb_le, Z.ltb_lt. lia. Qed.

Lemma testbit_low_mask w length i :
  0 ≤ length ≤ w → 0 ≤ i → Z.testbit (Z.shiftr (all_ones w) (w - length)) i = (i <? length).
Proof.
  intros. autorewrite with bits.
  destruct (Z.ltb_spec i length), (Z.ltb_spec (i + (w - length)) w); lia || done.
Qed.

Lemma testbit_extract w value start length v i :
  extract w value start length = Some v → 0 ≤ i →
  Z.testbit v i = (i <? length) && Z.testbit value (start + i).
Proof.
  unfold extract. destruct (field_ok _ _ _) eqn:Hf; [|done]. apply field_ok_spec in Hf.
  intros [= <-] Hi. rewrite Z.land_spec, testbit_low_mask, Z.shiftr_spec by lia.
  by rewrite andb_comm, (Z.add_comm i).
Qed.

Lemma testbit_deposit w value start length fieldval v i :
  deposit w value start length fieldval = Some v → 0 ≤ i < w →
  Z.testbit v i = if (start <=? i) && (i <? start + length) then Z.testbit fieldval (i - start)
                  else Z.testbit value i.
Proof.
  unfold deposit. destruct (field_ok _ _ _) eqn:Hf; [|done]. apply field_ok_spec in Hf.
  intros [= <-] Hi. autorewrite with bits. rewrite (proj2 (Z.ltb_lt i w)) by lia. simpl.
  destruct (Z.leb_spec start i); simpl.
  - rewrite testbit_low_mask by lia. destruct (Z.ltb_spec (i - start) length), (Z.ltb_spec i (start + length));
      try lia; simpl; by rewrite ?andb_false_r, ?andb_true_r, ?orb_false_r.
  - rewrite !(Z.testbit_neg_r _ (i - start)) by lia. simpl. by rewrite andb_true_r, orb_false_r.
Qed.

Lemma word_extract w value start length v :
  extract w value start length = Some v → word length v.
Proof.
  intros He. pose proof He as Hv. unfold extract in He.
  destruct (field_ok _ _ _) eqn:Hf; [|done]. apply field_ok_spec in Hf.
  apply word_of_bits; [lia|]. intros i Hi. rewrite (testbit_extract _ _ _ _ _ _ Hv) by lia.
  by rewrite (proj2 (Z.ltb_ge _ _)) by lia.
Qed.

Lemma word_deposit w value start length fieldval v :
  word w value → deposit w value start length fieldval = Some v → word w v.
Proof.
  intros Hv. unfold deposit. destruct (field_ok _ _ _) eqn:Hf; [|done]. apply field_ok_spec in Hf.
  intros [= <-]. apply word_of_bits; [lia|]. intros i Hi. autorewrite with bits.
  by rewrite (proj2 (Z.ltb_ge i w)), andb_false_r by lia.
Qed.

(** The signed field is the unsigned field read in two's complement. *)
Lemma testbit_signed w x i :
  0 < w → word w x → 0 ≤ i → Z.testbit (signed w x) i = Z.testbit x (Z.min i (w - 1)).
Proof.
  intros Hw Hx Hi. unfold signed, trunc. assert (2 ^ w = 2 * 2 ^ (w - 1)) as E.
  { rewrite <- Z.pow_succ_r by lia. f_equal. lia. }
  destruct Hx as [Hx0 Hx1]. destruct (Z.testbit x (w - 1)) eqn:Hs.
  - assert (2 ^ (w - 1) ≤ x).
    { destruct (decide (2 ^ (w - 1) ≤ x)); [done|].
      rewrite (testbit_word (w - 1) x) in Hs; [done|lia|split; lia|lia]. }
    rewrite <- (Z.mod_unique (x + 2 ^ (w - 1)) (2 ^ w) 1 (x - 2 ^ (w - 1))) by lia.
    replace (x - 2 ^ (w - 1) - 2 ^ (w - 1)) with (Z.lor x (Z.shiftl (-1) w)).
    + rewrite Z.lor_spec, Z.shiftl_spec by done. destruct (decide (i < w)).
      * rewrite (Z.testbit_neg_r (-1)), orb_false_r by lia. f_equal. lia.
      * rewrite Z.bits_m1, orb_true_r, Z.min_r by lia. done.
    + rewrite <- Z.lxor_lor, <- Z.add_nocarry_lxor.
      1: rewrite Z.shiftl_mul_pow2; lia.
      all: by_bits j; destruct (decide (j < w)); [rewrite (Z.testbit_neg_r (-1)) by lia; apply andb_false_r|];
        rewrite (testbit_word w x) by (done || lia); done.
  - assert (word (w - 1) x) as [_ ?].
    { apply word_of_bits; [lia|]. intros j Hj. destruct (decide (j = w - 1)) as [->|]; [done|].
      apply (testbit_word w); [lia|done|lia]. }
    rewrite Z.mod_small by lia. replace (x + 2 ^ (w - 1) - 2 ^ (w - 1)) with x by lia.
    destruct (decide (i < w)); [f_equal; lia|].
    rewrite Z.min_r, Hs by lia. apply (testbit_word w); [lia|done|lia].
Qed.

Lemma word_shl w x n : 0 ≤ w → word w (shl w x n).
Proof. apply word_trunc. Qed.

Lemma sextract_extract w value start length v :
  extract w value start length = Some v → sextract w value start length = Some (signed length v).
Proof.
  intros He. pose proof (word_extract _ _ _ _ _ He) as Hw. pose proof He as Hv.
  unfold extract in He. unfold sextract. destruct (field_ok _ _ _) eqn:Hf; [|done].
  apply field_ok_spec in Hf. clear He. f_equal. apply Z.bits_inj'. intros i Hi.
  rewrite testbit_signed, Z.shiftr_spec, testbit_signed by (lia || done || apply word_shl; lia).
  rewrite testbit_shl, (testbit_extract _ _ _ _ _ _ Hv) by lia.
  rewrite !(proj2 (Z.ltb_lt _ _)) by lia. simpl. f_equal. lia.
Qed.

Lemma deposit_extract w value start length fieldval v :
  deposit w value start length fieldval = Some v →
  extract w v start length = Some (trunc length fieldval).
Proof.
  intros Hd. assert (field_ok w start length = true) as Hf.
  { unfold deposit in Hd. by destruct (field_ok _ _ _). }
  destruct (extract w v start length) as [u|] eqn:He; [|unfold extract in He; by rewrite Hf in He].
  apply field_ok_spec in Hf. f_equal. apply Z.bits_inj'. intros i Hi.
  rewrite (testbit_extract _ _ _ _ _ _ He), testbit_trunc by lia.
  destruct (Z.ltb_spec i length); simpl; [|done].
  rewrite (testbit_deposit _ _ _ _ _ _ _ Hd) by lia.
  rewrite (proj2 (Z.leb_le _ _)), (proj2 (Z.ltb_lt _ _)) by lia. simpl. f_equal. lia.
Qed.

Lemma deposit_other w value start length fieldval v s l :
  word w value → deposit w value start length fieldval = Some v → s + l ≤ start ∨ start + length ≤ s →
  extract w v s l = extract w value s l.
Proof.
  intros Hw Hd Hs. destruct (extract w v s l) as [u|] eqn:He, (extract w value s l) as [u'|] eqn:He'.
  2-3: unfold extract in He, He'; by destruct (field_ok w s l).
  2: done.
  f_equal. apply Z.bits_inj'. intros i Hi.
  rewrite (testbit_extract _ _ _ _ _ _ He), (testbit_extract _ _ _ _ _ _ He') by lia.
  destruct (Z.ltb_spec i l); simpl; [|done].
  assert (field_ok w s l = true) as Hf by (unfold extract in He; by destruct (field_ok _ _ _)).
  apply field_ok_spec in Hf. rewrite (testbit_deposit _ _ _ _ _ _ _ Hd) by lia.
  destruct (Z.leb_spec start (s + i)), (Z.ltb_spec (s + i) (start + length)); done || lia.
Qed.

(** ** Shuffles

    [selects w M f x y]: below [w], the bits of [x] in the mask [M] are the
    bits of [y] at the positions [f] gives, and the others are zero.  Each
    step of a shuffle takes such an [x] to another, for masks and positions
    that are checked by evaluation. *)
Definition selects (w M : Z) (f : Z → Z) (x y : Z) : Prop :=
  ∀ i, 0 ≤ i < w → Z.testbit x i = Z.testbit M i && Z.testbit y (f i).

Definition step_check (w M : Z) (f : Z → Z) (s M' : Z) (f' : Z → Z) : bool :=
  forallb (λ i,
    let j := i - s in
    let moved := (0 <=? j) && (j <? w) && Z.testbit M j in
    implb (Z.testbit M' i)
      (if Z.testbit M i then negb moved && (f i =? f' i) else moved && (f j =? f' i))) (seqZ 0 w).

(** Shifting left by [s] (right for a negative [s]). *)
Lemma select_step w M f s M' f' x y :
  step_check w M f s M' f' = true → 0 ≤ w → word w x → selects w M f x y →
  selects w M' f' (Z.land (Z.lor (shl w x s) x) M') y.
Proof.
  unfold step_check. rewrite forallb_forall. intros Hc Hw Hx Hs i Hi.
  specialize (Hc i). rewrite <- list_elem_of_In, elem_of_seqZ in Hc. specialize (Hc ltac:(lia)).
  cbv zeta in Hc. autorewrite with bits. rewrite (proj2 (Z.ltb_lt i w)), (Hs i) by lia. simpl.
  destruct (Z.testbit M' i); simpl in Hc; [|by rewrite andb_false_r]. rewrite andb_true_r. simpl.
  assert (Z.testbit x (i - s) =
    (0 <=? i - s) && (i - s <? w) && Z.testbit M (i - s) && Z.testbit y (f (i - s))) as ->.
  { destruct (Z.leb_spec 0 (i - s)); [|by apply Z.testbit_neg_r].
    destruct (Z.ltb_spec (i - s) w); [by apply Hs|]. by apply (testbit_word w). }
  destruct (Z.testbit M i); apply andb_true_iff in Hc as [Hm <-%Z.eqb_eq].
  - apply negb_true_iff in Hm. by rewrite Hm.
  - rewrite Hm. simpl. apply orb_false_r.
Qed.

Lemma shl_neg w x s : 0 ≤ w → 0 ≤ s → word w x → shl w x (- s) = Z.shiftr x s.
Proof.
  intros Hw Hs Hx. by_bits i. rewrite Z.sub_opp_r. destruct (Z.ltb_spec i w); [done|].
  symmetry. apply (testbit_word w); [done..|lia].
Qed.

Lemma select_step_right w M f s M' f' x y :
  step_check w M f (- s) M' f' = true → 0 ≤ w → 0 ≤ s → word w x → selects w M f x y →
  selects w M' f' (Z.land (Z.lor (Z.shiftr x s) x) M') y.
Proof. intros ??? Hx ?. rewrite <- (shl_neg w) by done. by apply (select_step w M f). Qed.

Definition word_check (w x : Z) : bool := (0 <=? x) && (x <? 2 ^ w).

Lemma word_masked w x m : word_check w m = true → 0 ≤ w → word w (Z.land x m).
Proof. unfold word_check. intros [?%Z.leb_le ?%Z.ltb_lt]%andb_true_iff ?. by apply word_land. Qed.

(** Positions with blocks of [b] bits spread out, and gathered. *)
Definition spread_from (b i : Z) : Z := i / (2 * b) * b + i mod b.
Definition gather_from (b i : Z) : Z := i / (2 * b) * (2 * b) + 2 * (i mod b).

(** The first step of a shuffle: the upper half moves up by [s]. *)
Definition first_check (w m1 s m2 M : Z) (f : Z → Z) : bool :=
  forallb (λ i,
    let a := (0 <=? i - s) && Z.testbit m1 (i - s) in
    let b := Z.testbit m2 i in
    Bool.eqb (Z.testbit M i) (a || b) && implb a (i - s =? f i) && implb b (i =? f i)) (seqZ 0 w).

Lemma select_first w m1 s m2 M f x :
  first_check w m1 s m2 M f = true → 0 ≤ w →
  selects w M f (Z.lor (shl w (Z.land x m1) s) (Z.land x m2)) x.
Proof.
  unfold first_check. rewrite forallb_forall. intros Hc Hw i Hi.
  specialize (Hc i). rewrite <- list_elem_of_In, elem_of_seqZ in Hc. specialize (Hc ltac:(lia)).
  cbv zeta in Hc. apply andb_true_iff in Hc as [[->%eqb_prop Ha]%andb_true_iff Hb].
  autorewrite with bits. rewrite (proj2 (Z.ltb_lt i w)) by lia. simpl.
  destruct (Z.leb_spec 0 (i - s)); simpl in *; [|rewrite (Z.testbit_neg_r x (i - s)) by lia; simpl].
  - destruct (Z.testbit m1 (i - s)), (Z.testbit m2 i); simpl in *;
      try apply Z.eqb_eq in Ha as ->; try apply Z.eqb_eq in Hb as Hb;
      rewrite <- ?Hb, ?andb_true_r, ?andb_false_r, ?orb_false_r, ?orb_diag; done.
  - destruct (Z.testbit m2 i); simpl in *; [apply Z.eqb_eq in Hb as <-|];
      by rewrite ?andb_true_r, ?andb_false_r.
Qed.

(** Apply a step, with its masks and positions checked. *)
Ltac step_left M b := apply (select_step _ M (spread_from b));
  [vm_compute; reflexivity|lia|try (apply word_masked; [vm_compute; reflexivity|lia])|].
Ltac step_right M f := apply (select_step_right _ M f);
  [vm_compute; reflexivity|lia|lia|apply word_masked; [vm_compute; reflexivity|lia]|].

Lemma half_shuffle32_bits x : selects 32 0x55555555 (spread_from 1) (half_shuffle32 x) x.
Proof.
  unfold half_shuffle32. cbv zeta.
  step_left 0x33333333 2. step_left 0x0F0F0F0F 4. step_left 0x00FF00FF 8.
  - apply word_lor; [lia|by apply word_shl|by apply word_masked].
  - by apply select_first.
Qed.

Lemma half_shuffle64_bits x : selects 64 0x5555555555555555 (spread_from 1) (half_shuffle64 x) x.
Proof.
  unfold half_shuffle64. cbv zeta.
  step_left 0x3333333333333333 2. step_left 0x0F0F0F0F0F0F0F0F 4. step_left 0x00FF00FF00FF00FF 8.
  step_left 0x0000FFFF0000FFFF 16.
  - apply word_lor; [lia|by apply word_shl|by apply word_masked].
  - by apply select_first.
Qed.

Lemma select_mask w M x : selects w M id (Z.land x M) x.
Proof. intros i Hi. by rewrite Z.land_spec, andb_comm. Qed.

Lemma half_unshuffle32_bits x : selects 32 0x0000FFFF (gather_from 16) (half_unshuffle32 x) x.
Proof.
  unfold half_unshuffle32. cbv zeta.
  step_right 0x00FF00FF (gather_from 8). step_right 0x0F0F0F0F (gather_from 4).
  step_right 0x33333333 (gather_from 2). step_right 0x55555555 (@id Z). apply select_mask.
Qed.

Lemma half_unshuffle64_bits x : selects 64 0x00000000FFFFFFFF (gather_from 32) (half_unshuffle64 x) x.
Proof.
  unfold half_unshuffle64. cbv zeta.
  step_right 0x0000FFFF0000FFFF (gather_from 16). step_right 0x00FF00FF00FF00FF (gather_from 8).
  step_right 0x0F0F0F0F0F0F0F0F (gather_from 4). step_right 0x3333333333333333 (gather_from 2).
  step_right 0x5555555555555555 (@id Z). apply select_mask.
Qed.

Lemma word_half_shuffle64 x : word 64 (half_shuffle64 x).
Proof. by apply word_masked. Qed.

Lemma gather_spread i : 0 ≤ i → spread_from 1 (2 * i) = i.
Proof.
  intros. unfold spread_from. rewrite Z.mod_1_r, Z.add_0_r, !Z.mul_1_r, Z.mul_comm.
  by apply Z.div_mul.
Qed.

Lemma unshuffle_shuffle w (M M' x y z : Z) :
  0 ≤ w → word w z → word w x →
  selects (2 * w) M (spread_from 1) y x → selects (2 * w) M' (gather_from w) z y →
  (∀ i, 0 ≤ i < w → Z.testbit M (2 * i) = true ∧ Z.testbit M' i = true) → z = x.
Proof.
  intros Hw Hz Hx Hy Hzy HM. apply (word_inj w); [done..|]. intros i Hi.
  destruct (HM i Hi) as [H1 H2]. rewrite Hzy, H2 by lia. simpl.
  assert (gather_from w i = 2 * i) as ->.
  { unfold gather_from. rewrite Z.div_small, Z.mod_small by lia. lia. }
  rewrite Hy, H1, gather_spread by lia. done.
Qed.

Lemma even_mask_check w M M' :
  forallb (λ i, Z.testbit M (2 * i) && Z.testbit M' i) (seqZ 0 w) = true →
  ∀ i, 0 ≤ i < w → Z.testbit M (2 * i) = true ∧ Z.testbit M' i = true.
Proof.
  rewrite forallb_forall. intros Hc i Hi. specialize (Hc i).
  rewrite <- list_elem_of_In, elem_of_seqZ, andb_true_iff in Hc. apply Hc. lia.
Qed.

Lemma shuffle32_round_trip x : word 16 x → half_unshuffle32 (half_shuffle32 x) = x.
Proof.
  intros Hx. eapply (unshuffle_shuffle 16); [lia|by apply word_masked|done|
    apply half_shuffle32_bits|apply half_unshuffle32_bits|by apply even_mask_check].
Qed.

Lemma shuffle64_round_trip x : word 32 x → half_unshuffle64 (half_shuffle64 x) = x.
Proof.
  intros Hx. eapply (unshuffle_shuffle 32); [lia|by apply word_masked|done|
    apply half_shuffle64_bits|apply half_unshuffle64_bits|by apply even_mask_check].
Qed.

(** Bit fields round-trip.  Within the bounds that the functions assert, a
    deposited field is read back by [extract64] (its low [length] bits) and,
    in two's complement, by [sextract64], and no other field of the word is
    changed; shuffled words are restored by the inverse shuffle, and rotated
    words by the inverse rotation. *)
Theorem field_round_trip value start length fieldval :
  word 64 value → 0 ≤ start → 0 < length → start + length ≤ 64 →
  ∃ v, deposit64 value start length fieldval = Some v ∧ word 64 v ∧
    extract64 v start length = Some (trunc length fieldval) ∧
    sextract64 v start length = Some (signed length (trunc length fieldval)) ∧
    (∀ s l, s + l ≤ start ∨ start + length ≤ s → extract64 v s l = extract64 value s l) ∧
    (∀ x, word 32 x → half_unshuffle64 (half_shuffle64 x) = x) ∧
    (∀ n, 0 ≤ n < 64 → ror64 (rol64 value n) n = value).
Proof.
  intros Hv Hs Hl Hle. destruct (deposit64 value start length fieldval) as [v|] eqn:Hd.
  2: { unfold deposit64, deposit in Hd. by rewrite (proj2 (field_ok_spec 64 start length)) in Hd. }
  pose proof (deposit_extract _ _ _ _ _ _ Hd) as He. exists v. split_and!; [done| |done| | | |].
  - by apply (word_deposit _ _ _ _ _ _ Hv Hd).
  - by apply sextract_extract.
  - intros s l. by apply (deposit_other _ _ _ _ _ _ _ _ Hv Hd).
  - apply shuffle64_round_trip.
  - intros n Hn. apply rol_ror; [|done..]. unfold width. set_solver.
Qed.

Lemma field_round_trip_witness :
  ∃ v, deposit64 0x1122334455667788 8 12 0xFEDCB = Some v ∧ word 64 v ∧
    extract64 v 8 12 = Some (trunc 12 0xFEDCB) ∧
    sextract64 v 8 12 = Some (signed 12 (trunc 12 0xFEDCB)) ∧
    (∀ s l, s + l ≤ 8 ∨ 8 + 12 ≤ s → extract64 v s l = extract64 0x1122334455667788 s l) ∧
    (∀ x, word 32 x → half_unshuffle64 (half_shuffle64 x) = x) ∧
    (∀ n, 0 ≤ n < 64 → ror64 (rol64 0x1122334455667788 n) n = 0x1122334455667788).
Proof. apply (field_round_trip 0x1122334455667788 8 12 0xFEDCB); [split; lia|lia..]. Defined.
