(* ===== verification/Bitmap.v ===== *)
(** * Bitmaps (src/libs/util/bitmap.c, bitops.c, include/util/bitmap.h,
      include/util/bitops.h)

    Arrays of bits in words of 64 (or, for the functions on [uint32_t], 32)
    bits.  The state is the memory, a map from word addresses to words, so
    that two arguments of a function may be the same array.  An access outside
    the memory is [BadPointer].

    Integers of type [unsigned long] are wrapped with [u64] where the code
    computes with them; those of type [long] are bounded by hypotheses, as
    signed overflow is undefined. *)

From S2P Require Import Prelude Bits.

Abbreviation memory := (gmap Z Z).

Definition load (p : Z) : M memory Z := deref id p.
Definition put (p v : Z) : M memory unit := λ m,
  match m !! p with Some _ => Ok tt (<[p := v]> m) | None => Err BadPointer end.

Definition BITMAP_FIRST_WORD_MASK (start : Z) : Z := shl 64 (all_ones 64) (Z.land start (BITS_PER_LONG - 1)).
Definition BITMAP_LAST_WORD_MASK (nbits : Z) : Z := Z.shiftr (all_ones 64) (Z.land (- nbits) (BITS_PER_LONG - 1)).
Definition small_nbits (nbits : Z) : bool := nbits <=? BITS_PER_LONG.

(** ** Single bits, in words of [w] bits *)
Definition mask_of (w nr : Z) : Z := shl w 1 (nr mod w).

Definition set_bit_w (w nr addr : Z) : M memory unit :=
  let mask := mask_of w nr in
  let p := addr + nr / w in
  v ← load p;
  put p (Z.lor v mask).
Definition clear_bit_w (w nr addr : Z) : M memory unit :=
  let mask := mask_of w nr in
  let p := addr + nr / w in
  v ← load p;
  put p (Z.land v (wnot w mask)).
Definition change_bit_w (w nr addr : Z) : M memory unit :=
  let mask := mask_of w nr in
  let p := addr + nr / w in
  v ← load p;
  put p (Z.lxor v mask).
Definition test_and_set_bit_w (w nr addr : Z) : M memory bool :=
  let mask := mask_of w nr in
  let p := addr + nr / w in
  old ← load p;
  put p (Z.lor old mask);;
  mret (negb (Z.land old mask =? 0)).
Definition test_and_clear_bit_w (w nr addr : Z) : M memory bool :=
  let mask := mask_of w nr in
  let p := addr + nr / w in
  old ← load p;
  put p (Z.land old (wnot w mask));;
  mret (negb (Z.land old mask =? 0)).
Definition test_and_change_bit_w (w nr addr : Z) : M memory bool :=
  let mask := mask_of w nr in
  let p := addr + nr / w in
  old ← load p;
  put p (Z.lxor old mask);;
  mret (negb (Z.land old mask =? 0)).
Definition test_bit_w (w nr addr : Z) : M memory bool :=
  v ← load (addr + nr / w);
  mret (negb (Z.land 1 (Z.shiftr v (Z.land nr (w - 1))) =? 0)).

Definition set_bit : Z → Z → M memory unit := set_bit_w 64.
Definition clear_bit : Z → Z → M memory unit := clear_bit_w 64.
Definition change_bit : Z → Z → M memory unit := change_bit_w 64.
Definition test_and_set_bit : Z → Z → M memory bool := test_and_set_bit_w 64.
Definition test_and_clear_bit : Z → Z → M memory bool := test_and_clear_bit_w 64.
Definition test_and_change_bit : Z → Z → M memory bool := test_and_change_bit_w 64.
Definition test_bit : Z → Z → M memory bool := test_bit_w 64.
Definition set_bit32 : Z → Z → M memory unit := set_bit_w 32.
Definition clear_bit32 : Z → Z → M memory unit := clear_bit_w 32.
Definition change_bit32 : Z → Z → M memory unit := change_bit_w 32.
Definition test_and_set_bit32 : Z → Z → M memory bool := test_and_set_bit_w 32.
Definition test_and_clear_bit32 : Z → Z → M memory bool := test_and_clear_bit_w 32.
Definition test_and_change_bit32 : Z → Z → M memory bool := test_and_change_bit_w 32.
Definition test_bit32 : Z → Z → M memory bool := test_bit_w 32.

(** ** Searches *)
Definition found_middle (result tmp : Z) : Z := u64 (result + ctz64 tmp).
Definition found_first (result size tmp : Z) : Z :=
  let tmp := Z.land tmp (Z.shiftr (all_ones 64) (BITS_PER_LONG - size)) in
  if tmp =? 0 then u64 (result + size) else found_middle result tmp.

(** The cursor of a search: [p], [result] and [size]. *)
Abbreviation cursor := (Z * Z * Z)%type.

(** The loop over four words at a time; [inr (inl r)] is [goto found_middle]. *)
Definition next_four (c : cursor) : M memory (cursor + (Z + cursor)) :=
  let '(p, result, size) := c in
  if 4 * BITS_PER_LONG <=? size then
    tmp ← load p;
    d1 ← load (p + 1);
    d2 ← load (p + 2);
    d3 ← load (p + 3);
    if negb (tmp =? 0) then mret (inr (inl (found_middle result tmp)))
    else if negb (Z.lor (Z.lor d1 d2) d3 =? 0) then mret (inr (inr c))
    else mret (inl (p + 4, u64 (result + 4 * BITS_PER_LONG), u64 (size - 4 * BITS_PER_LONG)))
  else mret (inr (inr c)).

Definition next_one (c : cursor) : M memory (cursor + (Z + cursor)) :=
  let '(p, result, size) := c in
  if BITS_PER_LONG <=? size then
    tmp ← load p;
    if negb (tmp =? 0) then mret (inr (inl (found_middle result tmp)))
    else mret (inl (p + 1, u64 (result + BITS_PER_LONG), u64 (size - BITS_PER_LONG)))
  else mret (inr (inr c)).

(** Every round of a loop takes at least a word off [size]. *)
Definition search_fuel (size : Z) : nat := S (Z.to_nat (size / BITS_PER_LONG)).

(** From the first full word to the end. *)
Definition next_words (c : cursor) : M memory Z :=
  o ← loop (search_fuel c.2) next_four c;
  match o with
  | inl r => mret r
  | inr c =>
      o ← loop (search_fuel c.2) next_one c;
      match o with
      | inl r => mret r
      | inr (p, result, size) =>
          if size =? 0 then mret result
          else tmp ← load p; mret (found_first result size tmp)
      end
  end.

Definition find_next_bit (addr size offset : Z) : M memory Z :=
  let p := addr + BIT_WORD offset in
  let result := Z.land offset (wnot 64 (BITS_PER_LONG - 1)) in
  if size <=? offset then mret size
  else
    let size := u64 (size - result) in
    let offset := offset mod BITS_PER_LONG in
    if negb (offset =? 0) then
      tmp ← load p;
      let tmp := Z.land tmp (shl 64 (all_ones 64) offset) in
      if size <? BITS_PER_LONG then mret (found_first result size tmp)
      else if negb (tmp =? 0) then mret (found_middle result tmp)
      else next_words (p + 1, u64 (result + BITS_PER_LONG), u64 (size - BITS_PER_LONG))
    else next_words (p, result, size).

Definition found_zero_middle (result tmp : Z) : Z := u64 (result + ctz64 (wnot 64 tmp)).
Definition found_zero_first (result size tmp : Z) : Z :=
  let tmp := Z.lor tmp (shl 64 (all_ones 64) size) in
  if tmp =? all_ones 64 then u64 (result + size) else found_zero_middle result tmp.

Definition next_zero_one (c : cursor) : M memory (cursor + (Z + cursor)) :=
  let '(p, result, size) := c in
  if negb (Z.land size (wnot 64 (BITS_PER_LONG - 1)) =? 0) then
    tmp ← load p;
    if negb (wnot 64 tmp =? 0) then mret (inr (inl (found_zero_middle result tmp)))
    else mret (inl (p + 1, u64 (result + BITS_PER_LONG), u64 (size - BITS_PER_LONG)))
  else mret (inr (inr c)).

Definition next_zero_words (c : cursor) : M memory Z :=
  o ← loop (search_fuel c.2) next_zero_one c;
  match o with
  | inl r => mret r
  | inr (p, result, size) =>
      if size =? 0 then mret result
      else tmp ← load p; mret (found_zero_first result size tmp)
  end.

Definition find_next_zero_bit (addr size offset : Z) : M memory Z :=
  let p := addr + BIT_WORD offset in
  let result := Z.land offset (wnot 64 (BITS_PER_LONG - 1)) in
  if size <=? offset then mret size
  else
    let size := u64 (size - result) in
    let offset := offset mod BITS_PER_LONG in
    if negb (offset =? 0) then
      tmp ← load p;
      let tmp := Z.lor tmp (Z.shiftr (all_ones 64) (BITS_PER_LONG - offset)) in
      if size <? BITS_PER_LONG then mret (found_zero_first result size tmp)
      else if negb (wnot 64 tmp =? 0) then mret (found_zero_middle result tmp)
      else next_zero_words (p + 1, u64 (result + BITS_PER_LONG), u64 (size - BITS_PER_LONG))
    else next_zero_words (p, result, size).

Definition found_last (words tmp : Z) : Z :=
  u64 (u64 (u64 (words * BITS_PER_LONG) + BITS_PER_LONG - 1) - clz64 tmp).

Definition last_words (addr size : Z) (words : Z) : M memory (Z + Z) :=
  if negb (words =? 0) then
    let words := u64 (words - 1) in
    tmp ← load (addr + words);
    if negb (tmp =? 0) then mret (inr (found_last words tmp)) else mret (inl words)
  else mret (inr size).

Definition find_last_bit (addr size : Z) : M memory Z :=
  let words := size / BITS_PER_LONG in
  let rest := loop (S (Z.to_nat words)) (last_words addr size) words in
  let partial := Z.land size (BITS_PER_LONG - 1) in
  if negb (partial =? 0) then
    v ← load (addr + words);
    let tmp := Z.land v (Z.shiftr (all_ones 64) (BITS_PER_LONG - partial)) in
    if negb (tmp =? 0) then mret (found_last words tmp) else rest
  else rest.

Definition first_words (size : Z) (c : Z * Z) : M memory ((Z * Z) + Z) :=
  let '(addr, result) := c in
  if result <? size then
    tmp ← load addr;
    if negb (tmp =? 0) then
      let result := u64 (result + ctz64 tmp) in
      mret (inr (if result <? size then result else size))
    else mret (inl (addr + 1, u64 (result + BITS_PER_LONG)))
  else mret (inr size).
Definition find_first_bit (addr size : Z) : M memory Z :=
  loop (S (S (Z.to_nat (size / BITS_PER_LONG)))) (first_words size) (addr, 0).
Definition find_first_zero_bit (addr size : Z) : M memory Z := find_next_zero_bit addr size 0.

(** ** Whole bitmaps

    [scan_words f ks]: the loop [for (k = 0; k < n; ++k) if (f k) return 1;],
    for the list [ks] of the values of [k]. *)
Fixpoint scan_words (f : Z → M memory bool) (ks : list Z) : M memory bool :=
  match ks with
  | [] => mret false
  | k :: ks' => b ← f k; match b with true => mret true | false => scan_words f ks' end
  end.

(** The loop over the full words, and the bits of a last word that is not
    full: whether some [word k] has a bit set.  Two words differ when their
    [Z.lxor] has. *)
Definition scan_bitmap (word : Z → M memory Z) (bits : Z) : M memory bool :=
  let lim := bits / BITS_PER_LONG in
  b ← scan_words (λ k, v ← word k; mret (negb (v =? 0))) (seqZ 0 lim);
  match b with
  | true => mret true
  | false =>
  if negb (bits mod BITS_PER_LONG =? 0) then
    v ← word lim; mret (negb (Z.land v (BITMAP_LAST_WORD_MASK bits) =? 0))
  else mret false
  end.

Definition slow_bitmap_empty (bitmap bits : Z) : M memory bool :=
  b ← scan_bitmap (λ k, load (bitmap + k)) bits;
  mret (negb b).
Definition slow_bitmap_full (bitmap bits : Z) : M memory bool :=
  b ← scan_bitmap (λ k, v ← load (bitmap + k); mret (wnot 64 v)) bits;
  mret (negb b).
Definition slow_bitmap_equal (bitmap1 bitmap2 bits : Z) : M memory bool :=
  b ← scan_bitmap (λ k, v1 ← load (bitmap1 + k); v2 ← load (bitmap2 + k); mret (Z.lxor v1 v2)) bits;
  mret (negb b).
Definition slow_bitmap_intersects (bitmap1 bitmap2 bits : Z) : M memory bool :=
  scan_bitmap (λ k, v1 ← load (bitmap1 + k); v2 ← load (bitmap2 + k); mret (Z.land v1 v2)) bits.

Definition slow_bitmap_complement (dst src bits : Z) : M memory unit :=
  let lim := bits / BITS_PER_LONG in
  for_list (seqZ 0 lim) (λ k, v ← load (src + k); put (dst + k) (wnot 64 v));;
  when (negb (bits mod BITS_PER_LONG =? 0)) (
    v ← load (src + lim);
    put (dst + lim) (Z.land (wnot 64 v) (BITMAP_LAST_WORD_MASK bits))).

(** [dst[k] = op(bitmap1[k], bitmap2[k])] for the words from [k] on, with the
    union of the results. *)
Fixpoint combine_words (op : Z → Z → Z) (dst bitmap1 bitmap2 : Z) (ks : list Z) (result : Z) :
    M memory Z :=
  match ks with
  | [] => mret result
  | k :: ks' =>
      v1 ← load (bitmap1 + k);
      v2 ← load (bitmap2 + k);
      put (dst + k) (op v1 v2);;
      combine_words op dst bitmap1 bitmap2 ks' (Z.lor result (op v1 v2))
  end.
Definition combine (op : Z → Z → Z) (dst bitmap1 bitmap2 bits : Z) : M memory bool :=
  result ← combine_words op dst bitmap1 bitmap2 (seqZ 0 (BITS_TO_LONGS bits)) 0;
  mret (negb (result =? 0)).

Definition slow_bitmap_and : Z → Z → Z → Z → M memory bool := combine Z.land.
Definition slow_bitmap_or (dst bitmap1 bitmap2 bits : Z) : M memory unit :=
  _ ← combine Z.lor dst bitmap1 bitmap2 bits; mret tt.
Definition slow_bitmap_xor (dst bitmap1 bitmap2 bits : Z) : M memory unit :=
  _ ← combine Z.lxor dst bitmap1 bitmap2 bits; mret tt.
Definition slow_bitmap_andnot : Z → Z → Z → Z → M memory bool :=
  combine (λ v1 v2, Z.land v1 (wnot 64 v2)).

Fixpoint count_words (bitmap : Z) (ks : list Z) (result : Z) : M memory Z :=
  match ks with
  | [] => mret result
  | k :: ks' => v ← load (bitmap + k); count_words bitmap ks' (result + ctpop64 v)
  end.
Definition slow_bitmap_count_one (bitmap nbits : Z) : M memory Z :=
  let lim := nbits / BITS_PER_LONG in
  result ← count_words bitmap (seqZ 0 lim) 0;
  if negb (nbits mod BITS_PER_LONG =? 0) then
    v ← load (bitmap + lim);
    mret (result + ctpop64 (Z.land v (BITMAP_LAST_WORD_MASK nbits)))
  else mret result.

(** ** Ranges of bits: [op] sets or clears the bits of a mask in a word. *)
Definition range_body (op : Z → Z → Z) (c : Z * Z * Z * Z) : M memory ((Z * Z * Z * Z) + (Z * Z * Z)) :=
  let '(p, nr, bits_to_set, mask_to_set) := c in
  if 0 <=? nr - bits_to_set then
    v ← load p;
    put p (op v mask_to_set);;
    mret (inl (p + 1, nr - bits_to_set, BITS_PER_LONG, all_ones 64))
  else mret (inr (p, nr, mask_to_set)).

Definition bitmap_range (op : Z → Z → Z) (loc : string) (map start nr : Z) : M memory unit :=
  let p := map + BIT_WORD start in
  let size := start + nr in
  let bits_to_set := BITS_PER_LONG - start mod BITS_PER_LONG in
  let mask_to_set := BITMAP_FIRST_WORD_MASK start in
  assert_ loc ((0 <=? start) && (0 <=? nr));;
  '(p, nr, mask_to_set) ←
    loop (S (S (Z.to_nat (nr / BITS_PER_LONG)))) (range_body op) (p, nr, bits_to_set, mask_to_set);
  when (negb (nr =? 0)) (
    let mask_to_set := Z.land mask_to_set (BITMAP_LAST_WORD_MASK size) in
    v ← load p;
    put p (op v mask_to_set)).

Definition bitmap_set : Z → Z → Z → M memory unit := bitmap_range Z.lor "bitmap.c:159".
Definition bitmap_clear : Z → Z → Z → M memory unit :=
  bitmap_range (λ v mask, Z.land v (wnot 64 mask)) "bitmap.c:218".

(** ** Areas *)
Definition ALIGN_MASK (x mask : Z) : Z := Z.land (u64 (x + mask)) (wnot 64 mask).

Definition area_body (map size nr align_mask : Z) (start : Z) : M memory (Z + Z) :=
  index ← find_next_zero_bit map size start;
  let index := ALIGN_MASK index align_mask in
  let end_ := u64 (index + nr) in
  if size <? end_ then mret (inr end_)
  else
    i ← find_next_bit map end_ index;
    if i <? end_ then mret (inl (u64 (i + 1))) else mret (inr index).
(** Every round starts further on. *)
Definition bitmap_find_next_zero_area (map size start nr align_mask : Z) : M memory Z :=
  loop (S (S (Z.to_nat size))) (area_body map size nr align_mask) start.

(** ** Copies

    [memcpy] of [n] words; the ranges must not overlap. *)
Definition copy_words (dst src n : Z) : M memory unit :=
  if (dst <? src + n) && (src <? dst + n) && (0 <? n) then fail (Undefined "memcpy of ranges that overlap")
  else for_list (seqZ 0 n) (λ k, v ← load (src + k); put (dst + k) v).
Definition set_words (dst v n : Z) : M memory unit := for_list (seqZ 0 n) (λ k, put (dst + k) v).

Definition bitmap_zero (dst nbits : Z) : M memory unit :=
  if small_nbits nbits then put dst 0 else set_words dst 0 (BITS_TO_LONGS nbits).
Definition bitmap_fill (dst nbits : Z) : M memory unit :=
  let nlongs := BITS_TO_LONGS nbits in
  when (negb (small_nbits nbits)) (set_words dst (all_ones 64) (u64 (nlongs - 1)));;
  put (dst + u64 (nlongs - 1)) (BITMAP_LAST_WORD_MASK nbits).
Definition bitmap_copy (dst src nbits : Z) : M memory unit :=
  if small_nbits nbits then v ← load src; put dst v
  else copy_words dst src (BITS_TO_LONGS nbits).
Definition bitmap_to_from_le (dst src nbits : Z) : M memory unit :=
  copy_words dst src (BITS_TO_LONGS nbits).
Definition bitmap_from_le : Z → Z → Z → M memory unit := bitmap_to_from_le.
Definition bitmap_to_le : Z → Z → Z → M memory unit := bitmap_to_from_le.

Definition src_offset_body (shift left_mask right_mask : Z) (c : Z * Z * Z) :
    M memory ((Z * Z * Z) + (Z * Z * Z)) :=
  let '(dst, src, nbits) := c in
  if BITS_PER_LONG <=? nbits then
    v ← load src;
    put dst (Z.shiftr (Z.land v left_mask) shift);;
    v ← load (src + 1);
    d ← load dst;
    put dst (Z.lor d (shl 64 (Z.land v right_mask) (BITS_PER_LONG - shift)));;
    mret (inl (dst + 1, src + 1, nbits - BITS_PER_LONG))
  else mret (inr c).

Definition bitmap_copy_with_src_offset (dst src shift nbits : Z) : M memory unit :=
  let src := src + BIT_WORD shift in
  let shift := shift mod BITS_PER_LONG in
  if shift =? 0 then bitmap_copy dst src nbits
  else
    let right_mask := shl 64 1 shift - 1 in
    let left_mask := wnot 64 right_mask in
    '(dst, src, nbits) ← loop (search_fuel nbits) (src_offset_body shift left_mask right_mask) (dst, src, nbits);
    if BITS_PER_LONG - shift <? nbits then
      v ← load src;
      put dst (Z.shiftr (Z.land v left_mask) shift);;
      let nbits := nbits - (BITS_PER_LONG - shift) in
      let last_mask := shl 64 1 nbits - 1 in
      v ← load (src + 1);
      d ← load dst;
      put dst (Z.lor d (shl 64 (Z.land v last_mask) (BITS_PER_LONG - shift)))
    else when (negb (nbits =? 0)) (
      let last_mask := shl 64 1 nbits - 1 in
      v ← load src;
      put dst (Z.land (Z.shiftr v shift) last_mask)).

Definition dst_offset_body (shift left_mask right_mask : Z) (c : Z * Z * Z) :
    M memory ((Z * Z * Z) + (Z * Z * Z)) :=
  let '(dst, src, nbits) := c in
  if BITS_PER_LONG <=? nbits then
    v ← load src;
    d ← load dst;
    put dst (Z.lor d (shl 64 (Z.land v right_mask) shift));;
    v ← load src;
    put (dst + 1) (Z.shiftr (Z.land v left_mask) (BITS_PER_LONG - shift));;
    mret (inl (dst + 1, src + 1, nbits - BITS_PER_LONG))
  else mret (inr c).

Definition bitmap_copy_with_dst_offset (dst src shift nbits : Z) : M memory unit :=
  let dst := dst + BIT_WORD shift in
  let shift := shift mod BITS_PER_LONG in
  if shift =? 0 then bitmap_copy dst src nbits
  else
    let right_mask := shl 64 1 (BITS_PER_LONG - shift) - 1 in
    let left_mask := wnot 64 right_mask in
    d ← load dst;
    put dst (Z.land d (shl 64 1 shift - 1));;
    '(dst, src, nbits) ← loop (search_fuel nbits) (dst_offset_body shift left_mask right_mask) (dst, src, nbits);
    if BITS_PER_LONG - shift <? nbits then
      v ← load src;
      d ← load dst;
      put dst (Z.lor d (shl 64 (Z.land v right_mask) shift));;
      let nbits := nbits - (BITS_PER_LONG - shift) in
      let last_mask := shl 64 (shl 64 1 nbits - 1) (BITS_PER_LONG - shift) in
      v ← load src;
      put (dst + 1) (Z.shiftr (Z.land v last_mask) (BITS_PER_LONG - shift))
    else when (negb (nbits =? 0)) (
      let last_mask := shl 64 1 nbits - 1 in
      v ← load src;
      d ← load dst;
      put dst (Z.lor d (shl 64 (Z.land v last_mask) shift))).

(** ** The inline versions of bitmap.h *)
Definition bitmap_and (dst src1 src2 nbits : Z) : M memory bool :=
  if small_nbits nbits then
    v1 ← load src1; v2 ← load src2; put dst (Z.land v1 v2);; mret (negb (Z.land v1 v2 =? 0))
  else slow_bitmap_and dst src1 src2 nbits.
Definition bitmap_or (dst src1 src2 nbits : Z) : M memory unit :=
  if small_nbits nbits then v1 ← load src1; v2 ← load src2; put dst (Z.lor v1 v2)
  else slow_bitmap_or dst src1 src2 nbits.
Definition bitmap_xor (dst src1 src2 nbits : Z) : M memory unit :=
  if small_nbits nbits then v1 ← load src1; v2 ← load src2; put dst (Z.lxor v1 v2)
  else slow_bitmap_xor dst src1 src2 nbits.
Definition bitmap_andnot (dst src1 src2 nbits : Z) : M memory bool :=
  if small_nbits nbits then
    v1 ← load src1; v2 ← load src2;
    put dst (Z.land v1 (wnot 64 v2));; mret (negb (Z.land v1 (wnot 64 v2) =? 0))
  else slow_bitmap_andnot dst src1 src2 nbits.
Definition bitmap_complement (dst src nbits : Z) : M memory unit :=
  if small_nbits nbits then v ← load src; put dst (Z.land (wnot 64 v) (BITMAP_LAST_WORD_MASK nbits))
  else slow_bitmap_complement dst src nbits.
Definition bitmap_equal (src1 src2 nbits : Z) : M memory bool :=
  if small_nbits nbits then
    v1 ← load src1; v2 ← load src2; mret (Z.land (Z.lxor v1 v2) (BITMAP_LAST_WORD_MASK nbits) =? 0)
  else slow_bitmap_equal src1 src2 nbits.
Definition bitmap_empty (src nbits : Z) : M memory bool :=
  if small_nbits nbits then v ← load src; mret (Z.land v (BITMAP_LAST_WORD_MASK nbits) =? 0)
  else slow_bitmap_empty src nbits.
Definition bitmap_full (src nbits : Z) : M memory bool :=
  if small_nbits nbits then v ← load src; mret (Z.land (wnot 64 v) (BITMAP_LAST_WORD_MASK nbits) =? 0)
  else slow_bitmap_full src nbits.
Definition bitmap_intersects (src1 src2 nbits : Z) : M memory bool :=
  if small_nbits nbits then
    v1 ← load src1; v2 ← load src2; mret (negb (Z.land (Z.land v1 v2) (BITMAP_LAST_WORD_MASK nbits) =? 0))
  else slow_bitmap_intersects src1 src2 nbits.
Definition bitmap_count_one (bitmap nbits : Z) : M memory Z :=
  if nbits =? 0 then mret 0
  else if small_nbits nbits then v ← load bitmap; mret (ctpop64 (Z.land v (BITMAP_LAST_WORD_MASK nbits)))
  else slow_bitmap_count_one bitmap nbits.
Definition bitmap_count_one_with_offset (bitmap offset nbits : Z) : M memory Z :=
  let aligned_offset := offset / BITS_PER_LONG * BITS_PER_LONG in
  let redundant_bits := offset - aligned_offset in
  let bits_to_count := nbits + redundant_bits in
  let bitmap_start := bitmap + aligned_offset / BITS_PER_LONG in
  n ← bitmap_count_one bitmap_start bits_to_count;
  n' ← bitmap_count_one bitmap_start redundant_bits;
  mret (n - n').
