(* ===== verification/BitmapOk.v ===== *)
(** * Bitmaps represent sets of positions

    [represents m a n S]: the [n] words at [a] hold the set [S] of positions.
    Each function of Bitmap.v is shown to be the operation on sets that its
    name says, for bitmaps that are the same array or do not overlap; the
    searches are equal to the search of the positions one by one. *)

From S2P Require Import Prelude Bits Bitmap.

Implicit Types m : memory.

(** ** Memory *)
Lemma wp_load m p v (Q : Z → memory → Prop) : m !! p = Some v → Q v m → wp (load p) Q m.
Proof. intros. by apply (wp_deref id p v). Qed.

Lemma wp_put m p v (Q : unit → memory → Prop) :
  is_Some (m !! p) → Q tt (<[p := v]> m) → wp (put p v) Q m.
Proof. intros [u Hu]. unfold wp, put. by rewrite Hu. Qed.

(** Bit [i] of the words of [w] bits at [a]. *)
Definition bit (w : Z) (m : memory) (a i : Z) : bool :=
  Z.testbit (default 0 (m !! (a + i / w))) (i mod w).

Definition words (w : Z) (m : memory) (a n : Z) : Prop :=
  ∀ k, 0 ≤ k < n → ∃ v, m !! (a + k) = Some v ∧ word w v.

(** The [n] words at [a] are those of [g], and the others those of [m]. *)
Definition filled (m m' : memory) (a n : Z) (g : Z → Z) : Prop :=
  ∀ p, m' !! p = if decide (a ≤ p < a + n) then Some (g (p - a)) else m !! p.

Lemma filled_0 m a g : filled m m a 0 g.
Proof. intros p. by rewrite decide_False by lia. Qed.

Lemma filled_step m m' a k g :
  0 ≤ k → filled m m' a k g → filled m (<[a + k := g k]> m') a (k + 1) g.
Proof.
  intros Hk Hf p. destruct (decide (p = a + k)) as [->|].
  - rewrite lookup_insert_eq, decide_True by lia. do 2 f_equal. lia.
  - rewrite lookup_insert_ne, Hf by done. destruct (decide _), (decide _); lia || done.
Qed.

(** The value [h] of word [k], for the words [k] on. *)
Lemma filled_at m m' a n g k : filled m m' a n g → 0 ≤ k < n → m' !! (a + k) = Some (g k).
Proof. intros Hf Hk. rewrite Hf, decide_True by lia. do 2 f_equal. lia. Qed.

Lemma filled_other m m' a n g p : filled m m' a n g → ¬ (a ≤ p < a + n) → m' !! p = m !! p.
Proof. intros Hf Hp. by rewrite Hf, decide_False. Qed.

Definition apart (a b n : Z) : Prop := a = b ∨ a + n ≤ b ∨ b + n ≤ a.

(** While the words below [k] of [a] are written, word [k] of an array that is
    the same or does not overlap is still the old one. *)
Lemma filled_source m m' a b n k g :
  filled m m' a k g → apart a b n → 0 ≤ k < n → m' !! (b + k) = m !! (b + k).
Proof. intros Hf Hab Hk. apply (filled_other _ _ _ _ _ _ Hf). destruct Hab as [<-|?]; lia. Qed.

Lemma div_bounds i n : 0 ≤ i < 64 * n → 0 ≤ i / 64 < n.
Proof. intros. split; [apply Z.div_pos; lia|apply Z.div_lt_upper_bound; lia]. Qed.

Lemma bit_filled m m' a n g i :
  filled m m' a n g → 0 ≤ i < 64 * n → bit 64 m' a i = Z.testbit (g (i / 64)) (i mod 64).
Proof. intros Hf Hi. unfold bit. by rewrite (filled_at _ _ _ _ _ _ Hf) by by apply div_bounds. Qed.

Lemma bit_word w m a k j v :
  0 ≤ j < w → m !! (a + k) = Some v → bit w m a (w * k + j) = Z.testbit v j.
Proof.
  intros Hj Hv. unfold bit. replace (w * k + j) with (j + k * w) by lia. rewrite Z.div_add, Z.mod_add by lia.
  rewrite Z.div_small, Z.add_0_l, Hv, Z.mod_small by lia. done.
Qed.

(** ** Sets of positions *)
Definition represents (m : memory) (a n : Z) (S : gset Z) : Prop :=
  words 64 m a n ∧ (∀ i, 0 ≤ i < 64 * n → bit 64 m a i = bool_decide (i ∈ S)) ∧
  ∀ i, i ∈ S → 0 ≤ i < 64 * n.

Lemma represents_word m a n S k :
  represents m a n S → 0 ≤ k < n →
  ∃ v, m !! (a + k) = Some v ∧ word 64 v ∧
    ∀ j, 0 ≤ j < 64 → Z.testbit v j = bool_decide (64 * k + j ∈ S).
Proof.
  intros (Hw&Hb&_) Hk. destruct (Hw k Hk) as (v&Hv&?). exists v. split_and!; [done..|].
  intros j Hj. rewrite <- Hb, (bit_word 64 m a k j v) by (done || lia). done.
Qed.

(** A bitmap written word by word. *)
Lemma represents_filled m m' a n g S :
  filled m m' a n g → (∀ k, 0 ≤ k < n → word 64 (g k)) →
  (∀ k j, 0 ≤ k < n → 0 ≤ j < 64 → Z.testbit (g k) j = bool_decide (64 * k + j ∈ S)) →
  (∀ i, i ∈ S → 0 ≤ i < 64 * n) → represents m' a n S.
Proof.
  intros Hf Hg HS HSn. split_and!; [| |done].
  - intros k Hk. exists (g k). split; [by apply (filled_at _ _ _ _ _ _ Hf)|by apply Hg].
  - intros i Hi. rewrite (bit_filled _ _ _ _ _ _ Hf) by done.
    pose proof (div_bounds _ _ Hi). rewrite HS by (done || by apply Z.mod_pos_bound).
    by rewrite <- Z.div_mod.
Qed.

Lemma represents_other m m' a b n n' g S :
  filled m m' b n' g → represents m a n S → a + n ≤ b ∨ b + n' ≤ a → represents m' a n S.
Proof.
  intros Hf (Hw&Hb&HS) Hab. split_and!; [| |done].
  - intros k Hk. rewrite (filled_other _ _ _ _ _ _ Hf) by lia. by apply Hw.
  - intros i Hi. rewrite <- Hb by done. unfold bit. pose proof (div_bounds _ _ Hi).
    by rewrite (filled_other _ _ _ _ _ _ Hf) by lia.
Qed.

(** One word written. *)
Lemma represents_put m a n S S' k v :
  represents m a n S → 0 ≤ k < n → word 64 v →
  (∀ j, 0 ≤ j < 64 → Z.testbit v j = bool_decide (64 * k + j ∈ S')) →
  (∀ i, ¬ (64 * k ≤ i < 64 * k + 64) → i ∈ S' ↔ i ∈ S) →
  represents (<[a + k := v]> m) a n S'.
Proof.
  intros (Hw&Hb&HS) Hk Hv HS' Hsame. split_and!.
  - intros k' Hk'. destruct (decide (k' = k)) as [->|]; [exists v; by rewrite lookup_insert_eq|].
    rewrite lookup_insert_ne by lia. by apply Hw.
  - intros i Hi. pose proof (Z.div_mod i 64). pose proof (Z.mod_pos_bound i 64).
    destruct (decide (i / 64 = k)) as [Hik|Hik]; unfold bit.
    + rewrite Hik, lookup_insert_eq. cbn [default from_option id]. rewrite HS' by lia.
      by replace (64 * k + i mod 64) with i by lia.
    + rewrite lookup_insert_ne by lia. specialize (Hb i Hi). unfold bit in Hb. rewrite Hb.
      apply bool_decide_ext. symmetry. apply Hsame. lia.
  - intros i Hi. destruct (decide (64 * k ≤ i < 64 * k + 64)); [lia|]. apply HS. by apply Hsame.
Qed.

(** ** Masks *)
Lemma BITS_TO_LONGS_spec n : 0 ≤ n < 2 ^ 63 → BITS_TO_LONGS n = (n + 63) / 64.
Proof. intros. unfold BITS_TO_LONGS, DIV_ROUND_UP, BITS_PER_LONG. rewrite u64_small by lia. f_equal. lia. Qed.

Lemma land_63 x : Z.land x (BITS_PER_LONG - 1) = x mod 64.
Proof. change (BITS_PER_LONG - 1) with (Z.ones 6). by rewrite Z.land_ones. Qed.

Lemma land_not_63 x : 0 ≤ x < 2 ^ 64 → Z.land x (wnot 64 (BITS_PER_LONG - 1)) = x / 64 * 64.
Proof.
  intros Hx. replace (x / 64 * 64) with (Z.ldiff x (Z.ones 6)).
  - by_bits i. change (BITS_PER_LONG - 1) with (Z.ones 6). destruct (Z.ltb_spec i 64); [done|].
    by rewrite (testbit_word 64 x) by (done || lia).
  - rewrite Z.ldiff_ones_r, Z.shiftl_mul_pow2, Z.shiftr_div_pow2 by lia. done.
Qed.

Lemma testbit_first_mask start j :
  0 ≤ j < 64 → Z.testbit (BITMAP_FIRST_WORD_MASK start) j = (start mod 64 <=? j).
Proof.
  intros Hj. unfold BITMAP_FIRST_WORD_MASK. rewrite land_63. pose proof (Z.mod_pos_bound start 64).
  rewrite testbit_shl, (proj2 (Z.ltb_lt j 64)) by lia. simpl.
  destruct (Z.leb_spec (start mod 64) j).
  - rewrite testbit_all_ones by lia. apply Z.ltb_lt. lia.
  - apply Z.testbit_neg_r. lia.
Qed.

Lemma testbit_last_mask n j :
  0 ≤ j < 64 → Z.testbit (BITMAP_LAST_WORD_MASK n) j = (n mod 64 =? 0) || (j <? n mod 64).
Proof.
  intros Hj. unfold BITMAP_LAST_WORD_MASK. rewrite land_63. pose proof (Z.mod_pos_bound n 64).
  pose proof (Z.mod_pos_bound (- n) 64). rewrite Z.shiftr_spec, testbit_all_ones by lia.
  destruct (Z.eqb_spec (n mod 64) 0) as [E|E]; simpl.
  - rewrite Z.mod_opp_l_z by done. apply Z.ltb_lt. lia.
  - rewrite Z.mod_opp_l_nz by done.
    destruct (Z.ltb_spec j (n mod 64)), (Z.ltb_spec (j + (64 - n mod 64)) 64); lia || done.
Qed.

Lemma word_all_ones w : 0 ≤ w → word w (all_ones w).
Proof. apply word_trunc. Qed.

Lemma word_shiftr w x n : 0 ≤ w → 0 ≤ n → word w x → word w (Z.shiftr x n).
Proof.
  intros Hw Hn Hx. apply word_of_bits; [done|]. intros i Hi. rewrite Z.shiftr_spec by lia.
  apply (testbit_word w); [done..|lia].
Qed.

Lemma word_last_mask n : word 64 (BITMAP_LAST_WORD_MASK n).
Proof.
  apply word_shiftr; [done| |by apply word_all_ones]. rewrite land_63. by apply Z.mod_pos_bound.
Qed.

(** ** Searches *)

(** The search of the positions one by one. *)
Definition next_position (f : Z → bool) (size offset : Z) : Z :=
  default size (snd <$> list_find (λ i, f i = true) (seqZ offset (size - offset))).

Lemma next_position_eq f size offset r :
  offset ≤ r ≤ size → (∀ i, offset ≤ i < r → f i = false) → (r < size → f r = true) →
  r = next_position f size offset.
Proof.
  intros Hr Hf Ht. unfold next_position.
  destruct (list_find _ _) as [[k i]|] eqn:Hl; simpl.
  - apply list_find_Some in Hl as (Hk&Hi&Hk'). apply lookup_seqZ in Hk as [-> Hk].
    destruct (Z.lt_trichotomy r (offset + Z.of_nat k)) as [Hlt|[?|Hlt]]; [|done|].
    + exfalso. apply (Hk' (Z.to_nat (r - offset)) r); [|lia|apply Ht; lia]. apply lookup_seqZ. lia.
    + rewrite Hf in Hi by lia. done.
  - apply list_find_None in Hl. rewrite Forall_forall in Hl. destruct (decide (r = size)); [done|].
    exfalso. apply (Hl r); [apply elem_of_seqZ; lia|apply Ht; lia].
Qed.

Lemma next_position_spec f size offset :
  offset ≤ size → let r := next_position f size offset in
  offset ≤ r ≤ size ∧ (∀ i, offset ≤ i < r → f i = false) ∧ (r < size → f r = true).
Proof.
  intros Ho. unfold next_position. destruct (list_find _ _) as [[k i]|] eqn:Hl; simpl.
  - apply list_find_Some in Hl as (Hk&Hi&Hk'). apply lookup_seqZ in Hk as [-> Hk].
    split_and!; [lia..| |done]. intros i Hi'. apply not_true_is_false.
    apply (Hk' (Z.to_nat (i - offset))); [apply lookup_seqZ; lia|lia].
  - apply list_find_None in Hl. rewrite Forall_forall in Hl. split_and!; [lia..| |lia].
    intros i Hi. apply not_true_is_false, Hl, elem_of_seqZ. lia.
Qed.

(** The search for a zero is the search for a one in the complement. *)
Lemma found_zero_first_eq result size v :
  word 64 v → 0 < size < 64 → found_zero_first result size v = found_first result size (wnot 64 v).
Proof.
  intros Hv Hs. unfold found_zero_first, found_first, found_zero_middle, BITS_PER_LONG.
  set (t := Z.lor v _). set (u := Z.land _ _). assert (wnot 64 t = u) as Hu.
  { unfold t, u. apply Z.bits_inj'. intros i Hi.
    rewrite testbit_wnot, Z.lor_spec, Z.land_spec, testbit_wnot, testbit_shl, testbit_low_mask by lia.
    destruct (Z.ltb_spec i 64); simpl; [|done]. destruct (Z.ltb_spec i size).
    - rewrite (Z.testbit_neg_r (all_ones 64)) by lia. by rewrite orb_false_r, andb_true_r.
    - rewrite testbit_all_ones, (proj2 (Z.ltb_lt (i - size) 64)) by lia. by rewrite orb_true_r, andb_false_r. }
  assert (word 64 t) as Ht by (apply word_lor; [done..|by apply word_shl]).
  assert (t = all_ones 64 ↔ u = 0) as Htu.
  { rewrite <- Hu. split; [intros ->; by vm_compute|]. intros Hz.
    apply (word_inj 64); [done..|by apply word_all_ones|]. intros i Hi.
    assert (Z.testbit (wnot 64 t) i = false) as Hf by by rewrite Hz, Z.bits_0.
    rewrite testbit_wnot in Hf by lia. rewrite testbit_all_ones by lia.
    rewrite (proj2 (Z.ltb_lt i 64)) in * by lia. by destruct (Z.testbit t i). }
  destruct (Z.eqb_spec t (all_ones 64)), (Z.eqb_spec u 0); [done|tauto..|].
  unfold found_middle. by rewrite Hu.
Qed.

Section search.
Context (f : Z → bool) (size offset : Z).
Context (Hsize : 0 ≤ size < 2 ^ 64) (Ho : 0 ≤ offset < size).

Definition answer (r : Z) : Prop :=
  offset ≤ r ≤ size ∧ (∀ i, offset ≤ i < r → f i = false) ∧ (r < size → f r = true).

(** No position below word [k] from [offset] on; [v] holds those of word [k]. *)
Definition clean (k : Z) : Prop := 0 ≤ k ∧ 64 * k ≤ size ∧ ∀ i, offset ≤ i < 64 * k → f i = false.
Definition holds (k v : Z) : Prop :=
  word 64 v ∧ ∀ j, 0 ≤ j < 64 → Z.testbit v j = (offset <=? 64 * k + j) && f (64 * k + j).

Lemma found_middle_ok k v :
  clean k → holds k v → v ≠ 0 → 64 * k + ctz64 v < size → answer (found_middle (64 * k) v).
Proof using Hsize.
  intros (Hk&_&Hc) [Hv Hb] Hn Hlt. destruct (ctz64_spec v Hv Hn) as ([? ?]&Ht&Hz).
  unfold found_middle. rewrite u64_small by lia. rewrite Hb in Ht by lia.
  apply andb_true_iff in Ht as [Ho'%Z.leb_le Hf]. split_and!; [lia..| |done].
  intros i Hi. destruct (decide (i < 64 * k)); [apply Hc; lia|].
  specialize (Hz (i - 64 * k) ltac:(lia)). rewrite Hb in Hz by lia.
  replace (64 * k + (i - 64 * k)) with i in Hz by lia. by rewrite (proj2 (Z.leb_le _ _)) in Hz by lia.
Qed.

Lemma holds_zero k v : holds k v → v = 0 → ∀ i, offset ≤ i → 64 * k ≤ i < 64 * k + 64 → f i = false.
Proof.
  intros [_ Hb] -> i Hi Hik. specialize (Hb (i - 64 * k) ltac:(lia)). rewrite Z.bits_0 in Hb.
  replace (64 * k + (i - 64 * k)) with i in Hb by lia. by rewrite (proj2 (Z.leb_le _ _)) in Hb by lia.
Qed.

Lemma clean_step k v : clean k → holds k v → v = 0 → 64 * k + 64 ≤ size → clean (k + 1).
Proof.
  intros (Hk&_&Hc) Hv Hz Hle. split_and!; [lia..|]. intros i Hi.
  destruct (decide (i < 64 * k)); [apply Hc; lia|]. apply (holds_zero k v); done || lia.
Qed.

Lemma found_first_ok k v :
  clean k → holds k v → 0 < size - 64 * k < 64 → answer (found_first (64 * k) (size - 64 * k) v).
Proof using Hsize Ho.
  intros Hc Hv Hs. unfold found_first. set (tmp := Z.land v _).
  assert (∀ j, 0 ≤ j < 64 → Z.testbit tmp j = (j <? size - 64 * k) && Z.testbit v j) as Ht.
  { intros j Hj. unfold tmp, BITS_PER_LONG. rewrite Z.land_spec, testbit_low_mask by lia. apply andb_comm. }
  assert (word 64 tmp) as Hw.
  { unfold tmp. apply word_land; [lia|]. apply word_shiftr; [done|unfold BITS_PER_LONG; lia|].
    by apply word_all_ones. }
  assert (∀ i, offset ≤ i → 64 * k ≤ i < size → Z.testbit tmp (i - 64 * k) = f i) as Hi.
  { intros i ??. rewrite Ht, (proj2 (Z.ltb_lt _ _)) by lia. simpl. rewrite (proj2 Hv) by lia.
    replace (64 * k + (i - 64 * k)) with i by lia. by rewrite (proj2 (Z.leb_le _ _)) by lia. }
  destruct Hc as (Hk&Hks&Hc). destruct (Z.eqb_spec tmp 0) as [E|E].
  - rewrite u64_small by lia. split_and!; [lia..| |lia]. intros i Hi'.
    destruct (decide (i < 64 * k)); [apply Hc; lia|]. rewrite <- Hi by lia. by rewrite E, Z.bits_0.
  - destruct (ctz64_spec tmp Hw E) as ([? ?]&Htt&Hz). unfold found_middle.
    rewrite Ht in Htt by lia. apply andb_true_iff in Htt as [?%Z.ltb_lt Hvt].
    rewrite (proj2 Hv) in Hvt by lia. apply andb_true_iff in Hvt as [?%Z.leb_le ?].
    rewrite u64_small by lia. split_and!; [lia..| |done].
    intros i Hi'. destruct (decide (i < 64 * k)); [apply Hc; lia|]. rewrite <- Hi by lia. apply Hz. lia.
Qed.

(** The cursor at word [k]. *)
Context (a : Z).
Definition at_word (k : Z) : cursor := (a + k, 64 * k, size - 64 * k).
Definition cursor_ok (c : cursor) : Prop := ∃ k, c = at_word k ∧ clean k ∧ offset ≤ 64 * k.
Definition rounds_left (c : cursor) : nat := Z.to_nat (c.2 / 64).

Lemma at_word_next k d e :
  e = 64 * d → 0 ≤ k → 0 ≤ d → 64 * (k + d) ≤ size →
  (a + k + d, u64 (64 * k + e), u64 (size - 64 * k - e)) = at_word (k + d).
Proof using Hsize. intros. unfold at_word. rewrite !u64_small by lia. f_equal; [f_equal|]; lia. Qed.

Lemma rounds_less k d :
  0 ≤ k → 0 < d → 64 * (k + d) ≤ size → (rounds_left (at_word (k + d)) < rounds_left (at_word k))%nat.
Proof.
  intros. unfold rounds_left, at_word; cbn [snd].
  replace (size - 64 * k) with (size - 64 * (k + d) + d * 64) by lia. rewrite Z.div_add by lia.
  assert (0 ≤ (size - 64 * (k + d)) / 64) by (apply Z.div_pos; lia). lia.
Qed.

(** A round either answers, or moves the cursor on, or leaves the loop with a
    cursor that satisfies [E]. *)
Definition round_ok (E : cursor → Prop) (m : memory) (c : cursor) (r : cursor + (Z + cursor)) (m' : memory) : Prop :=
  m' = m ∧ match r with
  | inl c' => cursor_ok c' ∧ (rounds_left c' < rounds_left c)%nat
  | inr (inl r) => answer r
  | inr (inr c') => cursor_ok c' ∧ E c'
  end.

Lemma wp_rounds E m c (body : cursor → M memory (cursor + (Z + cursor))) Q :
  (∀ c, cursor_ok c → wp (body c) (round_ok E m c) m) → cursor_ok c →
  (∀ r, answer r → Q (inl r) m) → (∀ c, cursor_ok c → E c → Q (inr c) m) →
  wp (loop (search_fuel c.2) body c) Q m.
Proof using Hsize Ho.
  intros Hbody Hc HQ1 HQ2.
  apply (wp_loop (λ c m', m' = m ∧ cursor_ok c) (λ c _, rounds_left c)); [done|unfold search_fuel, rounds_left, BITS_PER_LONG; lia|].
  intros c' m' [-> Hc']. eapply wp_mono; [by apply Hbody|]. intros r m'' [-> Hr].
  destruct r as [c''|[r|c'']]; [naive_solver|by apply HQ1|]. destruct Hr. by apply HQ2.
Qed.

Section ones.
Context (m : memory).
Context (Hm : ∀ k, 0 ≤ k → 64 * k < size → ∃ v, m !! (a + k) = Some v ∧ word 64 v ∧
  ∀ j, 0 ≤ j < 64 → Z.testbit v j = f (64 * k + j)).

Lemma word_holds k :
  0 ≤ k → 64 * k < size → offset ≤ 64 * k → ∃ v, m !! (a + k) = Some v ∧ holds k v.
Proof using Hm.
  intros Hk Hs Hok. destruct (Hm k Hk Hs) as (v&Hv&Hw&Hb). exists v. split_and!; [done..|]. split; [done|].
  intros j Hj. rewrite Hb by done. by rewrite (proj2 (Z.leb_le _ _)) by lia.
Qed.

Lemma ctz_below v : word 64 v → v ≠ 0 → ctz64 v < 64.
Proof. intros Hv Hn. destruct (ctz64_spec v Hv Hn) as ([??]&_). done. Qed.

Lemma wp_next_four c : cursor_ok c → wp (next_four c) (round_ok (λ _, True) m c) m.
Proof using Hm Hsize Ho.
  intros (k&->&Hc&Hk). pose proof Hc as (Hk0&Hks&_). unfold next_four, at_word.
  fold (at_word k). unfold BITS_PER_LONG. destruct (Z.leb_spec (4 * 64) (size - 64 * k)).
  2: { apply wp_ret. split; [done|]. split; [|done]. by exists k. }
  destruct (word_holds k) as (v0&Hv0&H0); [lia..|]. destruct (word_holds (k + 1)) as (v1&Hv1&H1); [lia..|].
  destruct (word_holds (k + 2)) as (v2&Hv2&H2); [lia..|]. destruct (word_holds (k + 3)) as (v3&Hv3&H3); [lia..|].
  rewrite Z.add_assoc in Hv1, Hv2, Hv3. do 4 (wp_step; eapply wp_load; [done|]).
  destruct (Z.eqb_spec v0 0) as [E0|E0]; simpl.
  2: { apply wp_ret. split; [done|]. apply found_middle_ok; [done..|]. pose proof (ctz_below v0 (proj1 H0) E0). lia. }
  destruct (Z.eqb_spec (Z.lor (Z.lor v1 v2) v3) 0) as [E|E]; simpl.
  2: { apply wp_ret. split; [done|]. split; [|done]. by exists k. }
  apply Z.lor_eq_0_iff in E as [[E1 E2]%Z.lor_eq_0_iff E3]. apply wp_ret. split; [done|].
  rewrite (at_word_next k 4 (4 * 64)) by lia. split; [|apply rounds_less; lia].
  exists (k + 4). split_and!; [done| |lia].
  pose proof (clean_step _ _ Hc H0 E0 ltac:(lia)) as C1.
  pose proof (clean_step _ _ C1 H1 E1 ltac:(lia)) as C2. rewrite <- Z.add_assoc in C2.
  pose proof (clean_step _ _ C2 H2 E2 ltac:(lia)) as C3. rewrite <- Z.add_assoc in C3.
  pose proof (clean_step _ _ C3 H3 E3 ltac:(lia)) as C4. by rewrite <- Z.add_assoc in C4.
Qed.

Lemma wp_next_one c : cursor_ok c → wp (next_one c) (round_ok (λ c, c.2 < 64) m c) m.
Proof using Hm Hsize Ho.
  intros (k&->&Hc&Hk). pose proof Hc as (Hk0&Hks&_). unfold next_one, at_word.
  fold (at_word k). unfold BITS_PER_LONG. destruct (Z.leb_spec 64 (size - 64 * k)).
  2: { apply wp_ret. split; [done|]. split; [by exists k|done]. }
  destruct (word_holds k) as (v0&Hv0&H0); [lia..|]. wp_step. eapply wp_load; [done|].
  destruct (Z.eqb_spec v0 0) as [E0|E0]; simpl; apply wp_ret; (split; [done|]).
  - rewrite (at_word_next k 1 64) by lia. split; [|apply rounds_less; lia].
    exists (k + 1). split_and!; [done| |lia]. apply (clean_step k v0); done || lia.
  - apply found_middle_ok; [done..|]. pose proof (ctz_below v0 (proj1 H0) E0). lia.
Qed.

Lemma wp_next_words k (Q : Z → memory → Prop) :
  clean k → offset ≤ 64 * k → (∀ r, answer r → Q r m) → wp (next_words (at_word k)) Q m.
Proof using Hm Hsize Ho.
  intros Hc Hk HQ. unfold next_words. wp_step.
  apply (wp_rounds (λ _, True) m); [apply wp_next_four|by exists k|intros r Hr; by apply wp_ret, HQ|].
  intros c Hc' _. wp_step.
  apply (wp_rounds (λ c, c.2 < 64) m); [apply wp_next_one|done|intros r Hr; by apply wp_ret, HQ|].
  clear k c Hc Hk Hc'. intros c (k&->&Hc&Hk) Hlt. unfold at_word in *. cbn [snd] in Hlt.
  pose proof Hc as (Hk0&Hks&Hf). destruct (Z.eqb_spec (size - 64 * k) 0) as [E|E].
  - apply wp_ret, HQ. split_and!; [lia..| |lia]. done.
  - destruct (word_holds k) as (v&Hv&Hh); [lia..|]. wp_step. eapply wp_load; [done|].
    apply wp_ret, HQ, found_first_ok; [done..|lia].
Qed.

Lemma wp_find_next_bit_answer (Q : Z → memory → Prop) :
  (∀ r, answer r → Q r m) → wp (find_next_bit a size offset) Q m.
Proof using Hm Hsize Ho.
  intros HQ. unfold find_next_bit. rewrite land_not_63 by lia. unfold BIT_WORD, BITS_PER_LONG.
  rewrite (proj2 (Z.leb_gt size offset)) by lia.
  pose proof (Z.div_mod offset 64). pose proof (Z.mod_pos_bound offset 64). set (k := offset / 64) in *.
  rewrite (Z.mul_comm k), u64_small by lia.
  assert (clean k) as Hc. { split_and!; [lia..|]. intros; lia. }
  destruct (Z.eqb_spec (offset mod 64) 0) as [E|E]; simpl.
  { apply (wp_next_words k); [done|lia|done]. }
  destruct (Hm k) as (v&Hv&Hw&Hb); [lia..|]. wp_step. eapply wp_load; [done|].
  set (tmp := Z.land v _). assert (holds k tmp) as Hh.
  { split; [by apply word_land, word_shl|]. intros j Hj. unfold tmp. rewrite Z.land_spec, Hb, testbit_shl by lia.
    rewrite (proj2 (Z.ltb_lt j 64)), andb_comm by lia. simpl. f_equal.
    destruct (Z.leb_spec offset (64 * k + j)).
    - rewrite testbit_all_ones by lia. apply Z.ltb_lt. lia.
    - apply Z.testbit_neg_r. lia. }
  destruct (Z.ltb_spec (size - 64 * k) 64).
  { apply wp_ret, HQ, found_first_ok; [done..|lia]. }
  destruct (Z.eqb_spec tmp 0) as [Et|Et]; simpl.
  - rewrite (at_word_next k 1 64) by lia. apply wp_next_words; [|lia|done].
    apply (clean_step k tmp); done || lia.
  - apply wp_ret, HQ, found_middle_ok; [done..|]. pose proof (ctz_below tmp (proj1 Hh) Et). lia.
Qed.
End ones.

Section zeros.
Context (m : memory).
Context (Hm : ∀ k, 0 ≤ k → 64 * k < size → ∃ v, m !! (a + k) = Some v ∧ word 64 v ∧
  ∀ j, 0 ≤ j < 64 → Z.testbit v j = negb (f (64 * k + j))).

Lemma word_holds_not k :
  0 ≤ k → 64 * k < size → offset ≤ 64 * k → ∃ v, m !! (a + k) = Some v ∧ word 64 v ∧ holds k (wnot 64 v).
Proof using Hm.
  intros Hk Hs Hok. destruct (Hm k Hk Hs) as (v&Hv&Hw&Hb). exists v. split_and!; [done..|].
  split; [by apply word_trunc|]. intros j Hj. rewrite testbit_wnot, Hb, negb_involutive by lia.
  by rewrite (proj2 (Z.leb_le _ _)), (proj2 (Z.ltb_lt _ _)) by lia.
Qed.

Lemma wp_next_zero_one c : cursor_ok c → wp (next_zero_one c) (round_ok (λ c, c.2 < 64) m c) m.
Proof using Hm Hsize Ho.
  intros (k&->&Hc&Hk). pose proof Hc as (Hk0&Hks&_). unfold next_zero_one, at_word.
  fold (at_word k). rewrite land_not_63 by lia. unfold BITS_PER_LONG.
  pose proof (Z.div_mod (size - 64 * k) 64). pose proof (Z.mod_pos_bound (size - 64 * k) 64).
  destruct (Z.eqb_spec ((size - 64 * k) / 64 * 64) 0); simpl.
  { apply wp_ret. split; [done|]. split; [by exists k|]. cbn [at_word snd]. lia. }
  assert (64 ≤ size - 64 * k). { assert (0 ≤ (size - 64 * k) / 64) by (apply Z.div_pos; lia). lia. }
  destruct (word_holds_not k) as (v0&Hv0&Hw&Hh0); [lia..|]. wp_step. eapply wp_load; [done|].
  destruct (Z.eqb_spec (wnot 64 v0) 0) as [E0|E0]; simpl; apply wp_ret; (split; [done|]).
  - rewrite (at_word_next k 1 64) by lia. split; [|apply rounds_less; lia].
    exists (k + 1). split_and!; [done| |lia]. apply (clean_step k (wnot 64 v0)); done || lia.
  - apply found_middle_ok; [done..|]. pose proof (ctz_below _ (proj1 Hh0) E0). lia.
Qed.

Lemma wp_next_zero_words k (Q : Z → memory → Prop) :
  clean k → offset ≤ 64 * k → (∀ r, answer r → Q r m) → wp (next_zero_words (at_word k)) Q m.
Proof using Hm Hsize Ho.
  intros Hc Hk HQ. unfold next_zero_words. wp_step.
  apply (wp_rounds (λ c, c.2 < 64) m); [apply wp_next_zero_one|by exists k|intros r Hr; by apply wp_ret, HQ|].
  clear k Hc Hk. intros c (k&->&Hc&Hk) Hlt. unfold at_word in *. cbn [snd] in Hlt.
  pose proof Hc as (Hk0&Hks&Hf). destruct (Z.eqb_spec (size - 64 * k) 0) as [E|E].
  - apply wp_ret, HQ. split_and!; [lia..| |lia]. done.
  - destruct (word_holds_not k) as (v&Hv&Hw&Hh); [lia..|]. wp_step. eapply wp_load; [done|].
    rewrite found_zero_first_eq by (done || lia). apply wp_ret, HQ, found_first_ok; [done..|lia].
Qed.

Lemma wp_find_next_zero_bit_answer (Q : Z → memory → Prop) :
  (∀ r, answer r → Q r m) → wp (find_next_zero_bit a size offset) Q m.
Proof using Hm Hsize Ho.
  intros HQ. unfold find_next_zero_bit. rewrite land_not_63 by lia. unfold BIT_WORD, BITS_PER_LONG.
  rewrite (proj2 (Z.leb_gt size offset)) by lia.
  pose proof (Z.div_mod offset 64). pose proof (Z.mod_pos_bound offset 64). set (k := offset / 64) in *.
  rewrite (Z.mul_comm k), u64_small by lia.
  assert (clean k) as Hc. { split_and!; [lia..|]. intros; lia. }
  destruct (Z.eqb_spec (offset mod 64) 0) as [E|E]; simpl.
  { apply (wp_next_zero_words k); [done|lia|done]. }
  destruct (Hm k) as (v&Hv&Hw&Hb); [lia..|]. wp_step. eapply wp_load; [done|].
  set (tmp := Z.lor v _). assert (holds k (wnot 64 tmp)) as Hh.
  { split; [by apply word_trunc|]. intros j Hj. unfold tmp. rewrite testbit_wnot, Z.lor_spec, Hb by lia.
    rewrite testbit_low_mask, (proj2 (Z.ltb_lt j 64)), negb_orb, negb_involutive by lia. simpl.
    destruct (Z.leb_spec offset (64 * k + j)), (Z.ltb_spec j (offset mod 64)); try lia; simpl;
      by rewrite ?andb_true_r, ?andb_false_r. }
  assert (word 64 tmp) as Hwt.
  { apply word_lor; [done..|]. apply word_shiftr; [done|lia|by apply word_all_ones]. }
  destruct (Z.ltb_spec (size - 64 * k) 64).
  { rewrite found_zero_first_eq by (done || lia). apply wp_ret, HQ, found_first_ok; [done..|lia]. }
  destruct (Z.eqb_spec (wnot 64 tmp) 0) as [Et|Et]; simpl.
  - rewrite (at_word_next k 1 64) by lia. apply wp_next_zero_words; [|lia|done].
    apply (clean_step k (wnot 64 tmp)); done || lia.
  - apply wp_ret, HQ, found_middle_ok; [done..|]. pose proof (ctz_below _ (proj1 Hh) Et). lia.
Qed.
End zeros.
End search.

Definition has (S : gset Z) (i : Z) : bool := bool_decide (i ∈ S).

Lemma next_position_past f size offset : size ≤ offset → next_position f size offset = size.
Proof. intros. unfold next_position. by rewrite seqZ_nil by lia. Qed.

Lemma wp_find_next_bit m a n S size offset (Q : Z → memory → Prop) :
  represents m a n S → 0 ≤ size ≤ 64 * n → size < 2 ^ 64 → 0 ≤ offset →
  Q (next_position (has S) size offset) m → wp (find_next_bit a size offset) Q m.
Proof.
  intros HR Hs Hlt Ho HQ. destruct (decide (size ≤ offset)) as [Hge|].
  { rewrite next_position_past in HQ by done. unfold find_next_bit.
    rewrite (proj2 (Z.leb_le _ _)) by done. by apply wp_ret. }
  apply (wp_find_next_bit_answer (has S)); [lia..| |].
  - intros k Hk Hks. apply (represents_word _ _ _ _ _ HR). lia.
  - intros r (Hr&Hf&Ht). by rewrite (next_position_eq (has S) size offset r) by done.
Qed.

Lemma wp_find_next_zero_bit m a n S size offset (Q : Z → memory → Prop) :
  represents m a n S → 0 ≤ size ≤ 64 * n → size < 2 ^ 64 → 0 ≤ offset →
  Q (next_position (λ i, negb (has S i)) size offset) m → wp (find_next_zero_bit a size offset) Q m.
Proof.
  intros HR Hs Hlt Ho HQ. destruct (decide (size ≤ offset)) as [Hge|].
  { rewrite next_position_past in HQ by done. unfold find_next_zero_bit.
    rewrite (proj2 (Z.leb_le _ _)) by done. by apply wp_ret. }
  apply (wp_find_next_zero_bit_answer (λ i, negb (has S i))); [lia..| |].
  - intros k Hk Hks. destruct (represents_word _ _ _ _ k HR) as (v&?&?&Hb); [lia|]. exists v.
    split_and!; [done..|]. intros j Hj. by rewrite negb_involutive, Hb.
  - intros r (Hr&Hf&Ht). by rewrite (next_position_eq (λ i, negb (has S i)) size offset r) by done.
Qed.

(** The last position below [size]. *)
Fixpoint last_below (f : Z → bool) (n : nat) : option Z :=
  match n with
  | O => None
  | S n' => if f (Z.of_nat n') then Some (Z.of_nat n') else last_below f n'
  end.
Definition last_position (f : Z → bool) (size : Z) : Z := default size (last_below f (Z.to_nat size)).

Lemma last_below_Some f n r :
  0 ≤ r < Z.of_nat n → f r = true → (∀ i, r < i < Z.of_nat n → f i = false) → last_below f n = Some r.
Proof.
  induction n as [|n IH]; intros Hr Hf Hz; [lia|]. simpl. destruct (decide (r = Z.of_nat n)) as [->|].
  - by rewrite Hf.
  - rewrite Hz by lia. apply IH; [lia|done|]. intros i Hi. apply Hz. lia.
Qed.

Lemma last_below_None f n : (∀ i, 0 ≤ i < Z.of_nat n → f i = false) → last_below f n = None.
Proof.
  induction n as [|n IH]; intros Hz; [done|]. simpl. rewrite Hz by lia. apply IH. intros i Hi. apply Hz. lia.
Qed.

Lemma found_last_ok (f : Z → bool) size k v :
  0 ≤ size < 2 ^ 63 → 0 ≤ k → word 64 v → v ≠ 0 →
  (∀ j, 0 ≤ j < 64 → Z.testbit v j = (64 * k + j <? size) && f (64 * k + j)) →
  (∀ i, 64 * k + 64 ≤ i < size → f i = false) → found_last k v = last_position f size.
Proof.
  intros Hs Hk Hv Hn Hb Hz. destruct (clz64_spec v Hv Hn) as ([? ?]&Ht&Hlz).
  set (r := 64 * k + (63 - clz64 v)). rewrite Hb in Ht by lia. apply andb_true_iff in Ht as [?%Z.ltb_lt Hf].
  assert (found_last k v = r) as ->.
  { unfold found_last, BITS_PER_LONG. rewrite (u64_small (k * 64)), (u64_small (_ - 1)), u64_small by lia. lia. }
  unfold last_position. rewrite (last_below_Some f _ r); [done|lia|done|]. intros i Hi.
  destruct (decide (64 * k + 64 ≤ i)); [apply Hz; lia|].
  specialize (Hlz (i - 64 * k) ltac:(lia)). rewrite Hb in Hlz by lia.
  replace (64 * k + (i - 64 * k)) with i in Hlz by lia. by rewrite (proj2 (Z.ltb_lt i size)) in Hlz by lia.
Qed.

Lemma word_zero_bits (v : Z) j : v = 0 → Z.testbit v j = false.
Proof. intros ->. apply Z.bits_0. Qed.

Lemma wp_last_words m a n S size k (Q : Z → memory → Prop) :
  represents m a n S → 0 ≤ size ≤ 64 * n → size < 2 ^ 63 → 0 ≤ k → 64 * k ≤ size →
  (∀ i, 64 * k ≤ i < size → has S i = false) → Q (last_position (has S) size) m →
  wp (loop (Datatypes.S (Z.to_nat k)) (last_words a size) k) Q m.
Proof.
  intros HR Hs Hlt Hk Hks Hz HQ.
  apply (wp_loop (λ k m', m' = m ∧ 0 ≤ k ∧ 64 * k ≤ size ∧ ∀ i, 64 * k ≤ i < size → has S i = false)
           (λ k _, Z.to_nat k)); [done|lia|].
  clear k Hk Hks Hz. intros k ? (->&Hk&Hks&Hz). unfold last_words.
  destruct (Z.eqb_spec k 0) as [->|]; simpl.
  { apply wp_ret. unfold last_position in HQ. by rewrite last_below_None in HQ by (intros; apply Hz; lia). }
  rewrite u64_small by lia. destruct (represents_word _ _ _ _ (k - 1) HR) as (v&Hv&Hw&Hb); [lia|].
  wp_step. eapply wp_load; [done|]. destruct (Z.eqb_spec v 0) as [E|E]; simpl; apply wp_ret.
  - split_and!; [done|lia..| |lia]. intros i Hi. destruct (decide (64 * k ≤ i)); [apply Hz; lia|].
    specialize (Hb (i - 64 * (k - 1)) ltac:(lia)). rewrite (word_zero_bits v) in Hb by done.
    by replace (64 * (k - 1) + (i - 64 * (k - 1))) with i in Hb by lia.
  - rewrite (found_last_ok (has S) size) ; [done|lia..|done|done| |].
    + intros j Hj. rewrite Hb, (proj2 (Z.ltb_lt _ _)) by lia. done.
    + intros i Hi. apply Hz. lia.
Qed.

Lemma wp_find_last_bit m a n S size (Q : Z → memory → Prop) :
  represents m a n S → 0 ≤ size ≤ 64 * n → size < 2 ^ 63 →
  Q (last_position (has S) size) m → wp (find_last_bit a size) Q m.
Proof.
  intros HR Hs Hlt HQ. unfold find_last_bit. rewrite land_63. unfold BITS_PER_LONG.
  pose proof (Z.div_mod size 64 ltac:(lia)) as Hdm. pose proof (Z.mod_pos_bound size 64 ltac:(lia)).
  set (k := size / 64) in *. assert (0 ≤ k) by lia.
  destruct (Z.eqb_spec (size mod 64) 0) as [E|E]; simpl.
  { apply (wp_last_words m a n S); try done || lia. }
  destruct (represents_word _ _ _ _ k HR) as (v&Hv&Hw&Hb); [lia|]. wp_step. eapply wp_load; [done|].
  set (tmp := Z.land v _).
  assert (∀ j, 0 ≤ j < 64 → Z.testbit tmp j = (64 * k + j <? size) && has S (64 * k + j)) as Ht.
  { intros j Hj. unfold tmp. rewrite Z.land_spec, testbit_low_mask, Hb, andb_comm by lia. f_equal.
    destruct (Z.ltb_spec j (size mod 64)), (Z.ltb_spec (64 * k + j) size); lia || done. }
  assert (word 64 tmp) as Hwt.
  { apply word_land; [done|]. apply word_shiftr; [done|lia|by apply word_all_ones]. }
  destruct (Z.eqb_spec tmp 0) as [Et|Et]; simpl.
  - apply (wp_last_words m a n S); try done || lia. intros i Hi. specialize (Ht (i - 64 * k) ltac:(lia)).
    rewrite (word_zero_bits tmp) in Ht by done. replace (64 * k + (i - 64 * k)) with i in Ht by lia.
    by rewrite (proj2 (Z.ltb_lt i size)) in Ht by lia.
  - apply wp_ret. rewrite (found_last_ok (has S) size); [done|lia..|done|done|done|]. intros i Hi. lia.
Qed.

Lemma wp_find_first_bit m a n S size (Q : Z → memory → Prop) :
  represents m a n S → 0 ≤ size ≤ 64 * n → size < 2 ^ 63 →
  Q (next_position (has S) size 0) m → wp (find_first_bit a size) Q m.
Proof.
  intros HR Hs Hlt HQ. unfold find_first_bit, BITS_PER_LONG.
  apply (wp_loop (λ c m', m' = m ∧ ∃ k, 0 ≤ k ∧ 64 * k < size + 64 ∧ c = (a + k, 64 * k) ∧
                    ∀ i, 0 ≤ i < 64 * k → i < size → has S i = false)
           (λ c _, Z.to_nat (size / 64 + 1 - c.2 / 64))).
  { split; [done|]. exists 0. rewrite Z.add_0_r. split_and!; [lia..|done|intros; lia]. }
  { cbn [snd]. rewrite Z.div_0_l by done. assert (0 ≤ size / 64) by (apply Z.div_pos; lia). lia. }
  intros c ? (->&k&Hk&Hks&->&Hz). unfold first_words. destruct (Z.ltb_spec (64 * k) size).
  2: { apply wp_ret. rewrite <- (next_position_eq (has S) size 0 size) in HQ; [done|lia| |lia].
       intros i Hi. apply Hz; lia. }
  destruct (represents_word _ _ _ _ k HR) as (v&Hv&Hw&Hb); [lia|]. wp_step. eapply wp_load; [done|].
  destruct (Z.eqb_spec v 0) as [E|E]; simpl; apply wp_ret.
  - assert (64 * k / 64 < size / 64 + 1).
    { rewrite Z.mul_comm, Z.div_mul by done. apply Z.lt_succ_r, Z.div_le_lower_bound; lia. }
    split; [split; [done|]|].
    + exists (k + 1). unfold BITS_PER_LONG. rewrite u64_small by lia.
      split_and!; [lia..|f_equal; lia|]. intros i Hi His. destruct (decide (i < 64 * k)); [apply Hz; lia|].
      specialize (Hb (i - 64 * k) ltac:(lia)). rewrite (word_zero_bits v) in Hb by done.
      by replace (64 * k + (i - 64 * k)) with i in Hb by lia.
    + unfold BITS_PER_LONG. rewrite u64_small by lia. cbn [snd].
      replace (64 * k + 64) with ((k + 1) * 64) by lia. rewrite (Z.mul_comm 64), !Z.div_mul in * by done. lia.
  - destruct (ctz64_spec v Hw E) as ([? ?]&Ht&Hlz). rewrite u64_small by lia. rewrite Hb in Ht by lia.
    assert (∀ i, 0 ≤ i < 64 * k + ctz64 v → i < size → has S i = false) as Hno.
    { intros i Hi His. destruct (decide (i < 64 * k)); [apply Hz; lia|].
      specialize (Hlz (i - 64 * k) ltac:(lia)). rewrite Hb in Hlz by lia.
      by replace (64 * k + (i - 64 * k)) with i in Hlz by lia. }
    destruct (Z.ltb_spec (64 * k + ctz64 v) size).
    + rewrite <- (next_position_eq (has S) size 0 (64 * k + ctz64 v)) in HQ; [done|lia| |done].
      intros i Hi. apply Hno; lia.
    + rewrite <- (next_position_eq (has S) size 0 size) in HQ; [done|lia| |lia]. intros i Hi. apply Hno; lia.
Qed.
