(* ===== verification/BitmapSets.v ===== *)
(** * Operations on bitmaps are operations on sets

    The functions of Bitmap.v that change bits or test whole bitmaps, by the
    sets of positions that the bitmaps represent. *)

From S2P Require Import Prelude Bits Bitmap BitmapOk.

Implicit Types m : memory.

(** Nothing outside the [n] words at [a] has changed. *)
Definition frame (m m' : memory) (a n : Z) : Prop := ∀ p, ¬ (a ≤ p < a + n) → m' !! p = m !! p.

Lemma frame_refl m a n : frame m m a n.
Proof. done. Qed.

Lemma frame_trans m m' m'' a n : frame m m' a n → frame m' m'' a n → frame m m'' a n.
Proof. intros H1 H2 p Hp. by rewrite H2, H1. Qed.

Lemma frame_put m a n k v : 0 ≤ k < n → frame m (<[a + k := v]> m) a n.
Proof. intros Hk p Hp. rewrite lookup_insert_ne by lia. done. Qed.

Lemma frame_filled m m' a n g : filled m m' a n g → frame m m' a n.
Proof. intros Hf p Hp. by apply (filled_other _ _ _ _ _ _ Hf). Qed.

Lemma frame_represents m m' a n b n' S :
  frame m m' a n → represents m b n' S → a + n ≤ b ∨ b + n' ≤ a → represents m' b n' S.
Proof.
  intros Hf (Hw&Hb&HS) Hab. split_and!; [| |done].
  - intros k Hk. rewrite Hf by lia. by apply Hw.
  - intros i Hi. rewrite <- Hb by done. unfold bit. pose proof (div_bounds _ _ Hi). by rewrite Hf by lia.
Qed.

(** ** Single bits *)
Section single.
Context (w : Z) (Hw : width w).

Lemma position_bounds nr n : 0 ≤ nr < w * n → 0 ≤ nr / w < n ∧ 0 ≤ nr mod w < w ∧ nr = w * (nr / w) + nr mod w.
Proof using Hw.
  intros Hn. pose proof (width_pos _ Hw). split_and!; [apply Z.div_pos; lia|apply Z.div_lt_upper_bound; lia| | |].
  1-2: apply Z.mod_pos_bound; lia. apply Z.div_mod. lia.
Qed.

Lemma testbit_mask_of nr j : 0 ≤ j < w → Z.testbit (mask_of w nr) j = (j =? nr mod w).
Proof using Hw.
  intros Hj. pose proof (width_pos _ Hw). unfold mask_of. rewrite testbit_shl, (proj2 (Z.ltb_lt j w)) by lia.
  simpl. assert (∀ i, Z.testbit 1 i = (i =? 0)) as -> by (by intros []).
  destruct (Z.eqb_spec (j - nr mod w) 0), (Z.eqb_spec j (nr mod w)); done || lia.
Qed.

Lemma word_mask_of nr : word w (mask_of w nr).
Proof using Hw. apply word_shl. pose proof (width_pos _ Hw). lia. Qed.

(** Bit [nr] has become [b], and nothing else has changed. *)
Definition bit_set_to (m m' : memory) (a n nr : Z) (b : bool) : Prop :=
  words w m' a n ∧ frame m m' a n ∧
  ∀ i, 0 ≤ i < w * n → bit w m' a i = if decide (i = nr) then b else bit w m a i.

Lemma put_bit_set_to m a n nr v v' b :
  words w m a n → 0 ≤ nr < w * n → m !! (a + nr / w) = Some v → word w v' →
  (∀ j, 0 ≤ j < w → Z.testbit v' j = if decide (j = nr mod w) then b else Z.testbit v j) →
  bit_set_to m (<[a + nr / w := v']> m) a n nr b.
Proof using Hw.
  intros Hm Hn Hv Hv' Hb. destruct (position_bounds nr n Hn) as (Hk&Hj&Hkj). split_and!.
  - intros k Hk'. destruct (decide (k = nr / w)) as [->|]; [exists v'; by rewrite lookup_insert_eq|].
    rewrite lookup_insert_ne by lia. by apply Hm.
  - by apply frame_put.
  - intros i Hi. destruct (position_bounds i n Hi) as (Hk'&Hj'&Hkj'). unfold bit.
    destruct (decide (i / w = nr / w)) as [E|E].
    + rewrite E, lookup_insert_eq, Hv. cbn [default from_option id]. rewrite Hb by done.
      destruct (decide (i mod w = nr mod w)) as [E'|E'], (decide (i = nr)); congruence.
    + rewrite lookup_insert_ne by lia. rewrite decide_False by congruence. done.
Qed.

(** The old value of the bit. *)
Lemma masked_bit v nr : word w v → negb (Z.land v (mask_of w nr) =? 0) = Z.testbit v (nr mod w).
Proof using Hw.
  intros Hv. pose proof (width_pos _ Hw). pose proof (Z.mod_pos_bound nr w ltac:(lia)).
  assert (∀ j, 0 ≤ j < w → Z.testbit (Z.land v (mask_of w nr)) j = (j =? nr mod w) && Z.testbit v (nr mod w)) as Hb.
  { intros j Hj. rewrite Z.land_spec, testbit_mask_of by done.
    destruct (Z.eqb_spec j (nr mod w)) as [->|]; [apply andb_true_r|apply andb_false_r]. }
  assert (word w (Z.land v (mask_of w nr))) as Hl by (apply word_land; [lia|apply word_mask_of]).
  destruct (Z.testbit v (nr mod w)) eqn:Hn.
  - apply negb_true_iff, Z.eqb_neq. intros E. specialize (Hb (nr mod w) ltac:(lia)).
    by rewrite E, Z.bits_0, Z.eqb_refl in Hb.
  - apply negb_false_iff, Z.eqb_eq. apply (word_zero w); [lia|done|]. intros j Hj.
    by rewrite Hb, andb_false_r by done.
Qed.

Lemma land_width_pred i : Z.land i (w - 1) = i mod w.
Proof using Hw.
  assert (∃ k, 0 ≤ k ∧ w = 2 ^ k) as (k&Hk&->).
  { apply (width_cases w); [done|by exists 3|by exists 4|by exists 5|by exists 6]. }
  replace (2 ^ k - 1) with (Z.ones k) by (rewrite Z.ones_equiv; lia). by apply Z.land_ones.
Qed.

Section op.
Context (m : memory) (a n nr : Z) (Hm : words w m a n) (Hn : 0 ≤ nr < w * n).

Lemma word_here : ∃ v, m !! (a + nr / w) = Some v ∧ word w v ∧ bit w m a nr = Z.testbit v (nr mod w).
Proof using Hw Hm Hn.
  destruct (position_bounds nr n Hn) as (Hk&Hj&Hkj). destruct (Hm _ Hk) as (v&Hv&?). exists v.
  split_and!; [done..|]. unfold bit. by rewrite Hv.
Qed.

(** The three ways to write the bit. *)
Definition new_bit (op : Z → Z → Z) (b : bool → bool) : Prop :=
  ∀ v, word w v → word w (op v (mask_of w nr)) ∧
    ∀ j, 0 ≤ j < w → Z.testbit (op v (mask_of w nr)) j =
      if decide (j = nr mod w) then b (Z.testbit v j) else Z.testbit v j.

Lemma new_bit_lor : new_bit Z.lor (λ _, true).
Proof using Hw.
  intros v Hv. pose proof (width_pos _ Hw). split; [apply word_lor; [lia|done|apply word_mask_of]|].
  intros j Hj. rewrite Z.lor_spec, testbit_mask_of by done.
  destruct (Z.eqb_spec j (nr mod w)), (decide _); try done; [apply orb_true_r|apply orb_false_r].
Qed.

Lemma new_bit_andnot : new_bit (λ v mask, Z.land v (wnot w mask)) (λ _, false).
Proof using Hw.
  intros v Hv. pose proof (width_pos _ Hw). split; [apply word_land, word_trunc; lia|].
  intros j Hj. rewrite Z.land_spec, testbit_wnot, testbit_mask_of, (proj2 (Z.ltb_lt j w)) by lia.
  destruct (Z.eqb_spec j (nr mod w)), (decide _); try done; [apply andb_false_r|apply andb_true_r].
Qed.

Lemma new_bit_lxor : new_bit Z.lxor negb.
Proof using Hw.
  intros v Hv. pose proof (width_pos _ Hw). split.
  - apply word_of_bits; [lia|]. intros i Hi. rewrite Z.lxor_spec.
    rewrite (testbit_word w v), (testbit_word w (mask_of w nr)) by (done || lia || apply word_mask_of). done.
  - intros j Hj. rewrite Z.lxor_spec, testbit_mask_of by done.
    destruct (Z.eqb_spec j (nr mod w)), (decide _); try done; by destruct (Z.testbit v j).
Qed.

Lemma wp_write_bit op b (Q : unit → memory → Prop) :
  new_bit op b → (∀ m', bit_set_to m m' a n nr (b (bit w m a nr)) → Q tt m') →
  wp (v ← load (a + nr / w); put (a + nr / w) (op v (mask_of w nr))) Q m.
Proof using Hw Hm Hn.
  intros Hop HQ. destruct word_here as (v&Hv&Hwv&Hb). destruct (Hop v Hwv) as [Hwo Hbo].
  wp_step. eapply wp_load; [done|]. apply wp_put; [by exists v|]. apply HQ.
  apply (put_bit_set_to m a n nr v); [done..|]. intros j Hj. rewrite Hbo by done. rewrite Hb.
  destruct (decide _) as [->|]; done.
Qed.

Lemma wp_test_and_write_bit op b (Q : bool → memory → Prop) :
  new_bit op b → (∀ m', bit_set_to m m' a n nr (b (bit w m a nr)) → Q (bit w m a nr) m') →
  wp (old ← load (a + nr / w); put (a + nr / w) (op old (mask_of w nr));;
      mret (negb (Z.land old (mask_of w nr) =? 0))) Q m.
Proof using Hw Hm Hn.
  intros Hop HQ. destruct word_here as (v&Hv&Hwv&Hb). destruct (Hop v Hwv) as [Hwo Hbo].
  wp_step. eapply wp_load; [done|]. wp_step. apply wp_put; [by exists v|]. apply wp_ret.
  rewrite masked_bit, <- Hb by done. apply HQ.
  apply (put_bit_set_to m a n nr v); [done..|]. intros j Hj. rewrite Hbo by done. rewrite Hb.
  destruct (decide _) as [->|]; done.
Qed.

Lemma wp_test_bit_w (Q : bool → memory → Prop) : Q (bit w m a nr) m → wp (test_bit_w w nr a) Q m.
Proof using Hw Hm Hn.
  intros HQ. destruct word_here as (v&Hv&Hwv&Hb). unfold test_bit_w. rewrite land_width_pred.
  wp_step. eapply wp_load; [done|]. apply wp_ret. rewrite Hb in HQ.
  assert (negb (Z.land 1 (Z.shiftr v (nr mod w)) =? 0) = Z.testbit v (nr mod w)) as ->; [|done].
  rewrite Z.testbit_odd, Z.land_comm. change 1 with (Z.ones 1). rewrite Z.land_ones by lia.
  change (2 ^ 1) with 2. rewrite Zmod_odd. by destruct (Z.odd _).
Qed.
End op.

End single.

Lemma width_64 : width 64.
Proof. unfold width. set_solver. Qed.
Lemma width_32 : width 32.
Proof. unfold width. set_solver. Qed.

(** The set with the positions from [lo] to [hi] added or taken away. *)
Definition interval (lo hi : Z) : gset Z := list_to_set (seqZ lo (hi - lo)).
Definition set_range (b : bool) (lo hi : Z) (S : gset Z) : gset Z :=
  if b then interval lo hi ∪ S else S ∖ interval lo hi.

Lemma elem_of_interval i lo hi : i ∈ interval lo hi ↔ lo ≤ i < hi.
Proof. unfold interval. rewrite elem_of_list_to_set, elem_of_seqZ. lia. Qed.

Lemma has_set_range b lo hi S i :
  has (set_range b lo hi S) i = if decide (lo ≤ i < hi) then b else has S i.
Proof.
  unfold has, set_range. destruct (decide (lo ≤ i < hi)) as [Hi|Hi]; rewrite <- elem_of_interval in Hi.
  - destruct b; [apply bool_decide_eq_true|apply bool_decide_eq_false]; set_solver.
  - apply bool_decide_ext. destruct b; set_solver.
Qed.

Lemma has_spec S i : has S i = true ↔ i ∈ S.
Proof. apply bool_decide_eq_true. Qed.

Lemma set_range_empty b lo S : set_range b lo lo S = S.
Proof. unfold set_range, interval. rewrite Z.sub_diag. destruct b; set_solver. Qed.

Lemma bit_set_to_represents m m' a n nr b S :
  represents m a n S → 0 ≤ nr < 64 * n → bit_set_to 64 m m' a n nr b →
  represents m' a n (set_range b nr (nr + 1) S).
Proof.
  intros (Hm&Hb&HS) Hn (Hm'&_&Hb'). split_and!; [done| |].
  - intros i Hi. rewrite Hb' by done. fold (has (set_range b nr (nr + 1) S) i). rewrite has_set_range.
    destruct (decide (i = nr)) as [->|]; [by rewrite decide_True by lia|].
    rewrite decide_False by lia. by apply Hb.
  - intros i Hi. apply has_spec in Hi. rewrite has_set_range in Hi.
    destruct (decide _); [lia|]. by apply HS, has_spec.
Qed.

(** ** Ranges *)
Ltac tuple_eq :=
  repeat match goal with |- (_, _) = (_, _) => apply pair_equal_spec; split end; first [done|lia].

Section range.
Context (op : Z → Z → Z) (b : bool).
Context (Hop : ∀ v mask, word 64 v → word 64 mask → word 64 (op v mask) ∧
  ∀ j, 0 ≤ j < 64 → Z.testbit (op v mask) j = if Z.testbit mask j then b else Z.testbit v j).

(** Word [k] after the bits of the mask, those from [pos] up to [pos'], are
    changed. *)
Lemma represents_masked m a n S lo pos pos' k v mask :
  represents m a n (set_range b lo pos S) → 0 ≤ k < n → 64 * k ≤ pos ≤ pos' → pos' ≤ 64 * k + 64 → lo ≤ pos →
  m !! (a + k) = Some v → word 64 mask →
  (∀ j, 0 ≤ j < 64 → Z.testbit mask j = true ↔ pos ≤ 64 * k + j < pos') →
  represents (<[a + k := op v mask]> m) a n (set_range b lo pos' S).
Proof using Hop.
  intros HR Hk Hpos Hpos' Hlo Hv Hmask Hmb.
  destruct (represents_word _ _ _ _ k HR Hk) as (v'&Hv'&Hwv&Hb). simplify_eq.
  destruct (Hop v mask Hwv Hmask) as [Hwo Hbo].
  apply (represents_put _ _ _ _ _ _ _ HR); [done..| |].
  - intros j Hj. rewrite Hbo, Hb by done. fold (has (set_range b lo pos S) (64 * k + j)).
    fold (has (set_range b lo pos' S) (64 * k + j)). rewrite !has_set_range.
    destruct (Z.testbit mask j) eqn:Hm.
    + apply Hmb in Hm; [|done]. by rewrite decide_True by lia.
    + assert (¬ (pos ≤ 64 * k + j < pos')) by (rewrite <- Hmb, Hm; done).
      destruct (decide _), (decide _); lia || done.
  - intros i Hi. rewrite <- !has_spec, !has_set_range. destruct (decide _), (decide _); lia || done.
Qed.

(** The loop of [bitmap_set]: the positions up to [pos], in word [k], are done. *)
Definition range_inv (m0 : memory) (a n : Z) (S : gset Z) (start size : Z) (c : Z * Z * Z * Z) (m : memory) : Prop :=
  ∃ k pos mask, c = (a + k, size - pos, 64 * (k + 1) - pos, mask) ∧
    0 ≤ k ∧ 64 * k ≤ pos < 64 * (k + 1) ∧ start ≤ pos ≤ size ∧
    word 64 mask ∧ (∀ j, 0 ≤ j < 64 → Z.testbit mask j = true ↔ pos ≤ 64 * k + j) ∧
    represents m a n (set_range b start pos S) ∧ frame m0 m a n.

Lemma wp_range_body m0 a n S start size c m :
  size ≤ 64 * n → range_inv m0 a n S start size c m →
  wp (range_body op c) (λ r m', match r with
    | inl c' => range_inv m0 a n S start size c' m' ∧
        (Z.to_nat (a + size / 64 - c'.1.1.1) < Z.to_nat (a + size / 64 - c.1.1.1))%nat
    | inr (p, nr, mask) => m' = m ∧ ∃ bits, c = (p, nr, bits, mask) ∧ nr < bits
    end) m.
Proof using Hop.
  intros Hsn (k&pos&mask&->&Hk&Hpos&Hss&Hmw&Hmb&HR&Hf). unfold range_body.
  destruct (Z.leb_spec 0 (size - pos - (64 * (k + 1) - pos))).
  2: { apply wp_ret. split; [done|]. eexists. split; [done|]. lia. }
  destruct (represents_word _ _ _ _ k HR) as (v&Hv&Hwv&_); [lia|].
  wp_step. eapply wp_load; [done|]. wp_step. apply wp_put; [by exists v|]. apply wp_ret. cbn [fst].
  split; [|assert (k + 1 ≤ size / 64) by (apply Z.div_le_lower_bound; lia); lia].
  exists (k + 1), (64 * (k + 1)), (all_ones 64). unfold BITS_PER_LONG. split_and!; [|lia..|by apply word_all_ones| | |].
  - tuple_eq.
  - intros j Hj. rewrite testbit_all_ones, (proj2 (Z.ltb_lt j 64)) by lia. lia.
  - apply (represents_masked _ _ _ _ _ pos _ k v mask); [done|lia..|done|done|].
    intros j Hj. rewrite Hmb by done. lia.
  - eapply frame_trans; [done|]. apply frame_put. lia.
Qed.

Lemma wp_bitmap_range loc m a n S start nr (Q : unit → memory → Prop) :
  represents m a n S → 0 ≤ start → 0 ≤ nr → start + nr ≤ 64 * n →
  (∀ m', represents m' a n (set_range b start (start + nr) S) → frame m m' a n → Q tt m') →
  wp (bitmap_range op loc a start nr) Q m.
Proof using Hop.
  intros HR Hs Hnr Hle HQ. unfold bitmap_range, BIT_WORD, BITS_PER_LONG.
  wp_step. apply wp_assert; [by rewrite !(proj2 (Z.leb_le _ _))|]. wp_step.
  pose proof (Z.div_mod start 64 ltac:(lia)). pose proof (Z.mod_pos_bound start 64 ltac:(lia)).
  set (size := start + nr) in *.
  apply (wp_loop (range_inv m a n S start size) (λ c _, Z.to_nat (a + size / 64 - c.1.1.1))).
  - exists (start / 64), start, (BITMAP_FIRST_WORD_MASK start). split_and!; [|lia..| | | |done].
    + tuple_eq.
    + by apply word_shl.
    + intros j Hj. rewrite testbit_first_mask, Z.leb_le by done. lia.
    + by rewrite set_range_empty.
  - cbn [fst]. assert (size / 64 ≤ start / 64 + nr / 64 + 1); [|lia]. unfold size.
    pose proof (Z.div_mod nr 64). pose proof (Z.mod_pos_bound nr 64).
    apply Z.lt_succ_r, Z.div_lt_upper_bound; lia.
  - intros c m' Hinv. eapply wp_mono; [apply wp_range_body; done || (unfold size; lia)|].
    intros [c'|[[p nr'] mask]] m''; [done|]. intros (->&bits&->&Hlt).
    destruct Hinv as (k&pos&mask'&[= -> -> -> <-]&Hk&Hpos&Hss&Hmw&Hmb&HR'&Hf).
    destruct (Z.eqb_spec (size - pos) 0) as [E|E]; simpl.
    { apply wp_ret, HQ; [|done]. by replace size with pos by lia. }
    destruct (represents_word _ _ _ _ k HR') as (v&Hv&Hwv&_); [lia|].
    wp_step. eapply wp_load; [done|]. apply wp_put; [by exists v|]. apply HQ.
    + apply (represents_masked _ _ _ _ _ pos _ k v); [done|lia..|done|apply word_land; [done|apply word_last_mask]|].
      intros j Hj. assert (size mod 64 = size - 64 * k) as Hm.
      { symmetry. apply (Z.mod_unique _ _ k); lia. }
      rewrite Z.land_spec, testbit_last_mask, Hm, andb_true_iff, Hmb, orb_true_iff, Z.eqb_eq, Z.ltb_lt by done. lia.
    + eapply frame_trans; [done|]. apply frame_put. lia.
Qed.
End range.

Lemma op_lor v mask : word 64 v → word 64 mask → word 64 (Z.lor v mask) ∧
  ∀ j, 0 ≤ j < 64 → Z.testbit (Z.lor v mask) j = if Z.testbit mask j then true else Z.testbit v j.
Proof.
  intros. split; [by apply word_lor|]. intros j Hj. rewrite Z.lor_spec.
  destruct (Z.testbit mask j); [apply orb_true_r|apply orb_false_r].
Qed.

Lemma op_andnot v mask : word 64 v → word 64 mask → word 64 (Z.land v (wnot 64 mask)) ∧
  ∀ j, 0 ≤ j < 64 → Z.testbit (Z.land v (wnot 64 mask)) j = if Z.testbit mask j then false else Z.testbit v j.
Proof.
  intros. split; [by apply word_land, word_trunc|]. intros j Hj.
  rewrite Z.land_spec, testbit_wnot, (proj2 (Z.ltb_lt j 64)) by lia.
  destruct (Z.testbit mask j); [apply andb_false_r|apply andb_true_r].
Qed.

(** ** Tests of whole bitmaps *)
Definition word_of (g : Z → bool) (k v : Z) : Prop :=
  word 64 v ∧ ∀ j, 0 ≤ j < 64 → Z.testbit v j = g (64 * k + j).

Lemma word_of_zero g k v : word_of g k v → v = 0 ↔ ∀ i, 64 * k ≤ i < 64 * k + 64 → g i = false.
Proof.
  intros [Hw Hb]. rewrite (word_zero 64) by done. split.
  - intros Hz i Hi. replace i with (64 * k + (i - 64 * k)) by lia. rewrite <- Hb by lia. apply Hz. lia.
  - intros Hg j Hj. rewrite Hb by done. apply Hg. lia.
Qed.

Definition some_bit (g : Z → bool) (lo hi : Z) : Prop := ∃ i, lo ≤ i < hi ∧ g i = true.

Lemma word_of_nonzero g k v : word_of g k v → v ≠ 0 ↔ some_bit g (64 * k) (64 * k + 64).
Proof.
  intros Hv. split.
  - intros Hn. destruct (word_nonzero 64 v) as (j&Hj&Ht); [done|apply Hv|done|].
    exists (64 * k + j). split; [lia|]. by rewrite <- (proj2 Hv).
  - intros (i&Hi&Hg) Hz. rewrite (proj1 (word_of_zero _ _ _ Hv) Hz i Hi) in Hg. done.
Qed.

Section scan.
Context (m : memory) (word : Z → M memory Z) (g : Z → bool) (bits : Z) (Hbits : 0 ≤ bits).
Context (Hword : ∀ k, 0 ≤ k → 64 * k < bits → wp (word k) (λ v m', m' = m ∧ word_of g k v) m).

Lemma wp_scan_words n lo (Q : bool → memory → Prop) :
  0 ≤ lo → 0 ≤ n → 64 * (lo + n) ≤ bits →
  (∀ r, (r = true ↔ some_bit g (64 * lo) (64 * (lo + n))) → Q r m) →
  wp (scan_words (λ k, v ← word k; mret (negb (v =? 0))) (seqZ lo n)) Q m.
Proof using Hword.
  intros Hlo Hn. revert lo Hlo. pattern n. apply Z.right_induction with (z := 0); [solve_proper| | |done];
    clear n Hn; [|intros n Hn IH]; intros lo Hlo Hle HQ.
  - rewrite seqZ_nil by lia. apply wp_ret, HQ. split; [done|]. intros (i&Hi&_). lia.
  - rewrite seqZ_cons by lia. rewrite Z.pred_succ. simpl. wp_step. wp_step.
    eapply wp_mono; [apply Hword; lia|]. intros v ? [-> Hv]. apply wp_ret.
    destruct (Z.eqb_spec v 0) as [E|E]; simpl.
    + apply IH; [lia..|]. intros r Hr. apply HQ. rewrite Hr. split; intros (i&Hi&Hg).
      * exists i. split; [lia|done].
      * exists i. split; [|done]. destruct (decide (64 * Z.succ lo ≤ i)); [lia|].
        rewrite (proj1 (word_of_zero _ _ _ Hv) E) in Hg by lia. done.
    + apply wp_ret, HQ. split; [intros _|done]. apply (word_of_nonzero _ _ _ Hv) in E as (i&Hi&Hg).
      exists i. split; [lia|done].
Qed.

Lemma wp_scan_bitmap (Q : bool → memory → Prop) :
  (∀ r, (r = true ↔ some_bit g 0 bits) → Q r m) → wp (scan_bitmap word bits) Q m.
Proof using Hword Hbits.
  intros HQ. unfold scan_bitmap, BITS_PER_LONG.
  pose proof (Z.div_mod bits 64 ltac:(lia)) as Hd. pose proof (Z.mod_pos_bound bits 64 ltac:(lia)) as Hm.
  assert (0 ≤ bits / 64) by (apply Z.div_pos; lia). set (lim := bits / 64) in *.
  wp_step. apply wp_scan_words; [lia..|]. rewrite Z.mul_0_r, Z.add_0_l. intros [] Hr.
  { apply wp_ret, HQ. split; [intros _|done]. destruct (proj1 Hr eq_refl) as (i&Hi&Hg). exists i. split; [lia|done]. }
  assert (¬ some_bit g 0 (64 * lim)) as Hno by (intros Hb%Hr; done).
  destruct (Z.eqb_spec (bits mod 64) 0) as [E|E]; simpl.
  { apply wp_ret, HQ. split; [done|]. intros Hs. exfalso. apply Hno. by replace (64 * lim) with bits by lia. }
  wp_step. eapply wp_mono; [apply Hword; lia|]. intros v ? [-> [Hw Hb]]. apply wp_ret, HQ.
  assert (word_of (λ i, (i <? bits) && g i) lim (Z.land v (BITMAP_LAST_WORD_MASK bits))) as Hv.
  { split; [apply word_land; [done|apply word_last_mask]|]. intros j Hj.
    rewrite Z.land_spec, testbit_last_mask, Hb, andb_comm by done. f_equal.
    rewrite (proj2 (Z.eqb_neq _ _)) by done. simpl.
    destruct (Z.ltb_spec j (bits mod 64)), (Z.ltb_spec (64 * lim + j) bits); lia || done. }
  rewrite negb_true_iff, Z.eqb_neq, (word_of_nonzero _ _ _ Hv). split; intros (i&Hi&Hg).
  - apply andb_true_iff in Hg as [?%Z.ltb_lt ?]. exists i. split; [lia|done].
  - destruct (decide (64 * lim ≤ i)).
    + exists i. split; [lia|]. by rewrite (proj2 (Z.ltb_lt _ _)) by lia.
    + exfalso. apply Hno. exists i. split; [lia|done].
Qed.
End scan.

(** The inline versions for bitmaps of one word. *)
Lemma small_test g v bits :
  word_of g 0 v → 0 < bits ≤ 64 →
  negb (Z.land v (BITMAP_LAST_WORD_MASK bits) =? 0) = true ↔ some_bit g 0 bits.
Proof.
  intros [Hw Hb] Hbits. assert (word_of (λ i, (i <? bits) && g i) 0 (Z.land v (BITMAP_LAST_WORD_MASK bits))) as Hv.
  { split; [apply word_land; [done|apply word_last_mask]|]. intros j Hj.
    rewrite Z.land_spec, testbit_last_mask, Hb, andb_comm by done. f_equal.
    destruct (decide (bits = 64)) as [->|].
    - change (64 mod 64 =? 0) with true. symmetry. apply Z.ltb_lt. lia.
    - rewrite Z.mod_small by lia. rewrite (proj2 (Z.eqb_neq _ _)) by lia. done. }
  rewrite negb_true_iff, Z.eqb_neq, (word_of_nonzero _ _ _ Hv). split; intros (i&Hi&Hg).
  - apply andb_true_iff in Hg as [?%Z.ltb_lt ?]. exists i. split; [lia|done].
  - exists i. split; [lia|]. by rewrite (proj2 (Z.ltb_lt _ _)) by lia.
Qed.

Section tests.
Context (m : memory) (a n : Z) (S : gset Z) (nbits : Z).
Context (HS : represents m a n S) (Hnb : 0 < nbits) (Hn : nbits ≤ 64 * n).

Lemma word_of_has k : 0 ≤ k → 64 * k < nbits → ∃ v, m !! (a + k) = Some v ∧ word_of (has S) k v.
Proof using HS Hn.
  intros. destruct (represents_word _ _ _ _ k HS) as (v&?&?&?); [lia|]. exists v. by split_and!.
Qed.

Lemma word_of_not g k v : word_of g k v → word_of (λ i, negb (g i)) k (wnot 64 v).
Proof.
  intros [Hw Hb]. split; [by apply word_trunc|]. intros j Hj. rewrite testbit_wnot by lia.
  rewrite (proj2 (Z.ltb_lt j 64)), Hb by lia. done.
Qed.

Lemma wp_word_has k :
  0 ≤ k → 64 * k < nbits → wp (load (a + k)) (λ v m', m' = m ∧ word_of (has S) k v) m.
Proof using HS Hn. intros. destruct (word_of_has k) as (v&Hv&?); [done..|]. by eapply wp_load. Qed.

Lemma not_some r (P : Prop) : (r = true ↔ P) → negb r = true ↔ ¬ P.
Proof. intros Hr. rewrite <- Hr. by destruct r. Qed.

Lemma wp_bitmap_empty (Q : bool → memory → Prop) :
  (∀ r, (r = true ↔ ¬ some_bit (has S) 0 nbits) → Q r m) → wp (bitmap_empty a nbits) Q m.
Proof using HS Hn Hnb.
  intros HQ. unfold bitmap_empty, small_nbits, BITS_PER_LONG. destruct (Z.leb_spec nbits 64).
  - destruct (word_of_has 0) as (v&Hv&Hw); [lia..|]. rewrite Z.add_0_r in Hv. wp_step. eapply wp_load; [done|].
    apply wp_ret, HQ. rewrite <- (small_test _ v) by (done || lia). by destruct (_ =? 0).
  - unfold slow_bitmap_empty. wp_step. eapply wp_scan_bitmap; [lia|apply wp_word_has|].
    intros r Hr. apply wp_ret, HQ. by apply not_some.
Qed.

Lemma wp_bitmap_full (Q : bool → memory → Prop) :
  (∀ r, (r = true ↔ ¬ some_bit (λ i, negb (has S i)) 0 nbits) → Q r m) → wp (bitmap_full a nbits) Q m.
Proof using HS Hn Hnb.
  intros HQ. unfold bitmap_full, small_nbits, BITS_PER_LONG. destruct (Z.leb_spec nbits 64).
  - destruct (word_of_has 0) as (v&Hv&Hw); [lia..|]. rewrite Z.add_0_r in Hv. wp_step. eapply wp_load; [done|].
    apply word_of_not in Hw. apply wp_ret, HQ. rewrite <- (small_test _ (wnot 64 v)) by (done || lia).
    by destruct (_ =? 0).
  - unfold slow_bitmap_full. wp_step. eapply wp_scan_bitmap; [lia| |].
    + intros k Hk Hlt. wp_step. eapply wp_mono; [by apply wp_word_has|]. intros v ? [-> Hv].
      apply wp_ret. split; [done|]. by apply word_of_not.
    + intros r Hr. apply wp_ret, HQ. by apply not_some.
Qed.

Section two.
Context (b : Z) (T : gset Z) (HT : represents m b n T).

Lemma word_of_op op opb v1 v2 k :
  (∀ x y j, 0 ≤ j → Z.testbit (op x y) j = opb (Z.testbit x j) (Z.testbit y j)) → opb false false = false →
  word_of (has S) k v1 → word_of (has T) k v2 → word_of (λ i, opb (has S i) (has T i)) k (op v1 v2).
Proof.
  intros Hop Hff [Hw1 Hb1] [Hw2 Hb2]. split.
  - apply word_of_bits; [done|]. intros i Hi. rewrite Hop by lia.
    by rewrite (testbit_word 64 v1), (testbit_word 64 v2) by (done || lia).
  - intros j Hj. rewrite Hop, Hb1, Hb2 by lia. done.
Qed.

Lemma wp_two_words op opb k :
  (∀ x y j, 0 ≤ j → Z.testbit (op x y) j = opb (Z.testbit x j) (Z.testbit y j)) → opb false false = false →
  0 ≤ k → 64 * k < nbits →
  wp (v1 ← load (a + k); v2 ← load (b + k); mret (op v1 v2))
    (λ v m', m' = m ∧ word_of (λ i, opb (has S i) (has T i)) k v) m.
Proof using HS HT Hn.
  intros Hop Hff Hk Hlt. destruct (word_of_has k) as (v1&Hv1&H1); [done..|].
  destruct (represents_word _ _ _ _ k HT) as (v2&Hv2&?&?); [lia|].
  wp_step. eapply wp_load; [done|]. wp_step. eapply wp_load; [done|]. apply wp_ret. split; [done|].
  by apply word_of_op.
Qed.

Lemma wp_small_words op opb (Q : bool → memory → Prop) :
  (∀ x y j, 0 ≤ j → Z.testbit (op x y) j = opb (Z.testbit x j) (Z.testbit y j)) → opb false false = false →
  nbits ≤ 64 → (∀ r, (r = true ↔ some_bit (λ i, opb (has S i) (has T i)) 0 nbits) → Q r m) →
  wp (v1 ← load a; v2 ← load b; mret (negb (Z.land (op v1 v2) (BITMAP_LAST_WORD_MASK nbits) =? 0))) Q m.
Proof using HS HT Hn Hnb.
  intros Hop Hff Hle HQ. destruct (word_of_has 0) as (v1&Hv1&H1); [lia..|].
  destruct (represents_word _ _ _ _ 0 HT) as (v2&Hv2&?&?); [lia|]. rewrite Z.add_0_r in Hv1, Hv2.
  wp_step. eapply wp_load; [done|]. wp_step. eapply wp_load; [done|]. apply wp_ret, HQ.
  apply small_test; [|lia]. by apply word_of_op.
Qed.

Lemma wp_bitmap_intersects (Q : bool → memory → Prop) :
  (∀ r, (r = true ↔ some_bit (λ i, has S i && has T i) 0 nbits) → Q r m) → wp (bitmap_intersects a b nbits) Q m.
Proof using HS HT Hn Hnb.
  intros HQ. unfold bitmap_intersects, small_nbits, BITS_PER_LONG. destruct (Z.leb_spec nbits 64).
  - apply (wp_small_words Z.land andb); [intros; apply Z.land_spec|done..].
  - unfold slow_bitmap_intersects. eapply wp_scan_bitmap; [lia| |done].
    intros k Hk Hlt. apply wp_two_words; [intros; apply Z.land_spec|done..].
Qed.

Lemma wp_bitmap_equal (Q : bool → memory → Prop) :
  (∀ r, (r = true ↔ ¬ some_bit (λ i, xorb (has S i) (has T i)) 0 nbits) → Q r m) → wp (bitmap_equal a b nbits) Q m.
Proof using HS HT Hn Hnb.
  intros HQ. unfold bitmap_equal, small_nbits, BITS_PER_LONG. destruct (Z.leb_spec nbits 64).
  - destruct (word_of_has 0) as (v1&Hv1&H1); [lia..|].
    destruct (represents_word _ _ _ _ 0 HT) as (v2&Hv2&?&?); [lia|]. rewrite Z.add_0_r in Hv1, Hv2.
    wp_step. eapply wp_load; [done|]. wp_step. eapply wp_load; [done|]. apply wp_ret, HQ.
    assert (word_of (λ i, xorb (has S i) (has T i)) 0 (Z.lxor v1 v2)) as Hx
      by (apply word_of_op; [intros; apply Z.lxor_spec|done..]).
    rewrite <- (small_test _ _ _ Hx) by lia. by destruct (_ =? 0).
  - unfold slow_bitmap_equal. wp_step. eapply wp_scan_bitmap; [lia| |].
    + intros k Hk Hlt. apply wp_two_words; [intros; apply Z.lxor_spec|done..].
    + intros r Hr. apply wp_ret, HQ. by apply not_some.
Qed.
End two.
End tests.

(** ** Word-by-word updates *)
Section combine.
Context (m : memory) (dst a b n : Z) (Hda : apart dst a n) (Hdb : apart dst b n).
Context (op : Z → Z → Z).
Context (Hd : words 64 m dst n) (Ha : words 64 m a n) (Hb : words 64 m b n).

Definition at_word_of (p k : Z) : Z := default 0 (m !! (p + k)).
Definition combined (k : Z) : Z := op (at_word_of a k) (at_word_of b k).

Lemma wp_combine_words k m' result (Q : Z → memory → Prop) :
  0 ≤ k ≤ n → filled m m' dst k combined →
  (result ≠ 0 ↔ ∃ k', 0 ≤ k' < k ∧ combined k' ≠ 0) →
  (∀ r m', filled m m' dst n combined → (r ≠ 0 ↔ ∃ k', 0 ≤ k' < n ∧ combined k' ≠ 0) → Q r m') →
  wp (combine_words op dst a b (seqZ k (n - k)) result) Q m'.
Proof using Hda Hdb Hd Ha Hb.
  intros Hk Hf Hr HQ. remember (n - k) as d eqn:Ed. assert (0 ≤ d) as Hd0 by lia.
  revert k m' result Hk Hf Hr Ed. pattern d. apply Z.right_induction with (z := 0); [solve_proper| | |done];
    clear d Hd0; [|intros d Hd0 IH]; intros k m' result Hk Hf Hr Ed.
  - rewrite seqZ_nil by lia. apply wp_ret. replace k with n in * by lia. by apply HQ.
  - rewrite seqZ_cons, Z.pred_succ by lia. simpl.
    destruct (Ha k) as (v1&Hv1&?); [lia|]. destruct (Hb k) as (v2&Hv2&?); [lia|]. destruct (Hd k) as (v3&Hv3&?); [lia|].
    assert (op v1 v2 = combined k) as E by (unfold combined, at_word_of; by rewrite Hv1, Hv2).
    wp_step. apply (wp_load _ _ v1); [by rewrite (filled_source _ _ _ _ _ _ _ Hf Hda) by lia|].
    wp_step. apply (wp_load _ _ v2); [by rewrite (filled_source _ _ _ _ _ _ _ Hf Hdb) by lia|].
    wp_step. apply wp_put; [rewrite (filled_other _ _ _ _ _ _ Hf) by lia; by exists v3|].
    rewrite E. apply IH; [lia| | |lia].
    + rewrite <- Z.add_1_r. by apply filled_step; [lia|].
    + rewrite Z.lor_eq_0_iff. destruct (decide (combined k = 0)) as [E0|E0].
      * split; [intros Hn|intros (k'&Hk'&Hn)].
        -- destruct (proj1 Hr) as (k'&?&?); [tauto|]. exists k'. split; [lia|done].
        -- assert (k' ≠ k) by congruence. assert (result ≠ 0); [|tauto]. apply Hr. exists k'. split; [lia|done].
      * split; [intros _|tauto]. exists k. split; [lia|done].
Qed.
End combine.

Lemma in_its_word i : 64 * (i / 64) ≤ i < 64 * (i / 64) + 64.
Proof. pose proof (Z.div_mod i 64). pose proof (Z.mod_pos_bound i 64). lia. Qed.

Section setops.
Context (op : Z → Z → Z) (opb : bool → bool → bool).
Context (Hop : ∀ x y, word 64 x → word 64 y → word 64 (op x y) ∧
  ∀ j, 0 ≤ j < 64 → Z.testbit (op x y) j = opb (Z.testbit x j) (Z.testbit y j)).
Context (m : memory) (dst a b n nbits : Z) (D S T U : gset Z).
Context (Hda : apart dst a n) (Hdb : apart dst b n).
Context (Hnb : 0 < nbits < 2 ^ 63) (Hn : n = (nbits + 63) / 64).
Context (HD : represents m dst n D) (HS : represents m a n S) (HT : represents m b n T).
Context (HU : ∀ i, has U i = opb (has S i) (has T i)) (Hff : opb false false = false).

Lemma words_positive : 0 < n.
Proof using Hnb Hn. rewrite Hn. apply Z.div_str_pos. lia. Qed.

Lemma combined_word k :
  0 ≤ k < n → word_of (has U) k (combined m a b op k).
Proof using Hop HS HT HU.
  intros Hk. destruct (represents_word _ _ _ _ k HS Hk) as (v1&Hv1&Hw1&Hb1).
  destruct (represents_word _ _ _ _ k HT Hk) as (v2&Hv2&Hw2&Hb2).
  unfold combined, at_word_of. rewrite Hv1, Hv2. cbn [default from_option id].
  destruct (Hop v1 v2) as [Hw Hb]; [done..|]. split; [done|]. intros j Hj. by rewrite Hb, Hb1, Hb2, HU.
Qed.

Lemma has_false S' i : i ∉ S' → has S' i = false.
Proof. apply bool_decide_eq_false_2. Qed.

Lemma combined_in i : i ∈ U → 0 ≤ i < 64 * n.
Proof using HS HT HU Hff.
  intros Hi%has_spec. rewrite HU in Hi. destruct (decide (i ∈ S)); [by eapply HS|].
  destruct (decide (i ∈ T)); [by eapply HT|]. by rewrite !has_false, Hff in Hi by done.
Qed.

Lemma combined_nonempty :
  (∃ k, 0 ≤ k < n ∧ combined m a b op k ≠ 0) ↔ U ≠ ∅.
Proof using Hop HS HT HU Hff.
  split.
  - intros (k&Hk&Hc). apply (word_of_nonzero _ _ _ (combined_word k Hk)) in Hc as (i&_&Hi%has_spec).
    intros HU0. rewrite HU0 in Hi. by apply elem_of_empty in Hi.
  - intros (i&Hi)%set_choose_L. pose proof (combined_in i Hi) as Hin. pose proof (div_bounds _ _ Hin).
    exists (i / 64). split; [done|]. apply (word_of_nonzero (has U) (i / 64)); [by apply combined_word|].
    exists i. split; [apply in_its_word|by apply has_spec].
Qed.

Lemma combined_represents m' : filled m m' dst n (combined m a b op) → represents m' dst n U.
Proof using Hop HS HT HU Hff.
  intros Hf. apply (represents_filled _ _ _ _ _ _ Hf).
  - intros k Hk. by apply combined_word.
  - intros k j Hk Hj. by apply combined_word.
  - apply combined_in.
Qed.

Lemma wp_combine (Q : bool → memory → Prop) :
  (∀ m', represents m' dst n U → frame m m' dst n → Q (bool_decide (U ≠ ∅)) m') →
  wp (combine op dst a b nbits) Q m.
Proof using Hop HS HT HU Hff HD Hda Hdb Hnb Hn.
  intros HQ. unfold combine. rewrite BITS_TO_LONGS_spec, <- Hn by lia. pose proof words_positive.
  wp_step. replace (seqZ 0 n) with (seqZ 0 (n - 0)) by (f_equal; lia).
  apply (wp_combine_words m dst a b n); [done|done|apply HD|apply HS|apply HT|lia|apply filled_0| |].
  { split; [done|]. intros (k&?&_). lia. }
  intros r m' Hf Hr. apply wp_ret. rewrite combined_nonempty in Hr.
  replace (negb (r =? 0)) with (bool_decide (U ≠ ∅)).
  { apply HQ; [by apply combined_represents|by eapply frame_filled]. }
  destruct (Z.eqb_spec r 0); simpl; [apply bool_decide_eq_false|apply bool_decide_eq_true]; tauto.
Qed.

Lemma wp_combine_small (Q : bool → memory → Prop) :
  nbits ≤ 64 → (∀ m', represents m' dst n U → frame m m' dst n → Q (bool_decide (U ≠ ∅)) m') →
  wp (v1 ← load a; v2 ← load b; put dst (op v1 v2);; mret (negb (op v1 v2 =? 0))) Q m.
Proof using Hop HS HT HU Hff HD Hda Hdb Hnb Hn.
  intros Hle HQ. assert (n = 1) as E1. { rewrite Hn. symmetry. apply Z.div_unique with (nbits + 63 - 64); lia. }
  destruct (represents_word _ _ _ _ 0 HS) as (v1&Hv1&?&_); [lia|].
  destruct (represents_word _ _ _ _ 0 HT) as (v2&Hv2&?&_); [lia|].
  destruct (represents_word _ _ _ _ 0 HD) as (v3&Hv3&?&_); [lia|]. rewrite Z.add_0_r in Hv1, Hv2, Hv3.
  wp_step. eapply wp_load; [done|]. wp_step. eapply wp_load; [done|]. wp_step.
  apply wp_put; [by exists v3|]. apply wp_ret.
  assert (op v1 v2 = combined m a b op 0) as E.
  { unfold combined, at_word_of. by rewrite !Z.add_0_r, Hv1, Hv2. }
  assert (filled m (<[dst := op v1 v2]> m) dst n (combined m a b op)) as Hf.
  { rewrite E, E1. pose proof (filled_step m m dst 0 (combined m a b op) ltac:(lia) (filled_0 _ _ _)) as Hs.
    by rewrite Z.add_0_r in Hs. }
  replace (negb (op v1 v2 =? 0)) with (bool_decide (U ≠ ∅)).
  { apply HQ; [by apply combined_represents|by eapply frame_filled]. }
  pose proof combined_nonempty as Hne. rewrite E.
  destruct (Z.eqb_spec (combined m a b op 0) 0); simpl.
  - apply bool_decide_eq_false. rewrite <- Hne. intros (k&Hk&Hc). by replace k with 0 in Hc by lia.
  - apply bool_decide_eq_true, Hne. exists 0. split; [lia|done].
Qed.
End setops.

(** [for (k = 0; k < n; ++k) dst[k] = g(k);] *)
Lemma wp_fill_words m dst n (g : Z → Z) (body : Z → M memory unit) (Q : unit → memory → Prop) :
  0 ≤ n →
  (∀ k m', 0 ≤ k < n → filled m m' dst k g → wp (body k) (λ _ m'', m'' = <[dst + k := g k]> m') m') →
  (∀ m', filled m m' dst n g → Q tt m') → wp (for_list (seqZ 0 n) body) Q m.
Proof.
  intros Hn Hbody HQ.
  apply (wp_for_list _ (λ ks m', ∃ k, 0 ≤ k ≤ n ∧ ks = seqZ k (n - k) ∧ filled m m' dst k g)).
  - exists 0. split_and!; [lia..|by rewrite Z.sub_0_r|apply filled_0].
  - intros k ks m' (k'&Hk&Hks&Hf). destruct (decide (k' = n)) as [->|].
    { rewrite Z.sub_diag in Hks. done. }
    rewrite seqZ_cons in Hks by lia. injection Hks as -> ->.
    eapply wp_mono; [by apply Hbody; [lia|]|]. intros _ ? ->. exists (k' + 1). split_and!; [lia..| |].
    + f_equal; lia.
    + by apply filled_step; [lia|].
  - intros m' (k&Hk&Hks&Hf). apply HQ. replace n with k; [done|]. destruct (decide (k = n)); [done|].
    by rewrite seqZ_cons in Hks by lia.
Qed.

Lemma filled_one m dst n v g : n = 1 → g 0 = v → filled m (<[dst := v]> m) dst n g.
Proof.
  intros -> <-. pose proof (filled_step m m dst 0 g ltac:(lia) (filled_0 _ _ _)) as Hs.
  by rewrite Z.add_0_r in Hs.
Qed.

Section fill.
Context (m : memory) (dst n nbits : Z) (D : gset Z).
Context (Hnb : 0 < nbits < 2 ^ 63) (Hn : n = (nbits + 63) / 64) (HD : represents m dst n D).

Lemma nbits_words : 64 * (n - 1) < nbits ≤ 64 * n.
Proof using Hn. rewrite Hn. pose proof (in_its_word (nbits + 63)). lia. Qed.

Lemma is_word k m' g : 0 ≤ k < n → filled m m' dst k g → is_Some (m' !! (dst + k)).
Proof using HD.
  intros Hk Hf. rewrite (filled_other _ _ _ _ _ _ Hf) by lia.
  destruct (represents_word _ _ _ _ k HD Hk) as (v&Hv&_). by exists v.
Qed.

Lemma wp_bitmap_zero (Q : unit → memory → Prop) :
  (∀ m', represents m' dst n ∅ → frame m m' dst n → Q tt m') → wp (bitmap_zero dst nbits) Q m.
Proof using Hnb Hn HD.
  intros HQ. pose proof nbits_words. assert (∀ m', filled m m' dst n (λ _, 0) → Q tt m') as HQ'.
  { intros m' Hf. apply HQ; [|by eapply frame_filled]. apply (represents_filled _ _ _ _ _ _ Hf).
    - intros. split; lia.
    - intros. rewrite Z.bits_0. symmetry. apply bool_decide_eq_false. set_solver.
    - set_solver. }
  unfold bitmap_zero, small_nbits, BITS_PER_LONG. destruct (Z.leb_spec nbits 64).
  - apply wp_put; [|apply HQ', filled_one; lia || done].
    rewrite <- (Z.add_0_r dst). eapply (is_word 0); [lia|apply (filled_0 _ _ (λ _, 0))].
  - rewrite BITS_TO_LONGS_spec, <- Hn by lia. apply (wp_fill_words m dst n (λ _, 0)); [lia| |done].
    intros k m' Hk Hf. by apply wp_put; [eapply is_word|].
Qed.

Definition fill_word (k : Z) : Z := if decide (k = n - 1) then BITMAP_LAST_WORD_MASK nbits else all_ones 64.

Lemma fill_word_of k : 0 ≤ k < n → word_of (has (interval 0 nbits)) k (fill_word k).
Proof using Hnb Hn.
  intros Hk. pose proof nbits_words as Hb.
  assert (∀ i, has (interval 0 nbits) i = bool_decide (0 ≤ i < nbits)) as Hi.
  { intros i. apply bool_decide_ext, elem_of_interval. }
  unfold fill_word. destruct (decide (k = n - 1)) as [->|].
  - split; [apply word_last_mask|]. intros j Hj. rewrite testbit_last_mask, Hi by done.
    assert (nbits mod 64 = if decide (nbits = 64 * n) then 0 else nbits - 64 * (n - 1)) as ->.
    { destruct (decide _) as [->|]; symmetry; [apply (Z.mod_unique _ _ n)|apply (Z.mod_unique _ _ (n - 1))]; lia. }
    destruct (decide _); simpl; symmetry.
    + apply bool_decide_eq_true. lia.
    + rewrite (proj2 (Z.eqb_neq _ _)) by lia. simpl. destruct (Z.ltb_spec j (nbits - 64 * (n - 1)));
        [apply bool_decide_eq_true|apply bool_decide_eq_false]; lia.
  - split; [by apply word_all_ones|]. intros j Hj. rewrite testbit_all_ones, Hi, (proj2 (Z.ltb_lt j 64)) by lia.
    symmetry. apply bool_decide_eq_true. lia.
Qed.

Lemma wp_bitmap_fill (Q : unit → memory → Prop) :
  (∀ m', represents m' dst n (interval 0 nbits) → frame m m' dst n → Q tt m') → wp (bitmap_fill dst nbits) Q m.
Proof using Hnb Hn HD.
  intros HQ. pose proof nbits_words. unfold bitmap_fill. rewrite BITS_TO_LONGS_spec, <- Hn, u64_small by lia.
  assert (∀ m', filled m m' dst (n - 1) fill_word → Q tt (<[dst + (n - 1) := BITMAP_LAST_WORD_MASK nbits]> m')) as HQ'.
  { intros m' Hf. apply filled_step in Hf; [|lia]. unfold fill_word in Hf at 1. rewrite decide_True in Hf by done.
    rewrite Z.sub_add in Hf. apply HQ; [|by eapply frame_filled].
    apply (represents_filled _ _ _ _ _ _ Hf); [intros; by apply fill_word_of|intros; by apply fill_word_of|].
    intros i Hi%elem_of_interval. lia. }
  wp_step. unfold small_nbits, BITS_PER_LONG. apply wp_when; rewrite ?negb_true_iff, ?negb_false_iff, ?Z.leb_gt, ?Z.leb_le; intros Hle.
  - apply (wp_fill_words m dst (n - 1) fill_word); [lia| |].
    + intros k m' Hk Hf. apply wp_put; [eapply is_word; [lia|done]|]. unfold fill_word. by rewrite decide_False by lia.
    + intros m' Hf. apply wp_put; [eapply is_word; [lia|done]|]. by apply HQ'.
  - apply wp_put; [eapply (is_word (n - 1)); [lia|]|apply HQ'].
    all: replace (n - 1) with 0 by lia; apply (filled_0 _ _ fill_word).
Qed.

(** *** Complement and copy *)
Section source.
Context (src : Z) (S : gset Z) (HS : represents m src n S).

Definition complement_word (k : Z) : Z := Z.land (wnot 64 (at_word_of m src k)) (fill_word k).

Lemma source_word k : 0 ≤ k < n → m !! (src + k) = Some (at_word_of m src k) ∧ word_of (has S) k (at_word_of m src k).
Proof using HS.
  intros Hk. destruct (represents_word _ _ _ _ k HS Hk) as (v&Hv&?&?). unfold at_word_of. rewrite Hv. by split_and!.
Qed.

Lemma has_difference A B i : has (A ∖ B) i = has A i && negb (has B i).
Proof.
  unfold has. rewrite <- bool_decide_not, <- bool_decide_and. apply bool_decide_ext, elem_of_difference.
Qed.

Lemma complement_word_of k : 0 ≤ k < n → word_of (has (interval 0 nbits ∖ S)) k (complement_word k).
Proof using Hnb Hn HS.
  intros Hk. destruct (source_word k Hk) as [_ Hs%word_of_not]. destruct (fill_word_of k Hk) as [Hw Hb].
  split; [by apply word_land|]. intros j Hj. unfold complement_word.
  rewrite Z.land_spec, Hb, (proj2 Hs), has_difference by done. apply andb_comm.
Qed.

Lemma complement_full k :
  0 ≤ k → 64 * k + 64 ≤ nbits → complement_word k = wnot 64 (at_word_of m src k).
Proof using Hnb Hn.
  intros Hk Hle. pose proof nbits_words. destruct (fill_word_of k) as [_ Hb]; [lia|].
  apply Z.bits_inj'. intros j Hj. unfold complement_word. rewrite Z.land_spec.
  destruct (decide (j < 64)).
  - rewrite Hb by lia. assert (has (interval 0 nbits) (64 * k + j) = true) as -> by (apply has_spec, elem_of_interval; lia).
    apply andb_true_r.
  - by rewrite testbit_wnot, (proj2 (Z.ltb_ge j 64)) by lia.
Qed.

Lemma complement_filled m' (Q : unit → memory → Prop) :
  (∀ m', represents m' dst n (interval 0 nbits ∖ S) → frame m m' dst n → Q tt m') →
  filled m m' dst n complement_word → Q tt m'.
Proof using Hnb Hn HS.
  intros HQ Hf. apply HQ; [|by eapply frame_filled]. pose proof nbits_words.
  apply (represents_filled _ _ _ _ _ _ Hf); [intros; by apply complement_word_of|intros; by apply complement_word_of|].
  intros i [Hi%elem_of_interval _]%elem_of_difference. lia.
Qed.

Lemma wp_bitmap_complement (Q : unit → memory → Prop) :
  apart dst src n → (∀ m', represents m' dst n (interval 0 nbits ∖ S) → frame m m' dst n → Q tt m') →
  wp (bitmap_complement dst src nbits) Q m.
Proof using Hnb Hn HD HS.
  intros Hap HQ. pose proof nbits_words. pose proof (λ m', complement_filled m' Q HQ) as HQ'. clear HQ.
  unfold bitmap_complement, small_nbits, BITS_PER_LONG. destruct (Z.leb_spec nbits 64).
  - destruct (source_word 0) as [Hv _]; [lia|]. rewrite Z.add_0_r in Hv. wp_step. eapply wp_load; [done|].
    apply wp_put; [rewrite <- (Z.add_0_r dst); eapply (is_word 0); [lia|apply (filled_0 _ _ fill_word)]|].
    apply HQ', filled_one; [lia|]. unfold complement_word, fill_word. by rewrite decide_True by lia.
  - pose proof (Z.div_mod nbits 64 ltac:(lia)). pose proof (Z.mod_pos_bound nbits 64 ltac:(lia)).
    unfold slow_bitmap_complement, BITS_PER_LONG. set (lim := nbits / 64) in *.
    wp_step. apply (wp_fill_words m dst lim complement_word); [lia| |].
    + intros k m' Hk Hf. destruct (source_word k) as [Hv _]; [lia|]. wp_step.
      eapply wp_load; [by rewrite (filled_source _ _ _ _ _ _ _ Hf Hap) by lia|].
      apply wp_put; [eapply is_word; [lia|done]|]. by rewrite complement_full by lia.
    + intros m' Hf. apply wp_when; rewrite ?negb_true_iff, ?negb_false_iff, ?Z.eqb_neq, ?Z.eqb_eq; intros Hm.
      * destruct (source_word lim) as [Hv _]; [lia|]. wp_step.
        eapply wp_load; [by rewrite (filled_source _ _ _ _ _ _ _ Hf Hap) by lia|].
        apply wp_put; [eapply is_word; [lia|done]|]. apply HQ'. apply filled_step in Hf; [|lia].
        replace (lim + 1) with n in Hf by lia. unfold complement_word in Hf at 1. unfold fill_word in Hf at 1.
        by rewrite decide_True in Hf by lia.
      * apply HQ'. by replace n with lim by lia.
Qed.

Lemma wp_bitmap_copy (Q : unit → memory → Prop) :
  dst + n ≤ src ∨ src + n ≤ dst → (∀ m', represents m' dst n S → frame m m' dst n → Q tt m') →
  wp (bitmap_copy dst src nbits) Q m.
Proof using Hnb Hn HD HS.
  intros Hap HQ. pose proof nbits_words.
  assert (∀ m', filled m m' dst n (at_word_of m src) → Q tt m') as HQ'.
  { intros m' Hf. apply HQ; [|by eapply frame_filled].
    apply (represents_filled _ _ _ _ _ _ Hf); [intros; by apply source_word|intros; by apply source_word|].
    intros i. by apply HS. }
  unfold bitmap_copy, small_nbits, BITS_PER_LONG. destruct (Z.leb_spec nbits 64).
  - destruct (source_word 0) as [Hv _]; [lia|]. rewrite Z.add_0_r in Hv. wp_step. eapply wp_load; [done|].
    apply wp_put; [rewrite <- (Z.add_0_r dst); eapply (is_word 0); [lia|apply (filled_0 _ _ fill_word)]|].
    apply HQ', filled_one; [lia|done].
  - unfold copy_words. rewrite BITS_TO_LONGS_spec, <- Hn by lia.
    replace ((dst <? src + n) && (src <? dst + n) && (0 <? n)) with false.
    2: { symmetry. destruct (Z.ltb_spec dst (src + n)), (Z.ltb_spec src (dst + n)); done || lia. }
    apply (wp_fill_words m dst n (at_word_of m src)); [lia| |done]. intros k m' Hk Hf.
    destruct (source_word k) as [Hv _]; [lia|]. wp_step.
    eapply wp_load; [rewrite (filled_source _ _ _ src n _ _ Hf); [done|by right|lia]|].
    by apply wp_put; [eapply is_word; [lia|done]|].
Qed.
End source.
End fill.

(** ** Counting *)
Lemma popcount_word g k v :
  word_of g k v → ctpop64 v = count_bits (λ i, g (64 * k + i)) 64.
Proof. intros [_ Hb]. unfold ctpop64. rewrite popcount_spec. apply count_bits_ext. intros. by apply Hb. Qed.

Lemma count_bits_word g k d : 0 ≤ k → 0 ≤ d →
  count_bits g (64 * k + d) = count_bits g (64 * k) + count_bits (λ i, g (64 * k + i)) d.
Proof. intros. apply count_bits_add; lia. Qed.

Section count.
Context (m : memory) (a n : Z) (S : gset Z) (nbits : Z).
Context (HS : represents m a n S) (Hnb : 0 ≤ nbits) (Hn : nbits ≤ 64 * n).

Lemma wp_count_words d k (Q : Z → memory → Prop) :
  0 ≤ k → 0 ≤ d → 64 * (k + d) ≤ nbits → Q (count_bits (has S) (64 * (k + d))) m →
  wp (count_words a (seqZ k d) (count_bits (has S) (64 * k))) Q m.
Proof using HS Hn.
  intros Hk Hd. revert k Hk. pattern d. apply Z.right_induction with (z := 0); [solve_proper| | |done];
    clear d Hd; [|intros d Hd IH]; intros k Hk Hle HQ.
  - rewrite seqZ_nil by lia. apply wp_ret. by rewrite Z.add_0_r in HQ.
  - rewrite seqZ_cons, Z.pred_succ by lia. simpl.
    destruct (word_of_has m a n S nbits HS Hn k) as (v&Hv&Hw); [lia..|].
    wp_step. eapply wp_load; [done|]. rewrite (popcount_word _ _ _ Hw), <- count_bits_word by lia.
    replace (64 * k + 64) with (64 * Z.succ k) by lia. apply IH; [lia..|].
    by replace (Z.succ k + d) with (k + Z.succ d) by lia.
Qed.

Lemma masked_count g k v d :
  word_of g k v → 0 < d ≤ 64 →
  ctpop64 (Z.land v (BITMAP_LAST_WORD_MASK (64 * k + d))) = count_bits (λ i, g (64 * k + i)) d.
Proof.
  intros [Hw Hb] Hd. unfold ctpop64. rewrite popcount_spec.
  replace (Z.of_nat 64) with (d + (64 - d)) by lia.
  rewrite count_bits_add by lia.
  assert (∀ j, 0 ≤ j < 64 → Z.testbit (BITMAP_LAST_WORD_MASK (64 * k + d)) j = (j <? d)) as Hm.
  { intros j Hj. rewrite testbit_last_mask by done. replace (64 * k + d) with (d + k * 64) by lia.
    rewrite Z.mod_add by done. destruct (decide (d = 64)) as [->|].
    - change (64 mod 64 =? 0) with true. symmetry. apply Z.ltb_lt. lia.
    - rewrite Z.mod_small by lia. by rewrite (proj2 (Z.eqb_neq _ _)) by lia. }
  rewrite (count_bits_ext _ (λ i, g (64 * k + i)) d), (count_bits_none _ (64 - d)); [lia|..]; intros i Hi.
  - rewrite Z.land_spec, Hm by lia. by rewrite (proj2 (Z.ltb_ge _ _)), andb_false_r by lia.
  - rewrite Z.land_spec, Hm, Hb by lia. by rewrite (proj2 (Z.ltb_lt _ _)), andb_true_r by lia.
Qed.

Lemma wp_bitmap_count_one (Q : Z → memory → Prop) :
  Q (count_bits (has S) nbits) m → wp (bitmap_count_one a nbits) Q m.
Proof using HS Hn Hnb.
  intros HQ. unfold bitmap_count_one, small_nbits, BITS_PER_LONG.
  destruct (Z.eqb_spec nbits 0) as [E|E]; [apply wp_ret; rewrite E in HQ; by rewrite count_bits_nonpos in HQ|].
  destruct (Z.leb_spec nbits 64).
  - destruct (word_of_has m a n S nbits HS Hn 0) as (v&Hv&Hw); [lia..|]. rewrite Z.add_0_r in Hv.
    wp_step. eapply wp_load; [done|]. apply wp_ret.
    pose proof (masked_count (has S) 0 v nbits Hw ltac:(lia)) as Hc. rewrite Z.mul_0_r, Z.add_0_l in Hc.
    rewrite Hc. done.
  - unfold slow_bitmap_count_one, BITS_PER_LONG.
    pose proof (Z.div_mod nbits 64 ltac:(lia)). pose proof (Z.mod_pos_bound nbits 64 ltac:(lia)).
    set (lim := nbits / 64) in *. assert (0 ≤ lim) by lia.
    wp_step. apply (wp_count_words lim 0); [lia..|]. rewrite Z.add_0_l.
    destruct (Z.eqb_spec (nbits mod 64) 0) as [Em|Em]; simpl.
    + apply wp_ret. by replace (64 * lim) with nbits by lia.
    + destruct (word_of_has m a n S nbits HS Hn lim) as (v&Hv&Hw); [lia..|].
      wp_step. eapply wp_load; [done|]. apply wp_ret.
      pose proof (masked_count (has S) lim v (nbits mod 64) Hw ltac:(lia)) as Hc.
      replace (64 * lim + nbits mod 64) with nbits in Hc by lia. rewrite Hc, <- count_bits_word by lia.
      by replace (64 * lim + nbits mod 64) with nbits by lia.
Qed.
End count.

(** *** Counting from an offset *)
Lemma represents_tail m a n S d :
  represents m a n S → 0 ≤ d ≤ n →
  ∃ S', represents m (a + d) (n - d) S' ∧ ∀ i, 0 ≤ i < 64 * (n - d) → has S' i = has S (64 * d + i).
Proof.
  intros HR Hd. exists (set_map (λ i, i - 64 * d) (filter (λ i, 64 * d ≤ i) S)).
  assert (∀ i, 0 ≤ i → i ∈ (set_map (λ i, i - 64 * d) (filter (λ i, 64 * d ≤ i) S) : gset Z) ↔ 64 * d + i ∈ S) as Hi.
  { intros i Hi. rewrite elem_of_map. setoid_rewrite elem_of_filter. split.
    - intros (j&->&?&?). by replace (64 * d + (j - 64 * d)) with j by lia.
    - intros ?. exists (64 * d + i). split_and!; [lia..|done]. }
  split; [split_and!|].
  - intros k Hk. rewrite <- Z.add_assoc. apply HR. lia.
  - intros i Hin. destruct HR as (Hw&Hb&_).
    assert (bit 64 m (a + d) i = bit 64 m a (64 * d + i)) as ->.
    { unfold bit. replace (64 * d + i) with (i + d * 64) by lia. rewrite Z.div_add, Z.mod_add by done.
      do 3 f_equal. lia. }
    rewrite Hb by lia. apply bool_decide_ext. symmetry. apply Hi. lia.
  - intros i. rewrite elem_of_map. setoid_rewrite elem_of_filter. intros (j&->&?&Hj).
    apply HR in Hj. lia.
  - intros i Hin. apply bool_decide_ext, Hi. lia.
Qed.

Lemma wp_bitmap_count_one_with_offset m a n S offset nbits (Q : Z → memory → Prop) :
  represents m a n S → 0 ≤ offset → 0 ≤ nbits → offset + nbits ≤ 64 * n →
  Q (count_bits (λ i, has S (offset + i)) nbits) m → wp (bitmap_count_one_with_offset a offset nbits) Q m.
Proof.
  intros HR Ho Hnb Hle HQ. unfold bitmap_count_one_with_offset, BITS_PER_LONG. rewrite Z.div_mul by done.
  pose proof (Z.div_mod offset 64 ltac:(lia)). pose proof (Z.mod_pos_bound offset 64 ltac:(lia)).
  set (d := offset / 64) in *. replace (offset - d * 64) with (offset mod 64) by lia.
  destruct (represents_tail m a n S d HR) as (S'&HR'&HS'); [lia|].
  wp_step. apply (wp_bitmap_count_one m _ (n - d) S'); [done|lia..|].
  wp_step. apply (wp_bitmap_count_one m _ (n - d) S'); [done|lia..|]. apply wp_ret.
  rewrite (Z.add_comm nbits), count_bits_add by lia.
  rewrite (count_bits_ext _ (λ i, has S (offset + i)) nbits).
  - by rewrite Z.add_simpl_l.
  - intros i Hi. rewrite HS' by lia. f_equal. lia.
Qed.
