(* ===== verification/BitmapArea.v ===== *)
(** * Free areas of bitmaps

    [bitmap_find_next_zero_area] finds the first aligned area of zeros. *)

From S2P Require Import Prelude Bits Bitmap BitmapOk BitmapSets.

Implicit Types m : memory.

(** ** Areas of zeros *)
Lemma ALIGN_MASK_spec x e :
  0 ≤ e → 0 ≤ x → x + 2 ^ e < 2 ^ 64 →
  let r := ALIGN_MASK x (2 ^ e - 1) in
  r mod 2 ^ e = 0 ∧ x ≤ r < x + 2 ^ e ∧ ∀ y, x ≤ y → y mod 2 ^ e = 0 → r ≤ y.
Proof.
  intros He Hx Hlt. assert (0 < 2 ^ e) as Hp by lia. unfold ALIGN_MASK. rewrite u64_small by lia.
  set (t := x + (2 ^ e - 1)). assert (Z.land t (wnot 64 (2 ^ e - 1)) = t / 2 ^ e * 2 ^ e) as ->.
  { replace (2 ^ e - 1) with (Z.ones e) by (rewrite Z.ones_equiv; lia).
    replace (t / 2 ^ e * 2 ^ e) with (Z.ldiff t (Z.ones e)).
    - by_bits i. destruct (Z.ltb_spec i 64); [done|].
      rewrite (testbit_word 64 t); [done..|unfold word, t; lia|lia].
    - rewrite Z.ldiff_ones_r, Z.shiftl_mul_pow2, Z.shiftr_div_pow2 by lia. done. }
  pose proof (Z.div_mod t (2 ^ e) ltac:(lia)). pose proof (Z.mod_pos_bound t (2 ^ e) Hp).
  cbv zeta. split_and!; [by apply Z.mod_mul; lia|unfold t in *; lia..|].
  intros y Hy Hm. pose proof (Z.div_mod y (2 ^ e) ltac:(lia)).
  assert (t / 2 ^ e ≤ y / 2 ^ e); [|nia]. apply Z.lt_succ_r, Z.div_lt_upper_bound; [done|].
  unfold t in *. nia.
Qed.

Section area.
Context (S : gset Z) (size start nr e : Z).
Context (Hsize : 0 ≤ size) (Hstart : 0 ≤ start) (Hnr : 0 < nr) (He : 0 ≤ e).
Context (Hlt : size + 2 ^ e + nr < 2 ^ 64) (Hslt : start < 2 ^ 64).

(** An area of [nr] zeros that begins at an aligned position from [start] on. *)
Definition fits (r : Z) : Prop :=
  start ≤ r ∧ r mod 2 ^ e = 0 ∧ r + nr ≤ size ∧ ∀ i, r ≤ i < r + nr → i ∉ S.

Definition area_answer (r : Z) : Prop :=
  (fits r ∧ ∀ r', fits r' → r ≤ r') ∨ (size < r ∧ ∀ r', ¬ fits r').

Lemma wp_area_body m a n start' :
  represents m a n S → size ≤ 64 * n → start ≤ start' → (∀ r, fits r → start' ≤ r) →
  wp (area_body a size nr (2 ^ e - 1) start') (λ r m', m' = m ∧ match r with
    | inl s => start' < s ≤ size ∧ ∀ r, fits r → s ≤ r
    | inr r => area_answer r
    end) m.
Proof using Hsize Hstart Hnr He Hlt.
  intros HR Hn Hs Hno. unfold area_body. wp_step.
  apply (wp_find_next_zero_bit m a n S); [done|lia..|].
  set (z := next_position _ _ _).
  assert (0 ≤ z ≤ size ∧ ∀ r, fits r → z ≤ r) as [Hz Hzr].
  { destruct (decide (start' ≤ size)) as [Hle|Hgt].
    - destruct (next_position_spec (λ i, negb (has S i)) size start' Hle) as (Hz&Hzf&_). fold z in Hz, Hzf.
      split; [lia|]. intros r Hr. pose proof (Hno r Hr). destruct Hr as (?&?&?&HrS).
      destruct (decide (z ≤ r)); [done|]. specialize (Hzf r ltac:(lia)).
      apply negb_false_iff, has_spec in Hzf. exfalso. apply (HrS r); [lia|done].
    - unfold z. rewrite next_position_past by lia. split; [lia|]. intros r Hr. pose proof (Hno r Hr). lia. }
  destruct (ALIGN_MASK_spec z e) as (Hal&Hin&Hleast); [lia..|]. set (index := ALIGN_MASK z (2 ^ e - 1)) in *.
  assert (∀ r, fits r → index ≤ r) as Hir.
  { intros r Hr. apply Hleast; [by apply Hzr|apply Hr]. }
  rewrite u64_small by lia. destruct (Z.ltb_spec size (index + nr)).
  { apply wp_ret. split; [done|]. right. split; [done|]. intros r Hr. pose proof (Hir r Hr).
    destruct Hr as (_&_&?&_). lia. }
  wp_step. apply (wp_find_next_bit m a n S); [done|lia..|].
  destruct (next_position_spec (has S) (index + nr) index ltac:(lia)) as (Hi&Hif&Hit).
  set (i := next_position (has S) (index + nr) index) in *.
  assert (start' ≤ index).
  { destruct (decide (start' ≤ size)) as [Hle|Hgt].
    - destruct (next_position_spec (λ i, negb (has S i)) size start' Hle) as (Hz'&_). fold z in Hz'. lia.
    - assert (z = size) by (unfold z; by rewrite next_position_past by lia). lia. }
  destruct (Z.ltb_spec i (index + nr)); apply wp_ret; (split; [done|]).
  - rewrite u64_small by lia. split; [lia|]. intros r Hr. pose proof (Hir r Hr).
    destruct (decide (i + 1 ≤ r)); [done|]. exfalso. destruct Hr as (_&_&_&HrS).
    apply (HrS i); [lia|]. apply has_spec, Hit. done.
  - left. split; [|done]. split_and!; [lia|done|lia|]. intros j Hj Hjs. apply has_spec in Hjs.
    rewrite Hif in Hjs by lia. done.
Qed.

Lemma wp_bitmap_find_next_zero_area m a n (Q : Z → memory → Prop) :
  represents m a n S → size ≤ 64 * n → (∀ r, area_answer r → Q r m) →
  wp (bitmap_find_next_zero_area a size start nr (2 ^ e - 1)) Q m.
Proof using Hsize Hstart Hnr He Hlt.
  intros HR Hn HQ. unfold bitmap_find_next_zero_area.
  apply (wp_loop (λ s m', m' = m ∧ start ≤ s ∧ ∀ r, fits r → s ≤ r) (λ s _, Z.to_nat (size + 1 - s))).
  - split_and!; [done..|]. by intros r (?&_).
  - lia.
  - intros s ? (->&Hs&Hno). eapply wp_mono; [by apply (wp_area_body m a n s)|].
    intros [s'|r] ? [-> Hr]; [|by apply HQ]. destruct Hr as [? ?]. split_and!; [done|lia|done|lia].
Qed.
End area.

(** C28: the first free area is found.  [bitmap_find_next_zero_area] returns the
    first position from [start] on that is a multiple of the alignment and
    begins [nr] zero bits within the bitmap, and a position beyond the bitmap
    exactly when there is none; it leaves the bitmap as it was. *)
Theorem zero_area_first m a n S size start nr e :
  represents m a n S → 0 ≤ size ≤ 64 * n → 0 ≤ start → 0 < nr → 0 ≤ e → size + 2 ^ e + nr < 2 ^ 64 →
  ∃ r, bitmap_find_next_zero_area a size start nr (2 ^ e - 1) m = Ok r m ∧
    (r ≤ size ↔ ∃ r', fits S size start nr e r') ∧
    (r ≤ size → fits S size start nr e r ∧ ∀ r', fits S size start nr e r' → r ≤ r').
Proof.
  intros HR Hs Hst Hnr He Hlt.
  enough (wp (bitmap_find_next_zero_area a size start nr (2 ^ e - 1))
    (λ r m', m' = m ∧ area_answer S size start nr e r) m) as Hw.
  { apply wp_ok in Hw as (r&?&Hrun&->&Ha). exists r. split; [done|]. destruct Ha as [[Hf Hl]|[Hgt Hno]].
    - split; [|done]. split; [eauto|]. intros _. destruct Hf as (_&_&?&_). lia.
    - split; [|lia]. split; [lia|]. intros [r' Hr']. by destruct (Hno r'). }
  apply (wp_bitmap_find_next_zero_area S size start nr e) with (n := n); done || lia || idtac.
Qed.

Definition area_bits : memory := {[ 0 := 0x00FF; 1 := 0 ]}.

Lemma zero_area_first_witness :
  ∃ r, bitmap_find_next_zero_area 0 100 3 20 (2 ^ 4 - 1) area_bits = Ok r area_bits ∧
    (r ≤ 100 ↔ ∃ r', fits (interval 0 8) 100 3 20 4 r') ∧
    (r ≤ 100 → fits (interval 0 8) 100 3 20 4 r ∧ ∀ r', fits (interval 0 8) 100 3 20 4 r' → r ≤ r').
Proof.
  apply (zero_area_first area_bits 0 2 (interval 0 8) 100 3 20 4); [|lia..].
  split_and!.
  - intros k Hk. assert (k = 0 ∨ k = 1) as [-> | ->] by lia; eexists; (split; [reflexivity|split; lia]).
  - intros i Hi. destruct (position_bounds 64 width_64 i 2 Hi) as (Hk&Hj&E). unfold bit.
    assert (i / 64 = 0 ∨ i / 64 = 1) as [Hz|Hz] by lia; rewrite Hz in *.
    + change (default 0 (area_bits !! (0 + 0))) with (Z.ones 8). destruct (decide (i mod 64 < 8)).
      * rewrite Z.ones_spec_low by lia. symmetry. apply bool_decide_eq_true, elem_of_interval. lia.
      * rewrite Z.ones_spec_high by lia. symmetry. apply bool_decide_eq_false. rewrite elem_of_interval. lia.
    + change (default 0 (area_bits !! (0 + 1))) with 0. rewrite Z.bits_0. symmetry.
      apply bool_decide_eq_false. rewrite elem_of_interval. lia.
  - intros i Hi%elem_of_interval. lia.
Defined.
