(* ===== verification/BitmapRefine.v ===== *)
(** * Any number of bitmaps refine as many sets

    A client of the bitmap library holds bitmaps of [nbits] bits each, at
    addresses that do not overlap, and runs any sequence of operations on
    them.  [bitmaps_refine_sets]: every operation returns, without an access
    outside the bitmaps, what the operation on sets of positions returns, and
    at the end the bitmaps represent the sets, with their unused bits zero. *)

From S2P Require Import Prelude Bits Bitmap BitmapOk BitmapSets BitmapArea.

Inductive bm_op :=
  | SetBit (x : nat) (nr : Z)
  | ClearBit (x : nat) (nr : Z)
  | ChangeBit (x : nat) (nr : Z)
  | TestAndSetBit (x : nat) (nr : Z)
  | TestAndClearBit (x : nat) (nr : Z)
  | TestAndChangeBit (x : nat) (nr : Z)
  | TestBit (x : nat) (nr : Z)
  | SetRange (x : nat) (start nr : Z)
  | ClearRange (x : nat) (start nr : Z)
  | And (dst x y : nat)
  | AndNot (dst x y : nat)
  | Or (dst x y : nat)
  | Xor (dst x y : nat)
  | Complement (dst x : nat)
  | Copy (dst x : nat)
  | Zero (x : nat)
  | Fill (x : nat)
  | Empty (x : nat)
  | Full (x : nat)
  | Equal (x y : nat)
  | Intersects (x y : nat)
  | Count (x : nat) (offset len : Z)
  | FindNext (x : nat) (offset : Z)
  | FindNextZero (x : nat) (offset : Z)
  | FindFirst (x : nat)
  | FindFirstZero (x : nat)
  | FindLast (x : nat).

(** Results of tests on bits, and counts, as tests and sizes of sets. *)
Lemma b2z_bool_decide (r : bool) (P : Prop) `{Decision P} : (r = true ↔ P) → Z.b2z r = Z.b2z (bool_decide P).
Proof. intros Hr. f_equal. destruct (bool_decide_reflect P), r; tauto || naive_solver. Qed.

Lemma not_nonempty (S : gset Z) : ¬ (S ≠ ∅) ↔ S = ∅.
Proof. destruct (decide (S = ∅)); tauto. Qed.

Lemma count_size S offset len :
  count_bits (λ i, has S (offset + i)) len = Z.of_nat (base.size (S ∩ interval offset (offset + len))).
Proof.
  unfold count_bits. f_equal. rewrite <- filter_shift, fmap_add_seqZ, Z.add_0_r.
  rewrite <- (size_list_to_set (C := gset Z)) by apply NoDup_filter, NoDup_seqZ. f_equal.
  apply set_eq. intros i. rewrite elem_of_list_to_set, list_elem_of_filter, elem_of_intersection, elem_of_interval.
  rewrite elem_of_seqZ. rewrite has_spec. naive_solver lia.
Qed.

Section refine.
(** [count] bitmaps of [nbits] bits, in [n] words each. *)
Context (count : nat) (addr : nat → Z) (nbits n : Z).
Context (Hnb : 0 < nbits < 2 ^ 63) (Hn : n = (nbits + 63) / 64).
Context (Hapart : ∀ x y, (x < count)%nat → (y < count)%nat → x ≠ y → addr x + n ≤ addr y ∨ addr y + n ≤ addr x).

Definition quiet (m : M memory unit) : M memory Z := m;; mret 0.
Definition flag (m : M memory bool) : M memory Z := b ← m; mret (Z.b2z b).

(** The call of the library. *)
Definition run_op (o : bm_op) : M memory Z :=
  match o with
  | SetBit x nr => quiet (set_bit nr (addr x))
  | ClearBit x nr => quiet (clear_bit nr (addr x))
  | ChangeBit x nr => quiet (change_bit nr (addr x))
  | TestAndSetBit x nr => flag (test_and_set_bit nr (addr x))
  | TestAndClearBit x nr => flag (test_and_clear_bit nr (addr x))
  | TestAndChangeBit x nr => flag (test_and_change_bit nr (addr x))
  | TestBit x nr => flag (test_bit nr (addr x))
  | SetRange x start nr => quiet (bitmap_set (addr x) start nr)
  | ClearRange x start nr => quiet (bitmap_clear (addr x) start nr)
  | And d x y => flag (bitmap_and (addr d) (addr x) (addr y) nbits)
  | AndNot d x y => flag (bitmap_andnot (addr d) (addr x) (addr y) nbits)
  | Or d x y => quiet (bitmap_or (addr d) (addr x) (addr y) nbits)
  | Xor d x y => quiet (bitmap_xor (addr d) (addr x) (addr y) nbits)
  | Complement d x => quiet (bitmap_complement (addr d) (addr x) nbits)
  | Copy d x => quiet (bitmap_copy (addr d) (addr x) nbits)
  | Zero x => quiet (bitmap_zero (addr x) nbits)
  | Fill x => quiet (bitmap_fill (addr x) nbits)
  | Empty x => flag (bitmap_empty (addr x) nbits)
  | Full x => flag (bitmap_full (addr x) nbits)
  | Equal x y => flag (bitmap_equal (addr x) (addr y) nbits)
  | Intersects x y => flag (bitmap_intersects (addr x) (addr y) nbits)
  | Count x offset len => bitmap_count_one_with_offset (addr x) offset len
  | FindNext x offset => find_next_bit (addr x) nbits offset
  | FindNextZero x offset => find_next_zero_bit (addr x) nbits offset
  | FindFirst x => find_first_bit (addr x) nbits
  | FindFirstZero x => find_first_zero_bit (addr x) nbits
  | FindLast x => find_last_bit (addr x) nbits
  end.

Fixpoint run_ops (ops : list bm_op) : M memory (list Z) :=
  match ops with
  | [] => mret []
  | o :: ops' => r ← run_op o; rs ← run_ops ops'; mret (r :: rs)
  end.

(** The same on sets. *)
Abbreviation sets := (nat → gset Z).
Definition all_positions : gset Z := interval 0 nbits.

Definition spec_op (o : bm_op) (A : sets) : Z * sets :=
  match o with
  | SetBit x nr => (0, <[x := {[ nr ]} ∪ A x]> A)
  | ClearBit x nr => (0, <[x := A x ∖ {[ nr ]}]> A)
  | ChangeBit x nr => (0, <[x := if has (A x) nr then A x ∖ {[ nr ]} else {[ nr ]} ∪ A x]> A)
  | TestAndSetBit x nr => (Z.b2z (has (A x) nr), <[x := {[ nr ]} ∪ A x]> A)
  | TestAndClearBit x nr => (Z.b2z (has (A x) nr), <[x := A x ∖ {[ nr ]}]> A)
  | TestAndChangeBit x nr =>
      (Z.b2z (has (A x) nr), <[x := if has (A x) nr then A x ∖ {[ nr ]} else {[ nr ]} ∪ A x]> A)
  | TestBit x nr => (Z.b2z (has (A x) nr), A)
  | SetRange x start nr => (0, <[x := interval start (start + nr) ∪ A x]> A)
  | ClearRange x start nr => (0, <[x := A x ∖ interval start (start + nr)]> A)
  | And d x y => (Z.b2z (bool_decide (A x ∩ A y ≠ ∅)), <[d := A x ∩ A y]> A)
  | AndNot d x y => (Z.b2z (bool_decide (A x ∖ A y ≠ ∅)), <[d := A x ∖ A y]> A)
  | Or d x y => (0, <[d := A x ∪ A y]> A)
  | Xor d x y => (0, <[d := (A x ∖ A y) ∪ (A y ∖ A x)]> A)
  | Complement d x => (0, <[d := all_positions ∖ A x]> A)
  | Copy d x => (0, <[d := A x]> A)
  | Zero x => (0, <[x := ∅]> A)
  | Fill x => (0, <[x := all_positions]> A)
  | Empty x => (Z.b2z (bool_decide (A x = ∅)), A)
  | Full x => (Z.b2z (bool_decide (A x = all_positions)), A)
  | Equal x y => (Z.b2z (bool_decide (A x = A y)), A)
  | Intersects x y => (Z.b2z (bool_decide (A x ∩ A y ≠ ∅)), A)
  | Count x offset len => (Z.of_nat (size (A x ∩ interval offset (offset + len))), A)
  | FindNext x offset => (next_position (has (A x)) nbits offset, A)
  | FindNextZero x offset => (next_position (λ i, negb (has (A x) i)) nbits offset, A)
  | FindFirst x => (next_position (has (A x)) nbits 0, A)
  | FindFirstZero x => (next_position (λ i, negb (has (A x) i)) nbits 0, A)
  | FindLast x => (last_position (has (A x)) nbits, A)
  end.

Fixpoint spec_ops (ops : list bm_op) (A : sets) : list Z * sets :=
  match ops with
  | [] => ([], A)
  | o :: ops' => let '(r, A') := spec_op o A in let '(rs, A'') := spec_ops ops' A' in (r :: rs, A'')
  end.

Definition legal_op (o : bm_op) : Prop :=
  match o with
  | SetBit x nr | ClearBit x nr | ChangeBit x nr | TestAndSetBit x nr | TestAndClearBit x nr
  | TestAndChangeBit x nr | TestBit x nr => (x < count)%nat ∧ 0 ≤ nr < nbits
  | SetRange x start nr | ClearRange x start nr | Count x start nr =>
      (x < count)%nat ∧ 0 ≤ start ∧ 0 ≤ nr ∧ start + nr ≤ nbits
  | And d x y | AndNot d x y | Or d x y | Xor d x y => (d < count)%nat ∧ (x < count)%nat ∧ (y < count)%nat
  | Complement d x => (d < count)%nat ∧ (x < count)%nat
  | Copy d x => (d < count)%nat ∧ (x < count)%nat ∧ d ≠ x
  | Zero x | Fill x | Empty x | Full x | FindFirst x | FindFirstZero x | FindLast x => (x < count)%nat
  | Equal x y | Intersects x y => (x < count)%nat ∧ (y < count)%nat
  | FindNext x offset | FindNextZero x offset => (x < count)%nat ∧ 0 ≤ offset
  end.

(** The bitmaps represent the sets [A]; their unused bits are zero. *)
Definition hold (m : memory) (A : sets) : Prop :=
  ∀ x, (x < count)%nat → represents m (addr x) n (A x) ∧ A x ⊆ all_positions.

Lemma hold_update m m' A x S :
  hold m A → (x < count)%nat → represents m' (addr x) n S → frame m m' (addr x) n → S ⊆ all_positions →
  hold m' (<[x := S]> A).
Proof using Hapart.
  intros HA Hx HS Hf Hsub y Hy. destruct (decide (y = x)) as [->|].
  - by rewrite fn_lookup_insert.
  - rewrite fn_lookup_insert_ne by done. destruct (HA y Hy) as [HR ?]. split; [|done].
    apply (frame_represents _ _ _ _ _ _ _ Hf HR). by apply Hapart.
Qed.

Definition refines (m : memory) (A : sets) (o : bm_op) : Prop :=
  wp (run_op o) (λ r m', r = (spec_op o A).1 ∧ hold m' (spec_op o A).2) m.

Lemma wp_quiet (c : M memory unit) (Q : Z → memory → Prop) m : wp c (λ _ m', Q 0 m') m → wp (quiet c) Q m.
Proof. intros H. unfold quiet. wp_step. eapply wp_mono; [done|]. intros [] m' HQ. by apply wp_ret. Qed.

Lemma wp_flag (c : M memory bool) (Q : Z → memory → Prop) m :
  wp c (λ b m', Q (Z.b2z b) m') m → wp (flag c) Q m.
Proof. intros H. unfold flag. wp_step. eapply wp_mono; [done|]. intros b m' HQ. by apply wp_ret. Qed.

Lemma n_bounds : 0 < n ∧ nbits ≤ 64 * n.
Proof using Hnb Hn.
  split; [by eapply words_positive|]. destruct (nbits_words n nbits Hn). done.
Qed.

Lemma interval_one nr : interval nr (nr + 1) = {[ nr ]}.
Proof. apply set_eq. intros i. rewrite elem_of_interval, elem_of_singleton. lia. Qed.

Section step.
Context (m : memory) (A : sets) (HA : hold m A).

Lemma holds_words x : (x < count)%nat → words 64 m (addr x) n.
Proof using HA. intros Hx. apply (HA x Hx). Qed.

Lemma holds_bit x nr : (x < count)%nat → 0 ≤ nr < nbits → bit 64 m (addr x) nr = has (A x) nr.
Proof using HA Hnb Hn. intros Hx Hnr. destruct n_bounds. destruct (HA x Hx) as [(_&Hb&_) _]. apply Hb. lia. Qed.

Lemma hold_bit m' x nr (b : bool) S :
  (x < count)%nat → 0 ≤ nr < nbits → bit_set_to 64 m m' (addr x) n nr b → S = set_range b nr (nr + 1) (A x) →
  hold m' (<[x := S]> A).
Proof using HA Hnb Hn Hapart.
  intros Hx Hnr Hb ->. destruct n_bounds. destruct (HA x Hx) as [HR Hsub].
  apply (hold_update m); [done..| |apply Hb|].
  - apply (bit_set_to_represents m); [done|lia|done].
  - unfold set_range. rewrite interval_one. unfold all_positions in *. intros i.
    destruct b; rewrite ?elem_of_union, ?elem_of_difference, ?elem_of_singleton; [|by intros [? _]; apply Hsub].
    intros [->|?]; [by apply elem_of_interval|by apply Hsub].
Qed.

Lemma write_ok x nr op b :
  (x < count)%nat → 0 ≤ nr < nbits → new_bit 64 nr op b →
  wp (v ← load (addr x + nr / 64); put (addr x + nr / 64) (op v (mask_of 64 nr)))
    (λ _ m', hold m' (<[x := set_range (b (has (A x) nr)) nr (nr + 1) (A x)]> A)) m.
Proof using HA Hnb Hn Hapart.
  intros Hx Hnr Hop. destruct n_bounds.
  apply (wp_write_bit 64 width_64 m (addr x) n nr (holds_words x Hx) ltac:(lia) op b); [done|].
  intros m' Hb. rewrite holds_bit in Hb by done. by apply (hold_bit m' x nr (b (has (A x) nr))).
Qed.

Lemma test_and_write_ok x nr op b :
  (x < count)%nat → 0 ≤ nr < nbits → new_bit 64 nr op b →
  wp (old ← load (addr x + nr / 64); put (addr x + nr / 64) (op old (mask_of 64 nr));;
      mret (negb (Z.land old (mask_of 64 nr) =? 0)))
    (λ r m', r = has (A x) nr ∧ hold m' (<[x := set_range (b (has (A x) nr)) nr (nr + 1) (A x)]> A)) m.
Proof using HA Hnb Hn Hapart.
  intros Hx Hnr Hop. destruct n_bounds.
  apply (wp_test_and_write_bit 64 width_64 m (addr x) n nr (holds_words x Hx) ltac:(lia) op b); [done|].
  intros m' Hb. rewrite holds_bit in * by done. split; [done|]. by apply (hold_bit m' x nr (b (has (A x) nr))).
Qed.

Lemma set_range_one b nr S : set_range b nr (nr + 1) S = if b then {[ nr ]} ∪ S else S ∖ {[ nr ]}.
Proof. unfold set_range. by rewrite interval_one. Qed.

Lemma single_bit_ok o :
  legal_op o →
  match o with
  | SetBit _ _ | ClearBit _ _ | ChangeBit _ _ | TestAndSetBit _ _ | TestAndClearBit _ _
  | TestAndChangeBit _ _ | TestBit _ _ => refines m A o
  | _ => True
  end.
Proof using HA Hnb Hn Hapart.
  pose proof width_64 as W. destruct o; try done; intros [Hx Hnr]; unfold refines; cbn [run_op spec_op fst snd].
  - apply wp_quiet. eapply wp_mono; [by apply (write_ok x nr Z.lor (λ _, true)), (new_bit_lor 64 W)|].
    intros ? m'. by rewrite set_range_one.
  - apply wp_quiet. eapply wp_mono; [by apply (write_ok x nr (λ v mask, Z.land v (wnot 64 mask)) (λ _, false)), (new_bit_andnot 64 W)|].
    intros ? m'. by rewrite set_range_one.
  - apply wp_quiet. eapply wp_mono; [by apply (write_ok x nr Z.lxor negb), (new_bit_lxor 64 W)|].
    intros ? m'. rewrite set_range_one. by destruct (has (A x) nr).
  - apply wp_flag. eapply wp_mono; [by apply (test_and_write_ok x nr Z.lor (λ _, true)), (new_bit_lor 64 W)|].
    intros r m' [-> ?]. by rewrite set_range_one in *.
  - apply wp_flag. eapply wp_mono; [by apply (test_and_write_ok x nr (λ v mask, Z.land v (wnot 64 mask)) (λ _, false)), (new_bit_andnot 64 W)|].
    intros r m' [-> ?]. by rewrite set_range_one in *.
  - apply wp_flag. eapply wp_mono; [by apply (test_and_write_ok x nr Z.lxor negb), (new_bit_lxor 64 W)|].
    intros r m' [-> Hm]. rewrite set_range_one in Hm. split; [done|]. by destruct (has (A x) nr).
  - apply wp_flag. destruct n_bounds. apply (wp_test_bit_w 64 W m (addr x) n); [by apply holds_words|lia|].
    by rewrite holds_bit.
Qed.

Lemma range_ok o :
  legal_op o →
  match o with SetRange _ _ _ | ClearRange _ _ _ => refines m A o | _ => True end.
Proof using HA Hnb Hn Hapart.
  destruct n_bounds. destruct o; try done; intros (Hx&Hs&Hnr&Hle); unfold refines; cbn [run_op spec_op fst snd];
    apply wp_quiet; destruct (HA x Hx) as [HR Hsub].
  - apply (wp_bitmap_range Z.lor true op_lor _ m (addr x) n (A x)); [done|lia..|].
    intros m' HR' Hf. split; [done|]. apply (hold_update m); [done..|].
    intros i [Hi|Hi]%elem_of_union; [|by apply Hsub]. apply elem_of_interval in Hi. apply elem_of_interval. lia.
  - apply (wp_bitmap_range _ false op_andnot _ m (addr x) n (A x)); [done|lia..|].
    intros m' HR' Hf. split; [done|]. apply (hold_update m); [done..|].
    intros i [Hi _]%elem_of_difference. by apply Hsub.
Qed.

Lemma apart_names x y : (x < count)%nat → (y < count)%nat → apart (addr x) (addr y) n.
Proof using Hapart.
  intros Hx Hy. destruct (decide (x = y)) as [->|]; [by left|]. right. by apply Hapart.
Qed.

Lemma fits_small : small_nbits nbits = true → nbits ≤ 64.
Proof. apply Z.leb_le. Qed.

(** The inline version for one word, or the loop. *)
Lemma combine_ok op opb d x y U :
  (∀ v w, word 64 v → word 64 w → word 64 (op v w) ∧
     ∀ j, 0 ≤ j < 64 → Z.testbit (op v w) j = opb (Z.testbit v j) (Z.testbit w j)) →
  opb false false = false → (∀ i, has U i = opb (has (A x) i) (has (A y) i)) →
  (d < count)%nat → (x < count)%nat → (y < count)%nat →
  wp (if small_nbits nbits
      then v1 ← load (addr x); v2 ← load (addr y); put (addr d) (op v1 v2);; mret (negb (op v1 v2 =? 0))
      else combine op (addr d) (addr x) (addr y) nbits)
    (λ r m', r = bool_decide (U ≠ ∅) ∧ hold m' (<[d := U]> A)) m.
Proof using HA Hnb Hn Hapart.
  intros Hop Hff HU Hd Hx Hy. destruct (HA d Hd) as [HD _]. destruct (HA x Hx) as [HX Hxs]. destruct (HA y Hy) as [HY Hys].
  assert (∀ m', represents m' (addr d) n U → frame m m' (addr d) n → hold m' (<[d := U]> A)) as Hok.
  { intros m' HR Hf. apply (hold_update m); [done..|]. intros i Hi%has_spec. rewrite HU in Hi.
    destruct (has (A x) i) eqn:E; [by apply Hxs, has_spec|].
    destruct (has (A y) i) eqn:E'; [by apply Hys, has_spec|]. by rewrite Hff in Hi. }
  pose proof (apart_names d x Hd Hx). pose proof (apart_names d y Hd Hy).
  destruct (small_nbits nbits) eqn:Hs.
  - apply (wp_combine_small op opb Hop m _ _ _ n nbits (A d) (A x) (A y) U); try done; [by apply fits_small|].
    intros m' ??. split; [done|by apply Hok].
  - apply (wp_combine op opb Hop m _ _ _ n nbits (A d) (A x) (A y) U); try done.
    intros m' ??. split; [done|by apply Hok].
Qed.

Lemma op_land v w : word 64 v → word 64 w → word 64 (Z.land v w) ∧
  ∀ j, 0 ≤ j < 64 → Z.testbit (Z.land v w) j = Z.testbit v j && Z.testbit w j.
Proof. intros. split; [by apply word_land|]. intros. apply Z.land_spec. Qed.

Lemma op_ldiff v w : word 64 v → word 64 w → word 64 (Z.land v (wnot 64 w)) ∧
  ∀ j, 0 ≤ j < 64 → Z.testbit (Z.land v (wnot 64 w)) j = Z.testbit v j && negb (Z.testbit w j).
Proof.
  intros. split; [by apply word_land, word_trunc|]. intros. rewrite Z.land_spec, testbit_wnot by lia.
  by rewrite (proj2 (Z.ltb_lt j 64)) by lia.
Qed.

Lemma op_union v w : word 64 v → word 64 w → word 64 (Z.lor v w) ∧
  ∀ j, 0 ≤ j < 64 → Z.testbit (Z.lor v w) j = Z.testbit v j || Z.testbit w j.
Proof. intros. split; [by apply word_lor|]. intros. apply Z.lor_spec. Qed.

Lemma op_lxor v w : word 64 v → word 64 w → word 64 (Z.lxor v w) ∧
  ∀ j, 0 ≤ j < 64 → Z.testbit (Z.lxor v w) j = xorb (Z.testbit v j) (Z.testbit w j).
Proof.
  intros Hv Hw. split; [|intros; apply Z.lxor_spec]. apply word_of_bits; [done|]. intros i Hi.
  by rewrite Z.lxor_spec, (testbit_word 64 v), (testbit_word 64 w) by (done || lia).
Qed.

Lemma has_intersection S T i : has (S ∩ T) i = has S i && has T i.
Proof. unfold has. rewrite <- bool_decide_and. apply bool_decide_ext, elem_of_intersection. Qed.

Lemma has_union S T i : has (S ∪ T) i = has S i || has T i.
Proof. unfold has. rewrite <- bool_decide_or. apply bool_decide_ext, elem_of_union. Qed.

(** The procedures that do not return whether the result is empty. *)
Lemma drop_result (c1 c2 : M memory Z) (p : Z → Z → M memory unit) (f : Z → Z → bool)
    (c : M memory bool) (small : bool) (Q : unit → memory → Prop) m0 :
  wp (if small then v1 ← c1; v2 ← c2; p v1 v2;; mret (f v1 v2) else c) (λ _ m', Q tt m') m0 →
  wp (if small then v1 ← c1; v2 ← c2; p v1 v2 else _ ← c; mret tt) Q m0.
Proof.
  unfold wp, mbind, M_bind, mret, M_ret. destruct small; [|by destruct (c m0)].
  destruct (c1 m0) as [v1 m1|]; [|done]. destruct (c2 m1) as [v2 m2|]; [|done].
  by destruct (p v1 v2 m2) as [[] m3|].
Qed.

Lemma has_xor S T i : has ((S ∖ T) ∪ (T ∖ S)) i = xorb (has S i) (has T i).
Proof. rewrite has_union, !has_difference. by destruct (has S i), (has T i). Qed.

Lemma setop_ok o :
  legal_op o →
  match o with And _ _ _ | AndNot _ _ _ | Or _ _ _ | Xor _ _ _ => refines m A o | _ => True end.
Proof using HA Hnb Hn Hapart.
  destruct o; try done; intros (Hd&Hx&Hy); unfold refines; cbn [run_op spec_op fst snd].
  - apply wp_flag. eapply wp_mono; [apply (combine_ok Z.land andb dst x y (A x ∩ A y)); try done|].
    + apply op_land.
    + apply has_intersection.
    + by intros r m' [-> ?].
  - apply wp_flag. eapply wp_mono;
      [apply (combine_ok (λ v w, Z.land v (wnot 64 w)) (λ b b', b && negb b') dst x y (A x ∖ A y)); try done|].
    + apply op_ldiff.
    + apply has_difference.
    + by intros r m' [-> ?].
  - apply wp_quiet. unfold bitmap_or, slow_bitmap_or. apply (drop_result _ _ _ (λ v1 v2, negb (Z.lor v1 v2 =? 0))).
    eapply wp_mono; [apply (combine_ok Z.lor orb dst x y (A x ∪ A y)); try done|].
    + apply op_union.
    + apply has_union.
    + by intros r m' [_ ?].
  - apply wp_quiet. unfold bitmap_xor, slow_bitmap_xor. apply (drop_result _ _ _ (λ v1 v2, negb (Z.lxor v1 v2 =? 0))).
    eapply wp_mono; [apply (combine_ok Z.lxor xorb dst x y); try done|].
    + apply op_lxor.
    + apply has_xor.
    + by intros r m' [_ ?].
Qed.

Lemma whole_ok o :
  legal_op o →
  match o with Complement _ _ | Copy _ _ | Zero _ | Fill _ => refines m A o | _ => True end.
Proof using HA Hnb Hn Hapart.
  destruct o; try done; unfold refines; cbn [run_op spec_op fst snd legal_op].
  - intros [Hd Hx]. destruct (HA _ Hd) as [HD _], (HA _ Hx) as [HX Hsub]. apply wp_quiet.
    apply (wp_bitmap_complement m _ n nbits (A dst) Hnb Hn HD (addr x) (A x) HX); [by apply apart_names|].
    intros m' HR Hf. split; [done|]. apply (hold_update m); [done..|]. by intros i [? _]%elem_of_difference.
  - intros (Hd&Hx&Hdx). destruct (HA _ Hd) as [HD _], (HA _ Hx) as [HX Hsub]. apply wp_quiet.
    apply (wp_bitmap_copy m _ n nbits (A dst) Hnb Hn HD (addr x) (A x) HX); [by apply Hapart|].
    intros m' HR Hf. split; [done|]. by apply (hold_update m).
  - intros Hx. destruct (HA _ Hx) as [HX Hsub]. apply wp_quiet.
    apply (wp_bitmap_zero m _ n nbits (A x) Hnb Hn HX). intros m' HR Hf. split; [done|]. apply (hold_update m); [done..|].
    by intros i ?%elem_of_empty.
  - intros Hx. destruct (HA _ Hx) as [HX Hsub]. apply wp_quiet.
    apply (wp_bitmap_fill m _ n nbits (A x) Hnb Hn HX). intros m' HR Hf. split; [done|]. by apply (hold_update m).
Qed.

Lemma some_bit_set (f : Z → bool) (S : gset Z) :
  (∀ i, f i = has S i) → S ⊆ all_positions → some_bit f 0 nbits ↔ S ≠ ∅.
Proof.
  intros Hf Hsub. split.
  - intros (i&_&Hi). rewrite Hf, has_spec in Hi. intros ->. by apply elem_of_empty in Hi.
  - intros (i&Hi)%set_choose_L. exists i. rewrite Hf, has_spec. split; [|done].
    by apply Hsub, elem_of_interval in Hi.
Qed.

Lemma full_iff x : (x < count)%nat → ¬ some_bit (λ i, negb (has (A x) i)) 0 nbits ↔ A x = all_positions.
Proof using HA.
  intros Hx. destruct (HA x Hx) as [_ Hsub]. split.
  - intros Hno. apply set_eq. intros i. split; [apply Hsub|]. intros Hi. apply has_spec.
    destruct (has (A x) i) eqn:E; [done|]. exfalso. apply Hno. exists i. rewrite E.
    split; [by apply elem_of_interval|done].
  - intros E (i&Hi&Hn'). rewrite E in Hn'. unfold has in Hn'. rewrite bool_decide_eq_true_2 in Hn'; [done|].
    by apply elem_of_interval.
Qed.

Lemma equal_iff x y :
  (x < count)%nat → (y < count)%nat → ¬ some_bit (λ i, xorb (has (A x) i) (has (A y) i)) 0 nbits ↔ A x = A y.
Proof using HA Hnb Hn Hapart.
  intros Hx Hy. destruct (HA x Hx) as [_ Hxs], (HA y Hy) as [_ Hys].
  rewrite (some_bit_set _ ((A x ∖ A y) ∪ (A y ∖ A x))), not_nonempty.
  - split; [|intros ->; set_solver]. intros E. apply set_eq. intros i.
    assert (has ((A x ∖ A y) ∪ (A y ∖ A x)) i = false) as Hi by (rewrite E; by apply has_false, not_elem_of_empty).
    rewrite has_xor in Hi. rewrite <- !has_spec. by destruct (has (A x) i), (has (A y) i).
  - intros i. by rewrite has_xor.
  - intros i [[? _]%elem_of_difference|[? _]%elem_of_difference]%elem_of_union; [by apply Hxs|by apply Hys].
Qed.

Lemma test_ok o :
  legal_op o →
  match o with Empty _ | Full _ | Equal _ _ | Intersects _ _ => refines m A o | _ => True end.
Proof using HA Hnb Hn Hapart.
  destruct n_bounds. destruct o; try done; unfold refines; cbn [run_op spec_op fst snd legal_op].
  - intros Hx. destruct (HA _ Hx) as [HX Hsub]. apply wp_flag.
    apply (wp_bitmap_empty m (addr x) n (A x) nbits HX); [lia..|].
    intros r Hr. split; [|done]. apply b2z_bool_decide. by rewrite Hr, (some_bit_set _ (A x)), not_nonempty.
  - intros Hx. destruct (HA _ Hx) as [HX Hsub]. apply wp_flag.
    apply (wp_bitmap_full m (addr x) n (A x) nbits HX); [lia..|].
    intros r Hr. split; [|done]. apply b2z_bool_decide. by rewrite Hr, full_iff.
  - intros [Hx Hy]. destruct (HA _ Hx) as [HX _], (HA _ Hy) as [HY _]. apply wp_flag.
    apply (wp_bitmap_equal m (addr x) n (A x) nbits HX ltac:(lia) ltac:(lia) (addr y) (A y) HY).
    intros r Hr. split; [|done]. apply b2z_bool_decide. by rewrite Hr, equal_iff.
  - intros [Hx Hy]. destruct (HA _ Hx) as [HX Hxs], (HA _ Hy) as [HY _]. apply wp_flag.
    apply (wp_bitmap_intersects m (addr x) n (A x) nbits HX ltac:(lia) ltac:(lia) (addr y) (A y) HY).
    intros r Hr. split; [|done]. apply b2z_bool_decide. rewrite Hr. apply some_bit_set.
    + intros i. by rewrite has_intersection.
    + intros i [? _]%elem_of_intersection. by apply Hxs.
Qed.

Lemma search_ok o :
  legal_op o →
  match o with
  | Count _ _ _ | FindNext _ _ | FindNextZero _ _ | FindFirst _ | FindFirstZero _ | FindLast _ => refines m A o
  | _ => True
  end.
Proof using HA Hnb Hn.
  destruct n_bounds. destruct o; try done; unfold refines; cbn [run_op spec_op fst snd legal_op].
  - intros (Hx&?&?&?). apply (wp_bitmap_count_one_with_offset m (addr x) n (A x)); [by apply HA|lia..|].
    split; [by rewrite count_size|done].
  - intros [Hx ?]. by apply (wp_find_next_bit m (addr x) n (A x)); [apply HA|lia..|].
  - intros [Hx ?]. by apply (wp_find_next_zero_bit m (addr x) n (A x)); [apply HA|lia..|].
  - intros Hx. by apply (wp_find_first_bit m (addr x) n (A x)); [apply HA|lia..|].
  - intros Hx. by apply (wp_find_next_zero_bit m (addr x) n (A x)); [apply HA|lia..|].
  - intros Hx. by apply (wp_find_last_bit m (addr x) n (A x)); [apply HA|lia..|].
Qed.

Lemma op_refines o : legal_op o → refines m A o.
Proof using HA Hnb Hn Hapart.
  intros Ho. pose proof (single_bit_ok o Ho). pose proof (range_ok o Ho). pose proof (setop_ok o Ho).
  pose proof (whole_ok o Ho). pose proof (test_ok o Ho). pose proof (search_ok o Ho). by destruct o.
Qed.
End step.

(** C26: bitmaps refine sets.  Any sequence of operations of the bitmap library
    (single bits, ranges, unions and the like, copies, tests, counts, searches)
    on any number of bitmaps at addresses that do not overlap returns what the
    operations on sets of positions return, stays within the bitmaps, and
    leaves bitmaps that represent the sets, their unused bits zero. *)
Theorem bitmaps_refine_sets ops m A :
  Forall legal_op ops → hold m A →
  ∃ m', run_ops ops m = Ok (spec_ops ops A).1 m' ∧ hold m' (spec_ops ops A).2.
Proof using Hnb Hn Hapart.
  revert m A. induction ops as [|o ops IH]; intros m A Hops HA; [by exists m|].
  apply Forall_cons in Hops as [Ho Hops]. pose proof (op_refines m A HA o Ho) as Hr. unfold refines in Hr.
  apply wp_ok in Hr as (r&m1&Hrun&->&HA1). destruct (IH m1 _ Hops HA1) as (m2&Hrun2&HA2).
  exists m2. simpl. unfold mbind, M_bind. rewrite Hrun, Hrun2.
  destruct (spec_op o A) as [r A1]. cbn [fst snd] in *. by destruct (spec_ops ops A1).
Qed.
End refine.

(** ** Examples *)
Lemma zeros_represent (m : memory) a n :
  (∀ k, 0 ≤ k < n → m !! (a + k) = Some 0) → represents m a n ∅.
Proof.
  intros Hz. split_and!; [|intros i Hi|by intros i ?%elem_of_empty].
  - intros k Hk. exists 0. split; [by apply Hz|done].
  - unfold bit. rewrite Hz by by apply div_bounds. cbn [default from_option id]. rewrite Z.bits_0.
    symmetry. apply bool_decide_eq_false_2, not_elem_of_empty.
Qed.

(** Two bitmaps of 100 bits. *)
Definition two_bitmaps : memory := {[ 0 := 0; 1 := 0; 10 := 0; 11 := 0 ]}.
Definition two_addrs (x : nat) : Z := 10 * Z.of_nat x.
Definition two_ops : list bm_op :=
  [SetRange 0 60 10; SetBit 1 99; Or 1 0 1; ClearRange 1 62 5; Count 1 0 100; FindNext 1 62; Intersects 0 1;
   Complement 0 1; FindFirstZero 0; TestAndClearBit 1 60; FindLast 1; Equal 0 1].

Lemma bitmaps_refine_sets_witness :
  ∃ m', run_ops two_addrs 100 two_ops two_bitmaps = Ok (spec_ops 100 two_ops (λ _, ∅)).1 m' ∧
    hold 2 two_addrs 100 2 m' (spec_ops 100 two_ops (λ _, ∅)).2.
Proof.
  apply (bitmaps_refine_sets 2 two_addrs 100 2); [lia|done| | |].
  - intros x y Hx Hy Hxy. unfold two_addrs. lia.
  - repeat constructor; cbn; lia.
  - intros x Hx. split; [|by intros i ?%elem_of_empty]. apply zeros_represent. intros k Hk.
    assert (k = 0 ∨ k = 1) as [-> | ->] by lia;
      destruct x as [|[|x]]; [reflexivity|reflexivity|lia|reflexivity|reflexivity|lia].
Defined.

(** The result of [bitmap_and] also depends on unused bits: the bitmap of one
    bit it leaves is empty, yet it reports a bit. *)
Lemma and_counts_unused_bits :
  let m : memory := {[ 0 := 0; 1 := 2; 2 := 2 ]} in
  ∃ m', bitmap_and 0 1 2 1 m = Ok true m' ∧ bitmap_empty 0 1 m' = Ok true m'.
Proof. eexists. split; [reflexivity|reflexivity]. Qed.
