(* ===== verification/Pml.v ===== *)
(** * Dirty-page logs of virtual machines (src/src/ucm/telem/source/qemu-pml.c,
      src/src/ucm/ipc/qemu.c)

    A QEMU process connects, gets a shared memory region, and from time to
    time writes a bitmap of the base pages that its guest has dirtied there
    and sends a message; the manager goes through the bitmap, clears it and
    looks up the pages.

    The sockets and the shared memory are the environment: what [accept] and
    [recv] return is an argument, and so is the region that [mmap] maps. *)

From S2P Require Import Prelude Fifo Ring F64 ProcList Types Hotness Mm MmAsync Ucm Process Migrate Inv TableOk ProcessOk EpochOk EvolveOk Ipc IpcOk ServerOk Machine Bits Bitmap BitmapOk BitmapSets BitmapArea BitmapRefine.

Record qemu_client_info := QemuClient {
  cl_pid : Z;
  cl_shm_region : Z;
}.

(** The manager, the memory the regions are mapped in, and [qemu_ipc_ctx]. *)
Record qemu_ipc_ctx := QemuIpc {
  q_ucm : ucm;
  q_mem : memory;
  client_map : gmap Z qemu_client_info;
  pml_update_epoll : gset Z;
}.
#[global] Instance eta_qemu : Eta qemu_ipc_ctx :=
  λ r, QemuIpc (q_ucm r) (q_mem r) (client_map r) (pml_update_epoll r).
#[global] Instance set_q_ucm : Setter q_ucm := ltac:(mk_setter).
#[global] Instance set_q_mem : Setter q_mem := ltac:(mk_setter).
#[global] Instance set_client_map : Setter client_map := ltac:(mk_setter).
#[global] Instance set_pml_update_epoll : Setter pml_update_epoll := ltac:(mk_setter).

(** ** qemu-pml.c *)
Definition bitmap_page_sz : Z := 4096.

Definition pml_body (bitmap nbits hva : Z) (process : ptr) (st : Z * Z) :
    M qemu_ipc_ctx ((Z * Z) + Z) :=
  let '(bit, pages_found) := st in
  bit ← zoom q_mem (find_next_bit bitmap nbits bit);
  if nbits <=? bit then mret (inr pages_found)
  else
    dirty ← zoom q_mem (test_and_clear_bit bit bitmap);
    assert_ "qemu-pml.c:30" dirty;;
    let vm_pa_offset := u64 (bit * bitmap_page_sz) in
    let va := u64 (hva + vm_pa_offset) in
    page ← zoom q_ucm (mm_find_page process va);
    mret (inl (bit, if is_null page then pages_found else u64 (pages_found + 1))).

(** The numbers that the log reports. *)
Definition process_pml_bitmap (bitmap bytes pid hva : Z) : M qemu_ipc_ctx (Z * Z) :=
  o ← zoom q_ucm (find_process pid);
  assert_ "qemu-pml.c:17" (negb (is_null o));;
  process ← nonnull o;
  let nbits := u64 (bytes * 8) in
  ndirty_bits ← zoom q_mem (bitmap_count_one_with_offset bitmap 0 nbits);
  pages_found ← loop (S (Z.to_nat nbits)) (pml_body bitmap nbits hva process) (0, 0);
  mret (ndirty_bits, pages_found).

(** ** qemu.c *)
Definition SHM_SIZE : Z := 1024 * 1024.

(** What [recv] returns: a payload, the end of the connection, an error. *)
Inductive recv_result := Received (nbytes hva : Z) | Disconnected | RecvFailed.

Definition handle_qemu_client_msg (client_fd : Z) (payload : recv_result) : M qemu_ipc_ctx unit :=
  clients ← gets client_map;
  assert_ "qemu.c:141" (negb (is_null (clients !! client_fd)));;
  cl ← nonnull (clients !! client_fd);
  match payload with
  | Received nbytes hva => _ ← process_pml_bitmap (cl_shm_region cl) nbytes (cl_pid cl) hva; mret tt
  | Disconnected | RecvFailed => mret tt
  end.

Definition handle_dropped_qemu_connection (closed_fd : Z) : M qemu_ipc_ctx unit :=
  modify (λ c, c <| pml_update_epoll ::= λ e, e ∖ {[ closed_fd ]} |>);;
  clients ← gets client_map;
  assert_ "qemu.c:164" (negb (is_null (clients !! closed_fd)));;
  modify (λ c, c <| client_map ::= delete closed_fd |>).

(** A new connection: the descriptor and the pid the client sends, and the
    address and the words of the region that is mapped for it.  A connection
    that fails leaves the pid undefined. *)
Definition accept_and_setup_qemu_client (accepted : option (Z * Z)) (shm_ptr : Z) (region : memory) :
    M qemu_ipc_ctx unit :=
  match accepted with
  | None => fail (Undefined "pid of a client that has not connected")
  | Some (client_fd, pid) =>
      modify (λ c, c <| q_mem ::= λ m, region ∪ m |>);;
      clients ← gets client_map;
      match clients !! client_fd with
      | Some _ => fail (Undefined "HASH_ADD of a key that is in the table")
      | None =>
          modify (λ c, c <| client_map := <[client_fd := QemuClient pid shm_ptr]> clients |>);;
          modify (λ c, c <| pml_update_epoll ::= union {[ client_fd ]} |>)
      end
  end.

Inductive pml_event := Dropped (fd : Z) | Readable (fd : Z) (payload : recv_result) | OtherEvent (fd : Z).

(** One pass over the events of [epoll_wait] in [handle_pml_updates]. *)
Definition handle_pml_updates (events : list pml_event) : M qemu_ipc_ctx unit :=
  for_list events (λ ev, match ev with
    | Dropped fd => handle_dropped_qemu_connection fd
    | Readable fd payload => handle_qemu_client_msg fd payload
    | OtherEvent _ => fail (AssertFail "qemu.c:196")
    end).

(** ** What a scan does *)
Lemma difference_interval S k i i' :
  0 ≤ k ≤ i → i ≤ i' → (∀ j, k ≤ j < i → j ∉ S) → (i' = i ∨ i' = i + 1) →
  S ∖ interval 0 k ∖ interval i i' = S ∖ interval 0 i'.
Proof.
  intros Hk Hi Hno Hi'. apply set_eq. intros j. rewrite !elem_of_difference, !elem_of_interval.
  destruct (decide (k ≤ j < i)) as [Hj|Hj]; [pose proof (Hno j Hj); tauto|].
  split; [intros [[? ?] ?]; split; [done|lia]|intros [? ?]; split_and!; [done|lia..]].
Qed.

Section scan.
Context (s : ucm) (L : list ptr) (K : gset (unit + ptr)) (HM : mgr_inv s L K).
Context (A : list_id → list ptr) (R : ptr → ring_sel → list ptr) (W : option ptr) (HI : ucm_inv s A R W).
Context (cl : gmap Z qemu_client_info) (ep : gset Z) (m0 : memory).
Context (bitmap n nbits hva : Z) (S : gset Z) (p : ptr) (r : hemem_process) (Hr : u_procs s !! p = Some r).
Context (Hn : nbits ≤ 64 * n) (Hnb : 0 ≤ nbits < 2 ^ 63).

(** The page of position [i] of the bitmap is in the table of the process. *)
Definition logged_page (i : Z) : bool :=
  negb (is_null (mm_pages (pr_mm r) !! u64 (hva + u64 (i * bitmap_page_sz)))).
Definition found_below (k : Z) : Z := count_bits (λ i, has S i && logged_page i) k.

Definition first_left (c : qemu_ipc_ctx) (bit_ : Z) : Z :=
  if bit 64 (q_mem c) bitmap bit_ then bit_ else bit_ + 1.

(** The positions below [k] are done. *)
Definition cleared (m : memory) (k : Z) : Prop :=
  represents m bitmap n (S ∖ interval 0 k) ∧ frame m0 m bitmap n.
Definition scanned (c : qemu_ipc_ctx) (st : Z * Z) : Prop :=
  ∃ k m, c = QemuIpc s m cl ep ∧ (k = st.1 ∨ k = st.1 + 1) ∧ 0 ≤ st.1 ∧ k ≤ nbits ∧
    cleared m k ∧ st.2 = found_below k.

Lemma found_none k i :
  0 ≤ k ≤ i → (∀ j, k ≤ j < i → j ∉ S) → found_below i = found_below k.
Proof.
  intros Hk Hno. unfold found_below. replace i with (k + (i - k)) by lia. rewrite count_bits_add by lia.
  rewrite (count_bits_none _ (i - k)); [lia|]. intros j Hj. rewrite has_false; [done|]. apply Hno. lia.
Qed.

Lemma found_step k i :
  0 ≤ k ≤ i → (∀ j, k ≤ j < i → j ∉ S) → i ∈ S →
  found_below (i + 1) = found_below k + Z.b2z (logged_page i).
Proof.
  intros Hk Hno Hi%has_spec. rewrite <- (found_none k i) by done. unfold found_below.
  rewrite count_bits_add, count_bits_first, Z.add_0_r, Hi by lia. done.
Qed.

Lemma found_range k : 0 ≤ k → 0 ≤ found_below k ≤ k.
Proof. apply count_bits_range. Qed.

(** The bit found is cleared. *)
Lemma wp_clear_found m k i (Q : bool → memory → Prop) :
  cleared m k → 0 ≤ k ≤ i → i < nbits → (∀ j, k ≤ j < i → j ∉ S) → i ∈ S →
  (∀ m', cleared m' (i + 1) → bit 64 m' bitmap i = false → Q true m') →
  wp (test_and_clear_bit i bitmap) Q m.
Proof using Hn.
  intros [HR Hf] Hk Hi Hno Hin HQ. assert (0 ≤ i < 64 * n) as Hin' by lia.
  apply (wp_test_and_write_bit 64 width_64 m bitmap n i (proj1 HR) Hin' (λ v mask, Z.land v (wnot 64 mask)) (λ _, false));
    [apply (new_bit_andnot 64 width_64)|].
  intros m' Hb. assert (bit 64 m bitmap i = true) as ->.
  { rewrite (proj1 (proj2 HR)) by done. apply bool_decide_eq_true. rewrite elem_of_difference, elem_of_interval.
    split; [done|lia]. }
  apply HQ.
  - split; [|by eapply frame_trans, Hb]. rewrite <- (difference_interval S k i (i + 1)) by (done || lia || by right).
    apply (bit_set_to_represents m _ _ _ i false); done.
  - destruct Hb as (_&_&->); [|done]. by rewrite decide_True.
Qed.

Lemma wp_pml_body c st :
  scanned c st →
  wp (pml_body bitmap nbits hva p st) (λ x c', match x with
    | inl st' => scanned c' st' ∧
        (Z.to_nat (nbits - first_left c' st'.1) < Z.to_nat (nbits - first_left c st.1))%nat
    | inr found => found = found_below nbits ∧ ∃ m, c' = QemuIpc s m cl ep ∧ cleared m nbits
    end) c.
Proof using HI Hr Hn Hnb.
  intros (k&m&->&Hk&Hst&Hkn&Hcl&Hfound). destruct st as [b found]; cbn [fst snd] in *. unfold pml_body.
  wp_step. wp_step. apply (wp_find_next_bit _ bitmap n (S ∖ interval 0 k)); [apply Hcl|lia..|].
  assert (b ≤ nbits) as Hb by lia.
  destruct (next_position_spec (has (S ∖ interval 0 k)) nbits b Hb) as (Hi&Hno&Hyes).
  set (i := next_position _ _ _) in *.
  assert (∀ j, k ≤ j < i → j ∉ S) as HnoS.
  { intros j Hj HjS. assert (has (S ∖ interval 0 k) j = true) as Ht; [|rewrite Hno in Ht by lia; done].
    apply has_spec. rewrite elem_of_difference, elem_of_interval. split; [done|lia]. }
  change (upd _ _ _) with (QemuIpc s m cl ep).
  destruct (Z.leb_spec nbits i) as [Hge|Hlt].
  { replace i with nbits in HnoS by lia. apply wp_ret. split; [by rewrite (found_none k nbits) by (done || lia)|].
    exists m. split; [done|]. destruct Hcl as [HR Hf]. split; [|done].
    rewrite <- (difference_interval S k nbits nbits) by (done || lia || by left).
    assert (interval nbits nbits = ∅) as ->; [|by rewrite difference_empty_L].
    apply set_eq. intros j. rewrite elem_of_interval, elem_of_empty. lia. }
  specialize (Hyes Hlt). apply has_spec, elem_of_difference in Hyes as [HiS Hik]. rewrite elem_of_interval in Hik.
  wp_step. wp_step. apply (wp_clear_found m k i); [done|lia|done|done|done|]. intros m' Hcl' Hbit.
  change (upd _ _ _) with (QemuIpc s m' cl ep). wp_step. apply wp_assert; [done|]. wp_step. wp_step.
  apply (wp_mm_find_page s A R W HI p r Hr). change (upd _ _ _) with (QemuIpc s m' cl ep). apply wp_ret.
  split.
  - exists (i + 1), m'. cbn [fst snd]. split_and!; [done|by right|lia|lia|done|].
    pose proof (found_range (i + 1) ltac:(lia)). rewrite (found_step k i) in * by (done || lia).
    unfold logged_page in *. rewrite Hfound. destruct (is_null _); simpl in *; [lia|]. rewrite u64_small by lia. done.
  - cbn [fst]. unfold first_left at 1. cbn [q_mem]. rewrite Hbit. unfold first_left. cbn [q_mem].
    destruct (bit 64 m bitmap b) eqn:Hbb; [lia|]. assert (b ≠ i); [|lia]. intros Ebi. rewrite Ebi in Hbb.
    rewrite (proj1 (proj2 (proj1 Hcl))) in Hbb by lia. apply bool_decide_eq_false in Hbb. apply Hbb.
    rewrite elem_of_difference, elem_of_interval. split; [done|lia].
Qed.

Lemma wp_pml_loop (Q : Z → qemu_ipc_ctx → Prop) :
  represents m0 bitmap n S → (∀ m, cleared m nbits → Q (found_below nbits) (QemuIpc s m cl ep)) →
  wp (loop (Datatypes.S (Z.to_nat nbits)) (pml_body bitmap nbits hva p) (0, 0)) Q (QemuIpc s m0 cl ep).
Proof using HI Hr Hn Hnb.
  intros HR HQ. apply (wp_loop (λ st c, scanned c st) (λ st c, Z.to_nat (nbits - first_left c st.1))).
  - exists 0, m0. cbn [fst snd]. split_and!; [done|by left|lia..| |by unfold found_below; rewrite count_bits_nonpos].
    split; [|apply frame_refl]. assert (interval 0 0 = ∅) as ->; [|by rewrite difference_empty_L]. done.
  - cbn [fst]. unfold first_left. destruct (bit _ _ _ _); lia.
  - intros st c Hsc. eapply wp_mono; [by apply wp_pml_body|]. intros [st'|found] c'; [done|].
    intros (->&m&->&Hcl). by apply HQ.
Qed.
End scan.

Lemma has_filter (f : Z → bool) S i : has (filter (λ i, f i = true) S) i = has S i && f i.
Proof.
  unfold has. destruct (f i) eqn:Hf; [rewrite andb_true_r|rewrite andb_false_r].
  - apply bool_decide_ext. rewrite elem_of_filter. by split; [intros [_ ?]|intros ?; split].
  - apply bool_decide_eq_false. rewrite elem_of_filter. intros [Ht _]. by rewrite Hf in Ht.
Qed.

Lemma found_size r hva S k :
  found_below hva S r k = Z.of_nat (size (filter (λ i, logged_page hva r i = true) S ∩ interval 0 k)).
Proof.
  rewrite <- (count_size _ 0 k). unfold found_below. apply count_bits_ext. intros i Hi. by rewrite has_filter.
Qed.

Section pml.
Context (alloc_mode : ALLOC_MODE) (map_nspid_to_pid : Z → Z → Z).
Context (use_shm : bool) (migration_ends : ptr → bool) (wait_time_us : Z).
Context (wake : Z → Z → Z → ioctl_result) (writeprotect : Z → Z → Z → bool → ioctl_result).
Context (Hk : kernel_ok migration_ends wake writeprotect).
Context (fsz ssz fptr sptr : Z) (Ht : good_tiers fsz ssz fptr sptr).

Local Notation reach := (reachable alloc_mode map_nspid_to_pid use_shm migration_ends wait_time_us wake
  writeprotect fsz ssz fptr sptr).

(** C27: a dirty-page log is scanned once.  For the bitmap of a virtual machine
    whose process is known, the scan ends; it reports the number of dirty base
    pages and the number of those that begin a page of the process, clears
    exactly the bits it was asked to scan, touches no other memory and leaves
    the manager as it was. *)
Theorem pml_scan sv m cl ep bitmap n S bytes hva pid p r :
  reach sv → u_proc_map (sv_ucm sv) !! pid = Some p → u_procs (sv_ucm sv) !! p = Some r →
  represents m bitmap n S → 0 ≤ bytes → 8 * bytes ≤ 64 * n → 8 * bytes < 2 ^ 63 →
  ∃ m', process_pml_bitmap bitmap bytes pid hva (QemuIpc (sv_ucm sv) m cl ep) =
      Ok (Z.of_nat (size (S ∩ interval 0 (8 * bytes))),
          Z.of_nat (size (filter (λ i, logged_page hva r i = true) S ∩ interval 0 (8 * bytes))))
        (QemuIpc (sv_ucm sv) m' cl ep) ∧
    represents m' bitmap n (S ∖ interval 0 (8 * bytes)) ∧ frame m m' bitmap n.
Proof using Hk Ht.
  intros Hsv Hp Hr HR Hb0 Hbn Hb63.
  destruct (reachable_ok _ _ _ _ _ _ _ Hk _ _ _ _ sv Ht Hsv) as (L&A&R&[[HI HM _] _]).
  rewrite <- found_size. set (nbits := 8 * bytes) in *.
  enough (wp (process_pml_bitmap bitmap bytes pid hva) (λ x c', x = (Z.of_nat (size (S ∩ interval 0 nbits)), found_below hva S r nbits) ∧
    ∃ m', c' = QemuIpc (sv_ucm sv) m' cl ep ∧ cleared m bitmap n S m' nbits) (QemuIpc (sv_ucm sv) m cl ep)) as Hw.
  { apply wp_ok in Hw as (x&c'&Hrun&->&m'&->&Hcl). exists m'. by split. }
  unfold process_pml_bitmap. wp_step. wp_step. apply (wp_find_process _ L ∅ HM). cbn [q_ucm]. rewrite Hp.
  change (upd _ _ _) with (QemuIpc (sv_ucm sv) m cl ep). wp_step. apply wp_assert; [done|]. wp_step. eapply wp_nonnull; [done|].
  replace (u64 (bytes * 8)) with nbits by (rewrite u64_small by lia; lia).
  wp_step. wp_step. apply (wp_bitmap_count_one_with_offset m bitmap n S); [done|lia..|].
  change (upd _ _ _) with (QemuIpc (sv_ucm sv) m cl ep). rewrite count_size, Z.add_0_l.
  wp_step. apply (wp_pml_loop (sv_ucm sv) A R None HI cl ep m bitmap n nbits hva S p r Hr); [done|lia|done|].
  intros m' Hcl. apply wp_ret. split; [done|]. by exists m'.
Qed.
End pml.

(** ** An instance *)
Definition positions (m : memory) (a n : Z) : gset Z :=
  list_to_set (filter (λ i, bit 64 m a i = true) (seqZ 0 (64 * n))).

Lemma represents_positions m a n : words 64 m a n → represents m a n (positions m a n).
Proof.
  intros Hw. assert (∀ i, i ∈ positions m a n ↔ bit 64 m a i = true ∧ 0 ≤ i < 64 * n) as Hi.
  { intros i. unfold positions. rewrite elem_of_list_to_set, list_elem_of_filter, elem_of_seqZ. done. }
  split_and!; [done| |].
  - intros i Hin. destruct (bit 64 m a i) eqn:Hb; symmetry.
    + apply bool_decide_eq_true. by apply Hi.
    + apply bool_decide_eq_false. rewrite Hi, Hb. by intros [? _].
  - intros i [_ ?]%Hi. done.
Qed.

Definition wordsb (m : memory) (a n : Z) : bool :=
  forallb (λ k, match m !! (a + k) with Some v => (0 <=? v) && (v <? 2 ^ 64) | None => false end) (seqZ 0 n).

Lemma wordsb_sound m a n : wordsb m a n = true → words 64 m a n.
Proof.
  unfold wordsb. rewrite forallb_forall. intros Hc k Hk. specialize (Hc k).
  rewrite <- list_elem_of_In, elem_of_seqZ in Hc. specialize (Hc ltac:(lia)).
  destruct (m !! (a + k)) as [v|]; [|done]. exists v. split; [done|].
  apply andb_true_iff in Hc as [?%Z.leb_le ?%Z.ltb_lt]. by split.
Qed.

(** A log of 1024 base pages, three of them dirty. *)
Definition dirty_log : memory :=
  list_to_map ((λ k, (k, if k =? 0 then 9 else if k =? 8 then 1 else 0)) <$> seqZ 0 16).

Lemma pml_scan_witness :
  let sv := machine warm_apps in
  ∃ p r m', u_proc_map (sv_ucm sv) !! 42 = Some p ∧
    process_pml_bitmap 0 128 42 (mb 101) (QemuIpc (sv_ucm sv) dirty_log ∅ ∅) =
      Ok (Z.of_nat (size (positions dirty_log 0 16 ∩ interval 0 1024)),
          Z.of_nat (size (filter (λ i, logged_page (mb 101) r i = true) (positions dirty_log 0 16) ∩ interval 0 1024)))
        (QemuIpc (sv_ucm sv) m' ∅ ∅) ∧
    represents m' 0 16 (positions dirty_log 0 16 ∖ interval 0 1024) ∧ frame dirty_log m' 0 16.
Proof.
  pose proof (machine_reachable _ warm_apps_run) as Hsv. intros sv.
  assert (u_proc_map (sv_ucm sv) !! 42 = Some (the_proc (sv_ucm sv) 42)) as Hm by (vm_compute; reflexivity).
  assert (match u_procs (sv_ucm sv) !! the_proc (sv_ucm sv) 42 with Some _ => true | None => false end = true) as Hr
    by (vm_compute; reflexivity).
  assert (represents dirty_log 0 16 (positions dirty_log 0 16)) as HR
    by (apply represents_positions, wordsb_sound; vm_compute; reflexivity).
  change (machine warm_apps) with sv in Hsv. clearbody sv.
  destruct (u_procs (sv_ucm sv) !! the_proc (sv_ucm sv) 42) as [r|] eqn:Hp; [|discriminate Hr].
  destruct (pml_scan FASTMEM_PREFERRED host_pid_of true always 1000 _ _ machine_kernel
    (mb 2) (mb 4) (mb 1) (mb 64) machine_tiers sv dirty_log ∅ ∅ 0 16 (positions dirty_log 0 16) 128 (mb 101) 42
    _ r Hsv Hm Hp HR) as (m'&H1&H2&H3); [lia..|].
  exists (the_proc (sv_ucm sv) 42), r, m'. exact (conj Hm (conj H1 (conj H2 H3))).
Defined.
