(* ===== verification/Links.v ===== *)
(** * Doubly linked sequences

    [linked f xs]: the pointers [f x], previous and next, of the elements of
    [xs] spell out [xs].  The two ways in which a list changes, an element
    linked in and an element taken out, for any representation of the
    pointers. *)

From S2P Require Import Prelude.

Section linked.
Context {A : Type} `{EqDecision A}.
Implicit Types (f g : A → option (option A * option A)) (xs a b : list A).

Definition linked f xs : Prop :=
  ∀ b x a, xs = b ++ x :: a → f x = Some (last b, head a).

Lemma linked_nil f : linked f [].
Proof. intros b x a. by destruct b. Qed.

Lemma linked_ext f g xs : linked f xs → (∀ x, x ∈ xs → g x = f x) → linked g xs.
Proof. intros Hf Hg b x a ->. rewrite Hg by set_solver. by apply Hf. Qed.

Lemma linked_in f xs x : linked f xs → x ∈ xs → ∃ p n, f x = Some (p, n).
Proof. intros Hf (b&a&->)%list_elem_of_split. eexists _, _. by apply Hf. Qed.

Lemma linked_head f x xs : linked f (x :: xs) → f x = Some (None, head xs).
Proof. intros Hf. by apply (Hf []). Qed.

Lemma linked_last f x xs : linked f (xs ++ [x]) → f x = Some (last xs, None).
Proof. intros Hf. by apply (Hf xs x []). Qed.

(** [x] linked in between [b] and [a]. *)
Lemma linked_splice f g b x a :
  linked f (b ++ a) → NoDup (b ++ a) → x ∉ b ++ a →
  g x = Some (last b, head a) →
  (∀ y p n, y ∈ b ++ a → f y = Some (p, n) →
     g y = Some (if decide (head a = Some y) then Some x else p,
                 if decide (last b = Some y) then Some x else n)) →
  linked g (b ++ x :: a).
Proof.
  intros Hf Hnd Hx Hgx Hg b' y a' [(->&->&->)|[(m&->&->)|(m&->&->)]]%split_cases; [done|..].
  - pose proof Hnd as (Hndb&Hdis&Hnda)%NoDup_app.
    rewrite app_assoc in Hf. erewrite Hg; [|set_solver|by apply Hf].
    rewrite (decide_False (P := last b = _)) by (intros ?%last_Some_elem_of; set_solver).
    destruct m as [|z m]; simpl; [by rewrite decide_True, last_snoc|].
    rewrite decide_False, !last_app_cons; [done|].
    intros [= ->]. rewrite <- app_comm_cons, NoDup_cons in Hnda. set_solver.
  - pose proof Hnd as (Hndb&Hdis&Hnda)%NoDup_app.
    rewrite <- app_assoc in Hf. simpl in Hf. erewrite Hg; [|set_solver|by apply Hf].
    rewrite (decide_False (P := head a = _)) by (intros ?%head_Some_elem_of; set_solver).
    destruct m as [|z m]; simpl.
    { by rewrite last_snoc, decide_True. }
    rewrite decide_False; [done|]. rewrite last_app_cons.
    intros Hm%(last_Some_elem_of (z :: m)). rewrite NoDup_app, NoDup_cons in Hndb. set_solver.
Qed.

(** [x] taken out from between [b] and [a]. *)
Lemma linked_cut f g b x a :
  linked f (b ++ x :: a) → NoDup (b ++ x :: a) →
  (∀ y p n, y ∈ b ++ a → f y = Some (p, n) →
     g y = Some (if decide (head a = Some y) then last b else p,
                 if decide (last b = Some y) then head a else n)) →
  linked g (b ++ a).
Proof.
  intros Hf (Hndb&Hdis&[Hxa Hnda]%NoDup_cons)%NoDup_app Hg b' y a' Heq.
  assert (y ∈ b ++ a) as Hy by (rewrite Heq; set_solver).
  destruct (app_split_cases _ _ _ _ _ Heq) as [(m&->&->)|(m&->&->)].
  - rewrite <- app_assoc in Hf. simpl in Hf. erewrite Hg; [|done|by apply Hf].
    rewrite (decide_False (P := head a = _)) by (intros ?%head_Some_elem_of; set_solver).
    destruct m as [|z m]; simpl; [by rewrite last_snoc, decide_True|].
    rewrite decide_False; [done|]. rewrite last_app_cons.
    intros Hm%(last_Some_elem_of (z :: m)). rewrite NoDup_app, NoDup_cons in Hndb. set_solver.
  - rewrite app_comm_cons, app_assoc in Hf. erewrite Hg; [|done|by apply Hf].
    rewrite (decide_False (P := last b = _)) by (intros ?%last_Some_elem_of; set_solver).
    destruct m as [|z m]; simpl; [by rewrite decide_True, app_nil_r|].
    rewrite decide_False, !last_app_cons; [done|].
    intros [= ->]. apply NoDup_cons in Hnda. set_solver.
Qed.
End linked.

(** ** Singly linked sequences

    [chain f o xs]: the pointers [f x] to the next element lead from [o]
    through [xs] to null. *)
Section chain.
Context {A : Type} `{EqDecision A}.
Implicit Types (f g : A → option (option A)) (o : option A) (xs a b : list A).

Fixpoint chain f o xs : Prop :=
  match xs with
  | [] => o = None
  | x :: xs => o = Some x ∧ ∃ n, f x = Some n ∧ chain f n xs
  end.

Lemma chain_ext f g o xs : chain f o xs → (∀ x, x ∈ xs → g x = f x) → chain g o xs.
Proof.
  revert o. induction xs as [|x xs IH]; intros o; [done|]. intros (->&n&Hx&Hc) Hg. simpl.
  split; [done|]. exists n. rewrite Hg by set_solver. split; [done|]. apply IH; [done|set_solver].
Qed.

Lemma chain_in f o xs x : chain f o xs → x ∈ xs → is_Some (f x).
Proof.
  revert o. induction xs as [|y xs IH]; intros o; [set_solver|].
  intros (->&n&Hy&Hc) [->|Hx]%elem_of_cons; eauto.
Qed.

Lemma chain_head f o xs : chain f o xs → o = head xs.
Proof. destruct xs; simpl; naive_solver. Qed.

(** [piece f o xs n]: the pointers lead from [o] through [xs] to [n]. *)
Fixpoint piece f o xs (n : option A) : Prop :=
  match xs with
  | [] => o = n
  | x :: xs => o = Some x ∧ ∃ m, f x = Some m ∧ piece f m xs n
  end.

Lemma chain_app f o xs ys : chain f o (xs ++ ys) ↔ ∃ n, piece f o xs n ∧ chain f n ys.
Proof.
  revert o. induction xs as [|x xs IH]; intros o; simpl.
  - split; [eauto|]. by intros (n&->&?).
  - setoid_rewrite IH. naive_solver.
Qed.

Lemma piece_ext f g o xs n : piece f o xs n → (∀ x, x ∈ xs → g x = f x) → piece g o xs n.
Proof.
  revert o. induction xs as [|x xs IH]; intros o; [done|]. intros (->&m&Hx&Hc) Hg. simpl.
  split; [done|]. exists m. rewrite Hg by set_solver. split; [done|]. apply IH; [done|set_solver].
Qed.

Lemma piece_snoc f o xs x n : piece f o (xs ++ [x]) n ↔ piece f o xs (Some x) ∧ f x = Some n.
Proof.
  revert o. induction xs as [|y xs IH]; intros o; simpl; [naive_solver|]. setoid_rewrite IH. naive_solver.
Qed.

(** The element [x] is taken out of a list; [y] is the one behind it. *)
Lemma chain_unlink f g o a x y b :
  chain f o (a ++ x :: y :: b) → NoDup (a ++ x :: y :: b) →
  (∀ z, z ≠ x → last a ≠ Some z → g z = f z) → (∀ z, last a = Some z → g z = Some (Some y)) →
  chain g (match a with [] => Some y | _ => o end) (a ++ y :: b).
Proof.
  intros Hc Hnd Hg Hl. apply chain_app in Hc as (n&Hp&->&m&Hx&Hc).
  assert (∀ z, z ∈ y :: b → g z = f z) as Hyb.
  { apply NoDup_app in Hnd as (_&Hd&Hnd%NoDup_cons). intros z Hz. apply Hg; [naive_solver|].
    intros Hla. apply (Hd z); [by apply last_Some_elem_of|]. by apply list_elem_of_further. }
  assert (m = Some y) as ->  by (apply chain_head in Hc; done).
  apply chain_ext with (g := g) in Hc; [|done].
  destruct a as [|z a] using rev_ind; [done|]. clear IHa. rewrite last_snoc in Hl, Hg.
  apply piece_snoc in Hp as [Hp Hz]. assert (∀ {B} (u v : B), match a ++ [z] with [] => u | _ => v end = v) as ->
    by by destruct a.
  rewrite <- app_assoc. apply chain_app. exists (Some z). split.
  - eapply piece_ext; [done|]. intros w Hw. apply Hg.
    + intros ->. apply NoDup_app in Hnd as (_&Hd&_). apply (Hd x); [|apply list_elem_of_here]. apply elem_of_app. by left.
    + intros [= ->]. apply NoDup_app in Hnd as (Hnd&_). apply NoDup_app in Hnd as (_&Hd&_).
      apply (Hd w); [done|apply list_elem_of_here].
  - simpl. split; [done|]. exists (Some y). split; [by apply Hl|done].
Qed.
End chain.
