(* ===== verification/Uthash.v ===== *)
(** * Hash tables (src/src/ucm/ds/uthash.h)

    The page tables, the map of slow-tier offsets, the process table and the
    clients of qemu.c are uthash tables: the elements carry a [UT_hash_handle]
    each, which links them in two ways, in the order of insertion ([h_prev],
    [h_next]) and in the chain of their bucket ([hh_prev], [hh_next]).  A table
    is known by a pointer to its first element, the [head], which the macros
    assign to; here they return it.

    An element and its handle are at a constant distance, so one address
    stands for both, and [ELMT_FROM_HH] and [HH_FROM_ELMT] are identities.
    [fields] holds the bytes of the key field of each element; the elements'
    owners write to it, the macros only read it.  The array of the buckets is
    reached through its table only, and is a part of it.  It is cleared when
    it is allocated: what [arr_cells] does not hold is zero.

    [HASH_FCN] is the hash function, [HASH_JEN] unless it is overridden;
    [malloc_ok] tells which requests for memory succeed.  A request that fails
    ends the program ([HASH_NONFATAL_OOM] is 0), and HASH_BLOOM is off. *)

From S2P Require Import Prelude.

Abbreviation addr := positive.

Record UT_hash_bucket := UTHashBucket {
  hh_head : option addr;
  b_count : Z;
  expand_mult : Z;
}.

Record bucket_array := BucketArray {
  arr_len : Z;
  arr_cells : gmap Z UT_hash_bucket;
}.

Record UT_hash_table := UTHashTable {
  t_buckets : bucket_array;
  num_buckets : Z;
  log2_num_buckets : Z;
  num_items : Z;
  t_tail : option addr;
  ideal_chain_maxlen : Z;
  nonideal_items : Z;
  ineff_expands : Z;
  noexpand : Z;
}.

Record UT_hash_handle := UTHashHandle {
  h_tbl : option addr;
  h_prev : option addr;
  h_next : option addr;
  hh_prev : option addr;
  hh_next : option addr;
  h_key : option addr;
  h_keylen : Z;
  h_hashv : Z;
}.

(** The handles, the key fields and the tables in memory. *)
Record uthash := Uthash {
  handles : gmap addr UT_hash_handle;
  fields : gmap addr (list Z);
  tables : gmap addr UT_hash_table;
}.

#[global] Instance eta_hash_bucket : Eta UT_hash_bucket :=
  λ r, UTHashBucket (hh_head r) (b_count r) (expand_mult r).
#[global] Instance set_hh_head : Setter hh_head := ltac:(mk_setter).
#[global] Instance set_b_count : Setter b_count := ltac:(mk_setter).
#[global] Instance set_expand_mult : Setter expand_mult := ltac:(mk_setter).
#[global] Instance eta_bucket_array : Eta bucket_array := λ r, BucketArray (arr_len r) (arr_cells r).
#[global] Instance set_arr_cells : Setter arr_cells := ltac:(mk_setter).
#[global] Instance eta_hash_table : Eta UT_hash_table :=
  λ r, UTHashTable (t_buckets r) (num_buckets r) (log2_num_buckets r) (num_items r) (t_tail r)
         (ideal_chain_maxlen r) (nonideal_items r) (ineff_expands r) (noexpand r).
#[global] Instance set_t_buckets : Setter t_buckets := ltac:(mk_setter).
#[global] Instance set_num_buckets : Setter num_buckets := ltac:(mk_setter).
#[global] Instance set_log2_num_buckets : Setter log2_num_buckets := ltac:(mk_setter).
#[global] Instance set_num_items : Setter num_items := ltac:(mk_setter).
#[global] Instance set_t_tail : Setter t_tail := ltac:(mk_setter).
#[global] Instance set_ideal_chain_maxlen : Setter ideal_chain_maxlen := ltac:(mk_setter).
#[global] Instance set_nonideal_items : Setter nonideal_items := ltac:(mk_setter).
#[global] Instance set_ineff_expands : Setter ineff_expands := ltac:(mk_setter).
#[global] Instance set_noexpand : Setter noexpand := ltac:(mk_setter).
#[global] Instance eta_hash_handle : Eta UT_hash_handle :=
  λ r, UTHashHandle (h_tbl r) (h_prev r) (h_next r) (hh_prev r) (hh_next r) (h_key r)
         (h_keylen r) (h_hashv r).
#[global] Instance set_h_tbl : Setter h_tbl := ltac:(mk_setter).
#[global] Instance set_h_prev : Setter h_prev := ltac:(mk_setter).
#[global] Instance set_h_next : Setter h_next := ltac:(mk_setter).
#[global] Instance set_hh_prev : Setter hh_prev := ltac:(mk_setter).
#[global] Instance set_hh_next : Setter hh_next := ltac:(mk_setter).
#[global] Instance set_h_key : Setter h_key := ltac:(mk_setter).
#[global] Instance set_h_keylen : Setter h_keylen := ltac:(mk_setter).
#[global] Instance set_h_hashv : Setter h_hashv := ltac:(mk_setter).
#[global] Instance eta_uthash : Eta uthash := λ r, Uthash (handles r) (fields r) (tables r).
#[global] Instance set_handles : Setter handles := ltac:(mk_setter).
#[global] Instance set_fields : Setter fields := ltac:(mk_setter).
#[global] Instance set_tables : Setter tables := ltac:(mk_setter).

Definition HASH_INITIAL_NUM_BUCKETS : Z := 2097152.
Definition HASH_INITIAL_NUM_BUCKETS_LOG2 : Z := 21.
Definition HASH_BKT_CAPACITY_THRESH : Z := 10.
Definition sizeof_table : Z := 64.
Definition sizeof_bucket : Z := 16.
Definition sizeof_handle : Z := 56.

(** ** Hash functions *)

(** [*key++] over the bytes of a key. *)
Definition HASH_BER (key : list Z) : Z :=
  foldl (λ hashv c, u32 (u32 (u32 (Z.shiftl hashv 5) + hashv) + c)) 0 key.

Definition HASH_SAX (key : list Z) : Z :=
  foldl (λ hashv c,
    Z.lxor hashv (u32 (u32 (u32 (Z.shiftl hashv 5) + Z.shiftr hashv 2) + c))) 0 key.

Definition HASH_FNV (key : list Z) : Z :=
  foldl (λ hashv c, u32 (Z.lxor hashv c * 16777619)) 2166136261 key.

Definition HASH_OAT (key : list Z) : Z :=
  let hashv := foldl (λ hashv c,
    let hashv := u32 (hashv + c) in
    let hashv := u32 (hashv + u32 (Z.shiftl hashv 10)) in
    Z.lxor hashv (Z.shiftr hashv 6)) 0 key in
  let hashv := u32 (hashv + u32 (Z.shiftl hashv 3)) in
  let hashv := Z.lxor hashv (Z.shiftr hashv 11) in
  u32 (hashv + u32 (Z.shiftl hashv 15)).

(** [x -= y; x -= z; x ^= s]. *)
Definition jen_step (x y z s : Z) : Z := Z.lxor (u32 (u32 (x - y) - z)) s.

Definition HASH_JEN_MIX (v : Z * Z * Z) : Z * Z * Z :=
  let '(a, b, c) := v in
  let a := jen_step a b c (Z.shiftr c 13) in
  let b := jen_step b c a (u32 (Z.shiftl a 8)) in
  let c := jen_step c a b (Z.shiftr b 13) in
  let a := jen_step a b c (Z.shiftr c 12) in
  let b := jen_step b c a (u32 (Z.shiftl a 16)) in
  let c := jen_step c a b (Z.shiftr b 5) in
  let a := jen_step a b c (Z.shiftr c 3) in
  let b := jen_step b c a (u32 (Z.shiftl a 10)) in
  let c := jen_step c a b (Z.shiftr b 15) in
  (a, b, c).

(** [_hj_key[i] << s], for the bytes from [_hj_key] on. *)
Definition jen_byte (key : list Z) (i : nat) (s : Z) : Z := u32 (Z.shiftl (nth i key 0) s).

Definition jen_word (key : list Z) (i : nat) : Z :=
  u32 (jen_byte key i 0 + jen_byte key (i + 1) 8 + jen_byte key (i + 2) 16 + jen_byte key (i + 3) 24).

(** The loop over the blocks of twelve bytes, and the [switch] on the number
    of bytes that are left: its cases fall through, so [case k] is entered for
    every rest of at least [k] bytes. *)
Fixpoint jen_blocks (n : nat) (key : list Z) (v : Z * Z * Z) : list Z * (Z * Z * Z) :=
  match n with
  | O => (key, v)
  | S n =>
      let '(i, j, hashv) := v in
      jen_blocks n (drop 12 key)
        (HASH_JEN_MIX (u32 (i + jen_word key 0), u32 (j + jen_word key 4), u32 (hashv + jen_word key 8)))
  end.

Definition jen_rest (keylen : Z) (key : list Z) (v : Z * Z * Z) : Z * Z * Z :=
  let case (n : nat) (s : Z) (x : Z) :=
    if (n <=? length key)%nat then u32 (x + jen_byte key (n - 1) s) else x in
  let '(i, j, hashv) := v in
  let hashv := u32 (hashv + u32 keylen) in
  (case 1%nat 0 (case 2%nat 8 (case 3%nat 16 (case 4%nat 24 i))),
   case 5%nat 0 (case 6%nat 8 (case 7%nat 16 (case 8%nat 24 j))),
   case 9%nat 8 (case 10%nat 16 (case 11%nat 24 hashv))).

Definition HASH_JEN (key : list Z) : Z :=
  let '(rest, v) := jen_blocks (length key / 12) key (2654435769, 2654435769, 4276993775) in
  let '(_, _, hashv) := HASH_JEN_MIX (jen_rest (Z.of_nat (length key)) rest v) in
  hashv.

Definition get16bits (key : list Z) (i : nat) : Z :=
  u32 (u32 (Z.shiftl (nth (i + 1) key 0) 8) + nth i key 0).

Fixpoint sfh_blocks (n : nat) (key : list Z) (hashv : Z) : list Z * Z :=
  match n with
  | O => (key, hashv)
  | S n =>
      let hashv := u32 (hashv + get16bits key 0) in
      let tmp := Z.lxor (u32 (Z.shiftl (get16bits key 2) 11)) hashv in
      let hashv := Z.lxor (u32 (Z.shiftl hashv 16)) tmp in
      sfh_blocks n (drop 4 key) (u32 (hashv + Z.shiftr hashv 11))
  end.

Definition sfh_rest (key : list Z) (hashv : Z) : Z :=
  match length key with
  | 3%nat =>
      let hashv := u32 (hashv + get16bits key 0) in
      let hashv := Z.lxor hashv (u32 (Z.shiftl hashv 16)) in
      let hashv := Z.lxor hashv (u32 (Z.shiftl (nth 2 key 0) 18)) in
      u32 (hashv + Z.shiftr hashv 11)
  | 2%nat =>
      let hashv := u32 (hashv + get16bits key 0) in
      let hashv := Z.lxor hashv (u32 (Z.shiftl hashv 11)) in
      u32 (hashv + Z.shiftr hashv 17)
  | 1%nat =>
      let hashv := u32 (hashv + nth 0 key 0) in
      let hashv := Z.lxor hashv (u32 (Z.shiftl hashv 10)) in
      u32 (hashv + Z.shiftr hashv 1)
  | _ => hashv
  end.

Definition HASH_SFH (key : list Z) : Z :=
  let '(rest, hashv) := sfh_blocks (length key / 4) key 3405691582 in
  let hashv := sfh_rest rest hashv in
  let hashv := Z.lxor hashv (u32 (Z.shiftl hashv 3)) in
  let hashv := u32 (hashv + Z.shiftr hashv 5) in
  let hashv := Z.lxor hashv (u32 (Z.shiftl hashv 4)) in
  let hashv := u32 (hashv + Z.shiftr hashv 17) in
  let hashv := Z.lxor hashv (u32 (Z.shiftl hashv 25)) in
  u32 (hashv + Z.shiftr hashv 6).

(** ** The macros *)
Section macros.
Context (HASH_FCN : list Z → Z) (malloc_ok : Z → bool).

(** [uthash_malloc], and [HASH_RECORD_OOM] when it returns null: [exit(-1)]. *)
Definition out_of_memory : err := AssertFail "uthash.h: out of memory".
Definition uthash_malloc (sz : Z) : M uthash unit :=
  if malloc_ok sz then mret tt else fail out_of_memory.

(** [x >> n] on [unsigned] operands: C leaves a count of 32 or more undefined. *)
Definition shift_undefined : err := Undefined "uthash.h: shift by the width of the operand".
Definition shr32 (x n : Z) : M uthash Z :=
  if n <? 32 then mret (Z.shiftr x n) else fail shift_undefined.

Definition bucket_zero : UT_hash_bucket := UTHashBucket None 0 0.

(** [arr[i]] and its update. *)
Definition arr_get (arr : bucket_array) (i : Z) : M uthash UT_hash_bucket :=
  if (0 <=? i) && (i <? arr_len arr) then mret (default bucket_zero (arr_cells arr !! i))
  else fail BadPointer.
Definition arr_put (arr : bucket_array) (i : Z) (f : UT_hash_bucket → UT_hash_bucket) :
    M uthash bucket_array :=
  b ← arr_get arr i;
  mret (arr <| arr_cells ::= insert i (f b) |>).

(** [(x)->hh.tbl]. *)
Definition tbl_of (x : addr) : M uthash addr :=
  h ← deref handles x;
  nonnull (h_tbl h).

(** [tbl->buckets[i]] and its update. *)
Definition bucket (t : addr) (i : Z) : M uthash UT_hash_bucket :=
  T ← deref tables t;
  arr_get (t_buckets T) i.
Definition set_bucket (t : addr) (i : Z) (f : UT_hash_bucket → UT_hash_bucket) : M uthash unit :=
  T ← deref tables t;
  arr ← arr_put (t_buckets T) i f;
  store tables t (λ T, T <| t_buckets := arr |>).

(** The [n] bytes at a key. *)
Definition key_bytes (bytes : list Z) (n : Z) : M uthash (list Z) :=
  if n <=? Z.of_nat (length bytes) then mret (take (Z.to_nat n) bytes) else fail BadPointer.

Definition HASH_VALUE (bytes : list Z) (keylen : Z) : M uthash Z :=
  key ← key_bytes bytes keylen;
  mret (HASH_FCN key).

Definition HASH_TO_BKT (hashv num_bkts : Z) : Z := Z.land hashv (u32 (num_bkts - 1)).

Definition HASH_KEYCMP (a b : list Z) (n : Z) : M uthash bool :=
  a ← key_bytes a n;
  b ← key_bytes b n;
  mret (bool_decide (a = b)).

Definition find_body (keyptr : list Z) (keylen hashval : Z) (out : option addr) :
    M uthash (option addr + option addr) :=
  match out with
  | None => mret (inr None)
  | Some x =>
      h ← deref handles x;
      found ← (if (h_hashv h =? hashval) && (h_keylen h =? keylen) then
                 k ← nonnull (h_key h);
                 bytes ← deref fields k;
                 HASH_KEYCMP bytes keyptr keylen
               else mret false);
      match found with
      | true => mret (inr (Some x))
      | false => mret (inl (hh_next h))
      end
  end.

(** A chain has no more elements than there are handles. *)
Definition chain_fuel : M uthash nat := gets (λ s, S (S (size (handles s)))).

Definition HASH_FIND_IN_BKT (head : UT_hash_bucket) (keyptr : list Z) (keylen hashval : Z) :
    M uthash (option addr) :=
  fuel ← chain_fuel;
  loop fuel (find_body keyptr keylen hashval) (hh_head head).

Definition HASH_FIND_BYHASHVALUE (head : option addr) (keyptr : list Z) (keylen hashval : Z) :
    M uthash (option addr) :=
  match head with
  | None => mret None
  | Some hd =>
      t ← tbl_of hd;
      T ← deref tables t;
      b ← bucket t (HASH_TO_BKT hashval (num_buckets T));
      HASH_FIND_IN_BKT b keyptr keylen hashval
  end.

Definition HASH_FIND (head : option addr) (keyptr : list Z) (keylen : Z) : M uthash (option addr) :=
  match head with
  | None => mret None
  | Some _ =>
      hashv ← HASH_VALUE keyptr keylen;
      HASH_FIND_BYHASHVALUE head keyptr keylen hashv
  end.

Definition HASH_MAKE_TABLE (head : addr) : M uthash unit :=
  uthash_malloc sizeof_table;;
  t ← gets (λ s, fresh (dom (tables s)));
  store handles head (λ h, h <| h_tbl := Some t |>);;
  uthash_malloc (HASH_INITIAL_NUM_BUCKETS * sizeof_bucket);;
  modify (λ s, s <| tables ::= insert t
    (UTHashTable (BucketArray HASH_INITIAL_NUM_BUCKETS ∅) HASH_INITIAL_NUM_BUCKETS
       HASH_INITIAL_NUM_BUCKETS_LOG2 0 (Some head) 0 0 0 0) |>).

Definition HASH_APPEND_LIST (head add : addr) : M uthash unit :=
  store handles add (λ h, h <| h_next := None |>);;
  t ← tbl_of head;
  T ← deref tables t;
  store handles add (λ h, h <| h_prev := t_tail T |>);;
  tail ← nonnull (t_tail T);
  store handles tail (λ h, h <| h_next := Some add |>);;
  store tables t (λ T, T <| t_tail := Some add |>).

(** One element of the chain of an old bucket, into the new array. *)
Definition expand_one (t : addr) (x : addr) (arr : bucket_array) : M uthash (bucket_array * option addr) :=
  T ← deref tables t;
  h ← deref handles x;
  let bkt := HASH_TO_BKT (h_hashv h) (u32 (num_buckets T * 2)) in
  arr ← arr_put arr bkt (λ b, b <| b_count ::= λ n, u32 (n + 1) |>);
  newbkt ← arr_get arr bkt;
  arr ← (if ideal_chain_maxlen T <? b_count newbkt then
           store tables t (λ T, T <| nonideal_items ::= λ n, u32 (n + 1) |>);;
           if u32 (expand_mult newbkt * ideal_chain_maxlen T) <? b_count newbkt then
             arr_put arr bkt (λ b, b <| expand_mult ::= λ n, u32 (n + 1) |>)
           else mret arr
         else mret arr);
  newbkt ← arr_get arr bkt;
  store handles x (λ h, h <| hh_prev := None |>);;
  store handles x (λ h, h <| hh_next := hh_head newbkt |>);;
  match hh_head newbkt with
  | Some y => store handles y (λ h, h <| hh_prev := Some x |>)
  | None => mret tt
  end;;
  arr ← arr_put arr bkt (λ b, b <| hh_head := Some x |>);
  mret (arr, hh_next h).

Definition expand_body (t : addr) (c : bucket_array * option addr) :
    M uthash ((bucket_array * option addr) + bucket_array) :=
  let '(arr, thh) := c in
  match thh with
  | None => mret (inr arr)
  | Some x => c ← expand_one t x arr; mret (inl c)
  end.

Definition expand_bucket (t : addr) (i : Z) (arr : bucket_array) : M uthash bucket_array :=
  b ← bucket t i;
  fuel ← chain_fuel;
  loop fuel (expand_body t) (arr, hh_head b).

Fixpoint expand_buckets (t : addr) (is_ : list Z) (arr : bucket_array) : M uthash bucket_array :=
  match is_ with
  | [] => mret arr
  | i :: is_ => arr ← expand_bucket t i arr; expand_buckets t is_ arr
  end.

Definition HASH_EXPAND_BUCKETS (t : addr) : M uthash unit :=
  T ← deref tables t;
  uthash_malloc (2 * num_buckets T * sizeof_bucket);;
  let arr := BucketArray (2 * num_buckets T) ∅ in
  whole ← shr32 (num_items T) (u32 (log2_num_buckets T + 1));
  store tables t (λ T, T
    <| ideal_chain_maxlen := u32 (whole +
         (if negb (Z.land (num_items T) (u32 (u32 (num_buckets T * 2) - 1)) =? 0) then 1 else 0)) |>
    <| nonideal_items := 0 |>);;
  arr ← expand_buckets t (seqZ 0 (num_buckets T)) arr;
  store tables t (λ T,
    let T := T <| num_buckets ::= λ n, u32 (n * 2) |>
      <| log2_num_buckets ::= λ n, u32 (n + 1) |> <| t_buckets := arr |> in
    let T := T <| ineff_expands :=
      if Z.shiftr (num_items T) 1 <? nonideal_items T then u32 (ineff_expands T + 1) else 0 |> in
    if 1 <? ineff_expands T then T <| noexpand := 1 |> else T).

Definition HASH_ADD_TO_BKT (t : addr) (bkt : Z) (addhh : addr) : M uthash unit :=
  set_bucket t bkt (λ b, b <| b_count ::= λ n, u32 (n + 1) |>);;
  b ← bucket t bkt;
  store handles addhh (λ h, h <| hh_next := hh_head b |>);;
  store handles addhh (λ h, h <| hh_prev := None |>);;
  match hh_head b with
  | Some y => store handles y (λ h, h <| hh_prev := Some addhh |>)
  | None => mret tt
  end;;
  set_bucket t bkt (λ b, b <| hh_head := Some addhh |>);;
  b ← bucket t bkt;
  t' ← tbl_of addhh;
  T' ← deref tables t';
  when ((u32 (u32 (expand_mult b + 1) * HASH_BKT_CAPACITY_THRESH) <=? b_count b) &&
        (noexpand T' =? 0))
    (HASH_EXPAND_BUCKETS t').

Definition HASH_ADD_TO_TABLE (head : addr) (hashval : Z) (add : addr) : M uthash unit :=
  t ← tbl_of head;
  store tables t (λ T, T <| num_items ::= λ n, u32 (n + 1) |>);;
  T ← deref tables t;
  HASH_ADD_TO_BKT t (HASH_TO_BKT hashval (num_buckets T)) add.

Definition HASH_ADD_KEYPTR_BYHASHVALUE (head : option addr) (keylen hashval : Z) (add : addr) :
    M uthash (option addr) :=
  store handles add (λ h, h <| h_hashv := hashval |>);;
  store handles add (λ h, h <| h_key := Some add |>);;
  store handles add (λ h, h <| h_keylen := u32 keylen |>);;
  head ← (match head with
          | None =>
              store handles add (λ h, h <| h_next := None |>);;
              store handles add (λ h, h <| h_prev := None |>);;
              HASH_MAKE_TABLE add;;
              mret add
          | Some hd =>
              h ← deref handles hd;
              store handles add (λ a, a <| h_tbl := h_tbl h |>);;
              HASH_APPEND_LIST hd add;;
              mret hd
          end);
  HASH_ADD_TO_TABLE head hashval add;;
  mret (Some head).

(** [HASH_ADD] adds [add] under its own key field. *)
Definition HASH_ADD (head : option addr) (keylen : Z) (add : addr) : M uthash (option addr) :=
  bytes ← deref fields add;
  hashv ← HASH_VALUE bytes keylen;
  HASH_ADD_KEYPTR_BYHASHVALUE head keylen hashv add.

Definition HASH_DEL_IN_BKT (t : addr) (bkt : Z) (delhh : addr) : M uthash unit :=
  set_bucket t bkt (λ b, b <| b_count ::= λ n, u32 (n - 1) |>);;
  b ← bucket t bkt;
  h ← deref handles delhh;
  when (bool_decide (hh_head b = Some delhh)) (set_bucket t bkt (λ b, b <| hh_head := hh_next h |>));;
  match hh_prev h with
  | Some p => store handles p (λ q, q <| hh_next := hh_next h |>)
  | None => mret tt
  end;;
  h ← deref handles delhh;
  match hh_next h with
  | Some n => store handles n (λ q, q <| hh_prev := hh_prev h |>)
  | None => mret tt
  end.

(** [HASH_DELETE_HH]: the last element takes the table with it. *)
Definition HASH_DELETE (head : option addr) (delptr : addr) : M uthash (option addr) :=
  d ← deref handles delptr;
  if is_null (h_prev d) && is_null (h_next d) then
    hd ← nonnull head;
    t ← tbl_of hd;
    T ← deref tables t;
    modify (λ s, s <| tables ::= delete t |>);;
    mret None
  else
    hd ← nonnull head;
    t ← tbl_of hd;
    T ← deref tables t;
    when (bool_decide (t_tail T = Some delptr)) (store tables t (λ T, T <| t_tail := h_prev d |>));;
    head ← (match h_prev d with
            | Some p => store handles p (λ h, h <| h_next := h_next d |>);; mret head
            | None => mret (h_next d)
            end);
    d ← deref handles delptr;
    match h_next d with
    | Some n => store handles n (λ h, h <| h_prev := h_prev d |>)
    | None => mret tt
    end;;
    hd ← nonnull head;
    t ← tbl_of hd;
    T ← deref tables t;
    d ← deref handles delptr;
    HASH_DEL_IN_BKT t (HASH_TO_BKT (h_hashv d) (num_buckets T)) delptr;;
    store tables t (λ T, T <| num_items ::= λ n, u32 (n - 1) |>);;
    mret head.

Definition HASH_CNT (head : option addr) : M uthash Z :=
  match head with
  | None => mret 0
  | Some hd => t ← tbl_of hd; T ← deref tables t; mret (num_items T)
  end.

Definition HASH_CLEAR (head : option addr) : M uthash (option addr) :=
  match head with
  | None => mret None
  | Some hd =>
      t ← tbl_of hd;
      T ← deref tables t;
      modify (λ s, s <| tables ::= delete t |>);;
      mret None
  end.

Definition HASH_OVERHEAD (head : option addr) : M uthash Z :=
  match head with
  | None => mret 0
  | Some hd =>
      t ← tbl_of hd;
      T ← deref tables t;
      mret (u64 (num_items T * sizeof_handle + num_buckets T * sizeof_bucket + sizeof_table))
  end.

(** [HASH_ITER]: the next element is read before the body runs. *)
Definition next_of (x : option addr) : M uthash (option addr) :=
  match x with None => mret None | Some x => h ← deref handles x; mret (h_next h) end.

Definition iter_body {A} (body : addr → A → M uthash A) (c : option addr * option addr * A) :
    M uthash ((option addr * option addr * A) + A) :=
  let '(el, tmp, a) := c in
  match el with
  | None => mret (inr a)
  | Some x => a ← body x a; tmp' ← next_of tmp; mret (inl (tmp, tmp', a))
  end.

Definition HASH_ITER {A} (head : option addr) (body : addr → A → M uthash A) (a : A) : M uthash A :=
  tmp ← next_of head;
  fuel ← chain_fuel;
  loop fuel (iter_body body) (head, tmp, a).

(** [HASH_FSCK], compiled in with HASH_DEBUG: walk every chain and the
    sequence, and end the program when a pointer back or a count is wrong. *)
Definition HASH_OOPS (what : string) (b : bool) : M uthash unit := assert_ what b.

Definition fsck_chain_body (c : option addr * option addr * Z) :
    M uthash ((option addr * option addr * Z) + Z) :=
  let '(thh, prev, count) := c in
  match thh with
  | None => mret (inr count)
  | Some x =>
      h ← deref handles x;
      HASH_OOPS "uthash.h: invalid hh_prev" (bool_decide (prev = hh_prev h));;
      mret (inl (hh_next h, Some x, u32 (count + 1)))
  end.

Fixpoint fsck_buckets (t : addr) (is_ : list Z) (count : Z) : M uthash Z :=
  match is_ with
  | [] => mret count
  | i :: is_ =>
      b ← bucket t i;
      fuel ← chain_fuel;
      bkt_count ← loop fuel fsck_chain_body (hh_head b, None, 0);
      HASH_OOPS "uthash.h: invalid bucket count" (b_count b =? bkt_count);;
      fsck_buckets t is_ (u32 (count + bkt_count))
  end.

Definition fsck_app_body (c : option addr * option addr * Z) :
    M uthash ((option addr * option addr * Z) + Z) :=
  let '(thh, prev, count) := c in
  match thh with
  | None => mret (inr count)
  | Some x =>
      h ← deref handles x;
      HASH_OOPS "uthash.h: invalid prev" (bool_decide (prev = h_prev h));;
      mret (inl (h_next h, Some x, u32 (count + 1)))
  end.

Definition HASH_FSCK (head : option addr) : M uthash unit :=
  match head with
  | None => mret tt
  | Some hd =>
      t ← tbl_of hd;
      T ← deref tables t;
      count ← fsck_buckets t (seqZ 0 (num_buckets T)) 0;
      HASH_OOPS "uthash.h: invalid hh item count" (count =? num_items T);;
      fuel ← chain_fuel;
      count ← loop fuel fsck_app_body (Some hd, None, 0);
      HASH_OOPS "uthash.h: invalid app item count" (count =? num_items T)
  end.
End macros.
