(* ===== verification/UthashOk.v ===== *)
(** * Hash tables keep what is put in

    [holds s head I t]: the table with the first element [head] has the items
    [I], elements with the keys they were added with, in the order of
    insertion; [t] is the address of its [UT_hash_table].  A lookup finds an
    element whose key field is the key asked for, if there is one among those
    with the hash value of that key; additions and deletions change the
    sequence and nothing else, also when the buckets are expanded. *)

From S2P Require Import Prelude Links Uthash.

Definition app_link (s : uthash) (x : addr) : option (option addr * option addr) :=
  (λ h, (h_prev h, h_next h)) <$> handles s !! x.
Definition bkt_link (s : uthash) (x : addr) : option (option addr * option addr) :=
  (λ h, (hh_prev h, hh_next h)) <$> handles s !! x.

(** The handle without its links in a chain. *)
Definition core (h : UT_hash_handle) : UT_hash_handle := h <| hh_prev := None |> <| hh_next := None |>.

Definition cell (arr : bucket_array) (b : Z) : UT_hash_bucket :=
  default bucket_zero (arr_cells arr !! b).

(** [B b] is the chain of bucket [b]. *)
Record buckets_ok (s : uthash) (arr : bucket_array) (B : Z → list addr) : Prop := BucketsOk {
  bk_head b : hh_head (cell arr b) = head (B b);
  bk_count b : b_count (cell arr b) = Z.of_nat (length (B b));
  bk_link b : linked (bkt_link s) (B b);
  bk_nodup b : NoDup (B b);
  bk_disjoint b b' x : x ∈ B b → x ∈ B b' → b = b';
  bk_range b x : x ∈ B b → 0 ≤ b < arr_len arr;
}.

Lemma buckets_ext s s' arr arr' B :
  buckets_ok s arr B →
  (∀ b x, x ∈ B b → bkt_link s' x = bkt_link s x) →
  arr_len arr' = arr_len arr →
  (∀ b, hh_head (cell arr' b) = hh_head (cell arr b) ∧ b_count (cell arr' b) = b_count (cell arr b)) →
  buckets_ok s' arr' B.
Proof.
  intros HB Hl Hlen Hc. split.
  - intros b. destruct (Hc b) as [-> _]. apply HB.
  - intros b. destruct (Hc b) as [_ ->]. apply HB.
  - intros b. eapply linked_ext; [apply HB|]. by apply Hl.
  - apply HB.
  - apply HB.
  - rewrite Hlen. apply HB.
Qed.

Lemma cell_insert arr b c b' :
  cell (arr <| arr_cells ::= insert b c |>) b' = if decide (b' = b) then c else cell arr b'.
Proof.
  unfold cell. rec_simpl. case_decide as Hb; [subst; by rewrite lookup_insert_eq|].
  by rewrite lookup_insert_ne.
Qed.

Lemma cell_empty n b : cell (BucketArray n ∅) b = bucket_zero.
Proof. unfold cell. simpl. by rewrite lookup_empty. Qed.

Lemma buckets_empty s n : buckets_ok s (BucketArray n ∅) (λ _, []).
Proof.
  split; intros b; rewrite ?cell_empty; try done; [apply linked_nil|constructor|set_solver..].
Qed.

(** [x] put in front of the chain of [b]. *)
Lemma buckets_push s s' arr arr' B b x :
  buckets_ok s arr B → 0 ≤ b < arr_len arr → (∀ b', x ∉ B b') →
  bkt_link s' x = Some (None, head (B b)) →
  (∀ y, y ≠ x → bkt_link s' y = if decide (head (B b) = Some y) then (λ l, (Some x, l.2)) <$> bkt_link s y
                               else bkt_link s y) →
  arr_len arr' = arr_len arr →
  hh_head (cell arr' b) = Some x → b_count (cell arr' b) = b_count (cell arr b) + 1 →
  (∀ b', b' ≠ b → hh_head (cell arr' b') = hh_head (cell arr b') ∧
                  b_count (cell arr' b') = b_count (cell arr b')) →
  buckets_ok s' arr' (<[b := x :: B b]> B).
Proof.
  intros HB Hb Hx Hlx Hly Hlen Hh Hc Hother. split.
  - intros b'. destruct (decide (b = b')) as [<-|Hne]; [by rewrite fn_lookup_insert|].
    rewrite fn_lookup_insert_ne by done. destruct (Hother b') as [-> _]; [done|]. apply HB.
  - intros b'. destruct (decide (b = b')) as [<-|Hne].
    { rewrite fn_lookup_insert, Hc, (bk_count _ _ _ HB). simpl. lia. }
    rewrite fn_lookup_insert_ne by done. destruct (Hother b') as [_ ->]; [done|]. apply HB.
  - intros b'. destruct (decide (b = b')) as [<-|Hne].
    + rewrite fn_lookup_insert.
      apply (linked_splice (bkt_link s) _ [] x (B b)); [apply HB..|apply Hx|done|].
      intros y p n Hy Hf. simpl. rewrite Hly, Hf by (intros ->; by apply (Hx b)).
      by case_decide.
    + rewrite fn_lookup_insert_ne by done. eapply linked_ext; [apply HB|].
      intros y Hy. rewrite Hly by (intros ->; by apply (Hx b')).
      rewrite decide_False; [done|]. intros ?%head_Some_elem_of.
      apply Hne. by eapply (bk_disjoint _ _ _ HB).
  - intros b'. destruct (decide (b = b')) as [<-|Hne].
    + rewrite fn_lookup_insert, NoDup_cons. split; [apply Hx|apply HB].
    + rewrite fn_lookup_insert_ne by done. apply HB.
  - intros b1 b2 y. unfold insert, fn_insert.
    repeat case_decide; subst; [done|..]; rewrite ?elem_of_cons; intros;
      destruct_or?; subst; try (by eapply (bk_disjoint _ _ _ HB)); exfalso; by eapply Hx.
  - intros b' y. rewrite Hlen. unfold insert, fn_insert. case_decide; [by subst|]. apply HB.
Qed.

(** [x] taken out of the chain of [b]. *)
Lemma buckets_cut s s' arr arr' B b x l r :
  buckets_ok s arr B → B b = l ++ x :: r →
  (∀ y, y ≠ x → bkt_link s' y =
     (λ lk, (if decide (head r = Some y) then last l else lk.1,
             if decide (last l = Some y) then head r else lk.2)) <$> bkt_link s y) →
  arr_len arr' = arr_len arr →
  hh_head (cell arr' b) = head (l ++ r) → b_count (cell arr' b) = b_count (cell arr b) - 1 →
  (∀ b', b' ≠ b → hh_head (cell arr' b') = hh_head (cell arr b') ∧
                  b_count (cell arr' b') = b_count (cell arr b')) →
  buckets_ok s' arr' (<[b := l ++ r]> B).
Proof.
  intros HB Hb Hly Hlen Hh Hc Hother.
  assert (∀ y, y ∈ l ++ r → y ∈ B b) as Hsub by (rewrite Hb; set_solver).
  pose proof (bk_nodup _ _ _ HB b) as Hnd. rewrite Hb in Hnd.
  assert (x ∉ l ++ r) as Hx.
  { rewrite NoDup_app, NoDup_cons in Hnd. set_solver. }
  split.
  - intros b'. destruct (decide (b = b')) as [<-|Hne]; [by rewrite fn_lookup_insert|].
    rewrite fn_lookup_insert_ne by done. destruct (Hother b') as [-> _]; [done|]. apply HB.
  - intros b'. destruct (decide (b = b')) as [<-|Hne].
    { rewrite fn_lookup_insert, Hc, (bk_count _ _ _ HB), Hb, !length_app. simpl. lia. }
    rewrite fn_lookup_insert_ne by done. destruct (Hother b') as [_ ->]; [done|]. apply HB.
  - intros b'. destruct (decide (b = b')) as [<-|Hne].
    + rewrite fn_lookup_insert. pose proof (bk_link _ _ _ HB b) as Hf. rewrite Hb in Hf.
      apply (linked_cut (bkt_link s) _ l x r); [done..|].
      intros y p n Hy Hfy. rewrite Hly, Hfy by (intros ->; by apply Hx). done.
    + rewrite fn_lookup_insert_ne by done. eapply linked_ext; [apply HB|].
      intros y Hy.
      assert (y ∉ B b) as Hyb by (intros ?; apply Hne; by eapply (bk_disjoint _ _ _ HB)).
      rewrite Hly by (intros ->; apply Hyb; rewrite Hb; set_solver).
      destruct (bkt_link s y) as [[p n]|]; [simpl|done].
      rewrite decide_False by (intros ?%head_Some_elem_of; apply Hyb, Hsub; set_solver).
      rewrite decide_False by (intros ?%last_Some_elem_of; apply Hyb, Hsub; set_solver).
      done.
  - intros b'. destruct (decide (b = b')) as [<-|Hne].
    + rewrite fn_lookup_insert. rewrite NoDup_app, NoDup_cons in Hnd. rewrite NoDup_app. set_solver.
    + rewrite fn_lookup_insert_ne by done. apply HB.
  - intros b1 b2 y. unfold insert, fn_insert.
    repeat case_decide; subst; [done|..]; intros H1 H2;
      try apply Hsub in H1; try apply Hsub in H2; by eapply (bk_disjoint _ _ _ HB).
  - intros b' y. rewrite Hlen. unfold insert, fn_insert.
    case_decide; [subst; intros ?%Hsub; by eapply (bk_range _ _ _ HB)|]. apply HB.
Qed.

(** ** Reading and writing buckets *)
Lemma to_bkt_range v n : 0 < n ≤ 2 ^ 31 → (∃ l, 0 ≤ l ∧ n = 2 ^ l) → 0 ≤ HASH_TO_BKT v n < n.
Proof.
  intros Hn (l&Hl&Hpow). unfold HASH_TO_BKT.
  rewrite u32_small by lia. rewrite Hpow, Z.sub_1_r, <- Z.ones_equiv.
  rewrite Z.land_ones by done. apply Z.mod_pos_bound. lia.
Qed.

Lemma wp_arr_get arr i (Q : UT_hash_bucket → uthash → Prop) s :
  0 ≤ i < arr_len arr → Q (cell arr i) s → wp (arr_get arr i) Q s.
Proof.
  intros Hi HQ. unfold arr_get. rewrite (proj2 (Z.leb_le _ _)), (proj2 (Z.ltb_lt _ _)) by lia. done.
Qed.

Lemma wp_bucket t i T (Q : UT_hash_bucket → uthash → Prop) s :
  tables s !! t = Some T → 0 ≤ i < arr_len (t_buckets T) → Q (cell (t_buckets T) i) s →
  wp (bucket t i) Q s.
Proof. intros HT Hi HQ. unfold bucket. wp_step. wp_step; [done|]. by apply wp_arr_get. Qed.

Lemma wp_tbl_of x h t (Q : addr → uthash → Prop) s :
  handles s !! x = Some h → h_tbl h = Some t → Q t s → wp (tbl_of x) Q s.
Proof. intros Hh Ht HQ. unfold tbl_of. wp_step. wp_step; [done|]. by wp_step. Qed.

Lemma wp_key_bytes bytes n (Q : list Z → uthash → Prop) s :
  n ≤ Z.of_nat (length bytes) → Q (take (Z.to_nat n) bytes) s → wp (key_bytes bytes n) Q s.
Proof. intros Hn HQ. unfold key_bytes. by rewrite (proj2 (Z.leb_le _ _)). Qed.

Lemma wp_arr_put arr i f (Q : bucket_array → uthash → Prop) s :
  0 ≤ i < arr_len arr → Q (arr <| arr_cells ::= insert i (f (cell arr i)) |>) s →
  wp (arr_put arr i f) Q s.
Proof. intros Hi HQ. unfold arr_put. wp_step. apply wp_arr_get; [done|]. by wp_step. Qed.

Lemma wp_set_bucket t i f T (Q : unit → uthash → Prop) s :
  tables s !! t = Some T → 0 ≤ i < arr_len (t_buckets T) →
  Q tt (s <| tables := <[t := T <| t_buckets := (t_buckets T) <| arr_cells ::= insert i (f (cell (t_buckets T) i)) |> |>]>
             (tables s) |>) →
  wp (set_bucket t i f) Q s.
Proof.
  intros HT Hi HQ. unfold set_bucket. wp_step. wp_step; [done|]. wp_step. apply wp_arr_put; [done|].
  by wp_step.
Qed.

(** ** Expansion of the buckets

    [D] are the elements that are in the new array [arr], with the chains
    [N]; the others are as they were in [s0]. *)
Record expanding (s0 s : uthash) (t : addr) (T : UT_hash_table) (X D : list addr) (arr : bucket_array)
    (N : Z → list addr) : Prop := Expanding {
  ex_tables : ∃ n, tables s = <[t := T <| nonideal_items := n |>]> (tables s0);
  ex_fields : fields s = fields s0;
  ex_core : core <$> handles s = core <$> handles s0;
  ex_rest x : x ∉ D → handles s !! x = handles s0 !! x;
  ex_sub : D ⊆ X;
  ex_len : arr_len arr = 2 * num_buckets T;
  ex_buckets : buckets_ok s arr N;
  ex_member b x : x ∈ N b ↔ x ∈ D ∧ ∃ h, handles s0 !! x = Some h ∧
    HASH_TO_BKT (h_hashv h) (2 * num_buckets T) = b;
}.

Lemma nodup_bound (X c : list addr) : NoDup c → c ⊆ X → (length c ≤ length X)%nat.
Proof. intros. by apply submseteq_length, NoDup_submseteq. Qed.

Lemma core_hh h p n : core (h <| hh_prev := p |> <| hh_next := n |>) = core h.
Proof. by destruct h. Qed.

(** The handles after [x] has been put in front of a chain that began with [hd]. *)
Definition pushed (H H' : gmap addr UT_hash_handle) (x : addr) (hd : option addr) : Prop :=
  H' !! x = (λ h, h <| hh_prev := None |> <| hh_next := hd |>) <$> H !! x ∧
  ∀ y, y ≠ x → H' !! y =
    if decide (hd = Some y) then (λ h, h <| hh_prev := Some x |>) <$> H !! y else H !! y.

Lemma pushed_core H H' x hd : pushed H H' x hd → core <$> H' = core <$> H.
Proof.
  intros [Hx Hy]. apply map_eq. intros y. rewrite !lookup_fmap.
  destruct (decide (y = x)) as [->|Hne]; [rewrite Hx; by destruct (H !! x)|].
  rewrite Hy by done. case_decide; [by destruct (H !! y)|done].
Qed.

Lemma pushed_buckets s s' arr arr' B b x :
  buckets_ok s arr B → 0 ≤ b < arr_len arr → (∀ b', x ∉ B b') → is_Some (handles s !! x) →
  pushed (handles s) (handles s') x (head (B b)) →
  arr_len arr' = arr_len arr →
  hh_head (cell arr' b) = Some x → b_count (cell arr' b) = b_count (cell arr b) + 1 →
  (∀ b', b' ≠ b → hh_head (cell arr' b') = hh_head (cell arr b') ∧
                  b_count (cell arr' b') = b_count (cell arr b')) →
  buckets_ok s' arr' (<[b := x :: B b]> B).
Proof.
  intros HB Hb Hx [h Hh] [Hpx Hpy] Hlen Hh' Hc Hother.
  apply (buckets_push s s' arr arr'); try done; unfold bkt_link.
  - by rewrite Hpx, Hh.
  - intros y Hy. rewrite Hpy by done. case_decide; [|done]. by destruct (handles s !! y).
Qed.

(** The stores that do this; the macros differ in the order of the first two. *)
Lemma wpx_push_links {A} E x hd f1 f2 (k : M uthash A) Q s :
  is_Some (handles s !! x) → (∀ y, hd = Some y → y ≠ x ∧ is_Some (handles s !! y)) →
  (∀ h, f2 (f1 h) = h <| hh_prev := None |> <| hh_next := hd |>) →
  (∀ s', pushed (handles s) (handles s') x hd → fields s' = fields s → tables s' = tables s → wpx E k Q s') →
  wpx E (store handles x f1;; store handles x f2;;
      match hd with
      | Some y => store handles y (λ h, h <| hh_prev := Some x |>)
      | None => mret tt
      end;; k) Q s.
Proof.
  intros [h Hh] Hhd Hf Hk. wpx_next. wp_step; [done|]. wpx_next.
  eapply wp_store; [rec_simpl; apply lookup_insert_eq|]. rec_simpl. rewrite insert_insert_eq, Hf.
  destruct hd as [y|]; wpx_next.
  - destruct (Hhd y) as [Hyx [hy Hhy]]; [done|].
    eapply wp_store; [rec_simpl; by rewrite lookup_insert_ne|].
    apply Hk; rec_simpl; [|done..]. split.
    + by rewrite lookup_insert_ne, lookup_insert_eq, Hh by done.
    + intros z Hz. destruct (decide (y = z)) as [->|Hne].
      * by rewrite lookup_insert_eq, decide_True, Hhy by done.
      * by rewrite decide_False, !lookup_insert_ne by congruence.
  - wp_step. apply Hk; rec_simpl; [|done..]. split; [by rewrite lookup_insert_eq, Hh|].
    intros z Hz. by rewrite decide_False, lookup_insert_ne by done.
Qed.

Lemma wp_push_links {A} x hd f1 f2 (k : M uthash A) Q s :
  is_Some (handles s !! x) → (∀ y, hd = Some y → y ≠ x ∧ is_Some (handles s !! y)) →
  (∀ h, f2 (f1 h) = h <| hh_prev := None |> <| hh_next := hd |>) →
  (∀ s', pushed (handles s) (handles s') x hd → fields s' = fields s → tables s' = tables s → wp k Q s') →
  wp (store handles x f1;; store handles x f2;;
      match hd with
      | Some y => store handles y (λ h, h <| hh_prev := Some x |>)
      | None => mret tt
      end;; k) Q s.
Proof. exact (wpx_push_links (λ _, False) x hd f1 f2 k Q s). Qed.

Lemma wp_nonideal s s0 t T n arr b (c m : bool) :
  tables s = <[t := T <| nonideal_items := n |>]> (tables s0) → 0 ≤ b < arr_len arr →
  wp (if c then
        store tables t (λ T, T <| nonideal_items ::= λ n, u32 (n + 1) |>);;
        if m then arr_put arr b (λ b, b <| expand_mult ::= λ n, u32 (n + 1) |>) else mret arr
      else mret arr)
    (λ arr' s', handles s' = handles s ∧ fields s' = fields s ∧
      (∃ n', tables s' = <[t := T <| nonideal_items := n' |>]> (tables s0)) ∧
      arr_len arr' = arr_len arr ∧
      ∀ b', hh_head (cell arr' b') = hh_head (cell arr b') ∧ b_count (cell arr' b') = b_count (cell arr b')) s.
Proof.
  intros Ht Hb. destruct c; [|wp_step; naive_solver].
  wp_step. eapply wp_store; [rewrite Ht; apply lookup_insert_eq|].
  assert (∃ n', <[t := T <| nonideal_items := n |> <| nonideal_items ::= λ n, u32 (n + 1) |>]> (tables s) =
                <[t := T <| nonideal_items := n' |>]> (tables s0)) as Hn'.
  { exists (u32 (n + 1)). rewrite Ht, insert_insert_eq. by destruct T. }
  destruct m; [apply wp_arr_put; [done|]|wp_step]; rec_simpl; split_and!; try done.
  intros b'. rewrite cell_insert. case_decide; subst; by rec_simpl.
Qed.

Lemma wp_expand_one s0 s t T X D arr N x h :
  expanding s0 s t T X D arr N → x ∉ D → x ∈ X → handles s0 !! x = Some h →
  0 < num_buckets T ≤ 2 ^ 30 → (∃ l, 0 ≤ l ∧ num_buckets T = 2 ^ l) → Z.of_nat (length X) < 2 ^ 32 →
  wp (expand_one t x arr) (λ r s', r.2 = hh_next h ∧
    ∃ N', expanding s0 s' t T X (D ++ [x]) r.1 N') s.
Proof.
  intros He HxD HxX Hh Hnb Hpow HX. destruct (ex_tables _ _ _ _ _ _ _ _ He) as [n Ht].
  assert (handles s !! x = Some h) as Hhs by (by rewrite (ex_rest _ _ _ _ _ _ _ _ He)).
  assert (0 ≤ HASH_TO_BKT (h_hashv h) (2 * num_buckets T) < arr_len arr) as Hb.
  { rewrite (ex_len _ _ _ _ _ _ _ _ He). apply to_bkt_range; [lia|].
    destruct Hpow as (l&?&->). exists (l + 1). rewrite Z.pow_add_r by lia. split; lia. }
  set (b := HASH_TO_BKT (h_hashv h) (2 * num_buckets T)) in *.
  assert (∀ b', x ∉ N b') as Hxn.
  { intros b' [? _]%(ex_member _ _ _ _ _ _ _ _ He). done. }
  assert (u32 (b_count (cell arr b) + 1) = b_count (cell arr b) + 1) as Hcnt.
  { rewrite (bk_count _ _ _ (ex_buckets _ _ _ _ _ _ _ _ He)). apply u32_small. split; [lia|].
    assert (length (x :: N b) ≤ length X)%nat; [|simpl in *; lia]. apply nodup_bound.
    - apply NoDup_cons. split; [apply Hxn|apply He].
    - intros y [->|[? _]%(ex_member _ _ _ _ _ _ _ _ He)]%elem_of_cons; [done|]. by apply He. }
  unfold expand_one. wp_step. eapply wp_deref; [rewrite Ht; apply lookup_insert_eq|].
  wp_step. wp_step; [done|]. rec_simpl.
  rewrite (Z.mul_comm _ 2), u32_small by lia. fold b.
  wp_step. apply wp_arr_put; [done|]. rec_simpl.
  wp_step. apply wp_arr_get; [done|].
  wp_step. eapply wp_mono; [by eapply (wp_nonideal s s0 t T n); [|rec_simpl]|].
  intros arr2 s2 (Hh2&Hf2&Ht2&Hlen2&Hcell2). rec_simpl_in Hlen2.
  wp_step. apply wp_arr_get; [by rewrite Hlen2|].
  pose proof (Hcell2 b) as [Hhd Hct]. rewrite cell_insert, decide_True in Hhd, Hct by done.
  rec_simpl_in Hhd. rec_simpl_in Hct. rewrite Hcnt in Hct.
  rewrite Hhd, (bk_head _ _ _ (ex_buckets _ _ _ _ _ _ _ _ He)).
  apply wp_push_links.
  { rewrite Hh2. eauto. }
  { intros y Hy%head_Some_elem_of. split; [intros ->; by eapply Hxn|]. rewrite Hh2.
    destruct (linked_in _ _ _ (bk_link _ _ _ (ex_buckets _ _ _ _ _ _ _ _ He) b) Hy) as (p&m&Hl).
    unfold bkt_link in Hl. destruct (handles s !! y); [eauto|done]. }
  { by intros []. }
  intros s3 Hp Hf3 Ht3. rewrite Hh2 in Hp.
  wp_step. apply wp_arr_put; [by rewrite Hlen2|]. wp_step. split; [done|].
  exists (<[b := x :: N b]> N). simpl. split.
  - by rewrite Ht3.
  - rewrite Hf3, Hf2. apply He.
  - rewrite (pushed_core _ _ _ _ Hp). apply He.
  - intros y Hy. destruct Hp as [_ Hp]. rewrite Hp by set_solver.
    rewrite decide_False; [apply He; set_solver|].
    intros [? _]%head_Some_elem_of%(ex_member _ _ _ _ _ _ _ _ He). set_solver.
  - pose proof (ex_sub _ _ _ _ _ _ _ _ He). set_solver.
  - rec_simpl. rewrite Hlen2. apply He.
  - eapply (pushed_buckets s s3 arr); [apply He|done..| | | |].
    + rec_simpl. by rewrite Hlen2.
    + rewrite cell_insert, decide_True by done. by rec_simpl.
    + rewrite cell_insert, decide_True by done. by rec_simpl.
    + intros b' Hb'. rewrite cell_insert, decide_False by done.
      destruct (Hcell2 b') as [-> ->]. by rewrite cell_insert, decide_False.
  - intros b' y. unfold insert, fn_insert. case_decide as Hbb.
    + subst b'. rewrite elem_of_cons, (ex_member _ _ _ _ _ _ _ _ He), elem_of_app, list_elem_of_singleton.
      split; [intros [->|[? ?]]; [split; [by right|by exists h]|split; [by left|done]]|].
      intros [[?| ->] ?]; [by right|by left].
    + rewrite (ex_member _ _ _ _ _ _ _ _ He), elem_of_app, list_elem_of_singleton.
      split; [naive_solver|]. intros [[?| ->] Hex]; [done|].
      destruct Hex as (h'&?&?). simplify_eq.
Qed.

Lemma wp_expand_loop s0 t T X rest : ∀ pre s D arr N n,
  expanding s0 s t T X D arr N → linked (bkt_link s0) (pre ++ rest) →
  NoDup rest → rest ⊆ X → (∀ x, x ∈ rest → x ∉ D) → (length rest < n)%nat →
  0 < num_buckets T ≤ 2 ^ 30 → (∃ l, 0 ≤ l ∧ num_buckets T = 2 ^ l) → Z.of_nat (length X) < 2 ^ 32 →
  wp (loop n (expand_body t) (arr, head rest))
    (λ arr' s', ∃ N', expanding s0 s' t T X (D ++ rest) arr' N') s.
Proof.
  induction rest as [|x rest IH]; intros pre s D arr N n He Hl Hnd HX HD Hn Hnb Hp Hlen;
    (destruct n as [|n]; [simpl in Hn; lia|]); cbn [loop head]; wp_step; unfold expand_body at 1.
  - do 2 wp_step. exists N. by rewrite app_nil_r.
  - pose proof (Hl pre x rest eq_refl) as Hlx. unfold bkt_link in Hlx.
    destruct (handles s0 !! x) as [h|] eqn:Hh; [|done]. injection Hlx as _ Hnx.
    wp_step. eapply wp_mono; [eapply wp_expand_one; try done; set_solver|].
    intros [arr' o] s' [Ho (N'&He')]. simpl in Ho, He'. subst o. rewrite Hnx. wp_step.
    apply NoDup_cons in Hnd as [Hx Hnd].
    eapply wp_mono; [eapply (IH (pre ++ [x])); try done|].
    + by rewrite <- app_assoc.
    + set_solver.
    + intros y Hy. rewrite elem_of_app, list_elem_of_singleton. intros [HyD| ->]; [|done].
      eapply HD; [|done]. set_solver.
    + simpl in Hn. lia.
    + intros arr2 s2 [N2 H2]. exists N2. by rewrite <- app_assoc in H2.
Qed.

Lemma wp_expand_buckets s0 t T X B is_ : ∀ s D arr N,
  expanding s0 s t T X D arr N → buckets_ok s0 (t_buckets T) B →
  (∀ b, B b ⊆ X) → NoDup is_ → (∀ i, i ∈ is_ → 0 ≤ i < arr_len (t_buckets T)) →
  (∀ i x, i ∈ is_ → x ∈ B i → x ∉ D) →
  0 < num_buckets T ≤ 2 ^ 30 → (∃ l, 0 ≤ l ∧ num_buckets T = 2 ^ l) → Z.of_nat (length X) < 2 ^ 32 →
  wp (expand_buckets t is_ arr)
    (λ arr' s', ∃ N', expanding s0 s' t T X (D ++ mjoin (B <$> is_)) arr' N') s.
Proof.
  induction is_ as [|i is_ IH]; intros s D arr N He HB HX Hnd Hin HD Hnb Hp Hlen; simpl.
  { wp_step. exists N. by rewrite app_nil_r. }
  apply NoDup_cons in Hnd as [Hi Hnd]. pose proof (ex_tables _ _ _ _ _ _ _ _ He) as [n Ht].
  wp_step. unfold expand_bucket, chain_fuel. wp_step.
  eapply wp_bucket; [rewrite Ht; apply lookup_insert_eq|rec_simpl; apply Hin; set_solver|].
  rec_simpl. rewrite (bk_head _ _ _ HB). wp_step. wp_step.
  eapply wp_mono; [eapply (wp_expand_loop s0 t T X (B i) []); try done|].
  - apply HB.
  - apply HB.
  - intros x Hx. eapply HD; [|done]. set_solver.
  - assert (length (B i) ≤ size (handles s))%nat; [|lia].
    rewrite <- size_dom, <- (size_list_to_set (C := gset addr) (B i)) by apply HB.
    apply subseteq_size. intros x. rewrite elem_of_list_to_set, elem_of_dom. intros Hx.
    destruct (linked_in _ _ _ (bk_link _ _ _ HB i) Hx) as (p&q&Hl). unfold bkt_link in Hl.
    rewrite (ex_rest _ _ _ _ _ _ _ _ He) by (eapply HD; [|done]; set_solver).
    destruct (handles s0 !! x); [eauto|done].
  - intros arr' s' [N' He']. eapply wp_mono; [eapply (IH s'); try done|].
    + intros j Hj. apply Hin. set_solver.
    + intros j x Hj Hx. rewrite elem_of_app. intros [?|Hxi]; [eapply HD; [|done..]; set_solver|].
      apply Hi. by rewrite (bk_disjoint _ _ _ HB i j x).
    + intros arr2 s2 [N2 H2]. exists N2. by rewrite <- app_assoc in H2.
Qed.

(** The rest of the memory: other elements and tables, and the key fields. *)
Record frame (s s' : uthash) (X : list addr) (t : addr) : Prop := Frame {
  fr_handles y : y ∉ X → handles s' !! y = handles s !! y;
  fr_fields : fields s' = fields s;
  fr_tables t' : t' ≠ t → tables s' !! t' = tables s !! t';
  fr_dom y : is_Some (handles s !! y) → is_Some (handles s' !! y);
}.

Lemma hash_frame_refl s X t : frame s s X t.
Proof. done. Qed.

Lemma hash_frame_trans s s' s'' X X' t : frame s s' X t → frame s' s'' X' t → X ⊆ X' → frame s s'' X' t.
Proof.
  intros [H1 F1 T1 D1] [H2 F2 T2 D2] HX. split.
  - intros y Hy. rewrite H2 by done. apply H1. intros ?. by apply Hy, HX.
  - congruence.
  - intros t' Ht. by rewrite T2, T1.
  - auto.
Qed.

Lemma app_link_core s s' x : core <$> handles s' = core <$> handles s → app_link s' x = app_link s x.
Proof.
  intros Hc. apply (f_equal (lookup x)) in Hc. rewrite !lookup_fmap in Hc. unfold app_link.
  destruct (handles s' !! x) as [h'|], (handles s !! x) as [h|]; simpl in *; try done.
  destruct h, h'. by simplify_eq/=.
Qed.

Lemma core_lookup (H H' : gmap addr UT_hash_handle) x h :
  core <$> H' = core <$> H → H !! x = Some h → ∃ h', H' !! x = Some h' ∧ core h' = core h.
Proof.
  intros Hc Hh. apply (f_equal (lookup x)) in Hc. rewrite !lookup_fmap, Hh in Hc.
  destruct (H' !! x) as [h'|]; [|done]. apply (inj Some) in Hc. eauto.
Qed.

Lemma core_dom (H H' : gmap addr UT_hash_handle) x :
  core <$> H' = core <$> H → is_Some (H !! x) → is_Some (H' !! x).
Proof. intros Hc [h Hh]. destruct (core_lookup _ _ _ _ Hc Hh) as (h'&->&_). eauto. Qed.

(** ** What a table holds *)
Abbreviation item := (addr * list Z)%type.

Section table.
Context (HASH_FCN : list Z → Z).

(** The part of the table that is not about the buckets. *)
Record table_ok (s : uthash) (t : addr) (T : UT_hash_table) (I : list item) : Prop := TableOk {
  rp_table : tables s !! t = Some T;
  rp_app : linked (app_link s) I.*1;
  rp_nodup : NoDup I.*1;
  rp_tail : t_tail T = last I.*1;
  rp_items : num_items T = Z.of_nat (length I);
  rp_small : Z.of_nat (length I) < 2 ^ 32;
  rp_size : num_buckets T = 2 ^ log2_num_buckets T ∧ 0 ≤ log2_num_buckets T ≤ 31 ∧
            arr_len (t_buckets T) = num_buckets T;
  rp_handle x k : (x, k) ∈ I → ∃ h, handles s !! x = Some h ∧ h_tbl h = Some t ∧ h_key h = Some x ∧
    h_keylen h = Z.of_nat (length k) ∧ h_hashv h = HASH_FCN k;
  rp_field x k : (x, k) ∈ I → ∃ bytes, fields s !! x = Some bytes ∧ (length k ≤ length bytes)%nat;
}.

Record rep (s : uthash) (t : addr) (T : UT_hash_table) (I : list item) (B : Z → list addr) : Prop := Rep {
  rp_base : table_ok s t T I;
  rp_buckets : buckets_ok s (t_buckets T) B;
  rp_member b x : x ∈ B b ↔ ∃ k, (x, k) ∈ I ∧ HASH_TO_BKT (HASH_FCN k) (num_buckets T) = b;
}.

Definition holds (s : uthash) (hd : option addr) (I : list item) (t : addr) : Prop :=
  hd = head I.*1 ∧ (I ≠ [] → ∃ T B, rep s t T I B).

(** What an element must have for a lookup of [key] to find it. *)
Definition matches (s : uthash) (key : list Z) (it : item) : Prop :=
  length it.2 = length key ∧ HASH_FCN it.2 = HASH_FCN key ∧
  ∃ bytes, fields s !! it.1 = Some bytes ∧ take (length key) bytes = key.

Lemma rep_nb s t T I B : rep s t T I B →
  0 < num_buckets T ≤ 2 ^ 31 ∧ (∃ l, 0 ≤ l ∧ num_buckets T = 2 ^ l) ∧
  arr_len (t_buckets T) = num_buckets T.
Proof.
  intros Hr. destruct (rp_size _ _ _ _ (rp_base _ _ _ _ _ Hr)) as (Hn&Hl&Ha). split; [|split; [|done]].
  - rewrite Hn. split; [lia|]. apply Z.pow_le_mono_r; lia.
  - exists (log2_num_buckets T). naive_solver lia.
Qed.

Lemma rep_bkt s t T I B v : rep s t T I B →
  0 ≤ HASH_TO_BKT v (num_buckets T) < arr_len (t_buckets T).
Proof. intros Hr. destruct (rep_nb _ _ _ _ _ Hr) as (?&?&->). by apply to_bkt_range. Qed.

Lemma rep_chain_size s t T I B b : rep s t T I B → (length (B b) ≤ size (handles s))%nat.
Proof.
  intros Hr. pose proof (bk_nodup _ _ _ (rp_buckets _ _ _ _ _ Hr) b) as Hnd.
  rewrite <- size_dom, <- (size_list_to_set (C := gset addr) (B b)) by done.
  apply subseteq_size. intros x. rewrite elem_of_list_to_set, elem_of_dom.
  intros (k&Hk&_)%(rp_member _ _ _ _ _ Hr). destruct (rp_handle _ _ _ _ (rp_base _ _ _ _ _ Hr) x k Hk) as (h&->&_). eauto.
Qed.

Lemma item_key (I : list item) x k k' : NoDup I.*1 → (x, k) ∈ I → (x, k') ∈ I → k' = k.
Proof.
  intros Hnd (i&Hi)%list_elem_of_lookup (j&Hj)%list_elem_of_lookup.
  assert (i = j) as ->; [|congruence].
  eapply NoDup_lookup; [done|by rewrite list_lookup_fmap, Hi|by rewrite list_lookup_fmap, Hj].
Qed.

(** ** Lookup *)
Lemma wp_find_body s t T I B b key done x rest :
  rep s t T I B → B b = done ++ x :: rest →
  wp (find_body key (Z.of_nat (length key)) (HASH_FCN key) (Some x)) (λ r s', s' = s ∧
    ∃ k, (x, k) ∈ I ∧
    match r with
    | inr o => o = Some x ∧ matches s key (x, k)
    | inl o => o = head rest ∧ ¬ matches s key (x, k)
    end) s.
Proof.
  intros Hr Hb. assert (x ∈ B b) as Hx by (rewrite Hb; set_solver).
  apply (rp_member _ _ _ _ _ Hr) in Hx as (k&Hk&_).
  destruct (rp_handle _ _ _ _ (rp_base _ _ _ _ _ Hr) x k Hk) as (h&Hh&_&Hkey&Hlen&Hv).
  destruct (rp_field _ _ _ _ (rp_base _ _ _ _ _ Hr) x k Hk) as (bytes&Hf&Hle).
  pose proof (bk_link _ _ _ (rp_buckets _ _ _ _ _ Hr) b done x rest Hb) as Hl.
  unfold bkt_link in Hl. rewrite Hh in Hl. simplify_eq/=.
  unfold find_body, matches. wp_step. wp_step; [done|]. wp_step.
  rewrite Hlen, Hv. wp_if Hm.
  - apply andb_true_iff in Hm as [Hm1%Z.eqb_eq Hm2%Z.eqb_eq].
    rewrite Hkey. wp_step. wp_step; [done|]. wp_step. wp_step; [done|].
    unfold HASH_KEYCMP. wp_step. apply wp_key_bytes; [lia|]. wp_step. apply wp_key_bytes; [lia|].
    rewrite Nat2Z.id, (firstn_all2 key) by done. wp_step.
    case_bool_decide as Hc; wp_step; (split; [done|]); exists k; simpl.
    + naive_solver lia.
    + split_and!; [done..|]. intros (_&_&b'&?&?). simplify_eq.
  - wp_step. wp_step. split; [done|]. exists k. split_and!; [done..|]. simpl.
    intros (?&?&_). apply andb_false_iff in Hm. rewrite !Z.eqb_neq in Hm. naive_solver lia.
Qed.

Lemma wp_find_loop s t T I B b key rest : ∀ done n,
  rep s t T I B → B b = done ++ rest → (length rest < n)%nat →
  (∀ x k, x ∈ done → (x, k) ∈ I → ¬ matches s key (x, k)) →
  wp (loop n (find_body key (Z.of_nat (length key)) (HASH_FCN key)) (head rest)) (λ r s', s' = s ∧
    match r with
    | Some x => ∃ k, (x, k) ∈ I ∧ matches s key (x, k)
    | None => ∀ x k, x ∈ B b → (x, k) ∈ I → ¬ matches s key (x, k)
    end) s.
Proof.
  induction rest as [|x rest IH]; intros done n Hr Hb Hn Hno; (destruct n as [|n]; [simpl in Hn; lia|]);
    cbn [loop head].
  - wp_step. unfold find_body. do 2 wp_step. split; [done|]. rewrite app_nil_r in Hb. by rewrite Hb.
  - wp_step. eapply wp_mono; [by eapply wp_find_body|].
    intros r s' (->&k&Hk&Hres). destruct r as [o|o]; destruct Hres as [-> Hm].
    + apply (IH (done ++ [x])); [done|by rewrite <- app_assoc|simpl in Hn; lia|].
      intros y k' [Hy| ->%list_elem_of_singleton]%elem_of_app Hk'; [by apply Hno|].
      assert (k' = k) as -> by (by eapply item_key; [apply Hr|..]). done.
    + wp_step. split; [done|]. eauto.
Qed.

Lemma wp_hash_find s hd I t key :
  holds s hd I t →
  wp (HASH_FIND HASH_FCN hd key (Z.of_nat (length key))) (λ r s', s' = s ∧
    match r with
    | Some x => ∃ k, (x, k) ∈ I ∧ matches s key (x, k)
    | None => ∀ it, it ∈ I → ¬ matches s key it
    end) s.
Proof.
  intros [-> HI]. unfold HASH_FIND. destruct I as [|[x0 k0] I'] eqn:EI; simpl.
  { wp_step. split; [done|]. set_solver. }
  rewrite <- EI in *. destruct HI as (T&B&Hr); [by subst|].
  destruct (rp_handle _ _ _ _ (rp_base _ _ _ _ _ Hr) x0 k0) as (h&Hh&Ht&_); [subst; set_solver|].
  pose proof (rp_table _ _ _ _ (rp_base _ _ _ _ _ Hr)) as HT.
  wp_step. unfold HASH_VALUE. wp_step. apply wp_key_bytes; [done|].
  rewrite Nat2Z.id, (firstn_all2 key) by done. wp_step.
  unfold HASH_FIND_BYHASHVALUE. wp_step. eapply wp_tbl_of; [done..|].
  wp_step. wp_step; [done|]. wp_step. eapply wp_bucket; [done|by eapply rep_bkt|].
  set (b := HASH_TO_BKT (HASH_FCN key) (num_buckets T)).
  unfold HASH_FIND_IN_BKT, chain_fuel. wp_step. wp_step.
  rewrite (bk_head _ _ _ (rp_buckets _ _ _ _ _ Hr)).
  eapply wp_mono; [apply (wp_find_loop s t T I B b key (B b) []); [done..| |set_solver]|].
  { pose proof (rep_chain_size _ _ _ _ _ b Hr). lia. }
  intros [x|] s' [-> Hres]; [done|]. split; [done|].
  intros [x k] Hin Hm. apply (Hres x k); [|done..].
  apply (rp_member _ _ _ _ _ Hr). exists k. split; [done|]. destruct Hm as (_&Hv&_). by simpl in Hv; rewrite Hv.
Qed.

(** ** Expansion *)
Lemma rep_all_buckets s t T I B :
  rep s t T I B → ∀ x, x ∈ mjoin (B <$> seqZ 0 (num_buckets T)) ↔ x ∈ I.*1.
Proof.
  intros Hr x. rewrite list_elem_of_join. split.
  - intros (l&Hx&Hl). apply list_elem_of_fmap in Hl as (b&->&_).
    apply (rp_member _ _ _ _ _ Hr) in Hx as (k&Hk&_). apply list_elem_of_fmap. by exists (x, k).
  - intros ([y k]&->&Hk)%list_elem_of_fmap. simpl.
    set (b := HASH_TO_BKT (HASH_FCN k) (num_buckets T)). exists (B b).
    assert (y ∈ B b) as Hy by (apply (rp_member _ _ _ _ _ Hr); by exists k).
    split; [done|]. apply list_elem_of_fmap. exists b. split; [done|].
    apply elem_of_seqZ. pose proof (rep_bkt _ _ _ _ _ (HASH_FCN k) Hr).
    destruct (rep_nb _ _ _ _ _ Hr) as (_&_&Ha). unfold b. lia.
Qed.

Lemma rep_chains s t T I B b : rep s t T I B → B b ⊆ I.*1.
Proof.
  intros Hr x (k&Hk&_)%(rp_member _ _ _ _ _ Hr). apply list_elem_of_fmap. by exists (x, k).
Qed.

(** The table after an expansion that has distributed all elements. *)
Lemma rep_expanded s s0 s1 s2 t T T1 T2 I B arr N D :
  rep s t T I B →
  handles s0 = handles s → fields s0 = fields s → num_buckets T1 = num_buckets T →
  expanding s0 s1 t T1 I.*1 D arr N → (∀ x, x ∈ I.*1 → x ∈ D) → num_buckets T ≤ 2 ^ 30 →
  handles s2 = handles s1 → fields s2 = fields s1 → tables s2 !! t = Some T2 →
  num_items T2 = num_items T → t_tail T2 = t_tail T → num_buckets T2 = 2 * num_buckets T →
  log2_num_buckets T2 = log2_num_buckets T + 1 → t_buckets T2 = arr →
  rep s2 t T2 I N.
Proof.
  intros Hr Hh0 Hf0 Hn1 He HD Hnb Hh2 Hf2 HT2 Hitems Htail Hn2 Hlog Harr.
  destruct (rp_size _ _ _ _ (rp_base _ _ _ _ _ Hr)) as (Hn&Hl&Ha).
  pose proof (ex_core _ _ _ _ _ _ _ _ He) as Hcore. rewrite Hh0, <- Hh2 in Hcore.
  split; [split|..].
  - done.
  - eapply linked_ext; [apply Hr|]. intros x _. by apply app_link_core.
  - apply Hr.
  - rewrite Htail. apply Hr.
  - rewrite Hitems. apply Hr.
  - apply Hr.
  - rewrite Hn2, Hlog, Hn, Z.pow_add_r by lia. split; [lia|]. split; [|rewrite Harr].
    + split; [lia|]. assert (log2_num_buckets T ≤ 30); [|lia].
      apply (Z.pow_le_mono_r_iff 2); lia.
    + rewrite (ex_len _ _ _ _ _ _ _ _ He). lia.
  - intros x k Hk. destruct (rp_handle _ _ _ _ (rp_base _ _ _ _ _ Hr) x k Hk) as (h&Hh&Ht&Hkey&Hkl&Hv).
    destruct (core_lookup _ _ _ _ Hcore Hh) as (h'&Hh'&Hc). exists h'.
    destruct h, h'. by simplify_eq/=.
  - intros x k Hk. rewrite Hf2, (ex_fields _ _ _ _ _ _ _ _ He), Hf0. by apply Hr.
  - rewrite Harr. eapply (buckets_ext s1); [apply He| |done..].
    intros. unfold bkt_link. by rewrite Hh2.
  - intros b x. rewrite (ex_member _ _ _ _ _ _ _ _ He), Hn1, Hh0, Hn2. split.
    + intros [Hx (h&Hh&Hb)]. apply (ex_sub _ _ _ _ _ _ _ _ He) in Hx.
      apply list_elem_of_fmap in Hx as ([y k]&->&Hk). exists k. split; [done|].
      destruct (rp_handle _ _ _ _ (rp_base _ _ _ _ _ Hr) y k Hk) as (h'&Hh'&_&_&_&Hv). simplify_eq/=. congruence.
    + intros (k&Hk&Hb). destruct (rp_handle _ _ _ _ (rp_base _ _ _ _ _ Hr) x k Hk) as (h&Hh&_&_&_&Hv).
      split; [apply HD, list_elem_of_fmap; by exists (x, k)|]. exists h. split; [done|]. congruence.
Qed.

Context (malloc_ok : Z → bool).

Lemma wp_uthash_malloc sz (Q : unit → uthash → Prop) s :
  malloc_ok sz = true → Q tt s → wp (uthash_malloc malloc_ok sz) Q s.
Proof. unfold uthash_malloc. by intros ->. Qed.

Lemma wpx_malloc E sz (Q : unit → uthash → Prop) s :
  (malloc_ok sz = false → E out_of_memory) → (malloc_ok sz = true → Q tt s) →
  wpx E (uthash_malloc malloc_ok sz) Q s.
Proof. unfold uthash_malloc. destruct (malloc_ok sz); intros H1 H2; [by apply wpx_ret, H2|by apply wpx_fail, H1]. Qed.

Lemma wp_shr32 x n (Q : Z → uthash → Prop) s : n < 32 → Q (Z.shiftr x n) s → wp (shr32 x n) Q s.
Proof. intros Hn HQ. unfold shr32. by rewrite (proj2 (Z.ltb_lt n 32)). Qed.

Lemma wp_expand s t T I B :
  rep s t T I B → malloc_ok (2 * num_buckets T * sizeof_bucket) = true → num_buckets T ≤ 2 ^ 30 →
  wp (HASH_EXPAND_BUCKETS malloc_ok t) (λ _ s', (∃ T' B', rep s' t T' I B') ∧
    frame s s' I.*1 t ∧ core <$> handles s' = core <$> handles s) s.
Proof.
  intros Hr Hm Hnb. pose proof (rp_table _ _ _ _ (rp_base _ _ _ _ _ Hr)) as HT.
  destruct (rep_nb _ _ _ _ _ Hr) as (Hpos&Hpow&Hlen).
  unfold HASH_EXPAND_BUCKETS. wp_step. wp_step; [done|]. wp_step. apply wp_uthash_malloc; [done|].
  destruct (rp_size _ _ _ _ (rp_base _ _ _ _ _ Hr)) as (Hn&Hl&_).
  assert (log2_num_buckets T < 31) as Hl' by (apply (Z.pow_lt_mono_r_iff 2); [lia|lia|]; rewrite <- Hn; lia).
  wp_step. rewrite u32_small by lia. apply wp_shr32; [lia|].
  wp_step. wp_step; [done|]. cbv beta.
  set (T1 := T <| ideal_chain_maxlen := _ |> <| nonideal_items := 0 |>).
  set (s0 := s <| tables := _ |>).
  wp_step. eapply wp_mono.
  { eapply (wp_expand_buckets s0 t T1 I.*1 B _ s0 [] _ (λ _, [])).
    - split.
      + exists 0. unfold s0. rec_simpl. rewrite insert_insert_eq. f_equal.
      + done.
      + done.
      + done.
      + set_solver.
      + unfold T1. by rec_simpl.
      + apply buckets_empty.
      + intros b x. set_solver.
    - eapply (buckets_ext s); [apply Hr|done..].
    - intros b. by eapply rep_chains.
    - apply NoDup_seqZ.
    - intros i Hi%elem_of_seqZ. unfold T1. rec_simpl. lia.
    - set_solver.
    - unfold T1. rec_simpl. lia.
    - unfold T1. by rec_simpl.
    - rewrite length_fmap. apply Hr. }
  intros arr s1 [N He]. destruct (ex_tables _ _ _ _ _ _ _ _ He) as [n Ht1].
  eapply wp_store; [rewrite Ht1; apply lookup_insert_eq|]. cbv beta zeta.
  set (T2 := if _ <? _ then _ else _).
  split_and!.
  - exists T2, N. eapply (rep_expanded s s0 s1 _ t T T1 T2 I B arr N);
      [exact Hr|done|done| |exact He| |done|done|done|..].
    + unfold T1. by rec_simpl.
    + intros x. rewrite app_nil_l. apply (rep_all_buckets _ _ _ _ _ Hr).
    + rec_simpl. apply lookup_insert_eq.
    + unfold T2, T1. case_match; by rec_simpl.
    + unfold T2, T1. case_match; by rec_simpl.
    + unfold T2, T1. rewrite <- (u32_small (2 * num_buckets T)), (Z.mul_comm 2) by lia. case_match; by rec_simpl.
    + destruct (rp_size _ _ _ _ (rp_base _ _ _ _ _ Hr)) as (_&?&_).
      unfold T2, T1. rewrite <- (u32_small (log2_num_buckets T + 1)) by lia. case_match; by rec_simpl.
    + unfold T2, T1. case_match; by rec_simpl.
  - split.
    + intros y Hy. rec_simpl. rewrite (ex_rest _ _ _ _ _ _ _ _ He); [done|].
      intros HyD. apply Hy. by apply (ex_sub _ _ _ _ _ _ _ _ He).
    + rec_simpl. apply He.
    + intros t' Hne. rec_simpl. rewrite Ht1, !lookup_insert_ne by done. unfold s0. rec_simpl.
      by rewrite lookup_insert_ne.
    + intros y. rec_simpl. apply core_dom, He.
  - rec_simpl. apply He.
Qed.

(** Why the buckets of a table cannot double: the memory is refused, or there
    are [2 ^ 31] of them, and the shift by the logarithm of the new number is
    by 32 places. *)
Definition cannot_double (T : UT_hash_table) (e : err) : Prop :=
  if malloc_ok (2 * num_buckets T * sizeof_bucket) then num_buckets T = 2 ^ 31 ∧ e = shift_undefined
  else e = out_of_memory.

Lemma wpx_expand s t T I B :
  rep s t T I B →
  wpx (cannot_double T) (HASH_EXPAND_BUCKETS malloc_ok t) (λ _ s', (∃ T' B', rep s' t T' I B') ∧
    frame s s' I.*1 t ∧ core <$> handles s' = core <$> handles s) s.
Proof.
  intros Hr. pose proof (rp_table _ _ _ _ (rp_base _ _ _ _ _ Hr)) as HT.
  destruct (rp_size _ _ _ _ (rp_base _ _ _ _ _ Hr)) as (Hn&Hl&_).
  destruct (malloc_ok (2 * num_buckets T * sizeof_bucket)) eqn:Hm.
  2: { unfold HASH_EXPAND_BUCKETS. wpx_next. wp_step; [done|]. apply wpx_bind.
       unfold uthash_malloc. rewrite Hm. apply wpx_fail. unfold cannot_double. by rewrite Hm. }
  destruct (decide (log2_num_buckets T = 31)) as [E|E].
  - unfold HASH_EXPAND_BUCKETS. wpx_next. wp_step; [done|]. wpx_next. apply wp_uthash_malloc; [done|].
    rewrite E. apply wpx_bind, wpx_fail. unfold cannot_double. rewrite Hm, Hn, E. done.
  - apply wpx_wp, (wp_expand s t T I B); [done..|]. rewrite Hn. apply Z.pow_le_mono_r; lia.
Qed.
End table.
