(* ===== verification/UthashOps.v ===== *)
(** * Additions to a hash table

    [HASH_ADD] appends an element to the sequence of a table, with the key it
    has at that time, makes the table when it is the first, and expands the
    buckets when its chain is full. *)

From S2P Require Import Prelude Links Uthash UthashOk.

Section ops.
Context (HASH_FCN : list Z → Z).
Abbreviation table_ok := (table_ok HASH_FCN).
Abbreviation rep := (rep HASH_FCN).
Abbreviation holds := (holds HASH_FCN).

Lemma table_ok_core s s' t T T' I :
  table_ok s t T I → core <$> handles s' = core <$> handles s → fields s' = fields s →
  tables s' !! t = Some T' → num_items T' = num_items T → t_tail T' = t_tail T →
  num_buckets T' = num_buckets T → log2_num_buckets T' = log2_num_buckets T →
  arr_len (t_buckets T') = arr_len (t_buckets T) →
  table_ok s' t T' I.
Proof.
  intros Hr Hc Hf HT Hi Htl Hn Hlg Ha. split.
  - done.
  - eapply linked_ext; [apply Hr|]. intros x _. by apply app_link_core.
  - apply Hr.
  - rewrite Htl. apply Hr.
  - rewrite Hi. apply Hr.
  - apply Hr.
  - rewrite Hn, Hlg, Ha. apply Hr.
  - intros x k Hk. destruct (rp_handle _ _ _ _ _ Hr x k Hk) as (h&Hh&Ht&Hkey&Hkl&Hv).
    destruct (core_lookup _ _ _ _ Hc Hh) as (h'&Hh'&Hch). exists h'. destruct h, h'. by simplify_eq/=.
  - rewrite Hf. apply Hr.
Qed.

(** [x] appended to the sequence of a table, or alone in a new one. *)
Lemma table_ok_append s s' t T T' I B x k hx :
  rep s t T I B → x ∉ I.*1 → I ≠ [] → Z.of_nat (S (length I)) < 2 ^ 32 →
  tables s' !! t = Some T' → t_tail T' = Some x → num_items T' = num_items T + 1 →
  num_buckets T' = num_buckets T → log2_num_buckets T' = log2_num_buckets T →
  t_buckets T' = t_buckets T → fields s' = fields s →
  handles s' !! x = Some hx → h_tbl hx = Some t → h_key hx = Some x →
  h_keylen hx = Z.of_nat (length k) → h_hashv hx = HASH_FCN k →
  h_prev hx = last I.*1 → h_next hx = None →
  (∀ y, y ≠ x → handles s' !! y =
     (λ h, if decide (last I.*1 = Some y) then h <| h_next := Some x |> else h) <$> handles s !! y) →
  (∃ bytes, fields s !! x = Some bytes ∧ (length k ≤ length bytes)%nat) →
  table_ok s' t T' (I ++ [(x, k)]) ∧ buckets_ok s' (t_buckets T') B.
Proof.
  intros Hr Hx HI Hlen HT' Htl Hit Hn Hlg Hbk Hf Hhx Ht Hkey Hkl Hv Hp Hnx Hy Hfx.
  assert (∀ y, y ∈ I.*1 → y ≠ x) as Hne by (intros y Hyi ->; done).
  split.
  - split.
    + done.
    + rewrite fmap_app. simpl. apply (linked_splice (app_link s) _ I.*1 x []).
      * rewrite app_nil_r. apply Hr.
      * rewrite app_nil_r. apply Hr.
      * by rewrite app_nil_r.
      * unfold app_link. rewrite Hhx. simpl. by rewrite Hp, Hnx.
      * intros y p n Hyi Hl. rewrite app_nil_r in Hyi. unfold app_link in *.
        rewrite Hy by auto. destruct (handles s !! y) as [h|]; [|done]. simplify_eq/=. by case_decide.
    + rewrite fmap_app, NoDup_app. simpl. split; [apply Hr|]. split; [set_solver|apply NoDup_singleton].
    + rewrite fmap_app. simpl. by rewrite last_snoc.
    + rewrite Hit, (rp_items _ _ _ _ _ (rp_base _ _ _ _ _ _ Hr)), length_app. simpl. lia.
    + rewrite length_app. simpl. lia.
    + rewrite Hn, Hlg, Hbk. apply Hr.
    + intros y k' [Hin|[= -> ->]%list_elem_of_singleton]%elem_of_app; [|eauto 10].
      destruct (rp_handle _ _ _ _ _ (rp_base _ _ _ _ _ _ Hr) y k' Hin) as (h&Hh&?&?&?&?).
      assert (y ≠ x) by (apply Hne, list_elem_of_fmap; by exists (y, k')).
      rewrite Hy, Hh by done. eexists. split; [done|]. by case_decide.
    + intros y k' [Hin|[= -> ->]%list_elem_of_singleton]%elem_of_app; rewrite Hf; [|done].
      by apply Hr.
  - rewrite Hbk. eapply (buckets_ext s); [apply Hr| |done..].
    intros b y Hyb. unfold bkt_link. rewrite Hy; [by destruct (handles s !! y); [simpl; case_decide|]|].
    apply Hne. by eapply rep_chains.
Qed.

(** A table is known by its elements, their fields and its own struct. *)
Lemma rep_ext s s' t T I B :
  rep s t T I B → (∀ y, y ∈ I.*1 → handles s' !! y = handles s !! y) →
  (∀ y bytes, y ∈ I.*1 → fields s !! y = Some bytes →
     ∃ bytes', fields s' !! y = Some bytes' ∧ length bytes' = length bytes) →
  tables s' !! t = tables s !! t → rep s' t T I B.
Proof.
  intros Hr Hh Hf HT.
  assert (∀ x k, (x, k) ∈ I → x ∈ I.*1) as Hin by (intros x k Hx; apply list_elem_of_fmap; by exists (x, k)).
  pose proof (rp_base _ _ _ _ _ _ Hr) as Hok. split; [split|..].
  - rewrite HT. apply Hr.
  - eapply linked_ext; [apply Hr|]. intros y Hy. unfold app_link. by rewrite Hh.
  - apply Hr.
  - apply Hr.
  - apply Hr.
  - apply Hr.
  - apply Hr.
  - intros x k Hx. rewrite Hh by eauto. by apply Hok.
  - intros x k Hx. destruct (rp_field _ _ _ _ _ Hok x k Hx) as (bytes&Hb&Hle).
    destruct (Hf x bytes) as (bytes'&?&?); [eauto..|]. exists bytes'. split; [done|lia].
  - eapply (buckets_ext s); [apply Hr| |done..].
    intros b x Hx. unfold bkt_link. rewrite Hh; [done|]. by eapply rep_chains.
  - apply Hr.
Qed.

Context (malloc_ok : Z → bool).

(** The addition of an element with the key [k] finds the chain full, and the
    table still expanding. *)
Definition must_expand (T : UT_hash_table) (k : list Z) : bool :=
  let b := cell (t_buckets T) (HASH_TO_BKT (HASH_FCN k) (num_buckets T)) in
  (u32 (u32 (expand_mult b + 1) * HASH_BKT_CAPACITY_THRESH) <=? b_count b + 1) && (noexpand T =? 0).

Lemma wpx_add_to_bkt s t T I x k B :
  let b := HASH_TO_BKT (HASH_FCN k) (num_buckets T) in
  table_ok s t T (I ++ [(x, k)]) → buckets_ok s (t_buckets T) B →
  (∀ b x, x ∈ B b ↔ ∃ k, (x, k) ∈ I ∧ HASH_TO_BKT (HASH_FCN k) (num_buckets T) = b) →
  wpx (λ e, must_expand T k = true ∧ cannot_double malloc_ok T e) (HASH_ADD_TO_BKT malloc_ok t b x)
    (λ _ s', (∃ T' B', rep s' t T' (I ++ [(x, k)]) B') ∧ frame s s' (I ++ [(x, k)]).*1 t) s.
Proof.
  intros b Hok HB Hmem. pose proof (rp_table _ _ _ _ _ Hok) as HT.
  pose proof (rp_nodup _ _ _ _ _ Hok) as Hnd. rewrite fmap_app, NoDup_app in Hnd. simpl in Hnd.
  assert (∀ b', x ∉ B b') as Hx.
  { intros b' (k'&Hk'&_)%Hmem. destruct Hnd as (_&Hd&_). apply (Hd x); [|set_solver].
    apply list_elem_of_fmap. by exists (x, k'). }
  destruct (rp_handle _ _ _ _ _ Hok x k) as (h&Hh&Htx&_); [set_solver|].
  assert (0 ≤ b < arr_len (t_buckets T)) as Hb.
  { destruct (rp_size _ _ _ _ _ Hok) as (Hn&Hl&->). apply to_bkt_range; [|exists (log2_num_buckets T); split; [lia|done]].
    rewrite Hn. split; [lia|]. apply Z.pow_le_mono_r; lia. }
  assert (u32 (b_count (cell (t_buckets T) b) + 1) = Z.of_nat (S (length (B b)))) as Hcnt.
  { rewrite (bk_count _ _ _ HB), u32_small; [lia|]. split; [lia|].
    assert (length (x :: B b) ≤ length (I ++ [(x, k)]).*1)%nat as Hle.
    { apply nodup_bound; [apply NoDup_cons; split; [apply Hx|apply HB]|].
      intros y [->|(k'&Hk'&_)%Hmem]%elem_of_cons; apply list_elem_of_fmap;
        [exists (x, k)|exists (y, k')]; set_solver. }
    pose proof (rp_small _ _ _ _ _ Hok). rewrite length_fmap in Hle. simpl in Hle. lia. }
  unfold HASH_ADD_TO_BKT. wpx_next. eapply wp_set_bucket; [done..|].
  wpx_next. eapply wp_bucket; [rec_simpl; apply lookup_insert_eq|by rec_simpl|]. rec_simpl.
  rewrite cell_insert, decide_True by done. rec_simpl. rewrite (bk_head _ _ _ HB).
  apply wpx_push_links.
  { rec_simpl. eauto. }
  { intros y Hy%head_Some_elem_of. split; [intros ->; by eapply Hx|]. rec_simpl.
    apply Hmem in Hy as (k'&Hk'&_).
    destruct (rp_handle _ _ _ _ _ Hok y k') as (h'&->&_); [set_solver|eauto]. }
  { by intros []. }
  intros s1 Hp Hf1 Ht1. rec_simpl_in Hp. rec_simpl_in Hf1. rec_simpl_in Ht1.
  wpx_next. eapply wp_set_bucket; [rewrite Ht1; apply lookup_insert_eq|by rec_simpl|]. rec_simpl.
  wpx_next. eapply wp_bucket; [rec_simpl; apply lookup_insert_eq|by rec_simpl|]. rec_simpl.
  rewrite !cell_insert, !decide_True by done. rec_simpl. rewrite Hcnt.
  set (T3 := T <| t_buckets := _ |> <| t_buckets := _ |>). set (s3 := s1 <| tables := _ |>).
  pose proof (pushed_core _ _ _ _ Hp) as Hcore.
  assert (rep s3 t T3 (I ++ [(x, k)]) (<[b := x :: B b]> B)) as Hr3.
  { split.
    - eapply (table_ok_core s); [done|done|done|unfold s3; rec_simpl; apply lookup_insert_eq|..];
        unfold T3; by rec_simpl.
    - eapply (pushed_buckets s s3 (t_buckets T)); [done|done|done|eauto|done|..];
        unfold T3; rec_simpl.
      + done.
      + rewrite cell_insert, decide_True by done. by rec_simpl.
      + rewrite cell_insert, decide_True by done. rec_simpl. rewrite Hcnt, (bk_count _ _ _ HB). lia.
      + intros b' Hb'. by rewrite !cell_insert, !decide_False by done.
    - intros b' y. unfold T3. rec_simpl. unfold insert, fn_insert. case_decide as Hbb.
      + subst b'. rewrite elem_of_cons, Hmem. setoid_rewrite elem_of_app. setoid_rewrite list_elem_of_singleton.
        split; [intros [->|(k'&?&?)]; eauto|]. intros (k'&[?|[= -> ->]]&?); eauto.
      + rewrite Hmem. setoid_rewrite elem_of_app. setoid_rewrite list_elem_of_singleton.
        split; [intros (k'&?&?); eauto|]. intros (k'&[?|[= -> ->]]&?); [eauto|done]. }
  assert (frame s s3 (I ++ [(x, k)]).*1 t) as Hfr.
  { split.
    - intros y Hy. unfold s3. rec_simpl. destruct Hp as [_ Hp]. rewrite fmap_app in Hy.
      rewrite Hp by set_solver. rewrite decide_False; [done|].
      intros (k'&Hk'&_)%head_Some_elem_of%Hmem. apply Hy, elem_of_app. left.
      apply list_elem_of_fmap. by exists (y, k').
    - unfold s3. by rec_simpl.
    - intros t' Ht'. unfold s3. rec_simpl. by rewrite Ht1, !lookup_insert_ne by done.
    - intros y. by apply core_dom. }
  wpx_next. eapply wp_tbl_of; [unfold s3; rec_simpl; rewrite (proj1 Hp), Hh; done|by rec_simpl|].
  wpx_next. eapply wp_deref; [unfold s3; rec_simpl; apply lookup_insert_eq|].
  apply wpx_when; [|by intros _; eauto].
  intros Hfull. eapply wpx_weaken; [eapply wpx_mono|].
  - exact (wpx_expand _ _ _ _ _ _ _ Hr3).
  - intros _ s' (Hrep&Hfr'&_). split; [done|]. by eapply hash_frame_trans.
  - intros e He. split; [|exact He]. unfold must_expand. fold b. rewrite (bk_count _ _ _ HB).
    by replace (Z.of_nat (length (B b)) + 1) with (Z.of_nat (S (length (B b)))) by lia.
Qed.

(** What an addition to the table at [t] may have to allocate. *)
Definition granted (s : uthash) (I : list item) (t : addr) : Prop :=
  match I with
  | [] => malloc_ok sizeof_table = true ∧ malloc_ok (HASH_INITIAL_NUM_BUCKETS * sizeof_bucket) = true
  | _ => ∀ T, tables s !! t = Some T →
           malloc_ok (2 * num_buckets T * sizeof_bucket) = true ∧ num_buckets T ≤ 2 ^ 30
  end.

(** The errors of an addition with the key [k]: the memory for a new table is
    refused, or a table that must expand cannot. *)
Definition add_fails (s : uthash) (I : list item) (t : addr) (k : list Z) (e : err) : Prop :=
  match I with
  | [] => e = out_of_memory ∧
      (malloc_ok sizeof_table = false ∨ malloc_ok (HASH_INITIAL_NUM_BUCKETS * sizeof_bucket) = false)
  | _ => ∃ T, tables s !! t = Some T ∧ must_expand T k = true ∧ cannot_double malloc_ok T e
  end.

Lemma granted_add s I t k e : granted s I t → ¬ add_fails s I t k e.
Proof.
  destruct I as [|i I]; cbn.
  - intros [-> ->] [_ [|]]; done.
  - intros Hg (T&HT&_&He). destruct (Hg T HT) as [Hm Hn]. unfold cannot_double in He. rewrite Hm in He. lia.
Qed.

Lemma wpx_add_new s x hx k bytes :
  handles s !! x = Some hx → fields s !! x = Some bytes → (length k ≤ length bytes)%nat →
  h_key hx = Some x → h_keylen hx = Z.of_nat (length k) → h_hashv hx = HASH_FCN k →
  h_prev hx = None → h_next hx = None →
  let E := add_fails s [] 1%positive k in
  wpx E (HASH_MAKE_TABLE malloc_ok x;; mret x) (λ hd s1, hd = x ∧
    wpx E (HASH_ADD_TO_TABLE malloc_ok x (HASH_FCN k) x) (λ _ s', ∃ t,
      (∃ T B, rep s' t T [(x, k)] B) ∧ tables s !! t = None ∧ frame s s' [x] t) s1) s.
Proof.
  intros Hh Hf Hle Hkey Hkl Hv Hp Hn E. unfold HASH_MAKE_TABLE. apply wpx_bind, wpx_bind, wpx_malloc; [cbn; auto|].
  intros Hm1. wpx_next. wp_step. wpx_next. wp_step; [done|].
  set (t := fresh (dom (tables s))).
  assert (tables s !! t = None) as Htn by (apply not_elem_of_dom, is_fresh).
  apply wpx_bind, wpx_malloc; [cbn; auto|]. intros Hm2. apply wpx_wp. wp_step. apply wpx_ret. split; [done|].
  unfold HASH_ADD_TO_TABLE. wpx_next. eapply wp_tbl_of; [rec_simpl; apply lookup_insert_eq|by rec_simpl|].
  wpx_next. eapply wp_store; [rec_simpl; apply lookup_insert_eq|].
  wpx_next. eapply wp_deref; [rec_simpl; apply lookup_insert_eq|]. rec_simpl.
  set (T := (UTHashTable _ _ _ _ _ _ _ _ _) <| num_items ::= _ |>).
  set (s1 := s <| handles := _ |> <| tables ::= _ |> <| tables := _ |>).
  assert (handles s1 !! x = Some (hx <| h_tbl := Some t |>)) as Hh1
    by (unfold s1; rec_simpl; apply lookup_insert_eq).
  assert (tables s1 !! t = Some T) as HT1 by (unfold s1; rec_simpl; apply lookup_insert_eq).
  assert (fields s1 !! x = Some bytes) as Hf1 by (unfold s1; by rec_simpl).
  assert (frame s s1 [x] t) as Hfr1.
  { unfold s1. split.
    - intros y Hy. rec_simpl. rewrite lookup_insert_ne; [done|]. set_solver.
    - by rec_simpl.
    - intros t' Ht'. rec_simpl. by rewrite !lookup_insert_ne by done.
    - intros y Hy. rec_simpl. rewrite lookup_insert_is_Some'. by right. }
  assert (T = UTHashTable (BucketArray HASH_INITIAL_NUM_BUCKETS ∅) HASH_INITIAL_NUM_BUCKETS
       HASH_INITIAL_NUM_BUCKETS_LOG2 1 (Some x) 0 0 0 0) as HT by done.
  lazymatch goal with
  | |- wpx _ (HASH_ADD_TO_BKT _ _ (HASH_TO_BKT _ ?n) _) _ _ => change n with (num_buckets T)
  end.
  clearbody T s1. eapply wpx_mono; [eapply wpx_weaken|].
  { eapply (wpx_add_to_bkt s1 t T [] x k (λ _, [])).
    - rewrite HT in *. split.
      + done.
      + intros b y a Heq. destruct b as [|? [|]]; simplify_eq/=. unfold app_link.
        rewrite Hh1. simpl. rec_simpl. by rewrite Hp, Hn.
      + apply NoDup_singleton.
      + done.
      + done.
      + simpl. lia.
      + done.
      + intros y k' [= -> ->]%list_elem_of_singleton. exists (hx <| h_tbl := Some t |>).
        split; [done|]. by rec_simpl.
      + intros y k' [= -> ->]%list_elem_of_singleton. exists bytes. done.
    - rewrite HT. apply buckets_empty.
    - intros b y. setoid_rewrite elem_of_nil. naive_solver. }
  { intros e [He _]. unfold must_expand in He. rewrite HT in He. cbn [t_buckets] in He. by rewrite cell_empty in He. }
  intros _ s2 [Hr Hfr]. exists t. split; [done|]. split; [done|].
  by eapply hash_frame_trans.
Qed.

Lemma wp_append_list s hd x t T z h0 hx hz :
  z ≠ x → hd ≠ x → handles s !! hd = Some h0 → h_tbl h0 = Some t → tables s !! t = Some T → t_tail T = Some z →
  handles s !! x = Some hx → handles s !! z = Some hz →
  wp (HASH_APPEND_LIST hd x) (λ _ s',
    handles s' !! x = Some (hx <| h_next := None |> <| h_prev := Some z |>) ∧
    (∀ y, y ≠ x → handles s' !! y =
       (λ h, if decide (Some z = Some y) then h <| h_next := Some x |> else h) <$> handles s !! y) ∧
    tables s' = <[t := T <| t_tail := Some x |>]> (tables s) ∧ fields s' = fields s) s.
Proof.
  intros Hzx Hhx Hh0 Ht0 HT Htl Hx Hhz. unfold HASH_APPEND_LIST. wp_step. wp_step; [done|].
  wp_step. eapply wp_tbl_of; [rec_simpl; by rewrite lookup_insert_ne by done|done|].
  wp_step. eapply wp_deref; [by rec_simpl|].
  wp_step. eapply wp_store; [rec_simpl; apply lookup_insert_eq|].
  rewrite Htl. wp_step. wp_step; [done|].
  wp_step. eapply wp_store; [rec_simpl; by rewrite !lookup_insert_ne by done|].
  eapply wp_store; [by rec_simpl|]. rec_simpl.
  split_and!; [by rewrite lookup_insert_ne, lookup_insert_eq by done| |done|done].
  intros y Hy. destruct (decide (z = y)) as [->|Hzy].
  - rewrite lookup_insert_eq, Hhz. simpl. by rewrite decide_True.
  - rewrite !lookup_insert_ne by done. destruct (handles s !! y); [simpl|done].
    by rewrite decide_False by congruence.
Qed.

Lemma wp_add_old s t T I B x hx k bytes hd :
  rep s t T I B → head I.*1 = Some hd → x ∉ I.*1 → Z.of_nat (S (length I)) < 2 ^ 32 →
  handles s !! x = Some hx → fields s !! x = Some bytes → (length k ≤ length bytes)%nat →
  h_key hx = Some x → h_keylen hx = Z.of_nat (length k) → h_hashv hx = HASH_FCN k →
  let E := add_fails s I t k in
  wp (h ← deref handles hd;
      store handles x (λ a, a <| h_tbl := h_tbl h |>);;
      HASH_APPEND_LIST hd x;;
      mret hd) (λ hd' s1, hd' = hd ∧
    wpx E (HASH_ADD_TO_TABLE malloc_ok hd (HASH_FCN k) x) (λ _ s',
      (∃ T' B', rep s' t T' (I ++ [(x, k)]) B') ∧ frame s s' (x :: I.*1) t) s1) s.
Proof.
  intros Hr Hhd Hx Hlen Hh Hf Hle Hkey Hkl Hv E.
  pose proof (rp_base _ _ _ _ _ _ Hr) as Hok. pose proof (rp_table _ _ _ _ _ Hok) as HT.
  destruct I as [|[x0 k0] I'] eqn:EI; [done|]. rewrite <- EI in *.
  assert (x0 = hd) as -> by (rewrite EI in Hhd; by simplify_eq/=).
  assert (I ≠ []) as HI by by rewrite EI.
  assert ((hd, k0) ∈ I) as Hin0 by (rewrite EI; set_solver).
  assert (∀ y k, (y, k) ∈ I → y ≠ x) as Hne.
  { intros y k' Hy ->. apply Hx, list_elem_of_fmap. by exists (x, k'). }
  destruct (rp_handle _ _ _ _ _ Hok hd k0 Hin0) as (h0&Hh0&Ht0&_).
  destruct (last I.*1) as [z|] eqn:Hlast; [|by apply last_None, fmap_nil_inv in Hlast].
  assert (∃ kz, (z, kz) ∈ I) as [kz Hz].
  { apply last_Some_elem_of, list_elem_of_fmap in Hlast as ([? kz]&->&?). eauto. }
  destruct (rp_handle _ _ _ _ _ Hok z kz Hz) as (hz&Hhz&_).
  assert (hd ≠ x ∧ z ≠ x) as [Hhx Hzx] by eauto.
  wp_step. wp_step; [done|]. wp_step. wp_step; [done|]. wp_step. eapply wp_mono.
  { eapply (wp_append_list _ hd x t T z h0 (hx <| h_tbl := h_tbl h0 |>) hz); rec_simpl;
      [done|done|by rewrite lookup_insert_ne|done|done|by rewrite (rp_tail _ _ _ _ _ Hok)|
       apply lookup_insert_eq|by rewrite lookup_insert_ne]. }
  intros _ s1 (Hx1&Hy1'&Ht1&Hf1). rec_simpl_in Ht1. rec_simpl_in Hf1.
  assert (∀ y, y ≠ x → handles s1 !! y =
    (λ h, if decide (last I.*1 = Some y) then h <| h_next := Some x |> else h) <$> handles s !! y) as Hy1.
  { intros y Hy. rewrite Hy1', Hlast by done. rec_simpl. by rewrite lookup_insert_ne. }
  wp_step. split; [done|]. unfold HASH_ADD_TO_TABLE. wpx_next.
  eapply wp_tbl_of; [by rewrite Hy1, Hh0|by case_decide|].
  wpx_next. eapply wp_store; [rewrite Ht1; apply lookup_insert_eq|].
  wpx_next. eapply wp_deref; [rec_simpl; apply lookup_insert_eq|].
  set (T1 := T <| t_tail := _ |> <| num_items ::= _ |>). set (s2 := s1 <| tables := _ |>).
  assert (tables s2 !! t = Some T1) as HT2 by (unfold s2; rec_simpl; apply lookup_insert_eq).
  pose proof (rp_items _ _ _ _ _ Hok) as Hitems.
  destruct (table_ok_append s s2 t T T1 I B x k
    (hx <| h_tbl := h_tbl h0 |> <| h_next := None |> <| h_prev := Some z |>) Hr Hx HI Hlen HT2) as [Hok2 HB2];
    try done; try (by unfold T1; rec_simpl); try (by rec_simpl); try by eauto.
  { unfold T1. rec_simpl. rewrite u32_small; lia. }
  eapply wpx_mono; [eapply wpx_weaken; [eapply (wpx_add_to_bkt s2 t T1 I x k B); [done..|]|]|].
  - intros b y. rewrite (rp_member _ _ _ _ _ _ Hr). unfold T1. by rec_simpl.
  - intros e He. unfold E, add_fails. by exists T.
  - intros _ s' [Hrep Hfr]. split; [done|].
    eapply (hash_frame_trans s s2 s' (x :: I.*1)); [split| |].
    + intros y [Hyx Hy]%not_elem_of_cons. unfold s2. rec_simpl. rewrite Hy1 by done.
      rewrite Hlast. destruct (handles s !! y); [|done]. simpl. rewrite decide_False; [done|].
      intros [= ->]. apply Hy, list_elem_of_fmap. by exists (y, kz).
    + unfold s2. by rec_simpl.
    + intros t' Ht'. unfold s2. rec_simpl. by rewrite Ht1, !lookup_insert_ne by done.
    + intros y Hy. unfold s2. rec_simpl. destruct (decide (y = x)) as [->|]; [rewrite Hx1; eauto|].
      rewrite Hy1 by done. destruct Hy as [? ->]. by eexists.
    + destruct Hfr as [Hfh Hff Hft Hfd]. split; [|done..]. intros y Hy. apply Hfh.
      rewrite fmap_app. set_solver.
    + done.
Qed.

(** [HASH_ADD] appends the element with the key it has now. *)
Lemma wpx_hash_add s hd I t x hx bytes keylen :
  holds s hd I t → x ∉ I.*1 → handles s !! x = Some hx → fields s !! x = Some bytes →
  0 ≤ keylen ≤ Z.of_nat (length bytes) → keylen < 2 ^ 32 →
  Z.of_nat (S (length I)) < 2 ^ 32 →
  wpx (add_fails s I t (take (Z.to_nat keylen) bytes)) (HASH_ADD HASH_FCN malloc_ok hd keylen x) (λ hd' s', ∃ t',
    holds s' hd' (I ++ [(x, take (Z.to_nat keylen) bytes)]) t' ∧ frame s s' (x :: I.*1) t' ∧
    if decide (I = []) then tables s !! t' = None else t' = t) s.
Proof.
  intros [-> HI] Hx Hh Hf Hkl Hkl' Hlen.
  set (k := take (Z.to_nat keylen) bytes).
  assert (Z.of_nat (length k) = keylen) as Hk.
  { unfold k. rewrite length_take. lia. }
  unfold HASH_ADD. wpx_next. wp_step; [done|]. wpx_next. unfold HASH_VALUE.
  wp_step. apply wp_key_bytes; [lia|]. fold k. wp_step.
  unfold HASH_ADD_KEYPTR_BYHASHVALUE. wpx_next. wp_step; [done|].
  wpx_next. eapply wp_store; [rec_simpl; apply lookup_insert_eq|].
  wpx_next. eapply wp_store; [rec_simpl; apply lookup_insert_eq|]. rec_simpl.
  rewrite !insert_insert_eq, (u32_small keylen) by lia.
  set (hx' := hx <| h_hashv := _ |> <| h_key := _ |> <| h_keylen := _ |>).
  match goal with |- wpx _ _ _ ?s' => assert (handles s' = <[x := hx']> (handles s) ∧ fields s' = fields s ∧
    tables s' = tables s) as (Hh1&Hf1&Ht1) by (rec_simpl; done); revert Hh1 Hf1 Ht1; generalize s' end.
  intros s1 Hh1 Hf1 Ht1.
  assert (handles s1 !! x = Some hx') as Hx1 by (rewrite Hh1; apply lookup_insert_eq).
  assert (frame s s1 [x] t) as Hfr1.
  { split; [|done|by intros; rewrite Ht1|].
    - intros y Hy. rewrite Hh1, lookup_insert_ne; [done|set_solver].
    - intros y Hy. rewrite Hh1, lookup_insert_is_Some'. by right. }
  destruct (decide (I = [])) as [->|HI0]; cbn [fmap list_fmap head].
  - apply wpx_bind. wpx_next. wp_step; [done|]. wpx_next. eapply wp_store; [rec_simpl; apply lookup_insert_eq|].
    rec_simpl. rewrite insert_insert_eq.
    eapply wpx_mono; [eapply (wpx_add_new _ x _ k bytes); rec_simpl; [apply lookup_insert_eq|rewrite Hf1; done|..]|]; try done.
    { unfold k. rewrite length_take. lia. }
    intros hd' s2 [-> Hw]. apply wpx_bind. eapply wpx_mono; [exact Hw|].
    intros _ s' (t'&Hrep&Htn&Hfr). rec_simpl_in Htn. apply wpx_ret. exists t'. split_and!.
    + split; [done|]. by intros _.
    + destruct Hfr as [F1 F2 F3 F4]. rec_simpl_in F2. split; [|congruence| |].
      * intros y Hy. rewrite F1 by done. rec_simpl. rewrite lookup_insert_ne by set_solver. by apply Hfr1.
      * intros t'' Ht''. rewrite F3 by done. rec_simpl. by rewrite Ht1.
      * intros y Hy. apply F4. rec_simpl. rewrite lookup_insert_is_Some'. right. by apply Hfr1.
    + by rewrite <- Ht1.
  - destruct (HI HI0) as (T&B&Hr).
    assert (∃ x0, head I.*1 = Some x0) as [x0 Hx0] by (destruct I; [done|]; by eexists).
    assert (rep s1 t T I B) as Hr1.
    { eapply rep_ext; [done|..|by rewrite Ht1].
      - intros y Hy. apply Hfr1. set_solver.
      - intros y b Hy Hb. exists b. by rewrite Hf1. }
    rewrite Hx0. wpx_next. eapply wp_mono.
    { eapply (wp_add_old s1 t T I B x hx' k bytes x0); try done.
      - by rewrite Hf1.
      - unfold k. rewrite length_take. lia. }
    intros hd' s2 [-> Hw]. apply wpx_bind. unfold add_fails in Hw. rewrite Ht1 in Hw. eapply wpx_mono; [exact Hw|].
    intros _ s' (Hrep&Hfr). apply wpx_ret. exists t. split_and!; [|eapply hash_frame_trans; [done..|set_solver]|done].
    split; [|done]. by destruct I; simplify_eq/=.
Qed.

Lemma wp_hash_add s hd I t x hx bytes keylen :
  holds s hd I t → x ∉ I.*1 → handles s !! x = Some hx → fields s !! x = Some bytes →
  0 ≤ keylen ≤ Z.of_nat (length bytes) → keylen < 2 ^ 32 →
  Z.of_nat (S (length I)) < 2 ^ 32 → granted s I t →
  wp (HASH_ADD HASH_FCN malloc_ok hd keylen x) (λ hd' s', ∃ t',
    holds s' hd' (I ++ [(x, take (Z.to_nat keylen) bytes)]) t' ∧ frame s s' (x :: I.*1) t' ∧
    if decide (I = []) then tables s !! t' = None else t' = t) s.
Proof. intros Hh Hx Hhx Hf Hk Hk' Hn Hg. by eapply wpx_none; [eapply wpx_hash_add|intros e; apply granted_add]. Qed.
End ops.
