(* ===== verification/UthashDel.v ===== *)
(** * Deletions from a hash table, and what reads it

    [HASH_DELETE] takes an element out of the sequence and the table with the
    last one; [HASH_CNT], [HASH_ITER] and [HASH_CLEAR]. *)

From S2P Require Import Prelude Links Uthash UthashOk UthashOps.


(** The neighbours [p] and [n] of [x] in its chain linked to each other. *)
Lemma wp_unlink s x h :
  handles s !! x = Some h →
  (∀ y, hh_prev h = Some y ∨ hh_next h = Some y → y ≠ x ∧ is_Some (handles s !! y)) →
  wp (match hh_prev h with
      | Some p => store handles p (λ q, q <| hh_next := hh_next h |>)
      | None => mret tt
      end;;
      h ← deref handles x;
      match hh_next h with
      | Some n => store handles n (λ q, q <| hh_prev := hh_prev h |>)
      | None => mret tt
      end)
    (λ _ s', tables s' = tables s ∧ fields s' = fields s ∧
      ∀ y, handles s' !! y = (λ q, q
        <| hh_prev := if decide (hh_next h = Some y) then hh_prev h else hh_prev q |>
        <| hh_next := if decide (hh_prev h = Some y) then hh_next h else hh_next q |>) <$> handles s !! y) s.
Proof.
  intros Hh Hy. wp_step.
  eapply (wp_mono _ (λ _ s1, tables s1 = tables s ∧ fields s1 = fields s ∧ handles s1 !! x = Some h ∧
    ∀ y, handles s1 !! y = (λ q, q
      <| hh_next := if decide (hh_prev h = Some y) then hh_next h else hh_next q |>) <$> handles s !! y)).
  { destruct (hh_prev h) as [p|] eqn:Hp.
    - destruct (Hy p) as [Hpx [hp Hhp]]; [by left|]. wp_step; [done|]. rec_simpl.
      split_and!; [done|done|by rewrite lookup_insert_ne|].
      intros y. destruct (decide (p = y)) as [->|Hne].
      + rewrite lookup_insert_eq, Hhp. simpl. by rewrite decide_True.
      + rewrite lookup_insert_ne by done. destruct (handles s !! y) as [q|]; [simpl|done].
        rewrite decide_False by congruence. by destruct q.
    - wp_step. split_and!; [done..|]. intros y. by destruct (handles s !! y) as [[]|]. }
  intros _ s1 (Ht1&Hf1&Hx1&Hy1). wp_step. wp_step; [done|].
  destruct (hh_next h) as [n|] eqn:Hn.
  - destruct (Hy n) as [Hnx [hn Hhn]]; [by right|].
    eapply wp_store; [by rewrite Hy1, Hhn|]. rec_simpl. split_and!; [done|done|].
    intros y. destruct (decide (n = y)) as [->|Hne].
    + rewrite lookup_insert_eq, Hhn. simpl. rewrite (decide_True (P := Some y = Some y)) by done.
      by destruct hn.
    + rewrite lookup_insert_ne, Hy1 by done. destruct (handles s !! y) as [q|]; [simpl|done].
      rewrite (decide_False (P := Some n = Some y)) by congruence. by destruct q.
  - wp_step. split_and!; [done..|]. intros y. rewrite Hy1. by destruct (handles s !! y) as [[]|].
Qed.

Lemma wp_del_in_bkt s t T B b x l r :
  tables s !! t = Some T → buckets_ok s (t_buckets T) B → B b = l ++ x :: r →
  Z.of_nat (length (B b)) < 2 ^ 32 →
  wp (HASH_DEL_IN_BKT t b x) (λ _ s', ∃ arr,
    tables s' = <[t := T <| t_buckets := arr |>]> (tables s) ∧ arr_len arr = arr_len (t_buckets T) ∧
    buckets_ok s' arr (<[b := l ++ r]> B) ∧ core <$> handles s' = core <$> handles s ∧
    fields s' = fields s ∧ ∀ y, y ∉ B b → handles s' !! y = handles s !! y) s.
Proof.
  intros HT HB Hb Hlen.
  assert (∀ y, y ∈ B b → ∃ h, handles s !! y = Some h) as Hin.
  { intros y Hy. destruct (linked_in _ _ _ (bk_link _ _ _ HB b) Hy) as (p&q&Hl).
    unfold bkt_link in Hl. destruct (handles s !! y); [eauto|done]. }
  assert (x ∈ B b) as Hx by (rewrite Hb; set_solver).
  destruct (Hin x Hx) as [h Hh]. pose proof (bk_range _ _ _ HB b x Hx) as Hrange.
  pose proof (bk_link _ _ _ HB b l x r Hb) as Hlx. unfold bkt_link in Hlx. rewrite Hh in Hlx.
  injection Hlx as Hp Hn.
  pose proof (bk_nodup _ _ _ HB b) as Hnd. rewrite Hb, NoDup_app, NoDup_cons in Hnd.
  unfold HASH_DEL_IN_BKT. wp_step. eapply wp_set_bucket; [done..|].
  wp_step. eapply wp_bucket; [rec_simpl; apply lookup_insert_eq|by rec_simpl|]. rec_simpl.
  rewrite cell_insert, decide_True by done. rec_simpl.
  wp_step. eapply wp_deref; [by rec_simpl|]. rewrite (bk_head _ _ _ HB), Hb.
  wp_step. eapply (wp_mono _ (λ _ s1, handles s1 = handles s ∧ fields s1 = fields s ∧ ∃ arr,
    tables s1 = <[t := T <| t_buckets := arr |>]> (tables s) ∧ arr_len arr = arr_len (t_buckets T) ∧
    hh_head (cell arr b) = head (l ++ r) ∧ b_count (cell arr b) = b_count (cell (t_buckets T) b) - 1 ∧
    ∀ b', b' ≠ b → cell arr b' = cell (t_buckets T) b')).
  { eapply (wp_mono _ (λ _ s1, handles s1 = handles s ∧ fields s1 = fields s ∧
      tables s1 = <[t := T <| t_buckets := (t_buckets T) <| arr_cells ::=
        insert b ((cell (t_buckets T) b) <| b_count ::= λ n, u32 (n - 1) |>
                    <| hh_head := head (l ++ r) |>) |> |>]> (tables s))).
    - apply wp_when.
      + intros Hd%bool_decide_eq_true. assert (l = []) as ->.
        { destruct l as [|y l]; [done|]. simplify_eq/=. set_solver. }
        eapply wp_set_bucket; [rec_simpl; apply lookup_insert_eq|by rec_simpl|]. rec_simpl.
        rewrite cell_insert, decide_True by done. split_and!; [done..|].
        rewrite insert_insert_eq, Hn. f_equal. destruct T as [[]]; unfold upd; simpl. unfold set_t_buckets, set_arr_cells.
        simpl. by rewrite insert_insert_eq.
      + intros Hd%bool_decide_eq_false. rec_simpl. split_and!; [done..|]. do 3 f_equal.
        assert (head (l ++ r) = hh_head (cell (t_buckets T) b)) as ->.
        { rewrite (bk_head _ _ _ HB), Hb. by destruct l. }
        by destruct (cell (t_buckets T) b).
    - intros _ s1 (?&?&Ht). split_and!; [done..|]. eexists. split; [exact Ht|]. rec_simpl.
      split; [done|]. rewrite !cell_insert, decide_True by done. rec_simpl.
      rewrite (bk_count _ _ _ HB), u32_small by (rewrite Hb, length_app in *; simpl in *; lia).
      split_and!; [done..|]. intros b' Hb'. by rewrite cell_insert, decide_False. }
  intros _ s1 (Hh1&Hf1&arr&Ht1&Hlen1&Hhd1&Hcnt1&Hcell1).
  eapply wp_mono; [apply wp_unlink; [by rewrite Hh1|]|].
  { rewrite Hp, Hn, Hh1. intros y Hy. assert (y ∈ l ∨ y ∈ r) as Hy'.
    { destruct Hy as [?%last_Some_elem_of|?%head_Some_elem_of]; auto. }
    split; [set_solver|]. destruct (Hin y) as [? ->]; [rewrite Hb; set_solver|eauto]. }
  intros _ s2 (Ht2&Hf2&Hh2). rewrite Hh1 in Hh2. exists arr. split_and!.
  - by rewrite Ht2.
  - done.
  - eapply (buckets_cut s s2 (t_buckets T)); [done..| | | | |].
    + intros y Hy. unfold bkt_link. rewrite Hh2, Hp, Hn. destruct (handles s !! y) as [q|]; [|done].
      simpl. by repeat case_decide.
    + done.
    + done.
    + done.
    + intros b' Hb'. by rewrite Hcell1.
  - apply map_eq. intros y. rewrite !lookup_fmap, Hh2. by destruct (handles s !! y) as [[]|].
  - by rewrite Hf2.
  - intros y Hy. rewrite Hh2, Hp, Hn. destruct (handles s !! y) as [q|] eqn:Hq; [simpl|done].
    rewrite !decide_False; [by destruct q| |].
    + intros ?%head_Some_elem_of. set_solver.
    + intros ?%last_Some_elem_of. set_solver.
Qed.

(** The same in the order of insertion; [head] moves when [x] was the first. *)
Lemma wp_unlink_app {A} s x d hd (K : option addr → M uthash A) Q :
  handles s !! x = Some d →
  (∀ y, h_prev d = Some y ∨ h_next d = Some y → y ≠ x ∧ is_Some (handles s !! y)) →
  (∀ s', tables s' = tables s → fields s' = fields s →
     (∀ y, handles s' !! y = (λ q, q
        <| h_prev := if decide (h_next d = Some y) then h_prev d else h_prev q |>
        <| h_next := if decide (h_prev d = Some y) then h_next d else h_next q |>) <$> handles s !! y) →
     wp (K (if is_null (h_prev d) then h_next d else hd)) Q s') →
  wp (head ← (match h_prev d with
              | Some p => store handles p (λ h, h <| h_next := h_next d |>);; mret hd
              | None => mret (h_next d)
              end);
      d ← deref handles x;
      match h_next d with
      | Some n => store handles n (λ h, h <| h_prev := h_prev d |>)
      | None => mret tt
      end;;
      K head) Q s.
Proof.
  intros Hd Hy HK. wp_step.
  eapply (wp_mono _ (λ hd' s1, hd' = (if is_null (h_prev d) then h_next d else hd) ∧
    tables s1 = tables s ∧ fields s1 = fields s ∧ handles s1 !! x = Some d ∧
    ∀ y, handles s1 !! y = (λ q, q
      <| h_next := if decide (h_prev d = Some y) then h_next d else h_next q |>) <$> handles s !! y)).
  { destruct (h_prev d) as [p|] eqn:Hp.
    - destruct (Hy p) as [Hpx [hp Hhp]]; [by left|]. wp_step. wp_step; [done|]. wp_step. rec_simpl.
      split_and!; [done|done|done|by rewrite lookup_insert_ne|].
      intros y. destruct (decide (p = y)) as [->|Hne].
      + rewrite lookup_insert_eq, Hhp. simpl. by rewrite decide_True.
      + rewrite lookup_insert_ne by done. destruct (handles s !! y) as [q|]; [simpl|done].
        rewrite decide_False by congruence. by destruct q.
    - wp_step. split_and!; [done..|]. intros y. by destruct (handles s !! y) as [[]|]. }
  intros hd' s1 (->&Ht1&Hf1&Hx1&Hy1). wp_step. wp_step; [done|]. wp_step.
  destruct (h_next d) as [n|] eqn:Hn.
  - destruct (Hy n) as [Hnx [hn Hhn]]; [by right|].
    eapply wp_store; [by rewrite Hy1, Hhn|]. apply HK; rec_simpl; [done|done|].
    intros y. destruct (decide (n = y)) as [->|Hne].
    + rewrite lookup_insert_eq, Hhn. simpl. rewrite (decide_True (P := Some y = Some y)) by done.
      by destruct hn.
    + rewrite lookup_insert_ne, Hy1 by done. destruct (handles s !! y) as [q|]; [simpl|done].
      rewrite (decide_False (P := Some n = Some y)) by congruence. by destruct q.
  - wp_step. apply HK; [done..|]. intros y. rewrite Hy1. by destruct (handles s !! y) as [[]|].
Qed.

Lemma last_cut (a b : list addr) x :
  x ∉ b → if decide (last (a ++ x :: b) = Some x) then last a = last (a ++ b)
          else last (a ++ x :: b) = last (a ++ b).
Proof.
  intros Hx. destruct b as [|y b].
  - rewrite last_snoc, decide_True, app_nil_r by done. done.
  - rewrite last_app_cons, (last_app_cons a b y), last_cons_cons.
    rewrite decide_False; [done|]. intros Hl%last_Some_elem_of. done.
Qed.

Section del.
Context (HASH_FCN : list Z → Z).
Abbreviation table_ok := (table_ok HASH_FCN).
Abbreviation rep := (rep HASH_FCN).
Abbreviation holds := (holds HASH_FCN).

(** [x] taken out of the sequence, its chain still to be changed. *)
Lemma table_ok_cut s s' t T T' I1 x k I2 B :
  rep s t T (I1 ++ (x, k) :: I2) B → 
  tables s' !! t = Some T' → t_tail T' = last (I1 ++ I2).*1 → num_items T' = num_items T - 1 →
  num_buckets T' = num_buckets T → log2_num_buckets T' = log2_num_buckets T →
  arr_len (t_buckets T') = arr_len (t_buckets T) → fields s' = fields s →
  (∀ y, y ∈ (I1 ++ I2).*1 → core <$> handles s' !! y = (λ q, core (q
      <| h_prev := if decide (head I2.*1 = Some y) then last I1.*1 else h_prev q |>
      <| h_next := if decide (last I1.*1 = Some y) then head I2.*1 else h_next q |>)) <$> handles s !! y) →
  table_ok s' t T' (I1 ++ I2).
Proof.
  intros Hr HT' Htl Hit Hn Hlg Ha Hf Hy. pose proof (rp_base _ _ _ _ _ _ Hr) as Hok.
  assert (∀ y k', (y, k') ∈ I1 ++ I2 → (y, k') ∈ I1 ++ (x, k) :: I2) as Hsub by set_solver.
  assert (∀ y k', (y, k') ∈ I1 ++ I2 → y ∈ (I1 ++ I2).*1) as Hfst
    by (intros y k' ?; apply list_elem_of_fmap; by exists (y, k')).
  pose proof (rp_nodup _ _ _ _ _ Hok) as Hnd. rewrite fmap_app, fmap_cons in Hnd. simpl in Hnd.
  split.
  - done.
  - rewrite fmap_app. apply (linked_cut (app_link s) _ I1.*1 x I2.*1); [|done|].
    + pose proof (rp_app _ _ _ _ _ Hok) as Hl. by rewrite fmap_app, fmap_cons in Hl.
    + intros y p n Hyi Hl. rewrite <- fmap_app in Hyi. specialize (Hy y Hyi). unfold app_link in *.
      destruct (handles s !! y) as [q|]; [|done]. destruct (handles s' !! y) as [q'|]; [|done].
      destruct q, q'. by simplify_eq/=.
  - rewrite fmap_app. rewrite NoDup_app, NoDup_cons in Hnd. rewrite NoDup_app. set_solver.
  - done.
  - rewrite Hit, (rp_items _ _ _ _ _ Hok), !length_app. simpl. lia.
  - pose proof (rp_small _ _ _ _ _ Hok) as Hs. rewrite !length_app in *. simpl in Hs. lia.
  - rewrite Hn, Hlg, Ha. apply Hok.
  - intros y k' Hin. destruct (rp_handle _ _ _ _ _ Hok y k' (Hsub y k' Hin)) as (h&Hh&?&?&?&?).
    specialize (Hy y (Hfst y k' Hin)). rewrite Hh in Hy. destruct (handles s' !! y) as [q'|]; [|done].
    exists q'. split; [done|]. destruct h, q'. by simplify_eq/=.
  - intros y k' Hin. rewrite Hf. by apply Hok, Hsub.
Qed.

(** The element is in the chain of its bucket. *)
Lemma rep_in_chain s t T I B x k :
  rep s t T I B → (x, k) ∈ I →
  ∃ l r, B (HASH_TO_BKT (HASH_FCN k) (num_buckets T)) = l ++ x :: r.
Proof.
  intros Hr Hx. apply list_elem_of_split, (rp_member _ _ _ _ _ _ Hr). by exists k.
Qed.

(** The rest of the table after [x] has left its chain. *)
Lemma rep_cut s s' t T T' I1 x k I2 B l r :
  rep s t T (I1 ++ (x, k) :: I2) B → table_ok s' t T' (I1 ++ I2) → num_buckets T' = num_buckets T →
  B (HASH_TO_BKT (HASH_FCN k) (num_buckets T)) = l ++ x :: r →
  buckets_ok s' (t_buckets T') (<[HASH_TO_BKT (HASH_FCN k) (num_buckets T) := l ++ r]> B) →
  rep s' t T' (I1 ++ I2) (<[HASH_TO_BKT (HASH_FCN k) (num_buckets T) := l ++ r]> B).
Proof.
  intros Hr Hok Hn Hl HB. split; [done..|].
  pose proof (rp_nodup _ _ _ _ _ (rp_base _ _ _ _ _ _ Hr)) as Hnd.
  rewrite fmap_app, fmap_cons, NoDup_app, NoDup_cons in Hnd. simpl in Hnd.
  assert (∀ y k', (y, k') ∈ I1 ++ I2 → y ≠ x) as Hne.
  { intros y k' [Hy|Hy]%elem_of_app ->; apply (list_elem_of_fmap_2 fst) in Hy; set_solver. }
  pose proof (bk_nodup _ _ _ (rp_buckets _ _ _ _ _ _ Hr) (HASH_TO_BKT (HASH_FCN k) (num_buckets T))) as Hndc.
  rewrite Hl, NoDup_app, NoDup_cons in Hndc.
  intros b y. rewrite Hn. set (b0 := HASH_TO_BKT (HASH_FCN k) (num_buckets T)) in *.
  assert (y ∈ B b ∧ y ≠ x ↔ ∃ k', (y, k') ∈ I1 ++ I2 ∧ HASH_TO_BKT (HASH_FCN k') (num_buckets T) = b) as <-.
  { rewrite (rp_member _ _ _ _ _ _ Hr). split.
    - intros [(k'&Hin&Hb) Hyx]. exists k'. split; [|done]. set_solver.
    - intros (k'&Hin&Hb). split; [exists k'; split; [set_solver|done]|by eapply Hne]. }
  unfold insert, fn_insert. case_decide as Hb.
  - subst b. rewrite Hl. set_solver.
  - split; [|by intros []]. intros Hy. split; [done|]. intros ->.
    apply Hb. eapply (bk_disjoint _ _ _ (rp_buckets _ _ _ _ _ _ Hr)); [|done]. rewrite Hl. set_solver.
Qed.

Lemma head_cut (a b : list addr) x :
  (if is_null (last a) then head b else head (a ++ x :: b)) = head (a ++ b).
Proof. destruct a as [|y a]; [done|]. by rewrite last_cons_default. Qed.

(** The second half of a deletion: the chain and the counter. *)
Lemma wp_leave_chain s s2 t T I1 x k I2 B :
  rep s t T (I1 ++ (x, k) :: I2) B → I1 ++ I2 ≠ [] →
  tables s2 = <[t := T <| t_tail := last (I1 ++ I2).*1 |>]> (tables s) → fields s2 = fields s →
  (∀ y, handles s2 !! y = (λ q, q
      <| h_prev := if decide (head I2.*1 = Some y) then last I1.*1 else h_prev q |>
      <| h_next := if decide (last I1.*1 = Some y) then head I2.*1 else h_next q |>) <$> handles s !! y) →
  wp (hd ← nonnull (head (I1 ++ I2).*1);
      t ← tbl_of hd;
      T ← deref tables t;
      d ← deref handles x;
      HASH_DEL_IN_BKT t (HASH_TO_BKT (h_hashv d) (num_buckets T)) x;;
      store tables t (λ T, T <| num_items ::= λ n, u32 (n - 1) |>);;
      mret (head (I1 ++ I2).*1))
    (λ hd' s', holds s' hd' (I1 ++ I2) t ∧ frame s s' (I1 ++ (x, k) :: I2).*1 t) s2.
Proof.
  intros Hr Hne Ht2 Hf2 Hh2. pose proof (rp_base _ _ _ _ _ _ Hr) as Hok.
  destruct (rp_handle _ _ _ _ _ Hok x k) as (d&Hd&Htd&_&_&Hv); [set_solver|].
  destruct (rep_in_chain _ _ _ _ _ x k Hr) as (l&r&Hl); [set_solver|].
  assert (∃ y ky, (y, ky) ∈ I1 ++ I2 ∧ head (I1 ++ I2).*1 = Some y) as (y&ky&Hy&Hhd).
  { destruct (I1 ++ I2) as [|[y ky] I]; [done|]. exists y, ky. split; [set_solver|done]. }
  destruct (rp_handle _ _ _ _ _ Hok y ky) as (h&Hh&Hth&_); [set_solver|].
  assert (buckets_ok s2 (t_buckets T) B) as HB2.
  { eapply (buckets_ext s); [apply Hr| |done..]. intros b z _. unfold bkt_link. rewrite Hh2.
    by destruct (handles s !! z) as [[]|]. }
  rewrite Hhd. wp_step. wp_step; [done|]. wp_step. eapply wp_tbl_of; [by rewrite Hh2, Hh|by rec_simpl|].
  wp_step. eapply wp_deref; [rewrite Ht2; apply lookup_insert_eq|].
  wp_step. eapply wp_deref; [by rewrite Hh2, Hd|]. rec_simpl. rewrite Hv.
  wp_step. eapply wp_mono; [eapply wp_del_in_bkt|]; [rewrite Ht2; apply lookup_insert_eq|by rec_simpl|exact Hl|..].
  { pose proof (rp_small _ _ _ _ _ Hok). rewrite <- (length_fmap fst) in H.
    assert (length (B (HASH_TO_BKT (HASH_FCN k) (num_buckets T))) ≤ length (I1 ++ (x, k) :: I2).*1)%nat; [|lia].
    apply nodup_bound; [apply Hr|by eapply rep_chains]. }
  intros _ s3 (arr&Ht3&Hlen3&HB3&Hcore3&Hf3&Hrest3). rec_simpl_in Hlen3.
  wp_step. eapply wp_store; [rewrite Ht3; apply lookup_insert_eq|]. wp_step.
  set (T4 := T <| t_tail := _ |> <| t_buckets := arr |> <| num_items ::= _ |>). set (s4 := s3 <| tables := _ |>).
  assert (tables s4 !! t = Some T4) as HT4 by (unfold s4; rec_simpl; apply lookup_insert_eq).
  split.
  - split; [done|]. intros _. exists T4, (<[HASH_TO_BKT (HASH_FCN k) (num_buckets T) := l ++ r]> B).
    eapply (rep_cut s); [done| |unfold T4; by rec_simpl|done|].
    + eapply (table_ok_cut s); [done|done|..]; unfold T4; rec_simpl; [done| |done..| | |].
      * rewrite u32_small; [done|]. rewrite (rp_items _ _ _ _ _ Hok). pose proof (rp_small _ _ _ _ _ Hok).
        rewrite length_app in *. simpl in *. lia.
      * done.
      * unfold s4. rec_simpl. congruence.
      * intros z _. unfold s4. rec_simpl. apply (f_equal (lookup z)) in Hcore3. rewrite !lookup_fmap in Hcore3.
        rewrite Hcore3, Hh2. by destruct (handles s !! z).
    + unfold T4. rec_simpl. eapply (buckets_ext s3); [done|done..].
  - assert (∀ z, is_Some (handles s !! z) → is_Some (handles s2 !! z)) as Hdom.
    { intros z [? Hz]. rewrite Hh2, Hz. by eexists. }
    split; unfold s4; rec_simpl.
    + intros z Hz. rewrite fmap_app, fmap_cons in Hz. rewrite Hrest3.
      * rewrite Hh2. destruct (handles s !! z) as [q|]; [simpl|done].
        rewrite !decide_False; [by destruct q| |].
        -- intros ?%head_Some_elem_of. set_solver.
        -- intros ?%last_Some_elem_of. set_solver.
      * intros Hz'%(rep_chains _ _ _ _ _ _ _ Hr). rewrite fmap_app, fmap_cons in Hz'. done.
    + congruence.
    + intros t' Ht'. by rewrite Ht3, Ht2, !lookup_insert_ne by done.
    + intros z Hz. eapply core_dom; [done|auto].
Qed.

Lemma wp_hash_delete s hd t I1 x k I2 :
  holds s hd (I1 ++ (x, k) :: I2) t →
  wp (HASH_DELETE hd x) (λ hd' s', holds s' hd' (I1 ++ I2) t ∧
    frame s s' (I1 ++ (x, k) :: I2).*1 t) s.
Proof.
  intros [-> HI]. destruct HI as (T&B&Hr); [by destruct I1|].
  pose proof (rp_base _ _ _ _ _ _ Hr) as Hok. pose proof (rp_table _ _ _ _ _ Hok) as HT.
  destruct (rp_handle _ _ _ _ _ Hok x k) as (d&Hd&Htd&_&_&Hv); [set_solver|].
  pose proof (rp_app _ _ _ _ _ Hok) as Hlk. rewrite fmap_app, fmap_cons in Hlk. simpl in Hlk.
  pose proof (Hlk _ _ _ eq_refl) as Hlx. unfold app_link in Hlx. rewrite Hd in Hlx. injection Hlx as Hp Hn.
  pose proof (rp_nodup _ _ _ _ _ Hok) as Hnd. rewrite fmap_app, fmap_cons in Hnd. simpl in Hnd.
  rewrite NoDup_app, NoDup_cons in Hnd.
  assert (∀ y, y ∈ (I1 ++ (x, k) :: I2).*1 → ∃ h, handles s !! y = Some h ∧ h_tbl h = Some t) as Hall.
  { intros y ([? k']&->&Hin)%list_elem_of_fmap.
    destruct (rp_handle _ _ _ _ _ Hok _ k' Hin) as (h&?&?&_). eauto. }
  unfold HASH_DELETE. wp_step. wp_step; [done|].
  destruct (is_null (h_prev d) && is_null (h_next d)) eqn:Hsingle.
  { apply andb_true_iff in Hsingle as [H1 H2]. rewrite Hp in H1. rewrite Hn in H2.
    assert (I1 = []) as -> by (destruct (last I1.*1) eqn:E; [done|]; by apply last_None, fmap_nil_inv in E).
    assert (I2 = []) as -> by (destruct I2; [done|]; done).
    wp_step. wp_step; [done|]. wp_step. eapply wp_tbl_of; [done..|]. wp_step. wp_step; [done|].
    wp_step. wp_step. wp_step. split; [done|]. split; rec_simpl; [done|done| |done].
    intros t' Ht'. by rewrite lookup_delete_ne. }
  wp_step.
  assert (∃ x0, head (I1 ++ (x, k) :: I2).*1 = Some x0 ∧ x0 ∈ (I1 ++ (x, k) :: I2).*1) as (x0&Hx0&Hin0).
  { destruct I1; eexists; (split; [done|]); set_solver. }
  destruct (Hall x0 Hin0) as (h0&Hh0&Ht0).
  rewrite Hx0 at 1. wp_step; [done|]. wp_step. eapply wp_tbl_of; [done..|]. wp_step. wp_step; [done|].
  wp_step. eapply (wp_mono _ (λ _ s1, handles s1 = handles s ∧ fields s1 = fields s ∧
    tables s1 = <[t := T <| t_tail := last (I1 ++ I2).*1 |>]> (tables s))).
  { rewrite (rp_tail _ _ _ _ _ Hok), !fmap_app, fmap_cons. simpl.
    pose proof (last_cut I1.*1 I2.*1 x ltac:(set_solver)) as Hcut. case_decide as Hl.
    - apply wp_when_true; [by apply bool_decide_eq_true|]. eapply wp_store; [done|]. rec_simpl.
      split_and!; [done..|]. by rewrite Hp, Hcut.
    - apply wp_when_false; [by apply bool_decide_eq_false|]. split_and!; [done..|].
      rewrite insert_id; [done|]. rewrite HT. f_equal. rewrite <- Hcut.
      pose proof (rp_tail _ _ _ _ _ Hok) as Htl. rewrite fmap_app, fmap_cons in Htl. simpl in Htl.
      rewrite <- Htl. by destruct T. }
  intros _ s1 (Hh1&Hf1&Ht1). set (T1 := T <| t_tail := _ |>) in *.
  apply wp_unlink_app; [by rewrite Hh1|..].
  { rewrite Hp, Hn, Hh1. intros y Hy. assert (y ∈ I1.*1 ∨ y ∈ I2.*1) as Hy'.
    { destruct Hy as [?%last_Some_elem_of|?%head_Some_elem_of]; auto. }
    split; [set_solver|]. destruct (Hall y) as (?&->&_); [|eauto].
    rewrite fmap_app, fmap_cons. set_solver. }
  rewrite Hp, Hn, Hh1, Hf1, Ht1. intros s2 Ht2 Hf2 Hh2.
  unfold T1 in *. rewrite !fmap_app, fmap_cons, head_cut, <- fmap_app.
  eapply wp_mono; [eapply (wp_leave_chain s); try done|].
  - intros [-> ->]%app_nil. by rewrite Hp, Hn in Hsingle.
  - intros hd' s' H'. by rewrite <- fmap_cons, <- fmap_app.
Qed.
End del.
