(* ===== verification/UthashRefine.v ===== *)
(** * Hash tables refine sequences of items

    Any number of tables in one memory, and any sequence of operations on
    them: additions and deletions change the sequence of items of their table
    and no other, lookups, counts and iterations answer from the sequences,
    and the integrity check of the library never fails.  When a program stops
    early, an addition asked for memory and was refused, or needed more buckets
    than 32 bits can count. *)

From S2P Require Import Prelude Links Uthash UthashOk UthashOps UthashDel.

(** ** The readers *)
Section readers.
Context (HASH_FCN : list Z → Z).
Abbreviation rep := (rep HASH_FCN).
Abbreviation holds := (holds HASH_FCN).

Lemma holds_cases s hd I t (P : Prop) :
  holds s hd I t →
  (hd = None → I = [] → P) →
  (∀ x k T B h, hd = Some x → (x, k) ∈ I → rep s t T I B → tables s !! t = Some T →
     handles s !! x = Some h → h_tbl h = Some t → P) → P.
Proof.
  intros [-> HI] H0 H1. destruct I as [|[x k] I]; [by apply H0|].
  destruct HI as (T&B&Hr); [done|]. pose proof (rp_base _ _ _ _ _ _ Hr) as Hok.
  destruct (rp_handle _ _ _ _ _ Hok x k) as (h&?&?&_); [set_solver|].
  eapply (H1 x k T B h); try done; [set_solver|apply Hok].
Qed.

Lemma wp_hash_cnt s hd I t :
  holds s hd I t → wp (HASH_CNT hd) (λ n s', s' = s ∧ n = Z.of_nat (length I)) s.
Proof.
  intros Hh. apply (holds_cases _ _ _ _ _ Hh); unfold HASH_CNT.
  - intros -> ->. by wp_step.
  - intros x k T B h -> Hx Hr HT Hhx Ht. wp_step. eapply wp_tbl_of; [done..|]. wp_step. wp_step; [done|].
    wp_step. split; [done|]. apply Hr.
Qed.

Lemma wp_hash_clear s hd I t :
  holds s hd I t → wp (HASH_CLEAR hd) (λ hd' s', hd' = None ∧ frame s s' [] t ∧ (I = [] → s' = s)) s.
Proof.
  intros Hh. apply (holds_cases _ _ _ _ _ Hh); unfold HASH_CLEAR.
  - intros -> ->. by wp_step.
  - intros x k T B h -> Hx Hr HT Hhx Ht. wp_step. eapply wp_tbl_of; [done..|]. wp_step. wp_step; [done|].
    wp_step. wp_step. wp_step. split; [done|]. split; [|intros ->; set_solver].
    split; rec_simpl; [done|done| |done]. intros t' Ht'. by rewrite lookup_delete_ne.
Qed.

Lemma rep_size s t T I B : rep s t T I B → (length I ≤ size (handles s))%nat.
Proof.
  intros Hr. pose proof (rp_nodup _ _ _ _ _ (rp_base _ _ _ _ _ _ Hr)) as Hnd.
  rewrite <- (length_fmap fst), <- size_dom, <- (size_list_to_set (C := gset addr) I.*1) by done.
  apply subseteq_size. intros x. rewrite elem_of_list_to_set, elem_of_dom.
  intros ([y k]&->&Hk)%list_elem_of_fmap.
  destruct (rp_handle _ _ _ _ _ (rp_base _ _ _ _ _ _ Hr) y k Hk) as (h&Hh&_). simpl. rewrite Hh. eauto.
Qed.

(** [HASH_ITER] runs its body on the elements in the order of insertion, for
    a body that keeps the links of the elements to come. *)
Section iter.
Context {A : Type} (body : addr → A → M uthash A) (X : list addr) (P : list addr → A → uthash → Prop).
Hypothesis body_ok : ∀ done_ x rest a s, X = done_ ++ x :: rest → P done_ a s →
  wp (body x a) (λ a' s', P (done_ ++ [x]) a' s') s.
Hypothesis links_ok : ∀ done_ x rest a s, X = done_ ++ x :: rest → P done_ a s →
  ∃ h, handles s !! x = Some h ∧ h_next h = head rest.

Lemma wp_iter_loop rest : ∀ done_ a n s,
  X = done_ ++ rest → P done_ a s → (length rest < n)%nat →
  wp (loop n (iter_body body) (head rest, head (tail rest), a)) (λ a' s', P X a' s') s.
Proof using body_ok links_ok.
  induction rest as [|x rest IH]; intros done_ a n s HX HP Hn; (destruct n as [|n]; [simpl in Hn; lia|]);
    cbn [loop head tail]; wp_step; unfold iter_body at 1.
  - do 2 wp_step. rewrite app_nil_r in HX. by subst.
  - wp_step. eapply wp_mono; [by apply (body_ok done_ x rest)|]. intros a' s' HP'.
    assert (X = (done_ ++ [x]) ++ rest) as HX' by (by rewrite <- app_assoc).
    wp_step. unfold next_of. destruct rest as [|y rest]; cbn [head].
    + do 2 wp_step. apply (IH (done_ ++ [x])); [done..|simpl in *; lia].
    + destruct (links_ok (done_ ++ [x]) y rest a' s') as (h&Hh&Hnx); [done..|].
      wp_step. wp_step; [done|]. do 2 wp_step. rewrite Hnx.
      apply (IH (done_ ++ [x])); [done..|simpl in *; lia].
Qed.
End iter.

(** The elements, collected. *)
Definition collect (x : addr) (a : list addr) : M uthash (list addr) := mret (a ++ [x]).

Lemma wp_hash_iter s hd I t :
  holds s hd I t → wp (HASH_ITER hd collect []) (λ xs s', s' = s ∧ xs = I.*1) s.
Proof.
  intros Hh. pose proof Hh as [Hhd _].
  assert (∀ done_ x rest, I.*1 = done_ ++ x :: rest → ∃ h, handles s !! x = Some h ∧ h_next h = head rest) as Hl.
  { intros done_ x rest HX. apply (holds_cases _ _ _ _ _ Hh); [intros _ ->; by destruct done_|].
    intros x0 k0 T B h0 _ _ Hr _ _ _. pose proof (rp_app _ _ _ _ _ (rp_base _ _ _ _ _ _ Hr) _ _ _ HX) as Hl.
    unfold app_link in Hl. destruct (handles s !! x) as [h|]; [|done]. simplify_eq/=. eauto. }
  unfold HASH_ITER, chain_fuel. wp_step.
  eapply (wp_mono _ (λ o s', s' = s ∧ o = head (tail I.*1))).
  { unfold next_of. rewrite Hhd. destruct I.*1 as [|x rest] eqn:HI; cbn [head tail].
    - by wp_step.
    - destruct (Hl [] x rest) as (h&Hx&Hn); [done|]. wp_step. wp_step; [done|]. by wp_step. }
  intros o s' [-> ->]. wp_step. wp_step. rewrite Hhd.
  eapply wp_mono; [apply (wp_iter_loop collect I.*1 (λ xs a s', s' = s ∧ a = xs)) with (done_ := []); try done|].
  - intros done_ x rest a s' HX [-> ->]. unfold collect. by wp_step.
  - intros done_ x rest a s' HX [-> ->]. by eapply Hl.
  - apply (holds_cases _ _ _ _ _ Hh); [intros _ ->; simpl; lia|]. intros x k T B h _ _ Hr _ _ _.
    pose proof (rep_size _ _ _ _ _ Hr). rewrite length_fmap. lia.
  - by intros a s' [-> ->].
Qed.

(** ** The integrity check *)
Lemma wp_fsck_chain s c rest : ∀ done_ n,
  linked (bkt_link s) c → c = done_ ++ rest → (length rest < n)%nat → Z.of_nat (length c) < 2 ^ 32 →
  wp (loop n fsck_chain_body (head rest, last done_, Z.of_nat (length done_)))
    (λ count s', s' = s ∧ count = Z.of_nat (length c)) s.
Proof.
  induction rest as [|x rest IH]; intros done_ n Hl Hc Hn Hs; (destruct n as [|n]; [simpl in Hn; lia|]);
    cbn [loop head]; wp_step; unfold fsck_chain_body at 1.
  - do 2 wp_step. rewrite app_nil_r in Hc. by subst.
  - pose proof (Hl _ _ _ Hc) as Hx. unfold bkt_link in Hx.
    destruct (handles s !! x) as [h|] eqn:Hh; [|done]. injection Hx as Hp Hnx.
    wp_step. wp_step; [done|]. unfold HASH_OOPS. wp_step. wp_step; [by rewrite bool_decide_eq_true|].
    wp_step. rewrite Hnx.
    assert (c = (done_ ++ [x]) ++ rest) as Hc' by by rewrite <- app_assoc.
    specialize (IH (done_ ++ [x]) n Hl Hc'). rewrite last_snoc, length_app in IH. simpl in IH.
    rewrite u32_small; [|rewrite Hc, length_app in Hs; simpl in Hs; lia].
    replace (Z.of_nat (length done_) + 1) with (Z.of_nat (length done_ + 1)) by lia.
    apply IH; [simpl in Hn; lia|done].
Qed.

Lemma wp_fsck_app s c rest : ∀ done_ n,
  linked (app_link s) c → c = done_ ++ rest → (length rest < n)%nat → Z.of_nat (length c) < 2 ^ 32 →
  wp (loop n fsck_app_body (head rest, last done_, Z.of_nat (length done_)))
    (λ count s', s' = s ∧ count = Z.of_nat (length c)) s.
Proof.
  induction rest as [|x rest IH]; intros done_ n Hl Hc Hn Hs; (destruct n as [|n]; [simpl in Hn; lia|]);
    cbn [loop head]; wp_step; unfold fsck_app_body at 1.
  - do 2 wp_step. rewrite app_nil_r in Hc. by subst.
  - pose proof (Hl _ _ _ Hc) as Hx. unfold app_link in Hx.
    destruct (handles s !! x) as [h|] eqn:Hh; [|done]. injection Hx as Hp Hnx.
    wp_step. wp_step; [done|]. unfold HASH_OOPS. wp_step. wp_step; [by rewrite bool_decide_eq_true|].
    wp_step. rewrite Hnx.
    assert (c = (done_ ++ [x]) ++ rest) as Hc' by by rewrite <- app_assoc.
    specialize (IH (done_ ++ [x]) n Hl Hc'). rewrite last_snoc, length_app in IH. simpl in IH.
    rewrite u32_small; [|rewrite Hc, length_app in Hs; simpl in Hs; lia].
    replace (Z.of_nat (length done_) + 1) with (Z.of_nat (length done_ + 1)) by lia.
    apply IH; [simpl in Hn; lia|done].
Qed.

Lemma buckets_nodup s arr B is_ :
  buckets_ok s arr B → NoDup is_ → NoDup (mjoin (B <$> is_)).
Proof.
  intros HB. induction is_ as [|i is_ IH]; [constructor|]. intros [Hi Hnd]%NoDup_cons. simpl.
  apply NoDup_app. split; [apply HB|]. split; [|by apply IH].
  intros x Hx (l&Hxl&(j&->&Hj)%list_elem_of_fmap)%list_elem_of_join. apply Hi.
  by rewrite (bk_disjoint _ _ _ HB i j x).
Qed.

Lemma wp_fsck_buckets s t T I B is_ : ∀ count,
  rep s t T I B → (∀ i, i ∈ is_ → 0 ≤ i < num_buckets T) → 0 ≤ count →
  count + Z.of_nat (length (mjoin (B <$> is_))) < 2 ^ 32 →
  wp (fsck_buckets t is_ count) (λ n s', s' = s ∧ n = count + Z.of_nat (length (mjoin (B <$> is_)))) s.
Proof.
  induction is_ as [|i is_ IH]; intros count Hr Hin Hpos Hb; cbn [fsck_buckets].
  { wp_step. split; [done|simpl; lia]. }
  change (mjoin (B <$> i :: is_)) with (B i ++ mjoin (B <$> is_)) in *.
  pose proof (rp_buckets _ _ _ _ _ _ Hr) as HB. destruct (rep_nb _ _ _ _ _ _ Hr) as (_&_&Ha).
  rewrite length_app in Hb.
  wp_step. eapply wp_bucket; [apply Hr|rewrite Ha; apply Hin; set_solver|].
  unfold chain_fuel. wp_step. wp_step. wp_step. rewrite (bk_head _ _ _ HB).
  eapply wp_mono; [apply (wp_fsck_chain s (B i) (B i) []); [apply HB|done| |lia]|].
  { pose proof (rep_chain_size _ _ _ _ _ _ i Hr). lia. }
  intros n s' [-> ->]. unfold HASH_OOPS. wp_step.
  wp_step; [apply Z.eqb_eq; apply HB|]. rewrite u32_small by lia.
  eapply wp_mono; [apply IH; [done|set_solver|lia..]|].
  intros n s' [-> ->]. split; [done|]. rewrite length_app. lia.
Qed.

Lemma wp_hash_fsck s hd I t : holds s hd I t → wp (HASH_FSCK hd) (λ _ s', s' = s) s.
Proof.
  intros Hh. pose proof Hh as [Hhd _]. apply (holds_cases _ _ _ _ _ Hh); unfold HASH_FSCK.
  { intros -> ->. by wp_step. }
  intros x k T B h -> Hx Hr HT Hhx Ht. pose proof (rp_base _ _ _ _ _ _ Hr) as Hok.
  assert (length (mjoin (B <$> seqZ 0 (num_buckets T))) = length I) as Hlen.
  { rewrite <- (length_fmap fst I). apply Permutation_length, NoDup_Permutation.
    - eapply buckets_nodup; [apply Hr|apply NoDup_seqZ].
    - apply Hok.
    - intros y. by rewrite (rep_all_buckets _ _ _ _ _ _ Hr). }
  pose proof (rp_small _ _ _ _ _ Hok) as Hs. pose proof (rp_items _ _ _ _ _ Hok) as Hi.
  wp_step. eapply wp_tbl_of; [done..|]. wp_step. wp_step; [done|]. wp_step.
  eapply wp_mono; [eapply wp_fsck_buckets; [done|by intros i ?%elem_of_seqZ|lia|lia]|].
  intros n s' [-> ->]. unfold HASH_OOPS, chain_fuel. wp_step. wp_step; [apply Z.eqb_eq; lia|].
  wp_step. wp_step. wp_step. rewrite Hhd.
  eapply wp_mono; [apply (wp_fsck_app s I.*1 I.*1 []); [apply Hok|done|..]; rewrite length_fmap|].
  - pose proof (rep_size _ _ _ _ _ Hr). lia.
  - done.
  - intros n s' [-> ->]. wp_step; [rewrite length_fmap; apply Z.eqb_eq; lia|done].
Qed.
End readers.

(** ** Programs that use tables *)

(** The memory and the heads of the tables, [mm->pages] and the like. *)
Record world := World { heap : uthash; heads : Z → option addr }.
#[global] Instance eta_world : Eta world := λ r, World (heap r) (heads r).
#[global] Instance set_heap : Setter heap := ltac:(mk_setter).
#[global] Instance set_heads : Setter heads := ltac:(mk_setter).

Inductive hash_op :=
  | Find (n : Z) (key : list Z)
  | Add (n : Z) (x : addr)
  | Delete (n : Z) (x : addr)
  | Count (n : Z)
  | Iterate (n : Z)
  | Clear (n : Z)
  | Check (n : Z)
  | WriteKey (x : addr) (bytes : list Z).

Inductive answer := Element (o : option addr) | Number (n : Z) | Elements (xs : list addr) | Done.
#[global] Instance answer_eq_dec : EqDecision answer.
Proof. solve_decision. Defined.

Lemma filter_out (I1 I2 : list item) x k :
  NoDup (I1 ++ (x, k) :: I2).*1 → filter (λ it, it.1 ≠ x) (I1 ++ (x, k) :: I2) = I1 ++ I2.
Proof.
  rewrite fmap_app, fmap_cons, NoDup_app, NoDup_cons. simpl. intros (_&H1&[H2 _]).
  assert (∀ I : list item, x ∉ I.*1 → filter (λ it, it.1 ≠ x) I = I) as Hid.
  { intros I HI. induction I as [|[y k'] I IH]; [done|]. apply not_elem_of_cons in HI as [Hy HI].
    rewrite filter_cons_True by done. by rewrite IH. }
  rewrite filter_app, filter_cons_False by (simpl; tauto). rewrite !Hid; [done|done|set_solver].
Qed.

Section programs.
Context (HASH_FCN : list Z → Z) (malloc_ok : Z → bool) (keylen : Z).

Definition set_head (n : Z) (o : option addr) : M world unit := modify (λ w, w <| heads ::= insert n o |>).

Definition run_op (op : hash_op) : M world answer :=
  match op with
  | Find n key =>
      hd ← gets (λ w, heads w n);
      o ← zoom heap (HASH_FIND HASH_FCN hd key keylen);
      mret (Element o)
  | Add n x =>
      hd ← gets (λ w, heads w n);
      hd ← zoom heap (HASH_ADD HASH_FCN malloc_ok hd keylen x);
      set_head n hd;;
      mret Done
  | Delete n x =>
      hd ← gets (λ w, heads w n);
      hd ← zoom heap (HASH_DELETE hd x);
      set_head n hd;;
      mret Done
  | Count n =>
      hd ← gets (λ w, heads w n);
      c ← zoom heap (HASH_CNT hd);
      mret (Number c)
  | Iterate n =>
      hd ← gets (λ w, heads w n);
      xs ← zoom heap (HASH_ITER hd collect []);
      mret (Elements xs)
  | Clear n =>
      hd ← gets (λ w, heads w n);
      hd ← zoom heap (HASH_CLEAR hd);
      set_head n hd;;
      mret Done
  | Check n =>
      hd ← gets (λ w, heads w n);
      zoom heap (HASH_FSCK hd);;
      mret Done
  | WriteKey x bytes =>
      zoom heap (store fields x (λ _, bytes));;
      mret Done
  end.

Fixpoint run (ops : list hash_op) : M world (list answer) :=
  match ops with
  | [] => mret []
  | op :: ops => r ← run_op op; rs ← run ops; mret (r :: rs)
  end.

(** The specification: the items of each table, and the key fields. *)
Record spec := Spec { items : Z → list item; keys : gmap addr (list Z) }.

Definition spec_next (a : spec) (op : hash_op) : spec :=
  match op with
  | Add n x =>
      let key := take (Z.to_nat keylen) (default [] (keys a !! x)) in
      Spec (<[n := items a n ++ [(x, key)]]> (items a)) (keys a)
  | Delete n x => Spec (<[n := filter (λ it, it.1 ≠ x) (items a n)]> (items a)) (keys a)
  | Clear n => Spec (<[n := []]> (items a)) (keys a)
  | WriteKey x bytes => Spec (items a) (<[x := bytes]> (keys a))
  | _ => a
  end.

(** [it] is an item that a lookup of [key] is about. *)
Definition has_key (a : spec) (key : list Z) (it : item) : Prop :=
  HASH_FCN it.2 = HASH_FCN key ∧ take (Z.to_nat keylen) (default [] (keys a !! it.1)) = key.

Definition spec_answer (a : spec) (op : hash_op) (r : answer) : Prop :=
  match op with
  | Find n key => ∃ o, r = Element o ∧
      match o with
      | Some x => ∃ k, (x, k) ∈ items a n ∧ has_key a key (x, k)
      | None => ∀ it, it ∈ items a n → ¬ has_key a key it
      end
  | Count n => r = Number (Z.of_nat (length (items a n)))
  | Iterate n => r = Elements (items a n).*1
  | _ => r = Done
  end.

Definition spec_permits (a : spec) (op : hash_op) : Prop :=
  match op with
  | Find n key => Z.of_nat (length key) = keylen
  | Add n x => (∀ m, x ∉ (items a m).*1) ∧ Z.of_nat (S (length (items a n))) < 2 ^ 32 ∧
               ∃ bytes, keys a !! x = Some bytes ∧ keylen ≤ Z.of_nat (length bytes)
  | Delete n x => x ∈ (items a n).*1
  | WriteKey x bytes => ∃ old, keys a !! x = Some old ∧ length bytes = length old
  | _ => True
  end.

Fixpoint spec_run (a : spec) (ops : list hash_op) : spec :=
  match ops with [] => a | op :: ops => spec_run (spec_next a op) ops end.

Fixpoint spec_answers (a : spec) (ops : list hash_op) (rs : list answer) : Prop :=
  match ops, rs with
  | [], [] => True
  | op :: ops, r :: rs => spec_answer a op r ∧ spec_answers (spec_next a op) ops rs
  | _, _ => False
  end.

Fixpoint all_permitted (a : spec) (ops : list hash_op) : Prop :=
  match ops with [] => True | op :: ops => spec_permits a op ∧ all_permitted (spec_next a op) ops end.

(** The memory holds the tables of the specification, which share nothing. *)
Record refines (w : world) (a : spec) : Prop := Refines {
  rf_tables : ∃ tp : Z → addr,
    (∀ n, holds HASH_FCN (heap w) (heads w n) (items a n) (tp n)) ∧
    (∀ n m, items a n ≠ [] → items a m ≠ [] → tp n = tp m → n = m);
  rf_disjoint n m x : x ∈ (items a n).*1 → x ∈ (items a m).*1 → n = m;
  rf_keys : fields (heap w) = keys a;
  rf_handles x : is_Some (keys a !! x) → is_Some (handles (heap w) !! x);
  rf_keylen n x k : (x, k) ∈ items a n → Z.of_nat (length k) = keylen;
}.

(** Why [op] ends the program with the error [e]: it is an addition that makes
    a table for which the memory is refused, or one that finds its chain full
    in a table that cannot double its buckets. *)
Definition stops (w : world) (op : hash_op) (e : err) : Prop :=
  match op with
  | Add n x =>
      match heads w n with
      | None => e = out_of_memory ∧
          (malloc_ok sizeof_table = false ∨ malloc_ok (HASH_INITIAL_NUM_BUCKETS * sizeof_bucket) = false)
      | Some hd => ∃ h t T, handles (heap w) !! hd = Some h ∧ h_tbl h = Some t ∧ tables (heap w) !! t = Some T ∧
          must_expand HASH_FCN T (take (Z.to_nat keylen) (default [] (fields (heap w) !! x))) = true ∧
          cannot_double malloc_ok T e
      end
  | _ => False
  end.

(** ** The programs do what the specification says *)
Lemma holds_frame s s' hd I t t' X :
  holds HASH_FCN s hd I t → frame s s' X t' → (∀ y, y ∈ I.*1 → y ∉ X) → (I ≠ [] → t ≠ t') →
  holds HASH_FCN s' hd I t.
Proof.
  intros [-> HI] Hfr HX Ht. split; [done|]. intros Hne. destruct (HI Hne) as (T&B&Hr).
  exists T, B. eapply rep_ext; [done|..].
  - intros y Hy. by apply Hfr, HX.
  - intros y bytes Hy Hb. exists bytes. by rewrite (fr_fields _ _ _ _ Hfr).
  - by apply Hfr, Ht.
Qed.

Lemma refines_change w a tp n I' hd' s' t' X :
  refines w a →
  (∀ n, holds HASH_FCN (heap w) (heads w n) (items a n) (tp n)) →
  (∀ n m, items a n ≠ [] → items a m ≠ [] → tp n = tp m → n = m) →
  holds HASH_FCN s' hd' I' t' → frame (heap w) s' X t' →
  (∀ m y, m ≠ n → y ∈ (items a m).*1 → y ∉ X ∧ y ∉ I'.*1) →
  (∀ m, m ≠ n → items a m ≠ [] → tp m ≠ t') →
  (∀ x k, (x, k) ∈ I' → Z.of_nat (length k) = keylen) →
  refines (World s' (<[n := hd']> (heads w))) (Spec (<[n := I']> (items a)) (keys a)).
Proof.
  intros Hrf Hholds Hinj Hn Hfr HX Ht' Hkl. split; simpl.
  - exists (<[n := t']> tp). split.
    + intros m. destruct (decide (n = m)) as [<-|Hm]; [by rewrite !fn_lookup_insert|].
      rewrite !fn_lookup_insert_ne by done. eapply holds_frame; [done..| |].
      * intros y Hy. by apply (HX m).
      * intros Hne. by apply Ht'.
    + intros m1 m2. unfold insert, fn_insert. repeat case_decide; subst; try done.
      * intros _ H2 E. by destruct (Ht' m2).
      * intros H1 _ E. by destruct (Ht' m1).
      * apply Hinj.
  - intros m1 m2 x. unfold insert, fn_insert. repeat case_decide; subst; try done.
    + intros H1 H2. by destruct (HX m2 x).
    + intros H1 H2. by destruct (HX m1 x).
    + apply Hrf.
  - rewrite (fr_fields _ _ _ _ Hfr). apply Hrf.
  - intros x Hx. by apply Hfr, Hrf.
  - intros m x k. unfold insert, fn_insert. case_decide; [subst; apply Hkl|apply Hrf].
Qed.

Lemma world_eta w s' n hd : w <| heap := s' |> <| heads ::= insert n hd |> = World s' (<[n := hd]> (heads w)).
Proof. done. Qed.

Lemma world_same w : w <| heap := heap w |> = w.
Proof. by destruct w. Qed.

Lemma spec_has_key w a n key it :
  refines w a → Z.of_nat (length key) = keylen → it ∈ items a n →
  matches HASH_FCN (heap w) key it ↔ has_key a key it.
Proof.
  intros Hrf Hlen Hin. destruct it as [x k]. pose proof (rf_keylen _ _ Hrf n x k Hin) as Hk.
  destruct (rf_tables _ _ Hrf) as (tp&Hh&_). destruct (Hh n) as [_ HI].
  destruct HI as (T&B&Hr); [by intros E; rewrite E in Hin; apply elem_of_nil in Hin|].
  destruct (rp_field _ _ _ _ _ (rp_base _ _ _ _ _ _ Hr) x k Hin) as (bytes&Hb&_).
  unfold matches, has_key. simpl. rewrite <- (rf_keys _ _ Hrf), Hb. simpl.
  replace (Z.to_nat keylen) with (length key) by lia. split.
  - intros (_&?&b&?&?). by simplify_eq.
  - intros [? ?]. split; [lia|]. split; [done|]. eauto.
Qed.

Lemma wp_run_reader {A} w a (m : M uthash A) (f : A → answer) (P : A → Prop) op :
  refines w a → spec_next a op = a →
  wp m (λ r s', s' = heap w ∧ P r) (heap w) → (∀ r, P r → spec_answer a op (f r)) →
  wp (r ← zoom heap m; mret (f r)) (λ r w', spec_answer a op r ∧ refines w' (spec_next a op)) w.
Proof.
  intros Hrf -> Hm Hans. wp_step. wp_step. eapply wp_mono; [exact Hm|].
  intros r s' [-> HP]. wp_step. rewrite world_same. eauto.
Qed.

Lemma wp_run_find w a n key :
  refines w a → spec_permits a (Find n key) →
  wp (run_op (Find n key)) (λ r w', spec_answer a (Find n key) r ∧ refines w' (spec_next a (Find n key))) w.
Proof.
  intros Hrf Hlen. simpl in Hlen. destruct (rf_tables _ _ Hrf) as (tp&Hh&_).
  cbn [run_op]. wp_step. wp_step. rewrite <- Hlen.
  eapply wp_run_reader; [done..|by eapply wp_hash_find|].
  intros o Ho. exists o. split; [done|]. destruct o as [x|].
  - destruct Ho as (k&Hin&Hm). exists k. split; [done|]. by eapply spec_has_key.
  - intros it Hin Hk. apply (Ho it Hin). by eapply spec_has_key.
Qed.

Lemma add_fails_stops w a n x t bytes e :
  holds HASH_FCN (heap w) (heads w n) (items a n) t → fields (heap w) !! x = Some bytes →
  add_fails HASH_FCN malloc_ok (heap w) (items a n) t (take (Z.to_nat keylen) bytes) e → stops w (Add n x) e.
Proof.
  intros Hh Hb He. cbn [stops]. pose proof Hh as [Hhd _]. rewrite Hb. cbn [default].
  apply (holds_cases _ _ _ _ _ _ Hh).
  - intros E HI. rewrite HI in He. by rewrite E.
  - intros y k T B h E Hy Hr HT Hhy Hty. rewrite E.
    destruct (items a n); [by apply not_elem_of_nil in Hy|]. destruct He as (T'&HT'&He).
    assert (T' = T) as -> by congruence. by exists h, t, T.
Qed.

Lemma wpx_run_add w a n x :
  refines w a → spec_permits a (Add n x) → 0 ≤ keylen < 2 ^ 32 →
  wpx (stops w (Add n x)) (run_op (Add n x))
    (λ r w', spec_answer a (Add n x) r ∧ refines w' (spec_next a (Add n x))) w.
Proof.
  intros Hrf (Hx&Hsz&bytes&Hb&Hkl) Hkl0. destruct (rf_tables _ _ Hrf) as (tp&Hh&Hinj).
  destruct (rf_handles _ _ Hrf x) as [hx Hhx]; [eauto|].
  assert (fields (heap w) !! x = Some bytes) as Hfx by (by rewrite (rf_keys _ _ Hrf)).
  cbn [run_op]. wpx_next. wp_step. apply wpx_bind, wpx_zoom. eapply wpx_weaken; [eapply wpx_mono|].
  { eapply wpx_hash_add; try done; lia. }
  2: { intros e. by eapply add_fails_stops. }
  intros hd' s' (t'&Hn&Hfr&Ht'). unfold set_head. wpx_next. wp_step. wpx_next. split; [done|].
  rewrite world_eta. cbn [spec_next]. rewrite Hb. cbn [default].
  eapply (refines_change w a tp n); [done..| | |].
  - intros m y Hm Hy. rewrite fmap_app. simpl.
    assert (y ≠ x) by (intros ->; by apply (Hx m)).
    assert (y ∉ (items a n).*1) by (intros ?; apply Hm; by eapply (rf_disjoint _ _ Hrf)). set_solver.
  - intros m Hm Hne. destruct (Hh m) as [_ HI]. destruct (HI Hne) as (T&B&Hr).
    case_decide as Hn0.
    + intros E. pose proof (rp_table _ _ _ _ _ (rp_base _ _ _ _ _ _ Hr)). congruence.
    + intros E. subst t'. apply Hm. by apply Hinj.
  - intros y k [Hin|[= -> ->]%list_elem_of_singleton]%elem_of_app; [by apply (rf_keylen _ _ Hrf n y)|].
    rewrite length_take. lia.
Qed.

Lemma wp_run_delete w a n x :
  refines w a → spec_permits a (Delete n x) →
  wp (run_op (Delete n x)) (λ r w', spec_answer a (Delete n x) r ∧ refines w' (spec_next a (Delete n x))) w.
Proof.
  intros Hrf Hx. simpl in Hx. destruct (rf_tables _ _ Hrf) as (tp&Hh&Hinj).
  apply list_elem_of_fmap in Hx as ([y k]&E&Hin). simpl in E. subst y.
  apply list_elem_of_split in Hin as (I1&I2&HI). pose proof (Hh n) as Hn. rewrite HI in Hn.
  assert (NoDup (I1 ++ (x, k) :: I2).*1) as Hnd.
  { destruct Hn as [_ Hr]. destruct Hr as (T&B&Hr); [by destruct I1|]. apply Hr. }
  cbn [run_op]. wp_step. wp_step. wp_step. wp_step.
  eapply wp_mono; [by eapply wp_hash_delete|].
  intros hd' s' (Hn'&Hfr). unfold set_head. wp_step. wp_step. wp_step. split; [done|].
  rewrite world_eta. cbn [spec_next]. rewrite HI, filter_out by done.
  eapply (refines_change w a tp n); [done..| | |].
  - intros m y Hm Hy. rewrite <- HI.
    assert (y ∉ (items a n).*1) as Hyn by (intros ?; apply Hm; by eapply (rf_disjoint _ _ Hrf)).
    split; [done|]. rewrite HI, fmap_app, fmap_cons in Hyn. rewrite fmap_app. set_solver.
  - intros m Hm Hne E. apply Hm. apply Hinj; [done| |done]. rewrite HI. by destruct I1.
  - intros y k' Hin. apply (rf_keylen _ _ Hrf n y). rewrite HI. set_solver.
Qed.

Lemma wp_run_clear w a n :
  refines w a →
  wp (run_op (Clear n)) (λ r w', spec_answer a (Clear n) r ∧ refines w' (spec_next a (Clear n))) w.
Proof.
  intros Hrf. destruct (rf_tables _ _ Hrf) as (tp&Hh&Hinj). cbn [run_op]. wp_step. wp_step. wp_step. wp_step.
  eapply wp_mono; [by eapply wp_hash_clear|].
  intros hd' s' (->&Hfr&Hsame). unfold set_head. wp_step. wp_step. wp_step. split; [done|].
  rewrite world_eta. cbn [spec_next]. destruct (decide (items a n = [])) as [Hn0|Hn0].
  - rewrite (Hsame Hn0) in *.
    eapply (refines_change w a tp n _ _ _ (fresh (dom (tables (heap w)))) []); try done; [set_solver| |set_solver].
    intros m Hm Hne E. destruct (Hh m) as [_ HI]. destruct (HI Hne) as (T&B&Hr).
    pose proof (rp_table _ _ _ _ _ (rp_base _ _ _ _ _ _ Hr)) as HT. rewrite E in HT.
    by apply elem_of_dom_2, is_fresh in HT.
  - eapply (refines_change w a tp n); [done..| | | |]; [done|set_solver| |set_solver].
    intros m Hm Hne E. apply Hm. by apply Hinj.
Qed.

Lemma refines_write w a x old bytes :
  refines w a → keys a !! x = Some old → length bytes = length old →
  refines (w <| heap ::= λ s, s <| fields := <[x := bytes]> (fields s) |> |>)
    (Spec (items a) (<[x := bytes]> (keys a))).
Proof.
  intros Hrf Hold Hlen. split; simpl.
  - destruct (rf_tables _ _ Hrf) as (tp&Hh&Hinj). exists tp. split; [|done]. intros n. rec_simpl.
    destruct (Hh n) as [Hhd HI]. split; [done|]. intros Hne. destruct (HI Hne) as (T&B&Hr).
    exists T, B. eapply rep_ext; [done|by rec_simpl| |by rec_simpl].
    intros y b Hy Hb. rec_simpl. destruct (decide (x = y)) as [->|].
    + exists bytes. rewrite lookup_insert_eq. rewrite (rf_keys _ _ Hrf) in Hb. by simplify_eq.
    + exists b. by rewrite lookup_insert_ne.
  - apply Hrf.
  - rec_simpl. by rewrite (rf_keys _ _ Hrf).
  - intros y. rec_simpl. rewrite lookup_insert_is_Some'. intros [<-|Hy]; apply Hrf; eauto.
  - apply Hrf.
Qed.

Lemma wpx_run_op w a op :
  refines w a → spec_permits a op → 0 ≤ keylen < 2 ^ 32 →
  wpx (stops w op) (run_op op) (λ r w', spec_answer a op r ∧ refines w' (spec_next a op)) w.
Proof.
  intros Hrf Hp Hkl. destruct (rf_tables _ _ Hrf) as (tp&Hh&Hinj). destruct op as [n key|n x|n x|n|n|n|n|x bytes].
  - by apply wpx_wp, wp_run_find.
  - by apply wpx_run_add.
  - by apply wpx_wp, wp_run_delete.
  - cbn [run_op]. apply wpx_wp. wp_step. wp_step. eapply wp_run_reader; [done..|by eapply wp_hash_cnt|].
    by intros ? ->.
  - cbn [run_op]. apply wpx_wp. wp_step. wp_step. eapply wp_run_reader; [done..|by eapply wp_hash_iter|].
    by intros ? ->.
  - by apply wpx_wp, wp_run_clear.
  - cbn [run_op]. apply wpx_wp. wp_step. wp_step.
    eapply (wp_run_reader w a _ (λ _, Done) (λ _, True)); [done..| |done].
    eapply wp_mono; [by eapply wp_hash_fsck|]. done.
  - destruct Hp as (old&Hold&Hlen). cbn [run_op]. apply wpx_wp. wp_step. wp_step.
    eapply wp_store; [by rewrite (rf_keys _ _ Hrf)|]. wp_step. split; [done|].
    by eapply (refines_write w a x old bytes).
Qed.

(** C29: the hash tables of the manager refine finite sequences of items.  Take
    any number of uthash tables in one memory, any hash function, any
    allocator, and any sequence of lookups, additions, deletions, counts,
    iterations, clearings, integrity checks and writes to key fields, in which
    an element is added only while it is in no table, deleted only from the
    table it is in, and no table gets more than [2 ^ 32 - 1] items.  Either the
    program runs to its end: every lookup finds an element of its table whose
    key field is the key and whose hash value is that of the key, if there is
    one, and null otherwise; counts and iterations give the items in the order
    of insertion; the check never fails; and each operation changes the table
    it is for and no other, also when it makes the table or expands its
    buckets.  Or the program does all that up to an addition that fails, for
    one of three reasons: the library has asked for the memory of a new table,
    or for that of twice the buckets of a table whose chain is full, and has
    been refused, and exits; or such a table has [2 ^ 31] buckets already, the
    memory for twice as many has been granted, and the shift of the number of
    items by 32 places is undefined. *)
Theorem hash_tables_refine_sequences w a ops :
  refines w a → all_permitted a ops → 0 ≤ keylen < 2 ^ 32 →
  (∃ rs w', run ops w = Ok rs w' ∧ spec_answers a ops rs ∧ refines w' (spec_run a ops)) ∨
  (∃ before op after rs w' e, ops = before ++ op :: after ∧ run before w = Ok rs w' ∧
     spec_answers a before rs ∧ refines w' (spec_run a before) ∧ stops w' op e ∧ run ops w = Err e).
Proof.
  revert w a. induction ops as [|op ops IH]; intros w a Hrf Hall Hkl.
  { left. by exists [], w. }
  destruct Hall as [Hp Hall]. pose proof (wpx_run_op w a op Hrf Hp Hkl) as Hop. unfold wpx in Hop.
  cbn [run]. unfold mbind, M_bind. destruct (run_op op w) as [r w1|e] eqn:Hr.
  2: { right. by exists [], op, ops, [], w, e. }
  destruct Hop as [Hans Hrf1].
  destruct (IH w1 _ Hrf1 Hall Hkl) as [(rs&w'&Hrun&?&?)|(b&o&rest&rs&w'&e&->&Hrun&?&?&?&Herr)].
  - left. exists (r :: rs), w'. rewrite Hrun. by split_and!.
  - right. exists (op :: b), o, rest, (r :: rs), w', e. rewrite Herr. split_and!; [done| |done..].
    cbn [run]. unfold mbind, M_bind. by rewrite Hr, Hrun.
Qed.
End programs.

(** Two tables of four-byte keys; an element is found by its key until its
    field is overwritten, and leaves one table before it enters the other. *)
Definition blank : UT_hash_handle := UTHashHandle None None None None None None 0 0.
Definition three_elements : uthash :=
  Uthash {[1%positive := blank; 2%positive := blank; 3%positive := blank]}
    {[1%positive := [7; 0; 0; 0]; 2%positive := [8; 0; 0; 0]; 3%positive := [9; 0; 0; 0]]} ∅.
Definition first_world : world := World three_elements (λ _, None).
Definition first_spec : spec := Spec (λ _, []) (fields three_elements).
Definition table_ops : list hash_op :=
  [Add 0 1; Add 0 2; Add 1 3; Find 0 [8; 0; 0; 0]; Find 1 [8; 0; 0; 0];
   WriteKey 2%positive [6; 0; 0; 0]; Find 0 [8; 0; 0; 0]; Delete 0 1; Add 1 1; Iterate 1; Count 0;
   Clear 1; Count 1].
Definition up_to_32_gb (sz : Z) : bool := sz <=? 2 ^ 35.

Lemma first_refines : refines HASH_JEN 4 first_world first_spec.
Proof.
  split; simpl.
  - exists (λ _, 1%positive). done.
  - set_solver.
  - done.
  - assert (dom (handles three_elements) = dom (fields three_elements)) as Hd by (vm_compute; reflexivity).
    intros x. rewrite <- !elem_of_dom. simpl in *. by rewrite Hd.
  - set_solver.
Qed.

Ltac fresh_element :=
  let m := fresh "m" in
  intros m;
  destruct (decide (m = 0)) as [->|];
    [|destruct (decide (m = 1)) as [->|]; [|rewrite ?fn_lookup_insert_ne by done; apply not_elem_of_nil]];
    (apply (bool_decide_unpack _); vm_compute; exact I).

Ltac permit_add :=
  split; [fresh_element|split; [vm_compute; reflexivity|eexists; split; [reflexivity|done]]].

Lemma table_ops_permitted : all_permitted 4 first_spec table_ops.
Proof.
  unfold table_ops, first_spec. cbn [all_permitted]. split_and!;
    cbn [spec_permits spec_next items keys]; try done.
  - permit_add.
  - permit_add.
  - permit_add.
  - by eexists.
  - apply (bool_decide_unpack _). vm_compute. exact I.
  - permit_add.
Qed.

Lemma hash_tables_refine_sequences_witness :
  ∃ rs w', run HASH_JEN up_to_32_gb 4 table_ops first_world = Ok rs w' ∧
    rs = [Done; Done; Done; Element (Some 2%positive); Element None; Done; Element None; Done; Done;
          Elements [3; 1]%positive; Number 1; Done; Number 0] ∧
    spec_answers HASH_JEN 4 first_spec table_ops rs ∧
    refines HASH_JEN 4 w' (spec_run 4 first_spec table_ops).
Proof.
  assert (match run HASH_JEN up_to_32_gb 4 table_ops first_world with
          | Ok rs _ => bool_decide (rs = [Done; Done; Done; Element (Some 2%positive); Element None; Done;
                         Element None; Done; Done; Elements [3; 1]%positive; Number 1; Done; Number 0])
          | Err _ => false
          end = true) as Hval by (vm_compute; reflexivity).
  destruct (hash_tables_refine_sequences HASH_JEN up_to_32_gb 4 first_world first_spec table_ops)
    as [(rs&w'&Hrun&Hans&Hrf)|(b&op&rest&rs&w'&e&_&_&_&_&_&Herr)].
  - exact first_refines.
  - exact table_ops_permitted.
  - lia.
  - exists rs, w'. rewrite Hrun in Hval. apply bool_decide_eq_true in Hval.
    exact (conj Hrun (conj Hval (conj Hans Hrf))).
  - rewrite Herr in Hval. discriminate Hval.
Defined.
