(* ===== verification/HashTables.v ===== *)
(** * The page tables are hash tables

    Mm.v describes the table of the pages of a process by a finite map.  Here
    the map is put next to the uthash table that the code keeps,
    [process_mem.pages] with the eight bytes of the virtual address as the
    key: on the states of the manager's invariant, the three macros that mm.c
    uses do on the hash table what the operations of Mm.v do on the map. *)

From S2P Require Import Prelude Links Uthash UthashOk UthashOps UthashDel UthashRefine Fifo Ring F64 ProcList Types Hotness Mm MmAsync Inv UcmWp AsyncOk TableOk EpochOk Ipc IpcOk ServerOk Machine.

(** The bytes of a [uint64_t] in memory. *)
Definition bytes8 (v : Z) : list Z := (λ i, Z.shiftr v (8 * i) mod 256) <$> seqZ 0 8.

Lemma bytes8_length v : length (bytes8 v) = 8%nat.
Proof. done. Qed.

Lemma bytes8_inj v w : 0 ≤ v < 2 ^ 64 → 0 ≤ w < 2 ^ 64 → bytes8 v = bytes8 w → v = w.
Proof.
  intros Hv Hw Heq. apply Z.bits_inj'. intros n Hn.
  destruct (decide (n < 64)) as [Hn64|Hn64].
  - assert (Z.shiftr v (8 * (n / 8)) mod 256 = Z.shiftr w (8 * (n / 8)) mod 256) as Hb.
    { assert (0 ≤ n / 8 < 8) as Hd by (split; [apply Z.div_pos|apply Z.div_lt_upper_bound]; lia).
      apply (f_equal (λ l, l !! Z.to_nat (n / 8))) in Heq. unfold bytes8 in Heq.
      rewrite !list_lookup_fmap, lookup_seqZ_lt in Heq by lia. simpl in Heq.
      rewrite Z2Nat.id, Z.add_0_l in Heq by lia. by injection Heq. }
    apply (f_equal (λ x, Z.testbit x (n mod 8))) in Hb.
    pose proof (Z.mod_pos_bound n 8). change 256 with (2 ^ 8) in Hb.
    rewrite !Z.mod_pow2_bits_low, !Z.shiftr_spec in Hb by lia.
    by rewrite (Z.add_comm (n mod 8)), <- Z.div_mod in Hb by lia.
  - rewrite !Z.bits_above_log2; try done; try lia.
    + destruct (decide (w = 0)) as [->|]; [simpl; lia|]. assert (Z.log2 w < 64); [|lia].
      apply Z.log2_lt_pow2; lia.
    + destruct (decide (v = 0)) as [->|]; [simpl; lia|]. assert (Z.log2 v < 64); [|lia].
      apply Z.log2_lt_pow2; lia.
Qed.

(** [table] is what the hash table with the first element [hd] stands for:
    its items are the pages of [table] under the bytes of their addresses, and
    the key field of every page holds the bytes of its address. *)
Record stored (u : ucm) (h : uthash) (hd : option ptr) (t : ptr) (table : gmap Z ptr) : Prop := Stored {
  sd_items : ∃ I, holds HASH_JEN h hd I t ∧
    ∀ x k, (x, k) ∈ I ↔ ∃ va, table !! va = Some x ∧ k = bytes8 va;
  sd_range va x : table !! va = Some x → 0 ≤ va < 2 ^ 64;
  sd_fields x pg : u_pages u !! x = Some pg →
    fields h !! x = Some (bytes8 (pg_va pg)) ∧ is_Some (handles h !! x);
}.

Section tables.
Context (malloc_ok : Z → bool).
Context (u : ucm) (A : list_id → list ptr) (R : ptr → ring_sel → list ptr) (W : option ptr).
Context (HI : ucm_inv u A R W) (p : ptr) (r : hemem_process) (Hr : u_procs u !! p = Some r).
Context (h : uthash) (hd : option ptr) (t : ptr) (Hst : stored u h hd t (mm_pages (pr_mm r))).

Lemma hash_find_page va :
  0 ≤ va < 2 ^ 64 →
  wp (Uthash.HASH_FIND HASH_JEN hd (bytes8 va) 8) (λ o h', h' = h ∧ o = mm_pages (pr_mm r) !! va) h.
Proof using HI Hr Hst.
  intros Hva. destruct (sd_items _ _ _ _ _ Hst) as (I&Hh&HI').
  assert (∀ x k, (x, k) ∈ I → matches HASH_JEN h (bytes8 va) (x, k) ↔ mm_pages (pr_mm r) !! va = Some x) as Hm.
  { intros x k (va'&Hx&->)%HI'. pose proof (sd_range _ _ _ _ _ Hst _ _ Hx) as Hva'.
    destruct (table_page u A R W HI p r Hr va' x Hx) as (d&i&pg&_&Hpg&_&Hk&_).
    destruct (sd_fields _ _ _ _ _ Hst x pg Hpg) as [Hf _]. unfold matches. simpl. split.
    - intros (_&_&b&Hb&Htk). rewrite Hf in Hb. injection Hb as <-.
      rewrite Hk in Htk. change (take 8 (bytes8 va')) with (bytes8 va') in Htk.
      by rewrite <- (bytes8_inj va' va).
    - intros Hx'. assert (va' = va) as ->; [|by rewrite Hf, Hk; eauto].
      destruct (table_page u A R W HI p r Hr va x Hx') as (d'&i'&pg'&_&Hpg'&_&Hk'&_). congruence. }
  eapply wp_mono; [by apply (wp_hash_find HASH_JEN h hd I t (bytes8 va))|].
  intros o h' [-> Ho]. split; [done|]. destruct o as [x|].
  - destruct Ho as (k&Hin&Hk). symmetry. by apply (Hm x k).
  - destruct (mm_pages (pr_mm r) !! va) as [x|] eqn:Hx; [|done]. exfalso.
    assert ((x, bytes8 va) ∈ I) as Hin by (apply HI'; eauto).
    apply (Ho _ Hin). by apply Hm.
Qed.

(** The hash table knows a page by its address, [t] by its elements. *)
Lemma stored_items I :
  holds HASH_JEN h hd I t → (∀ x k, (x, k) ∈ I ↔ ∃ va, mm_pages (pr_mm r) !! va = Some x ∧ k = bytes8 va) →
  ∀ x, x ∈ I.*1 ↔ ∃ va, mm_pages (pr_mm r) !! va = Some x.
Proof using Type.
  intros Hh HI' x. rewrite list_elem_of_fmap. split.
  - intros ([y k]&->&(va&?&_)%HI'). eauto.
  - intros (va&Hx). exists (x, bytes8 va). split; [done|]. apply HI'. eauto.
Qed.

Lemma table_size I :
  holds HASH_JEN h hd I t → (∀ x, x ∈ I.*1 ↔ ∃ va, mm_pages (pr_mm r) !! va = Some x) →
  Z.of_nat (S (length I)) < 2 ^ 32.
Proof using HI Hr.
  intros [_ Hh] Hin. assert (length I ≤ size (u_pages u))%nat as Hle.
  { destruct I as [|i I]; [simpl; lia|]. destruct Hh as (T&B&Hrep); [done|].
    rewrite <- (length_fmap fst), <- size_dom, <- (size_list_to_set (C := gset ptr) (i :: I).*1)
      by apply Hrep.
    apply subseteq_size. intros x. rewrite elem_of_list_to_set, Hin, elem_of_dom.
    intros (va&(d&j&pg&_&?&_)%(table_page u A R W HI p r Hr)). eauto. }
  pose proof (I_size HI). unfold MAX_PAGES in *. lia.
Qed.

Lemma hash_add_page x pg :
  u_pages u !! x = Some pg → pg_hh pg = None → 0 ≤ pg_va pg < 2 ^ 64 →
  mm_pages (pr_mm r) !! pg_va pg = None →
  (∀ I, holds HASH_JEN h hd I t → granted malloc_ok h I t) →
  wp (Uthash.HASH_ADD HASH_JEN malloc_ok hd 8 x) (λ hd' h', ∃ t', fields h' = fields h ∧
    (∀ y, is_Some (handles h !! y) → is_Some (handles h' !! y)) ∧
    ∃ I, holds HASH_JEN h' hd' I t' ∧
      ∀ y k, (y, k) ∈ I ↔ ∃ va, <[pg_va pg := x]> (mm_pages (pr_mm r)) !! va = Some y ∧ k = bytes8 va) h.
Proof using HI Hr Hst.
  intros Hpg Hhh Hva Hnone Hgr. destruct (sd_items _ _ _ _ _ Hst) as (I&Hh&HI').
  pose proof (stored_items I Hh HI') as Hin.
  destruct (sd_fields _ _ _ _ _ Hst x pg Hpg) as [Hf [hx Hhx]].
  eapply wp_mono; [eapply (wp_hash_add HASH_JEN malloc_ok h hd I t x hx); try done|].
  - rewrite Hin. intros (va&Hx).
    destruct (pi_pages _ _ _ _ _ _ (I_proc HI Hr) _ _ Hx) as [_ (pg'&?&?)]. congruence.
  - by eapply table_size.
  - by apply Hgr.
  - intros hd' h' (t'&Hh'&Hfr&_). exists t'. split; [apply Hfr|]. split; [apply Hfr|].
    eexists. split; [exact Hh'|]. change (take (Z.to_nat 8) (bytes8 (pg_va pg))) with (bytes8 (pg_va pg)).
    intros y k. rewrite elem_of_app, list_elem_of_singleton, HI'. setoid_rewrite lookup_insert_Some.
    split.
    + intros [(va&?&?)|[= -> ->]]; [|eauto]. exists va. split; [|done]. right. split; [|done]. congruence.
    + intros (va&[[<- <-]|[? ?]]&->); [by right|left; eauto].
Qed.

Lemma hash_delete_page x pg va :
  u_pages u !! x = Some pg → pg_hh pg = Some va → mm_pages (pr_mm r) !! va = Some x →
  wp (Uthash.HASH_DELETE hd x) (λ hd' h', ∃ t', fields h' = fields h ∧
    (∀ y, is_Some (handles h !! y) → is_Some (handles h' !! y)) ∧
    ∃ I, holds HASH_JEN h' hd' I t' ∧
      ∀ y k, (y, k) ∈ I ↔ ∃ va', delete va (mm_pages (pr_mm r)) !! va' = Some y ∧ k = bytes8 va') h.
Proof using HI Hr Hst.
  intros Hpg Hhh Hx. destruct (sd_items _ _ _ _ _ Hst) as (I&Hh&HI').
  assert ((x, bytes8 va) ∈ I) as Hin by (apply HI'; eauto).
  apply list_elem_of_split in Hin as (I1&I2&->).
  assert (NoDup (I1 ++ (x, bytes8 va) :: I2).*1) as Hnd.
  { destruct Hh as [_ Hh]. destruct Hh as (T&B&Hrep); [by destruct I1|]. apply Hrep. }
  eapply wp_mono; [by eapply wp_hash_delete|]. intros hd' h' [Hh' Hfr].
  exists t. split; [apply Hfr|]. split; [apply Hfr|]. exists (I1 ++ I2). split; [done|].
  intros y k. rewrite <- (filter_out I1 I2 x (bytes8 va)), list_elem_of_filter, HI' by done. simpl.
  setoid_rewrite lookup_delete_Some. split.
  - intros [Hne (va'&Hy&->)]. exists va'. split; [|done]. split; [|done]. congruence.
  - intros (va'&[Hne Hy]&->). split; [|eauto]. intros ->.
    destruct (pi_pages _ _ _ _ _ _ (I_proc HI Hr) _ _ Hy) as [_ (pg'&?&?)]. congruence.
Qed.
End tables.

Lemma alter_insert_id {V} (m : gmap ptr V) x v f : m !! x = Some v → alter f x m = <[x := f v]> m.
Proof.
  intros Hx. apply map_eq. intros y. destruct (decide (x = y)) as [->|Hne].
  - by rewrite lookup_alter_eq, lookup_insert_eq, Hx.
  - by rewrite lookup_alter_ne, lookup_insert_ne.
Qed.

(** The state after the links of a page have changed, of which [stored] sees
    the table only. *)
Lemma stored_after u u' h h' hd' t' table x f :
  (∃ I, holds HASH_JEN h' hd' I t' ∧ ∀ y k, (y, k) ∈ I ↔ ∃ va, table !! va = Some y ∧ k = bytes8 va) →
  (∀ va y, table !! va = Some y → 0 ≤ va < 2 ^ 64) →
  (∀ y pg, u_pages u !! y = Some pg → fields h !! y = Some (bytes8 (pg_va pg)) ∧ is_Some (handles h !! y)) →
  fields h' = fields h → (∀ y, is_Some (handles h !! y) → is_Some (handles h' !! y)) →
  u_pages u' = alter f x (u_pages u) → (∀ pg, pg_va (f pg) = pg_va pg) →
  stored u' h' hd' t' table.
Proof.
  intros Hit Hrange Hf Hfields Hdom Hu' Hva. split; [done..|].
  intros y pg. rewrite Hu', Hfields. destruct (decide (x = y)) as [->|Hne].
  - rewrite lookup_alter_eq. intros (pg0&Hpg0&->)%fmap_Some. rewrite Hva.
    destruct (Hf y pg0 Hpg0). split; [done|by apply Hdom].
  - rewrite lookup_alter_ne by done. intros Hy. destruct (Hf y pg Hy). split; [done|by apply Hdom].
Qed.

Lemma find_in_map u A R W p r va :
  ucm_inv u A R W → u_procs u !! p = Some r → mm_find_page p va u = Ok (mm_pages (pr_mm r) !! va) u.
Proof.
  intros HI Hr. assert (wp (mm_find_page p va) (λ o u', o = mm_pages (pr_mm r) !! va ∧ u' = u) u) as Hw
    by (by eapply wp_mm_find_page).
  by apply wp_ok in Hw as (o&u'&?&->&->).
Qed.

(** C30: the hash table of the pages of a process does what the map of Mm.v
    does.  On a state of the manager's invariant, next to a uthash table that
    stores the page table of a process, and as long as the library is granted
    the memory that the next addition may need (that of a table, or of twice
    the buckets of a table of at most [2 ^ 30]): [HASH_FIND] by the bytes of an address
    returns what [mm_find_page] returns, for every address; when a page that
    is in no table is added, or a page of the table is deleted, both succeed
    and the hash table stores the new page table again. *)
Theorem page_tables_are_hash_tables malloc_ok u A R W p r h hd t :
  ucm_inv u A R W → u_procs u !! p = Some r → stored u h hd t (mm_pages (pr_mm r)) →
  (∀ I, holds HASH_JEN h hd I t → granted malloc_ok h I t) →
  (∀ va, 0 ≤ va < 2 ^ 64 → ∃ o,
     Uthash.HASH_FIND HASH_JEN hd (bytes8 va) 8 h = Ok o h ∧ mm_find_page p va u = Ok o u) ∧
  (∀ x pg, u_pages u !! x = Some pg → pg_hh pg = None → 0 ≤ pg_va pg < 2 ^ 64 →
     mm_pages (pr_mm r) !! pg_va pg = None → ∃ hd' h' t' u' r',
     Uthash.HASH_ADD HASH_JEN malloc_ok hd 8 x h = Ok hd' h' ∧ add_to_pages p x u = Ok tt u' ∧
     u_procs u' !! p = Some r' ∧ stored u' h' hd' t' (mm_pages (pr_mm r'))) ∧
  (∀ x pg va, u_pages u !! x = Some pg → pg_hh pg = Some va → mm_pages (pr_mm r) !! va = Some x →
     ∃ hd' h' t' u' r',
     Uthash.HASH_DELETE hd x h = Ok hd' h' ∧ delete_from_pages p x u = Ok tt u' ∧
     u_procs u' !! p = Some r' ∧ stored u' h' hd' t' (mm_pages (pr_mm r'))).
Proof.
  intros HI Hr Hst Hgr. split_and!.
  - intros va Hva.
    destruct (proj1 (wp_ok _ _ _) (hash_find_page u A R W HI p r Hr h hd t Hst va Hva)) as (o&h'&Ho&->&->).
    exists (mm_pages (pr_mm r) !! va). split; [done|].
    by eapply find_in_map.
  - intros x pg Hpg Hhh Hva Hnone.
    destruct (proj1 (wp_ok _ _ _) (hash_add_page malloc_ok u A R W HI p r Hr h hd t Hst x pg Hpg Hhh Hva Hnone Hgr))
      as (hd'&h'&Ho&t'&Hf&Hdom&Hit).
    assert (wp (add_to_pages p x) (λ _ u', ∃ r', u_procs u' !! p = Some r' ∧
      mm_pages (pr_mm r') = <[pg_va pg := x]> (mm_pages (pr_mm r)) ∧
      u_pages u' = alter (λ pg, pg <| pg_hh := Some (pg_va pg) |>) x (u_pages u)) u) as Hw.
    { unfold add_to_pages. do 4 ucm_step. wp_step. apply wp_HASH_ADD; [done..|].
      unfold set_mm, set_proc, set_page. wp_step. wp_step; [done|]. eapply wp_store; [by rec_simpl|]. rec_simpl.
      eexists. split_and!; [apply lookup_insert_eq|by rec_simpl|].
      by rewrite (alter_insert_id _ _ _ _ Hpg). }
    apply wp_ok in Hw as ([]&u'&Hu&r'&Hr'&Htab&Hpages). exists hd', h', t', u', r'. split_and!; [done..|].
    rewrite Htab. eapply (stored_after u u' h); try done; [|apply Hst].
    intros va y [[<- <-]|[_ Hy]]%lookup_insert_Some; [done|by eapply sd_range].
  - intros x pg va Hpg Hhh Hx.
    destruct (proj1 (wp_ok _ _ _) (hash_delete_page u A R W HI p r Hr h hd t Hst x pg va Hpg Hhh Hx))
      as (hd'&h'&Ho&t'&Hf&Hdom&Hit).
    assert (wp (delete_from_pages p x) (λ _ u', ∃ r', u_procs u' !! p = Some r' ∧
      mm_pages (pr_mm r') = delete va (mm_pages (pr_mm r)) ∧
      u_pages u' = alter (λ pg, pg <| pg_hh := None |>) x (u_pages u)) u) as Hw.
    { unfold delete_from_pages. do 4 ucm_step. wp_step. eapply wp_HASH_DELETE; [done..|].
      unfold set_mm, set_proc, set_page. wp_step. wp_step; [done|]. eapply wp_store; [by rec_simpl|]. rec_simpl.
      eexists. split_and!; [apply lookup_insert_eq|by rec_simpl|].
      by rewrite (alter_insert_id _ _ _ _ Hpg). }
    apply wp_ok in Hw as ([]&u'&Hu&r'&Hr'&Htab&Hpages). exists hd', h', t', u', r'. split_and!; [done..|].
    rewrite Htab. eapply (stored_after u u' h); try done; [|apply Hst].
    intros va' y [_ Hy]%lookup_delete_Some. by eapply sd_range.
Qed.

(** ** An instance *)

(** The handles of the pages before they are in any table. *)
Definition unlinked : UT_hash_handle := UTHashHandle None None None None None None 0 0.
Definition unhashed (u : ucm) : uthash :=
  Uthash ((λ _, unlinked) <$> u_pages u) ((λ pg, bytes8 (pg_va pg)) <$> u_pages u) ∅.

(** A table of one page. *)
Lemma stored_singleton malloc_ok u va x pg :
  u_pages u !! x = Some pg → pg_va pg = va → 0 ≤ va < 2 ^ 64 →
  malloc_ok sizeof_table = true → malloc_ok (HASH_INITIAL_NUM_BUCKETS * sizeof_bucket) = true →
  wp (Uthash.HASH_ADD HASH_JEN malloc_ok None 8 x) (λ hd h, ∃ t, stored u h hd t {[va := x]}) (unhashed u).
Proof.
  intros Hpg <- Hva Hm1 Hm2. eapply wp_mono.
  - apply (wp_hash_add HASH_JEN malloc_ok (unhashed u) None [] 1%positive x unlinked (bytes8 (pg_va pg)) 8);
      [by split|apply not_elem_of_nil|..|split; simpl; lia|lia|simpl; lia|done];
      unfold unhashed; cbn [handles fields]; by rewrite lookup_fmap, Hpg.
  - intros hd h (t&Hh&Hfr&_). exists t. split.
    + eexists. split; [exact Hh|]. intros y k. change (take (Z.to_nat 8) (bytes8 (pg_va pg))) with (bytes8 (pg_va pg)).
      cbn [app]. rewrite list_elem_of_singleton. setoid_rewrite lookup_singleton_Some. split; [intros [= -> ->]; eauto|]. by intros (va&[<- <-]&->).
    + by intros va y [<- <-]%lookup_singleton_Some.
    + intros y pg' Hy. rewrite (fr_fields _ _ _ _ Hfr). cbn [unhashed fields]. rewrite lookup_fmap, Hy. split; [done|].
      apply (fr_dom _ _ _ _ Hfr). cbn [unhashed handles]. rewrite lookup_fmap, Hy. by eexists.
Qed.

(** Every table is far from the size at which it can no longer double. *)
Definition can_double (h : uthash) : bool :=
  forallb (λ '(_, T), num_buckets T <=? 2 ^ 30) (map_to_list (tables h)).

Lemma can_double_granted h hd I t : can_double h = true → holds HASH_JEN h hd I t → granted always h I t.
Proof.
  intros Hd _. destruct I as [|i I]; [done|]. intros T HT. split; [done|].
  unfold can_double in Hd. rewrite forallb_forall in Hd.
  specialize (Hd (t, T)). apply Z.leb_le, Hd, list_elem_of_In, elem_of_map_to_list, HT.
Qed.

(** The second application of the machine has one page, the fourth; the fifth
    page is free. *)
Lemma page_tables_are_hash_tables_witness :
  let u := sv_ucm (machine two_apps) in
  ∃ hd h, Uthash.HASH_ADD HASH_JEN always None 8 4%positive (unhashed u) = Ok hd h ∧
    Uthash.HASH_FIND HASH_JEN hd (bytes8 (mb 100)) 8 h = Ok (Some 4%positive) h ∧
    Uthash.HASH_FIND HASH_JEN hd (bytes8 (mb 101)) 8 h = Ok None h ∧
    (∃ hd' h' t' u' r', Uthash.HASH_ADD HASH_JEN always hd 8 5%positive h = Ok hd' h' ∧
      add_to_pages 2%positive 5%positive u = Ok tt u' ∧
      u_procs u' !! 2%positive = Some r' ∧ stored u' h' hd' t' (mm_pages (pr_mm r'))) ∧
    (∃ hd' h' t' u' r', Uthash.HASH_DELETE hd 4%positive h = Ok hd' h' ∧
      delete_from_pages 2%positive 4%positive u = Ok tt u' ∧
      u_procs u' !! 2%positive = Some r' ∧ stored u' h' hd' t' (mm_pages (pr_mm r'))).
Proof.
  pose proof (machine_ok _ two_apps_run) as Hok. intros u.
  assert ((λ r, mm_pages (pr_mm r)) <$> u_procs u !! 2%positive = Some {[mb 100 := 4%positive]}) as Ht
    by (vm_compute; reflexivity).
  assert ((λ pg, (pg_hh pg, pg_va pg)) <$> u_pages u !! 4%positive = Some (Some (mb 100), mb 100)) as H4
    by (vm_compute; reflexivity).
  assert ((λ pg, (pg_hh pg, pg_va pg)) <$> u_pages u !! 5%positive = Some (None, 0)) as H5
    by (vm_compute; reflexivity).
  assert (match Uthash.HASH_ADD HASH_JEN always None 8 4%positive (unhashed u) with
          | Ok _ h => can_double h | Err _ => false end = true) as Hc by (vm_compute; reflexivity).
  destruct Hok as (L&A&R&Hok). apply sv_sound in Hok as [HI _ _]. change (ucm_inv u A R None) in HI. clearbody u.
  apply fmap_Some in Ht as (r&Hr&Ht), H4 as (pg4&H4&Hp4), H5 as (pg5&H5&Hp5).
  injection Hp4 as Hh4 Hv4. injection Hp5 as Hh5 Hv5.
  assert (∀ n, 0 ≤ n ≤ 200 → 0 ≤ mb n < 2 ^ 64) as Hmb by (unfold mb, HUGEPAGE_SIZE; lia).
  destruct (proj1 (wp_ok _ _ _) (stored_singleton always u (mb 100) 4%positive pg4 H4 (eq_sym Hv4)
    (Hmb 100 ltac:(lia)) eq_refl eq_refl)) as (hd&h&Hadd&t&Hst).
  rewrite Hadd in Hc. exists hd, h. split; [done|]. rewrite Ht in Hst.
  destruct (page_tables_are_hash_tables always u A R None 2%positive r h hd t HI Hr Hst
    (λ I, can_double_granted h hd I t Hc)) as (Hfind&Hnew&Hdel).
  assert (∀ n o, 0 ≤ n ≤ 200 → mm_pages (pr_mm r) !! mb n = o →
    Uthash.HASH_FIND HASH_JEN hd (bytes8 (mb n)) 8 h = Ok o h) as Hfind'.
  { intros n o Hn Ho. destruct (Hfind (mb n) (Hmb n Hn)) as (o'&Hf&Hm). rewrite (find_in_map _ _ _ _ _ _ _ HI Hr) in Hm. congruence. }
  split_and!; [apply Hfind'; [lia|by rewrite <- Ht]..| |].
  - apply (Hnew _ _ H5 (eq_sym Hh5)); rewrite <- Hv5; [lia|by rewrite <- Ht].
  - apply (Hdel _ _ _ H4 (eq_sym Hh4)). by rewrite <- Ht.
Defined.
