(* ===== verification/Jenkins.v ===== *)
(** * The hash of keys (src/apps/flexkvs/server/jenkins_hash.c)

    Bob Jenkins's hash of a string of bytes, for a little-endian machine.  The
    code reads the key in words of 32 bits, of 16 bits or byte by byte,
    according to the alignment of its address, and beyond its end to the next
    boundary of a word.  [mem i] is the byte at the distance [i] from the start
    of the key. *)

From S2P Require Import Prelude.

Definition rot (x k : Z) : Z := Z.lxor (u32 (Z.shiftl x k)) (Z.shiftr x (32 - k)).

(** [x -= y; x ^= rot(y, k); y += z;] *)
Definition mix_step (k : Z) (v : Z * Z * Z) : Z * Z * Z :=
  let '(x, y, z) := v in (Z.lxor (u32 (x - y)) (rot y k), u32 (y + z), z).

Definition mix (v : Z * Z * Z) : Z * Z * Z :=
  let '(a, b, c) := v in
  let '(a, c, b) := mix_step 4 (a, c, b) in
  let '(b, a, c) := mix_step 6 (b, a, c) in
  let '(c, b, a) := mix_step 8 (c, b, a) in
  let '(a, c, b) := mix_step 16 (a, c, b) in
  let '(b, a, c) := mix_step 19 (b, a, c) in
  let '(c, b, a) := mix_step 4 (c, b, a) in
  (a, b, c).

(** [x ^= y; x -= rot(y, k);] *)
Definition final_step (x y k : Z) : Z := u32 (Z.lxor x y - rot y k).

Definition final (v : Z * Z * Z) : Z :=
  let '(a, b, c) := v in
  let c := final_step c b 14 in
  let a := final_step a c 11 in
  let b := final_step b a 25 in
  let c := final_step c b 16 in
  let a := final_step a c 4 in
  let b := final_step b a 14 in
  final_step c b 24.

Section reads.
Context (mem : Z → Z).

(** Loads at the byte [i], on a little-endian machine. *)
Definition load16 (i : Z) : Z := mem i + Z.shiftl (mem (i + 1)) 8.
Definition load32 (i : Z) : Z := load16 i + Z.shiftl (load16 (i + 2)) 16.

(** *** Words of 32 bits *)
Fixpoint blocks32 (fuel : nat) (k length : Z) (v : Z * Z * Z) : Z * Z * (Z * Z * Z) :=
  match fuel with
  | O => (k, length, v)
  | S fuel =>
      if 12 <? length then
        let '(a, b, c) := v in
        blocks32 fuel (k + 12) (length - 12)
          (mix (u32 (a + load32 k), u32 (b + load32 (k + 4)), u32 (c + load32 (k + 8))))
      else (k, length, v)
  end.

Definition last32 (k length : Z) (v : Z * Z * Z) : Z :=
  let '(a, b, c) := v in
  let k0 := load32 k in
  let k1 := load32 (k + 4) in
  let k2 := load32 (k + 8) in
  match length with
  | 12 => final (u32 (a + k0), u32 (b + k1), u32 (c + k2))
  | 11 => final (u32 (a + k0), u32 (b + k1), u32 (c + Z.land k2 0xffffff))
  | 10 => final (u32 (a + k0), u32 (b + k1), u32 (c + Z.land k2 0xffff))
  | 9 => final (u32 (a + k0), u32 (b + k1), u32 (c + Z.land k2 0xff))
  | 8 => final (u32 (a + k0), u32 (b + k1), c)
  | 7 => final (u32 (a + k0), u32 (b + Z.land k1 0xffffff), c)
  | 6 => final (u32 (a + k0), u32 (b + Z.land k1 0xffff), c)
  | 5 => final (u32 (a + k0), u32 (b + Z.land k1 0xff), c)
  | 4 => final (u32 (a + k0), b, c)
  | 3 => final (u32 (a + Z.land k0 0xffffff), b, c)
  | 2 => final (u32 (a + Z.land k0 0xffff), b, c)
  | 1 => final (u32 (a + Z.land k0 0xff), b, c)
  | 0 => c
  | _ => final v
  end.

(** *** Words of 16 bits *)
Definition pair16 (i : Z) : Z := load16 i + Z.shiftl (load16 (i + 2)) 16.

Fixpoint blocks16 (fuel : nat) (k length : Z) (v : Z * Z * Z) : Z * Z * (Z * Z * Z) :=
  match fuel with
  | O => (k, length, v)
  | S fuel =>
      if 12 <? length then
        let '(a, b, c) := v in
        blocks16 fuel (k + 12) (length - 12)
          (mix (u32 (a + pair16 k), u32 (b + pair16 (k + 4)), u32 (c + pair16 (k + 8))))
      else (k, length, v)
  end.

Definition last16 (k length : Z) (v : Z * Z * Z) : Z :=
  let '(a, b, c) := v in
  match length with
  | 12 => final (u32 (a + pair16 k), u32 (b + pair16 (k + 4)), u32 (c + pair16 (k + 8)))
  | 11 => final (u32 (a + pair16 k), u32 (b + pair16 (k + 4)),
                 u32 (u32 (c + Z.shiftl (mem (k + 10)) 16) + load16 (k + 8)))
  | 10 => final (u32 (a + pair16 k), u32 (b + pair16 (k + 4)), u32 (c + load16 (k + 8)))
  | 9 => final (u32 (a + pair16 k), u32 (b + pair16 (k + 4)), u32 (c + mem (k + 8)))
  | 8 => final (u32 (a + pair16 k), u32 (b + pair16 (k + 4)), c)
  | 7 => final (u32 (a + pair16 k), u32 (u32 (b + Z.shiftl (mem (k + 6)) 16) + load16 (k + 4)), c)
  | 6 => final (u32 (a + pair16 k), u32 (b + load16 (k + 4)), c)
  | 5 => final (u32 (a + pair16 k), u32 (b + mem (k + 4)), c)
  | 4 => final (u32 (a + pair16 k), b, c)
  | 3 => final (u32 (u32 (a + Z.shiftl (mem (k + 2)) 16) + load16 k), b, c)
  | 2 => final (u32 (a + load16 k), b, c)
  | 1 => final (u32 (a + mem k), b, c)
  | 0 => c
  | _ => final v
  end.

(** *** Bytes *)

(** [x += k[i]; x += k[i + 1] << 8; x += k[i + 2] << 16; x += k[i + 3] << 24;] *)
Definition add_bytes (x i : Z) : Z :=
  u32 (u32 (u32 (u32 (x + mem i) + Z.shiftl (mem (i + 1)) 8) + Z.shiftl (mem (i + 2)) 16)
    + Z.shiftl (mem (i + 3)) 24).

Fixpoint blocks8 (fuel : nat) (k length : Z) (v : Z * Z * Z) : Z * Z * (Z * Z * Z) :=
  match fuel with
  | O => (k, length, v)
  | S fuel =>
      if 12 <? length then
        let '(a, b, c) := v in
        blocks8 fuel (k + 12) (length - 12)
          (mix (add_bytes a k, add_bytes b (k + 4), add_bytes c (k + 8)))
      else (k, length, v)
  end.

(** The cases fall through from the last byte to the first: the addition of
    the case [i], of the byte at [j]. *)
Definition fall (length i : Z) (x j s : Z) : Z :=
  if i <=? length then u32 (x + Z.shiftl (mem j) s) else x.

Definition last8 (k length : Z) (v : Z * Z * Z) : Z :=
  let '(a, b, c) := v in
  if length =? 0 then c
  else
    let c := fall length 12 c (k + 11) 24 in
    let c := fall length 11 c (k + 10) 16 in
    let c := fall length 10 c (k + 9) 8 in
    let c := fall length 9 c (k + 8) 0 in
    let b := fall length 8 b (k + 7) 24 in
    let b := fall length 7 b (k + 6) 16 in
    let b := fall length 6 b (k + 5) 8 in
    let b := fall length 5 b (k + 4) 0 in
    let a := fall length 4 a (k + 3) 24 in
    let a := fall length 3 a (k + 2) 16 in
    let a := fall length 2 a (k + 1) 8 in
    let a := fall length 1 a k 0 in
    final (a, b, c).

Definition jenkins_hash (key length : Z) : Z :=
  let a := u32 (u32 (0xdeadbeef + u32 length) + 0) in
  let n := Z.to_nat length in
  if Z.land key 3 =? 0 then
    let '(k, length, v) := blocks32 n 0 length (a, a, a) in last32 k length v
  else if Z.land key 1 =? 0 then
    let '(k, length, v) := blocks16 n 0 length (a, a, a) in last16 k length v
  else
    let '(k, length, v) := blocks8 n 0 length (a, a, a) in last8 k length v.
End reads.

(** ** The hash is a function of the bytes of the key *)
Section bytes.
Context (mem : Z → Z) (Hmem : ∀ i, 0 ≤ mem i < 256).

Lemma u32_add_l x y : u32 (u32 x + y) = u32 (x + y).
Proof using Type. unfold u32. by rewrite Zplus_mod_idemp_l. Qed.

Ltac u32_flat := repeat first [rewrite u32_add_l | rewrite <- Z.add_assoc].

Lemma add_load32 x i : u32 (x + load32 mem i) = add_bytes mem x i.
Proof using Type.
  unfold add_bytes, load32, load16. u32_flat. rewrite !Z.shiftl_mul_pow2 by lia.
  replace (i + (2 + 1)) with (i + 3) by lia. apply (f_equal u32). lia.
Qed.

Lemma add_pair16 x i : u32 (x + pair16 mem i) = add_bytes mem x i.
Proof using Type. apply add_load32. Qed.

Lemma mask8 i : Z.land (load32 mem i) 0xff = mem i.
Proof using Hmem.
  change 0xff with (Z.ones 8). rewrite Z.land_ones by lia. unfold load32, load16.
  rewrite !Z.shiftl_mul_pow2 by lia. pose proof (Hmem i).
  symmetry. apply (Z.mod_unique_pos _ _ (mem (i + 1) + (mem (i + 2) + mem (i + 2 + 1) * 2 ^ 8) * 2 ^ 8)); lia.
Qed.

Lemma mask16 i : Z.land (load32 mem i) 0xffff = load16 mem i.
Proof using Hmem.
  change 0xffff with (Z.ones 16). rewrite Z.land_ones by lia. unfold load32, load16.
  rewrite !Z.shiftl_mul_pow2 by lia. pose proof (Hmem i). pose proof (Hmem (i + 1)).
  symmetry. apply (Z.mod_unique_pos _ _ (mem (i + 2) + mem (i + 2 + 1) * 2 ^ 8)); lia.
Qed.

Lemma mask24 i : Z.land (load32 mem i) 0xffffff = load16 mem i + Z.shiftl (mem (i + 2)) 16.
Proof using Hmem.
  change 0xffffff with (Z.ones 24). rewrite Z.land_ones by lia. unfold load32, load16.
  rewrite !Z.shiftl_mul_pow2 by lia.
  pose proof (Hmem i). pose proof (Hmem (i + 1)). pose proof (Hmem (i + 2)).
  symmetry. apply (Z.mod_unique_pos _ _ (mem (i + 2 + 1))); lia.
Qed.

Lemma blocks32_bytes fuel k n v : blocks32 mem fuel k n v = blocks8 mem fuel k n v.
Proof using Type.
  revert k n v. induction fuel as [|fuel IH]; intros k n [[a b] c]; [done|]. simpl.
  by rewrite IH, !add_load32.
Qed.

Lemma blocks16_bytes fuel k n v : blocks16 mem fuel k n v = blocks8 mem fuel k n v.
Proof using Type.
  revert k n v. induction fuel as [|fuel IH]; intros k n [[a b] c]; [done|]. simpl.
  by rewrite IH, !add_pair16.
Qed.

(** A length of at most twelve, one by one. *)
Ltac by_length n :=
  assert (n = 0 ∨ n = 1 ∨ n = 2 ∨ n = 3 ∨ n = 4 ∨ n = 5 ∨ n = 6 ∨ n = 7 ∨ n = 8 ∨ n = 9 ∨ n = 10 ∨
          n = 11 ∨ n = 12) as Hn by lia; destruct_or! Hn; subst n.

(** Two sums of bytes, shifted, in any order. *)
Ltac same_sum :=
  unfold load32, pair16, load16; u32_flat; rewrite ?Z.shiftl_mul_pow2 by lia;
  repeat match goal with |- context [Z.pos ?a + Z.pos ?b] =>
    let c := eval vm_compute in (Z.pos a + Z.pos b) in change (Z.pos a + Z.pos b) with c
  end;
  apply (f_equal u32); lia.

Lemma last32_bytes k n v : 0 ≤ n ≤ 12 → last32 mem k n v = last8 mem k n v.
Proof using Hmem.
  intros Hn'. destruct v as [[a b] c]. unfold last32, last8, fall. rewrite !mask8, !mask16, !mask24.
  by_length n; cbn -[u32 load32 load16 final Z.add Z.shiftl]; try done.
  all: apply (f_equal final); apply (f_equal2 pair); [apply (f_equal2 pair)|]; try done; same_sum.
Qed.

Lemma last16_bytes k n v : 0 ≤ n ≤ 12 → last16 mem k n v = last8 mem k n v.
Proof using Hmem.
  intros Hn'. destruct v as [[a b] c]. unfold last16, last8, fall.
  by_length n; cbn -[u32 pair16 load16 final Z.add Z.shiftl]; try done.
  all: apply (f_equal final); apply (f_equal2 pair); [apply (f_equal2 pair)|]; try done; same_sum.
Qed.

(** What is left after the blocks is at most one block. *)
Lemma blocks8_rest fuel k n v k' n' v' :
  blocks8 mem fuel k n v = (k', n', v') → 0 ≤ n ≤ Z.of_nat fuel →
  0 ≤ n' ≤ 12 ∧ k ≤ k' ∧ k' + n' = k + n.
Proof using Type.
  revert k n v. induction fuel as [|fuel IH]; intros k n [[a b] c]; simpl.
  - intros [= <- <- _]. lia.
  - destruct (Z.ltb_spec 12 n).
    + intros Hb Hn. apply IH in Hb; lia.
    + intros [= <- <- _]. lia.
Qed.

Lemma jenkins_by_bytes key n :
  0 ≤ n →
  jenkins_hash mem key n =
    let a := u32 (u32 (0xdeadbeef + u32 n) + 0) in
    let '(k, n, v) := blocks8 mem (Z.to_nat n) 0 n (a, a, a) in last8 mem k n v.
Proof using Hmem.
  intros Hn. unfold jenkins_hash. rewrite blocks32_bytes, blocks16_bytes.
  destruct (blocks8 mem _ _ _ _) as [[k' n'] v'] eqn:Hb.
  apply blocks8_rest in Hb as [Hn' _]; [|lia]. rewrite last32_bytes, last16_bytes by done.
  by repeat case_match.
Qed.
End bytes.

Section local.
Context (mem mem' : Z → Z) (len : Z) (Heq : ∀ i, 0 ≤ i < len → mem i = mem' i).

Lemma blocks8_local fuel k n v :
  0 ≤ k → k + n ≤ len → blocks8 mem fuel k n v = blocks8 mem' fuel k n v.
Proof using Heq.
  revert k n v. induction fuel as [|fuel IH]; intros k n [[a b] c] Hk Hn; [done|]. simpl.
  destruct (Z.ltb_spec 12 n); [|done]. rewrite IH by lia. unfold add_bytes.
  by rewrite !Heq by lia.
Qed.

Lemma fall_local n i x j s : 0 ≤ j → (i ≤ n → j < len) → fall mem n i x j s = fall mem' n i x j s.
Proof using Heq. intros ??. unfold fall. destruct (Z.leb_spec i n); [|done]. rewrite Heq; [done|lia]. Qed.

Lemma last8_local k n v : 0 ≤ k → k + n ≤ len → last8 mem k n v = last8 mem' k n v.
Proof using Heq.
  intros Hk Hn. destruct v as [[a b] c]. unfold last8.
  rewrite !(fall_local n) by lia. done.
Qed.
End local.

Lemma jenkins_local mem mem' key key' n :
  (∀ i, 0 ≤ mem i < 256) → (∀ i, 0 ≤ mem' i < 256) → 0 ≤ n →
  (∀ i, 0 ≤ i < n → mem i = mem' i) →
  jenkins_hash mem key n = jenkins_hash mem' key' n.
Proof.
  intros Hm Hm' Hn Heq. rewrite !jenkins_by_bytes by done. cbv zeta.
  rewrite (blocks8_local mem mem' n) by (done || lia).
  destruct (blocks8 mem' _ _ _ _) as [[k' n'] v'] eqn:Hb.
  apply blocks8_rest in Hb as (?&?&?); [|lia]. by apply (last8_local _ _ n); [|lia..].
Qed.

(** C32: the hash of a key is a function of its bytes.  It depends neither on
    the alignment of the address of the key, though the code reads words of 32
    bits, words of 16 bits or bytes according to it, nor on the bytes behind
    the key, though the code reads them. *)
Theorem jenkins_hash_of_bytes mem mem' key key' n :
  (∀ i, 0 ≤ mem i < 256) → (∀ i, 0 ≤ mem' i < 256) → 0 ≤ n →
  (∀ i, 0 ≤ i < n → mem i = mem' i) →
  jenkins_hash mem key n = jenkins_hash mem' key' n.
Proof. apply jenkins_local. Qed.

(** A key of fourteen bytes at three alignments. *)
Definition fox (i : Z) : Z := if i <? 14 then (37 * i + 11) mod 256 else 0.
Definition fox' (i : Z) : Z := if i <? 14 then (37 * i + 11) mod 256 else 255.

Lemma jenkins_hash_of_bytes_witness :
  jenkins_hash fox 0x1000 14 = 3257959120 ∧ jenkins_hash fox 0x1000 14 = jenkins_hash fox' 0x1002 14 ∧
  jenkins_hash fox 0x1000 14 = jenkins_hash fox' 0x1003 14.
Proof.
  assert (∀ x, 0 ≤ fox x < 256 ∧ 0 ≤ fox' x < 256) as Hb.
  { intros x. unfold fox, fox'. pose proof (Z.mod_pos_bound (37 * x + 11) 256). destruct (x <? 14); lia. }
  assert (∀ x, 0 ≤ x < 14 → fox x = fox' x) as Heq.
  { intros x Hx. unfold fox, fox'. destruct (Z.ltb_spec x 14); [done|lia]. }
  split; [vm_compute; reflexivity|].
  split; (apply jenkins_hash_of_bytes; [apply Hb|apply Hb|lia|exact Heq]).
Defined.
