(* ===== verification/Kvs.v ===== *)
(** * The key-value store (src/apps/flexkvs)

    FlexKVS keeps key-value pairs as items in a log: memory is divided into
    segments, each worker thread appends to a segment of its own (ialloc.c),
    and a hash table of buckets with five direct slots and a chain finds the
    items (hashtable.c).  Items are counted references (iokvs.h).  A
    maintenance thread gives segments back whose items are all dead, and queues
    the live items of mostly dead segments; the worker copies them to the end
    of its log (bench/main.c).

    [mem] holds the items by address, with the bytes that follow the header of
    each.  An access to a field or a byte outside an item is an error.  When an
    item is allocated, what was in its place before is gone.  A step of the
    model is an operation of one thread; a lock that is held when it is taken
    is [SelfDeadlock].  Unlocking sets a spin lock free, whether or not it is
    held, as the C library implements it. *)

From S2P Require Import Prelude F64 Jenkins.

Abbreviation hptr := positive.

Record item := Item {
  it_next : option Z;
  it_hv : Z;
  it_vallen : Z;
  it_refcount : Z;
  it_keylen : Z;
  it_data : list Z;
}.

Record hash_bucket := HashBucket {
  b_items : list (option Z);
  b_hashes : list Z;
  b_lock : bool;
}.

Record segment_header := SegmentHeader {
  sg_data : Z;
  sg_next : option hptr;
  sg_offset : Z;
  sg_freed : Z;
  sg_size : Z;
  sg_flags : Z;
}.

Record item_allocator := ItemAllocator {
  ia_reserved : option hptr;
  cleanup_queue : list (option Z);
  ia_cur : option hptr;
  cq_head : Z;
  cleanup_count : Z;
  ia_oldest : option hptr;
  cq_tail : Z;
  ia_cleaning : option hptr;
  clean_offset : Z;
}.

Record kvs := Kvs {
  mem : gmap Z item;
  buckets : gmap Z hash_bucket;
  nbuckets : Z;
  headers : gmap hptr segment_header;
  free_segments : option hptr;
  segalloc_lock : bool;
  seg_headers : gmap Z hptr;
  seg_alloced : Z;
  allocs : gmap positive item_allocator;
}.

#[global] Instance eta_item : Eta item :=
  λ r, Item (it_next r) (it_hv r) (it_vallen r) (it_refcount r) (it_keylen r) (it_data r).
#[global] Instance set_it_next : Setter it_next := ltac:(mk_setter).
#[global] Instance set_it_hv : Setter it_hv := ltac:(mk_setter).
#[global] Instance set_it_vallen : Setter it_vallen := ltac:(mk_setter).
#[global] Instance set_it_refcount : Setter it_refcount := ltac:(mk_setter).
#[global] Instance set_it_keylen : Setter it_keylen := ltac:(mk_setter).
#[global] Instance set_it_data : Setter it_data := ltac:(mk_setter).
#[global] Instance eta_bucket : Eta hash_bucket := λ r, HashBucket (b_items r) (b_hashes r) (b_lock r).
#[global] Instance set_b_items : Setter b_items := ltac:(mk_setter).
#[global] Instance set_b_hashes : Setter b_hashes := ltac:(mk_setter).
#[global] Instance set_b_lock : Setter b_lock := ltac:(mk_setter).
#[global] Instance eta_segment_header : Eta segment_header :=
  λ r, SegmentHeader (sg_data r) (sg_next r) (sg_offset r) (sg_freed r) (sg_size r) (sg_flags r).
#[global] Instance set_sg_next : Setter sg_next := ltac:(mk_setter).
#[global] Instance set_sg_offset : Setter sg_offset := ltac:(mk_setter).
#[global] Instance set_sg_freed : Setter sg_freed := ltac:(mk_setter).
#[global] Instance set_sg_flags : Setter sg_flags := ltac:(mk_setter).
#[global] Instance eta_item_allocator : Eta item_allocator :=
  λ r, ItemAllocator (ia_reserved r) (cleanup_queue r) (ia_cur r) (cq_head r) (cleanup_count r)
         (ia_oldest r) (cq_tail r) (ia_cleaning r) (clean_offset r).
#[global] Instance set_ia_reserved : Setter ia_reserved := ltac:(mk_setter).
#[global] Instance set_cleanup_queue : Setter cleanup_queue := ltac:(mk_setter).
#[global] Instance set_ia_cur : Setter ia_cur := ltac:(mk_setter).
#[global] Instance set_cq_head : Setter cq_head := ltac:(mk_setter).
#[global] Instance set_cleanup_count : Setter cleanup_count := ltac:(mk_setter).
#[global] Instance set_ia_oldest : Setter ia_oldest := ltac:(mk_setter).
#[global] Instance set_cq_tail : Setter cq_tail := ltac:(mk_setter).
#[global] Instance set_ia_cleaning : Setter ia_cleaning := ltac:(mk_setter).
#[global] Instance set_clean_offset : Setter clean_offset := ltac:(mk_setter).
#[global] Instance eta_kvs : Eta kvs :=
  λ r, Kvs (mem r) (buckets r) (nbuckets r) (headers r) (free_segments r) (segalloc_lock r)
         (seg_headers r) (seg_alloced r) (allocs r).
#[global] Instance set_mem : Setter mem := ltac:(mk_setter).
#[global] Instance set_buckets : Setter buckets := ltac:(mk_setter).
#[global] Instance set_nbuckets : Setter nbuckets := ltac:(mk_setter).
#[global] Instance set_headers : Setter headers := ltac:(mk_setter).
#[global] Instance set_free_segments : Setter free_segments := ltac:(mk_setter).
#[global] Instance set_segalloc_lock : Setter segalloc_lock := ltac:(mk_setter).
#[global] Instance set_seg_headers : Setter seg_headers := ltac:(mk_setter).
#[global] Instance set_seg_alloced : Setter seg_alloced := ltac:(mk_setter).
#[global] Instance set_allocs : Setter allocs := ltac:(mk_setter).

Definition u16 (x : Z) : Z := x mod 2 ^ 16.
Definition sizeof_item : Z := 24.
Definition BUCKET_NITEMS : nat := 5.
Definition SF_INACTIVE : Z := 1.
Definition SF_CLEANED : Z := 4.

(** ** Items (server/iokvs.h) *)

(** The [n] bytes at the distance [off] from the end of the header. *)
Definition read_data (a off n : Z) : M kvs (list Z) :=
  it ← deref mem a;
  if off + n <=? Z.of_nat (length (it_data it))
  then mret (take (Z.to_nat n) (drop (Z.to_nat off) (it_data it)))
  else fail (Undefined "read outside an item").

Definition overwrite {A} (off : nat) (bs l : list A) : list A :=
  take off l ++ bs ++ drop (off + length bs) l.

Definition write_data (a off : Z) (bs : list Z) : M kvs unit :=
  it ← deref mem a;
  if off + Z.of_nat (length bs) <=? Z.of_nat (length (it_data it))
  then store mem a (λ it, it <| it_data ::= overwrite (Z.to_nat off) bs |>)
  else fail (Undefined "write outside an item").

Definition item_totalsz (it : item) : Z := u64 (u64 (sizeof_item + it_vallen it) + it_keylen it).

Definition item_ref (a : Z) : M kvs unit :=
  store mem a (λ it, it <| it_refcount ::= λ c, u16 (c + 1) |>).

Definition item_tryref (a : Z) : M kvs bool :=
  it ← deref mem a;
  if it_refcount it =? 0 then mret false
  else store mem a (λ it, it <| it_refcount ::= λ c, u16 (c + 1) |>);; mret true.

(** ** Segments and allocators (server/ialloc.c) *)

(** [struct settings], and what the platform provides: where the segments are
    mapped, whether [mprotect] of a segment and [malloc] of its header
    succeed, and what memory contains at first. *)
Class settings := Settings {
  segsize : Z;
  segmaxnum : Z;
  segcqsize : Z;
  clean_ratio : f64;
  valuesize : Z;
}.
Class platform := Platform {
  seg_base : Z;
  mprotect_ok : Z → bool;
  malloc_ok : Z → bool;
  stale : Z → item;
}.

Section store.
Context {cfg : settings} {plt : platform}.

Definition spin_lock : M kvs unit :=
  l ← gets segalloc_lock;
  if l : bool then fail SelfDeadlock else modify (λ s, s <| segalloc_lock := true |>).
Definition spin_unlock : M kvs unit := modify (λ s, s <| segalloc_lock := false |>).

(** The memory of the segments is mapped, and the array of their headers
    cleared, or else the program aborts. *)
Definition ialloc_init (mmap_ok calloc_ok : bool) : M kvs unit :=
  modify (λ s, s <| segalloc_lock := false |> <| free_segments := None |>);;
  modify (λ s, s <| seg_alloced := 0 |>);;
  if mmap_ok then
    if calloc_ok then modify (λ s, s <| seg_headers := ∅ |>)
    else fail (AssertFail "ialloc.c: allocating segment header array failed")
  else fail (AssertFail "ialloc.c: mmap of segments base failed").

Definition init_h (p : hptr) : M kvs (option hptr) :=
  store headers p (λ h, h <| sg_offset := 0 |>);;
  store headers p (λ h, h <| sg_flags := 0 |>);;
  store headers p (λ h, h <| sg_freed := 0 |>);;
  mret (Some p).

(** A segment from the list of free segments. *)
Definition segment_reuse : M kvs (option hptr) :=
  fs ← gets free_segments;
  match fs with
  | None => mret None
  | Some _ =>
      spin_lock;;
      fs ← gets free_segments;
      h ← match fs with
          | None => mret None
          | Some p =>
              h ← deref headers p;
              modify (λ s, s <| free_segments := sg_next h |>);;
              mret (Some p)
          end;
      spin_unlock;;
      mret h
  end.

(** The header that [malloc] returns for the segment [i]. *)
Definition segment_make (i data : Z) : M kvs hptr :=
  p ← gets (λ s, fresh (dom (headers s)));
  modify (λ s, s <| headers ::= <[p := SegmentHeader data None 0 0 (u32 segsize) 0]> |>);;
  modify (λ s, s <| seg_headers ::= <[i := p]> |>);;
  mret p.

Definition segment_alloc : M kvs (option hptr) :=
  h ← segment_reuse;
  match h with
  | Some p => init_h p
  | None =>
      i ← gets seg_alloced;
      if segmaxnum <=? i then spin_unlock;; mret None
      else
        spin_lock;;
        i ← gets seg_alloced;
        if segmaxnum <=? i then spin_unlock;; mret None
        else
          modify (λ s, s <| seg_alloced ::= λ n, u64 (n + 1) |>);;
          spin_unlock;;
          let data := u64 (seg_base + u64 (segsize * i)) in
          if mprotect_ok data then
            if malloc_ok i then
              p ← segment_make i data;
              init_h p
            else mret None
          else mret None
  end.

Definition segment_from_part (data : Z) : M kvs (option hptr) :=
  let i := u64 (data - seg_base) / segsize in
  assert_ "ialloc.c:181" (i <? segmaxnum);;
  gets (λ s, seg_headers s !! i).

Definition segment_free (p : hptr) : M kvs unit :=
  spin_lock;;
  store headers p (λ h, h <| sg_offset := 0 |>);;
  fs ← gets free_segments;
  store headers p (λ h, h <| sg_next := fs |>);;
  modify (λ s, s <| free_segments := Some p |>);;
  spin_unlock.

Definition segment_item_free (p : hptr) (total : Z) : M kvs unit :=
  store headers p (λ h, h <| sg_freed ::= λ n, u32 (n + total) |>).

(** An item of [total] bytes at [a], over what was there. *)
Definition block_size (it : item) : Z := sizeof_item + Z.of_nat (length (it_data it)).
Definition place_item (a total : Z) (f : item → item) : M kvs unit :=
  let it := f (stale a) in
  let it := it <| it_data ::= resize (Z.to_nat (total - sizeof_item)) 0 |> in
  modify (λ s, s <| mem ::= λ m,
    <[a := it]> (filter (λ '(b, it'), b + block_size it' ≤ a ∨ a + total ≤ b) m) |>).

Definition segment_item_alloc (p : hptr) (total : Z) : M kvs (option Z) :=
  h ← deref headers p;
  let it := u64 (sg_data h + sg_offset h) in
  let avail := u32 (sg_size h - sg_offset h) in
  if avail =? 0 then mret None
  else if avail <? total then
    when (sizeof_item <=? avail)
      (place_item it avail (λ i, i <| it_refcount := 0 |>
         <| it_keylen := u16 (avail - sizeof_item) |> <| it_vallen := 0 |>));;
    segment_item_free p avail;;
    store headers p (λ h, h <| sg_offset ::= λ o, u32 (o + avail) |>);;
    mret None
  else
    place_item it total (λ i, i <| it_refcount := 1 |>);;
    store headers p (λ h, h <| sg_offset ::= λ o, u32 (o + total) |>);;
    mret (Some it).

Definition ialloc_init_allocator (ia : positive) : M kvs unit :=
  h ← segment_alloc;
  match h with
  | None => fail (AssertFail "ialloc.c: allocating segment failed")
  | Some cur =>
      store headers cur (λ h, h <| sg_next := None |>);;
      h ← segment_alloc;
      match h with
      | None => fail (AssertFail "ialloc.c: allocating reserved segment failed")
      | Some res =>
          store headers res (λ h, h <| sg_next := None |>);;
          modify (λ s, s <| allocs ::= <[ia := ItemAllocator (Some res)
            (replicate (Z.to_nat segcqsize) None) (Some cur) 0 0 (Some cur) 0 None 0]> |>)
      end
  end.

Definition ialloc_alloc (ia : positive) (total : Z) (cleanup : bool) : M kvs (option Z) :=
  assert_ "ialloc.c:263" (total <? segsize);;
  a ← deref allocs ia;
  if is_null (ia_reserved a) && negb cleanup then mret None
  else
    old ← nonnull (ia_cur a);
    it ← segment_item_alloc old total;
    match it with
    | Some it => mret (Some it)
    | None =>
        h ← segment_alloc;
        h ← match h with
            | Some h => mret (Some h)
            | None =>
                match ia_reserved a with
                | Some r =>
                    if cleanup then
                      store allocs ia (λ a, a <| ia_reserved := None |>);; mret (Some r)
                    else mret None
                | None => mret None
                end
            end;
        match h with
        | None => mret None
        | Some h =>
            store headers old (λ o, o <| sg_next := Some h |>);;
            store headers h (λ h, h <| sg_next := None |>);;
            store headers old (λ o, o <| sg_flags ::= λ f, Z.lor f SF_INACTIVE |>);;
            store allocs ia (λ a, a <| ia_cur := Some h |>);;
            segment_item_alloc h total
        end
    end.

Definition ialloc_free (it : Z) (total : Z) : M kvs unit :=
  h ← segment_from_part it;
  h ← nonnull h;
  segment_item_free h total.

Definition item_unref (a : Z) : M kvs unit :=
  it ← deref mem a;
  assert_ "iokvs.h: refcount > 0" (0 <? it_refcount it);;
  store mem a (λ it, it <| it_refcount ::= λ c, u16 (c - 1) |>);;
  it ← deref mem a;
  when (it_refcount it =? 0) (ialloc_free a (item_totalsz it)).

Definition ialloc_cleanup_item (ia : positive) (idle : bool) : M kvs (option Z) :=
  a ← deref allocs ia;
  if negb idle && (32 <=? cleanup_count a) then mret None
  else
    when (negb idle) (store allocs ia (λ a, a <| cleanup_count ::= λ n, u64 (n + 1) |>));;
    let i := cq_head a in
    it ← nonnull (cleanup_queue a !! Z.to_nat i);
    when (negb (is_null it))
      (store allocs ia (λ a, a <| cleanup_queue ::= <[Z.to_nat i := None]> |>);;
       store allocs ia (λ a, a <| cq_head := u64 (i + 1) mod segcqsize |>));;
    a ← deref allocs ia;
    when (is_null (ia_reserved a))
      (h ← segment_alloc;
       store allocs ia (λ a, a <| ia_reserved := h |>));;
    mret it.

Definition ialloc_cleanup_nextrequest (ia : positive) : M kvs unit :=
  store allocs ia (λ a, a <| cleanup_count := 0 |>).

(** One segment of the log, in the search for segments that are dead or worth
    cleaning: [h] is looked at, [prev] is the segment before it. *)
Definition maint_body (ia : positive) (c : option hptr * option hptr * option hptr * f64) :
    M kvs ((option hptr * option hptr * option hptr * f64) + option hptr) :=
  let '(h, prev, cand, cand_ratio) := c in
  match h with
  | None => mret (inr cand)
  | Some p =>
      h ← deref headers p;
      match sg_next h with
      | None => mret (inr cand)
      | Some next =>
          if negb (Z.land (sg_flags h) SF_INACTIVE =? SF_INACTIVE) then mret (inr cand)
          else if sg_freed h =? sg_size h then
            match prev with
            | None => store allocs ia (λ a, a <| ia_oldest := Some next |>)
            | Some q => store headers q (λ q, q <| sg_next := Some next |>)
            end;;
            segment_free p;;
            mret (inl (Some next, prev, cand, cand_ratio))
          else if negb (Z.land (sg_flags h) SF_CLEANED =? SF_CLEANED) then
            let ratio := f64_div (f64_of_Z (sg_freed h)) (f64_of_Z (sg_size h)) in
            if f64_le clean_ratio ratio && f64_gt ratio cand_ratio
            then mret (inl (Some next, Some p, Some p, ratio))
            else mret (inl (Some next, Some p, cand, cand_ratio))
          else mret (inl (Some next, Some p, cand, cand_ratio))
      end
  end.

Definition maint_segments (ia : positive) : M kvs (option hptr) :=
  a ← deref allocs ia;
  n ← gets (λ s, size (headers s));
  loop (S n) (maint_body ia) (ia_oldest a, None, None, S754_zero false).

(** The segment that is being cleaned, the offset up to which it has been, and
    its size; the candidate when there is none or it is done. *)
Definition maint_choose (ia : positive) (cand : option hptr) : M kvs (option hptr * Z * Z) :=
  a ← deref allocs ia;
  let h := ia_cleaning a in
  let off := clean_offset a in
  size ← match h with
         | None => mret 0
         | Some p => h ← deref headers p; mret (sg_size h)
         end;
  if is_null h || (off =? size) then
    store allocs ia (λ a, a <| ia_cleaning := cand |>);;
    store allocs ia (λ a, a <| clean_offset := 0 |>);;
    match cand with
    | None => mret tt
    | Some p => store headers p (λ h, h <| sg_flags ::= λ f, Z.lor f SF_CLEANED |>)
    end;;
    mret (cand, 0, size)
  else mret (h, off, size).

(** One item of the segment that is being cleaned. *)
Definition scan_item (ia : positive) (data size : Z) (c : Z * Z) : M kvs ((Z * Z) + (Z * Z)) :=
  let '(off, idx) := c in
  if off <? size then
    a ← deref allocs ia;
    slot ← nonnull (cleanup_queue a !! Z.to_nat idx);
    if negb (is_null slot) then mret (inr (off, idx))
    else if size - off <? sizeof_item then mret (inr (size, idx))
    else
      let it := u64 (data + off) in
      r ← item_tryref it;
      when r (store allocs ia (λ a, a <| cleanup_queue ::= <[Z.to_nat idx := Some it]> |>));;
      i ← deref mem it;
      mret (inl (u64 (off + item_totalsz i), if r : bool then u64 (idx + 1) mod segcqsize else idx))
  else mret (inr (off, idx)).

Definition ialloc_maintenance (ia : positive) : M kvs unit :=
  cand ← maint_segments ia;
  '(h, off, size) ← maint_choose ia cand;
  match h with
  | None => mret tt
  | Some p =>
      a ← deref allocs ia;
      h ← deref headers p;
      '(off, idx) ← loop (S (Z.to_nat size)) (scan_item ia (sg_data h) size) (off, cq_tail a);
      store allocs ia (λ a, a <| cq_tail := idx |>);;
      store allocs ia (λ a, a <| clean_offset := off |>)
  end.

(** ** The hash table (server/hashtable.c) *)
Definition bucket_zero : hash_bucket :=
  HashBucket (replicate BUCKET_NITEMS None) (replicate BUCKET_NITEMS 0) false.

(** The array of the buckets is cleared when it is allocated: what [buckets]
    does not hold is zero. *)
Definition bucket_at (s : kvs) (i : Z) : hash_bucket := default bucket_zero (buckets s !! i).
Definition get_bucket (i : Z) : M kvs hash_bucket :=
  n ← gets nbuckets;
  if (0 <=? i) && (i <? n) then gets (λ s, bucket_at s i) else fail BadPointer.
Definition put_bucket (i : Z) (f : hash_bucket → hash_bucket) : M kvs unit :=
  b ← get_bucket i;
  modify (λ s, s <| buckets ::= <[i := f b]> |>).

Definition bucket_lock (i : Z) : M kvs unit :=
  b ← get_bucket i;
  if b_lock b then fail SelfDeadlock else put_bucket i (λ b, b <| b_lock := true |>).
Definition bucket_unlock (i : Z) : M kvs unit := put_bucket i (λ b, b <| b_lock := false |>).

(** [round_log2 n] is [round(log2(n))] of the C library.  The buckets are
    cleared before the test that [calloc] has returned any. *)
Definition hasht_init (round_log2 : Z → Z) (calloc_ok : bool) (hasht_size : Z) : M kvs unit :=
  modify (λ s, s <| nbuckets := u64 (Z.shiftl 1 (round_log2 (hasht_size / 64))) |>);;
  if calloc_ok then modify (λ s, s <| buckets := ∅ |>)
  else fail (Undefined "memset of a null pointer").

Definition item_key_matches (a : Z) (key : list Z) : M kvs bool :=
  it ← deref mem a;
  if Z.of_nat (length key) =? it_keylen it then
    k ← read_data a 0 (Z.of_nat (length key));
    mret (bool_decide (k = key))
  else mret false.

Definition item_hkey_matches (a : Z) (key : list Z) (hv : Z) : M kvs bool :=
  it ← deref mem a;
  if it_hv it =? hv then item_key_matches a key else mret false.

Definition slot (b : hash_bucket) (i : nat) : option Z := mjoin (b_items b !! i).
Definition slot_hash (b : hash_bucket) (i : nat) : Z := default 0 (b_hashes b !! i).

(** The loop over the slots in [hasht_get]. *)
Fixpoint get_direct (b : hash_bucket) (is_ : list nat) (key : list Z) (hv : Z) : M kvs (option Z) :=
  match is_ with
  | [] => mret None
  | i :: is_ =>
      match slot b i with
      | Some it =>
          if slot_hash b i =? hv then
            m ← item_key_matches it key;
            if m : bool then mret (Some it) else get_direct b is_ key hv
          else get_direct b is_ key hv
      | None => get_direct b is_ key hv
      end
  end.

(** [while (it != NULL && !item_hkey_matches(it, key, klen, hv))], with the
    item before [it]. *)
Definition chain_body (key : list Z) (hv : Z) (c : Z * option Z) :
    M kvs ((Z * option Z) + (Z * option Z)) :=
  let '(prev, it) := c in
  match it with
  | None => mret (inr (prev, None))
  | Some a =>
      m ← item_hkey_matches a key hv;
      if m : bool then mret (inr (prev, Some a))
      else i ← deref mem a; mret (inl (a, it_next i))
  end.

Definition chain_find (key : list Z) (hv : Z) (first : option Z) : M kvs (option (Z * option Z)) :=
  match first with
  | None => mret None
  | Some x =>
      i ← deref mem x;
      n ← gets (λ s, size (mem s));
      c ← loop (S (S n)) (chain_body key hv) (x, it_next i);
      mret (Some c)
  end.

Definition hasht_get (key : list Z) (hv : Z) : M kvs (option Z) :=
  n ← gets nbuckets;
  let bi := hv mod n in
  bucket_lock bi;;
  b ← get_bucket bi;
  o ← get_direct b (seq 0 BUCKET_NITEMS) key hv;
  it ← match o with
       | Some it => mret (Some it)
       | None =>
           c ← chain_find key hv (slot b (BUCKET_NITEMS - 1));
           mret (c ≫= snd)
       end;
  match it with Some it => item_ref it | None => mret tt end;;
  bucket_unlock bi;;
  mret it.

(** The loop over the slots in [hasht_put].  [inl tt]: done; [inr di]: the key
    is in no slot, and [di] is the last empty slot. *)
Fixpoint put_direct (nit : Z) (cas : option Z) (key : list Z) (hv bi : Z) (is_ : list nat)
    (di : option nat) : M kvs (unit + option nat) :=
  match is_ with
  | [] => mret (inr di)
  | i :: is_ =>
      b ← get_bucket bi;
      match slot b i with
      | None => put_direct nit cas key hv bi is_ (Some i)
      | Some it =>
          if slot_hash b i =? hv then
            m ← item_key_matches it key;
            if m : bool then
              if negb (is_null cas) && bool_decide (cas ≠ Some it) then mret (inl tt)
              else
                assert_ "hashtable.c: nit != it" (bool_decide (nit ≠ it));;
                item_ref nit;;
                o ← deref mem it;
                store mem nit (λ n, n <| it_next := it_next o |>);;
                put_bucket bi (λ b, b <| b_items ::= <[i := Some nit]> |>);;
                item_unref it;;
                mret (inl tt)
            else put_direct nit cas key hv bi is_ di
          else put_direct nit cas key hv bi is_ di
      end
  end.

(** The key is in no slot: replace it in the chain, or else add the item. *)
Definition put_chain (nit : Z) (key : list Z) (hv bi : Z) (di : option nat) : M kvs unit :=
  item_ref nit;;
  b ← get_bucket bi;
  c ← chain_find key hv (slot b (BUCKET_NITEMS - 1));
  match c with
  | Some (prev, Some it) =>
      o ← deref mem it;
      store mem nit (λ n, n <| it_next := it_next o |>);;
      store mem prev (λ p, p <| it_next := Some nit |>);;
      item_unref it
  | _ =>
      let di := default (BUCKET_NITEMS - 1)%nat di in
      store mem nit (λ n, n <| it_next := slot b di |>);;
      put_bucket bi (λ b, b <| b_hashes ::= <[di := hv]> |>);;
      put_bucket bi (λ b, b <| b_items ::= <[di := Some nit]> |>)
  end.

Definition hasht_put (nit : Z) (cas : option Z) : M kvs unit :=
  it ← deref mem nit;
  let hv := it_hv it in
  key ← read_data nit 0 (it_keylen it);
  n ← gets nbuckets;
  let bi := hv mod n in
  bucket_lock bi;;
  r ← put_direct nit cas key hv bi (seq 0 BUCKET_NITEMS) None;
  match r with
  | inl _ => mret tt
  | inr di => if negb (is_null cas) then mret tt else put_chain nit key hv bi di
  end;;
  bucket_unlock bi.

(** ** Requests (bench/main.c) *)
Definition BUFSIZE : Z := 1000000.
Definition sizeof_get : Z := 24.
Definition sizeof_set : Z := 32.

Record connection := Connection {
  tx_len : Z;
  tx_off : Z;
  tx_buf : list Z;
}.
Record key := Key {
  k_key : Z;
  k_mem : Z → Z;
  k_keylen : Z;
}.
Definition key_bytes (k : key) (n : Z) : list Z := k_mem k <$> seqZ 0 n.
Definition buf_bytes (l : list Z) (off n : Z) : list Z := take (Z.to_nat n) (drop (Z.to_nat off) l).

Definition clean_item (ia : positive) (it : Z) : M kvs unit :=
  i ← deref mem it;
  when (negb (it_refcount i =? 1))
    (nit ← ialloc_alloc ia (u64 (sizeof_item + it_keylen i + it_vallen i)) true;
     match nit with
     | None => fail (AssertFail "main.c: ialloc_alloc failed during cleanup")
     | Some nit =>
         store mem nit (λ n, n <| it_hv := it_hv i |>);;
         store mem nit (λ n, n <| it_vallen := it_vallen i |>);;
         store mem nit (λ n, n <| it_keylen := it_keylen i |>);;
         bs ← read_data it 0 (it_keylen i + it_vallen i);
         write_data nit 0 bs;;
         hasht_put nit (Some it);;
         item_unref nit
     end);;
  item_unref it.

Definition clean_body (ia : positive) (idle : bool) (n : Z) : M kvs (Z + Z) :=
  it ← ialloc_cleanup_item ia idle;
  match it with
  | None => mret (inr n)
  | Some it => clean_item ia it;; mret (inl (u64 (n + 1)))
  end.

Definition clean_log (ia : positive) (idle : bool) : M kvs Z :=
  when (negb idle) (ialloc_cleanup_nextrequest ia);;
  loop (S (Z.to_nat segcqsize)) (clean_body ia idle) 0.

Definition set_request (co : connection) (k : key) (ia : positive) : M kvs unit :=
  assert_ "main.c:421" (tx_off co =? 0);;
  assert_ "main.c:422" (tx_len co =? 0);;
  assert_ "main.c:423" (sizeof_set + k_keylen k + valuesize <=? BUFSIZE);;
  let kl := u16 (k_keylen k) in
  let vl := valuesize in
  let v := buf_bytes (tx_buf co) (sizeof_set + k_keylen k) vl in
  let h := jenkins_hash (k_mem k) (k_key k) kl in
  let bs := key_bytes k kl in
  it ← hasht_get bs h;
  it ← match it with
       | None =>
           it ← ialloc_alloc ia (u64 (sizeof_item + kl + vl)) false;
           match it with
           | None => fail (AssertFail "main.c: assert(it)")
           | Some it =>
               store mem it (λ i, i <| it_hv := h |>);;
               store mem it (λ i, i <| it_vallen := vl |>);;
               store mem it (λ i, i <| it_keylen := kl |>);;
               write_data it 0 bs;;
               i ← deref mem it;
               write_data it (it_keylen i) v;;
               hasht_put it None;;
               o ← hasht_get bs h;
               assert_ "main.c: inserted" (bool_decide (o = Some it));;
               item_unref it;;
               mret it
           end
       | Some it =>
           store mem it (λ i, i <| it_hv := h |>);;
           store mem it (λ i, i <| it_vallen := vl |>);;
           store mem it (λ i, i <| it_keylen := kl |>);;
           write_data it 0 bs;;
           i ← deref mem it;
           write_data it (it_keylen i) v;;
           mret it
       end;
  item_unref it;;
  clean_log ia true;;
  mret tt.

(** What is left in the buffer of the connection is returned with it. *)
Definition get_request (co : connection) (k : key) (ia : positive) : M kvs connection :=
  assert_ "main.c:468" (sizeof_get + k_keylen k <=? BUFSIZE);;
  let kl := u16 (k_keylen k) in
  let h := jenkins_hash (k_mem k) (k_key k) kl in
  it ← hasht_get (key_bytes k kl) h;
  match it with
  | None => mret co
  | Some it =>
      i ← deref mem it;
      v ← read_data it (it_keylen i) (it_vallen i);
      if sizeof_get + it_vallen i <=? BUFSIZE then
        let buf := overwrite (Z.to_nat sizeof_get) v (tx_buf co) in
        item_unref it;;
        clean_log ia true;;
        mret (Connection (tx_len co) (tx_off co) buf)
      else fail (Undefined "write outside the buffer")
  end.
End store.
