(* ===== verification/KvsInv.v ===== *)
(** * The invariant of the key-value store

    The segments of the log: every segment is on the list of free segments, in
    the log of one allocator, its spare, or just taken; a log is tiled by its
    items, and counts the bytes of those that are dead.  The hash table: the
    items of the buckets are those of a map from keys to items.  The
    references: an item is counted once for the table, once for the queue of
    items to copy, and once per reference that an operation holds. *)

From S2P Require Import Prelude Links F64 Jenkins Kvs.

(** ** Tilings *)
Section tiles.
Implicit Types (m : gmap Z item) (l : list Z).

Fixpoint tiles m (a : Z) l (e : Z) : Prop :=
  match l with
  | [] => a = e
  | x :: l => x = a ∧ ∃ it, m !! x = Some it ∧ tiles m (a + block_size it) l e
  end.

(** The bytes of the dead items. *)
Definition dead_size m (x : Z) : Z :=
  match m !! x with
  | Some it => if it_refcount it =? 0 then block_size it else 0
  | None => 0
  end.
Fixpoint dead m l : Z :=
  match l with [] => 0 | x :: l => dead_size m x + dead m l end.

Lemma block_pos it : sizeof_item ≤ block_size it.
Proof. unfold block_size. lia. Qed.

Lemma tiles_le m a l e : tiles m a l e → a ≤ e.
Proof.
  revert a. induction l as [|x l IH]; intros a; simpl; [lia|].
  intros (->&it&_&Ht%IH). pose proof (block_pos it). unfold sizeof_item in *. lia.
Qed.

Lemma tiles_in m a l e x :
  tiles m a l e → x ∈ l → ∃ it, m !! x = Some it ∧ a ≤ x ∧ x + block_size it ≤ e.
Proof.
  revert a. induction l as [|y l IH]; intros a; simpl; [set_solver|].
  intros (->&it&Hit&Ht) [->|Hx]%elem_of_cons.
  - exists it. apply tiles_le in Ht. split_and!; [done|lia..].
  - destruct (IH _ Ht Hx) as (it'&?&?&?). exists it'. pose proof (block_pos it). unfold sizeof_item in *.
    split_and!; [done|lia..].
Qed.

Lemma tiles_app m a l l' e : tiles m a (l ++ l') e ↔ ∃ c, tiles m a l c ∧ tiles m c l' e.
Proof.
  revert a. induction l as [|x l IH]; intros a; simpl.
  - split; [eauto|]. by intros (c&->&?).
  - setoid_rewrite IH. naive_solver.
Qed.

Lemma tiles_end m a l e e' : tiles m a l e → tiles m a l e' → e = e'.
Proof.
  revert a. induction l as [|x l IH]; intros a; simpl; [by intros <- <-|].
  intros (->&it&Hit&Ht) (_&it'&Hit'&Ht'). simplify_eq. by eapply IH.
Qed.

Lemma tiles_nodup m a l e : tiles m a l e → NoDup l.
Proof.
  revert a. induction l as [|x l IH]; intros a; simpl; [constructor|].
  intros (->&it&Hit&Ht). apply NoDup_cons. split; [|by eapply IH].
  intros Hx. destruct (tiles_in _ _ _ _ _ Ht Hx) as (_&_&?&_). pose proof (block_pos it).
  unfold sizeof_item in *. lia.
Qed.

(** The sizes of the items are all that a tiling depends on. *)
Lemma tiles_ext m m' a l e :
  tiles m a l e →
  (∀ x it, x ∈ l → m !! x = Some it → ∃ it', m' !! x = Some it' ∧ block_size it' = block_size it) →
  tiles m' a l e.
Proof.
  revert a. induction l as [|x l IH]; intros a; simpl; [done|]. intros (->&it&Hit&Ht) Hm.
  split; [done|]. destruct (Hm a it) as (it'&?&Hb); [set_solver|done|]. exists it'. rewrite Hb.
  split; [done|]. apply IH; [done|]. intros; apply Hm; set_solver.
Qed.

Lemma dead_app m l l' : dead m (l ++ l') = dead m l + dead m l'.
Proof. induction l as [|x l IH]; simpl; lia. Qed.

Lemma dead_ext m m' l : (∀ x, x ∈ l → dead_size m' x = dead_size m x) → dead m' l = dead m l.
Proof.
  induction l as [|x l IH]; intros Hm; simpl; [done|]. rewrite Hm by set_solver.
  rewrite IH; [done|]. intros; apply Hm; set_solver.
Qed.

Lemma dead_size_range m x : 0 ≤ dead_size m x.
Proof. unfold dead_size. destruct (m !! x) as [it|]; [|done]. case_match; [|done]. pose proof (block_pos it). unfold sizeof_item in *. lia. Qed.

Lemma dead_nonneg m l : 0 ≤ dead m l.
Proof. induction l as [|x l IH]; simpl; [done|]. pose proof (dead_size_range m x). lia. Qed.

Lemma dead_le m a l e : tiles m a l e → dead m l ≤ e - a.
Proof.
  revert a. induction l as [|x l IH]; intros a; simpl; [lia|]. intros (->&it&Hit&Ht%IH).
  unfold dead_size. rewrite Hit. pose proof (block_pos it). unfold sizeof_item in *. case_match; lia.
Qed.

(** When the dead bytes are all there are, every item is dead. *)
Lemma dead_all m a l e x it :
  tiles m a l e → dead m l = e - a → x ∈ l → m !! x = Some it → it_refcount it = 0.
Proof.
  revert a. induction l as [|y l IH]; intros a; simpl; [set_solver|].
  intros (->&it'&Hit'&Ht) Hd Hx Hit. pose proof (dead_le _ _ _ _ Ht) as Hle.
  unfold dead_size in Hd. rewrite Hit' in Hd. pose proof (block_pos it'). unfold sizeof_item in *.
  destruct (Z.eqb_spec (it_refcount it') 0) as [Hz|Hz]; [|lia].
  apply elem_of_cons in Hx as [->|Hx]; [congruence|]. eapply IH; [done|lia|done..].
Qed.

(** An item dies. *)
Lemma dead_insert m l x it it' :
  NoDup l → x ∈ l → m !! x = Some it → it_refcount it ≠ 0 → it_refcount it' = 0 →
  block_size it' = block_size it →
  dead (<[x := it']> m) l = dead m l + block_size it.
Proof.
  intros Hnd Hx Hit Hne Hz Hb. apply list_elem_of_split in Hx as (l1&l2&->).
  apply NoDup_app in Hnd as (_&H1&H2). apply NoDup_cons in H2 as [H2 _].
  rewrite !dead_app. simpl. assert (∀ l, x ∉ l → dead (<[x := it']> m) l = dead m l) as He.
  { intros l Hl. apply dead_ext. intros y Hy. unfold dead_size. rewrite lookup_insert_ne; [done|]. by intros ->. }
  rewrite (He l1), (He l2) by set_solver. unfold dead_size. rewrite lookup_insert_eq, Hit, Hz, Hb. simpl.
  destruct (Z.eqb_spec (it_refcount it) 0); lia.
Qed.
End tiles.

(** ** Items *)
Definition item_key (it : item) : list Z := take (Z.to_nat (it_keylen it)) (it_data it).
Definition item_value (it : item) : list Z :=
  take (Z.to_nat (it_vallen it)) (drop (Z.to_nat (it_keylen it)) (it_data it)).

(** The lengths of the key and the value add up to the size of the item, and
    there are less than 64 KiB of them. *)
Definition item_ok (it : item) : Prop :=
  0 ≤ it_vallen it ∧ 0 ≤ it_keylen it ∧
  sizeof_item + it_vallen it + it_keylen it = block_size it ∧ block_size it < sizeof_item + 2 ^ 16.

Lemma item_ok_totalsz it : item_ok it → item_totalsz it = block_size it.
Proof. intros (?&?&Hb). unfold item_totalsz. rewrite u64_add_l, u64_small; unfold sizeof_item in *; lia. Qed.

Lemma item_ok_key it : item_ok it → Z.of_nat (length (item_key it)) = it_keylen it.
Proof.
  intros (?&?&Hb). unfold item_key, block_size, sizeof_item in *. rewrite length_take. lia.
Qed.

(** The hash of a key. *)
Definition hash_of (bs : list Z) : Z :=
  jenkins_hash (λ i, nth (Z.to_nat i) bs 0) 0 (Z.of_nat (length bs)).

(** ** Segments *)
Inductive role := Unborn | Free | Loose | InLog (ia : positive) | Spare (ia : positive).
#[global] Instance role_eq_dec : EqDecision role.
Proof. solve_decision. Defined.

Record ghost := Ghost {
  g_role : hptr → role;
  g_free : list hptr;
  g_segs : positive → list hptr;
  g_log : hptr → list Z;
}.

Definition inactive (h : segment_header) : Prop := Z.land (sg_flags h) SF_INACTIVE = SF_INACTIVE.
Definition cleaned (h : segment_header) : Prop := Z.land (sg_flags h) SF_CLEANED = SF_CLEANED.

(** The log of a segment.  [X] is an item that has been allocated and is not
    filled in yet. *)
Record seg_ok (m : gmap Z item) (h : segment_header) (l : list Z) (X : option Z) : Prop := SegOk {
  so_tiles : ∃ e, tiles m (sg_data h) l e ∧
    sg_data h + sg_offset h - sizeof_item < e ≤ sg_data h + sg_offset h ∧
    (sg_offset h ≠ sg_size h → e = sg_data h + sg_offset h) ∧
    sg_freed h = dead m l + (sg_data h + sg_offset h - e);
  so_offset : 0 ≤ sg_offset h ≤ sg_size h;
  so_full : inactive h → sg_offset h = sg_size h;
  so_items x it : x ∈ l → m !! x = Some it → X ≠ Some x → item_ok it;
}.

Definition next_seg (s : kvs) (p : hptr) : option (option hptr) := sg_next <$> headers s !! p.

Section inv.
Context {cfg : settings} {plt : platform}.

(** The log of an allocator, oldest segment first; all but the last, to which
    the allocator appends, are full. *)
Record alloc_ok (s : kvs) (g : ghost) (ia : positive) (a : item_allocator) : Prop := AllocOk {
  ao_cur : ∃ older cur, g_segs g ia = older ++ [cur] ∧ ia_cur a = Some cur ∧
    ∀ p h, p ∈ older → headers s !! p = Some h → inactive h;
  ao_chain : chain (next_seg s) (ia_oldest a) (g_segs g ia);
  ao_nodup : NoDup (g_segs g ia);
  ao_role p : p ∈ g_segs g ia ↔ g_role g p = InLog ia;
  ao_spare p : ia_reserved a = Some p ↔ g_role g p = Spare ia;
}.

Record log_inv (s : kvs) (g : ghost) (X : option Z) : Prop := LogInv {
  lv_lock : segalloc_lock s = false;
  lv_count : 0 ≤ seg_alloced s ≤ segmaxnum;
  lv_born p : is_Some (headers s !! p) ↔ g_role g p ≠ Unborn;
  lv_index p h : headers s !! p = Some h →
    ∃ i, 0 ≤ i < seg_alloced s ∧ seg_headers s !! i = Some p ∧
      sg_data h = seg_base + segsize * i ∧ sg_size h = segsize;
  lv_free : chain (next_seg s) (free_segments s) (g_free g);
  lv_free_nodup : NoDup (g_free g);
  lv_free_role p : p ∈ g_free g ↔ g_role g p = Free;
  lv_alloc ia a : allocs s !! ia = Some a → alloc_ok s g ia a;
  lv_owner ia p : g_role g p = InLog ia ∨ g_role g p = Spare ia → is_Some (allocs s !! ia);
  lv_log ia p h : g_role g p = InLog ia → headers s !! p = Some h → seg_ok (mem s) h (g_log g p) X;
  lv_new p h : (g_role g p = Loose ∨ ∃ ia, g_role g p = Spare ia) → headers s !! p = Some h →
    sg_offset h = 0 ∧ sg_freed h = 0 ∧ sg_flags h = 0;
  lv_nolog p : (∀ ia, g_role g p ≠ InLog ia) → g_log g p = [];
}.

(** ** The queue of items to copy *)

(** What is left of a segment that is being cleaned, from the offset on. *)
Definition boundary (m : gmap Z item) (h : segment_header) (l : list Z) (off : Z) : Prop :=
  ∃ l1 l2, l = l1 ++ l2 ∧ tiles m (sg_data h) l1 (sg_data h + off).

Definition cleaning_ok (s : kvs) (g : ghost) (ia : positive) (a : item_allocator) : Prop :=
  ∀ p, ia_cleaning a = Some p → ∃ h, headers s !! p = Some h ∧ 0 ≤ clean_offset a ≤ segsize ∧
    (clean_offset a ≠ segsize → g_role g p = InLog ia ∧ inactive h ∧ cleaned h ∧
       boundary (mem s) h (g_log g p) (clean_offset a)).

(** A queued item is in a segment that is being cleaned or has been, before
    the offset that the cleaning has reached. *)
Definition queued_ok (s : kvs) (g : ghost) (ia : positive) (a : item_allocator) (x : Z) : Prop :=
  ∃ p h, g_role g p = InLog ia ∧ headers s !! p = Some h ∧ x ∈ g_log g p ∧ cleaned h ∧
    (ia_cleaning a = Some p → x < sg_data h + clean_offset a).

Record queue_ok (s : kvs) (g : ghost) (ia : positive) (a : item_allocator) : Prop := QueueOk {
  qo_length : Z.of_nat (length (cleanup_queue a)) = segcqsize;
  qo_head : 0 ≤ cq_head a < segcqsize;
  qo_tail : 0 ≤ cq_tail a < segcqsize;
  qo_once i j x : cleanup_queue a !! i = Some (Some x) → cleanup_queue a !! j = Some (Some x) → i = j;
  qo_in x : Some x ∈ cleanup_queue a → queued_ok s g ia a x;
}.

(** [W]: the allocator whose segments the maintenance thread goes through. *)
Definition queue_inv (s : kvs) (g : ghost) (W : option positive) : Prop :=
  ∀ ia a, allocs s !! ia = Some a → queue_ok s g ia a ∧ (W ≠ Some ia → cleaning_ok s g ia a).

(** ** References *)
Definition in_log (g : ghost) (x : Z) : Prop := ∃ ia p, g_role g p = InLog ia ∧ x ∈ g_log g p.

Definition refs (T : gmap (list Z) Z) (a : item_allocator) (held : list Z) (x : Z) (it : item) : Z :=
  (if decide (T !! item_key it = Some x) then 1 else 0) +
  (if decide (Some x ∈ cleanup_queue a) then 1 else 0) +
  Z.of_nat (count_occ Z.eq_dec held x).

Record refs_inv (s : kvs) (g : ghost) (T : gmap (list Z) Z) (held : list Z) : Prop := RefsInv {
  rv_count ia a p x it : g_role g p = InLog ia → allocs s !! ia = Some a → x ∈ g_log g p →
    mem s !! x = Some it → it_refcount it = refs T a held x it;
  rv_table k x : T !! k = Some x → in_log g x;
  rv_held x : x ∈ held → in_log g x;
}.

(** ** The hash table *)
Definition next_item (m : gmap Z item) (x : Z) : option (option Z) := it_next <$> m !! x.

Definition directs (bk : hash_bucket) : list Z := omap (slot bk) (seq 0 4).

(** [l] is the chain that starts in the last slot. *)
Record bucket_ok (m : gmap Z item) (nb : Z) (T : gmap (list Z) Z) (b : Z) (bk : hash_bucket)
    (l : list Z) : Prop := BucketOk {
  bo_length : length (b_items bk) = BUCKET_NITEMS ∧ length (b_hashes bk) = BUCKET_NITEMS;
  bo_chain : chain (next_item m) (slot bk 4) l;
  bo_nodup : NoDup (directs bk ++ l);
  bo_member x : x ∈ directs bk ++ l → ∃ it, m !! x = Some it ∧ it_hv it = hash_of (item_key it) ∧
    it_hv it mod nb = b ∧ T !! item_key it = Some x ∧ item_ok it;
  bo_all k x : T !! k = Some x → hash_of k mod nb = b →
    x ∈ directs bk ++ l ∧ ∃ it, m !! x = Some it ∧ item_key it = k;
  bo_hash i x it : slot bk i = Some x → m !! x = Some it → slot_hash bk i = it_hv it;
}.

Record table_inv (s : kvs) (T : gmap (list Z) Z) : Prop := TableInv {
  tv_size : 0 < nbuckets s;
  tv_bucket b : 0 ≤ b < nbuckets s → ∃ l, bucket_ok (mem s) (nbuckets s) T b (bucket_at s b) l;
}.

Lemma tv_found s T k x : table_inv s T → T !! k = Some x → ∃ it, mem s !! x = Some it ∧ item_key it = k.
Proof using Type.
  intros [Hn Hb] HT. destruct (Hb (hash_of k mod nbuckets s)) as (l&Hl); [by apply Z.mod_pos_bound|].
  by destruct (bo_all _ _ _ _ _ _ Hl k x).
Qed.

Definition unlocked (s : kvs) : Prop := ∀ b, b_lock (bucket_at s b) = false.

(** ** All together *)
Record kv_inv (s : kvs) (g : ghost) (T : gmap (list Z) Z) (held : list Z) (X : option Z)
    (W : option positive) : Prop := KvInv {
  kv_log : log_inv s g X;
  kv_queue : queue_inv s g W;
  kv_refs : refs_inv s g T held;
  kv_table : table_inv s T;
}.

(** The settings and the platform. *)
Record good_store : Prop := GoodStore {
  gs_segsize : sizeof_item + 2 ^ 16 ≤ segsize < 2 ^ 32;
  gs_memory : 0 ≤ segmaxnum ∧ 0 ≤ seg_base ∧ seg_base + segsize * segmaxnum < 2 ^ 64;
  gs_queue : 0 < segcqsize < 2 ^ 63;
  gs_value : 0 ≤ valuesize < 2 ^ 16;
}.
End inv.
