(* ===== verification/KvsLog.v ===== *)
(** * The log of the key-value store

    How the items and the headers of the segments change, one at a time, and
    the operations of ialloc.c. *)

From S2P Require Import Prelude Links F64 Jenkins Kvs KvsInv.

Section log.
Context {cfg : settings} {plt : platform} (Hgood : good_store).
Implicit Types (s : kvs) (g : ghost) (x : Z) (it : item) (p : hptr) (h : segment_header).

(** Where an item of a log is. *)
Lemma log_position s g X ia p x :
  log_inv s g X → g_role g p = InLog ia → x ∈ g_log g p →
  ∃ h i it, headers s !! p = Some h ∧ seg_headers s !! i = Some p ∧ 0 ≤ i < segmaxnum ∧
    sg_data h = seg_base + segsize * i ∧ mem s !! x = Some it ∧
    sg_data h ≤ x ∧ x + block_size it ≤ sg_data h + sg_offset h ∧ sg_offset h ≤ segsize.
Proof using Type.
  intros Hl Hp Hx. assert (is_Some (headers s !! p)) as [h Hh] by (apply (lv_born _ _ _ Hl); by rewrite Hp).
  destruct (lv_index _ _ _ Hl p h Hh) as (i&Hi&Hsi&Hd&Hs). pose proof (lv_count _ _ _ Hl).
  destruct (lv_log _ _ _ Hl ia p h Hp Hh) as [(e&Ht&He&_) Ho _ _].
  destruct (tiles_in _ _ _ _ _ Ht Hx) as (it&?&?&?). exists h, i, it. split_and!; try done; try lia.
Qed.

Lemma log_unique s g X ia ia' p q x :
  log_inv s g X → g_role g p = InLog ia → g_role g q = InLog ia' → x ∈ g_log g p → x ∈ g_log g q → p = q.
Proof using Hgood.
  intros Hl Hp Hq Hx Hx'. pose proof (gs_segsize Hgood).
  destruct (log_position s g X ia p x Hl Hp Hx) as (h&i&it&_&Hi&_&Hd&Hit&?&?&?).
  destruct (log_position s g X ia' q x Hl Hq Hx') as (h'&i'&it'&_&Hi'&_&Hd'&Hit'&?&?&?).
  pose proof (block_pos it). rewrite Hit in Hit'. injection Hit' as <-. unfold sizeof_item in *.
  assert (i = i') as -> by nia. congruence.
Qed.

(** The segments stay where they are: a step that changes items, counts and
    flags. *)
Definition links_of (a : item_allocator) : option hptr * option hptr * option hptr :=
  (ia_oldest a, ia_cur a, ia_reserved a).

Record same_segments (s s' : kvs) : Prop := SameSegments {
  ss_lock : segalloc_lock s' = segalloc_lock s;
  ss_count : seg_alloced s' = seg_alloced s;
  ss_index : seg_headers s' = seg_headers s;
  ss_free : free_segments s' = free_segments s;
  ss_allocs ia : links_of <$> allocs s' !! ia = links_of <$> allocs s !! ia;
  ss_headers p : (λ h, (sg_next h, sg_data h, sg_size h)) <$> headers s' !! p =
                 (λ h, (sg_next h, sg_data h, sg_size h)) <$> headers s !! p;
}.

Lemma same_header s s' p h' :
  same_segments s s' → headers s' !! p = Some h' →
  ∃ h, headers s !! p = Some h ∧ sg_next h' = sg_next h ∧ sg_data h' = sg_data h ∧ sg_size h' = sg_size h.
Proof using Type.
  intros Hs Hp. pose proof (ss_headers _ _ Hs p) as Hh. rewrite Hp in Hh.
  destruct (headers s !! p) as [h|]; [|done]. injection Hh as ???. by exists h.
Qed.

Lemma same_next s s' p : same_segments s s' → next_seg s' p = next_seg s p.
Proof using Type.
  intros Hs. pose proof (ss_headers _ _ Hs p) as Hh. unfold next_seg.
  by destruct (headers s !! p), (headers s' !! p); simplify_eq/=; f_equal.
Qed.

Lemma log_inv_change s s' g X X' :
  log_inv s g X → same_segments s s' →
  (∀ p h h', headers s !! p = Some h → headers s' !! p = Some h' →
     (inactive h → inactive h') ∧
     (∀ ia, g_role g p = InLog ia → seg_ok (mem s') h' (g_log g p) X') ∧
     ((g_role g p = Loose ∨ ∃ ia, g_role g p = Spare ia) → sg_offset h' = 0 ∧ sg_freed h' = 0 ∧ sg_flags h' = 0)) →
  log_inv s' g X'.
Proof using Type.
  intros [Hlk Hc Hb Hi Hf Hfn Hfr Ha Ho Hl Hn Hnl] Hs Hh. pose proof (λ p, same_next s s' p Hs) as Hnx.
  split; try done.
  - by rewrite (ss_lock _ _ Hs).
  - by rewrite (ss_count _ _ Hs).
  - intros p. rewrite <- Hb. pose proof (ss_headers _ _ Hs p) as Hp. rewrite <- !not_eq_None_Some.
    by destruct (headers s !! p), (headers s' !! p).
  - intros p h' Hp. destruct (same_header s s' p h' Hs Hp) as (h&Hp'&_&->&->).
    rewrite (ss_count _ _ Hs), (ss_index _ _ Hs). by apply Hi.
  - rewrite (ss_free _ _ Hs). eapply chain_ext; [done|]. auto.
  - intros ia a' Ha'. pose proof (ss_allocs _ _ Hs ia) as Hia. rewrite Ha' in Hia.
    destruct (allocs s !! ia) as [a|] eqn:Hal; [|done]. injection Hia as H1 H2 H3.
    destruct (Ha ia a Hal) as [(older&cur&Hg&Hcur&Hold) Hch Hnd Hr Hsp]. split; try done.
    + exists older, cur. split_and!; [done|congruence|]. intros p h' Hp Hh'.
      destruct (same_header s s' p h' Hs Hh') as (h&Hh0&_). by eapply Hh; [| |eapply Hold].
    + rewrite H1. eapply chain_ext; [done|]. auto.
    + by rewrite H3.
  - intros ia p Hp. apply Ho in Hp as [a Hal]. pose proof (ss_allocs _ _ Hs ia) as Hia. rewrite Hal in Hia.
    by destruct (allocs s' !! ia).
  - intros ia p h' Hp Hh'. destruct (same_header s s' p h' Hs Hh') as (h&Hh0&_). by eapply Hh.
  - intros p h' Hp Hh'. destruct (same_header s s' p h' Hs Hh') as (h&Hh0&_). by eapply Hh.
Qed.

(** Of an item, the size, whether it is dead, and whether it is filled in
    matter. *)
Lemma seg_ok_mem m m' h l X :
  seg_ok m h l X →
  (∀ x it, x ∈ l → m !! x = Some it → ∃ it', m' !! x = Some it' ∧ block_size it' = block_size it ∧
     (it_refcount it' = 0 ↔ it_refcount it = 0) ∧ (X ≠ Some x → item_ok it → item_ok it')) →
  seg_ok m' h l X.
Proof using Type.
  intros [(e&Ht&He&Hf&Hd) Ho Hi Hit] Hm. split; [|done..|].
  - exists e. split_and!; [|lia|lia|done|].
    + eapply tiles_ext; [done|]. intros x it Hx Hx'. destruct (Hm x it Hx Hx') as (it'&?&?&_). eauto.
    + rewrite Hd. f_equal. symmetry. apply dead_ext. intros x Hx. unfold dead_size.
      destruct (tiles_in _ _ _ _ _ Ht Hx) as (it&Hx'&_). destruct (Hm x it Hx Hx') as (it'&->&->&Hz&_).
      rewrite Hx'. by destruct (Z.eqb_spec (it_refcount it') 0), (Z.eqb_spec (it_refcount it) 0); naive_solver.
  - intros x it' Hx Hx' HX. destruct (tiles_in _ _ _ _ _ Ht Hx) as (it&Hit'&_).
    destruct (Hm x it Hx Hit') as (it2&Heq&_&_&Hok). rewrite Heq in Hx'. injection Hx' as ->.
    apply Hok; [done|]. by eapply Hit.
Qed.

Lemma log_inv_insert s g X x it it' :
  log_inv s g X → mem s !! x = Some it → block_size it' = block_size it →
  (it_refcount it' = 0 ↔ it_refcount it = 0) → (X ≠ Some x → item_ok it → item_ok it') →
  log_inv (s <| mem := <[x := it']> (mem s) |>) g X.
Proof using Type.
  intros Hl Hx Hb Hz Hok. eapply log_inv_change; [done|by split|]. rec_simpl. intros p h h' Hh Hh'.
  rewrite Hh in Hh'. injection Hh' as <-. split_and!; [done| |by intros ?; eapply lv_new].
  intros ia Hp. eapply seg_ok_mem; [by eapply lv_log|]. intros y i Hy Hy'.
  destruct (decide (x = y)) as [<-|Hne].
  - exists it'. rewrite lookup_insert_eq. rewrite Hx in Hy'. by injection Hy' as <-.
  - exists i. by rewrite lookup_insert_ne.
Qed.

(** An item dies. *)
Lemma log_inv_dies s g X ia p h x it it' :
  log_inv s g X → g_role g p = InLog ia → headers s !! p = Some h → x ∈ g_log g p →
  mem s !! x = Some it → it_refcount it ≠ 0 → it_refcount it' = 0 →
  block_size it' = block_size it → (item_ok it → item_ok it') →
  sg_freed h + block_size it ≤ segsize ∧
  log_inv (s <| mem := <[x := it']> (mem s) |>
    <| headers := <[p := h <| sg_freed := sg_freed h + block_size it |>]> (headers s) |>) g X.
Proof using Hgood.
  intros Hl Hp Hh Hx Hit Hne Hz Hb Hok.
  destruct (lv_log _ _ _ Hl ia p h Hp Hh) as [(e&Ht&He&Hf&Hd) Ho Hi Hits].
  destruct (lv_index _ _ _ Hl p h Hh) as (_&_&_&_&Hsz).
  assert (tiles (<[x := it']> (mem s)) (sg_data h) (g_log g p) e) as Ht'.
  { eapply tiles_ext; [done|]. intros y i Hy Hy'. destruct (decide (x = y)) as [<-|].
    - exists it'. rewrite lookup_insert_eq. naive_solver.
    - exists i. by rewrite lookup_insert_ne. }
  pose proof (dead_insert (mem s) (g_log g p) x it it' (tiles_nodup _ _ _ _ Ht) Hx Hit Hne Hz Hb) as Hdi.
  pose proof (dead_le _ _ _ _ Ht') as Hle. split; [lia|].
  eapply log_inv_change; [done| |].
  - split; rec_simpl; try done. intros q. destruct (decide (p = q)) as [<-|Hpq].
    + by rewrite lookup_insert_eq, Hh.
    + by rewrite lookup_insert_ne.
  - rec_simpl. intros q h1 h2 Hh1 Hh2. destruct (decide (p = q)) as [<-|Hpq].
    + rewrite lookup_insert_eq in Hh2. injection Hh2 as <-. rewrite Hh in Hh1. injection Hh1 as <-.
      rewrite Hp. split_and!; [done| |naive_solver]. intros _ _. split; rec_simpl; try done.
      * exists e. split_and!; [done|lia|lia|done|]. rewrite Hdi. lia.
      * intros y i Hy. destruct (decide (x = y)) as [<-|].
        -- rewrite lookup_insert_eq. intros [= <-] HX. apply Hok. by eapply Hits.
        -- rewrite lookup_insert_ne by done. by apply Hits.
    + rewrite lookup_insert_ne in Hh2 by done. rewrite Hh1 in Hh2. injection Hh2 as <-.
      split_and!; [done| |by intros ?; eapply lv_new]. intros ia' Hq. eapply seg_ok_mem; [by eapply lv_log|].
      intros y i Hy Hy'. exists i. rewrite lookup_insert_ne; [done|]. intros <-.
      apply Hpq. by eapply log_unique.
Qed.

Lemma boundary_ext m m' h l off :
  boundary m h l off →
  (∀ x it, x ∈ l → m !! x = Some it → ∃ it', m' !! x = Some it' ∧ block_size it' = block_size it) →
  boundary m' h l off.
Proof using Type.
  intros (l1&l2&->&Ht) Hm. exists l1, l2. split; [done|]. eapply tiles_ext; [done|].
  intros x it Hx. apply Hm, elem_of_app. by left.
Qed.

Lemma queue_inv_change s s' g W :
  queue_inv s g W → same_segments s s' → allocs s' = allocs s →
  (∀ p h h', headers s !! p = Some h → headers s' !! p = Some h' →
     (inactive h → inactive h') ∧ (cleaned h → cleaned h')) →
  (∀ ia p x it, g_role g p = InLog ia → x ∈ g_log g p → mem s !! x = Some it →
     ∃ it', mem s' !! x = Some it' ∧ block_size it' = block_size it) →
  queue_inv s' g W.
Proof using Type.
  intros Hq Hs Hal Hf Hm ia a Ha. rewrite Hal in Ha. destruct (Hq ia a Ha) as [Hqo Hc].
  assert (∀ p h, headers s !! p = Some h → ∃ h', headers s' !! p = Some h' ∧ sg_data h' = sg_data h ∧
    (inactive h → inactive h') ∧ (cleaned h → cleaned h')) as Hh.
  { intros p h Hp. pose proof (ss_headers _ _ Hs p) as Hh. rewrite Hp in Hh.
    destruct (headers s' !! p) as [h'|] eqn:Hp'; [|done]. injection Hh as _ Hd _. exists h'.
    split_and!; [done..|by eapply Hf|by eapply Hf]. }
  split.
  - destruct Hqo as [? ? ? ? Hin]. split; try done. intros x Hx.
    destruct (Hin x Hx) as (p&h&Hp&Hp'&Hx'&Hcl&Hlt). destruct (Hh p h Hp') as (h'&?&Hd&_&?).
    exists p, h'. rewrite Hd. split_and!; auto.
  - intros HW p Hp. destruct (Hc HW p Hp) as (h&Hp'&Hr&Hb). destruct (Hh p h Hp') as (h'&?&Hd&?&?).
    exists h'. split_and!; [done|lia|lia|]. intros Hne. destruct (Hb Hne) as (?&?&?&?). split_and!; [done|auto..|].
    eapply boundary_ext with (m := mem s); [|by intros; eapply Hm]. unfold boundary. by rewrite Hd.
Qed.

Lemma same_segments_mem s m' : same_segments s (s <| mem := m' |>).
Proof using Type. by split. Qed.

Lemma queue_inv_insert s g W x it it' :
  queue_inv s g W → mem s !! x = Some it → block_size it' = block_size it →
  queue_inv (s <| mem := <[x := it']> (mem s) |>) g W.
Proof using Type.
  intros Hq Hx Hb. eapply queue_inv_change; [done|by split|done|rec_simpl; naive_solver|].
  rec_simpl. intros ia p y i _ _ Hi. destruct (decide (x = y)) as [<-|Hne].
  - exists it'. rewrite lookup_insert_eq. naive_solver.
  - exists i. by rewrite lookup_insert_ne.
Qed.

(** The segment of an item. *)
Lemma wp_segment_from_part s i p x (Q : option hptr → kvs → Prop) :
  seg_headers s !! i = Some p → 0 ≤ i < segmaxnum → seg_base + segsize * i ≤ x < seg_base + segsize * i + segsize →
  Q (Some p) s → wp (segment_from_part x) Q s.
Proof using Hgood.
  intros Hi ? Hx HQ. pose proof (gs_segsize Hgood). pose proof (gs_memory Hgood). unfold sizeof_item in *.
  unfold segment_from_part. rewrite u64_small by nia.
  assert ((x - seg_base) / segsize = i) as ->.
  { symmetry. apply (Z.div_unique_pos _ _ _ (x - seg_base - segsize * i)); lia. }
  wp_step. wp_step; [apply Z.ltb_lt; lia|]. wp_step. by rewrite Hi.
Qed.

(** ** Counting references *)
Lemma count_le (l : list Z) x : (count_occ Z.eq_dec l x ≤ length l)%nat.
Proof using Type. apply count_occ_bound. Qed.

Lemma refs_bound T a held x it : 0 ≤ refs T a held x it ≤ 2 + Z.of_nat (length held).
Proof using Type. unfold refs. pose proof (count_le held x). repeat case_decide; lia. Qed.

Lemma refs_table T a held x it : T !! item_key it = Some x → 1 ≤ refs T a held x it.
Proof using Type. intros Hx. unfold refs. rewrite decide_True by done. case_decide; lia. Qed.

Lemma refs_held T a held x it : x ∈ held → 1 ≤ refs T a held x it.
Proof using Type.
  intros Hx. unfold refs. apply list_elem_of_In, (count_occ_In Z.eq_dec) in Hx. repeat case_decide; lia.
Qed.

(** The reference count of an item in a log. *)
Lemma refs_at s g T held X ia p x :
  log_inv s g X → refs_inv s g T held → g_role g p = InLog ia → x ∈ g_log g p →
  ∃ a it, allocs s !! ia = Some a ∧ mem s !! x = Some it ∧ it_refcount it = refs T a held x it.
Proof using Type.
  intros Hl Hr Hp Hx. destruct (log_position s g X ia p x Hl Hp Hx) as (_&_&it&_&_&_&_&Hit&_).
  destruct (lv_owner _ _ _ Hl ia p) as [a Ha]; [by left|]. exists a, it. split_and!; [done..|].
  by eapply rv_count.
Qed.

Lemma refs_inv_insert s g T held held' x it it' :
  refs_inv s g T held → mem s !! x = Some it → item_key it' = item_key it →
  it_refcount it' - it_refcount it =
    Z.of_nat (count_occ Z.eq_dec held' x) - Z.of_nat (count_occ Z.eq_dec held x) →
  (∀ y, y ≠ x → count_occ Z.eq_dec held' y = count_occ Z.eq_dec held y) →
  (∀ y, y ∈ held' → in_log g y) →
  refs_inv (s <| mem := <[x := it']> (mem s) |>) g T held'.
Proof using Type.
  intros [Hc Ht Hh] Hx Hk Hr Hy Hin. split; rec_simpl; [|done..].
  intros ia a p y i Hp Ha Hyl. destruct (decide (x = y)) as [<-|Hne].
  - rewrite lookup_insert_eq. intros [= <-]. pose proof (Hc ia a p x it Hp Ha Hyl Hx) as Hcx.
    unfold refs in *. rewrite Hk. lia.
  - rewrite lookup_insert_ne by done. intros Hi. rewrite (Hc ia a p y i) by done.
    unfold refs. by rewrite (Hy y) by done.
Qed.

(** What the table depends on. *)
Lemma slot_lt bk i x : slot bk i = Some x → (i < length (b_items bk))%nat.
Proof using Type.
  unfold slot. destruct (b_items bk !! i) eqn:Hi; [|done]. intros _. by eapply lookup_lt_Some.
Qed.

Lemma slot_direct bk i x : slot bk i = Some x → (i < 4)%nat → x ∈ directs bk.
Proof using Type.
  intros Hs Hi. apply list_elem_of_omap. exists i. split; [|done]. apply elem_of_seq. lia.
Qed.

Lemma slot_member m nb T b bk l i x :
  bucket_ok m nb T b bk l → slot bk i = Some x → x ∈ directs bk ++ l.
Proof using Type.
  intros [[Hlen _] Hch _ _ _ _] Hs. pose proof (slot_lt _ _ _ Hs) as Hlt. rewrite Hlen in Hlt.
  apply elem_of_app. destruct (decide (i < 4)%nat); [left; by eapply slot_direct|right].
  assert (i = 4%nat) as -> by (unfold BUCKET_NITEMS in Hlt; lia). apply chain_head in Hch. rewrite Hs in Hch.
  destruct l; [done|]. injection Hch as ->. apply list_elem_of_here.
Qed.

Lemma table_inv_mem s m' T :
  table_inv s T →
  (∀ k x it, T !! k = Some x → mem s !! x = Some it → ∃ it', m' !! x = Some it' ∧
     it_next it' = it_next it ∧ it_hv it' = it_hv it ∧ item_key it' = item_key it ∧ (item_ok it → item_ok it')) →
  table_inv (s <| mem := m' |>) T.
Proof using Type.
  intros Ht Hm. pose proof Ht as [Hn Hb].
  assert (∀ nb b bk l, bucket_ok (mem s) nb T b bk l → bucket_ok m' nb T b bk l) as Hbk.
  { intros nb b bk l Hbo. pose proof Hbo as [Hlen Hch Hnd Hmem Hall Hh]. split; try done.
    - eapply chain_ext; [done|]. intros x Hx. destruct (Hmem x) as (it&Hit&_&_&HT&_); [apply elem_of_app; by right|].
      destruct (Hm _ _ _ HT Hit) as (it'&Hit'&Hnx&_). unfold next_item. rewrite Hit, Hit'. simpl. by rewrite Hnx.
    - intros x Hx. destruct (Hmem x Hx) as (it&Hit&Hhv&Hmod&HT&Hok).
      destruct (Hm _ _ _ HT Hit) as (it'&Hit'&_&Hhv'&Hk&Hok'). exists it'. rewrite Hhv', Hk. split_and!; auto.
    - intros k x HT Hk. destruct (Hall k x HT Hk) as (Hx&it&Hit&Hk').
      destruct (Hm _ _ _ HT Hit) as (it'&Hit'&_&_&Hk2&_). split; [done|]. exists it'. by rewrite Hk2.
    - intros i x it' Hs Hit'. assert (x ∈ directs bk ++ l) as Hx.
      { by eapply slot_member. }
      destruct (Hmem x Hx) as (it&Hit&_&_&HT&_). destruct (Hm _ _ _ HT Hit) as (it2&Hit2&_&Hhv&_).
      rewrite Hit' in Hit2. injection Hit2 as <-. rewrite Hhv. by eapply Hh. }
  split; rec_simpl; [done|].
  intros b Hb'. destruct (Hb b Hb') as (l&Hl). exists l. by apply Hbk.
Qed.

Lemma kv_at s g T held X W x :
  kv_inv s g T held X W → in_log g x →
  ∃ ia p h a it, g_role g p = InLog ia ∧ x ∈ g_log g p ∧ headers s !! p = Some h ∧ allocs s !! ia = Some a ∧
    mem s !! x = Some it ∧ it_refcount it = refs T a held x it ∧ (X ≠ Some x → item_ok it).
Proof using Type.
  intros [Hl Hq Hr Ht] (ia&p&Hp&Hx).
  destruct (refs_at s g T held X ia p x Hl Hr Hp Hx) as (a&it&?&?&?).
  destruct (log_position s g X ia p x Hl Hp Hx) as (h&_&_&Hh&_).
  exists ia, p, h, a, it. split_and!; try done. intros HX. by eapply (so_items _ _ _ _ (lv_log _ _ _ Hl _ _ _ Hp Hh)).
Qed.

Lemma live_table s g T held X W k x it :
  kv_inv s g T held X W → T !! k = Some x → mem s !! x = Some it → 0 < it_refcount it.
Proof using Type.
  intros Hkv HT Hit. destruct (kv_at s g T held X W x Hkv) as (?&?&?&a&it'&_&_&_&_&Hit'&Hrc&_).
  { by eapply rv_table; [apply Hkv|]. }
  rewrite Hit in Hit'. injection Hit' as <-.
  destruct (tv_found _ _ k x (kv_table _ _ _ _ _ _ Hkv) HT) as (it'&Hit'&Hk).
  rewrite Hit in Hit'. injection Hit' as <-. rewrite <- Hk in HT.
  pose proof (refs_table T a held x it HT). lia.
Qed.

Lemma wp_item_ref s g T held X W x it :
  kv_inv s g T held X W → in_log g x → mem s !! x = Some it → 0 < it_refcount it →
  Z.of_nat (length held) < 2 ^ 15 →
  wp (item_ref x) (λ _ s',
    s' = s <| mem := <[x := it <| it_refcount := it_refcount it + 1 |>]> (mem s) |> ∧
    kv_inv s' g T (x :: held) X W) s.
Proof using Type.
  intros Hkv Hx Hit Hpos Hlen. destruct (kv_at s g T held X W x Hkv Hx) as (ia&p&h&a&it'&_&_&_&_&Hit'&Hrc&_).
  rewrite Hit in Hit'. injection Hit' as <-. pose proof (refs_bound T a held x it).
  unfold item_ref. eapply wp_store; [done|].
  assert (it <| it_refcount ::= λ c, u16 (c + 1) |> = it <| it_refcount := it_refcount it + 1 |>) as ->.
  { unfold u16, upd, set_it_refcount. f_equal. apply Z.mod_small. lia. }
  split; [done|]. destruct Hkv as [Hl Hq Hr Ht]. set (it' := it <| it_refcount := _ |>).
  assert (block_size it' = block_size it) as Hb by done.
  assert (it_refcount it' = it_refcount it + 1) as Hc by done. split.
  - eapply log_inv_insert; try done. lia.
  - by eapply queue_inv_insert.
  - eapply refs_inv_insert; try done.
    + rewrite count_occ_cons_eq by done. lia.
    + intros y Hy. by rewrite count_occ_cons_neq.
    + intros y [->|Hy]%elem_of_cons; [done|]. by eapply rv_held.
  - apply table_inv_mem; [done|]. intros k y i _ Hi. destruct (decide (x = y)) as [<-|Hne].
    + exists it'. rewrite lookup_insert_eq. rewrite Hit in Hi. by injection Hi as <-.
    + exists i. by rewrite lookup_insert_ne.
Qed.

Lemma wp_item_unref s g T held X W x :
  kv_inv s g T (x :: held) X W → X ≠ Some x → Z.of_nat (length held) < 2 ^ 15 →
  wp (item_unref x) (λ _ s', ∃ it H', mem s !! x = Some it ∧
    s' = s <| mem := <[x := it <| it_refcount := it_refcount it - 1 |>]> (mem s) |> <| headers := H' |> ∧
    kv_inv s' g T held X W) s.
Proof using Hgood.
  intros Hkv HX Hlen. destruct (kv_at s g T (x :: held) X W x Hkv) as (ia&p&h&a&it&Hp&Hx&Hh&Ha&Hit&Hrc&Hok).
  { eapply rv_held; [apply Hkv|]. apply list_elem_of_here. }
  pose proof (refs_bound T a (x :: held) x it) as Hbd. simpl in Hbd.
  pose proof (refs_held T a (x :: held) x it (list_elem_of_here _ _)) as Hge.
  unfold item_unref. wp_step. wp_step; [done|]. wp_step. wp_step; [apply Z.ltb_lt; lia|].
  wp_step. eapply wp_store; [done|].
  assert (it <| it_refcount ::= λ c, u16 (c - 1) |> = it <| it_refcount := it_refcount it - 1 |>) as ->.
  { unfold u16, upd, set_it_refcount. f_equal. apply Z.mod_small. lia. }
  set (it' := it <| it_refcount := _ |>).
  assert (block_size it' = block_size it) as Hb by done.
  assert (it_refcount it' = it_refcount it - 1) as Hc by done.
  wp_step. wp_step; [rec_simpl; apply lookup_insert_eq|].
  assert (refs_inv (s <| mem := <[x := it']> (mem s) |>) g T held) as Hr'.
  { destruct Hkv as [_ _ Hr _]. eapply refs_inv_insert; try done.
    - rewrite count_occ_cons_eq by done. lia.
    - intros y Hy. by rewrite count_occ_cons_neq.
    - intros y Hy. eapply rv_held; [done|]. by apply list_elem_of_further. }
  assert (table_inv (s <| mem := <[x := it']> (mem s) |>) T) as Ht'.
  { apply table_inv_mem; [apply Hkv|]. intros k y i _ Hi. destruct (decide (x = y)) as [<-|Hne].
    - exists it'. rewrite lookup_insert_eq. rewrite Hit in Hi. by injection Hi as <-.
    - exists i. by rewrite lookup_insert_ne. }
  destruct Hkv as [Hl Hq _ _]. wp_step.
  - destruct (log_position s g X ia p x Hl Hp Hx) as (h1&i&it1&Hh1&Hi&?&Hd&Hit1&?&?&?).
    rewrite Hh in Hh1. injection Hh1 as <-. rewrite Hit in Hit1. injection Hit1 as <-.
    destruct (log_inv_dies s g X ia p h x it it' Hl Hp Hh Hx Hit) as [Hf Hl']; [lia|lia|done|done|].
    pose proof (block_pos it). pose proof (gs_segsize Hgood). unfold sizeof_item in *.
    unfold ialloc_free. wp_step. eapply (wp_segment_from_part _ i); [done|done|lia|].
    wp_step. wp_step; [done|]. unfold segment_item_free. eapply wp_store; [done|].
    assert (item_totalsz it' = block_size it) as -> by exact (item_ok_totalsz it (Hok HX)).
    assert (h <| sg_freed ::= λ n, u32 (n + block_size it) |> = h <| sg_freed := sg_freed h + block_size it |>) as ->.
    { unfold upd, set_sg_freed. f_equal. apply u32_small.
      destruct (so_tiles _ _ _ _ (lv_log _ _ _ Hl ia p h Hp Hh)) as (e&_&He&_&Hfr).
      pose proof (dead_nonneg (mem s) (g_log g p)). lia. }
    exists it, (<[p := h <| sg_freed := sg_freed h + block_size it |>]> (headers s)). split_and!; [done..|].
    split; [exact Hl'| |by destruct Hr'|by destruct Ht'].
    eapply (queue_inv_change (s <| mem := <[x := it']> (mem s) |>)); [by eapply queue_inv_insert|..].
    + split; rec_simpl; try done. intros q. destruct (decide (p = q)) as [<-|?].
      * by rewrite lookup_insert_eq, Hh.
      * by rewrite lookup_insert_ne.
    + done.
    + rec_simpl. intros q h1 h2 Hh1. destruct (decide (p = q)) as [<-|?].
      * rewrite lookup_insert_eq. rewrite Hh in Hh1. injection Hh1 as <-. by intros [= <-].
      * rewrite lookup_insert_ne by done. rewrite Hh1. by intros [= <-].
    + intros. rec_simpl. eauto.
  - exists it, (headers s). split_and!; [done..|].
    change (kv_inv (s <| mem := <[x := it']> (mem s) |>) g T held X W).
    match goal with H : (_ =? 0) = false |- _ => rewrite Z.eqb_neq in H end. split.
    + apply (log_inv_insert s g X x it it'); try done; lia.
    + by eapply queue_inv_insert.
    + done.
    + done.
Qed.
End log.
