(* ===== verification/KvsTable.v ===== *)
(** * The hash table of the key-value store

    [hasht_get] returns the item that the map has for the key, with one more
    reference; [hasht_put] replaces or adds the item of a key, or leaves the
    table alone when it compares and the item is not the expected one. *)

From S2P Require Import Prelude Links F64 Jenkins Kvs KvsInv KvsLog.

Section table.
Context {cfg : settings} {plt : platform}.
Implicit Types (s : kvs) (g : ghost) (x : Z) (it : item) (T : gmap (list Z) Z).

Lemma wp_item_key_matches s x it key (Q : bool → kvs → Prop) :
  mem s !! x = Some it → item_ok it → Q (bool_decide (item_key it = key)) s →
  wp (item_key_matches x key) Q s.
Proof using Type.
  intros Hit Hok HQ. pose proof (item_ok_key it Hok) as Hk. unfold item_key_matches.
  wp_step. wp_step; [done|]. destruct (Z.eqb_spec (Z.of_nat (length key)) (it_keylen it)) as [Heq|Hne].
  - wp_step. unfold read_data. wp_step. wp_step; [done|].
    assert (Z.of_nat (length key) ≤ Z.of_nat (length (it_data it))) as Hle.
    { destruct Hok as (?&?&Hb). unfold block_size in Hb. unfold sizeof_item in *. lia. }
    destruct (Z.leb_spec (0 + Z.of_nat (length key)) (Z.of_nat (length (it_data it)))); [|lia].
    wp_step. wp_step. simpl. rewrite Heq. exact HQ.
  - wp_step. rewrite bool_decide_false in HQ; [done|]. intros <-. lia.
Qed.

(** ** Searching a bucket *)
Section bucket.
Context (s : kvs) (T : gmap (list Z) Z) (nb b : Z) (bk : hash_bucket) (l : list Z).
Context (Hbk : bucket_ok (mem s) nb T b bk l) (key : list Z).
Context (Hinj : ∀ k x it, T !! k = Some x → mem s !! x = Some it → item_key it = k).

(** An item of the bucket has the key when the map says so. *)
Lemma member_key x : x ∈ directs bk ++ l →
  ∃ it, mem s !! x = Some it ∧ item_ok it ∧ it_hv it = hash_of (item_key it) ∧
    (item_key it = key ↔ T !! key = Some x).
Proof using Hbk Hinj.
  intros Hx. destruct (bo_member _ _ _ _ _ _ Hbk x Hx) as (it&Hit&Hhv&Hmod&HT&Hok).
  exists it. split_and!; [done..|]. split; [by intros <-|]. intros HT'. by eapply Hinj.
Qed.

Lemma wp_get_direct is_ :
  wp (get_direct bk is_ key (hash_of key)) (λ o s', s' = s ∧
    match o with
    | Some x => T !! key = Some x
    | None => ∀ i x, i ∈ is_ → slot bk i = Some x → T !! key ≠ Some x
    end) s.
Proof using Hbk Hinj.
  induction is_ as [|i is_ IH]; simpl; [wp_step; split; [done|set_solver]|].
  assert (∀ x, slot bk i = Some x → T !! key ≠ Some x →
    wp (get_direct bk is_ key (hash_of key)) (λ o s', s' = s ∧
      match o with
      | Some x => T !! key = Some x
      | None => ∀ j x, j ∈ i :: is_ → slot bk j = Some x → T !! key ≠ Some x
      end) s) as Hnext.
  { intros x Hx Hne. eapply wp_mono; [exact IH|]. intros [y|] s' [-> Hy]; (split; [done|]); [done|].
    intros j z [->|Hj]%elem_of_cons Hz; [congruence|]. by eapply Hy. }
  destruct (slot bk i) as [x|] eqn:Hs.
  - destruct (member_key x) as (it&Hit&Hok&Hhv&Hk); [by eapply slot_member|].
    rewrite (bo_hash _ _ _ _ _ _ Hbk i x it Hs Hit).
    destruct (Z.eqb_spec (it_hv it) (hash_of key)) as [Heq|Hne].
    + wp_step. eapply wp_item_key_matches; [done..|]. case_bool_decide as Hd.
      * wp_step. split; [done|]. by apply Hk.
      * apply (Hnext x); [done|]. by rewrite <- Hk.
    + apply (Hnext x); [done|]. intros HT%Hk. congruence.
  - eapply wp_mono; [exact IH|]. intros [y|] s' [-> Hy]; (split; [done|]); [done|].
    intros j z [->|Hj]%elem_of_cons Hz; [congruence|]. by eapply Hy.
Qed.

Lemma chain_short : (length l ≤ size (mem s))%nat.
Proof using Hbk.
  rewrite <- size_dom, <- (size_list_to_set (C := gset Z) l).
  - apply subseteq_size. intros x. rewrite elem_of_list_to_set, elem_of_dom. intros Hx.
    destruct (bo_member _ _ _ _ _ _ Hbk x) as (it&Hit&_); [apply elem_of_app; by right|eauto].
  - pose proof (bo_nodup _ _ _ _ _ _ Hbk) as Hnd. by apply NoDup_app in Hnd as (_&_&?).
Qed.

(** The search of the chain, behind its first item. *)
Lemma wp_chain_loop n pre prev o rest :
  l = pre ++ prev :: rest → chain (next_item (mem s)) o rest → (length rest < n)%nat →
  wp (loop n (chain_body key (hash_of key)) (prev, o)) (λ c s', s' = s ∧
    match c with
    | (prev, Some x) => T !! key = Some x ∧ ∃ l1 l2, l = l1 ++ prev :: x :: l2
    | (prev, None) => ∀ y, y ∈ rest → T !! key ≠ Some y
    end) s.
Proof using Hbk Hinj.
  revert n pre prev o. induction rest as [|x rest IH]; intros [|n] pre prev o Hl Hch Hn; simpl in *; try lia.
  - subst o. wp_step. wp_step. wp_step. split; [done|set_solver].
  - destruct Hch as (->&nx&Hnx&Hch).
    destruct (member_key x) as (it&Hit&Hok&Hhv&Hk).
    { rewrite Hl. apply elem_of_app. right. apply elem_of_app. right. right. apply list_elem_of_here. }
    unfold next_item in Hnx. rewrite Hit in Hnx. injection Hnx as <-.
    assert (wp (item_hkey_matches x key (hash_of key)) (λ m s', s' = s ∧ m = bool_decide (T !! key = Some x)) s) as Hm.
    { unfold item_hkey_matches. wp_step. wp_step; [done|]. destruct (Z.eqb_spec (it_hv it) (hash_of key)).
      - eapply wp_item_key_matches; [done..|]. split; [done|]. by apply bool_decide_ext.
      - wp_step. split; [done|]. rewrite bool_decide_false; [done|]. intros HT%Hk. congruence. }
    wp_step. wp_step. eapply wp_mono; [exact Hm|]. intros m s' [-> ->]. case_bool_decide as HT.
    + wp_step. wp_step. split; [done|]. split; [done|]. by exists pre, rest.
    + wp_step. wp_step; [done|]. wp_step. eapply wp_mono.
      * apply (IH n (pre ++ [prev]) x); [by rewrite <- app_assoc|done|lia].
      * intros [p [y|]] s' [-> Hy]; (split; [done|]); [done|].
        intros z [->|Hz]%elem_of_cons; [done|]. by apply Hy.
Qed.

Lemma wp_chain_find :
  wp (chain_find key (hash_of key) (slot bk 4)) (λ c s', s' = s ∧
    match c with
    | None => l = []
    | Some (prev, Some x) => T !! key = Some x ∧ ∃ l1 l2, l = l1 ++ prev :: x :: l2
    | Some (prev, None) => ∃ x l', l = x :: l' ∧ slot bk 4 = Some x ∧ ∀ y, y ∈ l' → T !! key ≠ Some y
    end) s.
Proof using Hbk Hinj.
  pose proof (bo_chain _ _ _ _ _ _ Hbk) as Hch. pose proof chain_short as Hlen. unfold chain_find.
  assert (l = [] ∨ ∃ x0 l0, l = x0 :: l0) as [Hl|(x0&l0&Hl)] by (clear; destruct l; eauto); rewrite Hl in Hch; simpl in Hch.
  { rewrite Hch. wp_step. done. }
  destruct Hch as (->&n&Hn&Hch). unfold next_item in Hn. destruct (mem s !! x0) as [it0|] eqn:Hit0; [|done].
  injection Hn as <-. wp_step. wp_step; [done|]. wp_step. wp_step. wp_step.
  eapply wp_mono; [apply (wp_chain_loop _ [] x0 _ l0); [done|done|rewrite Hl in Hlen; simpl in Hlen; lia]|].
  intros [p [y|]] s' [-> Hy]; wp_step; (split; [done|]); [done|]. by exists x0, l0.
Qed.

(** The bucket of the key has the item, if there is one. *)
Lemma bucket_complete x :
  b = hash_of key mod nb → T !! key = Some x →
  (∃ i, (i < 4)%nat ∧ slot bk i = Some x) ∨ x ∈ l.
Proof using Hbk.
  intros Hb HT. destruct (bo_all _ _ _ _ _ _ Hbk key x HT) as [Hx _]; [done|].
  apply elem_of_app in Hx as [Hx|Hx]; [left|by right].
  apply list_elem_of_omap in Hx as (i&Hi%elem_of_seq&Hs). exists i. split; [lia|done].
Qed.

(** Not in a slot and not in the chain behind the last one. *)
Lemma bucket_missing :
  b = hash_of key mod nb →
  (∀ i x, i ∈ seq 0 BUCKET_NITEMS → slot bk i = Some x → T !! key ≠ Some x) →
  (∀ x l', l = x :: l' → ∀ y, y ∈ l' → T !! key ≠ Some y) → T !! key = None.
Proof using Hbk.
  intros Hb Hs Hl. apply eq_None_not_Some. intros [x HT].
  destruct (bucket_complete x Hb HT) as [(i&Hi&Hx)|Hx].
  - apply (Hs i x); [apply elem_of_seq; unfold BUCKET_NITEMS; lia|done..].
  - pose proof (bo_chain _ _ _ _ _ _ Hbk) as Hch. apply chain_head in Hch.
    apply list_elem_of_split in Hx as ([|y l1]&l2&Hx).
    + rewrite Hx in Hch. apply (Hs 4%nat x); [apply elem_of_seq; unfold BUCKET_NITEMS; lia|done..].
    + apply (Hl y (l1 ++ x :: l2) Hx x); [|done]. apply elem_of_app. right. apply list_elem_of_here.
Qed.

Lemma wp_search :
  b = hash_of key mod nb →
  wp (get_direct bk (seq 0 BUCKET_NITEMS) key (hash_of key)) (λ o s', s' = s ∧
    wp (match o with
        | Some it => mret (Some it)
        | None => c ← chain_find key (hash_of key) (slot bk (BUCKET_NITEMS - 1)); mret (c ≫= snd)
        end) (λ o s', s' = s ∧ o = T !! key) s) s.
Proof using Hbk Hinj.
  intros Hb. eapply wp_mono; [apply wp_get_direct|]. intros [x|] s' [-> Hx]; (split; [done|]).
  - wp_step. done.
  - wp_step. eapply wp_mono; [apply wp_chain_find|].
    intros [[p [y|]]|] s' [-> Hy]; wp_step; (split; [done|]); simpl.
    + symmetry. apply Hy.
    + symmetry. destruct Hy as (x&l'&Hl&_&Hy). apply bucket_missing; [done..|].
      intros x2 l2 Hl2. rewrite Hl in Hl2. by injection Hl2 as <- <-.
    + symmetry. apply bucket_missing; [done..|]. intros x l' Hl. by rewrite Hy in Hl.
Qed.
End bucket.

(** ** The array of the buckets *)
Lemma bucket_at_insert s b bk b' :
  bucket_at (s <| buckets ::= <[b := bk]> |>) b' = if decide (b = b') then bk else bucket_at s b'.
Proof using Type.
  unfold bucket_at. rec_simpl. destruct (decide (b = b')) as [->|Hne].
  - by rewrite lookup_insert_eq.
  - by rewrite lookup_insert_ne.
Qed.

Lemma wp_get_bucket s b (Q : hash_bucket → kvs → Prop) :
  0 ≤ b < nbuckets s → Q (bucket_at s b) s → wp (get_bucket b) Q s.
Proof using Type.
  intros Hb HQ. unfold get_bucket. wp_step. wp_step.
  destruct (Z.leb_spec 0 b), (Z.ltb_spec b (nbuckets s)); try lia. simpl. by wp_step.
Qed.

Lemma wp_put_bucket s b f (Q : unit → kvs → Prop) :
  0 ≤ b < nbuckets s → Q tt (s <| buckets ::= <[b := f (bucket_at s b)]> |>) → wp (put_bucket b f) Q s.
Proof using Type. intros Hb HQ. unfold put_bucket. wp_step. apply wp_get_bucket; [done|]. by wp_step. Qed.

Lemma wp_bucket_lock s b (Q : unit → kvs → Prop) :
  0 ≤ b < nbuckets s → unlocked s →
  Q tt (s <| buckets ::= <[b := (bucket_at s b) <| b_lock := true |>]> |>) → wp (bucket_lock b) Q s.
Proof using Type.
  intros Hb Hu HQ. unfold bucket_lock. wp_step. apply wp_get_bucket; [done|]. rewrite (Hu b).
  by apply wp_put_bucket.
Qed.

Definition same_slots (bk bk' : hash_bucket) : Prop := b_items bk' = b_items bk ∧ b_hashes bk' = b_hashes bk.

Lemma bucket_ok_slots m nb T b bk bk' l :
  bucket_ok m nb T b bk l → same_slots bk bk' → bucket_ok m nb T b bk' l.
Proof using Type.
  intros Hbk [H1 H2]. destruct bk as [sl hs lk], bk' as [sl' hs' lk']. simpl in *. subst.
  destruct Hbk. by split.
Qed.

Lemma kv_inv_buckets s g T held X W B :
  kv_inv s g T held X W → (∀ b, same_slots (bucket_at s b) (default bucket_zero (B !! b))) →
  kv_inv (s <| buckets := B |>) g T held X W.
Proof using Type.
  intros [Hl Hq Hr [Hn Hb]] HB. split.
  - eapply log_inv_change; [done|by split|]. rec_simpl. intros p h h' Hh Hh'. rewrite Hh in Hh'. injection Hh' as <-.
    split_and!; [done|by intros; eapply lv_log|by intros; eapply lv_new].
  - eapply queue_inv_change; [done|by split|done|rec_simpl; naive_solver|rec_simpl; eauto].
  - by destruct Hr.
  - split; rec_simpl; [done|]. intros b Hb'. destruct (Hb b Hb') as (l&Hl'). exists l.
    eapply bucket_ok_slots; [done|]. apply HB.
Qed.

Lemma kv_inv_lock s g T held X W b v :
  kv_inv s g T held X W →
  kv_inv (s <| buckets ::= <[b := (bucket_at s b) <| b_lock := v |>]> |>) g T held X W.
Proof using Type.
  intros Hkv. apply (kv_inv_buckets s g T held X W (<[b := (bucket_at s b) <| b_lock := v |>]> (buckets s))); [done|].
  intros b'. destruct (decide (b = b')) as [<-|Hne].
  - rewrite lookup_insert_eq. done.
  - rewrite lookup_insert_ne by done. done.
Qed.

(** ** Lookups *)
Definition content (it : item) : Z * Z * Z * list Z := (it_hv it, it_vallen it, it_keylen it, it_data it).

(** A step that changes neither the contents of items nor the allocators, and
    leaves no bucket locked. *)
Record quiet (s s' : kvs) : Prop := Quiet {
  qt_allocs : allocs s' = allocs s;
  qt_content x : content <$> mem s' !! x = content <$> mem s !! x;
  qt_unlocked : unlocked s';
}.

Lemma table_injective s T k x it :
  table_inv s T → T !! k = Some x → mem s !! x = Some it → item_key it = k.
Proof using Type. intros Ht HT Hit. destruct (tv_found s T k x Ht HT) as (it'&Hit'&<-). congruence. Qed.

(** Only the bucket [b] may be locked. *)
Definition locked_only (s : kvs) (b : Z) : Prop := ∀ b', b' ≠ b → b_lock (bucket_at s b') = false.

Lemma wp_bucket_unlock s g T held X W b :
  kv_inv s g T held X W → 0 ≤ b < nbuckets s → locked_only s b →
  wp (bucket_unlock b) (λ _ s', kv_inv s' g T held X W ∧ unlocked s' ∧ mem s' = mem s ∧ allocs s' = allocs s) s.
Proof using Type.
  intros Hkv Hb Hl. unfold bucket_unlock. apply wp_put_bucket; [done|]. split_and!; [by apply kv_inv_lock| |done..].
  intros b'. rewrite bucket_at_insert. case_decide as Hd; [done|]. by apply Hl.
Qed.

Lemma locked_only_lock s b v :
  unlocked s → locked_only (s <| buckets ::= <[b := (bucket_at s b) <| b_lock := v |>]> |>) b.
Proof using Type. intros Hu b' Hne. rewrite bucket_at_insert, decide_False by done. apply Hu. Qed.

Lemma content_refcount (m : gmap Z item) x it n y :
  m !! x = Some it → content <$> <[x := it <| it_refcount := n |>]> m !! y = content <$> m !! y.
Proof using Type.
  intros Hx. destruct (decide (x = y)) as [<-|Hne].
  - by rewrite lookup_insert_eq, Hx.
  - by rewrite lookup_insert_ne.
Qed.

Lemma wp_hasht_get s g T held X W key :
  kv_inv s g T held X W → unlocked s → Z.of_nat (length held) < 2 ^ 15 →
  wp (hasht_get key (hash_of key)) (λ o s', o = T !! key ∧ quiet s s' ∧
    kv_inv s' g T (option_list o ++ held) X W) s.
Proof using Type.
  intros Hkv Hu Hlen. pose proof (kv_table _ _ _ _ _ _ Hkv) as Ht.
  set (b := hash_of key mod nbuckets s). assert (0 ≤ b < nbuckets s) as Hb by (apply Z.mod_pos_bound, Ht).
  destruct (tv_bucket _ _ Ht b Hb) as (l&Hbk).
  unfold hasht_get. wp_step. wp_step. fold b. wp_step. apply wp_bucket_lock; [done..|].
  pose proof (kv_inv_lock s g T held X W b true Hkv) as Hkv1.
  set (bk := bucket_at s b) in *. set (s1 := s <| buckets ::= _ |>) in *.
  assert (bucket_at s1 b = bk <| b_lock := true |>) as Hb1.
  { unfold s1. rewrite bucket_at_insert. by rewrite decide_True. }
  assert (bucket_ok (mem s1) (nbuckets s1) T b (bk <| b_lock := true |>) l) as Hbk1
    by (by eapply bucket_ok_slots).
  pose proof (λ k x it, table_injective s1 T k x it (kv_table _ _ _ _ _ _ Hkv1)) as Hinj.
  wp_step. apply wp_get_bucket; [done|]. rewrite Hb1. wp_step.
  eapply wp_mono; [by apply (wp_search s1 T _ b _ l Hbk1 key Hinj)|]. intros o1 s' [-> Ho]. wp_step.
  eapply wp_mono; [exact Ho|]. intros o s' [-> ->]. wp_step.
  assert (locked_only s1 b) as Hlo by by apply locked_only_lock.
  assert (∀ x, content <$> mem s1 !! x = content <$> mem s !! x) as Hc1 by done.
  assert (nbuckets s1 = nbuckets s ∧ allocs s1 = allocs s) as [Hn1 Ha1] by done.
  clearbody s1. destruct (T !! key) as [x|] eqn:HT; simpl.
  - destruct (tv_found _ _ _ _ (kv_table _ _ _ _ _ _ Hkv1) HT) as (it&Hit&Hk).
    eapply wp_mono; [eapply (wp_item_ref s1 g T held X W x it); try done|].
    + eapply rv_table; [apply Hkv1|done].
    + by eapply live_table.
    + intros _ s2 [Hs2 Hkv2]. wp_step. assert (nbuckets s2 = nbuckets s) by by rewrite Hs2.
      eapply wp_mono; [eapply wp_bucket_unlock; [done|lia|by rewrite Hs2]|].
      intros _ s3 (Hkv3&Hu3&Hm3&Ha3). wp_step. split_and!; [done| |done]. split; [|intros y|done].
      * by rewrite Ha3, Hs2.
      * rewrite Hm3, Hs2. rec_simpl. rewrite <- Hc1. by apply content_refcount.
  - wp_step. wp_step. eapply wp_mono; [eapply wp_bucket_unlock; [done|lia|done]|].
    intros _ s3 (Hkv3&Hu3&Hm3&Ha3). wp_step. split_and!; [done| |done]. split; [|intros y|done].
    + by rewrite Ha3.
    + by rewrite Hm3.
Qed.

(** ** Putting an item into a bucket *)
Definition set_slot (bk : hash_bucket) (i : nat) (y : Z) : hash_bucket := bk <| b_items ::= <[i := Some y]> |>.

Lemma five (l : list (option Z)) : length l = BUCKET_NITEMS → ∃ a b c d e, l = [a; b; c; d; e].
Proof using Type. do 6 (destruct l as [|? l]; try done). eauto 10. Qed.

Lemma directs_set bk i y :
  length (b_items bk) = BUCKET_NITEMS → (i < 4)%nat →
  ∃ M, directs bk ≡ₚ option_list (slot bk i) ++ M ∧ directs (set_slot bk i y) ≡ₚ y :: M.
Proof using Type.
  intros (a&b&c&d&e&Hl)%five Hi. unfold directs, set_slot, slot. rec_simpl. rewrite Hl.
  destruct i as [|[|[|[|i]]]]; [..|lia]; simpl.
  - exists (option_list b ++ option_list c ++ option_list d).
    destruct a, b, c, d; simpl; split; try done; solve_Permutation.
  - exists (option_list a ++ option_list c ++ option_list d).
    destruct a, b, c, d; simpl; split; try done; solve_Permutation.
  - exists (option_list a ++ option_list b ++ option_list d).
    destruct a, b, c, d; simpl; split; try done; solve_Permutation.
  - exists (option_list a ++ option_list b ++ option_list c).
    destruct a, b, c, d; simpl; split; try done; solve_Permutation.
Qed.

Lemma directs_set_last bk y :
  length (b_items bk) = BUCKET_NITEMS →
  directs (set_slot bk 4 y) = directs bk ∧ slot (set_slot bk 4 y) 4 = Some y.
Proof using Type. intros (a&b&c&d&e&Hl)%five. unfold directs, set_slot, slot. rec_simpl. by rewrite Hl. Qed.

Lemma slot_set bk i y j :
  length (b_items bk) = BUCKET_NITEMS → (i < 5)%nat →
  slot (set_slot bk i y) j = if decide (i = j) then Some y else slot bk j.
Proof using Type.
  intros Hl Hi. unfold set_slot, slot. rec_simpl. case_decide as Hd.
  - subst. rewrite list_lookup_insert_eq; [done|]. by rewrite Hl.
  - by rewrite list_lookup_insert_ne.
Qed.

Section put.
Context (m m' : gmap Z item) (nb : Z) (T : gmap (list Z) Z) (key : list Z) (nit : Z) (n : item).
Context (Hinj : ∀ k x it, T !! k = Some x → m !! x = Some it → item_key it = k).
Context (Hm : ∀ y it, y ≠ nit → m !! y = Some it → ∃ it', m' !! y = Some it' ∧ content it' = content it).
Context (Hn : m' !! nit = Some n) (Hkey : item_key n = key) (Hhv : it_hv n = hash_of key) (Hok : item_ok n).
Context (Hnew : ∀ k, T !! k ≠ Some nit).

Lemma content_key it it' :
  content it' = content it → item_key it' = item_key it ∧ it_hv it' = it_hv it ∧ (item_ok it → item_ok it').
Proof using Type.
  intros [= Hv Hl Hk Hd]. unfold item_key, item_ok, block_size. by rewrite Hk, Hl, Hd.
Qed.

Lemma not_member b bk l : bucket_ok m nb T b bk l → nit ∉ directs bk ++ l.
Proof using Hnew.
  intros Hbk Hx. destruct (bo_member _ _ _ _ _ _ Hbk nit Hx) as (it&_&_&_&HT&_). by apply Hnew in HT.
Qed.

Lemma bucket_put b bk bk' l l' M :
  bucket_ok m nb T b bk l → b = hash_of key mod nb →
  directs bk ++ l ≡ₚ option_list (T !! key) ++ M → directs bk' ++ l' ≡ₚ nit :: M →
  length (b_items bk') = BUCKET_NITEMS ∧ length (b_hashes bk') = BUCKET_NITEMS →
  chain (next_item m') (slot bk' 4) l' →
  (∀ i y, slot bk' i = Some y →
     y = nit ∧ slot_hash bk' i = hash_of key ∨ slot bk i = Some y ∧ slot_hash bk' i = slot_hash bk i) →
  bucket_ok m' nb (<[key := nit]> T) b bk' l'.
Proof using Hinj Hm Hn Hkey Hhv Hok Hnew.
  intros Hbk Hb HM HM' Hlen Hch Hsl. pose proof (not_member _ _ _ Hbk) as Hnm.
  pose proof (bo_nodup _ _ _ _ _ _ Hbk) as Hnd. rewrite HM in Hnd, Hnm.
  apply NoDup_app in Hnd as (_&Hdis&HndM).
  assert (∀ y, y ∈ M → ∃ it it', m !! y = Some it ∧ m' !! y = Some it' ∧ content it' = content it ∧
    it_hv it = hash_of (item_key it) ∧ it_hv it mod nb = b ∧ T !! item_key it = Some y ∧ item_ok it ∧
    item_key it ≠ key) as HMold.
  { intros y Hy. destruct (bo_member _ _ _ _ _ _ Hbk y) as (it&Hit&Hh&Hmod&HT&Hoki).
    { rewrite HM. apply elem_of_app. by right. }
    destruct (Hm y it) as (it'&Hit'&Hc); [by intros ->; apply Hnew in HT|done|].
    exists it, it'. split_and!; try done. intros Hk. apply (Hdis y); [|done].
    rewrite <- Hk, HT. apply list_elem_of_singleton. done. }
  split; try done.
  - rewrite HM'. apply NoDup_cons. split; [|done]. intros Hx. apply Hnm, elem_of_app. by right.
  - intros y. rewrite HM'. intros [->|Hy]%elem_of_cons.
    + exists n. rewrite Hkey, Hhv, lookup_insert_eq. by subst b.
    + destruct (HMold y Hy) as (it&it'&Hit&Hit'&Hc&Hh&Hmod&HT&Hoki&Hne).
      destruct (content_key _ _ Hc) as (Hk&Hv&Ho). exists it'. rewrite Hk, Hv, lookup_insert_ne by done.
      split_and!; auto.
  - intros k y. destruct (decide (key = k)) as [<-|Hne].
    + rewrite lookup_insert_eq. intros [= <-] _. rewrite HM'. split; [apply list_elem_of_here|eauto].
    + rewrite lookup_insert_ne by done. intros HT Hk. destruct (bo_all _ _ _ _ _ _ Hbk k y HT Hk) as (Hy&it&Hit&Hki).
      rewrite HM in Hy. apply elem_of_app in Hy as [Hy|Hy].
      * destruct (T !! key) as [z|] eqn:HTk; [|by apply not_elem_of_nil in Hy].
        apply list_elem_of_singleton in Hy as ->. destruct Hne. rewrite <- Hki. symmetry. by eapply Hinj.
      * rewrite HM'. split; [by apply list_elem_of_further|].
        destruct (HMold y Hy) as (it1&it'&Hit1&Hit'&Hc&_). rewrite Hit in Hit1. injection Hit1 as <-.
        exists it'. split; [done|]. by rewrite (proj1 (content_key _ _ Hc)).
  - intros i y it Hs Hit. destruct (Hsl i y Hs) as [[-> ->]|[Hs' ->]].
    + rewrite Hn in Hit. injection Hit as <-. done.
    + assert (y ∈ directs bk ++ l) as Hy by by eapply slot_member.
      destruct (bo_member _ _ _ _ _ _ Hbk y Hy) as (it0&Hit0&_&_&HT&_).
      destruct (Hm y it0) as (it'&Hit'&Hc); [by intros ->; apply Hnew in HT|done|].
      rewrite Hit in Hit'. injection Hit' as <-. destruct (content_key _ _ Hc) as (_&->&_).
      by eapply (bo_hash _ _ _ _ _ _ Hbk).
Qed.

Lemma bucket_other b bk l :
  bucket_ok m nb T b bk l → b ≠ hash_of key mod nb →
  (∀ y it it', y ∈ directs bk ++ l → m !! y = Some it → m' !! y = Some it' → it_next it' = it_next it) →
  bucket_ok m' nb (<[key := nit]> T) b bk l.
Proof using Hinj Hm Hnew.
  intros Hbk Hb Hnx. pose proof Hbk as [Hlen Hch Hnd Hmem Hall Hhash].
  assert (∀ y, y ∈ directs bk ++ l → ∃ it it', m !! y = Some it ∧ m' !! y = Some it' ∧ content it' = content it ∧
    it_hv it = hash_of (item_key it) ∧ it_hv it mod nb = b ∧ T !! item_key it = Some y ∧ item_ok it ∧
    item_key it ≠ key) as Hold.
  { intros y Hy. destruct (Hmem y Hy) as (it&Hit&Hh&Hmod&HT&Hoki).
    destruct (Hm y it) as (it'&Hit'&Hc); [by intros ->; apply Hnew in HT|done|].
    exists it, it'. split_and!; try done. congruence. }
  split; try done.
  - eapply chain_ext; [done|]. intros y Hy. assert (y ∈ directs bk ++ l) as Hy' by (apply elem_of_app; by right).
    destruct (Hold y Hy') as (it&it'&Hit&Hit'&_). unfold next_item. rewrite Hit, Hit'. simpl. f_equal. by eapply Hnx.
  - intros y Hy. destruct (Hold y Hy) as (it&it'&Hit&Hit'&Hc&Hh&Hmod&HT&Hoki&Hne).
    destruct (content_key _ _ Hc) as (Hk&Hv&Ho). exists it'. rewrite Hk, Hv, lookup_insert_ne by done.
    split_and!; auto.
  - intros k y. destruct (decide (key = k)) as [<-|Hne]; [congruence|].
    rewrite lookup_insert_ne by done. intros HT Hk. destruct (Hall k y HT Hk) as (Hy&it&Hit&Hki).
    split; [done|]. destruct (Hold y Hy) as (it1&it'&Hit1&Hit'&Hc&_). rewrite Hit in Hit1. injection Hit1 as <-.
    exists it'. split; [done|]. by rewrite (proj1 (content_key _ _ Hc)).
  - intros i y it Hs Hit. assert (y ∈ directs bk ++ l) as Hy by by eapply slot_member.
    destruct (Hold y Hy) as (it1&it'&Hit1&Hit'&Hc&_). rewrite Hit in Hit'. injection Hit' as <-.
    destruct (content_key _ _ Hc) as (_&->&_). by eapply Hhash.
Qed.
End put.

(** A step that changes only the links of items. *)
Definition same_items (m m' : gmap Z item) : Prop :=
  ∀ y it, m !! y = Some it →
    ∃ it', m' !! y = Some it' ∧ content it' = content it ∧ it_refcount it' = it_refcount it.

Lemma kv_log_links s g X W m' B :
  log_inv s g X → queue_inv s g W → same_items (mem s) m' →
  log_inv (s <| mem := m' |> <| buckets := B |>) g X ∧ queue_inv (s <| mem := m' |> <| buckets := B |>) g W.
Proof using Type.
  intros Hl Hq Hm.
  assert (∀ y it, mem s !! y = Some it → ∃ it', m' !! y = Some it' ∧ block_size it' = block_size it ∧
    (it_refcount it' = 0 ↔ it_refcount it = 0) ∧ (item_ok it → item_ok it')) as Hm'.
  { intros y it Hy. destruct (Hm y it Hy) as (it'&Hy'&Hc&Hr). exists it'. rewrite Hr.
    destruct (content_key _ _ Hc) as (_&_&Ho). split_and!; try done.
    unfold content in Hc. injection Hc as _ _ _ Hd. unfold block_size. by rewrite Hd. }
  split.
  - eapply log_inv_change; [done|by split|]. rec_simpl. intros p h h' Hh Hh'. rewrite Hh in Hh'. injection Hh' as <-.
    split_and!; [done| |by intros; eapply lv_new]. intros ia Hp. eapply seg_ok_mem; [by eapply lv_log|].
    intros y it _ Hy. destruct (Hm' y it Hy) as (it'&?&?&?&?). eauto 10.
  - eapply queue_inv_change; [done|by split|done|rec_simpl; naive_solver|rec_simpl].
    intros ia p y it _ _ Hy. destruct (Hm' y it Hy) as (it'&?&?&_). eauto.
Qed.

Lemma kv_put s g T held X W m' B key nit n :
  kv_inv s g T (nit :: held) X W → same_items (mem s) m' →
  (∀ k, T !! k ≠ Some nit) → m' !! nit = Some n → item_key n = key → it_hv n = hash_of key → item_ok n →
  let b := hash_of key mod nbuckets s in
  (∃ l', bucket_ok m' (nbuckets s) (<[key := nit]> T) b (default bucket_zero (B !! b)) l') →
  (∀ b' , b' ≠ b → same_slots (bucket_at s b') (default bucket_zero (B !! b'))) →
  (∀ b' l, b' ≠ b → bucket_ok (mem s) (nbuckets s) T b' (bucket_at s b') l →
     ∀ y it it', y ∈ directs (bucket_at s b') ++ l → mem s !! y = Some it → m' !! y = Some it' →
       it_next it' = it_next it) →
  kv_inv (s <| mem := m' |> <| buckets := B |>) g (<[key := nit]> T) (option_list (T !! key) ++ held) X W.
Proof using Type.
  intros [Hl Hq Hr Ht] Hm Hnew Hn Hkey Hhv Hok b (l'&Hb) Hslots Hnext.
  destruct (kv_log_links s g X W m' B Hl Hq Hm) as [Hl' Hq'].
  assert (∀ k x it, T !! k = Some x → mem s !! x = Some it → item_key it = k) as Hinj
    by (intros k x it; by apply table_injective).
  split; [done..| |].
  - destruct Hr as [Hc HT Hh]. split; rec_simpl.
    + intros ia a p y it' Hp Ha Hy Hy'.
      destruct (log_position s g X ia p y Hl Hp Hy) as (_&_&it&_&_&_&_&Hit&_).
      destruct (Hm y it Hit) as (it2&Hit2&Hcont&Hrc). rewrite Hy' in Hit2. injection Hit2 as <-.
      rewrite Hrc, (Hc ia a p y it Hp Ha Hy Hit). destruct (content_key _ _ Hcont) as (Hk&_&_).
      unfold refs. rewrite Hk, count_occ_app. destruct (decide (nit = y)) as [<-|Hne].
      * rewrite (decide_False _ _ (Hnew _)), count_occ_cons_eq by done.
        rewrite Hn in Hy'. injection Hy' as <-. rewrite <- Hk, Hkey, lookup_insert_eq.
        rewrite (decide_True (P := Some nit = Some nit)) by done.
        assert (count_occ Z.eq_dec (option_list (T !! key)) nit = 0%nat) as ->; [|lia].
        apply count_occ_not_In. intros Hin%list_elem_of_In. apply (Hnew key).
        destruct (T !! key); [|by apply not_elem_of_nil in Hin]. by apply list_elem_of_singleton in Hin as ->.
      * rewrite count_occ_cons_neq by done. destruct (decide (item_key it = key)) as [He|He].
        -- rewrite He, lookup_insert_eq. rewrite (decide_False (P := Some nit = Some y)) by congruence.
           destruct (T !! key) as [z|] eqn:HTk; simpl.
           ++ destruct (Z.eq_dec z y) as [->|Hz].
              ** rewrite (decide_True (P := Some y = Some y)) by done. lia.
              ** rewrite (decide_False (P := Some z = Some y)) by congruence. lia.
           ++ lia.
        -- rewrite lookup_insert_ne by done.
           assert (count_occ Z.eq_dec (option_list (T !! key)) y = 0%nat) as ->; [|lia].
           apply count_occ_not_In. intros Hin%list_elem_of_In.
           destruct (T !! key) as [z|] eqn:HTk; [|by apply not_elem_of_nil in Hin].
           apply list_elem_of_singleton in Hin as ->. by eapply He, Hinj.
    + intros k x. destruct (decide (key = k)) as [<-|Hne].
      * rewrite lookup_insert_eq. intros [= <-]. apply Hh, list_elem_of_here.
      * rewrite lookup_insert_ne by done. apply HT.
    + intros x [Hx|Hx]%elem_of_app.
      * destruct (T !! key) as [z|] eqn:HTk; [|by apply not_elem_of_nil in Hx].
        apply list_elem_of_singleton in Hx as ->. by eapply HT.
      * apply Hh. by apply list_elem_of_further.
  - destruct Ht as [Hsz Htb]. split; rec_simpl; [done|]. intros b' Hb'. destruct (decide (b' = b)) as [->|Hne].
    + exists l'. exact Hb.
    + destruct (Htb b' Hb') as (l&Hl1). exists l. eapply bucket_ok_slots; [|by apply Hslots].
      eapply (bucket_other (mem s)); [exact Hinj| |done..|by apply Hnext].
      intros y it _ Hy. destruct (Hm y it Hy) as (it'&?&?&_). eauto.
Qed.

Lemma same_items_next m x it o : m !! x = Some it → same_items m (<[x := it <| it_next := o |>]> m).
Proof using Type.
  intros Hx y i Hy. destruct (decide (x = y)) as [<-|Hne].
  - rewrite lookup_insert_eq. rewrite Hx in Hy. injection Hy as <-. by eexists.
  - rewrite lookup_insert_ne by done. eauto.
Qed.

(** The item goes into the slot [i]: one of the first four, over nothing or
    over the item it replaces, or the last, in front of a chain. *)
Lemma kv_put_slot s g T held W nit n key b bk' l i nx :
  kv_inv s g T (nit :: held) None W → (∀ k, T !! k ≠ Some nit) → mem s !! nit = Some n →
  item_key n = key → it_hv n = hash_of key → item_ok n → b = hash_of key mod nbuckets s →
  bucket_ok (mem s) (nbuckets s) T b (bucket_at s b) l →
  b_items bk' = <[i := Some nit]> (b_items (bucket_at s b)) → length (b_hashes bk') = BUCKET_NITEMS →
  slot_hash bk' i = hash_of key → (∀ j, j ≠ i → slot_hash bk' j = slot_hash (bucket_at s b) j) →
  ((i < 4)%nat ∧ slot (bucket_at s b) i = T !! key ∨
   i = 4%nat ∧ ∃ l2, l = option_list (T !! key) ++ l2 ∧ chain (next_item (mem s)) nx l2) →
  kv_inv (s <| mem := <[nit := n <| it_next := nx |>]> (mem s) |> <| buckets := <[b := bk']> (buckets s) |>)
    g (<[key := nit]> T) (option_list (T !! key) ++ held) None W.
Proof using Type.
  intros Hkv Hnew Hn Hkey Hhv Hok Hb Hbk Hits Hhs Hhi Hhj Hi.
  set (n' := n <| it_next := nx |>). set (m' := <[nit := n']> (mem s)). set (bk := bucket_at s b) in *.
  pose proof (same_items_next _ nit n nx Hn) as Hsame. fold n' m' in Hsame.
  assert (∀ k x it, T !! k = Some x → mem s !! x = Some it → item_key it = k) as Hinj
    by (intros k x it; apply table_injective, Hkv).
  assert (m' !! nit = Some n') as Hn' by apply lookup_insert_eq.
  destruct (bo_length _ _ _ _ _ _ Hbk) as [Hlen _]. pose proof (not_member _ _ _ _ Hnew _ _ _ Hbk) as Hnm.
  assert (∀ l2, (∀ y, y ∈ l2 → y ∈ directs bk ++ l) → ∀ o, chain (next_item (mem s)) o l2 → chain (next_item m') o l2) as Hchain.
  { intros l2 Hsub o Hch. eapply chain_ext; [done|]. intros y Hy. unfold next_item, m'.
    rewrite lookup_insert_ne; [done|]. intros <-. by apply Hnm, Hsub. }
  assert (∀ j, slot bk' j = slot (set_slot bk i nit) j) as Hsl by (intros j; unfold slot, set_slot; by rewrite Hits).
  assert (directs bk' = directs (set_slot bk i nit)) as Hdir.
  { unfold directs. simpl. by rewrite !Hsl. }
  assert (i < 5)%nat as Hi5 by lia.
  apply (kv_put s g T held None W m' (<[b := bk']> (buckets s)) key nit n'); try done.
  - rewrite <- Hb, lookup_insert_eq. change (default bucket_zero (Some bk')) with bk'.
    assert (∃ l' M, directs bk ++ l ≡ₚ option_list (T !! key) ++ M ∧ directs bk' ++ l' ≡ₚ nit :: M ∧
      chain (next_item m') (slot bk' 4) l') as (l'&M&HM&HM'&Hch').
    { rewrite Hdir, Hsl, (slot_set bk i nit 4 Hlen Hi5). destruct Hi as [[Hi Hs]|[-> (l2&Hl&Hc)]].
      - destruct (directs_set bk i nit Hlen Hi) as (M&H1&H2). exists l, (M ++ l). rewrite H1, H2, Hs.
        split_and!; [by rewrite app_assoc|done|]. rewrite decide_False by lia. apply Hchain; [|apply Hbk].
        intros y Hy. apply elem_of_app. by right.
      - destruct (directs_set_last bk nit Hlen) as [H1 _]. exists (nit :: l2), (directs bk ++ l2). rewrite H1, Hl.
        split_and!; [solve_Permutation|solve_Permutation|]. rewrite decide_True by done. split; [done|].
        exists nx. split; [unfold next_item; by rewrite Hn'|]. apply Hchain; [|done].
        intros y Hy. rewrite Hl, !elem_of_app. by right; right. }
    exists l'. eapply (bucket_put (mem s) m' (nbuckets s) T key nit n' Hinj); try done.
    + intros y it _ Hy. destruct (Hsame y it Hy) as (it'&?&?&_). eauto.
    + rewrite Hits. split; [by rewrite length_insert|done].
    + intros j y Hj. rewrite Hsl, (slot_set bk i nit j Hlen Hi5) in Hj. case_decide as Hd.
      * subst j. left. injection Hj as <-. done.
      * right. split; [done|]. by apply Hhj.
  - intros b' Hb'. rewrite <- Hb in Hb'. by rewrite lookup_insert_ne.
  - intros b' l1 Hb' Hbk' y it it' Hy Hit. unfold m'. rewrite lookup_insert_ne.
    + rewrite Hit. by intros [= <-].
    + intros <-. by eapply (not_member _ _ _ _ Hnew).
Qed.

Lemma same_items_trans m1 m2 m3 : same_items m1 m2 → same_items m2 m3 → same_items m1 m3.
Proof using Type.
  intros H1 H2 y it Hy. destruct (H1 y it Hy) as (it1&Hy1&Hc1&Hr1). destruct (H2 y it1 Hy1) as (it2&Hy2&Hc2&Hr2).
  exists it2. split_and!; [done|congruence..].
Qed.

(** The item replaces one in the chain. *)
Lemma kv_put_chain s g T held W nit n key b l l1 l2 prev x pi xi :
  kv_inv s g T (nit :: held) None W → (∀ k, T !! k ≠ Some nit) → mem s !! nit = Some n →
  item_key n = key → it_hv n = hash_of key → item_ok n → b = hash_of key mod nbuckets s →
  bucket_ok (mem s) (nbuckets s) T b (bucket_at s b) l →
  l = l1 ++ prev :: x :: l2 → T !! key = Some x → mem s !! prev = Some pi → mem s !! x = Some xi →
  kv_inv (s <| mem := <[prev := pi <| it_next := Some nit |>]> (<[nit := n <| it_next := it_next xi |>]> (mem s)) |>)
    g (<[key := nit]> T) (x :: held) None W.
Proof using Type.
  intros Hkv Hnew Hn Hkey Hhv Hok Hb Hbk Hl HT Hp Hx.
  set (n' := n <| it_next := it_next xi |>). set (m1 := <[nit := n']> (mem s)).
  set (m' := <[prev := _]> m1). set (bk := bucket_at s b) in *.
  pose proof (not_member _ _ _ _ Hnew _ _ _ Hbk) as Hnm. rewrite Hl in Hnm.
  pose proof (bo_nodup _ _ _ _ _ _ Hbk) as Hnd. rewrite Hl in Hnd.
  assert (prev ≠ nit) as Hpn. { intros ->. apply Hnm. rewrite !elem_of_app, elem_of_cons. auto. }
  assert (same_items (mem s) m') as Hsame.
  { eapply same_items_trans; [exact (same_items_next _ nit n (it_next xi) Hn)|]. apply same_items_next.
    unfold m1. by rewrite lookup_insert_ne. }
  assert (∀ k x it, T !! k = Some x → mem s !! x = Some it → item_key it = k) as Hinj
    by (intros k y it; apply table_injective, Hkv).
  assert (m' !! nit = Some n') as Hn' by (unfold m', m1; rewrite lookup_insert_ne by done; apply lookup_insert_eq).
  assert (∀ y, y ≠ prev → y ≠ nit → next_item m' y = next_item (mem s) y) as Hnext.
  { intros y H1 H2. unfold next_item, m', m1. by rewrite !lookup_insert_ne. }
  assert (∀ b' l', bucket_ok (mem s) (nbuckets s) T b' (bucket_at s b') l' → prev ∈ directs (bucket_at s b') ++ l' → b' = b) as Hpb.
  { intros b' l' Hbk' Hin. destruct (bo_member _ _ _ _ _ _ Hbk' prev Hin) as (i1&H1&_&<-&_).
    destruct (bo_member _ _ _ _ _ _ Hbk prev) as (i2&H2&_&<-&_); [|congruence].
    rewrite Hl, !elem_of_app, elem_of_cons. auto. }
  change (s <| mem := m' |>) with (s <| mem := m' |> <| buckets := buckets s |>).
  replace (x :: held) with (option_list (T !! key) ++ held) by by rewrite HT.
  apply (kv_put s g T held None W m' (buckets s) key nit n'); try done.
  - rewrite <- Hb. exists (l1 ++ prev :: nit :: l2).
    eapply (bucket_put (mem s) m' (nbuckets s) T key nit n' Hinj) with (bk := bk) (l := l) (M := directs bk ++ l1 ++ prev :: l2); try done.
    + intros y it _ Hy. destruct (Hsame y it Hy) as (it'&?&?&_). eauto.
    + rewrite Hl, HT. simpl. solve_Permutation.
    + solve_Permutation.
    + apply Hbk.
    + pose proof (bo_chain _ _ _ _ _ _ Hbk) as Hch. rewrite Hl in Hch. apply chain_app in Hch as (o&Hpc&->&o2&Hf1&->&o3&Hf2&Hch).
      apply NoDup_app in Hnd as (_&_&Hnd). apply NoDup_app in Hnd as (_&Hd1&Hnd). apply NoDup_cons in Hnd as [Hd2 Hnd].
      assert (∀ y, y ∈ l1 ∨ y ∈ l2 → y ≠ prev ∧ y ≠ nit) as Hy.
      { intros y Hy. split; intros ->.
        - destruct Hy as [Hy|Hy]; [apply (Hd1 _ Hy), list_elem_of_here|apply Hd2; by apply list_elem_of_further].
        - apply Hnm. rewrite !elem_of_app, !elem_of_cons. naive_solver. }
      apply chain_app. exists (Some prev). split.
      { eapply piece_ext; [exact Hpc|]. intros y Hyl. apply Hnext; by apply Hy; left. }
      split; [done|]. exists (Some nit). split.
      { unfold next_item, m'. by rewrite lookup_insert_eq. }
      split; [done|]. exists o3. split.
      { unfold next_item in Hf2 |- *. rewrite Hx in Hf2. injection Hf2 as <-. by rewrite Hn'. }
      eapply chain_ext; [exact Hch|]. intros y Hyl. apply Hnext; by apply Hy; right.
    + intros i y Hs. right. done.
  - intros b' l' Hne Hbk' y it it' Hy Hit Hit'. rewrite <- Hb in Hne.
    assert (next_item m' y = next_item (mem s) y) as He.
    { apply Hnext; intros ->; [by apply Hne, (Hpb b' l')|by apply (not_member _ _ _ _ Hnew _ _ _ Hbk')]. }
    unfold next_item in He. rewrite Hit, Hit' in He. by injection He.
Qed.

(** ** [hasht_put] *)
Record calm (s s' : kvs) : Prop := Calm {
  cm_allocs : allocs s' = allocs s;
  cm_nbuckets : nbuckets s' = nbuckets s;
  cm_content x : content <$> mem s' !! x = content <$> mem s !! x;
  cm_lock b : b_lock (bucket_at s' b) = b_lock (bucket_at s b);
}.

Lemma calm_trans s1 s2 s3 : calm s1 s2 → calm s2 s3 → calm s1 s3.
Proof using Type.
  intros [H1 H2 H3 H4] [H5 H6 H7 H8]. split; [congruence..| |]; intros y; [by rewrite H7, H3|by rewrite H8, H4].
Qed.

Lemma calm_refcount s x it n H :
  mem s !! x = Some it → calm s (s <| mem := <[x := it <| it_refcount := n |>]> (mem s) |> <| headers := H |>).
Proof using Type. intros Hx. split; [done..| |done]. intros y. rec_simpl. by apply content_refcount. Qed.

Lemma same_items_content m m' (Hm : same_items m m') (Hd : ∀ x, m !! x = None → m' !! x = None) x :
  content <$> m' !! x = content <$> m !! x.
Proof using Type.
  destruct (m !! x) as [it|] eqn:Hx; [|by rewrite Hd].
  destruct (Hm x it Hx) as (it'&->&Hc&_). simpl. by rewrite Hc.
Qed.

Context (Hgood : good_store).

Section hasht_put.
Context (g : ghost) (T : gmap (list Z) Z) (held : list Z) (W : option positive) (nit : Z) (cas : option Z) (key : list Z).
Context (Hlen : Z.of_nat (length held) < 2 ^ 14) (Hheld : nit ∈ held) (Hnew : ∀ k, T !! k ≠ Some nit).

(** A state in which the bucket of the key is locked. *)
Context (s : kvs) (n : item) (l : list Z).
Context (Hkv : kv_inv s g T held None W) (Hn : mem s !! nit = Some n).
Context (Hkey : item_key n = key) (Hhv : it_hv n = hash_of key).
Let b : Z := hash_of key mod nbuckets s.
Let bk : hash_bucket := bucket_at s b.
Context (Hbk : bucket_ok (mem s) (nbuckets s) T b bk l).

Lemma put_range : 0 ≤ b < nbuckets s.
Proof using Hkv. apply Z.mod_pos_bound, (tv_size _ _ (kv_table _ _ _ _ _ _ Hkv)). Qed.

(** A reference for the table. *)
Lemma wp_ref_nit (Q : unit → kvs → Prop) :
  (∀ n1, content n1 = content n → item_ok n1 →
    let s1 := s <| mem := <[nit := n1]> (mem s) |> in
    kv_inv s1 g T (nit :: held) None W → calm s s1 → bucket_ok (mem s1) (nbuckets s1) T b bk l →
    Q tt s1) →
  wp (item_ref nit) Q s.
Proof using Hkv Hn Hlen Hheld Hbk Hnew.
  intros HQ. pose proof (rv_held _ _ _ _ (kv_refs _ _ _ _ _ _ Hkv) nit Hheld) as Hin.
  destruct (kv_at s g T held None W nit Hkv Hin) as (_&_&_&a&n'&_&_&_&_&Hn'&Hrc&Hok).
  rewrite Hn in Hn'. injection Hn' as <-. pose proof (refs_held T a held nit n Hheld).
  eapply wp_mono; [eapply (wp_item_ref s g T held None W nit n); [done..|lia|lia]|].
  intros [] s' [-> Hkv']. set (n1 := n <| it_refcount := it_refcount n + 1 |>) in *.
  apply (HQ n1); [done| |done| |].
  - exact (Hok ltac:(done)).
  - split; [done..| |done]. intros y. rec_simpl. by apply content_refcount.
  - pose proof (not_member _ _ _ _ Hnew _ _ _ Hbk) as Hnm.
    assert (∀ y, y ∈ directs bk ++ l → <[nit := n1]> (mem s) !! y = mem s !! y) as Hsame.
    { intros y Hy. rewrite lookup_insert_ne; [done|]. by intros ->. }
    rec_simpl. pose proof Hbk as [H1 H2 H3 H4 H5 H6]. split; try done.
    + eapply chain_ext; [done|]. intros y Hy. unfold next_item. rewrite Hsame; [done|]. apply elem_of_app. by right.
    + intros y Hy. rewrite Hsame by done. by apply H4.
    + intros k y HT Hk. destruct (H5 k y HT Hk) as [Hy Hit]. by rewrite Hsame.
    + intros i y it Hs. rewrite Hsame; [by apply H6|]. exact (slot_member _ _ _ _ _ _ _ _ Hbk Hs).
Qed.

Definition put_done (s' : kvs) : Prop := ∃ T', kv_inv s' g T' held None W ∧ calm s s' ∧
  (T' = <[key := nit]> T ∧ (∀ c, cas = Some c → T !! key = Some c) ∨ T' = T ∧ cas ≠ None).

(** The reference that the table had. *)
Lemma wp_unref_old s2 x :
  kv_inv s2 g (<[key := nit]> T) (x :: held) None W → calm s s2 → (∀ c, cas = Some c → T !! key = Some c) →
  wp (item_unref x) (λ _ s', put_done s') s2.
Proof using Hlen Hgood.
  intros Hkv2 Hc Hcas. eapply wp_mono; [eapply wp_item_unref; [done..|lia]|].
  intros [] s' (xi&H'&Hx&->&Hkv'). exists (<[key := nit]> T). split_and!; [done| |by left].
  eapply calm_trans; [done|]. by apply calm_refcount.
Qed.

Lemma wp_replace_slot i x :
  slot bk i = Some x → T !! key = Some x → (∀ c, cas = Some c → T !! key = Some c) →
  wp (item_ref nit;;
      o ← deref mem x;
      store mem nit (λ n, n <| it_next := it_next o |>);;
      put_bucket b (λ b, b <| b_items ::= <[i := Some nit]> |>);;
      item_unref x;;
      mret (inl (B := option nat) tt)) (λ r s', r = inl tt ∧ put_done s') s.
Proof using Hkv Hn Hkey Hhv Hbk Hlen Hheld Hnew Hgood.
  intros Hs HT Hcas. pose proof put_range as Hb. wp_step. apply wp_ref_nit.
  intros n1 Hc1 Hok1 s1 Hkv1 Hcalm1 Hbk1.
  destruct (content_key _ _ Hc1) as (Hk1&Hv1&_).
  destruct (bo_member _ _ _ _ _ _ Hbk1 x) as (xi&Hx&Hxv&_&HTx&_); [by eapply slot_member|].
  assert (mem s1 !! nit = Some n1) as Hn1 by apply lookup_insert_eq.
  assert (bucket_at s1 b = bk ∧ nbuckets s1 = nbuckets s) as [Hb1 Hnb1] by done. clearbody s1.
  wp_step. wp_step; [done|]. wp_step. eapply wp_store; [done|]. wp_step.
  apply wp_put_bucket; [rec_simpl; by rewrite Hnb1|]. wp_step. eapply wp_mono.
  - eapply wp_unref_old; [|eapply calm_trans; [exact Hcalm1|]|exact Hcas].
    + replace (x :: held) with (option_list (T !! key) ++ held) by by rewrite HT.
      eapply (kv_put_slot s1 g T held W nit n1 key b _ l i (it_next xi)); try done; try congruence.
      * by rewrite Hnb1.
      * change (length (b_hashes (bucket_at s1 b)) = BUCKET_NITEMS). rewrite Hb1. apply Hbk1.
      * change (slot_hash (bucket_at s1 b) i = hash_of key). rewrite Hb1.
        rewrite (bo_hash _ _ _ _ _ _ Hbk1 i x xi Hs Hx), Hxv. f_equal. by eapply table_injective; [apply Hkv1| |].
      * rewrite Hb1, HT. destruct (decide (i = 4%nat)) as [->|Hi4]; [right|left].
        -- split; [done|]. pose proof (bo_chain _ _ _ _ _ _ Hbk1) as Hch. rewrite Hs in Hch.
           destruct l as [|y l2]; [done|]. destruct Hch as ([= <-]&nx&Hnx&Hch). unfold next_item in Hnx.
           rewrite Hx in Hnx. injection Hnx as <-. by exists l2.
        -- split; [|done]. apply slot_lt in Hs. destruct (bo_length _ _ _ _ _ _ Hbk) as [Hl _]. rewrite Hl in Hs.
           unfold BUCKET_NITEMS in Hs. lia.
    + split; rec_simpl; [done..| |].
      * intros y. apply same_items_content.
        -- by apply same_items_next.
        -- intros z Hz. rewrite lookup_insert_ne; [done|]. intros ->. congruence.
      * intros b'. rewrite bucket_at_insert. case_decide; [by subst|done].
  - intros [] s' Hd. wp_step. done.
Qed.

Lemma put_injective k x it : T !! k = Some x → mem s !! x = Some it → item_key it = k.
Proof using Hkv. apply table_injective, Hkv. Qed.

Lemma wp_put_direct is_ di :
  wp (put_direct nit cas key (hash_of key) b is_ di) (λ r s',
    match r with
    | inl _ => put_done s'
    | inr di' => s' = s ∧ (∀ i x, i ∈ is_ → slot bk i = Some x → T !! key ≠ Some x) ∧
        (di' = di ∨ ∃ j, di' = Some j ∧ j ∈ is_ ∧ slot bk j = None)
    end) s.
Proof using Hkv Hn Hkey Hhv Hbk Hlen Hheld Hnew Hgood.
  revert di. induction is_ as [|i is_ IH]; intros di; simpl.
  { wp_step. split_and!; [done| |by left]. intros i x Hi. by apply not_elem_of_nil in Hi. }
  wp_step. apply wp_get_bucket; [apply put_range|]. fold bk.
  assert (∀ di0, (di0 = di ∨ di0 = Some i ∧ slot bk i = None) → (∀ x, slot bk i = Some x → T !! key ≠ Some x) →
    wp (put_direct nit cas key (hash_of key) b is_ di0) (λ r s',
    match r with
    | inl _ => put_done s'
    | inr di' => s' = s ∧ (∀ j x, j ∈ i :: is_ → slot bk j = Some x → T !! key ≠ Some x) ∧
        (di' = di ∨ ∃ j, di' = Some j ∧ j ∈ i :: is_ ∧ slot bk j = None)
    end) s) as Hnext.
  { intros di0 Hdi0 Hi. eapply wp_mono; [apply IH|]. intros [[]|di'] s'; [done|]. intros (->&Hall&Hdi).
    split_and!; [done| |].
    - intros j x [->|Hj]%elem_of_cons Hx; [by apply Hi|]. by eapply Hall.
    - destruct Hdi as [->|(j&->&Hj&Hs)].
      + destruct Hdi0 as [->|[-> Hs]]; [by left|]. right. exists i. split_and!; [done|apply list_elem_of_here|done].
      + right. exists j. split_and!; [done|by apply list_elem_of_further|done]. }
  destruct (slot bk i) as [x|] eqn:Hs; [|by apply Hnext; [right|]].
  assert (x ∈ directs bk ++ l) as Hxm by by eapply slot_member.
  destruct (member_key s T _ b bk l Hbk key put_injective x Hxm) as (xi&Hx&Hok&Hv&Hk).
  rewrite (bo_hash _ _ _ _ _ _ Hbk i x xi Hs Hx).
  destruct (Z.eqb_spec (it_hv xi) (hash_of key)) as [Heq|Hne].
  - wp_step. eapply wp_item_key_matches; [done..|]. case_bool_decide as Hd.
    + apply Hk in Hd. destruct (negb (is_null cas) && bool_decide (cas ≠ Some x)) eqn:Hcas.
      * wp_step. exists T. split_and!; [done|by split|]. right. split; [done|].
        intros ->. done.
      * wp_step. wp_step; [|eapply wp_mono; [apply wp_replace_slot; [done..|]|by intros r s' [-> ?]]].
        { apply bool_decide_eq_true. intros ->. by apply Hnew in Hd. }
        intros c ->. simpl in Hcas. apply bool_decide_eq_false in Hcas. rewrite Hd. symmetry. by apply dec_stable.
    + apply Hnext; [by left|]. intros y [= <-] HT. apply Hd. by apply Hk.
  - apply Hnext; [by left|]. intros y [= <-] HT%Hk. congruence.
Qed.

(** The key is new: into the slot [di]. *)
Lemma wp_new_slot s1 n1 d :
  kv_inv s1 g T (nit :: held) None W → calm s s1 → bucket_ok (mem s1) (nbuckets s1) T b bk l →
  mem s1 !! nit = Some n1 → content n1 = content n → item_ok n1 → bucket_at s1 b = bk →
  T !! key = None → (d < 5)%nat → (slot bk d = None ∨ d = 4%nat) → cas = None →
  wp (store mem nit (λ n, n <| it_next := slot bk d |>);;
      put_bucket b (λ b, b <| b_hashes ::= <[d := hash_of key]> |>);;
      put_bucket b (λ b, b <| b_items ::= <[d := Some nit]> |>)) (λ _ s', put_done s') s1.
Proof using Hkv Hn Hheld Hkey Hhv Hnew.
  intros Hkv1 Hcalm1 Hbk1 Hn1 Hc1 Hok1 Hb1 HT Hd Hds Hcas. destruct (content_key _ _ Hc1) as (Hk1&Hv1&_).
  pose proof put_range as Hb. pose proof (cm_nbuckets _ _ Hcalm1) as Hnb1.
  destruct (bo_length _ _ _ _ _ _ Hbk1) as [Hl1 Hl2].
  wp_step. eapply wp_store; [done|]. wp_step. apply wp_put_bucket; [rec_simpl; by rewrite Hnb1|].
  apply wp_put_bucket; [rec_simpl; by rewrite Hnb1|].
  set (n2 := n1 <| it_next := slot bk d |>).
  set (bk' := bk <| b_hashes ::= <[d := hash_of key]> |> <| b_items ::= <[d := Some nit]> |>).
  match goal with |- put_done ?x => assert (x = s1 <| mem := <[nit := n2]> (mem s1) |> <| buckets := <[b := bk']> (buckets s1) |>) as -> end.
  { change (bucket_at (s1 <| mem := _ |>) b) with (bucket_at s1 b). rewrite bucket_at_insert, decide_True by done.
    unfold upd, set_buckets, set_mem. cbn [mem buckets nbuckets headers free_segments segalloc_lock seg_headers
      seg_alloced allocs]. rewrite insert_insert_eq, Hb1. done. }
  exists (<[key := nit]> T). split_and!; [| |left; split; [done|by rewrite Hcas]].
  - assert (held = option_list (T !! key) ++ held) as Hh by by rewrite HT. rewrite Hh.
    eapply (kv_put_slot s1 g T held W nit n1 key b bk' l d (slot bk d)); try done; try congruence.
    + by rewrite Hnb1.
    + by rewrite Hb1.
    + unfold bk'. rec_simpl. by rewrite length_insert.
    + unfold slot_hash, bk'. rec_simpl. by rewrite list_lookup_insert_eq by by rewrite Hl2.
    + intros j Hj. rewrite Hb1. unfold slot_hash, bk'. rec_simpl. by rewrite list_lookup_insert_ne.
    + rewrite Hb1, HT. destruct (decide (d = 4%nat)) as [->|Hne]; [right|left].
      * split; [done|]. exists l. split; [done|]. apply Hbk1.
      * split; [lia|]. destruct Hds; [done|lia].
  - eapply calm_trans; [exact Hcalm1|]. split; rec_simpl; [done..| |].
    + intros y. apply same_items_content; [by apply same_items_next|].
      intros z Hz. rewrite lookup_insert_ne; [done|]. intros ->. congruence.
    + intros b'. unfold bucket_at at 1. rec_simpl. destruct (decide (b = b')) as [<-|Hne].
      * rewrite lookup_insert_eq. by rewrite Hb1.
      * by rewrite lookup_insert_ne.
Qed.

Lemma wp_put_chain di :
  (∀ i x, i ∈ seq 0 BUCKET_NITEMS → slot bk i = Some x → T !! key ≠ Some x) →
  (di = None ∨ ∃ j, di = Some j ∧ j ∈ seq 0 BUCKET_NITEMS ∧ slot bk j = None) → cas = None →
  wp (put_chain nit key (hash_of key) b di) (λ _ s', put_done s') s.
Proof using Hkv Hn Hkey Hhv Hbk Hlen Hheld Hnew Hgood.
  intros Hslots Hdi Hcas. pose proof put_range as Hb. unfold put_chain. wp_step. apply wp_ref_nit.
  intros n1 Hc1 Hok1 s1 Hkv1 Hcalm1 Hbk1. destruct (content_key _ _ Hc1) as (Hk1&Hv1&_).
  assert (mem s1 !! nit = Some n1) as Hn1 by apply lookup_insert_eq.
  assert (bucket_at s1 b = bk ∧ nbuckets s1 = nbuckets s) as [Hb1 Hnb1] by done.
  assert (b = hash_of key mod nbuckets s1) as Hbeq by done. clearbody s1.
  pose proof (λ k x it, table_injective s1 T k x it (kv_table _ _ _ _ _ _ Hkv1)) as Hinj1.
  wp_step. apply wp_get_bucket; [by rewrite Hnb1|]. rewrite Hb1. wp_step.
  eapply wp_mono; [apply (wp_chain_find s1 T _ b bk l Hbk1 key Hinj1)|].
  assert (T !! key = None → wp (let d := default (BUCKET_NITEMS - 1)%nat di in
    store mem nit (λ n, n <| it_next := slot bk d |>);;
    put_bucket b (λ b, b <| b_hashes ::= <[d := hash_of key]> |>);;
    put_bucket b (λ b, b <| b_items ::= <[d := Some nit]> |>)) (λ _ s', put_done s') s1) as Hnone.
  { intros HT. eapply wp_new_slot; try done.
    - destruct Hdi as [->|(j&->&Hj%elem_of_seq&_)]; simpl; unfold BUCKET_NITEMS in *; lia.
    - destruct Hdi as [->|(j&->&_&Hj)]; [by right|by left]. }
  intros [[prev [x|]]|] s' [-> Hc].
  - destruct Hc as (HT&l1&l2&Hl).
    destruct (bo_member _ _ _ _ _ _ Hbk1 x) as (xi&Hx&_); [rewrite Hl, !elem_of_app, !elem_of_cons; auto|].
    destruct (bo_member _ _ _ _ _ _ Hbk1 prev) as (pi&Hp&_); [rewrite Hl, !elem_of_app, !elem_of_cons; auto|].
    assert (prev ≠ nit) as Hpn.
    { intros ->. apply (not_member _ _ _ _ Hnew _ _ _ Hbk1). rewrite Hl, !elem_of_app, !elem_of_cons. auto. }
    wp_step. wp_step; [done|]. wp_step. eapply wp_store; [done|]. wp_step.
    eapply wp_store; [rec_simpl; by rewrite lookup_insert_ne|]. rec_simpl.
    eapply wp_unref_old; [|eapply calm_trans; [exact Hcalm1|]|by rewrite Hcas].
    + eapply (kv_put_chain s1 g T held W nit n1 key b l l1 l2 prev x pi xi); try done; try congruence.
    + split; [done..| |done]. rec_simpl. intros y. apply same_items_content.
      * eapply same_items_trans; [exact (same_items_next _ nit n1 (it_next xi) Hn1)|].
        apply same_items_next. by rewrite lookup_insert_ne.
      * intros z Hz. rewrite !lookup_insert_ne; [done|intros ->; congruence..].
  - apply Hnone. destruct Hc as (x&l'&Hl&_&Hno). eapply (bucket_missing s1); [done..|].
    intros x2 l2 Hl2. rewrite Hl in Hl2. by injection Hl2 as <- <-.
  - apply Hnone. eapply (bucket_missing s1); [done..|]. intros x l' Hl. by rewrite Hc in Hl.
Qed.
End hasht_put.

Lemma wp_hasht_put s g T held W nit n cas :
  kv_inv s g T held None W → unlocked s → Z.of_nat (length held) < 2 ^ 14 → nit ∈ held →
  (∀ k, T !! k ≠ Some nit) → mem s !! nit = Some n → it_hv n = hash_of (item_key n) →
  wp (hasht_put nit cas) (λ _ s', ∃ T', kv_inv s' g T' held None W ∧ quiet s s' ∧
    (T' = <[item_key n := nit]> T ∧ (∀ c, cas = Some c → T !! item_key n = Some c) ∨ T' = T ∧ cas ≠ None)) s.
Proof using Hgood.
  intros Hkv Hu Hlen Hheld Hnew Hn Hhv. set (key := item_key n).
  destruct (kv_at s g T held None W nit Hkv) as (_&_&_&_&n'&_&_&_&_&Hn'&_&Hok).
  { by eapply rv_held; [apply Hkv|]. }
  rewrite Hn in Hn'. injection Hn' as <-. specialize (Hok ltac:(done)).
  pose proof (item_ok_key n Hok) as Hkl. unfold hasht_put. wp_step. wp_step; [done|].
  wp_step. unfold read_data. wp_step. wp_step; [done|].
  destruct (Z.leb_spec (0 + it_keylen n) (Z.of_nat (length (it_data n)))) as [_|Hlt];
    [|destruct Hok as (?&?&Hb); unfold block_size, sizeof_item in Hb; lia].
  wp_step. change (take (Z.to_nat (it_keylen n)) (drop (Z.to_nat 0) (it_data n))) with key. rewrite Hhv. fold key.
  wp_step. wp_step. set (b := hash_of key mod nbuckets s).
  pose proof (kv_table _ _ _ _ _ _ Hkv) as Ht.
  assert (0 ≤ b < nbuckets s) as Hb by (apply Z.mod_pos_bound, Ht).
  wp_step. apply wp_bucket_lock; [done..|].
  pose proof (kv_inv_lock s g T held None W b true Hkv) as Hkv1.
  assert (locked_only (s <| buckets ::= <[b := (bucket_at s b) <| b_lock := true |>]> |>) b) as Hlo
    by by apply locked_only_lock.
  set (s1 := s <| buckets ::= _ |>) in *.
  assert (∀ x, mem s1 !! x = mem s !! x) as Hm1 by done.
  assert (nbuckets s1 = nbuckets s ∧ allocs s1 = allocs s) as [Hnb1 Ha1] by done.
  destruct (tv_bucket _ _ (kv_table _ _ _ _ _ _ Hkv1) b) as (l&Hbk); [done|]. clearbody s1.
  rewrite <- Hm1 in Hn. unfold b in *. clear b. rewrite <- Hnb1 in *. set (b := hash_of key mod nbuckets s1) in *.
  assert (∀ s', put_done g T held W nit cas key s1 s' →
    wp (bucket_unlock b) (λ _ s', ∃ T', kv_inv s' g T' held None W ∧ quiet s s' ∧
    (T' = <[key := nit]> T ∧ (∀ c, cas = Some c → T !! key = Some c) ∨ T' = T ∧ cas ≠ None)) s') as Hend.
  { intros s' (T'&Hkv'&Hcalm&HT'). pose proof (cm_nbuckets _ _ Hcalm) as Hnb'.
    eapply wp_mono; [eapply wp_bucket_unlock; [done|by rewrite Hnb'|]|].
    - intros b' Hne. rewrite (cm_lock _ _ Hcalm). by apply Hlo.
    - intros [] s2 (Hkv2&Hu2&Hm2&Ha2). exists T'. split_and!; [done| |done]. split; [|intros x|done].
      + by rewrite Ha2, (cm_allocs _ _ Hcalm).
      + by rewrite Hm2, (cm_content _ _ Hcalm), Hm1. }
  wp_step. eapply wp_mono; [by eapply (wp_put_direct g T held W nit cas key Hlen Hheld Hnew s1 n l)|].
  intros [[]|di] s'.
  - intros Hd. wp_step. wp_step. by apply Hend.
  - intros (->&Hall&Hdi). destruct cas as [c|]; simpl.
    + wp_step. wp_step. apply Hend. exists T. split_and!; [done|by split|by right].
    + wp_step. eapply wp_mono; [eapply (wp_put_chain g T held W nit None key Hlen Hheld Hnew s1 n l); try done|].
      intros [] s' Hd. by apply Hend.
Qed.
End table.
