(* ===== verification/KvsAlloc.v ===== *)
(** * Allocation in the log of the key-value store

    A segment is taken from the free list or made; an item is placed at the end
    of the current segment, or, when that is full, at the start of a new one.
    Nothing that is in a log is overwritten. *)

From S2P Require Import Prelude Links F64 Jenkins Kvs KvsInv KvsLog KvsTable.

Definition set_role (g : ghost) (p : hptr) (r : role) (free : list hptr) : ghost :=
  Ghost (λ q, if decide (q = p) then r else g_role g q) free (g_segs g) (g_log g).

Lemma set_role_eq g p r free : g_role (set_role g p r free) p = r.
Proof. unfold set_role. simpl. by rewrite decide_True. Qed.

Lemma set_role_ne g p r free q : q ≠ p → g_role (set_role g p r free) q = g_role g q.
Proof. intros. unfold set_role. simpl. by rewrite decide_False. Qed.

Lemma set_role_loose g p free q : g_role g q = Loose → g_role (set_role g p Loose free) q = Loose.
Proof. intros Hq. unfold set_role. simpl. by case_decide. Qed.

Section alloc.
Context {cfg : settings} {plt : platform} (Hgood : good_store).
Implicit Types (s : kvs) (g : ghost) (p q : hptr) (h : segment_header).

(** What the queue of an allocator and the references depend on. *)
Definition queue_of (a : item_allocator) : list (option Z) * Z * Z * option hptr * Z :=
  (cleanup_queue a, cq_head a, cq_tail a, ia_cleaning a, clean_offset a).

(** A step that keeps the items, and every log; empty segments may join. *)
Record relink (s s' : kvs) (g g' : ghost) : Prop := Relink {
  rl_mem : mem s' = mem s;
  rl_buckets : buckets s' = buckets s;
  rl_nbuckets : nbuckets s' = nbuckets s;
  rl_queue ia : queue_of <$> allocs s' !! ia = queue_of <$> allocs s !! ia;
  rl_role p ia : g_role g p = InLog ia → g_role g' p = InLog ia;
  rl_back p ia : g_role g' p = InLog ia → g_role g p = InLog ia ∨ g_log g p = [];
  rl_log p : g_log g' p = g_log g p;
  rl_headers p h ia : g_role g p = InLog ia → headers s !! p = Some h →
    ∃ h', headers s' !! p = Some h' ∧ sg_data h' = sg_data h ∧ (inactive h → inactive h') ∧ (cleaned h → cleaned h');
  rl_persist p h : headers s !! p = Some h → is_Some (headers s' !! p);
}.

Lemma relink_alloc s s' g g' ia a' :
  relink s s' g g' → allocs s' !! ia = Some a' → ∃ a, allocs s !! ia = Some a ∧ queue_of a' = queue_of a.
Proof using Type.
  intros Hr Ha. pose proof (rl_queue _ _ _ _ Hr ia) as Hq. rewrite Ha in Hq.
  destruct (allocs s !! ia) as [a|]; [|done]. apply (inj Some) in Hq. by exists a.
Qed.

Lemma kv_relink s s' g g' T held X W :
  kv_inv s g T held X W → relink s s' g g' → log_inv s' g' X → kv_inv s' g' T held X W.
Proof using Type.
  intros [Hl Hq Hr Ht] Hrl Hl'. pose proof Hrl as [Hm Hb Hnb _ Hro Hbk Hlg Hh Hp]. split; [done|..].
  - intros ia a' Hia'. destruct (relink_alloc s s' g g' ia a' Hrl Hia') as (a&Hia&[= H1 H2 H3 H4 H5]).
    destruct (Hq ia a Hia) as [[? ? ? ? Hin] Hc]. split.
    + split; rewrite ?H1, ?H2, ?H3; try done. intros x Hx. destruct (Hin x Hx) as (p&h&Hp'&Hh'&Hx'&Hcl&Hlt).
      destruct (Hh p h ia Hp' Hh') as (h'&?&Hd&_&?). exists p, h'. rewrite Hlg, Hd, H4, H5. split_and!; auto.
    + intros HW p Hcl. rewrite H4 in Hcl. destruct (Hc HW p Hcl) as (h&Hh'&Hr'&Hrest).
      destruct (Hp p h Hh') as [h' Hh'']. exists h'. rewrite H5. split_and!; [done|lia|lia|]. intros Hne.
      destruct (Hrest Hne) as (Hrole&?&?&?). destruct (Hh p h ia Hrole Hh') as (h2&Heq&Hd&?&?).
      rewrite Hh'' in Heq. injection Heq as <-. unfold boundary. rewrite Hlg, Hm, Hd. split_and!; auto.
  - destruct Hr as [Hc HT Hhd]. assert (∀ x, in_log g x → in_log g' x) as Hin.
    { intros x (ia&p&Hp'&Hx). exists ia, p. rewrite Hlg. split; [|done]. by apply Hro. }
    split; [|by intros; eapply Hin, HT|by intros; eapply Hin, Hhd].
    intros ia a' p x it Hp' Ha' Hx Hit. rewrite Hm in Hit. rewrite Hlg in Hx.
    destruct (relink_alloc s s' g g' ia a' Hrl Ha') as (a&Hia&[= H1 _ _ _ _]).
    destruct (Hbk p ia Hp') as [Hp2|Hnil]; [|rewrite Hnil in Hx; by apply not_elem_of_nil in Hx].
    rewrite (Hc ia a p x it) by done. unfold refs. by rewrite H1.
  - destruct Ht as [Hsz Htb]. split; rewrite ?Hnb, ?Hm; [done|]. intros b Hb'. destruct (Htb b Hb') as (l&Hbk').
    exists l. assert (bucket_at s' b = bucket_at s b) as -> by (unfold bucket_at; by rewrite Hb). done.
Qed.

(** A step that leaves the logs alone. *)
Record quiet_log (s s' : kvs) (g g' : ghost) : Prop := QuietLog {
  ql_mem : mem s' = mem s;
  ql_buckets : buckets s' = buckets s;
  ql_nbuckets : nbuckets s' = nbuckets s;
  ql_allocs : allocs s' = allocs s;
  ql_role p ia : g_role g' p = InLog ia ↔ g_role g p = InLog ia;
  ql_log p : g_log g' p = g_log g p;
  ql_headers p ia : g_role g p = InLog ia → headers s' !! p = headers s !! p;
  ql_persist p h : headers s !! p = Some h → is_Some (headers s' !! p);
}.

Lemma quiet_relink s s' g g' : quiet_log s s' g g' → relink s s' g g'.
Proof using Type.
  intros [Hm Hb Hnb Ha Hro Hlg Hh Hp]. split; try done.
  - intros ia. by rewrite Ha.
  - intros p ia. apply Hro.
  - intros p ia Hp'. left. by apply Hro.
  - intros p h ia Hp' Hh'. exists h. by rewrite (Hh p ia Hp').
Qed.

Lemma kv_quiet_log s s' g g' T held X W :
  kv_inv s g T held X W → quiet_log s s' g g' → log_inv s' g' X → kv_inv s' g' T held X W.
Proof using Type. intros Hkv Hq. eapply kv_relink; [done|]. by apply quiet_relink. Qed.

(** The header as [init_h] leaves it. *)
Definition fresh_header (h : segment_header) : segment_header :=
  h <| sg_offset := 0 |> <| sg_flags := 0 |> <| sg_freed := 0 |>.

Lemma wp_init_h s p h (Q : option hptr → kvs → Prop) :
  headers s !! p = Some h → Q (Some p) (s <| headers := <[p := fresh_header h]> (headers s) |>) →
  wp (init_h p) Q s.
Proof using Type.
  intros Hp HQ. unfold init_h. wp_step. eapply wp_store; [done|]. wp_step.
  eapply wp_store; [rec_simpl; apply lookup_insert_eq|]. wp_step.
  eapply wp_store; [rec_simpl; apply lookup_insert_eq|]. wp_step. rec_simpl. rewrite !insert_insert_eq. exact HQ.
Qed.

Lemma log_inv_reuse s g X p h free :
  log_inv s g X → g_free g = p :: free → headers s !! p = Some h →
  log_inv (s <| free_segments := sg_next h |> <| headers := <[p := fresh_header h]> (headers s) |>)
    (set_role g p Loose free) X.
Proof using Type.
  intros [Hlk Hc Hb Hi Hf Hfn Hfr Ha Ho Hl Hn Hnl] Hg Hp. rewrite Hg in *.
  assert (g_role g p = Free) as Hrp by (apply Hfr, list_elem_of_here).
  apply NoDup_cons in Hfn as [Hpf Hfn]. destruct Hf as (_&nx&Hnx&Hf).
  assert (∀ q, next_seg (s <| free_segments := sg_next h |> <| headers := <[p := fresh_header h]> (headers s) |>) q
    = next_seg s q) as Hns.
  { intros q. unfold next_seg. rec_simpl. destruct (decide (p = q)) as [<-|Hne].
    - by rewrite lookup_insert_eq, Hp.
    - by rewrite lookup_insert_ne. }
  assert (∀ q r, r ≠ Free → r ≠ Loose → g_role (set_role g p Loose free) q = r ↔ g_role g q = r) as Hro.
  { intros q r H1 H2. destruct (decide (q = p)) as [->|Hne]; [rewrite set_role_eq, Hrp; by split; intros <-|].
    by rewrite set_role_ne. }
  split; rec_simpl; try done.
  - intros q. destruct (decide (q = p)) as [->|Hne].
    + rewrite set_role_eq, lookup_insert_eq. naive_solver.
    + rewrite set_role_ne, lookup_insert_ne by done. apply Hb.
  - intros q h'. destruct (decide (p = q)) as [<-|Hne].
    + rewrite lookup_insert_eq. intros [= <-]. exact (Hi p h Hp).
    + rewrite lookup_insert_ne by done. apply Hi.
  - unfold next_seg in Hnx. rewrite Hp in Hnx. injection Hnx as <-. eapply chain_ext; [done|]. auto.
  - intros q. change (q ∈ free ↔ g_role (set_role g p Loose free) q = Free). destruct (decide (q = p)) as [->|Hne].
    + rewrite set_role_eq. split; [|done]. by intros ?.
    + rewrite set_role_ne, <- Hfr by done. rewrite elem_of_cons. naive_solver.
  - intros ia a Hia. destruct (Ha ia a Hia) as [(older&cur&Hs&Hcur&Hold) Hch Hnd Hr Hsp]. split; try done.
    + exists older, cur. split_and!; [done..|]. intros q h' Hq. rec_simpl. destruct (decide (p = q)) as [<-|Hne].
      * exfalso. assert (g_role g p = InLog ia); [|congruence]. apply Hr. rewrite Hs. apply elem_of_app. by left.
      * rewrite lookup_insert_ne by done. by apply Hold.
    + eapply chain_ext; [done|]. auto.
    + intros q. rewrite Hro by done. apply Hr.
    + intros q. rewrite Hro by done. apply Hsp.
  - intros ia q. rewrite !Hro by done. apply Ho.
  - intros ia q h' Hq. rewrite Hro in Hq by done. destruct (decide (p = q)) as [<-|Hne]; [congruence|].
    rewrite lookup_insert_ne by done. by apply (Hl ia).
  - intros q h' Hq. destruct (decide (p = q)) as [<-|Hne].
    + rewrite lookup_insert_eq. by intros [= <-].
    + rewrite lookup_insert_ne by done. rewrite set_role_ne in Hq by done. by apply Hn.
  - intros q Hq. apply Hnl. intros ia. rewrite <- (Hro q (InLog ia)) by done. apply Hq.
Qed.

(** The fields that the logs are made of. *)
Definition log_fields (s : kvs) :=
  (segalloc_lock s, seg_alloced s, headers s, seg_headers s, free_segments s, allocs s, mem s).

Lemma log_inv_fields s s' g X : log_inv s g X → log_fields s' = log_fields s → log_inv s' g X.
Proof using Type.
  intros Hl [= H1 H2 H3 H4 H5 H6 H7]. eapply log_inv_change; [done|split; by rewrite ?H1, ?H2, ?H3, ?H4, ?H5, ?H6|].
  intros p h h' Hh. rewrite H3, H7, Hh. intros [= <-].
  split_and!; [done|by intros; eapply lv_log|by intros; eapply lv_new].
Qed.

Lemma log_inv_make s g X p h :
  log_inv s g X → seg_alloced s < segmaxnum → headers s !! p = None →
  sg_data h = seg_base + segsize * seg_alloced s → sg_size h = segsize →
  sg_offset h = 0 ∧ sg_freed h = 0 ∧ sg_flags h = 0 →
  log_inv (s <| seg_alloced := seg_alloced s + 1 |> <| headers := <[p := h]> (headers s) |>
             <| seg_headers := <[seg_alloced s := p]> (seg_headers s) |>)
    (set_role g p Loose (g_free g)) X.
Proof using Type.
  intros [Hlk Hc Hb Hi Hf Hfn Hfr Ha Ho Hl Hn Hnl] Hlt Hp Hd Hsz Hz.
  assert (g_role g p = Unborn) as Hrp.
  { destruct (decide (g_role g p = Unborn)) as [|Hr]; [done|]. apply Hb in Hr as [h' Hh]. congruence. }
  set (s' := s <| seg_alloced := _ |> <| headers := _ |> <| seg_headers := _ |>).
  assert (∀ q h', headers s !! q = Some h' → q ≠ p) as Hne by congruence.
  assert (∀ q, q ≠ p → next_seg s' q = next_seg s q) as Hns.
  { intros q Hq. unfold next_seg, s'. rec_simpl. by rewrite lookup_insert_ne. }
  assert (∀ q r, r ≠ Unborn → r ≠ Loose → g_role (set_role g p Loose (g_free g)) q = r ↔ g_role g q = r) as Hro.
  { intros q r H1 H2. destruct (decide (q = p)) as [->|Hq]; [rewrite set_role_eq, Hrp; by split; intros <-|].
    by rewrite set_role_ne. }
  assert (∀ o l, chain (next_seg s) o l → chain (next_seg s') o l) as Hch.
  { intros o l Hch. eapply chain_ext; [done|]. intros q Hq. apply Hns. destruct (chain_in _ _ _ _ Hch Hq) as [nx Hnx].
    intros ->. unfold next_seg in Hnx. by rewrite Hp in Hnx. }
  split; unfold s'; rec_simpl; fold s'; try done; try lia.
  - intros q. destruct (decide (q = p)) as [->|Hq].
    + rewrite set_role_eq, lookup_insert_eq. naive_solver.
    + rewrite set_role_ne, lookup_insert_ne by done. apply Hb.
  - intros q h'. destruct (decide (p = q)) as [<-|Hq].
    + rewrite lookup_insert_eq. intros [= <-]. exists (seg_alloced s). rewrite lookup_insert_eq. split_and!; [lia|lia|done..].
    + rewrite lookup_insert_ne by done. intros Hh. destruct (Hi q h' Hh) as (i&?&?&?&?).
      exists i. rewrite lookup_insert_ne by lia. split_and!; [lia|lia|done..].
  - by apply Hch.
  - intros q. rewrite Hro by done. apply Hfr.
  - intros ia a Hia. destruct (Ha ia a Hia) as [(older&cur&Hs&Hcur&Hold) Hch' Hnd Hr Hsp]. split; try done.
    + exists older, cur. split_and!; [done..|]. intros q h' Hq. unfold s'. rec_simpl. destruct (decide (p = q)) as [<-|Hne'].
      * exfalso. assert (g_role g p = InLog ia); [|congruence]. apply Hr. rewrite Hs. apply elem_of_app. by left.
      * rewrite lookup_insert_ne by done. by apply Hold.
    + by apply Hch.
    + intros q. rewrite Hro by done. apply Hr.
    + intros q. rewrite Hro by done. apply Hsp.
  - intros ia q. rewrite !Hro by done. apply Ho.
  - intros ia q h' Hq. rewrite Hro in Hq by done. destruct (decide (p = q)) as [<-|Hne']; [congruence|].
    rewrite lookup_insert_ne by done. by apply (Hl ia).
  - intros q h' Hq. destruct (decide (p = q)) as [<-|Hne'].
    + rewrite lookup_insert_eq. by intros [= <-].
    + rewrite lookup_insert_ne by done. rewrite set_role_ne in Hq by done. by apply Hn.
  - intros q Hq. apply Hnl. intros ia. rewrite <- (Hro q (InLog ia)) by done. apply Hq.
Qed.

(** A segment of its own, or none. *)
Definition taken (s s' : kvs) (g g' : ghost) (o : option hptr) : Prop :=
  quiet_log s s' g g' ∧ (∀ ia, g_segs g' ia = g_segs g ia) ∧
  (∀ p ia, g_role g' p = Spare ia ↔ g_role g p = Spare ia) ∧
  match o with
  | Some p => g_role g' p = Loose ∧ g_role g p ≠ Loose ∧
      ∀ q, g_role g q = Loose → g_role g' q = Loose ∧ headers s' !! q = headers s !! q
  | None => True
  end.

Lemma log_inv_count s g X n :
  log_inv s g X → seg_alloced s ≤ n ≤ segmaxnum → log_inv (s <| seg_alloced := n |>) g X.
Proof using Type.
  intros [Hlk Hc Hb Hi Hf Hfn Hfr Ha Ho Hl Hn Hnl] Hle. split; rec_simpl; try done; [lia|..].
  - intros p h Hh. destruct (Hi p h Hh) as (i&?&?&?&?). exists i. split_and!; [lia|lia|done..].
  - intros ia a Hia. destruct (Ha ia a Hia). by split.
Qed.

Lemma wp_spin_lock s (Q : unit → kvs → Prop) :
  segalloc_lock s = false → Q tt (s <| segalloc_lock := true |>) → wp spin_lock Q s.
Proof using Type. intros Hlk HQ. unfold spin_lock. wp_step. wp_step. rewrite Hlk. by wp_step. Qed.

(** The segment is the next that has not been used yet. *)
Lemma wp_segment_make s g T held X W :
  kv_inv s g T held X W → seg_alloced s < segmaxnum →
  wp (spin_lock;;
      i ← gets seg_alloced;
      if segmaxnum <=? i then spin_unlock;; mret None
      else
        modify (λ s, s <| seg_alloced ::= λ n, u64 (n + 1) |>);;
        spin_unlock;;
        let data := u64 (seg_base + u64 (segsize * i)) in
        if mprotect_ok data then
          if malloc_ok i then
            p ← segment_make i data;
            init_h p
          else mret None
        else mret None) (λ o s', ∃ g', kv_inv s' g' T held X W ∧ taken s s' g g' o) s.
Proof using Hgood.
  intros Hkv Hlt. pose proof (kv_log _ _ _ _ _ _ Hkv) as Hl. pose proof (lv_lock _ _ _ Hl) as Hlk.
  pose proof (gs_memory Hgood) as Hgm. pose proof (gs_segsize Hgood) as Hgs. unfold sizeof_item in Hgs.
  pose proof (lv_count _ _ _ Hl) as Hc.
  wp_step. apply wp_spin_lock; [done|]. wp_step. wp_step. rec_simpl.
  destruct (Z.leb_spec segmaxnum (seg_alloced s)) as [|_]; [lia|]. wp_step. wp_step. wp_step. unfold spin_unlock. wp_step.
  rewrite (u64_small (segsize * seg_alloced s)), u64_small by nia.
  set (s1 := _ <| segalloc_lock := false |>).
  assert (log_fields s1 = log_fields (s <| seg_alloced := seg_alloced s + 1 |>)) as Hs1.
  { unfold s1, log_fields. rec_simpl. rewrite u64_small by nia. by rewrite Hlk. }
  assert (∃ g', kv_inv s1 g' T held X W ∧ taken s s1 g g' None) as Hnone.
  { exists g. assert (quiet_log s s1 g g) as Hql by (split; unfold s1; rec_simpl; eauto). split; [|by split_and!].
    eapply kv_quiet_log; [done..|]. eapply log_inv_fields; [|exact Hs1]. apply log_inv_count; [done|lia]. }
  destruct (mprotect_ok _); [|by wp_step]. destruct (malloc_ok _); [|by wp_step]. clear Hnone.
  wp_step. unfold segment_make. wp_step. wp_step. wp_step. wp_step. wp_step. wp_step. wp_step.
  set (p := fresh (dom (headers s1))). set (h := SegmentHeader _ _ _ _ _ _).
  assert (headers s !! p = None) as Hp by (apply (not_elem_of_dom (headers s)); apply is_fresh).
  eapply (wp_init_h _ p h); [rec_simpl; apply lookup_insert_eq|].
  change (fresh_header h) with h. exists (set_role g p Loose (g_free g)).
  assert (∀ q r, r ≠ Unborn → r ≠ Loose → g_role (set_role g p Loose (g_free g)) q = r ↔ g_role g q = r) as Hro.
  { assert (g_role g p = Unborn) as Hrp.
    { destruct (decide (g_role g p = Unborn)) as [|Hr]; [done|]. apply (lv_born _ _ _ Hl) in Hr as [h' Hh]. congruence. }
    intros q r H1 H2. destruct (decide (q = p)) as [->|Hq]; [rewrite set_role_eq, Hrp; by split; intros <-|].
    by rewrite set_role_ne. }
  match goal with |- kv_inv ?x _ _ _ _ _ ∧ _ => set (s2 := x) end.
  assert (headers s2 = <[p := h]> (headers s)) as Hh2.
  { unfold s2. rec_simpl. by rewrite insert_insert_eq. }
  assert (quiet_log s s2 g (set_role g p Loose (g_free g))) as Hql.
  { split; try done.
    - intros q ia. by apply Hro.
    - intros q ia Hq. rewrite Hh2, lookup_insert_ne; [done|]. intros <-.
      assert (is_Some (headers s !! p)) as [? ?] by (apply (lv_born _ _ _ Hl); by rewrite Hq). congruence.
    - intros q h' Hq. rewrite Hh2. destruct (decide (p = q)) as [<-|Hne]; [by rewrite lookup_insert_eq|].
      by rewrite lookup_insert_ne. }
  split.
  - eapply kv_quiet_log; [done..|]. eapply log_inv_fields; [eapply (log_inv_make s g X p h); try done|].
    + unfold h. simpl. apply u32_small. lia.
    + unfold log_fields. rewrite Hh2. unfold s2, s1. rec_simpl. rewrite u64_small by nia. by rewrite Hlk.
  - assert (g_role g p ≠ Loose) as Hnl.
    { intros Hlo. assert (is_Some (headers s !! p)) as [? ?] by (apply (lv_born _ _ _ Hl); by rewrite Hlo). congruence. }
    split_and!; [done|done|intros; by apply Hro|apply set_role_eq|done|].
    intros q Hq. split; [by apply set_role_loose|]. rewrite Hh2, lookup_insert_ne; [done|]. congruence.
Qed.

Lemma wp_segment_alloc s g T held X W :
  kv_inv s g T held X W →
  wp segment_alloc (λ o s', ∃ g', kv_inv s' g' T held X W ∧ taken s s' g g' o) s.
Proof using Hgood.
  intros Hkv. pose proof (kv_log _ _ _ _ _ _ Hkv) as Hl. pose proof (lv_lock _ _ _ Hl) as Hlk.
  pose proof (lv_free _ _ _ Hl) as Hf. pose proof (gs_memory Hgood) as Hgm. pose proof (gs_segsize Hgood) as Hgs.
  pose proof (lv_count _ _ _ Hl) as Hc.
  assert (∀ s', kv_inv s' g T held X W → quiet_log s s' g g → taken s s' g g None) as Hnone by by intros; split_and!.
  unfold segment_alloc, segment_reuse. wp_step. wp_step. wp_step.
  destruct (g_free g) as [|p free] eqn:Hg.
  - simpl in Hf. rewrite Hf. wp_step. wp_step. wp_step.
    destruct (Z.leb_spec segmaxnum (seg_alloced s)) as [Hge|Hlt].
    + wp_step. unfold spin_unlock. wp_step. wp_step. exists g.
      assert (quiet_log s (s <| segalloc_lock := false |>) g g) as Hql by (split; rec_simpl; eauto).
      assert (kv_inv (s <| segalloc_lock := false |>) g T held X W) as Hkv'; [|auto].
      eapply kv_quiet_log; [done..|]. eapply log_inv_fields; [done|]. unfold log_fields. rec_simpl. by rewrite Hlk.
    + by apply wp_segment_make.
  - destruct Hf as (->&nx&Hnx&Hf). unfold next_seg in Hnx. destruct (headers s !! p) as [h|] eqn:Hp; [|done].
    injection Hnx as <-. wp_step. apply wp_spin_lock; [done|]. wp_step. wp_step. rec_simpl.
    assert (free_segments s = Some p) as Hfs by (pose proof (chain_head _ _ _ (lv_free _ _ _ Hl)) as Hh; by rewrite Hg in Hh).
    rewrite Hfs. wp_step. wp_step. wp_step; [done|]. wp_step. wp_step. wp_step. wp_step. unfold spin_unlock. wp_step. wp_step.
    eapply (wp_init_h _ p h); [done|]. rec_simpl. exists (set_role g p Loose free).
    match goal with |- kv_inv ?x _ _ _ _ _ ∧ _ => set (s2 := x) end.
    assert (g_role g p = Free) as Hrp by (apply (lv_free_role _ _ _ Hl); rewrite Hg; apply list_elem_of_here).
    assert (∀ q r, r ≠ Free → r ≠ Loose → g_role (set_role g p Loose free) q = r ↔ g_role g q = r) as Hro.
    { intros q r H1 H2. destruct (decide (q = p)) as [->|Hne]; [rewrite set_role_eq, Hrp; by split; intros <-|].
      by rewrite set_role_ne. }
    assert (quiet_log s s2 g (set_role g p Loose free)) as Hql.
    { split; unfold s2; rec_simpl; try done.
      - intros q ia. by apply Hro.
      - intros q ia Hq. rewrite lookup_insert_ne; [done|]. congruence.
      - intros q h' Hq. destruct (decide (p = q)) as [<-|Hne]; [by rewrite lookup_insert_eq|].
        by rewrite lookup_insert_ne. }
    split.
    + eapply kv_quiet_log; [done..|]. eapply log_inv_fields; [by eapply log_inv_reuse|].
      unfold s2, log_fields. rec_simpl. by rewrite Hlk.
    + split_and!; [done|done|intros; by apply Hro|apply set_role_eq|congruence|].
      intros q Hq. split; [by apply set_role_loose|]. unfold s2. rec_simpl. rewrite lookup_insert_ne; [done|]. congruence.
Qed.

(** ** Appending to a log *)
Definition add_log (g : ghost) (p : hptr) (x : Z) : ghost :=
  Ghost (g_role g) (g_free g) (g_segs g) (λ q, if decide (q = p) then g_log g p ++ [x] else g_log g q).

Definition overlay (m : gmap Z item) (a : Z) (it : item) : gmap Z item :=
  <[a := it]> (filter (λ '(b, it'), b + block_size it' ≤ a ∨ a + block_size it ≤ b) m).

Lemma overlay_other m a it x ix :
  m !! x = Some ix → x + block_size ix ≤ a ∨ a + block_size it ≤ x → overlay m a it !! x = Some ix.
Proof using Type.
  intros Hx Hd. pose proof (block_pos it). pose proof (block_pos ix). unfold sizeof_item in *.
  unfold overlay. rewrite lookup_insert_ne by lia. by apply map_lookup_filter_Some.
Qed.

Section append.
Context (s : kvs) (g : ghost) (T : gmap (list Z) Z) (held : list Z) (W : option positive).
Context (ia : positive) (p : hptr) (h : segment_header) (it : item).
Context (Hkv : kv_inv s g T held None W) (Hrole : g_role g p = InLog ia) (Hp : headers s !! p = Some h).
Let a : Z := sg_data h + sg_offset h.
Context (Hfit : sg_offset h + block_size it ≤ segsize).

Let Hl : log_inv s g None := kv_log _ _ _ _ _ _ Hkv.

(** The items of the logs are elsewhere. *)
Lemma append_disjoint q ia' x ix :
  g_role g q = InLog ia' → x ∈ g_log g q → mem s !! x = Some ix →
  x + block_size ix ≤ a ∨ a + block_size it ≤ x.
Proof using Hl Hrole Hp Hfit Hgood.
  intros Hq Hx Hix. destruct (log_position s g None ia' q x Hl Hq Hx) as (hq&j&ix'&Hhq&Hj&_&Hdq&Hix'&?&?&?).
  rewrite Hix in Hix'. injection Hix' as <-. destruct (lv_index _ _ _ Hl p h Hp) as (i&_&Hi&Hd&Hsz).
  destruct (so_offset _ _ _ _ (lv_log _ _ _ Hl ia p h Hrole Hp)). unfold a.
  pose proof (block_pos it). pose proof (block_pos ix). pose proof (gs_segsize Hgood). unfold sizeof_item in *.
  destruct (decide (j = i)) as [->|Hne].
  - rewrite Hi in Hj. injection Hj as ->. rewrite Hp in Hhq. injection Hhq as <-. lia.
  - destruct (decide (j < i)); [left|right]; nia.
Qed.

Lemma append_same q ia' x :
  g_role g q = InLog ia' → x ∈ g_log g q → overlay (mem s) a it !! x = mem s !! x.
Proof using Hl Hrole Hp Hfit Hgood.
  intros Hq Hx. destruct (log_position s g None ia' q x Hl Hq Hx) as (_&_&ix&_&_&_&_&Hix&_).
  rewrite Hix. apply overlay_other; [done|]. by eapply append_disjoint.
Qed.

Lemma append_new : ¬ in_log g a.
Proof using Hl Hrole Hp Hfit Hgood.
  intros (ia'&q&Hq&Hx). destruct (log_position s g None ia' q a Hl Hq Hx) as (_&_&ix&_&_&_&_&Hix&_).
  pose proof (append_disjoint q ia' a ix Hq Hx Hix). pose proof (block_pos it). pose proof (block_pos ix).
  unfold sizeof_item in *. lia.
Qed.

(** The header after the item has been appended. *)
Let h' : segment_header := h <| sg_offset := sg_offset h + block_size it |>
  <| sg_freed := sg_freed h + (if it_refcount it =? 0 then block_size it else 0) |>.
Let s' : kvs := s <| mem := overlay (mem s) a it |> <| headers := <[p := h']> (headers s) |>.
Let g' : ghost := add_log g p a.

Lemma log_inv_append X' : X' = Some a ∨ X' = None ∧ item_ok it → log_inv s' g' X'.
Proof using Hl Hrole Hp Hfit Hgood.
  intros HX. pose proof Hl as [Hlk Hc Hb Hi Hf Hfn Hfr Ha Ho Hlog Hn Hnl].
  destruct (Hi p h Hp) as (_&_&_&_&Hsz).
  assert (∀ q, next_seg s' q = next_seg s q) as Hns.
  { intros q. unfold next_seg, s'. rec_simpl. destruct (decide (p = q)) as [<-|Hne].
    - by rewrite lookup_insert_eq, Hp.
    - by rewrite lookup_insert_ne. }
  assert (inactive h → False) as Hact.
  { intros Hin. pose proof (so_full _ _ _ _ (Hlog ia p h Hrole Hp) Hin). pose proof (block_pos it). unfold sizeof_item in *. lia. }
  split; unfold s'; rec_simpl; fold s'; try done.
  - intros q. change (g_role g' q) with (g_role g q). rewrite <- Hb. destruct (decide (p = q)) as [<-|Hne].
    + by rewrite lookup_insert_eq, Hp.
    + by rewrite lookup_insert_ne.
  - intros q hq. destruct (decide (p = q)) as [<-|Hne].
    + rewrite lookup_insert_eq. intros [= <-]. exact (Hi p h Hp).
    + rewrite lookup_insert_ne by done. apply Hi.
  - eapply chain_ext; [done|]. auto.
  - intros ia' al Hal. destruct (Ha ia' al Hal) as [(older&cur&Hs&Hcur&Hold) Hch Hnd Hr Hsp]. split; try done.
    + exists older, cur. split_and!; [done..|]. intros q hq Hq. unfold s'. rec_simpl. destruct (decide (p = q)) as [<-|Hne].
      * destruct Hact. by eapply Hold.
      * rewrite lookup_insert_ne by done. by apply Hold.
    + eapply chain_ext; [done|]. auto.
  - intros ia' q hq Hq. change (g_role g' q) with (g_role g q) in Hq. destruct (decide (p = q)) as [<-|Hne].
    + rewrite lookup_insert_eq. intros [= <-]. unfold g'. simpl. rewrite decide_True by done.
      destruct (Hlog ia p h Hrole Hp) as [(e&Ht&He&Hfull&Hd) Hof Hin Hits].
      pose proof (block_pos it) as Hbp. unfold sizeof_item in *.
      assert (e = a) as -> by (apply Hfull; lia).
      assert (tiles (overlay (mem s) a it) (sg_data h) (g_log g p) a) as Ht'.
      { eapply tiles_ext; [done|]. intros x ix Hx Hix. exists ix. by rewrite (append_same p ia x Hrole Hx). }
      split; unfold h'; rec_simpl.
      * exists (a + block_size it). unfold sizeof_item. split_and!; [|unfold a; lia..|].
        -- apply tiles_app. exists a. split; [done|]. split; [done|]. exists it. split; [apply lookup_insert_eq|done].
        -- rewrite dead_app, (dead_ext (mem s)).
           ++ simpl. unfold dead_size, overlay. rewrite lookup_insert_eq. unfold a in *. case_match; lia.
           ++ intros x Hx. unfold dead_size. by rewrite (append_same p ia x Hrole Hx).
      * lia.
      * by intros ?%Hact.
      * intros x ix [Hx|Hx%list_elem_of_singleton]%elem_of_app Hix HXx.
        -- rewrite (append_same p ia x Hrole Hx) in Hix. by eapply Hits.
        -- subst x. unfold overlay in Hix. rewrite lookup_insert_eq in Hix. injection Hix as <-. naive_solver.
    + rewrite lookup_insert_ne by done. intros Hhq. unfold g'. simpl. rewrite decide_False by done.
      pose proof (Hlog ia' q hq Hq Hhq) as Hsq. assert (seg_ok (overlay (mem s) a it) hq (g_log g q) None) as Hsq'.
      { eapply seg_ok_mem; [done|]. intros x ix Hx Hix. exists ix. by rewrite (append_same q ia' x Hq Hx). }
      destruct Hsq' as [H1 H2 H3 H4]. split; try done. intros; by eapply H4.
  - intros q hq Hq. destruct (decide (p = q)) as [<-|Hne].
    + change (g_role g' p) with (g_role g p) in Hq. rewrite Hrole in Hq. naive_solver.
    + rewrite lookup_insert_ne by done. by apply Hn.
  - intros q Hq. unfold g'. simpl. case_decide as Hd; [|by apply Hnl]. subst q. by destruct (Hq ia).
Qed.

Lemma add_log_in q x : x ∈ g_log g q → x ∈ g_log g' q.
Proof using Type.
  intros Hx. unfold g'. simpl. case_decide as Hd; [|done]. subst q. apply elem_of_app. by left.
Qed.

Lemma kv_append X' held' :
  it_refcount it = 0 ∧ item_ok it ∧ X' = None ∧ held' = held ∨
  it_refcount it = 1 ∧ X' = Some a ∧ held' = a :: held →
  kv_inv s' g' T held' X' W.
Proof using Hkv Hl Hrole Hp Hfit Hgood.
  intros Hcase. pose proof Hkv as [_ Hq Hr Ht]. split.
  - apply log_inv_append. naive_solver.
  - intros ia' al Hal. destruct (Hq ia' al Hal) as [[? ? ? ? Hin] Hcl].
    assert (∀ q hq, headers s !! q = Some hq → ∃ hq', headers s' !! q = Some hq' ∧ sg_data hq' = sg_data hq ∧
      sg_flags hq' = sg_flags hq) as Hh.
    { intros q hq Hhq. unfold s'. rec_simpl. destruct (decide (p = q)) as [<-|Hne].
      - rewrite lookup_insert_eq. rewrite Hp in Hhq. injection Hhq as <-. by eexists.
      - rewrite lookup_insert_ne by done. by exists hq. }
    split.
    + split; try done. intros x Hx. destruct (Hin x Hx) as (q&hq&Hq'&Hhq&Hxl&Hcln&Hlt).
      destruct (Hh q hq Hhq) as (hq'&Hhq'&Hd&Hfl). exists q, hq'. unfold cleaned. rewrite Hd, Hfl.
      split_and!; try done. by apply add_log_in.
    + intros HW q Hcq. destruct (Hcl HW q Hcq) as (hq&Hhq&Hrg&Hrest). destruct (Hh q hq Hhq) as (hq'&Hhq'&Hd&Hfl).
      exists hq'. split_and!; [done|lia|lia|]. intros Hne. destruct (Hrest Hne) as (Hq'&Hia&Hcn&l1&l2&Hll&Htl).
      unfold inactive, cleaned, boundary. rewrite Hd, Hfl. split_and!; try done.
      exists l1, (if decide (q = p) then l2 ++ [a] else l2). split.
      * unfold g'. simpl. case_decide as Hqp; [|done]. subst q. by rewrite Hll, app_assoc.
      * eapply tiles_ext; [exact Htl|]. intros x ix Hx Hix. exists ix. split; [|done]. unfold s'. rec_simpl.
        rewrite (append_same q ia' x Hq'); [done|]. rewrite Hll. apply elem_of_app. by left.
  - destruct Hr as [Hc HT Hhd]. assert (∀ x, in_log g x → in_log g' x) as Hil.
    { intros x (ia'&q&Hq'&Hx). exists ia', q. split; [done|]. by apply add_log_in. }
    assert (in_log g' a) as Hia.
    { exists ia, p. split; [done|]. unfold g'. simpl. rewrite decide_True by done. apply elem_of_app. right. apply list_elem_of_here. }
    split.
    + intros ia' al q x ix Hq' Hal Hx Hix. unfold s' in Hix. rec_simpl_in Hix. change (g_role g q = InLog ia') in Hq'.
      assert (x ∈ g_log g q ∨ q = p ∧ x = a) as [Hxl|[-> ->]].
      { unfold g' in Hx. simpl in Hx. case_decide as Hd; [|by left]. subst q.
        apply elem_of_app in Hx as [Hx|Hx%list_elem_of_singleton]; auto. }
      * rewrite (append_same q ia' x Hq' Hxl) in Hix. rewrite (Hc ia' al q x ix) by done. unfold refs. f_equal.
        destruct Hcase as [(_&_&_&->)|(_&_&->)]; [done|]. rewrite count_occ_cons_neq; [done|]. intros <-.
        apply append_new. by exists ia', q.
      * unfold overlay in Hix. rewrite lookup_insert_eq in Hix. injection Hix as <-. unfold refs.
        rewrite (decide_False (P := T !! item_key it = Some a)) by (intros HTa; by apply append_new, (HT _ _ HTa)).
        rewrite (decide_False (P := Some a ∈ cleanup_queue al)).
        2: { intros Hqa. destruct (Hq ia' al Hal) as [[_ _ _ _ Hin] _]. destruct (Hin a Hqa) as (q&hq&?&_&?&_).
             apply append_new. by exists ia', q. }
        assert (count_occ Z.eq_dec held a = 0%nat) as Hz.
        { apply count_occ_not_In. intros Hin%list_elem_of_In. by apply append_new, Hhd. }
        destruct Hcase as [(->&_&_&->)|(->&_&->)]; [lia|]. rewrite count_occ_cons_eq by done. lia.
    + intros k x Hx. eapply Hil, HT, Hx.
    + intros x Hx. destruct Hcase as [(_&_&_&->)|(_&_&->)]; [by apply Hil, Hhd|].
      apply elem_of_cons in Hx as [->|Hx]; [done|]. by apply Hil, Hhd.
  - assert (table_inv (s <| mem := overlay (mem s) a it |>) T) as [H1 H2].
    { apply table_inv_mem; [done|]. intros k x ix HTx Hix. destruct (rv_table _ _ _ _ Hr k x HTx) as (ia'&q&Hq'&Hx).
      exists ix. by rewrite (append_same q ia' x Hq' Hx). }
    by split.
Qed.
End append.

(** What is left of a segment when it is too small for an item. *)
Lemma kv_gap s g T held W ia p h avail :
  kv_inv s g T held None W → g_role g p = InLog ia → headers s !! p = Some h →
  0 ≤ avail < sizeof_item → sg_offset h + avail = segsize →
  kv_inv (s <| headers := <[p := h <| sg_offset := sg_offset h + avail |> <| sg_freed := sg_freed h + avail |>]> (headers s) |>)
    g T held None W.
Proof using Type.
  intros [Hl Hq Hr Ht] Hrole Hp Hav Hof. set (h' := h <| sg_offset := _ |> <| sg_freed := _ |>).
  destruct (lv_index _ _ _ Hl p h Hp) as (_&_&_&_&Hsz).
  set (s' := s <| headers := _ |>).
  assert (same_segments s s') as Hss.
  { split; try done. intros q. unfold s'. rec_simpl. destruct (decide (p = q)) as [<-|Hne].
    - by rewrite lookup_insert_eq, Hp.
    - by rewrite lookup_insert_ne. }
  assert (∀ q hq hq', headers s !! q = Some hq → headers s' !! q = Some hq' →
    p = q ∧ hq = h ∧ hq' = h' ∨ p ≠ q ∧ hq' = hq) as Hh.
  { intros q hq hq' Hhq. unfold s'. rec_simpl. destruct (decide (p = q)) as [<-|Hne].
    - rewrite lookup_insert_eq. rewrite Hp in Hhq. naive_solver.
    - rewrite lookup_insert_ne, Hhq by done. naive_solver. }
  split; [| |by destruct Hr|by destruct Ht].
  - eapply log_inv_change; [done..|]. intros q hq hq' Hhq Hhq'.
    destruct (Hh q hq hq' Hhq Hhq') as [(<-&->&->)|[Hne ->]].
    + split_and!; [done| |by intros [?|[? ?]]; congruence]. intros _ _.
      destruct (lv_log _ _ _ Hl ia p h Hrole Hp) as [(e&Ht'&He&Hf&Hd) Ho Hi Hits]. split; unfold h', s'; rec_simpl.
      * exists e. assert (sg_offset h ≠ sg_size h → e = sg_data h + sg_offset h) as Hf' by done.
        unfold sizeof_item in *. destruct (decide (avail = 0)) as [->|Hne].
        -- split_and!; [done|lia|lia|lia|lia].
        -- specialize (Hf ltac:(lia)). split_and!; [done|lia..].
      * lia.
      * intros Hin. rewrite (Hi Hin) in *. lia.
      * done.
    + split_and!; [done|intros ia' Hq'; exact (lv_log _ _ _ Hl ia' q hq Hq' Hhq)|intros Hq'; exact (lv_new _ _ _ Hl q hq Hq' Hhq)].
  - eapply queue_inv_change; [done|done|done| |by intros; eauto]. intros q hq hq' Hhq Hhq'.
    by destruct (Hh q hq hq' Hhq Hhq') as [(<-&->&->)|[Hne ->]].
Qed.
End alloc.
