(* ===== verification/KvsItems.v ===== *)
(** * Items in the log of the key-value store

    The operations of ialloc.c on the log of one allocator: an item is placed
    at the end of the current segment; when the segment is full, the allocator
    links a new one, in need the segment that it keeps in reserve. *)

From S2P Require Import Prelude Links F64 Jenkins Kvs KvsInv KvsLog KvsTable KvsAlloc.

Section items.
Context {cfg : settings} {plt : platform} (Hgood : good_store).
Implicit Types (s : kvs) (g : ghost) (p q : hptr) (h : segment_header).

(** What is in the logs stays as it is, and so do the table and the queues. *)
Record grows (s s' : kvs) (g g' : ghost) : Prop := Grows {
  gr_buckets : buckets s' = buckets s;
  gr_mem x : in_log g x → mem s' !! x = mem s !! x;
  gr_in x : in_log g x → in_log g' x;
  gr_queue ia : queue_of <$> allocs s' !! ia = queue_of <$> allocs s !! ia;
}.

Lemma grows_refl s g : grows s s g g.
Proof using Type. by split. Qed.

Lemma grows_trans s1 s2 s3 g1 g2 g3 : grows s1 s2 g1 g2 → grows s2 s3 g2 g3 → grows s1 s3 g1 g3.
Proof using Type.
  intros [H1 H2 H3 H4] [H5 H6 H7 H8]. split; [congruence|..]; intros y.
  - intros Hy. rewrite H6 by auto. auto.
  - auto.
  - by rewrite H8.
Qed.

Lemma relink_grows s s' g g' : relink s s' g g' → grows s s' g g'.
Proof using Type.
  intros [Hm Hb _ Hq Hr _ Hlg _ _]. split; try done; [by rewrite Hm|].
  intros x (ia&p&Hp&Hx). exists ia, p. rewrite Hlg. split; [by apply Hr|done].
Qed.

Lemma freed_range s g X ia p h :
  log_inv s g X → g_role g p = InLog ia → headers s !! p = Some h →
  0 ≤ sg_freed h ≤ sg_offset h ∧ 0 ≤ sg_offset h ≤ segsize ∧ sg_size h = segsize ∧ 0 ≤ sg_data h ∧
  sg_data h + segsize < 2 ^ 64.
Proof using Hgood.
  intros Hl Hp Hh. destruct (lv_index _ _ _ Hl p h Hh) as (i&Hi&_&Hd&Hsz).
  destruct (lv_log _ _ _ Hl ia p h Hp Hh) as [(e&Ht&He&_&Hfr) Ho _ _].
  pose proof (dead_le _ _ _ _ Ht). pose proof (dead_nonneg (mem s) (g_log g p)).
  pose proof (lv_count _ _ _ Hl). pose proof (gs_memory Hgood). pose proof (gs_segsize Hgood).
  unfold sizeof_item in *. split_and!; try done; try lia; nia.
Qed.

Lemma wp_place_item s a total (f : item → item) (Q : unit → kvs → Prop) :
  sizeof_item ≤ total →
  (∀ it, block_size it = total →
     it_refcount it = it_refcount (f (stale a)) → it_keylen it = it_keylen (f (stale a)) →
     it_vallen it = it_vallen (f (stale a)) → Q tt (s <| mem := overlay (mem s) a it |>)) →
  wp (place_item a total f) Q s.
Proof using Type.
  intros Ht HQ. unfold place_item. wp_step. set (it := (f (stale a)) <| it_data ::= resize (Z.to_nat (total - sizeof_item)) 0 |>).
  assert (block_size it = total) as Hb.
  { unfold block_size. change (it_data it) with (resize (Z.to_nat (total - sizeof_item)) 0 (it_data (f (stale a)))).
    rewrite length_resize. unfold sizeof_item in *. lia. }
  specialize (HQ it Hb eq_refl eq_refl eq_refl). unfold overlay in HQ. rewrite Hb in HQ. exact HQ.
Qed.

(** The item is new; it is the operation's, and is yet to be filled in. *)
Definition allocated (s' : kvs) (g g' : ghost) (T : gmap (list Z) Z) (held : list Z) (W : option positive)
    (total : Z) (o : option Z) : Prop :=
  match o with
  | None => kv_inv s' g' T held None W
  | Some x => kv_inv s' g' T (x :: held) (Some x) W ∧ ¬ in_log g x ∧
      ∃ it, mem s' !! x = Some it ∧ block_size it = total ∧ it_refcount it = 1
  end.

Lemma allocated_since s0 s s' g0 g g' T held W total o :
  grows s0 s g0 g → grows s s' g g' → allocated s' g g' T held W total o →
  grows s0 s' g0 g' ∧ allocated s' g0 g' T held W total o.
Proof using Type.
  intros H0 H1 Ha. split; [by eapply grows_trans|]. destruct o as [x|]; [|done].
  destruct Ha as (Hx&Hnew&Hit). split_and!; [done| |done]. intros Hin. by apply Hnew, (gr_in _ _ _ _ H0).
Qed.

Lemma append_grows s g T held W ia p h it n :
  kv_inv s g T held None W → g_role g p = InLog ia → headers s !! p = Some h →
  sg_offset h + block_size it ≤ segsize →
  grows s (s <| mem := overlay (mem s) (sg_data h + sg_offset h) it |> <| headers := n |>) g
    (add_log g p (sg_data h + sg_offset h)).
Proof using Hgood.
  intros Hkv Hp Hh Hfit. split; try done; intros x (ia'&q&Hq&Hx); rec_simpl.
  - exact (append_same Hgood s g T held W ia p h it Hkv Hp Hh Hfit q ia' x Hq Hx).
  - exists ia', q. split; [done|]. by apply add_log_in.
Qed.

Definition placed (s : kvs) (g : ghost) (T : gmap (list Z) Z) (held : list Z) (W : option positive) (p : hptr)
    (total : Z) (o : option Z) (s' : kvs) : Prop :=
  ∃ g', grows s s' g g' ∧ allocated s' g g' T held W total o ∧
    allocs s' = allocs s ∧ g_role g' = g_role g ∧ (∀ q, q ≠ p → headers s' !! q = headers s !! q) ∧
    ∃ h', headers s' !! p = Some h' ∧ (o = None → sg_offset h' = segsize).

Lemma wp_segment_item_alloc s g T held W ia p h total :
  kv_inv s g T held None W → g_role g p = InLog ia → headers s !! p = Some h →
  sizeof_item ≤ total < sizeof_item + 2 ^ 16 →
  wp (segment_item_alloc p total) (placed s g T held W p total) s.
Proof using Hgood.
  intros Hkv Hp Hh Ht. pose proof (kv_log _ _ _ _ _ _ Hkv) as Hl.
  destruct (freed_range s g None ia p h Hl Hp Hh) as (Hf&Ho&Hsz&Hd&Hm). pose proof (gs_segsize Hgood) as Hgs.
  unfold segment_item_alloc, placed. wp_step. wp_step; [done|].
  rewrite Hsz, (u64_small (sg_data h + sg_offset h)) by lia.
  rewrite (u32_small (segsize - sg_offset h)) by (unfold sizeof_item in *; lia).
  set (avail := segsize - sg_offset h). destruct (Z.eqb_spec avail 0) as [Hz|Hz].
  { wp_step. exists g. split_and!; [apply grows_refl|done..|]. exists h. split; [done|]. unfold avail in Hz. lia. }
  destruct (Z.ltb_spec avail total) as [Hlt|Hge].
  - assert (∀ s1 h', headers s1 = headers s → h' = h <| sg_offset := sg_offset h + avail |> <| sg_freed := sg_freed h + avail |> →
      ∀ g', grows s (s1 <| headers := <[p := h']> (headers s) |>) g g' → allocs s1 = allocs s → g_role g' = g_role g →
      kv_inv (s1 <| headers := <[p := h']> (headers s) |>) g' T held None W →
      wp (segment_item_free p avail;; store headers p (λ h, h <| sg_offset ::= λ o, u32 (o + avail) |>);; mret None)
        (placed s g T held W p total) s1) as Hrest.
    { intros s1 h' Hs1 -> g' Hg Ha Hr Hkv'. unfold segment_item_free, placed. wp_step. eapply wp_store; [by rewrite Hs1|].
      wp_step. eapply wp_store; [rec_simpl; apply lookup_insert_eq|]. wp_step. exists g'. rec_simpl.
      rewrite insert_insert_eq, Hs1. unfold avail, upd, set_sg_freed, set_sg_offset in *. cbn [sg_offset sg_freed sg_data sg_next sg_size sg_flags] in *.
      rewrite !u32_small by (unfold sizeof_item in *; lia).
      split_and!; [exact Hg|exact Hkv'|done|done| |].
      - intros q Hq. by rewrite lookup_insert_ne.
      - eexists. split; [apply lookup_insert_eq|]. intros _. simpl. lia. }
    wp_step. wp_step.
    + match goal with H : _ = true |- _ => rewrite Z.leb_le in H end.
      apply wp_place_item; [done|]. intros it Hb Hc Hk Hv. rec_simpl_in Hc. rec_simpl_in Hk. rec_simpl_in Hv.
      simpl in Hc, Hk, Hv.
      assert (sg_offset h + block_size it ≤ segsize) as Hfit by (unfold avail in *; lia).
      match goal with |- wp _ _ ?s1 => eapply (Hrest s1 _ eq_refl eq_refl (add_log g p (sg_data h + sg_offset h))) end; try done; [by eapply append_grows|].
      pose proof (kv_append Hgood s g T held W ia p h it Hkv Hp Hh Hfit None held) as Ha.
      rewrite Hc, Hb in Ha. apply Ha. left. split_and!; try done.
      unfold item_ok. rewrite Hk, Hv, Hb. unfold u16, sizeof_item in *. rewrite Z.mod_small by lia. lia.
    + match goal with H : _ = false |- _ => rewrite Z.leb_gt in H end.
      eapply (Hrest s _ eq_refl eq_refl g); try done.
      eapply kv_gap; try done; unfold avail in *; lia.
  - wp_step. apply wp_place_item; [lia|]. intros it Hb Hc _ _. simpl in Hc. wp_step.
    eapply wp_store; [done|]. wp_step. rec_simpl.
    assert (sg_offset h + block_size it ≤ segsize) as Hfit by (unfold avail in *; lia).
    pose proof (kv_append Hgood s g T held W ia p h it Hkv Hp Hh Hfit (Some (sg_data h + sg_offset h))
      (sg_data h + sg_offset h :: held)) as Ha.
    exists (add_log g p (sg_data h + sg_offset h)). split_and!; try done.
    + by eapply append_grows.
    + unfold upd, set_sg_freed, set_sg_offset in *. cbn [sg_offset sg_freed sg_data sg_next sg_size sg_flags] in *.
      rewrite Hc, Hb in Ha. simpl in Ha. rewrite Z.add_0_r in Ha. rewrite u32_small by (unfold sizeof_item in *; lia).
      split_and!; [apply Ha; by right|by eapply append_new|].
      exists it. rec_simpl. split_and!; [apply lookup_insert_eq|done..].
    + intros q Hq. by rewrite lookup_insert_ne.
    + eexists. split; [apply lookup_insert_eq|done].
Qed.

(** ** Linking a segment *)
Definition link_role (g : ghost) (p : hptr) (ia : positive) : ghost :=
  Ghost (λ q, if decide (q = p) then InLog ia else g_role g q) (g_free g)
    (λ i, if decide (i = ia) then g_segs g ia ++ [p] else g_segs g i) (g_log g).

Lemma link_role_eq g p ia : g_role (link_role g p ia) p = InLog ia.
Proof using Type. simpl. by rewrite decide_True. Qed.
Lemma link_role_ne g p ia q : q ≠ p → g_role (link_role g p ia) q = g_role g q.
Proof using Type. intros. simpl. by rewrite decide_False. Qed.

(** The header of a full segment after a segment has been linked to it. *)
Definition linked (o : segment_header) (p : hptr) : segment_header :=
  o <| sg_next := Some p |> <| sg_flags ::= λ f, Z.lor f SF_INACTIVE |>.

Lemma linked_flags o p : inactive (linked o p) ∧ (cleaned o → cleaned (linked o p)).
Proof using Type.
  unfold linked, inactive, cleaned. rec_simpl. rewrite !Z.land_lor_distr_l. 
  split; [|by intros ->]. rewrite Z.land_diag. apply Z.bits_inj. intros n. rewrite Z.lor_spec, Z.land_spec.
  by destruct (Z.testbit _ n), (Z.testbit _ n).
Qed.

Section link.
Context (s : kvs) (g : ghost) (ia : positive) (a : item_allocator) (old : hptr) (ho : segment_header) (p : hptr)
  (hp : segment_header).
Context (Hl : log_inv s g None) (Hal : allocs s !! ia = Some a) (Hcur : ia_cur a = Some old)
  (Hold : headers s !! old = Some ho) (Hfull : sg_offset ho = segsize) (Hp : g_role g p = Loose)
  (Hhp : headers s !! p = Some hp).
Let s' : kvs := s <| headers := <[p := hp <| sg_next := None |>]> (<[old := linked ho p]> (headers s)) |>
  <| allocs := <[ia := a <| ia_cur := Some p |>]> (allocs s) |>.
Let g' : ghost := link_role g p ia.

Lemma link_old : g_role g old = InLog ia.
Proof using Hl Hal Hcur.
  destruct (lv_alloc _ _ _ Hl ia a Hal) as [(older&cur&Hs&Hc&_) _ _ Hr _]. rewrite Hcur in Hc. injection Hc as <-.
  apply Hr. rewrite Hs. apply elem_of_app. right. apply list_elem_of_here.
Qed.

Lemma link_ne : p ≠ old.
Proof using Hl Hal Hcur Hp. pose proof link_old. congruence. Qed.

Lemma link_new_header : headers s' !! p = Some (hp <| sg_next := None |>).
Proof using Type. apply lookup_insert_eq. Qed.

Lemma link_old_header : headers s' !! old = Some (linked ho p).
Proof using Hl Hal Hcur Hp.
  unfold s'. rec_simpl. rewrite lookup_insert_ne by apply link_ne. apply lookup_insert_eq.
Qed.

Lemma link_other_header q : q ≠ p → q ≠ old → headers s' !! q = headers s !! q.
Proof using Type. intros H1 H2. unfold s'. rec_simpl. by rewrite !lookup_insert_ne. Qed.

Lemma link_next q : q ≠ p → q ≠ old → next_seg s' q = next_seg s q.
Proof using Type. intros H1 H2. unfold next_seg. by rewrite link_other_header. Qed.

Lemma link_roles q r : r ≠ Loose → r ≠ InLog ia → g_role g' q = r ↔ g_role g q = r.
Proof using Hp.
  intros H1 H2. unfold g'. destruct (decide (q = p)) as [->|Hq]; [rewrite link_role_eq, Hp; split; congruence|].
  by rewrite link_role_ne.
Qed.

(** The header of a segment, before and after. *)
Lemma link_header q h :
  headers s' !! q = Some h →
  q = p ∧ h = hp <| sg_next := None |> ∨ q = old ∧ h = linked ho p ∨ q ≠ p ∧ q ≠ old ∧ headers s !! q = Some h.
Proof using Hl Hal Hcur Hp.
  intros Hq. destruct (decide (q = p)) as [->|Hqp]; [|destruct (decide (q = old)) as [->|Hqo]].
  - rewrite link_new_header in Hq. injection Hq as <-. by left.
  - rewrite link_old_header in Hq. injection Hq as <-. right. by left.
  - rewrite link_other_header in Hq by done. right. by right.
Qed.

Lemma link_some q : is_Some (headers s' !! q) ↔ is_Some (headers s !! q).
Proof using Hl Hal Hcur Hp Hold Hhp.
  destruct (decide (q = p)) as [->|Hqp]; [by rewrite link_new_header, Hhp|].
  destruct (decide (q = old)) as [->|Hqo]; [by rewrite link_old_header, Hold|]. by rewrite link_other_header.
Qed.

Lemma link_own : alloc_ok s' g' ia (a <| ia_cur := Some p |>).
Proof using Hl Hal Hcur Hp.
  destruct (lv_alloc _ _ _ Hl ia a Hal) as [(older&old'&Hs&Hcur'&Hina) Hch Hnd Hr Hsp].
  rewrite Hcur in Hcur'. injection Hcur' as <-.
  assert (p ∉ g_segs g ia) as Hpn by (rewrite Hr; congruence).
  assert (∀ q, q ∈ older → q ≠ p ∧ q ≠ old) as Hq.
  { intros q Hq. rewrite Hs in Hnd, Hpn. apply NoDup_app in Hnd as (_&Hnd&_). split; intros ->.
    - apply Hpn, elem_of_app. by left.
    - apply (Hnd _ Hq), list_elem_of_here. }
  split; unfold g'; cbn [g_segs g_role link_role]; rewrite ?(decide_True (P := ia = ia)) by done.
  - exists (g_segs g ia), p. split_and!; [done..|]. intros q h. rewrite Hs, elem_of_app, list_elem_of_singleton.
    intros [Hqo| ->] Hqh; [|rewrite link_old_header in Hqh; injection Hqh as <-; apply linked_flags].
    destruct (Hq q Hqo). rewrite link_other_header in Hqh by done. by eapply Hina.
  - change (chain (next_seg s') (ia_oldest a) (g_segs g ia ++ [p])).
    rewrite Hs in Hch |- *. apply chain_app in Hch as (n&Hpc&->&m&_&_).
    rewrite <- app_assoc. apply chain_app. exists (Some old). split.
    + eapply piece_ext; [done|]. intros q Hqo. destruct (Hq q Hqo). by apply link_next.
    + split; [done|]. exists (Some p). unfold next_seg. rewrite link_old_header. split; [done|]. split; [done|].
      exists None. by rewrite link_new_header.
  - apply NoDup_app. split_and!; [done| |apply NoDup_singleton]. intros q Hq1 ->%list_elem_of_singleton. done.
  - intros q. rewrite elem_of_app, list_elem_of_singleton, Hr. case_decide; naive_solver.
  - intros q. change (ia_reserved a = Some q ↔ g_role g' q = Spare ia). rewrite link_roles by done. apply Hsp.
Qed.

Lemma link_alloc ia' a' : allocs s' !! ia' = Some a' → alloc_ok s' g' ia' a'.
Proof using Hl Hal Hcur Hp.
  intros Ha'. unfold s' in Ha'. rec_simpl_in Ha'. destruct (decide (ia = ia')) as [<-|Hia].
  { rewrite lookup_insert_eq in Ha'. injection Ha' as <-. apply link_own. }
  rewrite lookup_insert_ne in Ha' by done. pose proof link_old as Hro.
  destruct (lv_alloc _ _ _ Hl ia' a' Ha') as [(older'&cur'&Hs'&Hcur'&Hina') Hch' Hnd' Hr' Hsp'].
  assert (∀ q, q ∈ g_segs g ia' → q ≠ p ∧ q ≠ old) as Hq by (intros q Hq%Hr'; split; congruence).
  split; unfold g'; cbn [g_segs link_role]; rewrite ?(decide_False (P := ia' = ia)) by done; try done.
  - exists older', cur'. split_and!; [done..|]. intros q h Hqo. destruct (Hq q) as [H1 H2].
    { rewrite Hs'. apply elem_of_app. by left. }
    rewrite link_other_header by done. by apply Hina'.
  - eapply chain_ext; [done|]. intros q Hqs. destruct (Hq q Hqs). by apply link_next.
  - intros q. fold g'. rewrite link_roles by congruence. apply Hr'.
  - intros q. fold g'. rewrite link_roles by done. apply Hsp'.
Qed.

(** The new segment is empty, the old one full. *)
Lemma link_segment ia' q h : g_role g' q = InLog ia' → headers s' !! q = Some h → seg_ok (mem s') h (g_log g' q) None.
Proof using Hl Hal Hcur Hold Hfull Hp Hhp Hgood.
  pose proof Hl as [_ _ _ Hi _ _ _ _ _ Hlog Hn Hnl].
  intros Hq [[-> ->]|[[-> ->]|(Hqp&Hqo&Hqh)]]%link_header.
  - destruct (Hn p hp) as (Hz1&Hz2&Hz3); [by left|done|]. unfold g'. cbn [g_log link_role]. rewrite Hnl by congruence.
    destruct (Hi p hp Hhp) as (_&_&_&_&Hsz). pose proof (gs_segsize Hgood). unfold sizeof_item in *.
    split; rec_simpl; rewrite ?Hz1, ?Hz2, ?Hsz; try lia.
    + exists (sg_data hp). simpl. unfold sizeof_item. split_and!; [done|lia..].
    + unfold inactive. rec_simpl. by rewrite Hz3.
    + intros x it Hx. by apply not_elem_of_nil in Hx.
  - destruct (Hlog ia old ho link_old Hold) as [H1 H2 H3 H4].
    destruct (Hi old ho Hold) as (_&_&_&_&Hsz). split; try done. intros _. change (sg_offset ho = sg_size ho). lia.
  - unfold g' in Hq. rewrite link_role_ne in Hq by done. exact (Hlog ia' q h Hq Hqh).
Qed.

Lemma log_inv_link : log_inv s' g' None.
Proof using Hl Hal Hcur Hold Hfull Hp Hhp Hgood.
  pose proof link_old as Hro. pose proof Hl as [Hlk Hc Hb Hi Hf Hfn Hfr _ Ho _ Hn Hnl].
  split; try done; [..|by apply link_alloc| |by apply link_segment| |].
  - intros q. rewrite link_some, Hb. unfold g'. destruct (decide (q = p)) as [->|Hq]; [by rewrite link_role_eq, Hp|].
    by rewrite link_role_ne.
  - intros q h [[-> ->]|[[-> ->]|(_&_&Hq)]]%link_header; [exact (Hi p hp Hhp)|exact (Hi old ho Hold)|exact (Hi q h Hq)].
  - eapply chain_ext; [done|]. intros q Hq%Hfr. apply link_next; congruence.
  - intros q. rewrite link_roles by done. apply Hfr.
  - intros ia' q Hq. unfold s'. rec_simpl. destruct (decide (ia = ia')) as [<-|Hia]; [by rewrite lookup_insert_eq|].
    rewrite lookup_insert_ne by done. apply (Ho ia' q). rewrite !link_roles in Hq by congruence. done.
  - intros q h Hq [[-> ->]|[[-> ->]|(Hqp&_&Hqh)]]%link_header.
    + unfold g' in Hq. rewrite link_role_eq in Hq. naive_solver.
    + unfold g' in Hq. rewrite link_role_ne, Hro in Hq by (apply not_eq_sym, link_ne). naive_solver.
    + unfold g' in Hq. rewrite link_role_ne in Hq by done. by apply (Hn q).
  - intros q Hq. apply Hnl. intros ia' Hq'. apply (Hq ia'). unfold g'. rewrite link_role_ne; [done|]. congruence.
Qed.
End link.

Lemma kv_link s g T held W ia a old ho p hp :
  kv_inv s g T held None W → allocs s !! ia = Some a → ia_cur a = Some old → headers s !! old = Some ho →
  sg_offset ho = segsize → g_role g p = Loose → headers s !! p = Some hp →
  let s' := s <| headers := <[p := hp <| sg_next := None |>]> (<[old := linked ho p]> (headers s)) |>
             <| allocs := <[ia := a <| ia_cur := Some p |>]> (allocs s) |> in
  kv_inv s' (link_role g p ia) T held None W ∧ grows s s' g (link_role g p ia).
Proof using Hgood.
  intros Hkv Hal Hcur Hold Hfull Hp Hhp s'. pose proof (kv_log _ _ _ _ _ _ Hkv) as Hl.
  assert (relink s s' g (link_role g p ia)) as Hrl.
  { split; try done.
    - intros ia'. unfold s'. rec_simpl. destruct (decide (ia = ia')) as [<-|Hne].
      + by rewrite lookup_insert_eq, Hal.
      + by rewrite lookup_insert_ne.
    - intros q ia' Hq. rewrite link_role_ne; [done|]. congruence.
    - intros q ia' Hq. destruct (decide (q = p)) as [->|Hne].
      + right. apply (lv_nolog _ _ _ Hl). congruence.
      + rewrite link_role_ne in Hq by done. by left.
    - intros q h ia' Hq Hh. unfold s'. rec_simpl. rewrite lookup_insert_ne by congruence.
      destruct (decide (old = q)) as [<-|Hne].
      + rewrite lookup_insert_eq. eexists. rewrite Hold in Hh. injection Hh as <-.
        destruct (linked_flags ho p). by split_and!.
      + rewrite lookup_insert_ne by done. by exists h.
    - intros q h Hh. unfold s'. rec_simpl. rewrite !lookup_insert_is_Some'. eauto. }
  split; [|by apply relink_grows]. eapply kv_relink; [done..|]. by apply log_inv_link.
Qed.

(** The segment in reserve. *)
Lemma kv_respare s g T held X W ia a p r o :
  kv_inv s g T held X W → allocs s !! ia = Some a → g_role g p = Loose ∨ g_role g p = Spare ia →
  r = Loose ∨ r = Spare ia →
  (∀ q, o = Some q ↔ g_role (set_role g p r (g_free g)) q = Spare ia) →
  let s' := s <| allocs := <[ia := a <| ia_reserved := o |>]> (allocs s) |> in
  kv_inv s' (set_role g p r (g_free g)) T held X W ∧ grows s s' g (set_role g p r (g_free g)).
Proof using Type.
  intros Hkv Hal Hp Hr Ho s'. set (g' := set_role g p r (g_free g)) in *.
  assert (∀ q r', r' ≠ Loose → r' ≠ Spare ia → g_role g' q = r' ↔ g_role g q = r') as Hrr.
  { intros q r' H1 H2. unfold g'. destruct (decide (q = p)) as [->|Hq]; [|by rewrite set_role_ne].
    rewrite set_role_eq. naive_solver. }
  assert (∀ q, (g_role g' q = Loose ∨ ∃ ia, g_role g' q = Spare ia) →
    (g_role g q = Loose ∨ ∃ ia, g_role g q = Spare ia)) as Hnew.
  { intros q Hq. unfold g' in Hq. destruct (decide (q = p)) as [->|Hne]; [naive_solver|]. by rewrite set_role_ne in Hq. }
  assert (relink s s' g g') as Hrl.
  { split; try done.
    - intros ia'. unfold s'. rec_simpl. destruct (decide (ia = ia')) as [<-|Hne].
      + by rewrite lookup_insert_eq, Hal.
      + by rewrite lookup_insert_ne.
    - intros q ia' Hq. by apply Hrr.
    - intros q ia' Hq. left. by apply Hrr.
    - intros q h ia' Hq Hh. by exists h. }
  split; [|by apply relink_grows]. eapply kv_relink; [done..|].
  destruct (kv_log _ _ _ _ _ _ Hkv) as [Hlk Hc Hb Hi Hf Hfn Hfr Ha How Hl Hn Hnl]. split; try done.
  - intros q. change (headers s') with (headers s). rewrite Hb. destruct (decide (g_role g' q = Unborn)) as [He|He].
    + split; [|done]. intros Hq. by apply Hrr in He.
    + split; [done|]. intros _ Hq. by apply He, Hrr.
  - intros q. rewrite Hrr by done. apply Hfr.
  - intros ia' a' Ha'. unfold s' in Ha'. rec_simpl_in Ha'. destruct (decide (ia = ia')) as [<-|Hne].
    + rewrite lookup_insert_eq in Ha'. injection Ha' as <-. destruct (Ha ia a Hal) as [H1 H2 H3 H4 H5]. split; try done.
      intros q. rewrite Hrr by done. apply H4.
    + rewrite lookup_insert_ne in Ha' by done. destruct (Ha ia' a' Ha') as [H1 H2 H3 H4 H5]. split; try done.
      * intros q. rewrite Hrr by done. apply H4.
      * intros q. rewrite Hrr by congruence. apply H5.
  - intros ia' q Hq. unfold s'. rec_simpl. destruct (decide (ia = ia')) as [<-|Hne]; [by rewrite lookup_insert_eq|].
    rewrite lookup_insert_ne by done. rewrite !Hrr in Hq by congruence. by apply (How ia' q).
  - intros ia' q h Hq. apply Hl with ia'. by apply Hrr.
  - intros q h Hq. by apply Hn, Hnew.
  - intros q Hq. apply Hnl. intros ia' Hq'. apply (Hq ia'). by apply Hrr.
Qed.

Lemma loose_header s g X p r : log_inv s g X → g_role g p = r → r ≠ Unborn → ∃ h, headers s !! p = Some h.
Proof using Type. intros Hl Hp Hr. apply (lv_born _ _ _ Hl p). congruence. Qed.

Lemma wp_link_segment s g T held W ia a old ho p total :
  kv_inv s g T held None W → allocs s !! ia = Some a → ia_cur a = Some old → headers s !! old = Some ho →
  sg_offset ho = segsize → g_role g p = Loose → sizeof_item ≤ total < sizeof_item + 2 ^ 16 →
  wp (store headers old (λ o, o <| sg_next := Some p |>);;
      store headers p (λ h, h <| sg_next := None |>);;
      store headers old (λ o, o <| sg_flags ::= λ f, Z.lor f SF_INACTIVE |>);;
      store allocs ia (λ a, a <| ia_cur := Some p |>);;
      segment_item_alloc p total)
    (λ o s', ∃ g', grows s s' g g' ∧ allocated s' g g' T held W total o) s.
Proof using Hgood.
  intros Hkv Hal Hcur Hold Hfull Hp Ht. pose proof (kv_log _ _ _ _ _ _ Hkv) as Hl.
  destruct (loose_header s g None p Loose Hl Hp ltac:(done)) as [hp Hhp].
  assert (g_role g old = InLog ia) as Hro.
  { destruct (lv_alloc _ _ _ Hl ia a Hal) as [(older&cur&Hs&Hc&_) _ _ Hr _]. rewrite Hcur in Hc. injection Hc as <-.
    apply Hr. rewrite Hs. apply elem_of_app. right. apply list_elem_of_here. }
  assert (old ≠ p) as Hne by congruence.
  destruct (kv_link s g T held W ia a old ho p hp Hkv Hal Hcur Hold Hfull Hp Hhp) as [Hkv' Hg].
  wp_step. eapply wp_store; [done|]. wp_step. eapply wp_store; [rec_simpl; rewrite lookup_insert_ne by done; exact Hhp|].
  wp_step. eapply wp_store; [rec_simpl; rewrite lookup_insert_ne by done; apply lookup_insert_eq|].
  wp_step. eapply wp_store; [done|]. rec_simpl.
  assert (∀ h1 h2 h3 : segment_header, <[old := h3]> (<[p := h2]> (<[old := h1]> (headers s))) = <[p := h2]> (<[old := h3]> (headers s))) as Hins.
  { intros h1 h2 h3. rewrite (insert_insert_ne _ old p) by done. by rewrite insert_insert_eq. }
  rewrite Hins. eapply wp_mono.
  - eapply wp_segment_item_alloc; [exact Hkv'|apply link_role_eq|apply lookup_insert_eq|done].
  - intros o s' (g'&Hg'&Hall&_). exists g'. by eapply allocated_since.
Qed.

Lemma wp_ialloc_alloc s g T held W ia a total cleanup :
  kv_inv s g T held None W → allocs s !! ia = Some a → sizeof_item ≤ total < sizeof_item + 2 ^ 16 →
  wp (ialloc_alloc ia total cleanup) (λ o s', ∃ g', grows s s' g g' ∧ allocated s' g g' T held W total o) s.
Proof using Hgood.
  intros Hkv Hal Ht. pose proof (kv_log _ _ _ _ _ _ Hkv) as Hl. pose proof (gs_segsize Hgood).
  destruct (lv_alloc _ _ _ Hl ia a Hal) as [(older&old&Hs&Hcur&_) _ _ Hr _].
  assert (g_role g old = InLog ia) as Hro by (apply Hr; rewrite Hs; apply elem_of_app; right; apply list_elem_of_here).
  destruct (loose_header s g None old (InLog ia) Hl Hro ltac:(done)) as [ho Hold].
  unfold ialloc_alloc. wp_step. wp_step; [apply Z.ltb_lt; lia|]. wp_step. wp_step; [done|].
  destruct (is_null (ia_reserved a) && negb cleanup); [wp_step; exists g; split; [apply grows_refl|done]|].
  wp_step. wp_step; [done|]. wp_step. eapply wp_mono; [by eapply wp_segment_item_alloc|].
  intros [x|] s1 (g1&Hg1&Hall&Ha1&Hr1&_&h1&Hh1&Hf1); [wp_step; by exists g1|]. specialize (Hf1 eq_refl). simpl in Hall.
  wp_step. eapply wp_mono; [by eapply wp_segment_alloc|]. intros o s2 (g2&Hkv2&Hql&_&_&Ho).
  pose proof (grows_trans _ _ _ _ _ _ Hg1 (relink_grows _ _ _ _ (quiet_relink _ _ _ _ Hql))) as Hg2.
  assert (headers s2 !! old = Some h1) as Hh2 by (rewrite (ql_headers _ _ _ _ Hql old ia); [done|by rewrite Hr1]).
  assert (allocs s2 !! ia = Some a) as Ha2 by (by rewrite (ql_allocs _ _ _ _ Hql), Ha1).
  assert (∀ s3 g3 a3 p, kv_inv s3 g3 T held None W → grows s s3 g g3 → allocs s3 !! ia = Some a3 → ia_cur a3 = Some old →
    headers s3 !! old = Some h1 → g_role g3 p = Loose →
    wp (store headers old (λ o, o <| sg_next := Some p |>);; store headers p (λ h, h <| sg_next := None |>);;
        store headers old (λ o, o <| sg_flags ::= λ f, Z.lor f SF_INACTIVE |>);;
        store allocs ia (λ a, a <| ia_cur := Some p |>);; segment_item_alloc p total)
      (λ o s', ∃ g', grows s s' g g' ∧ allocated s' g g' T held W total o) s3) as Htail.
  { intros s3 g3 a3 p Hkv3 Hg3 Ha3 Hc3 Hh3 Hp. eapply wp_mono; [by eapply wp_link_segment|].
    intros o' s' (g'&Hg'&Hall'). exists g'. by eapply allocated_since. }
  wp_step. destruct o as [p|]; [wp_step; apply (Htail s2 g2 a p); [done..|by destruct Ho]|].
  assert (wp (mret None) (λ o s', ∃ g', grows s s' g g' ∧ allocated s' g g' T held W total o) s2) as Hnone
    by (wp_step; by exists g2).
  destruct (ia_reserved a) as [r|] eqn:Hres; [|by wp_step]. destruct cleanup; [|by wp_step].
  wp_step. eapply wp_store; [done|]. wp_step.
  assert (g_role g2 r = Spare ia) as Hrr.
  { by apply (ao_spare _ _ _ _ (lv_alloc _ _ _ (kv_log _ _ _ _ _ _ Hkv2) ia a Ha2)). }
  destruct (kv_respare s2 g2 T held None W ia a r Loose None Hkv2 Ha2) as [Hkv3 Hg3]; [by right|by left| |].
  { intros q. split; [done|]. intros Hq. destruct (decide (q = r)) as [->|Hne]; [by rewrite set_role_eq in Hq|].
    rewrite set_role_ne in Hq by done. apply (ao_spare _ _ _ _ (lv_alloc _ _ _ (kv_log _ _ _ _ _ _ Hkv2) ia a Ha2)) in Hq.
    congruence. }
  eapply (Htail _ (set_role g2 r Loose (g_free g2))); [exact Hkv3|by eapply grows_trans|apply lookup_insert_eq|done|done|].
  apply set_role_eq.
Qed.
End items.
