(* ===== verification/KvsClean.v ===== *)
(** * Cleaning the log of the key-value store

    The worker takes the items that the maintenance thread has queued, and
    copies those that are still in the table to the end of its log
    (ialloc_cleanup_item of ialloc.c, clean_log of bench/main.c).  The values
    in the store stay the same. *)

From S2P Require Import Prelude Links F64 Jenkins Kvs KvsInv KvsLog KvsTable KvsAlloc KvsItems.

(** The value that the store holds for a key. *)
Definition value_of (s : kvs) (T : gmap (list Z) Z) (k : list Z) : option (list Z) :=
  x ← T !! k; item_value <$> mem s !! x.

Section clean.
Context {cfg : settings} {plt : platform} (Hgood : good_store).
Implicit Types (s : kvs) (g : ghost) (p q : hptr) (h : segment_header) (x : Z).

Lemma content_value it it' : content it' = content it → item_value it' = item_value it.
Proof using Type. intros [= _ H1 H2 H3]. unfold item_value. by rewrite H1, H2, H3. Qed.

Lemma value_content s s' T k :
  (∀ x, T !! k = Some x → content <$> mem s' !! x = content <$> mem s !! x) → value_of s' T k = value_of s T k.
Proof using Type.
  intros Hc. unfold value_of. destruct (T !! k) as [x|]; [|done]. simpl. specialize (Hc x eq_refl).
  destruct (mem s !! x) as [it|], (mem s' !! x) as [it'|]; try done. apply (inj Some) in Hc. simpl. f_equal. by apply content_value.
Qed.

Lemma quiet_value s s' T k : quiet s s' → value_of s' T k = value_of s T k.
Proof using Type. intros Hq. apply value_content. intros x _. apply Hq. Qed.

Lemma grows_value s s' g g' T held X W k :
  kv_inv s g T held X W → grows s s' g g' → value_of s' T k = value_of s T k.
Proof using Type.
  intros Hkv Hg. apply value_content. intros x Hx. rewrite (gr_mem _ _ _ _ Hg); [done|].
  eapply rv_table; [apply Hkv|done].
Qed.

(** ** Fields of the allocator *)
Lemma kv_alloc_fields s g T held X W ia a a' :
  kv_inv s g T held X W → allocs s !! ia = Some a → queue_of a' = queue_of a → links_of a' = links_of a →
  kv_inv (s <| allocs := <[ia := a']> (allocs s) |>) g T held X W.
Proof using Type.
  intros Hkv Hal Hq Hl. assert (∀ {A} (f : item_allocator → A) ia', f a' = f a →
    f <$> <[ia := a']> (allocs s) !! ia' = f <$> allocs s !! ia') as Hf.
  { intros A f ia' He. destruct (decide (ia = ia')) as [<-|Hne].
    - rewrite lookup_insert_eq, Hal. simpl. by rewrite He.
    - by rewrite lookup_insert_ne. }
  eapply kv_relink; [done|..].
  - split; try done; [intros ia'; by apply Hf|by left|intros p h ia' _ Hh; by exists h].
  - eapply log_inv_change; [apply Hkv|split; try done; intros ia'; by apply Hf|].
    intros p h h' Hh Hh'. rec_simpl_in Hh'. rewrite Hh in Hh'. injection Hh' as <-. destruct (kv_log _ _ _ _ _ _ Hkv).
    split_and!; [done|by eauto|by eauto].
Qed.

(** An item leaves the queue; the reference is the operation's now. *)
Lemma kv_dequeue s g T held X W ia a i x hd :
  kv_inv s g T held X W → allocs s !! ia = Some a → cleanup_queue a !! i = Some (Some x) → 0 ≤ hd < segcqsize →
  let a' := a <| cleanup_queue ::= <[i := None]> |> <| cq_head := hd |> in
  let s' := s <| allocs := <[ia := a']> (allocs s) |> in
  kv_inv s' g T (x :: held) X W ∧ (∀ ia a, allocs s' !! ia = Some a → Some x ∉ cleanup_queue a).
Proof using Hgood.
  intros Hkv Hal Hi Hhd a' s'. pose proof Hkv as [Hl Hq Hr Ht].
  destruct (Hq ia a Hal) as [[Hlen Hh Htl Honce Hin] Hc].
  assert (∀ j y, cleanup_queue a' !! j = Some (Some y) ↔ cleanup_queue a !! j = Some (Some y) ∧ j ≠ i) as Ha'.
  { intros j y. unfold a'. rec_simpl. destruct (decide (j = i)) as [->|Hne].
    - rewrite list_lookup_insert_eq by (by eapply lookup_lt_Some). naive_solver.
    - rewrite list_lookup_insert_ne by done. naive_solver. }
  assert (∀ y, Some y ∈ cleanup_queue a' ↔ Some y ∈ cleanup_queue a ∧ y ≠ x) as Hmem.
  { intros y. rewrite !list_elem_of_lookup. setoid_rewrite Ha'. split.
    - intros (j&Hj&Hne). split; [by exists j|]. intros ->. by apply Hne, (Honce j i x).
    - intros [[j Hj] Hne]. exists j. split; [done|]. intros ->. congruence. }
  assert (Some x ∈ cleanup_queue a) as Hxq by (apply list_elem_of_lookup; by exists i).
  destruct (Hin x Hxq) as (p&h&Hp&Hph&Hxp&_).
  assert (∀ ia' q, g_role g q = InLog ia' → x ∈ g_log g q → ia' = ia) as Hown.
  { intros ia' q Hrq Hx'. assert (q = p) as -> by (by eapply log_unique). congruence. }
  assert (∀ ia' b, allocs s' !! ia' = Some b → ia' = ia ∧ b = a' ∨ ia' ≠ ia ∧ allocs s !! ia' = Some b) as Hs'.
  { intros ia' b. unfold s'. rec_simpl. destruct (decide (ia = ia')) as [<-|Hne].
    - rewrite lookup_insert_eq. naive_solver.
    - rewrite lookup_insert_ne by done. naive_solver. }
  split; [split|].
  - eapply log_inv_change; [done|split; try done|].
    + intros ia'. unfold s'. rec_simpl. destruct (decide (ia = ia')) as [<-|Hne].
      * by rewrite lookup_insert_eq, Hal.
      * by rewrite lookup_insert_ne.
    + intros q h1 h2 H1 H2. unfold s' in H2. rec_simpl_in H2. rewrite H1 in H2. injection H2 as <-. destruct Hl.
      split_and!; [done|by eauto|by eauto].
  - intros ia' b [[-> ->]|[Hne Hb]]%Hs'; [|by destruct (Hq ia' b Hb) as [[] ?]]. split; [|exact Hc].
    split; [unfold a'; rec_simpl; by rewrite length_insert|done|done| |].
    + intros j j' y [Hj _]%Ha' [Hj' _]%Ha'. by eapply Honce.
    + intros y [Hy _]%Hmem. exact (Hin y Hy).
  - destruct Hr as [Hcn HT Hhl]. split; [|done|].
    + intros ia' b q y it Hq' Hb Hy Hit. apply Hs' in Hb as [[-> ->]|[Hne Hb]].
      * rewrite (Hcn ia a q y it) by done. unfold refs. destruct (decide (y = x)) as [->|Hyx].
        -- rewrite count_occ_cons_eq by done. rewrite (decide_True (P := Some x ∈ cleanup_queue a)) by done.
           rewrite (decide_False (P := Some x ∈ cleanup_queue a')); [lia|]. rewrite Hmem. naive_solver.
        -- rewrite count_occ_cons_neq by done. do 2 f_equal. apply decide_ext. rewrite Hmem. naive_solver.
      * rewrite (Hcn ia' b q y it) by done. unfold refs. rewrite count_occ_cons_neq; [done|]. intros <-. by apply Hne, (Hown ia' q).
    + intros y [->|Hy]%elem_of_cons; [by exists ia, p|by apply Hhl].
  - by destruct Ht.
  - intros ia' b Hb Hx. apply Hs' in Hb as [[-> ->]|[Hne Hb]]; [by apply Hmem in Hx as [_ ?]|].
    destruct (Hq ia' b Hb) as [[_ _ _ _ Hin'] _]. destruct (Hin' x Hx) as (q&?&Hq'&_&Hxq'&_). by apply Hne, (Hown ia' q).
Qed.

(** Nothing but the allocators and the segments changes. *)
Definition same_store (s s' : kvs) : Prop := mem s' = mem s ∧ buckets s' = buckets s.

(** A segment is taken in reserve when there is none. *)
Lemma wp_refill s g T held X W ia a (it : option Z) :
  kv_inv s g T held X W → allocs s !! ia = Some a →
  wp (a ← deref allocs ia;
      when (is_null (ia_reserved a)) (h ← segment_alloc; store allocs ia (λ a, a <| ia_reserved := h |>));;
      mret it)
    (λ o s', o = it ∧ ∃ g', kv_inv s' g' T held X W ∧ same_store s s' ∧
       ∀ ia, queue_of <$> allocs s' !! ia = queue_of <$> allocs s !! ia) s.
Proof using Hgood.
  intros Hkv Hal. wp_step. wp_step; [done|]. wp_step. wp_step; [|wp_step; split; [done|]; by exists g].
  destruct (ia_reserved a) as [r|] eqn:Hres; [done|]. wp_step. eapply wp_mono; [by eapply wp_segment_alloc|].
  intros o s1 (g1&Hkv1&Hql&_&_&Ho). pose proof (ql_allocs _ _ _ _ Hql) as Ha.
  assert (allocs s1 !! ia = Some a) as Hal1 by (by rewrite Ha).
  pose proof (lv_alloc _ _ _ (kv_log _ _ _ _ _ _ Hkv1) ia a Hal1) as Hok.
  assert (∀ q, g_role g1 q ≠ Spare ia) as Hno by (intros q Hq; apply (ao_spare _ _ _ _ Hok) in Hq; congruence).
  eapply wp_store; [done|]. wp_step. split; [done|]. set (s2 := s1 <| allocs := _ |>).
  assert (∃ g2, kv_inv s2 g2 T held X W ∧ grows s1 s2 g1 g2) as (g2&Hkv2&Hg2).
  { destruct o as [p|].
    - eexists. eapply (kv_respare s1 g1 T held X W ia a p (Spare ia) (Some p)); [done|done|left; by destruct Ho|by right|].
      intros q. destruct (decide (q = p)) as [->|Hne]; [by rewrite set_role_eq|].
      rewrite set_role_ne by done. split; [congruence|]. intros Hq. by destruct (Hno q).
    - exists g1. assert (s2 = s1) as ->; [|split; [done|apply grows_refl]].
      unfold s2. assert (a <| ia_reserved := None |> = a) as -> by (destruct a; simpl in Hres; by rewrite Hres).
      rewrite insert_id by done. by destruct s1. }
  exists g2. split_and!; [done|split; [apply Hql|apply Hql]|]. intros ia'. by rewrite (gr_queue _ _ _ _ Hg2), Ha.
Qed.

(** How many items are queued. *)
Definition queued (s : kvs) (ia : positive) : nat :=
  default 0%nat ((λ a, length (omap id (cleanup_queue a))) <$> allocs s !! ia).

Lemma queued_of s s' ia :
  queue_of <$> allocs s' !! ia = queue_of <$> allocs s !! ia → queued s' ia = queued s ia.
Proof using Type.
  unfold queued. destruct (allocs s !! ia), (allocs s' !! ia); try done. intros [= H1 _ _ _ _]. simpl. by rewrite H1.
Qed.

Lemma omap_dequeue (l : list (option Z)) i x :
  l !! i = Some (Some x) → (length (omap id (<[i := None]> l)) < length (omap id l))%nat.
Proof using Type.
  revert i. induction l as [|o l IH]; intros [|i] Hi; [done..| |]; simpl in Hi.
  - injection Hi as ->. simpl. lia.
  - apply IH in Hi. unfold omap in *. destruct o; simpl; lia.
Qed.

Definition dequeued (s s' : kvs) (ia : positive) (o : option Z) : Prop :=
  match o with
  | Some x => (queued s' ia < queued s ia)%nat ∧ ∀ ia a, allocs s' !! ia = Some a → Some x ∉ cleanup_queue a
  | None => queued s' ia = queued s ia
  end.

Lemma queue_some s s' ia :
  queue_of <$> allocs s' !! ia = queue_of <$> allocs s !! ia → is_Some (allocs s !! ia) → is_Some (allocs s' !! ia).
Proof using Type. by destruct (allocs s !! ia), (allocs s' !! ia). Qed.

Definition cleanup_step (s : kvs) (T : gmap (list Z) Z) (held : list Z) (X : option Z) (W : option positive)
    (ia : positive) (o : option Z) (s' : kvs) : Prop :=
  ∃ g', kv_inv s' g' T (option_list o ++ held) X W ∧ same_store s s' ∧
    (∀ ia, is_Some (allocs s !! ia) → is_Some (allocs s' !! ia)) ∧ dequeued s s' ia o.

Lemma wp_take_queued s g T held X W ia a :
  kv_inv s g T held X W → allocs s !! ia = Some a →
  let i := cq_head a in
  wp (it ← nonnull (cleanup_queue a !! Z.to_nat i);
      when (negb (is_null it))
        (store allocs ia (λ a, a <| cleanup_queue ::= <[Z.to_nat i := None]> |>);;
         store allocs ia (λ a, a <| cq_head := u64 (i + 1) mod segcqsize |>));;
      a ← deref allocs ia;
      when (is_null (ia_reserved a)) (h ← segment_alloc; store allocs ia (λ a, a <| ia_reserved := h |>));;
      mret it) (cleanup_step s T held X W ia) s.
Proof using Hgood.
  intros Hkv Hal i. destruct (kv_queue _ _ _ _ _ _ Hkv ia a Hal) as [[Hlen Hhd _ _ _] _].
  destruct (lookup_lt_is_Some_2 (cleanup_queue a) (Z.to_nat i)) as [o Hi]; [unfold i; lia|].
  wp_step. wp_step; [done|]. wp_step. unfold when at 1. destruct o as [x|]; simpl.
  - wp_step. eapply wp_store; [done|]. eapply wp_store; [rec_simpl; apply lookup_insert_eq|]. rec_simpl. rewrite insert_insert_eq.
    destruct (kv_dequeue s g T held X W ia a (Z.to_nat i) x (u64 (i + 1) mod segcqsize) Hkv Hal Hi) as [Hkv2 Hno].
    { apply Z.mod_pos_bound, Hgood. }
    match goal with |- wp _ _ ?s2' => set (s2 := s2') end.
    assert (allocs s2 = <[ia := a <| cleanup_queue ::= <[Z.to_nat i := None]> |> <| cq_head := u64 (i + 1) mod segcqsize |>]> (allocs s)) as Ha2 by done.
    eapply wp_mono; [eapply (wp_refill s2 g T (x :: held) X W); [exact Hkv2|apply lookup_insert_eq]|].
    intros o s3 (->&g3&Hkv3&Hss3&Hq3). exists g3. split_and!; [done|done| |split].
    + intros ia' Hia'. apply (queue_some s2); [done|]. rewrite Ha2. apply lookup_insert_is_Some'. by right.
    + rewrite (queued_of s2 s3) by done. unfold queued. rewrite Ha2, lookup_insert_eq, Hal. simpl. by apply (omap_dequeue _ _ x).
    + intros ia' a' Ha' Hx. pose proof (Hq3 ia') as He. rewrite Ha' in He.
      destruct (allocs s2 !! ia') as [b|] eqn:Hb; [|done]. injection He as He _ _ _ _. rewrite He in Hx. by eapply (Hno ia' b).
  - wp_step. eapply wp_mono; [by eapply wp_refill|]. intros o s3 (->&g3&Hkv3&Hss3&Hq3). exists g3. split_and!; [done|done| |].
    + intros ia'. by apply queue_some.
    + by apply queued_of.
Qed.

Lemma wp_ialloc_cleanup_item s g T held X W ia a idle :
  kv_inv s g T held X W → allocs s !! ia = Some a →
  wp (ialloc_cleanup_item ia idle) (cleanup_step s T held X W ia) s.
Proof using Hgood.
  intros Hkv Hal. unfold ialloc_cleanup_item. wp_step. wp_step; [done|].
  destruct (negb idle && (32 <=? cleanup_count a)); [wp_step; exists g; by split_and!|].
  wp_step. wp_step; [|by eapply wp_take_queued]. eapply wp_store; [done|].
  set (a1 := a <| cleanup_count ::= _ |>). set (s1 := s <| allocs := _ |>).
  assert (kv_inv s1 g T held X W) as Hkv1 by (by eapply kv_alloc_fields).
  eapply wp_mono; [exact (wp_take_queued s1 g T held X W ia a1 Hkv1 (lookup_insert_eq _ _ _))|].
  intros o s' (g'&Hkv'&Hss&Hia&Hd). exists g'. split_and!; [done|done| |].
  - intros ia' Hia'. apply Hia. unfold s1. rec_simpl. apply lookup_insert_is_Some'. by right.
  - assert (queued s1 ia = queued s ia) as Hqd.
    { apply queued_of. unfold s1. rec_simpl. by rewrite lookup_insert_eq, Hal. }
    unfold dequeued in *. by rewrite <- Hqd.
Qed.

(** ** A copy of an item *)

(** The new item is filled in. *)
Lemma kv_filled s g T held W x it it' :
  kv_inv s g T held (Some x) W → mem s !! x = Some it → (∀ k, T !! k ≠ Some x) → block_size it' = block_size it →
  it_refcount it' = it_refcount it → item_ok it' →
  kv_inv (s <| mem := <[x := it']> (mem s) |>) g T held None W.
Proof using Type.
  intros [Hl Hq Hr Ht] Hx HT Hb Hc Hok. split.
  - eapply log_inv_change; [eapply (log_inv_insert s g (Some x) x it it'); [done..|by rewrite Hc|done]|by split|].
    intros p h h' Hh Hh'. rec_simpl_in Hh. rec_simpl_in Hh'. rewrite Hh in Hh'. injection Hh' as <-.
    pose proof (log_inv_insert s g (Some x) x it it' Hl Hx Hb ltac:(by rewrite Hc) ltac:(done)) as Hl'.
    split_and!; [done| |by intros; eapply (lv_new _ _ _ Hl')].
    intros ia Hp. destruct (lv_log _ _ _ Hl' ia p h Hp Hh) as [H1 H2 H3 H4]. split; try done.
    intros y iy Hy Hiy _. rec_simpl_in Hiy. rec_simpl_in H4. destruct (decide (x = y)) as [<-|Hne].
    + rewrite lookup_insert_eq in Hiy. by injection Hiy as <-.
    + apply (H4 y iy); [done..|]. by intros [= ->].
  - by eapply queue_inv_insert.
  - destruct Hr as [Hcn HTl Hh]. split; [|done..]. intros ia a p y iy Hp Ha Hy. rec_simpl.
    destruct (decide (x = y)) as [<-|Hne].
    + rewrite lookup_insert_eq. intros [= <-]. rewrite Hc, (Hcn ia a p x it) by done. unfold refs.
      rewrite !(decide_False (P := T !! _ = Some x)) by done. done.
    + rewrite lookup_insert_ne by done. exact (Hcn ia a p y iy Hp Ha Hy).
  - apply table_inv_mem; [done|]. intros k y iy Hk Hy. exists iy. rewrite lookup_insert_ne; [done|]. intros <-. by destruct (HT k).
Qed.

Lemma table_member s g T held X W k x it :
  kv_inv s g T held X W → T !! k = Some x → mem s !! x = Some it →
  item_key it = k ∧ it_hv it = hash_of k ∧ item_ok it.
Proof using Type.
  intros Hkv HT Hit. pose proof (kv_table _ _ _ _ _ _ Hkv) as Ht. pose proof (table_injective s T k x it Ht HT Hit) as Hk.
  destruct Ht as [Hn Hb]. destruct (Hb (hash_of k mod nbuckets s)) as (l&Hbk); [by apply Z.mod_pos_bound|].
  destruct (bo_all _ _ _ _ _ _ Hbk k x HT eq_refl) as [Hx _].
  destruct (bo_member _ _ _ _ _ _ Hbk x Hx) as (it'&Hit'&Hv&_&_&Hok). rewrite Hit in Hit'. injection Hit' as <-.
  by rewrite <- Hk.
Qed.

(** The only failure: there is no segment left to copy an item to. *)
Definition cleanup_error (e : err) : Prop := e = AssertFail "main.c: ialloc_alloc failed during cleanup".

(** An operation that leaves the store ready for the next one, with the values
    [V]. *)
Definition ready (s : kvs) (W : option positive) (V : list Z → option (list Z)) : Prop :=
  ∃ g T, kv_inv s g T [] None W ∧ unlocked s ∧ ∀ k, value_of s T k = V k.

Lemma overwrite_all {A} (bs l : list A) : length bs = length l → overwrite 0 bs l = bs.
Proof using Type. intros Hl. unfold overwrite. simpl. rewrite Hl, drop_all. apply app_nil_r. Qed.

Lemma unlocked_buckets s s' : buckets s' = buckets s → unlocked s → unlocked s'.
Proof using Type. intros Hb Hu b. unfold bucket_at. rewrite Hb. apply Hu. Qed.

(** Dropping a reference changes no value. *)
Lemma wp_unref s g T held X W x :
  kv_inv s g T (x :: held) X W → X ≠ Some x → unlocked s → Z.of_nat (length held) < 2 ^ 15 →
  wp (item_unref x) (λ _ s', kv_inv s' g T held X W ∧ quiet s s') s.
Proof using Hgood.
  intros Hkv HX Hu Hlen. eapply wp_mono; [by eapply wp_item_unref|]. intros [] s' (it&H'&Hit&->&Hkv').
  split; [done|]. split; [done| |done]. intros y. rec_simpl. by apply content_refcount.
Qed.

(** The fields and the bytes of [it] are stored in the new item [nit]. *)
Lemma wp_copy_bytes s x it nit n (Q : unit → kvs → Prop) (k : M kvs unit) :
  x ≠ nit → mem s !! x = Some it → mem s !! nit = Some n → item_ok it → block_size n = block_size it →
  (∀ n', content n' = content it → it_refcount n' = it_refcount n →
     wp k Q (s <| mem := <[nit := n']> (mem s) |>)) →
  wp (store mem nit (λ n, n <| it_hv := it_hv it |>);;
      store mem nit (λ n, n <| it_vallen := it_vallen it |>);;
      store mem nit (λ n, n <| it_keylen := it_keylen it |>);;
      bs ← read_data x 0 (it_keylen it + it_vallen it);
      write_data nit 0 bs;; k) Q s.
Proof using Type.
  intros Hne Hx Hn (?&?&Hb&_) Hbn Hk. unfold block_size, sizeof_item in *.
  wp_step. eapply wp_store; [done|]. wp_step. eapply wp_store; [rec_simpl; apply lookup_insert_eq|].
  wp_step. eapply wp_store; [rec_simpl; apply lookup_insert_eq|]. rec_simpl. rewrite !insert_insert_eq.
  wp_step. unfold read_data. wp_step. wp_step; [rec_simpl; rewrite lookup_insert_ne by done; exact Hx|].
  destruct (Z.leb_spec (0 + (it_keylen it + it_vallen it)) (Z.of_nat (length (it_data it)))) as [_|Hlt]; [|lia].
  wp_step. rewrite (take_ge (drop _ _)) by (rewrite length_drop; lia). change (drop (Z.to_nat 0) (it_data it)) with (it_data it).
  wp_step. unfold write_data. wp_step. wp_step; [rec_simpl; apply lookup_insert_eq|]. rec_simpl.
  destruct (Z.leb_spec (0 + Z.of_nat (length (it_data it))) (Z.of_nat (length (it_data n)))) as [_|Hlt]; [|lia].
  eapply wp_store; [rec_simpl; apply lookup_insert_eq|]. rec_simpl. rewrite insert_insert_eq. apply Hk; [|done].
  unfold content. rec_simpl. rewrite overwrite_all by lia. done.
Qed.

(** The store after a step of the cleaning: the same values, the same queues. *)
Definition cleaned_to (s : kvs) (T : gmap (list Z) Z) (held : list Z) (W : option positive) (s' : kvs) : Prop :=
  ∃ g' T', kv_inv s' g' T' held None W ∧ unlocked s' ∧ (∀ k, value_of s' T' k = value_of s T k) ∧
    ∀ ia, queue_of <$> allocs s' !! ia = queue_of <$> allocs s !! ia.

Lemma wpx_copy_item s g T W ia a x it :
  kv_inv s g T [x] None W → unlocked s → allocs s !! ia = Some a → mem s !! x = Some it → T !! item_key it = Some x →
  wpx cleanup_error
    (nit ← ialloc_alloc ia (u64 (sizeof_item + it_keylen it + it_vallen it)) true;
     match nit with
     | None => fail (AssertFail "main.c: ialloc_alloc failed during cleanup")
     | Some nit =>
         store mem nit (λ n, n <| it_hv := it_hv it |>);;
         store mem nit (λ n, n <| it_vallen := it_vallen it |>);;
         store mem nit (λ n, n <| it_keylen := it_keylen it |>);;
         bs ← read_data x 0 (it_keylen it + it_vallen it);
         write_data nit 0 bs;;
         hasht_put nit (Some x);;
         item_unref nit
     end) (λ _ s', cleaned_to s T [x] W s') s.
Proof using Hgood.
  intros Hkv Hu Hal Hx HT. destruct (table_member s g T [x] None W (item_key it) x it Hkv HT Hx) as (_&Hhv&Hok).
  pose proof (rv_table _ _ _ _ (kv_refs _ _ _ _ _ _ Hkv) _ _ HT) as Hin.
  assert (u64 (sizeof_item + it_keylen it + it_vallen it) = block_size it) as ->.
  { destruct Hok as (?&?&?&?). rewrite u64_small; unfold sizeof_item in *; lia. }
  apply wpx_bind, wpx_wp. eapply wp_mono; [eapply (wp_ialloc_alloc Hgood s g T [x] W ia a); [done..|]|].
  { pose proof (block_pos it). destruct Hok as (?&?&?&?). done. }
  intros [nit|] s1 (g1&Hg1&Hall); [|by apply wpx_fail]. destruct Hall as (Hkv1&Hnew&n0&Hn0&Hb0&Hc0).
  assert (∀ k, T !! k ≠ Some nit) as HTn.
  { intros k Hk. apply Hnew. eapply rv_table; [apply Hkv|done]. }
  apply wpx_wp, (wp_copy_bytes s1 x it nit n0); [congruence|by rewrite (gr_mem _ _ _ _ Hg1)|done..|].
  intros n Hc Hcn. set (s2 := s1 <| mem := _ |>).
  destruct (content_key it n Hc) as (Hkey&Hhv'&Hok'). specialize (Hok' Hok).
  assert (block_size n = block_size it) as Hbn by (injection Hc as _ _ _ Hd; unfold block_size; by rewrite Hd).
  assert (kv_inv s2 g1 T [nit; x] None W) as Hkv2 by (eapply kv_filled; [exact Hkv1|done|done|congruence|done|done]).
  assert (unlocked s2) as Hu2 by (by apply (unlocked_buckets s); [apply Hg1|]).
  assert (∀ k, value_of s2 T k = value_of s T k) as Hv2.
  { intros k. rewrite <- (grows_value s s1 g g1 T [x] None W k Hkv Hg1). apply value_content. intros y Hy.
    unfold s2. rec_simpl. rewrite lookup_insert_ne; [done|]. intros <-. by destruct (HTn k). }
  wp_step. eapply wp_mono; [eapply (wp_hasht_put Hgood s2 g1 T [nit; x] W nit n (Some x)); try done|].
  { apply list_elem_of_here. }
  { unfold s2. rec_simpl. apply lookup_insert_eq. }
  { by rewrite Hhv', Hkey, Hhv. }
  intros [] s3 (T'&Hkv3&Hq3&HT'). eapply wp_mono; [eapply wp_unref; [exact Hkv3|done|apply Hq3|simpl; lia]|].
  intros [] s4 [Hkv4 Hq4]. exists g1, T'. split_and!; [done|apply Hq4| |].
  - intros k. rewrite (quiet_value s3 s4), (quiet_value s2 s3), <- Hv2 by done. destruct HT' as [[-> _]|[-> _]]; [|done].
    rewrite Hkey. unfold value_of. destruct (decide (item_key it = k)) as [<-|Hne].
    + rewrite lookup_insert_eq, HT. simpl. unfold s2. rec_simpl. rewrite lookup_insert_eq, lookup_insert_ne by congruence.
      rewrite (gr_mem _ _ _ _ Hg1), Hx by done. simpl. by rewrite (content_value it n).
    + by rewrite lookup_insert_ne.
  - intros ia'. by rewrite (qt_allocs _ _ Hq4), (qt_allocs _ _ Hq3), (gr_queue _ _ _ _ Hg1).
Qed.

Lemma wpx_clean_item s g T W ia a x :
  kv_inv s g T [x] None W → unlocked s → allocs s !! ia = Some a →
  (∀ ia a, allocs s !! ia = Some a → Some x ∉ cleanup_queue a) →
  wpx cleanup_error (clean_item ia x) (λ _ s', cleaned_to s T [] W s') s.
Proof using Hgood.
  intros Hkv Hu Hal Hno. destruct (kv_at s g T [x] None W x Hkv) as (ib&p&h&b&it&_&_&_&Hb&Hx&Hrc&Hok).
  { eapply rv_held; [apply Hkv|apply list_elem_of_here]. }
  assert (it_refcount it ≠ 1 → T !! item_key it = Some x) as HT.
  { unfold refs in Hrc. rewrite (decide_False (P := Some x ∈ cleanup_queue b)) in Hrc by (by eapply Hno).
    rewrite count_occ_cons_eq in Hrc by done. simpl in Hrc. case_decide as Hd; [done|lia]. }
  assert (∀ s1, cleaned_to s T [x] W s1 → wpx cleanup_error (item_unref x) (λ _ s', cleaned_to s T [] W s') s1) as Hrest.
  { intros s1 (g1&T1&Hkv1&Hu1&Hv1&Hq1). apply wpx_wp. eapply wp_mono; [eapply wp_unref; [done|done|done|simpl; lia]|].
    intros [] s2 [Hkv2 Hq2]. exists g1, T1. split_and!; [done|apply Hq2| |].
    - intros k. by rewrite (quiet_value s1 s2).
    - intros ia'. by rewrite (qt_allocs _ _ Hq2). }
  unfold clean_item. apply wpx_bind, wpx_wp. wp_step; [done|]. apply wpx_bind, wpx_when.
  - intros Hne. eapply wpx_mono; [eapply wpx_copy_item; [done..|]|intros [] s1; apply Hrest].
    apply HT. intros Hc. by rewrite Hc in Hne.
  - intros _. apply Hrest. by exists g, T.
Qed.

Lemma ready_ext s W V V' : ready s W V → (∀ k, V k = V' k) → ready s W V'.
Proof using Type. intros (g&T&?&?&Hv) He. exists g, T. split_and!; [done..|]. intros k. by rewrite Hv. Qed.

Lemma queued_bound s g T held X W ia a :
  kv_inv s g T held X W → allocs s !! ia = Some a → Z.of_nat (queued s ia) ≤ segcqsize.
Proof using Type.
  intros Hkv Ha. destruct (kv_queue _ _ _ _ _ _ Hkv ia a Ha) as [[<- _ _ _ _] _]. unfold queued. rewrite Ha. simpl.
  apply inj_le. induction (cleanup_queue a) as [|[y|] l IH]; [done|..]; unfold omap in *; simpl; lia.
Qed.

(** Cleaning ends, and every key has the value that it had. *)
Lemma wpx_clean_log s W V ia idle :
  ready s W V → is_Some (allocs s !! ia) →
  wpx cleanup_error (clean_log ia idle) (λ _ s', ready s' W V ∧
    ∀ ia, is_Some (allocs s !! ia) → is_Some (allocs s' !! ia)) s.
Proof using Hgood.
  intros Hr [a Ha]. unfold clean_log. apply wpx_bind, wpx_wp.
  assert (∀ s1, ready s1 W V → is_Some (allocs s1 !! ia) → (∀ ia, is_Some (allocs s !! ia) → is_Some (allocs s1 !! ia)) →
    wpx cleanup_error (loop (S (Z.to_nat segcqsize)) (clean_body ia idle) 0)
      (λ _ s', ready s' W V ∧ ∀ ia, is_Some (allocs s !! ia) → is_Some (allocs s' !! ia)) s1) as Hloop.
  { intros s1 Hr1 [a1 Ha1] Hia. apply (wpx_loop _ (λ _ s', ready s' W V ∧ ∀ ia, is_Some (allocs s !! ia) → is_Some (allocs s' !! ia))
      (λ _ s', queued s' ia)).
    - done.
    - destruct Hr1 as (g1&T1&Hkv1&_). pose proof (queued_bound s1 g1 T1 [] None W ia a1 Hkv1 Ha1). lia.
    - intros n s2 [(g2&T2&Hkv2&Hu2&Hv2) Hia2]. destruct (Hia2 ia) as [a2 Ha2]; [by rewrite Ha|].
      unfold clean_body. apply wpx_bind, wpx_wp. eapply wp_mono; [by eapply wp_ialloc_cleanup_item|].
      intros o s3 (g3&Hkv3&[Hm3 Hb3]&Hia3&Hd). assert (unlocked s3) as Hu3 by (by apply (unlocked_buckets s2)).
      assert (∀ k, value_of s3 T2 k = V k) as Hv3 by (intros k; rewrite <- Hv2; unfold value_of; by rewrite Hm3).
      destruct o as [x|]; simpl in Hkv3, Hd.
      + destruct Hd as [Hlt Hno]. destruct (Hia3 ia) as [a3 Ha3]; [by rewrite Ha2|].
        apply wpx_bind. eapply wpx_mono; [by eapply wpx_clean_item|].
        intros [] s4 (g4&T4&Hkv4&Hu4&Hv4&Hq4). apply wpx_ret. split_and!.
        * exists g4, T4. split_and!; [done..|]. intros k. by rewrite Hv4.
        * intros ia' Hia'. by eapply queue_some, Hia3, Hia2.
        * by rewrite (queued_of s3 s4).
      + apply wpx_ret. split; [|auto]. by exists g3, T2. }
  wp_step.
  - unfold ialloc_cleanup_nextrequest. eapply wp_store; [done|]. apply Hloop; rec_simpl.
    + destruct Hr as (g&T&Hkv&Hu&Hv). exists g, T. split_and!; [by eapply kv_alloc_fields|done|done].
    + by rewrite lookup_insert_eq.
    + intros ia' Hia'. apply lookup_insert_is_Some'. by right.
  - by apply Hloop; [|rewrite Ha|].
Qed.
End clean.
