(* ===== verification/KvsRequests.v ===== *)
(** * Requests of the key-value store

    Setting and getting (set_request and get_request of bench/main.c), and the
    cleaning of the log after each of them, against a map from keys to
    values. *)

From S2P Require Import Prelude Links F64 Jenkins Kvs KvsInv KvsLog KvsTable KvsAlloc KvsItems KvsClean.

Section requests.
Context {cfg : settings} {plt : platform} (Hgood : good_store).
Implicit Types (s : kvs) (g : ghost) (x : Z).

(** The keys of the workload: bytes, and no longer than an item has room
    for. *)
Definition key_ok (k : key) : Prop :=
  (∀ i, 0 ≤ k_mem k i < 256) ∧ 0 ≤ k_keylen k ∧ k_keylen k + valuesize < 2 ^ 16.

Definition bytes_of (k : key) : list Z := key_bytes k (k_keylen k).

Lemma key_length k : key_ok k → Z.of_nat (length (bytes_of k)) = k_keylen k.
Proof using Type. intros (_&?&_). unfold bytes_of, key_bytes. rewrite length_fmap, length_seqZ. lia. Qed.

Lemma key_u16 k : good_store → key_ok k → u16 (k_keylen k) = k_keylen k.
Proof using Type. intros Hg (_&?&?). pose proof (gs_value Hg). unfold u16. apply Z.mod_small. lia. Qed.

Lemma key_hash k : key_ok k → jenkins_hash (k_mem k) (k_key k) (k_keylen k) = hash_of (bytes_of k).
Proof using Type.
  intros Hk. pose proof (key_length k Hk) as Hlen. destruct Hk as (Hb&Hn&_). unfold hash_of. rewrite Hlen.
  assert (∀ i, 0 ≤ i < k_keylen k → nth (Z.to_nat i) (bytes_of k) 0 = k_mem k i) as Hnth.
  { intros i Hi. apply nth_lookup_Some. unfold bytes_of, key_bytes. rewrite list_lookup_fmap.
    rewrite lookup_seqZ_lt by lia. simpl. do 2 f_equal. lia. }
  apply jenkins_local; [done| |done|].
  - intros i. destruct (decide (0 ≤ i < k_keylen k)) as [Hi|Hi]; [by rewrite Hnth|].
    destruct (nth_in_or_default (Z.to_nat i) (bytes_of k) 0) as [Hin| ->]; [|lia].
    apply list_elem_of_In, list_elem_of_fmap in Hin as (j&->&_). apply Hb.
  - intros i Hi. by rewrite Hnth.
Qed.

(** The pair is written into the item, a field at a time. *)
Definition filled (it : item) (bs v : list Z) : item :=
  it <| it_hv := hash_of bs |> <| it_vallen := Z.of_nat (length v) |> <| it_keylen := Z.of_nat (length bs) |>
     <| it_data := bs ++ v |>.

Lemma filled_ok it bs v :
  Z.of_nat (length bs) + Z.of_nat (length v) < 2 ^ 16 →
  item_ok (filled it bs v) ∧ item_key (filled it bs v) = bs ∧ item_value (filled it bs v) = v ∧
  block_size (filled it bs v) = sizeof_item + Z.of_nat (length bs) + Z.of_nat (length v).
Proof using Type.
  intros Hlt. assert (block_size (filled it bs v) = sizeof_item + Z.of_nat (length bs) + Z.of_nat (length v)) as Hb.
  { unfold block_size, filled. rec_simpl. rewrite length_app. lia. }
  split_and!; [|..|done].
  - unfold item_ok. rewrite Hb. unfold filled. rec_simpl. unfold sizeof_item. lia.
  - unfold item_key, filled. rec_simpl. rewrite Nat2Z.id. by rewrite take_app_length.
  - unfold item_value, filled. rec_simpl. rewrite !Nat2Z.id, drop_app_length. by apply take_ge.
Qed.

Lemma wp_write_pair {A} s x it bs v (m : M kvs A) (Q : A → kvs → Prop) :
  mem s !! x = Some it → block_size it = sizeof_item + Z.of_nat (length bs) + Z.of_nat (length v) →
  wp m Q (s <| mem := <[x := filled it bs v]> (mem s) |>) →
  wp (store mem x (λ i, i <| it_hv := hash_of bs |>);;
      store mem x (λ i, i <| it_vallen := Z.of_nat (length v) |>);;
      store mem x (λ i, i <| it_keylen := Z.of_nat (length bs) |>);;
      write_data x 0 bs;;
      i ← deref mem x;
      write_data x (it_keylen i) v;; m) Q s.
Proof using Type.
  intros Hx Hb Hm. unfold block_size in Hb.
  wp_step. eapply wp_store; [done|]. wp_step. eapply wp_store; [rec_simpl; apply lookup_insert_eq|].
  wp_step. eapply wp_store; [rec_simpl; apply lookup_insert_eq|]. rec_simpl. rewrite !insert_insert_eq.
  wp_step. unfold write_data. wp_step. wp_step; [rec_simpl; apply lookup_insert_eq|]. rec_simpl.
  destruct (Z.leb_spec (0 + Z.of_nat (length bs)) (Z.of_nat (length (it_data it)))) as [_|Hlt]; [|lia].
  eapply wp_store; [rec_simpl; apply lookup_insert_eq|]. rec_simpl. rewrite insert_insert_eq.
  wp_step. wp_step; [rec_simpl; apply lookup_insert_eq|]. rec_simpl. wp_step. wp_step.
  wp_step; [rec_simpl; apply lookup_insert_eq|]. rec_simpl.
  assert (overwrite (Z.to_nat 0) bs (it_data it) = bs ++ drop (length bs) (it_data it)) as Ho by done. rewrite Ho.
  rewrite length_app, length_drop.
  destruct (Z.leb_spec (Z.of_nat (length bs) + Z.of_nat (length v))
    (Z.of_nat (length bs + (length (it_data it) - length bs)))) as [_|Hlt]; [|lia].
  eapply wp_store; [rec_simpl; apply lookup_insert_eq|]. rec_simpl. rewrite insert_insert_eq, Nat2Z.id.
  assert (overwrite (length bs) v (bs ++ drop (length bs) (it_data it)) = bs ++ v) as Ho'.
  { unfold overwrite. rewrite take_app_length. f_equal. rewrite drop_ge; [by rewrite app_nil_r|].
    rewrite length_app, length_drop. lia. }
  unfold filled in Hm. rewrite <- Ho' in Hm. exact Hm.
Qed.

Lemma value_some s g T held X W k x :
  kv_inv s g T held X W → T !! k = Some x →
  ∃ it, mem s !! x = Some it ∧ value_of s T k = Some (item_value it) ∧ item_key it = k ∧ item_ok it ∧ it_hv it = hash_of k.
Proof using Type.
  intros Hkv HT. destruct (tv_found s T k x (kv_table _ _ _ _ _ _ Hkv) HT) as (it&Hit&_). exists it.
  destruct (table_member s g T held X W k x it Hkv HT Hit) as (?&?&?). split_and!; try done.
  unfold value_of. by rewrite HT; simpl; rewrite Hit.
Qed.

(** What a reply holds. *)
Definition reply (co : connection) (o : option (list Z)) : connection :=
  match o with
  | None => co
  | Some v => Connection (tx_len co) (tx_off co) (overwrite (Z.to_nat sizeof_get) v (tx_buf co))
  end.

Lemma wpx_get_request s W V co k ia :
  ready s W V → is_Some (allocs s !! ia) → key_ok k →
  wpx cleanup_error (get_request co k ia) (λ co' s', co' = reply co (V (bytes_of k)) ∧ ready s' W V ∧
    ∀ ia, is_Some (allocs s !! ia) → is_Some (allocs s' !! ia)) s.
Proof using Hgood.
  intros (g&T&Hkv&Hu&Hv) Hia Hk. pose proof (gs_value Hgood). pose proof Hk as (_&?&?).
  unfold get_request. apply wpx_bind, wpx_wp. wp_step; [apply Z.leb_le; unfold sizeof_get, BUFSIZE; lia|].
  rewrite key_u16, key_hash by done. fold (bytes_of k). set (bs := bytes_of k). rewrite <- Hv.
  apply wpx_bind, wpx_wp. eapply wp_mono; [eapply wp_hasht_get; [done..|simpl; lia]|].
  intros o s1 (->&Hq1&Hkv1). destruct (T !! bs) as [x|] eqn:HT.
  - simpl in Hkv1. destruct (value_some s1 g T [x] None W bs x Hkv1 HT) as (it&Hit&Hval&Hkey&(Hvl&Hkl&Hb&Hbs)&_).
    unfold block_size in *. apply wpx_bind, wpx_wp. wp_step; [done|]. apply wpx_bind, wpx_wp. unfold read_data. wp_step.
    wp_step; [done|]. unfold sizeof_item in *.
    destruct (Z.leb_spec (it_keylen it + it_vallen it) (Z.of_nat (length (it_data it)))) as [_|Hlt]; [|lia].
    wp_step. destruct (Z.leb_spec (sizeof_get + it_vallen it) BUFSIZE) as [_|Hlt]; [|unfold sizeof_get, BUFSIZE in Hlt; lia].
    apply wpx_bind, wpx_wp. eapply wp_mono; [eapply wp_unref; [done|done|done|apply Hq1|simpl; lia]|].
    intros [] s2 [Hkv2 Hq2].
    assert (∀ k, value_of s2 T k = V k) as Hv2 by (intros k'; by rewrite (quiet_value s1 s2), (quiet_value s s1)).
    assert (allocs s2 = allocs s) as Ha by (by rewrite (qt_allocs _ _ Hq2), (qt_allocs _ _ Hq1)).
    apply wpx_bind. eapply wpx_mono; [eapply (wpx_clean_log Hgood s2 W V ia true)|].
    + exists g, T. split_and!; [done|apply Hq2|done].
    + by rewrite Ha.
    + intros n s3 [Hr3 Ha3]. apply wpx_ret. rewrite <- (quiet_value s s1 T bs Hq1), Hval. split_and!; [done..|].
      by rewrite <- Ha.
  - apply wpx_ret. unfold value_of. rewrite HT. split_and!; [done| |].
    + exists g, T. split_and!; [done|apply Hq1|]. intros k'. by rewrite (quiet_value s s1).
    + by rewrite (qt_allocs _ _ Hq1).
Qed.

(** ** Setting *)

(** The item of a pair in the table is written over. *)
Lemma kv_overwrite s g T held W x it bs v :
  kv_inv s g T held None W → T !! bs = Some x → mem s !! x = Some it → item_ok (filled it bs v) →
  block_size (filled it bs v) = block_size it → item_key (filled it bs v) = bs →
  let s' := s <| mem := <[x := filled it bs v]> (mem s) |> in
  kv_inv s' g T held None W ∧ ∀ k, k ≠ bs → value_of s' T k = value_of s T k.
Proof using Type.
  intros Hkv HT Hx Hok Hb Hkey s'. destruct (table_member s g T held None W bs x it Hkv HT Hx) as (Hk&Hhv&_).
  split.
  - pose proof Hkv as [Hl Hq Hr Ht]. split.
    + eapply log_inv_insert; try done.
    + by eapply queue_inv_insert.
    + eapply (refs_inv_insert s g T held held x it); try done; [by rewrite Hkey, Hk|by rewrite !Z.sub_diag|apply Hr].
    + apply table_inv_mem; [done|]. intros k y iy _ Hy. destruct (decide (x = y)) as [<-|Hne].
      * exists (filled it bs v). rewrite lookup_insert_eq. rewrite Hx in Hy. injection Hy as <-.
        rewrite Hkey, Hk. by split_and!.
      * exists iy. by rewrite lookup_insert_ne.
  - intros k Hne. apply value_content. intros y Hy. unfold s'. rec_simpl. rewrite lookup_insert_ne; [done|].
    intros <-. apply Hne. destruct (table_member s g T held None W k x it Hkv Hy Hx) as (<-&_). done.
Qed.

(** The failures of a request: the log is full, when an item is needed for the
    pair, or for the copy of an item that is to be moved. *)
Definition set_error (e : err) : Prop := e = AssertFail "main.c: assert(it)" ∨ cleanup_error e.

(** The pair is in the store, and the operation has one more reference to its
    item. *)
Definition pair_set (s : kvs) (T : gmap (list Z) Z) (W : option positive) (bs v : list Z) (x : Z) (s' : kvs) : Prop :=
  ∃ g' T', kv_inv s' g' T' [x] None W ∧ unlocked s' ∧ value_of s' T' bs = Some v ∧
    (∀ k, k ≠ bs → value_of s' T' k = value_of s T k) ∧ ∀ ia, is_Some (allocs s !! ia) → is_Some (allocs s' !! ia).

Lemma wp_set_existing s g T W x bs v :
  kv_inv s g T [x] None W → unlocked s → T !! bs = Some x → Z.of_nat (length bs) + Z.of_nat (length v) < 2 ^ 16 →
  (∀ v', value_of s T bs = Some v' → length v' = length v) →
  wp (store mem x (λ i, i <| it_hv := hash_of bs |>);;
      store mem x (λ i, i <| it_vallen := Z.of_nat (length v) |>);;
      store mem x (λ i, i <| it_keylen := Z.of_nat (length bs) |>);;
      write_data x 0 bs;;
      i ← deref mem x;
      write_data x (it_keylen i) v;;
      mret x) (pair_set s T W bs v) s.
Proof using Type.
  intros Hkv Hu HT Hlt Hv. destruct (value_some s g T [x] None W bs x Hkv HT) as (it&Hit&Hval&Hkey&Hok&Hhv).
  destruct (filled_ok it bs v Hlt) as (Hok'&Hkey'&Hval'&Hb').
  assert (block_size it = sizeof_item + Z.of_nat (length bs) + Z.of_nat (length v)) as Hb.
  { pose proof (item_ok_key it Hok) as Hk. rewrite Hkey in Hk. specialize (Hv _ Hval). destruct Hok as (?&?&Hb&_).
    unfold item_value in Hv. rewrite length_take, length_drop in Hv. unfold block_size, sizeof_item in *. lia. }
  apply (wp_write_pair s x it); [done..|]. wp_step.
  destruct (kv_overwrite s g T [x] W x it bs v Hkv HT Hit Hok') as [Hkv' Hold]; [by rewrite Hb', Hb|done|].
  exists g, T. split_and!; [done|done| |done|done].
  unfold value_of. rewrite HT. simpl. rewrite lookup_insert_eq. simpl. by rewrite Hval'.
Qed.

Lemma wpx_set_new s g T W ia bs v :
  kv_inv s g T [] None W → unlocked s → is_Some (allocs s !! ia) → T !! bs = None →
  Z.of_nat (length bs) + Z.of_nat (length v) < 2 ^ 16 →
  wpx set_error
    (it ← ialloc_alloc ia (u64 (sizeof_item + Z.of_nat (length bs) + Z.of_nat (length v))) false;
     match it with
     | None => fail (AssertFail "main.c: assert(it)")
     | Some it =>
         store mem it (λ i, i <| it_hv := hash_of bs |>);;
         store mem it (λ i, i <| it_vallen := Z.of_nat (length v) |>);;
         store mem it (λ i, i <| it_keylen := Z.of_nat (length bs) |>);;
         write_data it 0 bs;;
         i ← deref mem it;
         write_data it (it_keylen i) v;;
         hasht_put it None;;
         o ← hasht_get bs (hash_of bs);
         assert_ "main.c: inserted" (bool_decide (o = Some it));;
         item_unref it;;
         mret it
     end) (pair_set s T W bs v) s.
Proof using Hgood.
  intros Hkv Hu [a Ha] HT Hlt. rewrite u64_small by (unfold sizeof_item; lia). apply wpx_bind, wpx_wp.
  eapply wp_mono; [eapply (wp_ialloc_alloc Hgood s g T [] W ia a); [done..|unfold sizeof_item; lia]|].
  intros [x|] s1 (g1&Hg1&Hall); [|apply wpx_fail; by left]. destruct Hall as (Hkv1&Hnew&n0&Hn0&Hb0&Hc0).
  assert (∀ k, T !! k ≠ Some x) as HTx by (intros k Hk; apply Hnew; eapply rv_table; [apply Hkv|done]).
  destruct (filled_ok n0 bs v Hlt) as (Hok&Hkey&Hval&Hb). apply wpx_wp, (wp_write_pair s1 x n0); [done..|].
  set (s2 := s1 <| mem := _ |>).
  assert (kv_inv s2 g1 T [x] None W) as Hkv2 by (eapply kv_filled; [done|done|done|by rewrite Hb, Hb0|done|done]).
  assert (mem s2 !! x = Some (filled n0 bs v)) as Hx2 by apply lookup_insert_eq.
  assert (∀ k, value_of s2 T k = value_of s T k) as Hv2.
  { intros k. rewrite <- (grows_value s s1 g g1 T [] None W k Hkv Hg1). apply value_content. intros y Hy.
    unfold s2. rec_simpl. rewrite lookup_insert_ne; [done|]. intros <-. by destruct (HTx k). }
  wp_step. eapply wp_mono; [eapply (wp_hasht_put Hgood s2 g1 T [x] W x (filled n0 bs v) None); try done|].
  { by apply (unlocked_buckets s); [apply Hg1|]. }
  { apply list_elem_of_here. }
  { by rewrite Hkey. }
  intros [] s3 (T'&Hkv3&Hq3&[[-> _]|[_ ?]]); [|done]. rewrite Hkey in Hkv3.
  wp_step. eapply wp_mono; [eapply wp_hasht_get; [done|apply Hq3|simpl; lia]|].
  intros o s4 (->&Hq4&Hkv4). rewrite lookup_insert_eq in Hkv4 |- *. simpl in Hkv4.
  wp_step. wp_step; [by apply bool_decide_eq_true|]. wp_step.
  eapply wp_mono; [eapply wp_unref; [done|done|done|apply Hq4|simpl; lia]|]. intros [] s5 [Hkv5 Hq5]. wp_step.
  assert (∀ k, value_of s5 (<[bs := x]> T) k = value_of s2 (<[bs := x]> T) k) as Hv5.
  { intros k. by rewrite (quiet_value s4 s5), (quiet_value s3 s4), (quiet_value s2 s3). }
  exists g1, (<[bs := x]> T). split_and!; [done|apply Hq5|..].
  - rewrite Hv5. unfold value_of. rewrite lookup_insert_eq.
    change (item_value <$> mem s2 !! x = Some v). rewrite Hx2. simpl. by rewrite Hval.
  - intros k Hk. rewrite Hv5, <- Hv2. unfold value_of. by rewrite lookup_insert_ne.
  - intros ia' Hia'. rewrite (qt_allocs _ _ Hq5), (qt_allocs _ _ Hq4), (qt_allocs _ _ Hq3).
    by eapply queue_some; [apply Hg1|].
Qed.

(** The value that a request sets. *)
Definition value_in (co : connection) (k : key) : list Z :=
  buf_bytes (tx_buf co) (sizeof_set + k_keylen k) valuesize.

(** The connection is idle, its buffer of the size that it is allocated with. *)
Definition idle_connection (co : connection) : Prop :=
  tx_off co = 0 ∧ tx_len co = 0 ∧ Z.of_nat (length (tx_buf co)) = BUFSIZE.

Lemma value_length co k : idle_connection co → key_ok k → Z.of_nat (length (value_in co k)) = valuesize.
Proof using Hgood.
  intros (_&_&Hb) (_&?&?). pose proof (gs_value Hgood). unfold value_in, buf_bytes. rewrite length_take, length_drop.
  unfold sizeof_set, BUFSIZE in *. lia.
Qed.

Lemma wpx_set_request s W V co k ia :
  ready s W V → is_Some (allocs s !! ia) → key_ok k → idle_connection co →
  (∀ k v, V k = Some v → Z.of_nat (length v) = valuesize) →
  wpx set_error (set_request co k ia) (λ _ s',
    ready s' W (λ k', if decide (k' = bytes_of k) then Some (value_in co k) else V k') ∧
    ∀ ia, is_Some (allocs s !! ia) → is_Some (allocs s' !! ia)) s.
Proof using Hgood.
  intros (g&T&Hkv&Hu&Hv) Hia Hk Hco HV. pose proof (value_length co k Hco Hk) as Hvl. pose proof (gs_value Hgood).
  pose proof (key_length k Hk) as Hkl. pose proof Hk as (_&?&?). pose proof Hco as (Ho&Hl&_).
  unfold set_request. rewrite Ho, Hl. do 2 (apply wpx_bind, wpx_wp; wp_step; [done|]).
  apply wpx_bind, wpx_wp. wp_step; [apply Z.leb_le; unfold sizeof_set, BUFSIZE; lia|].
  rewrite key_u16, key_hash by done. fold (bytes_of k). fold (value_in co k).
  set (bs := bytes_of k) in *. set (v := value_in co k) in *. rewrite <- Hkl, <- Hvl.
  apply wpx_bind, wpx_wp. eapply wp_mono; [eapply wp_hasht_get; [done..|simpl; lia]|].
  intros o s1 (->&Hq1&Hkv1). apply wpx_bind.
  assert (∀ k, value_of s1 T k = V k) as Hv1 by (intros k'; by rewrite (quiet_value s s1)).
  assert (allocs s1 = allocs s) as Ha1 by apply Hq1.
  assert (∀ x s2, pair_set s1 T W bs v x s2 →
    wpx set_error (item_unref x;; clean_log ia true;; mret tt) (λ _ s',
      ready s' W (λ k', if decide (k' = bs) then Some v else V k') ∧
      ∀ ia, is_Some (allocs s !! ia) → is_Some (allocs s' !! ia)) s2) as Hrest.
  { intros x s2 (g2&T2&Hkv2&Hu2&Hb2&Hv2&Ha2). apply wpx_bind, wpx_wp.
    eapply wp_mono; [eapply wp_unref; [done|done|done|done|simpl; lia]|]. intros [] s3 [Hkv3 Hq3]. apply wpx_bind.
    eapply wpx_mono; [eapply wpx_weaken; [eapply (wpx_clean_log Hgood s3 W (λ k', if decide (k' = bs) then Some v else V k') ia true)|by right]|].
    - exists g2, T2. split_and!; [done|apply Hq3|]. intros k'. rewrite (quiet_value s2 s3) by done.
      case_decide as Hd; [by subst|]. by rewrite Hv2.
    - rewrite (qt_allocs _ _ Hq3). by apply Ha2; rewrite Ha1.
    - intros n s4 [Hr4 Ha4]. apply wpx_ret. split; [done|]. intros ia' Hia'. apply Ha4.
      rewrite (qt_allocs _ _ Hq3). by apply Ha2; rewrite Ha1. }
  destruct (T !! bs) as [x|] eqn:HT; simpl in Hkv1.
  - apply wpx_wp. eapply wp_mono; [eapply wp_set_existing; [done|apply Hq1|done|lia|]|apply Hrest].
    intros v' Hv'. rewrite Hv1 in Hv'. apply HV in Hv'. lia.
  - eapply wpx_mono; [eapply wpx_set_new; [done|apply Hq1|by rewrite Ha1|done|lia]|apply Hrest].
Qed.
End requests.
