(* ===== verification/KvsStart.v ===== *)
(** * The start of the key-value store

    The empty store, and the allocator of a worker thread
    (ialloc_init_allocator of server/ialloc.c), which takes two segments: one
    to append to, and one in reserve. *)

From S2P Require Import Prelude Links F64 Jenkins Kvs KvsInv KvsLog KvsTable KvsAlloc KvsItems KvsClean KvsRequests.

Section start.
Context {cfg : settings} {plt : platform} (Hgood : good_store).
Implicit Types (s : kvs) (g : ghost) (p q : hptr) (h : segment_header).

(** The store before it is initialised. *)
Definition kvs_zero : kvs := Kvs ∅ ∅ 0 ∅ None false ∅ 0 ∅.
Definition ghost_zero : ghost := Ghost (λ _, Unborn) [] (λ _, []) (λ _, []).

Lemma ready_start n : 0 < n → ready (kvs_zero <| nbuckets := n |>) None (λ _, None).
Proof using Hgood.
  intros Hn. exists ghost_zero, ∅. set (s := kvs_zero <| nbuckets := n |>).
  assert (0 ≤ segmaxnum) by apply Hgood.
  split_and!; [split|done|done].
  - split; try done.
    + intros p. split; [by intros [h Hh]|done].
    + apply NoDup_nil_2.
    + intros p. split; [by intros Hp%not_elem_of_nil|done].
    + by intros ia p [?|?].
  - done.
  - split; [done..|]. intros x Hx. by apply not_elem_of_nil in Hx.
  - split; [done|]. intros b Hb. exists []. split; try done.
    + apply NoDup_nil_2.
    + intros x Hx. by apply not_elem_of_nil in Hx.
Qed.


(** The link of a segment that is in no list. *)
Lemma kv_loose_next s g T held X W p h o :
  kv_inv s g T held X W → g_role g p = Loose → headers s !! p = Some h →
  kv_inv (s <| headers := <[p := h <| sg_next := o |>]> (headers s) |>) g T held X W.
Proof using Type.
  intros Hkv Hp Hh. set (s' := s <| headers := _ |>).
  assert (∀ q, q ≠ p → headers s' !! q = headers s !! q) as Hne by (intros q Hq; by apply lookup_insert_ne).
  assert (headers s' !! p = Some (h <| sg_next := o |>)) as Heq by apply lookup_insert_eq.
  eapply kv_relink; [done|..].
  - split; try done; [by left| |].
    + intros q hq ia Hq Hhq. exists hq. rewrite Hne; [done|congruence].
    + intros q hq Hhq. destruct (decide (q = p)) as [->|Hq]; [by rewrite Heq|by rewrite Hne].
  - destruct (kv_log _ _ _ _ _ _ Hkv) as [Hlk Hc Hb Hi Hf Hfn Hfr Ha Ho Hl Hn Hnl].
    assert (∀ o l, chain (next_seg s) o l → p ∉ l → chain (next_seg s') o l) as Hch.
    { intros o' l Hch Hpl. eapply chain_ext; [done|]. intros q Hq. unfold next_seg. rewrite Hne; [done|]. by intros ->. }
    split; try done.
    + intros q. rewrite <- Hb. destruct (decide (q = p)) as [->|Hq]; [by rewrite Heq, Hh|by rewrite Hne].
    + intros q hq Hhq. destruct (decide (q = p)) as [->|Hq].
      * rewrite Heq in Hhq. injection Hhq as <-. exact (Hi p h Hh).
      * rewrite Hne in Hhq by done. by apply Hi.
    + apply Hch; [done|]. rewrite Hfr. congruence.
    + intros ia a Hia. destruct (Ha ia a Hia) as [(older&cur&Hs&Hcur&Hold) Hch' Hnd Hr Hsp]. split; try done.
      * exists older, cur. split_and!; [done..|]. intros q hq Hq. rewrite Hne; [by apply Hold|]. intros ->.
        assert (g_role g p = InLog ia); [|congruence]. apply Hr. rewrite Hs. apply elem_of_app. by left.
      * apply Hch; [done|]. rewrite Hr. congruence.
    + intros ia q hq Hq Hhq. rewrite Hne in Hhq by congruence. by apply (Hl ia q hq).
    + intros q hq Hq Hhq. destruct (decide (q = p)) as [->|Hqp].
      * rewrite Heq in Hhq. injection Hhq as <-. exact (Hn p h Hq Hh).
      * rewrite Hne in Hhq by done. by apply (Hn q).
Qed.

(** A new allocator, with two segments. *)
Definition new_role (g : ghost) (ia : positive) (cur res : hptr) : ghost :=
  Ghost (λ q, if decide (q = cur) then InLog ia else if decide (q = res) then Spare ia else g_role g q)
    (g_free g) (λ i, if decide (i = ia) then [cur] else g_segs g i) (g_log g).

Definition new_allocator (cur res : hptr) : item_allocator :=
  ItemAllocator (Some res) (replicate (Z.to_nat segcqsize) None) (Some cur) 0 0 (Some cur) 0 None 0.

Lemma log_inv_new s g ia cur res hc :
  log_inv s g None → allocs s !! ia = None → g_role g cur = Loose → g_role g res = Loose → cur ≠ res →
  headers s !! cur = Some hc → sg_next hc = None →
  log_inv (s <| allocs := <[ia := new_allocator cur res]> (allocs s) |>) (new_role g ia cur res) None.
Proof using Hgood.
  intros [Hlk Hc Hb Hi Hf Hfn Hfr Ha Ho Hl Hn Hnl] Hia Hcur Hres Hne Hhc Hnx.
  assert (∀ q, g_role g q ≠ InLog ia ∧ g_role g q ≠ Spare ia) as Hno.
  { intros q. split; intros Hq; destruct (Ho ia q) as [? ?]; [by left|congruence|by right|congruence]. }
  set (g' := new_role g ia cur res).
  assert (∀ q r, r ≠ Loose → r ≠ InLog ia → r ≠ Spare ia → g_role g' q = r ↔ g_role g q = r) as Hrr.
  { intros q r H1 H2 H3. unfold g'. simpl. repeat case_decide; subst; rewrite ?Hcur, ?Hres; split; congruence. }
  assert (∀ q, g_role g' q = InLog ia ↔ q = cur) as Hrc.
  { intros q. unfold g'. simpl. specialize (Hno q). repeat case_decide; naive_solver. }
  assert (∀ q, g_role g' q = Spare ia ↔ q = res) as Hrs.
  { intros q. unfold g'. simpl. specialize (Hno q). repeat case_decide; naive_solver. }
  split; try done.
  - intros q. rec_simpl. destruct (decide (g_role g' q = Unborn)) as [He|He].
    + rewrite Hb. split; [|done]. intros Hq. by apply Hrr in He.
    + split; [done|]. intros _. apply Hb. intros Hq. by apply He, Hrr.
  - intros q. rewrite Hrr by done. apply Hfr.
  - intros ia' a' Ha'. rec_simpl_in Ha'. destruct (decide (ia = ia')) as [<-|Hd].
    + rewrite lookup_insert_eq in Ha'. injection Ha' as <-.
      split; cbn [g_segs g' new_role]; rewrite ?(decide_True (P := ia = ia)) by done.
      * exists [], cur. split_and!; [done..|]. intros q hq Hq. by apply not_elem_of_nil in Hq.
      * split; [done|]. exists None. unfold next_seg. rec_simpl. rewrite Hhc. simpl. by rewrite Hnx.
      * apply NoDup_singleton.
      * intros q. change (q ∈ [cur] ↔ g_role g' q = InLog ia). by rewrite Hrc, list_elem_of_singleton.
      * intros q. change (Some res = Some q ↔ g_role g' q = Spare ia). rewrite Hrs. split; congruence.
    + rewrite lookup_insert_ne in Ha' by done. destruct (Ha ia' a' Ha') as [H1 H2 H3 H4 H5].
      split; unfold g'; cbn [g_segs new_role]; rewrite ?(decide_False (P := ia' = ia)) by done; try done.
      * intros q. fold g'. rewrite Hrr by congruence. apply H4.
      * intros q. fold g'. rewrite Hrr by congruence. apply H5.
  - intros ia' q Hq. rec_simpl. destruct (decide (ia = ia')) as [<-|Hd]; [by rewrite lookup_insert_eq|].
    rewrite lookup_insert_ne by done. rewrite !Hrr in Hq by congruence. by apply (Ho ia' q).
  - intros ia' q hq Hq Hhq. rec_simpl_in Hhq. rec_simpl. cbn [g_log g' new_role].
    destruct (decide (ia' = ia)) as [->|Hd]; [|apply (Hl ia' q hq); [|done]; apply Hrr in Hq; congruence].
    apply Hrc in Hq as ->. rewrite Hnl by congruence. destruct (Hn cur hq) as (Hz1&Hz2&Hz3); [by left|done|].
    destruct (Hi cur hq Hhq) as (_&_&_&_&Hsz). pose proof (gs_segsize Hgood). unfold sizeof_item in *.
    split; rewrite ?Hz1, ?Hz2, ?Hsz; try lia.
    + exists (sg_data hq). simpl. unfold sizeof_item. split_and!; [done|lia..].
    + unfold inactive. by rewrite Hz3.
    + intros x it Hx. by apply not_elem_of_nil in Hx.
  - intros q hq Hq. apply Hn. unfold g' in Hq. simpl in Hq. repeat case_decide; subst; naive_solver.
  - intros q Hq. apply Hnl. intros ia' Hq'. apply (Hq ia'). destruct (decide (ia' = ia)) as [->|Hd].
    + by destruct (Hno q).
    + apply Hrr; congruence.
Qed.

Lemma kv_new s g T held W ia cur res hc :
  kv_inv s g T held None W → allocs s !! ia = None → g_role g cur = Loose → g_role g res = Loose → cur ≠ res →
  headers s !! cur = Some hc → sg_next hc = None →
  kv_inv (s <| allocs := <[ia := new_allocator cur res]> (allocs s) |>) (new_role g ia cur res) T held None W.
Proof using Hgood.
  intros [Hl Hq Hr Ht] Hia Hcur Hres Hne Hhc Hnx. set (g' := new_role g ia cur res).
  assert (∀ q ia', g_role g q = InLog ia' → g_role g' q = InLog ia') as Hrole.
  { intros q ia' Hq'. unfold g'. simpl. repeat case_decide; congruence. }
  assert (∀ q ia' x, g_role g' q = InLog ia' → x ∈ g_log g q → g_role g q = InLog ia') as Hback.
  { intros q ia' x Hq' Hx. unfold g' in Hq'. simpl in Hq'. case_decide as Hd; [|case_decide; congruence].
    subst q. rewrite (lv_nolog _ _ _ Hl) in Hx by congruence. by apply not_elem_of_nil in Hx. }
  assert (∀ x, in_log g x → in_log g' x) as Hin by (intros x (ia'&q&?&?); exists ia', q; auto).
  split; [by apply (log_inv_new s g ia cur res hc)|..].
  - intros ia' a Ha. rec_simpl_in Ha. destruct (decide (ia = ia')) as [<-|Hd].
    + rewrite lookup_insert_eq in Ha. injection Ha as <-. pose proof (gs_queue Hgood). split; [|done].
      assert (∀ x, Some x ∉ cleanup_queue (new_allocator cur res)) as Hnone.
      { intros x Hx. apply elem_of_replicate in Hx as [? _]. done. }
      split; simpl; [rewrite length_replicate; lia|lia|lia| |].
      * intros i j x Hi. apply list_elem_of_lookup_2 in Hi. by destruct (Hnone x).
      * intros x Hx. by destruct (Hnone x).
    + rewrite lookup_insert_ne in Ha by done. destruct (Hq ia' a Ha) as [[? ? ? ? Hqi] Hc]. split.
      * split; try done. intros x Hx. destruct (Hqi x Hx) as (p&h&?&?&?&?&?). exists p, h. split_and!; auto.
      * intros HW p Hp. destruct (Hc HW p Hp) as (h&?&?&Hrest). exists h. split_and!; [done|lia|lia|].
        intros Hoff. destruct (Hrest Hoff) as (?&?&?&?). split_and!; auto.
  - destruct Hr as [Hcn HT Hh]. split; [|by eauto|by eauto]. intros ia' a p x it Hp Ha Hx Hit. rec_simpl_in Ha.
    pose proof (Hback p ia' x Hp Hx) as Hp'. destruct (decide (ia = ia')) as [<-|Hd].
    + destruct (lv_owner _ _ _ Hl ia p) as [? ?]; [by left|congruence].
    + rewrite lookup_insert_ne in Ha by done. by eapply Hcn.
  - by destruct Ht.
Qed.

Definition init_error (e : err) : Prop :=
  e = AssertFail "ialloc.c: allocating segment failed" ∨ e = AssertFail "ialloc.c: allocating reserved segment failed".

Lemma wpx_ialloc_init_allocator s W V ia :
  ready s W V → allocs s !! ia = None →
  wpx init_error (ialloc_init_allocator ia) (λ _ s', ready s' W V ∧ is_Some (allocs s' !! ia) ∧
    ∀ ia, is_Some (allocs s !! ia) → is_Some (allocs s' !! ia)) s.
Proof using Hgood.
  intros (g&T&Hkv&Hu&Hv) Hia. unfold ialloc_init_allocator. apply wpx_bind, wpx_wp.
  eapply wp_mono; [by eapply wp_segment_alloc|].
  intros [cur|] s1 (g1&Hkv1&Hql1&_&_&Hc); [|apply wpx_fail; by left]. destruct Hc as (Hc&_&_).
  destruct (loose_header s1 g1 None cur Loose (kv_log _ _ _ _ _ _ Hkv1) Hc) as [hc Hhc]; [done|].
  apply wpx_bind, wpx_wp. eapply wp_store; [done|].
  pose proof (kv_loose_next s1 g1 T [] None W cur hc None Hkv1 Hc Hhc) as Hkv2. set (s2 := s1 <| headers := _ |>) in *.
  apply wpx_bind, wpx_wp. eapply wp_mono; [by eapply wp_segment_alloc|].
  intros [res|] s3 (g3&Hkv3&Hql3&_&_&Hr); [|apply wpx_fail; by right]. destruct Hr as (Hr&Hr1&Hloose).
  assert (cur ≠ res) as Hne by congruence. destruct (Hloose cur Hc) as [Hc3 Hh3].
  destruct (loose_header s3 g3 None res Loose (kv_log _ _ _ _ _ _ Hkv3) Hr) as [hr Hhr]; [done|].
  apply wpx_bind, wpx_wp. eapply wp_store; [done|].
  pose proof (kv_loose_next s3 g3 T [] None W res hr None Hkv3 Hr Hhr) as Hkv4. set (s4 := s3 <| headers := _ |>) in *.
  apply wpx_wp. wp_step. fold (new_allocator cur res).
  assert (allocs s4 = allocs s) as Ha4 by (change (allocs s3 = allocs s); by rewrite (ql_allocs _ _ _ _ Hql3), <- (ql_allocs _ _ _ _ Hql1)).
  assert (headers s4 !! cur = Some (hc <| sg_next := None |>)) as Hh4.
  { unfold s4. rec_simpl. rewrite lookup_insert_ne, Hh3 by done. apply lookup_insert_eq. }
  split_and!.
  - exists (new_role g3 ia cur res), T. split_and!.
    + eapply (kv_new s4); try done. by rewrite Ha4.
    + apply (unlocked_buckets s); [|done]. change (buckets s3 = buckets s).
      by rewrite (ql_buckets _ _ _ _ Hql3), <- (ql_buckets _ _ _ _ Hql1).
    + intros k. rewrite <- Hv. unfold value_of. assert (mem s3 = mem s) as Hm.
      { by rewrite (ql_mem _ _ _ _ Hql3), <- (ql_mem _ _ _ _ Hql1). }
      destruct (T !! k) as [x|]; [|done]. change (item_value <$> mem s3 !! x = item_value <$> mem s !! x). by rewrite Hm.
  - rec_simpl. by rewrite lookup_insert_eq.
  - intros ia' Hia'. rec_simpl. apply lookup_insert_is_Some'. right. change (allocs s3) with (allocs s4). by rewrite Ha4.
Qed.
End start.
