(* ===== verification/KvsMaint.v ===== *)
(** * The maintenance of the log of the key-value store

    ialloc_maintenance of server/ialloc.c: a segment whose items are all dead
    goes back to the free list, and the live items of a segment that is mostly
    dead are queued for the worker, which copies them. *)

From S2P Require Import Prelude Links F64 Jenkins Kvs KvsInv KvsLog KvsTable KvsAlloc KvsItems KvsClean.

Section maint.
Context {cfg : settings} {plt : platform} (Hgood : good_store).
Implicit Types (s : kvs) (g : ghost) (p q : hptr) (h : segment_header) (x : Z).

(** ** A segment is freed *)

(** All the items of a segment are dead when it has as many dead bytes as
    bytes. *)
Lemma segment_dead s g ia p h :
  log_inv s g None → g_role g p = InLog ia → headers s !! p = Some h → inactive h → sg_freed h = sg_size h →
  ∃ e, tiles (mem s) (sg_data h) (g_log g p) e ∧ sg_data h + segsize - sizeof_item < e ≤ sg_data h + segsize ∧
  ∀ x it, x ∈ g_log g p → mem s !! x = Some it → it_refcount it = 0 ∧ item_ok it.
Proof using Type.
  intros Hl Hp Hh Hin Hf. destruct (lv_index _ _ _ Hl p h Hh) as (_&_&_&_&Hsz).
  destruct (lv_log _ _ _ Hl ia p h Hp Hh) as [(e&Ht&He&_&Hfr) _ Hfull Hit]. specialize (Hfull Hin).
  exists e. split_and!; [done|lia|lia|]. intros x it Hx Hx'. split; [|by eapply Hit].
  eapply dead_all; [done| |done|done]. lia.
Qed.

Definition unlink_role (g : ghost) (ia : positive) (p : hptr) (l : list hptr) : ghost :=
  Ghost (λ q, if decide (q = p) then Free else g_role g q) (p :: g_free g)
    (λ i, if decide (i = ia) then l else g_segs g i) (λ q, if decide (q = p) then [] else g_log g q).

(** The store after the segment [p], between those of [l1] and [next], has
    been unlinked and freed. *)
Record unlinked (s s' : kvs) (ia : positive) (a : item_allocator) (l1 : list hptr) (p next : hptr)
    (h : segment_header) : Prop := Unlinked {
  ul_mem : mem s' = mem s;
  ul_buckets : buckets s' = buckets s;
  ul_nbuckets : nbuckets s' = nbuckets s;
  ul_lock : segalloc_lock s' = false;
  ul_index : seg_headers s' = seg_headers s ∧ seg_alloced s' = seg_alloced s;
  ul_free : free_segments s' = Some p;
  ul_allocs : allocs s' = <[ia := a <| ia_oldest := match l1 with [] => Some next | _ => ia_oldest a end |>]> (allocs s);
  ul_header : headers s' !! p = Some (h <| sg_offset := 0 |> <| sg_next := free_segments s |>);
  ul_prev q : last l1 = Some q → headers s' !! q = (λ hq, hq <| sg_next := Some next |>) <$> headers s !! q;
  ul_other q : q ≠ p → last l1 ≠ Some q → headers s' !! q = headers s !! q;
}.

(** While the segments are gone through, the one that is being cleaned may be
    freed; all that is left of it is dead then. *)
Definition dead_rest (m : gmap Z item) (b e0 : Z) : Prop :=
  ∃ l e, tiles m b l e ∧ e0 - sizeof_item < e ≤ e0 ∧
    ∀ x it, x ∈ l → m !! x = Some it → it_refcount it = 0 ∧ item_ok it.

Definition sweep_ok (s : kvs) (g : ghost) (ia : positive) (a : item_allocator) : Prop :=
  ∀ p, ia_cleaning a = Some p → ∃ h, headers s !! p = Some h ∧ 0 ≤ clean_offset a ≤ segsize ∧
    (clean_offset a ≠ segsize →
       (g_role g p = InLog ia ∧ inactive h ∧ cleaned h ∧ boundary (mem s) h (g_log g p) (clean_offset a)) ∨
       dead_rest (mem s) (sg_data h + clean_offset a) (sg_data h + segsize)).

Section unlink.
Context (s s' : kvs) (g : ghost) (ia : positive) (a : item_allocator) (l1 l2 : list hptr) (p next : hptr)
  (h : segment_header).
Context (Hl : log_inv s g None) (Hal : allocs s !! ia = Some a) (Hs : g_segs g ia = l1 ++ p :: next :: l2)
  (Hp : headers s !! p = Some h) (Hu : unlinked s s' ia a l1 p next h).
Let g' : ghost := unlink_role g ia p (l1 ++ next :: l2).

Lemma unlink_in : g_role g p = InLog ia.
Proof using Hl Hal Hs. apply (ao_role _ _ _ _ (lv_alloc _ _ _ Hl ia a Hal)). rewrite Hs. apply elem_of_app. right. apply list_elem_of_here. Qed.

Lemma unlink_prev q : last l1 = Some q → q ≠ p ∧ g_role g q = InLog ia.
Proof using Hl Hal Hs.
  intros Hq%last_Some_elem_of. destruct (lv_alloc _ _ _ Hl ia a Hal) as [_ _ Hnd Hr _]. split.
  - intros ->. rewrite Hs in Hnd. apply NoDup_app in Hnd as (_&Hd&_). apply (Hd p); [done|apply list_elem_of_here].
  - apply Hr. rewrite Hs. apply elem_of_app. by left.
Qed.

(** Of the other headers, at most the link changes. *)
Lemma unlink_header q hq :
  q ≠ p → headers s' !! q = Some hq →
  ∃ hq0, headers s !! q = Some hq0 ∧ sg_data hq = sg_data hq0 ∧ sg_size hq = sg_size hq0 ∧
    sg_offset hq = sg_offset hq0 ∧ sg_freed hq = sg_freed hq0 ∧ sg_flags hq = sg_flags hq0.
Proof using Hu.
  intros Hne Hq. destruct (decide (last l1 = Some q)) as [Hla|Hla].
  - rewrite (ul_prev _ _ _ _ _ _ _ _ Hu q Hla) in Hq. destruct (headers s !! q) as [hq0|]; [|done].
    injection Hq as <-. by exists hq0.
  - rewrite (ul_other _ _ _ _ _ _ _ _ Hu q) in Hq by done. by exists hq.
Qed.

Lemma unlink_some q : is_Some (headers s' !! q) ↔ is_Some (headers s !! q).
Proof using Hu Hp.
  destruct (decide (q = p)) as [->|Hne]; [by rewrite (ul_header _ _ _ _ _ _ _ _ Hu), Hp|].
  destruct (decide (last l1 = Some q)) as [Hla|Hla].
  - rewrite (ul_prev _ _ _ _ _ _ _ _ Hu q Hla). by rewrite fmap_is_Some.
  - by rewrite (ul_other _ _ _ _ _ _ _ _ Hu q).
Qed.

Lemma unlink_role_ne q : q ≠ p → g_role g' q = g_role g q.
Proof using Type. intros. simpl. by rewrite decide_False. Qed.

Lemma unlink_roles q r : r ≠ Free → r ≠ InLog ia → g_role g' q = r ↔ g_role g q = r.
Proof using Hl Hal Hs.
  intros H1 H2. destruct (decide (q = p)) as [->|Hne]; [|by rewrite unlink_role_ne].
  rewrite unlink_in. simpl. rewrite decide_True by done. split; congruence.
Qed.

Lemma unlink_next q : q ≠ p → last l1 ≠ Some q → next_seg s' q = next_seg s q.
Proof using Hu. intros H1 H2. unfold next_seg. by rewrite (ul_other _ _ _ _ _ _ _ _ Hu q). Qed.

Lemma unlink_notin : p ∉ l1 ++ next :: l2.
Proof using Hl Hal Hs.
  pose proof (ao_nodup _ _ _ _ (lv_alloc _ _ _ Hl ia a Hal)) as Hnd. rewrite Hs in Hnd.
  apply NoDup_app in Hnd as (_&Hd&Hn%NoDup_cons). intros [Hq|Hq]%elem_of_app; [|naive_solver].
  apply (Hd p Hq), list_elem_of_here.
Qed.

(** The log of the allocator without [p]; those of the others. *)
Lemma unlink_own : alloc_ok s' g' ia (a <| ia_oldest := match l1 with [] => Some next | _ => ia_oldest a end |>).
Proof using Hl Hal Hs Hu.
  pose proof unlink_notin as Hpn.
  destruct (lv_alloc _ _ _ Hl ia a Hal) as [(older&cur&Hg&Hcur&Hina) Hch Hnd Hr Hsp].
  split; unfold g'; cbn [g_segs unlink_role]; rewrite ?(decide_True (P := ia = ia)) by done.
  - destruct (exists_last (l := next :: l2)) as (t&cur'&El); [done|]. rewrite El in Hs, Hpn |- *.
    assert (older = l1 ++ p :: t ∧ cur = cur') as [Ho ->].
    { apply app_inj_tail. rewrite <- Hg, Hs, <- app_assoc. done. }
    exists (l1 ++ t), cur'. split_and!; [by rewrite app_assoc|done|]. intros q hq Hq Hhq.
    destruct (unlink_header q hq) as (hq0&Hhq0&_&_&_&_&Hfl); [|done|].
    + intros ->. apply Hpn. rewrite app_assoc. apply elem_of_app. by left.
    + unfold inactive. rewrite Hfl. apply (Hina q hq0); [|done]. rewrite Ho.
      apply elem_of_app in Hq as [Hq|Hq]; apply elem_of_app; [by left|right; by apply list_elem_of_further].
  - rewrite Hs in Hch, Hnd. eapply chain_unlink; [done|done|apply unlink_next|].
    intros z Hz. unfold next_seg. rewrite (ul_prev _ _ _ _ _ _ _ _ Hu z Hz).
    destruct (chain_in _ _ _ z Hch) as [nx Hnx]; [apply elem_of_app; left; by apply last_Some_elem_of|].
    unfold next_seg in Hnx. by destruct (headers s !! z).
  - rewrite Hs in Hnd. eapply sublist_NoDup; [exact Hnd|]. apply sublist_app; [done|]. by apply sublist_cons.
  - intros q. destruct (decide (q = p)) as [->|Hq].
    + simpl. rewrite decide_True by done. by split.
    + fold g'. rewrite unlink_role_ne, <- Hr, Hs by done. rewrite !elem_of_app, !elem_of_cons. naive_solver.
  - intros q. fold g'. rewrite unlink_roles by done. apply Hsp.
Qed.

Lemma unlink_alloc ia' a' : allocs s' !! ia' = Some a' → alloc_ok s' g' ia' a'.
Proof using Hl Hal Hs Hp Hu.
  intros Ha'. rewrite (ul_allocs _ _ _ _ _ _ _ _ Hu) in Ha'. destruct (decide (ia = ia')) as [<-|Hne].
  { rewrite lookup_insert_eq in Ha'. injection Ha' as <-. apply unlink_own. }
  rewrite lookup_insert_ne in Ha' by done.
  destruct (lv_alloc _ _ _ Hl ia' a' Ha') as [(older&cur&Hg&Hcur&Hina) Hch Hnd Hr Hsp].
  assert (∀ q, q ∈ g_segs g ia' → q ≠ p ∧ last l1 ≠ Some q) as Hq.
  { intros q Hq%Hr. pose proof unlink_in. split; [congruence|]. intros Hla%unlink_prev. destruct Hla. congruence. }
  split; unfold g'; cbn [g_segs unlink_role]; rewrite ?(decide_False (P := ia' = ia)) by done; try done.
  - exists older, cur. split_and!; [done..|]. intros q hq Hqo Hhq. destruct (Hq q) as [H1 H2].
    { rewrite Hg. apply elem_of_app. by left. }
    rewrite (ul_other _ _ _ _ _ _ _ _ Hu) in Hhq by done. by eapply Hina.
  - eapply chain_ext; [done|]. intros q Hqs. destruct (Hq q Hqs). by apply unlink_next.
  - intros q. fold g'. rewrite unlink_roles by congruence. apply Hr.
  - intros q. fold g'. rewrite unlink_roles by done. apply Hsp.
Qed.

Lemma log_inv_unlink : log_inv s' g' None.
Proof using Hl Hal Hs Hp Hu.
  pose proof unlink_in as Hin. pose proof unlink_alloc as Hall.
  destruct Hu as [Hm Hb Hnb Hlk [Hix Hct] Hf Ha Hh Hpr Hot]. pose proof Hl as [_ Hc Hbn Hi Hfc Hfn Hfr _ Ho Hlog Hn Hnl].
  split; try done.
  - by rewrite Hct.
  - intros q. rewrite unlink_some, Hbn. destruct (decide (q = p)) as [->|Hne]; [|by rewrite unlink_role_ne].
    rewrite Hin. simpl. by rewrite decide_True.
  - rewrite Hix, Hct. intros q hq Hq. destruct (decide (q = p)) as [->|Hne].
    + rewrite Hh in Hq. injection Hq as <-. exact (Hi p h Hp).
    + destruct (unlink_header q hq Hne Hq) as (hq0&Hq0&->&->&_). by apply Hi.
  - simpl. split; [done|]. exists (free_segments s). unfold next_seg at 1. rewrite Hh. split; [done|].
    eapply chain_ext; [done|]. intros q Hq%Hfr. apply unlink_next; [congruence|]. intros Hla%unlink_prev.
    destruct Hla. congruence.
  - simpl. apply NoDup_cons. split; [|done]. rewrite Hfr. congruence.
  - intros q. simpl. rewrite elem_of_cons, Hfr. case_decide; naive_solver.
  - intros ia' q Hq. rewrite Ha. apply lookup_insert_is_Some'. destruct (decide (q = p)) as [->|Hne].
    + simpl in Hq. rewrite decide_True in Hq by done. naive_solver.
    + rewrite unlink_role_ne in Hq by done. right. by apply (Ho ia' q).
  - intros ia' q hq Hq Hhq. destruct (decide (q = p)) as [->|Hne]; [simpl in Hq; by rewrite decide_True in Hq|].
    rewrite unlink_role_ne in Hq by done. destruct (unlink_header q hq Hne Hhq) as (hq0&Hq0&E1&E2&E3&E4&E5).
    unfold g'. simpl. rewrite decide_False, Hm by done. destruct (Hlog ia' q hq0 Hq Hq0) as [H1 H2 H3 H4].
    split; unfold inactive; rewrite ?E1, ?E2, ?E3, ?E4, ?E5; done.
  - intros q hq Hq Hhq. assert (q ≠ p) as Hne by (intros ->; simpl in Hq; rewrite decide_True in Hq by done; naive_solver).
    rewrite unlink_role_ne in Hq by done. destruct (unlink_header q hq Hne Hhq) as (hq0&Hq0&_&_&->&->&->). by apply (Hn q hq0).
  - intros q Hq. simpl. case_decide as Hd; [done|]. apply Hnl. intros ia'. rewrite <- unlink_role_ne by done. apply Hq.
Qed.

(** Nothing refers to an item of [p]. *)
Context (T : gmap (list Z) Z) (held : list Z).
Context (Hkv : kv_inv s g T held None (Some ia)) (Hin : inactive h) (Hfreed : sg_freed h = sg_size h).

Lemma unlink_unused x : x ∈ g_log g p → (∀ k, T !! k ≠ Some x) ∧ Some x ∉ cleanup_queue a ∧ x ∉ held.
Proof using Hl Hal Hs Hp Hkv Hin Hfreed.
  intros Hx. destruct (segment_dead s g ia p h Hl unlink_in Hp Hin Hfreed) as (e&_&_&Hdead).
  destruct (refs_at s g T held None ia p x Hl (kv_refs _ _ _ _ _ _ Hkv) unlink_in Hx) as (a1&it&Ha1&Hit&Hrc).
  rewrite Hal in Ha1. injection Ha1 as <-. destruct (Hdead x it Hx Hit) as [Hz _]. rewrite Hz in Hrc.
  split_and!.
  - intros k Hk. pose proof (live_table s g T held None (Some ia) k x it Hkv Hk Hit). lia.
  - intros Hq. unfold refs in Hrc. rewrite (decide_True (P := Some x ∈ cleanup_queue a)) in Hrc by done. case_decide; lia.
  - intros Hh. pose proof (refs_held T a held x it Hh). lia.
Qed.

Lemma unlink_keeps x : in_log g x → x ∉ g_log g p → in_log g' x.
Proof using Type.
  intros (ia'&q&Hq&Hx) Hxp. exists ia', q. assert (q ≠ p) by by intros ->. rewrite unlink_role_ne by done.
  unfold g'. simpl. by rewrite decide_False.
Qed.

Lemma unlink_queue : queue_inv s' g' (Some ia).
Proof using Hl Hal Hs Hp Hu Hkv Hin Hfreed.
  assert (∀ q hq, q ≠ p → headers s !! q = Some hq → ∃ hq', headers s' !! q = Some hq' ∧ sg_data hq' = sg_data hq ∧
    sg_flags hq' = sg_flags hq) as Hhd.
  { intros q hq Hq Hhq. destruct (proj2 (unlink_some q)) as [hq' Hhq']; [by rewrite Hhq|].
    destruct (unlink_header q hq' Hq Hhq') as (hq0&Hq0&?&_&_&_&?). exists hq'. rewrite Hhq in Hq0. by injection Hq0 as <-. }
  assert (∀ ia' b b', allocs s !! ia' = Some b → queue_of b' = queue_of b → queue_ok s g ia' b → queue_ok s' g' ia' b') as Hok.
  { intros ia' b b' Hb [= E1 E2 E3 E4 E5] [Q1 Q2 Q3 Q4 Q5]. split; rewrite ?E1, ?E2, ?E3; try done. intros x Hx.
    destruct (Q5 x Hx) as (q&hq&Hq&Hhq&Hxq&Hcl&Hlt). assert (q ≠ p) as Hqp.
    { intros ->. pose proof unlink_in. assert (ia' = ia) as -> by congruence. rewrite Hal in Hb. injection Hb as <-.
      by destruct (unlink_unused x Hxq) as (_&?&_). }
    destruct (Hhd q hq Hqp Hhq) as (hq'&Hhq'&Hd&Hfl). exists q, hq'. rewrite unlink_role_ne, Hd, E4, E5 by done.
    unfold g', cleaned. simpl. by rewrite decide_False, Hfl by done. }
  intros ia' b Hb. rewrite (ul_allocs _ _ _ _ _ _ _ _ Hu) in Hb. destruct (decide (ia = ia')) as [<-|Hne].
  - rewrite lookup_insert_eq in Hb. injection Hb as <-. split; [|done].
    eapply (Hok ia a); [done|done|]. by destruct (kv_queue _ _ _ _ _ _ Hkv ia a Hal).
  - rewrite lookup_insert_ne in Hb by done. destruct (kv_queue _ _ _ _ _ _ Hkv ia' b Hb) as [Hq Hc].
    split; [by eapply (Hok ia' b)|]. intros HW q Hcq. destruct (Hc HW q Hcq) as (hq&Hhq&Hrg&Hrest).
    destruct (decide (q = p)) as [->|Hqp].
    + exists (h <| sg_offset := 0 |> <| sg_next := free_segments s |>). rewrite (ul_header _ _ _ _ _ _ _ _ Hu).
      split_and!; [done|lia|lia|]. intros Hoff. destruct (Hrest Hoff) as (Hq'&_). pose proof unlink_in. congruence.
    + destruct (Hhd q hq Hqp Hhq) as (hq'&Hhq'&Hd&Hfl). exists hq'. split_and!; [done|lia|lia|]. intros Hoff.
      destruct (Hrest Hoff) as (Hq'&Hia&Hcl&Hbd). rewrite unlink_role_ne, (ul_mem _ _ _ _ _ _ _ _ Hu) by done.
      unfold inactive, cleaned, boundary. rewrite Hd, Hfl. split_and!; [done..|].
      unfold g'. cbn [g_log unlink_role]. by rewrite decide_False by done.
Qed.

Lemma kv_unlink : kv_inv s' g' T held None (Some ia).
Proof using Hl Hal Hs Hp Hu Hkv Hin Hfreed.
  split; [apply log_inv_unlink|apply unlink_queue|..].
  - destruct (kv_refs _ _ _ _ _ _ Hkv) as [Hcn HT Hh]. split.
    + intros ia' b q x it Hq Hb Hx Hit. rewrite (ul_mem _ _ _ _ _ _ _ _ Hu) in Hit.
      destruct (decide (q = p)) as [->|Hne].
      { unfold g' in Hx. simpl in Hx. rewrite decide_True in Hx by done. by apply not_elem_of_nil in Hx. }
      rewrite unlink_role_ne in Hq by done. unfold g' in Hx. simpl in Hx. rewrite decide_False in Hx by done.
      rewrite (ul_allocs _ _ _ _ _ _ _ _ Hu) in Hb. destruct (decide (ia = ia')) as [<-|Hd].
      * rewrite lookup_insert_eq in Hb. injection Hb as <-. exact (Hcn ia a q x it Hq Hal Hx Hit).
      * rewrite lookup_insert_ne in Hb by done. by eapply Hcn.
    + intros k x Hk. apply unlink_keeps; [by eapply HT|]. intros Hx. destruct (unlink_unused x Hx) as [Hno _]. by destruct (Hno k).
    + intros x Hx. apply unlink_keeps; [by apply Hh|]. intros Hx'. by destruct (unlink_unused x Hx') as (_&_&?).
  - destruct (kv_table _ _ _ _ _ _ Hkv) as [Hn Hb]. split; rewrite (ul_nbuckets _ _ _ _ _ _ _ _ Hu); [done|].
    intros b Hb'. destruct (Hb b Hb') as (l&Hbk). exists l. rewrite (ul_mem _ _ _ _ _ _ _ _ Hu).
    assert (bucket_at s' b = bucket_at s b) as ->; [|done]. unfold bucket_at. by rewrite (ul_buckets _ _ _ _ _ _ _ _ Hu).
Qed.

Lemma sweep_unlink a' : queue_of a' = queue_of a → sweep_ok s g ia a → sweep_ok s' g' ia a'.
Proof using Hl Hal Hs Hp Hu Hin Hfreed.
  intros [= _ _ _ E1 E2] Hsw q Hq. rewrite E1 in Hq. rewrite E2, (ul_mem _ _ _ _ _ _ _ _ Hu).
  destruct (Hsw q Hq) as (hq&Hhq&Hrg&Hrest). destruct (decide (q = p)) as [->|Hne].
  - exists (h <| sg_offset := 0 |> <| sg_next := free_segments s |>). rewrite Hp in Hhq. injection Hhq as <-.
    split_and!; [apply Hu|lia|lia|]. intros Hoff. right. change (dead_rest (mem s) (sg_data h + clean_offset a) (sg_data h + segsize)).
    destruct (Hrest Hoff) as [(_&_&_&la&lb&Hll&Hla)|Hd]; [|done].
    destruct (segment_dead s g ia p h Hl unlink_in Hp Hin Hfreed) as (e&Ht&He&Hdead). rewrite Hll in Ht.
    apply tiles_app in Ht as (c&Hc&Hlb). assert (c = sg_data h + clean_offset a) as -> by (by eapply tiles_end).
    exists lb, e. split_and!; [done|lia|lia|]. intros x it Hx. apply Hdead. rewrite Hll. apply elem_of_app. by right.
  - destruct (proj2 (unlink_some q)) as [hq' Hhq']; [by rewrite Hhq|].
    destruct (unlink_header q hq' Hne Hhq') as (hq0&Hq0&Hd&_&_&_&Hfl). rewrite Hhq in Hq0. injection Hq0 as <-.
    exists hq'. rewrite Hd. split_and!; [done|lia|lia|]. intros Hoff. destruct (Hrest Hoff) as [(Hr&Hi&Hc&Hb)|Hdr]; [left|by right].
    rewrite unlink_role_ne by done. unfold inactive, cleaned, boundary. rewrite Hd, Hfl. split_and!; [done..|].
    unfold g'. cbn [g_log unlink_role]. by rewrite decide_False by done.
Qed.
End unlink.

Lemma wp_unlink_segment s ia a l1 p next h (Q : unit → kvs → Prop) :
  allocs s !! ia = Some a → headers s !! p = Some h → segalloc_lock s = false →
  (∀ q, last l1 = Some q → q ≠ p ∧ is_Some (headers s !! q)) →
  (∀ s', unlinked s s' ia a l1 p next h → Q tt s') →
  wp (match last l1 with
      | None => store allocs ia (λ a, a <| ia_oldest := Some next |>)
      | Some q => store headers q (λ hq, hq <| sg_next := Some next |>)
      end;; segment_free p) Q s.
Proof using Type.
  intros Ha Hp Hlk Hprev HQ. unfold segment_free. wp_step.
  assert (∀ s1, headers s1 !! p = Some h → free_segments s1 = free_segments s → segalloc_lock s1 = false →
    (∀ s', s' = s1 <| headers := <[p := h <| sg_offset := 0 |> <| sg_next := free_segments s |>]> (headers s1) |>
      <| free_segments := Some p |> <| segalloc_lock := false |> → Q tt s') →
    wp (spin_lock;; store headers p (λ h, h <| sg_offset := 0 |>);; fs ← gets free_segments;
        store headers p (λ h, h <| sg_next := fs |>);;
        modify (λ s, s <| free_segments := Some p |>);; spin_unlock) Q s1) as Hfree.
  { intros s1 Hp1 Hf1 Hl1 HQ1. wp_step. apply wp_spin_lock; [done|]. wp_step. eapply wp_store; [done|]. wp_step. wp_step. rec_simpl.
    wp_step. eapply wp_store; [rec_simpl; apply lookup_insert_eq|]. rec_simpl. rewrite insert_insert_eq, Hf1.
    wp_step. wp_step. unfold spin_unlock. wp_step. apply HQ1. done. }
  destruct (last l1) as [q|] eqn:Hla.
  - destruct (Hprev q eq_refl) as [Hqp [hq Hq]]. eapply wp_store; [done|]. apply Hfree; [|done|done|].
    { rec_simpl. by rewrite lookup_insert_ne. }
    intros s' ->. apply HQ. assert (∀ {B} (u v : B), match l1 with [] => u | _ => v end = v) as Hl1 by by destruct l1.
    split; try done; rec_simpl.
    + rewrite Hl1. assert (a <| ia_oldest := ia_oldest a |> = a) as -> by by destruct a. by rewrite insert_id.
    + apply lookup_insert_eq.
    + intros q' Hq'. rewrite Hla in Hq'. injection Hq' as <-. rewrite lookup_insert_ne, lookup_insert_eq by done. by rewrite Hq.
    + intros q' H1 H2. rewrite Hla in H2. rewrite !lookup_insert_ne by congruence. done.
  - apply last_None in Hla as Hl1. subst l1. eapply wp_store; [done|]. apply Hfree; [done..|].
    intros s' ->. apply HQ. split; try done; rec_simpl.
    + apply lookup_insert_eq.
    + intros q' H1 _. by rewrite lookup_insert_ne.
Qed.

(** ** Going through the segments *)
Definition candidate (s : kvs) (l : list hptr) (cand : option hptr) : Prop :=
  ∀ q, cand = Some q → q ∈ l ∧ ∃ hq, headers s !! q = Some hq ∧ inactive hq ∧ ¬ cleaned hq.

(** The segments of [l1] have been looked at. *)
Definition sweeping (s0 : kvs) (T : gmap (list Z) Z) (ia : positive) (s : kvs) (l1 l2 : list hptr)
    (cand : option hptr) : Prop :=
  ∃ g a, kv_inv s g T [] None (Some ia) ∧ allocs s !! ia = Some a ∧ g_segs g ia = l1 ++ l2 ∧ sweep_ok s g ia a ∧
    same_store s0 s ∧ (∀ ia, queue_of <$> allocs s !! ia = queue_of <$> allocs s0 !! ia) ∧ candidate s l1 cand.

Lemma sweep_head s g ia a l1 l2 p :
  log_inv s g None → allocs s !! ia = Some a → g_segs g ia = l1 ++ l2 → head l2 = Some p →
  ∃ h l2', headers s !! p = Some h ∧ l2 = p :: l2' ∧ sg_next h = head l2'.
Proof using Type.
  intros Hl Ha Hs Hh. destruct l2 as [|p' l2]; [done|]. injection Hh as ->.
  pose proof (ao_chain _ _ _ _ (lv_alloc _ _ _ Hl ia a Ha)) as Hch. rewrite Hs in Hch.
  apply chain_app in Hch as (n&_&_&m&Hm&Hch). unfold next_seg in Hm. destruct (headers s !! p) as [h|]; [|done].
  injection Hm as <-. exists h, l2. split_and!; [done..|]. by eapply chain_head.
Qed.

Lemma sweep_unlinked s0 T ia s s' g a l1 p next l2 h cand :
  kv_inv s g T [] None (Some ia) → allocs s !! ia = Some a → g_segs g ia = l1 ++ p :: next :: l2 → sweep_ok s g ia a →
  same_store s0 s → (∀ ia, queue_of <$> allocs s !! ia = queue_of <$> allocs s0 !! ia) → candidate s l1 cand →
  headers s !! p = Some h → inactive h → sg_freed h = sg_size h → unlinked s s' ia a l1 p next h →
  sweeping s0 T ia s' l1 (next :: l2) cand.
Proof using Type.
  intros Hkv Ha Hs Hsw [Hm Hb] Hq Hc Hp Hin Hf Hu. pose proof (kv_log _ _ _ _ _ _ Hkv) as Hl.
  set (a' := a <| ia_oldest := match l1 with [] => Some next | _ => ia_oldest a end |>).
  assert (allocs s' = <[ia := a']> (allocs s)) as Ha' by apply Hu.
  exists (unlink_role g ia p (l1 ++ next :: l2)), a'. split_and!.
  - by eapply kv_unlink.
  - rewrite Ha'. apply lookup_insert_eq.
  - simpl. by rewrite decide_True.
  - by eapply sweep_unlink.
  - split; [by rewrite (ul_mem _ _ _ _ _ _ _ _ Hu)|by rewrite (ul_buckets _ _ _ _ _ _ _ _ Hu)].
  - intros ia'. rewrite <- Hq, Ha'. destruct (decide (ia = ia')) as [<-|Hne].
    + by rewrite lookup_insert_eq, Ha.
    + by rewrite lookup_insert_ne.
  - intros q Hcq. destruct (Hc q Hcq) as (Hq1&hq&Hhq&Hi&Hnc). split; [done|].
    assert (q ≠ p) as Hqp.
    { intros ->. eapply unlink_notin; [done|done|done|]. apply elem_of_app. left. exact Hq1. }
    destruct (proj2 (unlink_some s s' ia a l1 p next h Hp Hu q)) as [hq' Hhq']; [by rewrite Hhq|].
    destruct (unlink_header s s' ia a l1 p next h Hu q hq' Hqp Hhq') as (hq0&Hq0&_&_&_&_&Hfl). rewrite Hhq in Hq0.
    injection Hq0 as <-. exists hq'. unfold inactive, cleaned. by rewrite Hfl.
Qed.

Definition swept (s0 : kvs) (T : gmap (list Z) Z) (ia : positive) (n : nat)
    (c : option hptr * option hptr * option hptr * f64 + option hptr) (s' : kvs) : Prop :=
  match c with
  | inl (h', prev', cand', _) => ∃ l1 l2, (length l2 < n)%nat ∧ h' = head l2 ∧ prev' = last l1 ∧
      sweeping s0 T ia s' l1 l2 cand'
  | inr c => ∃ l1 l2, sweeping s0 T ia s' l1 l2 c
  end.

Lemma wp_maint_body s0 T ia s l1 l2 cand r :
  sweeping s0 T ia s l1 l2 cand →
  wp (maint_body ia (head l2, last l1, cand, r)) (swept s0 T ia (length l2)) s.
Proof using Type.
  intros Hsw. pose proof Hsw as (g&a&Hkv&Ha&Hs&Hok&Hst&Hq&Hc). pose proof (kv_log _ _ _ _ _ _ Hkv) as Hl.
  assert (wp (mret (inr cand)) (swept s0 T ia (length l2)) s) as Hstop by (wp_step; by exists l1, l2).
  unfold maint_body. destruct (head l2) as [p|] eqn:Hh; [|done].
  destruct (sweep_head s g ia a l1 l2 p Hl Ha Hs Hh) as (h&l2'&Hp&El&Hnx). wp_step. wp_step; [done|].
  destruct (sg_next h) as [next|] eqn:En; [|done]. destruct l2' as [|next' l2']; [done|]. injection Hnx as <-.
  destruct (Z.eqb_spec (Z.land (sg_flags h) SF_INACTIVE) SF_INACTIVE) as [Hin|]; [simpl|done].
  assert (∀ cand', candidate s (l1 ++ [p]) cand' → sweeping s0 T ia s (l1 ++ [p]) (next :: l2') cand') as Hgo.
  { intros cand' Hc'. exists g, a. split_and!; try done. by rewrite <- app_assoc, Hs, El. }
  assert (candidate s (l1 ++ [p]) cand) as Hold.
  { intros q Hcq. destruct (Hc q Hcq) as [Hq1 Hq2]. split; [apply elem_of_app; by left|done]. }
  assert (∀ cand' r', candidate s (l1 ++ [p]) cand' →
    wp (mret (inl (Some next, Some p, cand', r'))) (swept s0 T ia (length l2)) s) as Hnext.
  { intros cand' r' Hc'. wp_step. exists (l1 ++ [p]), (next :: l2'). rewrite last_snoc, El. split_and!; [simpl; lia|done|done|by apply Hgo]. }
  destruct (Z.eqb_spec (sg_freed h) (sg_size h)) as [Hf|Hf].
  - eapply (wp_seq_assoc _ _ _ (λ _ s', unlinked s s' ia a l1 p next h)); [apply (wp_unlink_segment s ia a l1 p next h); try done; [apply Hl|]|].
    + intros q Hla. rewrite El in Hs. destruct (unlink_prev s g ia a l1 l2' p next Hl Ha Hs q Hla) as [Hqp Hqr].
      split; [done|]. apply (lv_born _ _ _ Hl). by rewrite Hqr.
    + intros [] s' Hu. wp_step. exists l1, (next :: l2'). rewrite El. split_and!; [simpl; lia|done|done|].
      rewrite El in Hs. by eapply sweep_unlinked.
  - destruct (Z.eqb_spec (Z.land (sg_flags h) SF_CLEANED) SF_CLEANED) as [Hcl|Hcl]; [by apply Hnext|]. simpl.
    destruct (_ && _); [|by apply Hnext]. apply Hnext. intros q [= <-]. split; [apply elem_of_app; right; apply list_elem_of_here|].
    by exists h.
Qed.

Lemma chain_bound s g ia a :
  log_inv s g None → allocs s !! ia = Some a → (length (g_segs g ia) ≤ size (headers s))%nat.
Proof using Type.
  intros Hl Ha. destruct (lv_alloc _ _ _ Hl ia a Ha) as [_ Hch Hnd _ _].
  rewrite <- (size_dom (headers s)), <- (size_list_to_set (C := gset hptr) (g_segs g ia)) by done.
  apply subseteq_size. intros q Hq%elem_of_list_to_set. apply elem_of_dom.
  destruct (chain_in _ _ _ q Hch Hq) as [n Hn]. unfold next_seg in Hn. by destruct (headers s !! q).
Qed.

Lemma wp_maint_segments s g T ia a :
  kv_inv s g T [] None None → allocs s !! ia = Some a →
  wp (maint_segments ia) (λ cand s', ∃ l1 l2, sweeping s T ia s' l1 l2 cand) s.
Proof using Type.
  intros Hkv Ha. pose proof (kv_log _ _ _ _ _ _ Hkv) as Hl. unfold maint_segments. wp_step. wp_step; [done|]. wp_step. wp_step.
  assert (ia_oldest a = head (g_segs g ia)) as ->.
  { eapply chain_head, ao_chain. by apply (lv_alloc _ _ _ Hl). }
  apply (wp_loop_index (λ k c s', ∃ l1 l2 cand r, length l2 = k ∧ c = (head l2, last l1, cand, r) ∧ sweeping s T ia s' l1 l2 cand))
    with (k := length (g_segs g ia)).
  - exists [], (g_segs g ia), None, (S754_zero false). split_and!; [done..|]. exists g, a. split_and!; try done.
    + destruct Hkv as [? Hq ? ?]. split; [done| |done|done]. intros ia' a' Ha'. destruct (Hq ia' a' Ha') as [? Hc]. split; [done|]. intros _. by apply Hc.
    + destruct (kv_queue _ _ _ _ _ _ Hkv ia a Ha) as [_ Hc]. intros p Hp. destruct (Hc ltac:(done) p Hp) as (h&?&?&?).
      exists h. split_and!; [done|lia|lia|]. intros Hoff. left. auto.
  - pose proof (chain_bound s g ia a Hl Ha). lia.
  - intros k c s1 (l1&l2&cand&r&<-&->&Hsw). eapply wp_mono; [by apply wp_maint_body|].
    intros [[[[h' prev'] cand'] r']|c] s2 Hc; [|exact Hc]. destruct Hc as (l1'&l2'&Hlt&->&->&Hsw').
    exists (length l2'). split; [done|]. by exists l1', l2', cand', r'.
Qed.
End maint.
