(* ===== verification/KvsScan.v ===== *)
(** * Queueing the items of a segment

    The second half of ialloc_maintenance of server/ialloc.c: the segment that
    is cleaned is chosen, and its live items are queued up to the point where
    the queue is full. *)

From S2P Require Import Prelude Links F64 Jenkins Kvs KvsInv KvsLog KvsTable KvsAlloc KvsItems KvsClean KvsMaint.

Section scan.
Context {cfg : settings} {plt : platform} (Hgood : good_store).
Implicit Types (s : kvs) (g : ghost) (p q : hptr) (h : segment_header) (x : Z).

(** A step on the allocator [ia] that leaves the segments alone. *)
Lemma log_inv_alloc s g X ia a a' :
  log_inv s g X → allocs s !! ia = Some a → links_of a' = links_of a →
  log_inv (s <| allocs := <[ia := a']> (allocs s) |>) g X.
Proof using Type.
  intros Hl Ha Hk. eapply log_inv_change; [done|split; try done|].
  - intros ia'. rec_simpl. destruct (decide (ia = ia')) as [<-|Hne].
    + rewrite lookup_insert_eq, Ha. simpl. by rewrite Hk.
    + by rewrite lookup_insert_ne.
  - intros q h h' Hh Hh'. rec_simpl_in Hh'. rewrite Hh in Hh'. injection Hh' as <-. destruct Hl.
    split_and!; [done|by eauto|by eauto].
Qed.

Lemma queue_inv_alloc s g W ia a a' :
  queue_inv s g W → allocs s !! ia = Some a → queue_ok s g ia a' → cleaning_ok s g ia a' →
  queue_inv (s <| allocs := <[ia := a']> (allocs s) |>) g W.
Proof using Type.
  intros Hq Ha [] Hc ia' b Hb. rec_simpl_in Hb. destruct (decide (ia = ia')) as [<-|Hne].
  - rewrite lookup_insert_eq in Hb. injection Hb as <-. split; [by split|done].
  - rewrite lookup_insert_ne in Hb by done. destruct (Hq ia' b Hb) as [[] ?]. split; [by split|done].
Qed.

Lemma refs_inv_alloc s g T held ia a a' :
  refs_inv s g T held → allocs s !! ia = Some a → cleanup_queue a' = cleanup_queue a →
  refs_inv (s <| allocs := <[ia := a']> (allocs s) |>) g T held.
Proof using Type.
  intros [Hcn HT Hh] Ha Hq. split; [|done..]. intros ia' b p x it Hp Hb Hx Hit. rec_simpl_in Hb.
  destruct (decide (ia = ia')) as [<-|Hne].
  - rewrite lookup_insert_eq in Hb. injection Hb as <-. rewrite (Hcn ia a p x it) by done. unfold refs. by rewrite Hq.
  - rewrite lookup_insert_ne in Hb by done. by eapply Hcn.
Qed.

(** The cleaning goes on to the offset [off]. *)
Lemma kv_advance s g T held X ia a p h off :
  kv_inv s g T held X (Some ia) → allocs s !! ia = Some a → ia_cleaning a = Some p → headers s !! p = Some h →
  clean_offset a ≤ off → 0 ≤ off ≤ segsize →
  (off ≠ segsize → g_role g p = InLog ia ∧ inactive h ∧ cleaned h ∧ boundary (mem s) h (g_log g p) off) →
  kv_inv (s <| allocs := <[ia := a <| clean_offset := off |>]> (allocs s) |>) g T held X None.
Proof using Type.
  intros [Hl Hq Hr Ht] Ha Hc Hh Hle Hrg Hb. destruct (Hq ia a Ha) as [[Q1 Q2 Q3 Q4 Q5] _].
  split; [by eapply log_inv_alloc| |by eapply refs_inv_alloc|by destruct Ht].
  assert (queue_inv (s <| allocs := <[ia := a <| clean_offset := off |>]> (allocs s) |>) g (Some ia) ∧
    cleaning_ok s g ia (a <| clean_offset := off |>)) as [Hq' Hc'].
  { assert (cleaning_ok s g ia (a <| clean_offset := off |>)) as Hc'.
    { intros q Hq'. rec_simpl. rec_simpl_in Hq'. rewrite Hc in Hq'. injection Hq' as <-. exists h. split_and!; [done|lia|lia|done]. }
    split; [|done]. eapply queue_inv_alloc; [done|done| |done]. split; rec_simpl; try done. intros x Hx.
    destruct (Q5 x Hx) as (q&hq&Hq'&Hhq&Hxq&Hcl&Hlt). exists q, hq. split_and!; try done. rec_simpl. intros Hcq.
    specialize (Hlt Hcq). lia. }
  intros ia' b Hb'. destruct (Hq' ia' b Hb') as [Hok Hcl]. split; [done|]. intros _.
  destruct (decide (ia' = ia)) as [->|Hne]; [|by apply Hcl; congruence].
  rec_simpl_in Hb'. rewrite lookup_insert_eq in Hb'. by injection Hb' as <-.
Qed.

Lemma kv_weaken s g T held X ia : kv_inv s g T held X None → kv_inv s g T held X (Some ia).
Proof using Type.
  intros [Hl Hq Hr Ht]. split; try done. intros ia' a Ha. destruct (Hq ia' a Ha) as [? Hc]. split; [done|]. intros _. by apply Hc.
Qed.

(** An item is queued; the reference is the queue's. *)
Lemma kv_enqueue s g T held ia a p h x it i tl :
  kv_inv s g T held None None → allocs s !! ia = Some a → g_role g p = InLog ia → headers s !! p = Some h →
  x ∈ g_log g p → mem s !! x = Some it → 0 < it_refcount it → cleanup_queue a !! i = Some None →
  Some x ∉ cleanup_queue a → cleaned h → (ia_cleaning a = Some p → x < sg_data h + clean_offset a) → 0 ≤ tl < segcqsize →
  kv_inv (s <| mem := <[x := it <| it_refcount := it_refcount it + 1 |>]> (mem s) |>
    <| allocs := <[ia := a <| cleanup_queue ::= <[i := Some x]> |> <| cq_tail := tl |>]> (allocs s) |>) g T held None None.
Proof using Hgood.
  intros Hkv Ha Hp Hh Hx Hit Hpos Hi Hnq Hcl Hlt Htl. pose proof Hkv as [Hl Hq Hr Ht].
  set (it' := it <| it_refcount := it_refcount it + 1 |>). set (a' := a <| cleanup_queue ::= _ |> <| cq_tail := tl |>).
  set (s1 := s <| mem := <[x := it']> (mem s) |>).
  assert (block_size it' = block_size it ∧ item_key it' = item_key it ∧ it_refcount it' = it_refcount it + 1) as (Hb&Hk&Hc) by done.
  assert (log_inv s1 g None) as Hl1 by (eapply log_inv_insert; try done; lia).
  assert (queue_inv s1 g None) as Hq1 by (by eapply queue_inv_insert).
  assert (∀ y, Some y ∈ cleanup_queue a' ↔ Some y ∈ cleanup_queue a ∨ y = x) as Hmem.
  { intros y. unfold a'. rec_simpl. rewrite !list_elem_of_lookup. split.
    - intros [j Hj]. destruct (decide (j = i)) as [->|Hne].
      + rewrite list_lookup_insert_eq in Hj by (by eapply lookup_lt_Some). right. congruence.
      + rewrite list_lookup_insert_ne in Hj by done. left. by exists j.
    - intros [[j Hj]| ->].
      + exists j. rewrite list_lookup_insert_ne; [done|]. intros ->. congruence.
      + exists i. rewrite list_lookup_insert_eq; [done|]. by eapply lookup_lt_Some. }
  destruct (Hq1 ia a Ha) as [[Q1 Q2 Q3 Q4 Q5] Hcn1].
  split; [by apply (log_inv_alloc s1 g None ia a a')| | |].
  - apply (queue_inv_alloc s1 g None ia a a'); [done|done| |exact (Hcn1 ltac:(done))].
    split; [unfold a'; rec_simpl; by rewrite length_insert|done|done| |].
    + intros j j' y Hj Hj'. unfold a' in Hj, Hj'. rec_simpl_in Hj. rec_simpl_in Hj'.
      assert (∀ j, <[i := Some x]> (cleanup_queue a) !! j = Some (Some y) → j = i ∧ y = x ∨ j ≠ i ∧ cleanup_queue a !! j = Some (Some y)) as Hcase.
      { intros k Hk'. destruct (decide (k = i)) as [->|Hne].
        - rewrite list_lookup_insert_eq in Hk' by (by eapply lookup_lt_Some). left. split; congruence.
        - rewrite list_lookup_insert_ne in Hk' by done. by right. }
      apply Hcase in Hj as [[-> ->]|[Hn1 Hj]], Hj' as [[-> E]|[Hn2 Hj']]; try done; [| |by eapply Q4].
      * destruct Hnq. apply list_elem_of_lookup. by exists j'.
      * subst y. destruct Hnq. apply list_elem_of_lookup. by exists j.
    + intros y [Hy| ->]%Hmem; [exact (Q5 y Hy)|]. by exists p, h.
  - destruct Hr as [Hcn HT Hhl]. split; [|done..]. intros ia' b q y iy Hq' Hb' Hy Hiy. unfold s1 in Hb', Hiy.
    rec_simpl_in Hb'. rec_simpl_in Hiy.
    assert (y = x → ia' = ia) as Hown by (intros ->; assert (q = p) as -> by (by eapply log_unique); congruence).
    assert (∃ iy0, mem s !! y = Some iy0 ∧ item_key iy = item_key iy0 ∧
      it_refcount iy = it_refcount iy0 + (if decide (y = x) then 1 else 0)) as (iy0&Hiy0&Hky&Hcy).
    { destruct (decide (y = x)) as [->|Hne].
      - rewrite lookup_insert_eq in Hiy. injection Hiy as <-. by exists it.
      - rewrite lookup_insert_ne in Hiy by done. exists iy. split_and!; [done..|lia]. }
    rewrite Hcy. destruct (decide (ia = ia')) as [<-|Hne].
    + rewrite lookup_insert_eq in Hb'. injection Hb' as <-. rewrite (Hcn ia a q y iy0) by done. unfold refs. rewrite Hky.
      destruct (decide (y = x)) as [->|Hyx].
      * rewrite (decide_False (P := Some x ∈ cleanup_queue a)) by done.
        rewrite (decide_True (P := Some x ∈ cleanup_queue a')) by (apply Hmem; by right). lia.
      * rewrite Z.add_0_r. do 2 f_equal. apply decide_ext. rewrite Hmem. naive_solver.
    + rewrite lookup_insert_ne in Hb' by done. rewrite (decide_False (P := y = x)) by (intros ->; by destruct Hne; rewrite Hown).
      rewrite (Hcn ia' b q y iy0) by done. unfold refs. rewrite Hky. lia.
  - assert (table_inv s1 T) as [H1 H2]; [|by split]. apply table_inv_mem; [done|]. intros k y iy _ Hy.
    destruct (decide (x = y)) as [<-|Hne].
    + exists it'. rewrite lookup_insert_eq. rewrite Hit in Hy. by injection Hy as <-.
    + exists iy. by rewrite lookup_insert_ne.
Qed.

(** ** The choice of the segment *)
Lemma kv_rest s g T held X ia a :
  kv_inv s g T held X (Some ia) → allocs s !! ia = Some a → cleaning_ok s g ia a → kv_inv s g T held X None.
Proof using Type.
  intros [Hl Hq Hr Ht] Ha Hc. split; try done. intros ia' b Hb. destruct (Hq ia' b Hb) as [Hok Hcl]. split; [done|].
  intros _. destruct (decide (ia' = ia)) as [->|Hne]; [|by apply Hcl; congruence]. rewrite Ha in Hb. by injection Hb as <-.
Qed.

Lemma kv_aim s g T held X ia a cand :
  kv_inv s g T held X (Some ia) → allocs s !! ia = Some a →
  (∀ q hq, cand = Some q → headers s !! q = Some hq → ¬ cleaned hq) →
  kv_inv (s <| allocs := <[ia := a <| ia_cleaning := cand |> <| clean_offset := 0 |>]> (allocs s) |>) g T held X (Some ia).
Proof using Type.
  intros [Hl Hq Hr Ht] Ha Hc. split; [by eapply log_inv_alloc| |by eapply refs_inv_alloc|by destruct Ht].
  destruct (Hq ia a Ha) as [[Q1 Q2 Q3 Q4 Q5] _]. intros ia' b Hb. rec_simpl_in Hb. destruct (decide (ia = ia')) as [<-|Hne].
  - rewrite lookup_insert_eq in Hb. injection Hb as <-. split; [|done]. split; rec_simpl; try done. intros x Hx.
    destruct (Q5 x Hx) as (q&hq&Hq'&Hhq&Hxq&Hcl&_). exists q, hq. split_and!; try done. rec_simpl. intros Hcq. by destruct (Hc q hq).
  - rewrite lookup_insert_ne in Hb by done. destruct (Hq ia' b Hb) as [[] ?]. split; [by split|done].
Qed.

(** The header of a segment that is to be cleaned. *)
Definition marked (h : segment_header) : segment_header := h <| sg_flags ::= λ f, Z.lor f SF_CLEANED |>.

Lemma marked_flags h : (inactive (marked h) ↔ inactive h) ∧ cleaned (marked h).
Proof using Type.
  unfold marked, inactive, cleaned. rec_simpl. rewrite !Z.land_lor_distr_l. change (Z.land SF_CLEANED SF_INACTIVE) with 0.
  rewrite Z.lor_0_r. split; [done|]. rewrite Z.land_diag. apply Z.bits_inj. intros n. rewrite Z.lor_spec, Z.land_spec.
  by destruct (Z.testbit _ n), (Z.testbit _ n).
Qed.

Lemma kv_mark s g T held X W ia q hq :
  kv_inv s g T held X W → g_role g q = InLog ia → headers s !! q = Some hq →
  kv_inv (s <| headers := <[q := marked hq]> (headers s) |>) g T held X W.
Proof using Type.
  intros [Hl Hqi Hr Ht] Hq Hhq. destruct (marked_flags hq) as [Hi Hc].
  assert (same_segments s (s <| headers := <[q := marked hq]> (headers s) |>)) as Hss.
  { split; try done. intros q'. rec_simpl. destruct (decide (q = q')) as [<-|Hne].
    - by rewrite lookup_insert_eq, Hhq.
    - by rewrite lookup_insert_ne. }
  assert (∀ q' h h', headers s !! q' = Some h → <[q := marked hq]> (headers s) !! q' = Some h' →
    q' = q ∧ h = hq ∧ h' = marked hq ∨ q' ≠ q ∧ h' = h) as Hcase.
  { intros q' h h' Hh. destruct (decide (q = q')) as [<-|Hne].
    - rewrite lookup_insert_eq. naive_solver.
    - rewrite lookup_insert_ne, Hh by done. naive_solver. }
  split; [| |by destruct Hr|by destruct Ht].
  - eapply log_inv_change; [done|done|]. intros q' h h' Hh Hh'. rec_simpl_in Hh'.
    destruct (Hcase q' h h' Hh Hh') as [(->&->&->)|[Hne ->]].
    + split_and!; [by rewrite Hi| |by intros [?|[? ?]]; congruence]. intros ia' Hq'.
      destruct (lv_log _ _ _ Hl ia' q hq Hq' Hhq) as [H1 H2 H3 H4]. split; try done. by rewrite Hi.
    + destruct Hl. split_and!; [done|by eauto|by eauto].
  - eapply queue_inv_change; [done|done|done| |by intros; eauto]. intros q' h h' Hh Hh'. rec_simpl_in Hh'.
    destruct (Hcase q' h h' Hh Hh') as [(->&->&->)|[Hne ->]]; [|done]. by rewrite Hi.
Qed.

(** ** The items of the segment *)

(** Only references are counted, and allocators change. *)
Definition kept (s0 s : kvs) : Prop :=
  buckets s = buckets s0 ∧ (∀ x, content <$> mem s !! x = content <$> mem s0 !! x) ∧
  ∀ ia, is_Some (allocs s0 !! ia) → is_Some (allocs s !! ia).

(** The store as if the offset and the tail of the queue were stored after
    every item; the code stores them at the end. *)
Definition at_offset (s : kvs) (ia : positive) (a : item_allocator) (off idx : Z) : kvs :=
  s <| allocs := <[ia := a <| cq_tail := idx |> <| clean_offset := off |>]> (allocs s) |>.

Definition scanning (s0 : kvs) (T : gmap (list Z) Z) (ia : positive) (p : hptr) (h : segment_header) (c : Z * Z)
    (s : kvs) : Prop :=
  ∃ g a, allocs s !! ia = Some a ∧ ia_cleaning a = Some p ∧ headers s !! p = Some h ∧
    kv_inv (at_offset s ia a c.1 c.2) g T [] None None ∧ kept s0 s.

Lemma at_advance s g T held ia a p h off idx off' :
  kv_inv (at_offset s ia a off idx) g T held None None → ia_cleaning a = Some p → headers s !! p = Some h →
  off ≤ off' → 0 ≤ off' ≤ segsize →
  (off' ≠ segsize → g_role g p = InLog ia ∧ inactive h ∧ cleaned h ∧ boundary (mem s) h (g_log g p) off') →
  kv_inv (at_offset s ia a off' idx) g T held None None.
Proof using Type.
  intros Hkv Hc Hh Hle Hrg Hb.
  pose proof (kv_advance (at_offset s ia a off idx) g T held None ia (a <| cq_tail := idx |> <| clean_offset := off |>) p h off'
    (kv_weaken _ _ _ _ _ _ Hkv) (lookup_insert_eq _ _ _) Hc Hh Hle Hrg Hb) as Hkv'.
  unfold at_offset in Hkv'. rec_simpl_in Hkv'. rewrite insert_insert_eq in Hkv'. exact Hkv'.
Qed.

(** Where the scan is: at an item, or in the gap at the end. *)
Lemma scan_at s g T ia a p h off idx :
  kv_inv (at_offset s ia a off idx) g T [] None None → ia_cleaning a = Some p → headers s !! p = Some h →
  off < segsize → sizeof_item ≤ segsize - off →
  let x := sg_data h + off in
  g_role g p = InLog ia ∧ inactive h ∧ cleaned h ∧ 0 ≤ off ∧ 0 ≤ x < 2 ^ 64 ∧ Some x ∉ cleanup_queue a ∧ x ∈ g_log g p ∧
  ∃ it, mem s !! x = Some it ∧ item_ok it ∧ 0 ≤ it_refcount it ≤ 2 ∧ off + block_size it ≤ segsize ∧
    boundary (mem s) h (g_log g p) (off + block_size it).
Proof using Hgood.
  intros Hkv Hc Hh Hlt Hge x. set (sv := at_offset s ia a off idx) in *.
  set (av := a <| cq_tail := idx |> <| clean_offset := off |>).
  assert (allocs sv !! ia = Some av) as Hav by apply lookup_insert_eq.
  destruct (kv_queue _ _ _ _ _ _ Hkv ia av Hav) as [[_ _ _ _ Hin] Hcl].
  destruct (Hcl ltac:(done) p Hc) as (h'&Hh'&Hrg&Hrest). change (headers s !! p = Some h') in Hh'. rewrite Hh in Hh'. injection Hh' as <-.
  change (0 ≤ off ≤ segsize) in Hrg.
  destruct (Hrest ltac:(change (off ≠ segsize); lia)) as (Hp&Hi&Hcd&l1&l2&Hll&Ht1). change (clean_offset av) with off in Ht1.
  pose proof (kv_log _ _ _ _ _ _ Hkv) as Hl.
  destruct (freed_range Hgood sv g None ia p h Hl Hp Hh) as (_&_&Hsz&Hd0&Hd1).
  destruct (lv_log _ _ _ Hl ia p h Hp Hh) as [(e&Ht&He&_&_) _ Hfull Hits]. specialize (Hfull Hi).
  rewrite Hll in Ht. apply tiles_app in Ht as (c&Hc1&Ht2).
  assert (c = x) as -> by (exact (tiles_end _ _ _ _ _ Hc1 Ht1)).
  destruct l2 as [|y l2]; [simpl in Ht2; unfold x, sizeof_item in *; lia|]. simpl in Ht2. destruct Ht2 as (->&it&Hit&Ht2).
  assert (x ∈ g_log g p) as Hx by (rewrite Hll; apply elem_of_app; right; apply list_elem_of_here).
  destruct (refs_at sv g T [] None ia p x Hl (kv_refs _ _ _ _ _ _ Hkv) Hp Hx) as (a1&it1&_&Hit1&Hrc).
  change (mem s !! x = Some it1) in Hit1. rewrite Hit in Hit1. injection Hit1 as <-. pose proof (refs_bound T a1 [] x it) as Hrb. simpl in Hrb.
  pose proof (tiles_le _ _ _ _ Ht2) as Hle.
  split_and!; try done; try (unfold x; lia).
  - intros Hq. destruct (Hin x Hq) as (q&hq&Hq'&Hhq&Hxq&_&Hlx). assert (q = p) as -> by (by eapply log_unique).
    change (headers s !! p = Some hq) in Hhq. rewrite Hh in Hhq. injection Hhq as <-. specialize (Hlx Hc).
    change (x < sg_data h + off) in Hlx. unfold x in Hlx. lia.
  - exists it. split_and!; [done|by eapply (Hits x)|lia|lia|unfold x in Hle; lia|].
    exists (l1 ++ [x]), l2. rewrite <- app_assoc. split; [done|]. apply tiles_app. exists x. split; [done|].
    split; [done|]. exists it. split; [done|]. simpl. unfold x. lia.
Qed.

Lemma content_kept s0 s x it n A :
  kept s0 s → mem s !! x = Some it → (∀ ia, is_Some (allocs s !! ia) → is_Some (A !! ia)) →
  kept s0 (s <| mem := <[x := it <| it_refcount := n |>]> (mem s) |> <| allocs := A |>).
Proof using Type.
  intros (Hb&Hc&Ha) Hx HA. split_and!; [done| |by auto]. intros y. rewrite <- Hc. rec_simpl. by apply content_refcount.
Qed.

Lemma wp_scan_item s0 T ia p h c s :
  scanning s0 T ia p h c s →
  wp (scan_item ia (sg_data h) segsize c) (λ r s', match r with
    | inl c' => scanning s0 T ia p h c' s' ∧ c.1 < c'.1 ≤ segsize ∧ 0 ≤ c.1
    | inr c' => scanning s0 T ia p h c' s'
    end) s.
Proof using Hgood.
  destruct c as [off idx]. intros Hsc. pose proof Hsc as (g&a&Ha&Hc&Hh&Hkv&Hk). simpl in Hkv. unfold scan_item.
  destruct (Z.ltb_spec off segsize) as [Hlt|Hge]; [|by wp_step]. wp_step. wp_step; [done|].
  destruct (kv_queue _ _ _ _ _ _ Hkv ia _ (lookup_insert_eq _ _ _)) as [[Hlen _ Htl _ _] _].
  change (Z.of_nat (length (cleanup_queue a)) = segcqsize) in Hlen. change (0 ≤ idx < segcqsize) in Htl.
  destruct (lookup_lt_is_Some_2 (cleanup_queue a) (Z.to_nat idx)) as [o Hi]; [lia|]. wp_step. wp_step; [done|].
  destruct o as [y|]; simpl; [by wp_step|]. destruct (Z.ltb_spec (segsize - off) sizeof_item) as [Hsm|Hbig].
  { wp_step. exists g, a. split_and!; try done. eapply at_advance; [done|done|done|simpl; lia| |done].
    pose proof (gs_segsize Hgood). unfold sizeof_item in *. simpl. lia. }
  destruct (scan_at s g T ia a p h off idx Hkv Hc Hh Hlt Hbig) as (Hp&Hin&Hcl&Ho0&Hx64&Hnq&Hx&it&Hit&Hok&Hrc&Hfit&Hbd).
  set (x := sg_data h + off) in *. rewrite (u64_small x) by done. pose proof (block_pos it) as Hbp.
  pose proof (gs_segsize Hgood) as Hgs. unfold sizeof_item in Hbp, Hgs.
  assert (kv_inv (at_offset s ia a (off + block_size it) idx) g T [] None None) as Hkv1
    by (eapply at_advance; [done|done|done|lia|lia|done]).
  unfold item_tryref. wp_step. wp_step. wp_step; [done|]. destruct (Z.eqb_spec (it_refcount it) 0) as [Hz|Hnz].
  - wp_step. wp_step. wp_step; [done|]. wp_step. wp_step; [done|]. wp_step.
    rewrite (item_ok_totalsz it Hok), u64_small by lia. simpl. split_and!; [|lia..]. by exists g, a.
  - wp_step. eapply wp_store; [done|]. wp_step. wp_step. wp_step; [|done]. eapply wp_store; [done|].
    wp_step. wp_step; [rec_simpl; apply lookup_insert_eq|]. wp_step.
    assert (it <| it_refcount ::= λ c, u16 (c + 1) |> = it <| it_refcount := it_refcount it + 1 |>) as ->.
    { unfold u16, upd, set_it_refcount. f_equal. apply Z.mod_small. lia. }
    set (it' := it <| it_refcount := it_refcount it + 1 |>).
    assert (item_totalsz it' = block_size it) as -> by exact (item_ok_totalsz it Hok).
    rewrite u64_small by lia. rewrite (u64_small (idx + 1)) by (pose proof (gs_queue Hgood); lia). simpl. split_and!; [|lia..].
    exists g, (a <| cleanup_queue ::= <[Z.to_nat idx := Some x]> |>). split_and!; [apply lookup_insert_eq|done|done| |].
    + pose proof (kv_enqueue (at_offset s ia a (off + block_size it) idx) g T [] ia
        (a <| cq_tail := idx |> <| clean_offset := off + block_size it |>) p h x it (Z.to_nat idx) ((idx + 1) mod segcqsize)
        Hkv1 (lookup_insert_eq _ _ _) Hp Hh Hx Hit ltac:(lia) Hi Hnq Hcl) as He.
      unfold at_offset in He |- *. rec_simpl_in He. rec_simpl. rewrite insert_insert_eq in He |- *. apply He.
      * intros _. unfold x. lia.
      * apply Z.mod_pos_bound. lia.
    + apply content_kept; [done|done|]. intros ia' Hia'. apply lookup_insert_is_Some'. by right.
Qed.

Lemma wp_scan s0 T ia p h off idx size s :
  scanning s0 T ia p h (off, idx) s → 0 ≤ off → size = segsize ∨ size = 0 →
  wp (loop (S (Z.to_nat size)) (scan_item ia (sg_data h) size) (off, idx)) (λ c s', scanning s0 T ia p h c s') s.
Proof using Hgood.
  intros Hsc Hoff Hsize. pose proof (gs_segsize Hgood) as Hgs. unfold sizeof_item in Hgs. destruct Hsize as [->| ->].
  - apply (wp_loop (λ c s', scanning s0 T ia p h c s' ∧ 0 ≤ c.1) (λ c _, Z.to_nat (segsize - c.1))); [done|simpl; lia|].
    intros c s1 [Hsc1 Hc1]. eapply wp_mono; [by apply wp_scan_item|]. intros [c'|c'] s2 H2; [|done].
    destruct H2 as (?&?&?). split_and!; [done|lia|lia].
  - simpl. wp_step. destruct (Z.ltb_spec off 0); [lia|]. wp_step. simpl. by wp_step.
Qed.

(** What is left of a segment that has been freed is passed over. *)
Lemma wp_scan_dead s ia a h off idx :
  allocs s !! ia = Some a → cleanup_queue a !! Z.to_nat idx = Some None →
  dead_rest (mem s) (sg_data h + off) (sg_data h + segsize) → 0 ≤ off ≤ segsize → 0 ≤ sg_data h →
  sg_data h + segsize < 2 ^ 64 →
  wp (loop (S (Z.to_nat segsize)) (scan_item ia (sg_data h) segsize) (off, idx)) (λ c s', c = (segsize, idx) ∧ s' = s) s.
Proof using Hgood.
  intros Ha Hi Hd Hoff Hd0 Hd1. pose proof (gs_segsize Hgood) as Hgs. unfold sizeof_item in Hgs.
  apply (wp_loop (λ c s', s' = s ∧ c.2 = idx ∧ 0 ≤ c.1 ≤ segsize ∧ dead_rest (mem s) (sg_data h + c.1) (sg_data h + segsize))
    (λ c _, Z.to_nat (segsize - c.1))); [done|simpl; lia|].
  intros [o i] s1 (->&Hi1&Ho&l&e&Ht&He&Hl). simpl in *. subst i. unfold scan_item.
  destruct (Z.ltb_spec o segsize) as [Hlt|Hge]; [|wp_step; split; [f_equal; lia|done]].
  wp_step. wp_step; [done|]. wp_step. wp_step; [done|]. simpl.
  destruct (Z.ltb_spec (segsize - o) sizeof_item) as [|Hbig]; [by wp_step|]. unfold sizeof_item in *.
  rewrite (u64_small (sg_data h + o)) by lia. destruct l as [|x l]; simpl in Ht; [lia|]. destruct Ht as (->&it&Hit&Ht).
  destruct (Hl _ it (list_elem_of_here _ _) Hit) as [Hz Hok]. pose proof (tiles_le _ _ _ _ Ht). pose proof (block_pos it) as Hb.
  unfold sizeof_item in Hb. unfold item_tryref. wp_step. wp_step. wp_step; [done|]. rewrite Hz. simpl. wp_step. wp_step. wp_step; [done|].
  wp_step. wp_step; [done|]. wp_step. rewrite (item_ok_totalsz it Hok), u64_small by lia. simpl. split_and!; try done; try lia.
  exists l, e. unfold sizeof_item. rewrite Z.add_assoc. split_and!; [done|lia|lia|]. intros y iy Hy. apply Hl. by apply list_elem_of_further.
Qed.

(** ** The whole *)

(** A segment that is freed while it is cleaned must not be scanned again when
    it has a new use: the scan gets to its end at once when the queue is not
    full. *)
Definition maintainable (a : item_allocator) : Prop :=
  ia_cleaning a = None ∨ clean_offset a = segsize ∨ cleanup_queue a !! Z.to_nat (cq_tail a) = Some None.

Lemma sweep_candidate s0 T ia s l1 l2 cand :
  sweeping s0 T ia s l1 l2 cand → ∃ g a, kv_inv s g T [] None (Some ia) ∧ allocs s !! ia = Some a ∧ sweep_ok s g ia a ∧
    same_store s0 s ∧ (∀ ia, queue_of <$> allocs s !! ia = queue_of <$> allocs s0 !! ia) ∧
    ∀ q, cand = Some q → g_role g q = InLog ia ∧ ∃ hq, headers s !! q = Some hq ∧ inactive hq ∧ ¬ cleaned hq.
Proof using Type.
  intros (g&a&Hkv&Ha&Hs&Hsw&Hst&Hq&Hc). exists g, a. split_and!; try done. intros q Hcq. destruct (Hc q Hcq) as [Hq1 Hq2].
  split; [|done]. apply (ao_role _ _ _ _ (lv_alloc _ _ _ (kv_log _ _ _ _ _ _ Hkv) ia a Ha)). rewrite Hs. apply elem_of_app. by left.
Qed.

Lemma kept_queues s0 s :
  same_store s0 s → (∀ ia, queue_of <$> allocs s !! ia = queue_of <$> allocs s0 !! ia) → kept s0 s.
Proof using Type.
  intros [Hm Hb] Hq. split_and!; [done|by rewrite Hm|]. intros ia. by apply queue_some.
Qed.

Lemma kept_allocs s0 s A :
  kept s0 s → (∀ ia, is_Some (allocs s !! ia) → is_Some (A !! ia)) → kept s0 (s <| allocs := A |>).
Proof using Type. intros (?&?&?) HA. split_and!; auto. Qed.

Lemma kept_ready s0 s g T V :
  kv_inv s g T [] None None → unlocked s0 → (∀ k, value_of s0 T k = V k) → kept s0 s → ready s None V.
Proof using Type.
  intros Hkv Hu Hv (Hb&Hc&_). exists g, T. split_and!; [done|by eapply unlocked_buckets|]. intros k. rewrite <- Hv.
  apply value_content. auto.
Qed.

Lemma header_range s g X p h :
  log_inv s g X → headers s !! p = Some h → sg_size h = segsize ∧ 0 ≤ sg_data h ∧ sg_data h + segsize < 2 ^ 64.
Proof using Hgood.
  intros Hl Hh. destruct (lv_index _ _ _ Hl p h Hh) as (i&Hi&_&Hd&Hsz). pose proof (lv_count _ _ _ Hl).
  pose proof (gs_memory Hgood). pose proof (gs_segsize Hgood). unfold sizeof_item in *. split_and!; [done|nia|nia].
Qed.

Lemma at_offset_id s ia a : allocs s !! ia = Some a → at_offset s ia a (clean_offset a) (cq_tail a) = s.
Proof using Type.
  intros Ha. unfold at_offset. assert (a <| cq_tail := cq_tail a |> <| clean_offset := clean_offset a |> = a) as ->
    by by destruct a.
  rewrite insert_id by done. by destruct s.
Qed.

(** The segment that was being cleaned has been freed by this run. *)
Definition freed_rest (s0 : kvs) (T : gmap (list Z) Z) (ia : positive) (p : hptr) (h : segment_header) (s : kvs) : Prop :=
  ∃ g a, kv_inv s g T [] None (Some ia) ∧ allocs s !! ia = Some a ∧ ia_cleaning a = Some p ∧ headers s !! p = Some h ∧
    0 ≤ clean_offset a ≤ segsize ∧ cleanup_queue a !! Z.to_nat (cq_tail a) = Some None ∧
    dead_rest (mem s) (sg_data h + clean_offset a) (sg_data h + segsize) ∧ kept s0 s.

Definition chosen (s0 : kvs) (T : gmap (list Z) Z) (ia : positive) (c : option hptr * Z * Z) (s : kvs) : Prop :=
  match c with
  | (None, _, _) => (∃ g, kv_inv s g T [] None None) ∧ kept s0 s
  | (Some p, off, size) => ∃ h a, headers s !! p = Some h ∧ allocs s !! ia = Some a ∧ clean_offset a = off ∧ 0 ≤ off ∧
      (scanning s0 T ia p h (off, cq_tail a) s ∧ (size = segsize ∨ size = 0) ∨ freed_rest s0 T ia p h s ∧ size = segsize)
  end.

(** A new segment, when there is one to clean. *)
Lemma wp_aim s0 T ia s g a cand size :
  kv_inv s g T [] None (Some ia) → allocs s !! ia = Some a → kept s0 s → size = segsize ∨ size = 0 →
  (∀ q, cand = Some q → g_role g q = InLog ia ∧ ∃ hq, headers s !! q = Some hq ∧ inactive hq ∧ ¬ cleaned hq) →
  wp (store allocs ia (λ a, a <| ia_cleaning := cand |>);;
      store allocs ia (λ a, a <| clean_offset := 0 |>);;
      match cand with
      | None => mret tt
      | Some p => store headers p (λ h, h <| sg_flags ::= λ f, Z.lor f SF_CLEANED |>)
      end;;
      mret (cand, 0, size)) (chosen s0 T ia) s.
Proof using Hgood.
  intros Hkv Ha Hk Hsize Hc. wp_step. eapply wp_store; [done|]. wp_step. eapply wp_store; [rec_simpl; apply lookup_insert_eq|]. rec_simpl.
  rewrite insert_insert_eq. wp_step.
  assert (kv_inv (s <| allocs := <[ia := a <| ia_cleaning := cand |> <| clean_offset := 0 |>]> (allocs s) |>) g T [] None (Some ia)) as Hkv1.
  { eapply kv_aim; [done|done|]. intros q hq Hq Hhq. destruct (Hc q Hq) as (_&hq'&Hhq'&_&Hnc). rewrite Hhq in Hhq'. by injection Hhq' as <-. }
  set (a1 := a <| ia_cleaning := cand |> <| clean_offset := 0 |>) in *.
  set (s1 := s <| allocs := _ |>) in *. assert (allocs s1 !! ia = Some a1) as Ha1 by apply lookup_insert_eq.
  assert (kept s0 s1) as Hk1.
  { apply kept_allocs; [done|]. intros ia' Hia'. apply lookup_insert_is_Some'. by right. }
  match goal with |- wp _ _ ?s' => change s' with s1 end.
  destruct cand as [q|].
  - destruct (Hc q eq_refl) as (Hq&hq&Hhq&Hin&_). eapply wp_store; [done|]. wp_step. fold (marked hq).
    pose proof (kv_mark s1 g T [] None (Some ia) ia q hq Hkv1 Hq Hhq) as Hkv2. set (s2 := s1 <| headers := _ |>) in *.
    assert (headers s2 !! q = Some (marked hq)) as Hh2 by apply lookup_insert_eq.
    destruct (marked_flags hq) as [Hi Hcl]. exists (marked hq), a1. split_and!; [done..|]. left. split; [|done].
    exists g, a1. split_and!; try done. change (kv_inv (at_offset s2 ia a1 (clean_offset a1) (cq_tail a1)) g T [] None None).
    rewrite (at_offset_id s2 ia a1 Ha1).
    eapply kv_rest; [done|done|]. intros q' [= <-]. exists (marked hq). pose proof (gs_segsize Hgood). unfold sizeof_item in *.
    split_and!; [done|simpl; lia|simpl; lia|]. intros _. split_and!; [done|by apply Hi|done|].
    exists [], (g_log g q). split; [done|]. simpl. lia.
  - wp_step. wp_step. split; [|done]. exists g. eapply kv_rest; [done|done|]. by intros q.
Qed.

Lemma wp_maint_choose s0 T ia s l1 l2 cand :
  sweeping s0 T ia s l1 l2 cand → (∀ a, allocs s0 !! ia = Some a → maintainable a) →
  wp (maint_choose ia cand) (chosen s0 T ia) s.
Proof using Hgood.
  intros Hsw Hm. destruct (sweep_candidate s0 T ia s l1 l2 cand Hsw) as (g&a&Hkv&Ha&Hok&Hst&Hq&Hc).
  pose proof (kv_log _ _ _ _ _ _ Hkv) as Hl. pose proof (kept_queues s0 s Hst Hq) as Hk.
  assert (maintainable a) as Hma.
  { specialize (Hq ia). rewrite Ha in Hq. destruct (allocs s0 !! ia) as [a0|] eqn:Ha0; [|done].
    injection Hq as E1 E2 E3 E4 E5. unfold maintainable. rewrite E1, E3, E4, E5. by apply Hm. }
  unfold maint_choose. wp_step. wp_step; [done|]. wp_step. destruct (ia_cleaning a) as [p|] eqn:Hcl.
  - destruct (Hok p Hcl) as (h&Hh&Hrg&Hrest). destruct (header_range s g None p h Hl Hh) as (Hsz&Hd0&Hd1).
    wp_step. wp_step; [done|]. wp_step. rewrite Hsz. simpl. destruct (Z.eqb_spec (clean_offset a) segsize) as [He|Hne].
    + eapply wp_aim; [done|done|done|by left|done].
    + wp_step. exists h, a. split_and!; [done..|lia|]. destruct (Hrest Hne) as [Hb|Hd].
      * left. split; [|by left]. exists g, a. split_and!; try done. simpl. rewrite at_offset_id by done.
        eapply kv_rest; [done|done|]. intros p' Hp'. rewrite Hcl in Hp'. injection Hp' as <-. exists h. split_and!; [done|lia|lia|done].
      * right. split; [|done]. exists g, a. split_and!; try done; try lia. destruct Hma as [?|[?|?]]; [congruence|done|done].
  - wp_step. simpl. eapply wp_aim; [done|done|done|by right|done].
Qed.

(** A round of the maintenance thread changes no value. *)
Lemma wp_ialloc_maintenance s V ia a :
  ready s None V → allocs s !! ia = Some a → maintainable a →
  wp (ialloc_maintenance ia) (λ _ s', ready s' None V ∧ ∀ ia, is_Some (allocs s !! ia) → is_Some (allocs s' !! ia)) s.
Proof using Hgood.
  intros (g&T&Hkv&Hu&Hv) Ha Hm. unfold ialloc_maintenance. wp_step. eapply wp_mono; [by eapply wp_maint_segments|].
  intros cand s1 (l1&l2&Hsw). wp_step. eapply wp_mono; [eapply wp_maint_choose; [done|]|].
  { intros a' Ha'. rewrite Ha in Ha'. by injection Ha' as <-. }
  intros [[[p|] off] size] s2 Hch; simpl in Hch.
  - destruct Hch as (h&a2&Hh&Ha2&Hof&Hoff&Hch). wp_step. wp_step; [done|]. wp_step. wp_step; [done|]. wp_step.
    destruct Hch as [[Hsc Hsize]|[(g2&a2'&Hkv2&Ha2'&Hc2&_&Hrg&Hi&Hd&Hk2) ->]].
    + eapply wp_mono; [by apply wp_scan|]. intros [off' idx'] s3 (g3&a3&Ha3&Hc3&Hh3&Hkv3&Hk3). simpl in Hkv3.
      wp_step. eapply wp_store; [done|]. eapply wp_store; [rec_simpl; apply lookup_insert_eq|]. rec_simpl. rewrite insert_insert_eq.
      split; [eapply kept_ready; [exact Hkv3|done|done|]; apply (kept_allocs s s3); [done|]; intros ia' Hia'; apply lookup_insert_is_Some'; by right|].
      intros ia' Hia'. rec_simpl. apply lookup_insert_is_Some'. right. by apply Hk3.
    + rewrite Ha2 in Ha2'. injection Ha2' as <-. destruct (header_range s2 g2 None p h (kv_log _ _ _ _ _ _ Hkv2) Hh) as (_&Hd0&Hd1).
      rewrite Hof in *. eapply wp_mono; [by eapply wp_scan_dead|]. intros c s3 [-> ->]. wp_step. eapply wp_store; [done|].
      eapply wp_store; [rec_simpl; apply lookup_insert_eq|]. rec_simpl. rewrite insert_insert_eq.
      assert (kv_inv (s2 <| allocs := <[ia := a2 <| clean_offset := segsize |>]> (allocs s2) |>) g2 T [] None None) as Hkv3.
      { eapply kv_advance; [done|done|done|done|lia|lia|done]. }
      assert (a2 <| cq_tail := cq_tail a2 |> <| clean_offset := segsize |> = a2 <| clean_offset := segsize |>) as -> by by destruct a2.
      split; [eapply kept_ready; [exact Hkv3|done|done|]; apply (kept_allocs s s2); [done|]; intros ia' Hia'; apply lookup_insert_is_Some'; by right|].
      intros ia' Hia'. rec_simpl. apply lookup_insert_is_Some'. right. by apply Hk2.
  - destruct Hch as [[g2 Hkv2] Hk2]. wp_step. split; [by eapply kept_ready|]. apply Hk2.
Qed.
End scan.
