(* ===== verification/KvsStore.v ===== *)
(** * The key-value store is a map

    The operations of the store in any order: workers start, set and get
    pairs and clean their logs, and the maintenance thread goes through the
    logs.  The store does what the map from keys to the last values set does,
    until it runs out of memory. *)

From S2P Require Import Prelude Links F64 Jenkins Kvs KvsInv KvsLog KvsTable KvsAlloc KvsItems KvsClean KvsRequests KvsStart KvsMaint KvsScan.

Section store.
Context {cfg : settings} {plt : platform}.

Inductive kv_op :=
  | Start (ia : positive)
  | SetPair (ia : positive) (co : connection) (k : key)
  | GetPair (ia : positive) (co : connection) (k : key)
  | Clean (ia : positive) (idle : bool)
  | Maintain (ia : positive).

Definition exec (op : kv_op) : M kvs (option connection) :=
  match op with
  | Start ia => ialloc_init_allocator ia;; mret None
  | SetPair ia co k => set_request co k ia;; mret None
  | GetPair ia co k => co ← get_request co k ia; mret (Some co)
  | Clean ia idle => clean_log ia idle;; mret None
  | Maintain ia => ialloc_maintenance ia;; mret None
  end.

(** When an operation is called: by a worker that has started, with the keys
    of the workload and an idle connection. *)
Definition permitted (s : kvs) (op : kv_op) : Prop :=
  match op with
  | Start ia => allocs s !! ia = None
  | SetPair ia co k => is_Some (allocs s !! ia) ∧ key_ok k ∧ idle_connection co
  | GetPair ia _ k => is_Some (allocs s !! ia) ∧ key_ok k
  | Clean ia _ => is_Some (allocs s !! ia)
  | Maintain ia => ∃ a, allocs s !! ia = Some a ∧ maintainable a
  end.

(** What the operations do to the map, and what they return. *)
Definition map_step (V : gmap (list Z) (list Z)) (op : kv_op) : gmap (list Z) (list Z) :=
  match op with SetPair _ co k => <[bytes_of k := value_in co k]> V | _ => V end.
Definition map_reply (V : gmap (list Z) (list Z)) (op : kv_op) : option connection :=
  match op with GetPair _ co k => Some (reply co (V !! bytes_of k)) | _ => None end.

(** How the operations fail when there is no segment left. *)
Definition out_of_memory (op : kv_op) (e : err) : Prop :=
  match op with
  | Start _ => init_error e
  | SetPair _ _ _ => set_error e
  | GetPair _ _ _ | Clean _ _ => cleanup_error e
  | Maintain _ => False
  end.

(** The states of the store, and the map that it stands for. *)
Inductive runs : kvs → gmap (list Z) (list Z) → Prop :=
  | runs_start round_log2 hasht_size s :
      0 ≤ round_log2 (hasht_size / 64) < 64 →
      (hasht_init round_log2 true hasht_size;; ialloc_init true true) kvs_zero = Ok tt s → runs s ∅
  | runs_step s V op r s' :
      runs s V → permitted s op → exec op s = Ok r s' → runs s' (map_step V op).

Context (Hgood : good_store).

Definition stored (s : kvs) (V : gmap (list Z) (list Z)) : Prop :=
  ready s None (λ k, V !! k) ∧ ∀ k v, V !! k = Some v → Z.of_nat (length v) = valuesize.

(** One operation. *)
Lemma exec_stored s V op :
  stored s V → permitted s op →
  wpx (out_of_memory op) (exec op) (λ r s', r = map_reply V op ∧ stored s' (map_step V op)) s.
Proof using Hgood.
  intros [Hr HV] Hp. destruct op as [ia|ia co k|ia co k|ia idle|ia]; simpl in Hp |- *; apply wpx_bind.
  - eapply wpx_mono; [by apply wpx_ialloc_init_allocator|]. intros [] s' (Hr'&_). by apply wpx_ret.
  - destruct Hp as (Hia&Hk&Hco). eapply wpx_mono; [by apply wpx_set_request|]. intros [] s' [Hr' _]. apply wpx_ret.
    split; [done|]. split.
    + eapply ready_ext; [done|]. intros k'. simpl. case_decide as Hd; [subst; by rewrite lookup_insert_eq|].
      by rewrite lookup_insert_ne.
    + intros k' v. destruct (decide (bytes_of k = k')) as [<-|Hne].
      * rewrite lookup_insert_eq. intros [= <-]. by apply value_length.
      * rewrite lookup_insert_ne by done. apply HV.
  - destruct Hp as [Hia Hk]. eapply wpx_mono; [by apply wpx_get_request|]. intros co' s' (->&Hr'&_). by apply wpx_ret.
  - eapply wpx_mono; [by apply wpx_clean_log|]. intros n s' [Hr' _]. by apply wpx_ret.
  - destruct Hp as (a&Ha&Hm). apply wpx_wp. eapply wp_mono; [by eapply wp_ialloc_maintenance|].
    intros [] s' [Hr' _]. by apply wpx_ret.
Qed.

Lemma runs_stored s V : runs s V → stored s V.
Proof using Hgood.
  induction 1 as [round_log2 size s Hn Hs|s V op r s' _ IH Hp He].
  - split; [|done]. unfold hasht_init, ialloc_init, mbind, M_bind, modify in Hs. simpl in Hs. injection Hs as <-.
    set (n := u64 _). assert (0 < n) as Hpos.
    { unfold n. rewrite Z.shiftl_1_l. pose proof (Z.pow_pos_nonneg 2 (round_log2 (size / 64)) ltac:(lia) ltac:(lia)).
      rewrite u64_small; [done|]. split; [lia|]. apply Z.pow_lt_mono_r; lia. }
    eapply ready_ext; [exact (ready_start Hgood n Hpos)|]. intros k. by rewrite lookup_empty.
  - pose proof (exec_stored s V op IH Hp) as Hx. unfold wpx in Hx. rewrite He in Hx. apply Hx.
Qed.

(** C6: the key-value store refines a map.  In every state that the operations
    lead to, an operation that is called as the threads call it ends: keys and
    values together are shorter than 64 KiB, a request is put into a connection
    that is idle, and a round of maintenance starts with no segment that is
    half cleaned, or with room in the queue ([maintainable]).  A get
    returns the value last set for the key, a set changes the map at its key
    only, and starting a worker, cleaning a log and a round of the maintenance
    thread change nothing.  The only failures are those for want of a
    segment. *)
Theorem kvs_refines_map s V op :
  runs s V → permitted s op →
  match exec op s with
  | Ok r s' => r = map_reply V op ∧ runs s' (map_step V op)
  | Err e => out_of_memory op e
  end.
Proof using Hgood.
  intros Hr Hp. pose proof (exec_stored s V op (runs_stored s V Hr) Hp) as Hx. unfold wpx in Hx.
  destruct (exec op s) as [r s'|e] eqn:He; [|done]. split; [apply Hx|]. by eapply runs_step.
Qed.

(** C31: between operations, each called as the threads call it ([permitted]:
    pairs shorter than 64 KiB, maintenance of a [maintainable] allocator), the
    store is well formed.  Every segment is free,
    in one log or the reserve of one allocator; the items of a log follow each
    other without gaps, and its header counts the bytes of those that are dead;
    an item has a reference for the table and one for the queue, if it is in
    them, and no other; the buckets hold the items of the table, each once and
    under its hash, and no bucket is locked. *)
Theorem store_well_formed s V :
  runs s V → ∃ g T, kv_inv s g T [] None None ∧ unlocked s ∧ ∀ k, value_of s T k = V !! k.
Proof using Hgood. intros Hr. apply (runs_stored s V Hr). Qed.
End store.

(** A store of sixteen buckets and four segments; a worker sets a pair and gets
    it back. *)
Module Witness.
#[local] Instance small_settings : settings := Settings 100000 4 4 (f64_div (f64_of_Z 1) (f64_of_Z 2)) 5.
#[local] Instance small_platform : platform :=
  Platform 0x100000 (λ _, true) (λ _, true) (λ _, Item None 0 0 0 0 []).

Definition run {A} (m : M kvs A) (s : kvs) : kvs := match m s with Ok _ s' => s' | Err _ => s end.
Definition ends {A} (m : M kvs A) (s : kvs) : bool := match m s with Ok _ _ => true | Err _ => false end.

Definition k0 : key := Key 0x2003 (λ i, i mod 256) 14.
Definition full (n : Z) : connection := Connection 0 0 (replicate (Z.to_nat n) 7).
Definition co0 : connection := full BUFSIZE.

Definition s0 : kvs := run (hasht_init (λ _, 4) true 1024;; ialloc_init true true) kvs_zero.
Definition s1 : kvs := run (exec (Start 1)) s0.
Definition s2 : kvs := run (exec (SetPair 1 co0 k0)) s1.

Definition V2 : gmap (list Z) (list Z) := <[bytes_of k0 := value_in co0 k0]> ∅.

Lemma good : good_store.
Proof. split; unfold segsize, segmaxnum, segcqsize, valuesize, seg_base, small_settings, small_platform, sizeof_item; lia. Qed.

Lemma run_ends {A} (m : M kvs A) s : ends m s = true → ∃ r, m s = Ok r (run m s).
Proof. unfold ends, run. destruct (m s) as [r s'|e]; [by exists r|done]. Qed.

Lemma k0_ok : key_ok k0.
Proof. split; [intros i; by apply Z.mod_pos_bound|]. unfold valuesize, small_settings. simpl. lia. Qed.

Lemma full_buffer_length n : 0 ≤ n → Z.of_nat (length (tx_buf (full n))) = n.
Proof. intros. simpl. rewrite length_replicate. lia. Qed.

Lemma co0_idle : idle_connection co0.
Proof. split_and!; [done..|]. by apply full_buffer_length. Qed.

Lemma steps : runs s1 ∅ ∧ runs s2 V2 ∧ is_Some (allocs s2 !! 1%positive).
Proof.
  assert (runs s0 ∅) as H0.
  { destruct (run_ends (hasht_init (λ _, 4) true 1024;; ialloc_init true true) kvs_zero) as [[] He]; [by vm_compute|].
    eapply (runs_start (λ _, 4) 1024); [lia|exact He]. }
  assert (runs s1 ∅) as H1.
  { destruct (run_ends (exec (Start 1)) s0) as [r He]; [by vm_compute|].
    eapply (runs_step s0 ∅ (Start 1) r s1); [done|by vm_compute|exact He]. }
  assert (is_Some (allocs s1 !! 1%positive)) as Ha1 by (vm_compute; by eexists).
  assert (ends (exec (SetPair 1 co0 k0)) s1 = true) as He2 by (vm_compute; reflexivity).
  assert (bool_decide (is_Some (allocs s2 !! 1%positive)) = true) as Ha2 by (vm_compute; reflexivity).
  apply bool_decide_eq_true in Ha2. destruct (run_ends _ _ He2) as [r He].
  split_and!; [done| |done]. eapply (runs_step s1 ∅ (SetPair 1 co0 k0) r s2); [done| |exact He].
  split_and!; [done|apply k0_ok|apply co0_idle].
Qed.

Lemma get_ends : ends (exec (GetPair 1 co0 k0)) s2 = true.
Proof. vm_compute. reflexivity. Qed.

Lemma refine_ends s V op :
  ends (exec op) s = true →
  match exec op s with
  | Ok r s' => r = map_reply V op ∧ runs s' (map_step V op)
  | Err e => out_of_memory op e
  end → ∃ r s', exec op s = Ok r s' ∧ r = map_reply V op ∧ runs s' (map_step V op).
Proof. unfold ends. destruct (exec op s) as [r s'|e]; [by exists r, s'|done]. Qed.

Lemma V2_reply ia co : map_reply V2 (GetPair ia co k0) = Some (reply co (Some (value_in co0 k0))).
Proof. unfold map_reply, V2. by rewrite lookup_insert_eq. Qed.

Lemma kvs_refines_map_witness :
  ∃ r s3, exec (GetPair 1 co0 k0) s2 = Ok r s3 ∧ r = Some (reply co0 (Some (value_in co0 k0))) ∧ runs s3 V2.
Proof.
  destruct steps as (_&H2&Ha).
  destruct (refine_ends s2 V2 (GetPair 1 co0 k0) get_ends
    (kvs_refines_map good s2 V2 (GetPair 1 co0 k0) H2 (conj Ha k0_ok))) as (r&s3&He&Hr&Hrun).
  exists r, s3. exact (conj He (conj (eq_trans Hr (V2_reply 1 co0)) Hrun)).
Defined.

Lemma store_well_formed_witness :
  ∃ g T, kv_inv s2 g T [] None None ∧ unlocked s2 ∧ value_of s2 T (bytes_of k0) = Some (value_in co0 k0).
Proof.
  destruct steps as (_&H2&_).
  destruct (store_well_formed good s2 V2 H2) as (g&T&Hkv&Hu&Hv).
  exists g, T. split; [exact Hkv|]. split; [exact Hu|]. rewrite Hv. apply lookup_insert_eq.
Defined.
End Witness.
